(* ===== verification/_CoqProject ===== *)
-Q . S2P
Prelude.v
OrderedMap.v
Shards.v
Errors.v
Status.v
GraphStore.v
Utf8.v
EtcdKeys.v
EtcdSync.v
Hosts.v
Json.v
Config.v
ConfigSet.v
Encryption.v
Secrets.v
GraphDecode.v
Publication.v
AdminOps.v
SniMatch.v
RouteBuild.v
ControlPlane.v
TrafficSplit.v
Authority.v
HealthChecks.v
ApiBreaker.v
RequestVars.v
Limiting.v
LimitConn.v
LimitCount.v
Pipeline.v
RouteMatch.v
Selection.v
PassiveHealth.v
Discovery.v
Cache.v
ProxyService.v
IpRestriction.v
AuthPlugins.v
Csrf.v
LimitReq.v
Settings.v
EtcdStore.v
AdminWriters.v
SyncLoop.v
AdminHttp.v
Rewrite.v
Cors.v
ResponseRewrite.v
RequestBodies.v
RequestId.v
ProxyMirror.v
LocalPlugins.v
AiTransform.v
AiProxy.v
FileLogger.v
Logging.v
Inventory.v
StatusHttp.v
Runtime.v
ActiveChecks.v
MirrorTasks.v
Prometheus.v
Schema.v
Bootstrap.v
HealthTasks.v
RequestContext.v
