(* ===== verification/Prelude.v ===== *)
(** * PingSIX verification development

    PingSIX is an API gateway on Pingora, written in Rust.  Its control plane
    takes a configuration graph (upstreams, services, global rules, routes,
    certificates) from static YAML or from etcd, validates it, compiles it into
    an immutable runtime snapshot and publishes that snapshot to the proxy; an
    Admin API changes the graph through compare-and-swap commits.  Its data plane
    matches a request to a route, runs the plugins of the global rules and the
    route, picks a peer of the route's upstream and rewrites what passes by.
    This library models both as executable definitions and proves what makes
    them correct.

    ** How the parts interact

    - a request to the Admin API ([AdminHttp]) is authenticated, dispatched to a
      handler and answered from the outcome of an Admin operation ([AdminOps]):
      it reads a snapshot of the store ([GraphStore]), restores redacted secrets
      ([Secrets]), validates the resource ([Config]), encrypts it
      ([Encryption]), plans a commit whose candidate graph must decode and
      validate ([GraphDecode], [ConfigSet]) and commits it, fenced by the
      revisions of the snapshot; [AdminWriters] interleaves such writers;
    - the store is etcd ([EtcdStore], connected with the options of [Settings])
      or, for tests, memory; both are instances of the contract
      [GraphStoreLaws], under which a commit that ends in an error other than a
      conflict may have been applied all the same;
    - list and watch responses of etcd become stored graphs and coalesced changes
      ([EtcdKeys], [EtcdSync]) and are handed by the sync loop ([SyncLoop]) to the
      graph authority ([Authority]), which admits them and signals its worker;
    - the worker plans and compiles the latest target against the published
      snapshot ([ControlPlane], [RouteBuild], [TrafficSplit]), with the backends
      its upstreams resolve to ([Discovery]), and publishes it; publication
      reconciles the health checks ([HealthChecks]), settles the revision's
      record ([Publication]) and moves the probes' state ([Status]);
    - a TLS client gets the certificate of its server name ([SniMatch]); its
      request is routed ([RouteMatch]) and runs through the plugin pipeline
      ([Pipeline]), whose plugins read request values ([RequestVars]) and may
      end it with a gateway response;
    - the proxy service ([ProxyService]) then selects a backend ([Selection],
      [PassiveHealth]), sets the peer's timeouts, retries failed connections and
      reports outcomes to the passive counters; the response cache ([Cache])
      decides what may be stored and under which key.  A language-model route is
      served by [AiProxy] instead, with the bodies of [AiTransform];
    - a request may be copied to mirrors ([ProxyMirror], [MirrorTasks]); once
      served it is counted ([Prometheus]) and logged ([FileLogger]); the process's
      own messages go through [Logging], and its state is read at the status
      server ([StatusHttp]).

    ** Files, with the sources under [src/src]

    - [Prelude]: record update, results, string, byte and ordering lemmas;
    - [OrderedMap]: a [BTreeMap]'s order on a [gmap];
    - [Utf8]: well-formed UTF-8 and lossy decoding, as the standard library has them;
    - [Json]: the [serde_json] value type and its object operations;
    - [Errors]: [core/error.rs];  [Status]: [core/status.rs];
    - [GraphStore]: [proxy/graph_mutation/store.rs], the [GraphStore] and
      [GraphStoreLaws] classes (the seam and its contract), the in-memory store
      as an instance, [apply_watch_batch] of [decode.rs];
    - [EtcdKeys]: [config/etcd/keys.rs];  [EtcdSync]: the mapping functions of
      [config/etcd/sync.rs];  [SyncLoop]: its list and watch loop;  [EtcdStore]: [config/etcd/store.rs];
    - [Settings]: [config/mod.rs], [config/defaults.rs], [config/etcd/connect.rs];
    - [Hosts]: [config/node.rs] (hosts, addresses, node sets), with the address
      grammar of the standard library's parsers;
    - [Config]: [config/resources.rs], one Module per validated struct, and the
      configuration fingerprints;
    - [ConfigSet]: [proxy/control_plane/resources.rs] and the plugin inventory
      lookups of [plugins/mod.rs];
    - [Encryption]: [utils/encryption.rs], the [EncryptFields] derive
      ([pingsix-macros]), [transform_resource_secrets] of [config/mod.rs], the
      walker of [plugins/ai_proxy/config.rs];
    - [Secrets]: [proxy/graph_mutation/secrets.rs];
    - [GraphDecode]: [proxy/graph_mutation/decode.rs];
    - [Publication] and [Authority]: [proxy/graph_mutation/state.rs] and the
      ingestion half of [authority.rs];
    - [AdminOps] and [AdminWriters] (concurrent writers over any lawful store,
      with etcd as the example): the Admin half of [authority.rs], the certificate checks of [proxy/ssl.rs] and [proxy/upstream/discovery.rs];
    - [AdminHttp]: [admin/mod.rs] and the response builders of
      [utils/response.rs];
    - [RouteBuild]: [proxy/route.rs], [proxy/service.rs], [proxy/global_rule.rs]
      and the plugin ordering of [core/plugin/mod.rs];
    - [ControlPlane]: [proxy/control_plane/plan.rs] and [compile.rs];
    - [Inventory]: the plugin table and constructions of [plugins/mod.rs], which
      instantiate the inventory [ControlPlane] and [RouteBuild] are written over;
    - [Runtime]: [proxy/runtime.rs], which composes [ControlPlane], [RouteMatch],
      [SniMatch], [Status] and [HealthChecks];
    - [StatusHttp]: [service/status.rs];
    - [ActiveChecks]: the active checks of [proxy/upstream/load_balancer.rs];
    - [HealthChecks]: [proxy/upstream/health_check.rs] and the publication of
      [proxy/runtime.rs];  [HealthTasks]: how its tasks are ended and a displaced
      registration is restored;
    - [SniMatch]: the certificate matcher of [proxy/ssl.rs];
    - [RouteMatch]: the route matcher of [proxy/route.rs];
    - [Pipeline]: [core/plugin/pipeline.rs] and the gateway exits of
      [utils/response.rs];  [RequestContext]: the typed variables of a request
      and [plugins/ctx_keys.rs];
    - [RequestVars]: [utils/request.rs], [utils/apisix_vars.rs];
    - [Discovery], [Selection], [PassiveHealth]: [discovery.rs], [selection.rs]
      and [load_balancer.rs] of [proxy/upstream];
    - [ProxyService]: [service/http.rs], the peer selection of [proxy/route.rs];
    - [Cache]: [plugins/cache.rs], [plugins/cache/http.rs];
    - limiters: [Limiting] ([plugins/limiting.rs]), [Shards] (its bounded map,
      [plugins/limiter_shards.rs]), [LimitConn], [LimitCount], [LimitReq] and
      the circuit breaker [ApiBreaker], each the plugin of its name;
    - access: [IpRestriction], [AuthPlugins] (key-auth, basic-auth, jwt-auth),
      [Csrf], [Cors], each the plugins of its name under [plugins];
    - rewriting: [Rewrite] ([core/plugin/rewrite.rs], [plugins/redirect.rs],
      [plugins/proxy_rewrite.rs]), [ResponseRewrite]
      ([plugins/response_rewrite.rs]), [TrafficSplit]
      ([plugins/traffic_split.rs]);
    - the remaining request and response plugins: [RequestBodies]
      (client-control, grpc-web, request-validation), [RequestId],
      [ProxyMirror] and [MirrorTasks], [LocalPlugins] (uri-blocker,
      fault-injection, exit-transformer, echo, gzip, brotli), each the plugins
      of its name;
    - language models: [AiTransform] ([plugins/ai_proxy/provider.rs] and
      [transform.rs]) and [AiProxy] (its [config.rs], [upstream.rs], [mod.rs]);
    - observation: [FileLogger] ([plugins/file_logger.rs], [ctx_keys.rs]),
      [Prometheus] ([plugins/prometheus.rs]), [Logging] ([logging/mod.rs]);
    - the process: [Schema] ([config/schema.rs], the warnings about fields that
      are not recognised) and [Bootstrap] ([service/mod.rs], the loading of
      [config/mod.rs], [load_static] of [graph_mutation/authority.rs], the
      listeners' certificates of [proxy/ssl.rs]).

    ** Conventions

    A [String] is a byte string; where the code relies on its being UTF-8 the
    model says so ([Utf8.utf8_valid]).  A [HashMap] is a [gmap], iterated in the
    order of [map_to_list], or the list of its entries in the order of
    iteration: a theorem about an outcome that depends on that order quantifies
    over it.  Fallible code returns a [Result]; where the code can panic, the
    error side is [Stop E], a raised error or a [Panic].  State is passed
    explicitly, and records are updated with [r <| f := v |>].  [Arc] identity
    is an allocation number ([RouteBuild]).  Random nonces and ids come from a
    counter, so that two draws differ; clocks are arguments.  Concurrent code is
    a step function or relation over events; a step is what the code does under
    one lock or between two await points.

    Code outside the repository is a parameter: AES-GCM, Argon2 and Base64
    ([CipherSuite], [CipherLaws]), hashes, HMAC and the JWT library ([CacheEnv],
    [AuthLib], [JwtLib], [JwtLaws], [CsrfLib]), serde's parsing and printing ([Serde],
    [SplitSerde]), OpenSSL ([OpenSsl]), the load balancer built for an upstream
    and the prepared DNS material ([Compiler]), Pingora's balancers, the
    [matchit] router, the [http] crate's URIs and headers ([HttpTypes],
    [HttpLaws]), regular expressions ([RegexLib], [BodyLib]), networks, the
    etcd client ([EtcdClient], [EtcdLaws]), URL parsing and files ([UrlParser],
    [FileSystem], [UrlForms]), JSON Schema ([SchemaLib]), JSON text ([JsonBytes],
    [AiSerde]), the log writer's file and encodings ([LogLib]), the probes'
    defaults and header checks ([ProbeLib]).  The laws assumed of them are their documented behaviour, and
    every theorem that uses one has a witness at a concrete instance.

    ** What the theorems show

    - serving: the runtime always serves one committed, valid graph; only the
      latest submission publishes; no submission is forgotten ([Authority]);
      compilation against the previous snapshot gives exactly the candidate's
      objects, keeps no stale reference, and prepares exactly what is rebuilt
      ([ControlPlane]); plugins merge and
      are chosen as configured ([RouteBuild], [TrafficSplit]);
    - storing: interleaved writers serialise and keep the graph valid, lost
      replies of the store included ([AdminWriters]); DELETE respects references
      ([GraphDecode]); a PUT is read back ([AdminOps]); the in-memory store meets the contract
      ([GraphStore]), and so does etcd's, calls of unknown outcome included
      ([EtcdStore]); an Admin request changes what it names, possibly behind a
      503, and nothing without the key ([AdminHttp]); etcd is contacted over TLS exactly when it
      is configured ([Settings]);
    - secrets: storage, rotation and GET-edit-PUT round trips, redaction that
      does not depend on the secrets ([Secrets]);
    - ingestion: list mapping, watch coalescing, key round trips and namespace
      isolation ([EtcdSync], [EtcdKeys]); whatever fails, the runtime serves the
      namespace as it was at the revision it reports, and a failed step leaves
      its graphs alone ([SyncLoop]);
    - operation: probes during outages and reconnections ([Status]), stable and
      visible publication outcomes ([Publication]), health checks that follow the
      published snapshot ([HealthChecks], [Runtime]) and tasks that a shutdown
      ends in bounded time ([HealthTasks]), DNS answers that survive
      failures for a bounded time ([Discovery]); diagnostics that only the
      configured key opens ([StatusHttp]); which upstreams a probe can be built
      for ([ActiveChecks]);
    - inventory: every plugin's declared phases are the hooks it implements, and
      a request whose credentials are refused is shown to no cache, limiter,
      mirror or rewrite of its route ([Inventory]);
    - observation: a request is one line of the log, whatever it contains, and
      the writer keeps lines in order and ends ([FileLogger]); the process log
      goes out in order, counts what it drops and keeps its newest backups
      ([Logging]); the label values that clients can create are bounded
      ([Prometheus]);
    - language models: the body a provider is sent is a well-formed chat with the
      forced limit ([AiTransform]); one instance owns a request, which reaches
      the provider with the configured credentials and no other ([AiProxy]);
    - routing and exits: the most specific certificate ([SniMatch]), the best
      route ([RouteMatch]), plugins in order up to the first rejection and
      correctly framed gateway responses ([Pipeline]), templates ([RequestVars]);
    - upstreams: the candidate iterator ends and visits every backend once by
      priority ([Selection]); passive counters are the current runs of failures
      and probes are exclusive ([PassiveHealth]); timeouts have their documented
      precedence, retries end, a tripped backend is left ([ProxyService]);
    - limits: limiter state is bounded whatever keys clients present ([Shards]);
      requests of a key share one counter while it is held, and concurrency,
      windows and the leaky bucket stay within their configured bounds
      ([LimitConn], [LimitCount], [LimitReq]); the circuit breaker opens
      and closes at its thresholds ([ApiBreaker]);
    - access: credentials gate requests and are hidden ([AuthPlugins]), tokens
      are double-submitted, signed and fresh ([Csrf]), the claim
      in the forwarded line that is read cannot forge an address
      ([IpRestriction]), the plugin's cross-origin grants are minimal and
      cacheable ([Cors]), credentials never reach the shared cache ([Cache]);
    - rewriting: redirects cannot be steered, percent encoding reads back,
      upstream requests carry exactly the configured fields ([Rewrite]); bodies
      below the limit are rewritten independently of their chunks, with correct
      framing ([ResponseRewrite]), or wrapped once ([LocalPlugins]);
    - bodies, identifiers and mirrors: a body is capped, or held back until it
      is validated ([RequestBodies]); request identifiers are lossless, sorted
      and uniform ([RequestId]); concurrent mirrors share one lookup that strands
      no one, and a mirrored body has no holes ([ProxyMirror]); mirrors hold a
      bounded number of permits and give every one back ([MirrorTasks]); instances
      with keys of their own never share state, the mirroring plugin without them
      does ([RequestContext]);
    - start-up: a static start serves exactly the file, ready at once; with etcd
      nothing is ready before a publication; the Admin API is served where it
      may be; listeners are bound as configured ([Bootstrap]); a field is warned
      about exactly when the table lacks it, with the nearest one by edit
      distance ([Schema]);
    - validation: acceptance of upstreams, routes and static sections, canonical
      node sets and addresses, fingerprints ([Config], [ConfigSet], [Hosts]).

    ** Bounds and fuel

    [Publication.trim_loop] runs with the number of records as fuel, and each
    round removes one; [Hosts.read_groups] with the number of groups its caller
    asks for; the template loops of [RequestVars], [Rewrite] and
    [ResponseRewrite] with the length of the text plus one, each turn consuming
    a character; [Selection.cursor_next] with a computed number of turns and
    [ProxyService.connect_loop], the framework's loop around the callbacks, with
    one attempt more than the retries, both proved to suffice.  Every other
    recursion is structural.  Weights are [u32], their sum a [u64] that cannot
    overflow; revisions are [i64] as etcd delivers them; generation counters are
    [u64] and are taken not to wrap.  The [f64] of the limiters is a type class;
    the bounds hold of exact rationals.

    ** What is not modelled

    Network and file I/O, and Pingora's server with its own section of the
    configuration.  Pingora's own balancers and the probing of its
    health checks, which are built here and run there; the registration of
    metrics, the buckets of histograms and the floating-point latency; the text
    of tracing events.  The text of validator's field errors is not modelled,
    only acceptance.  JSON numbers are opaque; documents that differ in the sign
    of zero are not told apart.  A submission and the shutdown of the worker are
    taken to be atomic with respect to each other: the window between the
    submission's lifecycle check and its signal is not split.  A limiter's
    bucket sees times that do not go back, although the source reads the clock
    before it takes the shard's lock. *)

From Stdlib Require Import ZArith Lia.
From stdpp Require Import base tactics gmap strings fin_maps option numbers list.

(** ** Scope and hint database *)

Declare Scope pingsix_scope.
Delimit Scope pingsix_scope with pingsix.
Open Scope pingsix_scope.

Create HintDb pingsix.

(** Concatenation of byte strings computes on a known head. *)
#[global] Arguments String.append !_ _ / : simpl nomatch.

(** ** Record update

    [Eta R] rebuilds a record from its projections.  One instance per record is
    all a component writes; the setter of every field is derived from it, so
    [r <| f := v |>] reads like the field assignment of the source. *)

Class Eta (R : Type) := eta_expand : R -> R.
Class Setter {R T : Type} (proj : R -> T) := update_field : (T -> T) -> R -> R.
Arguments update_field {R T} proj {Setter} f r /.

Ltac derive_setter :=
  match goal with
  | |- @Setter ?R ?T ?proj =>
    let e := constr:(_ : Eta R) in
    let e := lazymatch e with ?x => x end in
    let b := eval cbv beta in e in
    let h := lazymatch b with (?x ?a ?b) => constr:(x a b) | (?x ?a) => constr:(x a) | ?x => x end in
    let b := eval unfold h in b in
    let b := eval pattern proj in b in
    lazymatch b with
    | ?F _ =>
      let r := constr:(fun f : T -> T => F (fun r : R => f (proj r))) in
      let r := eval cbv beta in r in
      exact r
    end
  end.
#[export] Hint Extern 0 (Setter _) => derive_setter : typeclass_instances.

Notation "r <| f := v |>" := (update_field f (fun _ => v) r)
  (at level 1, f at next level, v at level 200, left associativity,
   format "r  <| f  :=  v |>") : pingsix_scope.

(** ** Machine integers

    Unsigned integers are [Z] values; [wrap w] is the two's complement
    truncation that Rust's release-profile arithmetic performs. *)

Definition u16_max : Z := 2 ^ 16 - 1.
Definition u32_max : Z := 2 ^ 32 - 1.
Definition u64_max : Z := 2 ^ 64 - 1.
Definition wrap (w z : Z) : Z := z `mod` 2 ^ w.
Definition wrapping_add (w x y : Z) : Z := wrap w (x + y).

Lemma wrap_small (w z : Z) : (0 <= z < 2 ^ w)%Z -> wrap w z = z.
Proof. apply Z.mod_small. Qed.

Lemma wrap_range (w z : Z) : (0 <= w)%Z -> (0 <= wrap w z < 2 ^ w)%Z.
Proof. intros Hw. apply Z.mod_pos_bound. by apply Z.pow_pos_nonneg. Qed.

(** ** Monotonic time

    [Instant] is a monotonic clock reading in nanoseconds; [Duration] a
    non-negative number of nanoseconds. *)

Abbreviation Instant := Z (only parsing).
Abbreviation Duration := Z (only parsing).

Definition nanos_per_sec : Z := 1000000000.
Definition from_secs (secs : Z) : Duration := (secs * nanos_per_sec)%Z.

(** [Instant::elapsed] and [Instant::duration_since] saturate at zero. *)
Definition duration_since (now earlier : Instant) : Duration := Z.max 0 (now - earlier).
Definition as_secs (d : Duration) : Z := (d / nanos_per_sec)%Z.

(** ** Generic tactics *)

(** Split a hypothesis or goal built from boolean connectives. *)
Ltac bool_to_prop :=
  repeat match goal with
  | H : _ && _ = true |- _ => apply andb_true_iff in H; destruct H
  | H : _ || _ = false |- _ => apply orb_false_iff in H; destruct H
  | H : negb _ = true |- _ => apply negb_true_iff in H
  | H : negb _ = false |- _ => apply negb_false_iff in H
  | H : bool_decide _ = true |- _ => apply bool_decide_eq_true in H
  | H : bool_decide _ = false |- _ => apply bool_decide_eq_false in H
  | |- _ && _ = true => apply andb_true_iff; split
  | |- _ || _ = false => apply orb_false_iff; split
  | |- negb _ = true => apply negb_true_iff
  | |- bool_decide _ = true => apply bool_decide_eq_true
  | |- bool_decide _ = false => apply bool_decide_eq_false
  end.

(** Case analysis on every [match] of the goal or the context. *)
Ltac case_all :=
  repeat (first [case_match | progress simplify_eq/=]).

(** ** Error sums

    [Result] is Rust's [Result]: [inl] is [Ok], [inr] is [Err]. *)
Inductive Result (A E : Type) : Type :=
| Ok (a : A)
| Err (e : E).
Arguments Ok {A E} a.
Arguments Err {A E} e.

#[export] Instance Result_ret {E} : MRet (fun A => Result A E) := fun A a => Ok a.

Definition and_then {A B E} (r : Result A E) (f : A -> Result B E) : Result B E :=
  match r with Ok a => f a | Err e => Err e end.
Definition map_err {A E F} (f : E -> F) (r : Result A E) : Result A F :=
  match r with Ok a => Ok a | Err e => Err (f e) end.
Definition ok_or {A E} (e : E) (o : option A) : Result A E :=
  match o with Some a => Ok a | None => Err e end.
Definition is_ok {A E} (r : Result A E) : bool :=
  match r with Ok _ => true | Err _ => false end.

Notation "'let?' x ':=' r 'in' k" := (and_then r (fun x => k))
  (at level 10, x pattern, r at level 100, k at level 200,
   format "'let?'  x  ':='  r  'in' '//' k") : pingsix_scope.

Lemma and_then_ok {A B E} (r : Result A E) (f : A -> Result B E) (b : B) :
  and_then r f = Ok b <-> exists a, r = Ok a /\ f a = Ok b.
Proof. destruct r; simpl; split; [eauto | by intros (? & [= ->] & ?) | done | by intros (? & ? & ?)]. Qed.

(** Left-to-right traversal that stops at the first error: the [for] loop of
    the source with [?] in its body. *)
Fixpoint try_fold {A S E} (f : S -> A -> Result S E) (s : S) (l : list A) : Result S E :=
  match l with
  | [] => Ok s
  | x :: l' => let? s' := f s x in try_fold f s' l'
  end.

Definition try_for_each {A E} (f : A -> Result unit E) (l : list A) : Result unit E :=
  try_fold (fun _ x => f x) () l.

Lemma try_fold_app {A S E} (f : S -> A -> Result S E) s l1 l2 :
  try_fold f s (l1 ++ l2) = let? s' := try_fold f s l1 in try_fold f s' l2.
Proof.
  revert s; induction l1 as [|x l1 IH]; intros s; simpl; [done|].
  destruct (f s x); simpl; auto.
Qed.

Lemma try_fold_inv {A S E} (P : S -> Prop) (f : S -> A -> Result S E) l s s' :
  (forall s x s', x ∈ l -> P s -> f s x = Ok s' -> P s') ->
  P s -> try_fold f s l = Ok s' -> P s'.
Proof.
  revert s; induction l as [|x l IH]; intros s Hstep Hs; simpl.
  { by intros [= <-]. }
  intros (s1 & Hx & Hl)%and_then_ok.
  apply (IH s1); [|by eapply Hstep, Hx; [apply list_elem_of_here|]|done].
  intros s2 y s3 Hy. apply Hstep. by apply list_elem_of_further.
Qed.

Lemma try_for_each_ok {A E} (f : A -> Result unit E) l :
  try_for_each f l = Ok () <-> forall x, x ∈ l -> f x = Ok ().
Proof.
  unfold try_for_each. induction l as [|x l IH]; simpl.
  { split; [intros _ x Hx; by apply not_elem_of_nil in Hx | done]. }
  split.
  - intros ([] & Hx & Hl)%and_then_ok y [->|Hy]%elem_of_cons.
    + done.
    + by apply IH.
  - intros H. rewrite (H x) by apply list_elem_of_here. simpl.
    apply IH. intros y Hy. apply H. by apply list_elem_of_further.
Qed.

(** ** Panics

    An operation of the source that can panic returns [Result A (Stop E)]:
    [Raise] carries the error it returns, [Panic] stands for unwinding, which
    no error handler of the source intercepts. *)
Inductive Stop (E : Type) : Type :=
| Raise (e : E)
| Panic (what : string).
Arguments Raise {E} e.
Arguments Panic {E} what.

Definition map_stop {E F} (f : E -> F) (s : Stop E) : Stop F :=
  match s with Raise e => Raise (f e) | Panic w => Panic w end.
Definition map_raise {A E F} (f : E -> F) (r : Result A (Stop E)) : Result A (Stop F) :=
  map_err (map_stop f) r.
Definition lift_err {A E} (r : Result A E) : Result A (Stop E) := map_err Raise r.

Definition panics {A E} (r : Result A (Stop E)) : bool :=
  match r with Err (Panic _) => true | _ => false end.
