(* ===== verification/OrderedMap.v ===== *)
(** * Ordered maps

    The part of [BTreeMap] the source relies on, over [gmap]: iteration in key
    order, the first entry, and the first entry that satisfies a test. *)

From Stdlib Require Import ZArith Lia Sorted.
From stdpp Require Import base tactics gmap fin_maps fin_sets option sorting sets list.
From S2P Require Import Prelude.

Open Scope Z_scope.

(** Iteration of a [BTreeMap]: ascending keys. *)
Definition in_order {A} (m : gmap Z A) : list (Z * A) :=
  omap (fun k => pair k <$> m !! k) (merge_sort Z.le (elements (dom m))).

(** [BTreeMap::pop_first] *)
Definition pop_first {A} (m : gmap Z A) : option (Z * A * gmap Z A) :=
  match in_order m with
  | [] => None
  | (k, x) :: _ => Some (k, x, delete k m)
  end.

Lemma elem_of_in_order {A} (m : gmap Z A) k x : (k, x) ∈ in_order m <-> m !! k = Some x.
Proof.
  unfold in_order. rewrite list_elem_of_omap. setoid_rewrite (merge_sort_Permutation Z.le).
  setoid_rewrite elem_of_elements. setoid_rewrite elem_of_dom. split.
  - intros (k' & _ & H). destruct (m !! k') eqn:E; simpl in H; naive_solver.
  - intros H. exists k. rewrite H. naive_solver.
Qed.

Lemma in_order_sorted {A} (m : gmap Z A) : StronglySorted (fun a b => a.1 <= b.1) (in_order m).
Proof.
  unfold in_order. pose proof (StronglySorted_merge_sort Z.le (elements (dom m))) as Hs.
  induction Hs as [|k l Hs IH Hall]; simpl; [constructor|].
  destruct (m !! k); simpl; [|done]. constructor; [done|].
  apply Forall_forall. intros [k' x] (k2 & Hk2 & H)%list_elem_of_omap.
  rewrite Forall_forall in Hall. destruct (m !! k2); simpl in *; [|done]. simplify_eq. by apply Hall.
Qed.

Lemma find_first {A} (f : Z * A -> bool) l x :
  StronglySorted (fun a b => a.1 <= b.1) l -> List.find f l = Some x ->
  x ∈ l /\ f x = true /\ forall y, y ∈ l -> f y = true -> x.1 <= y.1.
Proof.
  induction 1 as [|a l Hs IH Hall]; simpl; [done|]. destruct (f a) eqn:E.
  - intros [= <-]. split_and!; [left|done|]. intros y [->|Hy]%elem_of_cons _; [lia|].
    rewrite Forall_forall in Hall. by apply Hall.
  - intros (? & ? & Hmin)%IH. split_and!; [by right|done|].
    intros y [->|Hy]%elem_of_cons Hf; [congruence|by apply Hmin].
Qed.

Lemma pop_first_some {A} (m m' : gmap Z A) k x :
  pop_first m = Some (k, x, m') -> m !! k = Some x /\ m' = delete k m /\ forall k', is_Some (m !! k') -> k <= k'.
Proof.
  unfold pop_first. pose proof (in_order_sorted m) as Hs. destruct (in_order m) as [|[k0 x0] l] eqn:E; [done|].
  intros [= -> -> <-]. split_and!; [apply elem_of_in_order; rewrite E; by left|done|].
  intros k' [y Hy%elem_of_in_order]. rewrite E in Hy. apply StronglySorted_inv in Hs as [_ Hall].
  rewrite Forall_forall in Hall. apply elem_of_cons in Hy as [[= -> ->]|Hy]; [lia|by apply Hall in Hy].
Qed.

Lemma pop_first_none {A} (m : gmap Z A) : pop_first m = None -> m = ∅.
Proof.
  unfold pop_first. destruct (in_order m) as [|[k0 x0] l] eqn:E; [|done]. intros _. apply map_empty. intros k.
  apply eq_None_not_Some. intros [x Hx%elem_of_in_order]. rewrite E in Hx. by apply not_elem_of_nil in Hx.
Qed.
