(* ===== verification/Shards.v ===== *)
(** * Bounded limiter shards ([src/src/plugins/limiter_shards.rs], [limiting.rs])

    The recency index, the capacity policy and the budgeted sweep that the
    limiter plugins and the circuit breaker share. *)

From Stdlib Require Import ZArith Lia.
From stdpp Require Import base tactics gmap fin_maps strings pretty option sets list.
From S2P Require Import Prelude OrderedMap.

Open Scope Z_scope.

Definition MAX_KEYS : nat := 4096.
Definition LIMIT_SHARDS : nat := 16.
Definition PER_SHARD_MAX : nat := MAX_KEYS / LIMIT_SHARDS.
Definition PER_SHARD_REGULAR_MAX : nat := PER_SHARD_MAX - 1.
Definition CLEANUP_BUDGET : nat := 8.

(** ** [TouchOrder] *)

Record TouchOrder : Type := { oldest : gmap Z string; touches : gmap string Z; next_touch : Z }.
#[export] Instance eta_TouchOrder : Eta TouchOrder := fun o => Build_TouchOrder (oldest o) (touches o) (next_touch o).

Definition TouchOrder_default : TouchOrder := {| oldest := ∅; touches := ∅; next_touch := 0 |}.

(** Forget the former token of [key]. *)
Definition untouch (key : string) (self : TouchOrder) : TouchOrder :=
  match touches self !! key with
  | Some previous_touch => self <| touches := delete key (touches self) |> <| oldest := delete previous_touch (oldest self) |>
  | None => self
  end.

Definition touch (key : string) (self : TouchOrder) : TouchOrder :=
  let self := untouch key self in
  let next := wrapping_add 64 (next_touch self) 1 in
  let next := if next =? 0 then 1 else next in
  let self := self <| next_touch := next |> in
  self <| oldest := <[next := key]> (oldest self) |> <| touches := <[key := next]> (touches self) |>.

Definition pop_oldest (self : TouchOrder) : option (Z * string * TouchOrder) :=
  match pop_first (oldest self) with
  | Some (t, key, rest) => Some (t, key, self <| oldest := rest |> <| touches := delete key (touches self) |>)
  | None => None
  end.

Definition restore (t : Z) (key : string) (self : TouchOrder) : TouchOrder :=
  self <| oldest := <[t := key]> (oldest self) |> <| touches := <[key := t]> (touches self) |>.

(** ** [Shard] *)

Inductive SweepMiss : Type := Restore | PushBack.

Record Shard (V : Type) : Type := { entries : gmap string V; touch_order : TouchOrder }.
Arguments Build_Shard {V} _ _.
Arguments entries {V} _.
Arguments touch_order {V} _.

Section shard.
Context {V : Type}.
#[export] Instance eta_Shard : Eta (Shard V) := fun s => Build_Shard (entries s) (touch_order s).

Definition Shard_default : Shard V := {| entries := ∅; touch_order := TouchOrder_default |}.

Definition shard_len (self : Shard V) : nat := size (entries self).
Definition contains_key (key : string) (self : Shard V) : bool := bool_decide (is_Some (entries self !! key)).
Definition shard_touch (key : string) (self : Shard V) : Shard V := self <| touch_order := touch key (touch_order self) |>.

Definition evict_oldest (self : Shard V) : Shard V :=
  match pop_oldest (touch_order self) with
  | Some (_, key, rest) => self <| touch_order := rest |> <| entries := delete key (entries self) |>
  | None => self
  end.

(** One turn of the sweep; [None] is the [break]. *)
Definition sweep_turn (evict : V -> bool) (on_miss : SweepMiss) (self : Shard V) : option (Shard V) :=
  match pop_oldest (touch_order self) with
  | None => None
  | Some (t, key, rest) =>
    let self := self <| touch_order := rest |> in
    Some (if match entries self !! key with Some v => evict v | None => true end
          then self <| entries := delete key (entries self) |>
          else match on_miss with
               | Restore => self <| touch_order := restore t key (touch_order self) |>
               | PushBack => shard_touch key self
               end)
  end.

Fixpoint sweep_loop (budget : nat) (evict : V -> bool) (on_miss : SweepMiss) (self : Shard V) : Shard V :=
  match budget with
  | O => self
  | S budget =>
    match sweep_turn evict on_miss self with
    | Some self => sweep_loop budget evict on_miss self
    | None => self
    end
  end.

Definition sweep (evict : V -> bool) (on_miss : SweepMiss) (self : Shard V) : Shard V :=
  sweep_loop CLEANUP_BUDGET evict on_miss self.

(** [admit_key] returns the storage key of the entry it hands out. *)
Definition admit_key (key overflow_key : string) (sweep : Shard V -> Shard V) (self : Shard V) : string * Shard V :=
  let new_key := negb (contains_key key self) in
  let self := if new_key && (PER_SHARD_REGULAR_MAX <=? shard_len self)%nat then sweep self else self in
  let storage_key := if negb new_key || (shard_len self <? PER_SHARD_REGULAR_MAX)%nat then key else overflow_key in
  (storage_key, shard_touch storage_key self).

(** The caller's use of the entry: it writes the slot it was handed. *)
Definition fill (key : string) (v : V) (self : Shard V) : Shard V := self <| entries := <[key := v]> (entries self) |>.

End shard.

#[local] Arguments wrapping_add : simpl never.

(** ** The recency index *)

(** The two indexes are inverse, and every token was handed out. *)
Record order_wf (o : TouchOrder) : Prop := {
  ow_inverse t k : oldest o !! t = Some k <-> touches o !! k = Some t;
  ow_handed t k : oldest o !! t = Some k -> 1 <= t <= next_touch o;
  ow_next : 0 <= next_touch o;
}.

Lemma order_wf_default : order_wf TouchOrder_default.
Proof. split; simpl; [|done|lia]. intros t k. by rewrite !lookup_empty. Qed.

Lemma untouch_wf key o : order_wf o -> order_wf (untouch key o).
Proof.
  intros [Hi Hh Hn]. unfold untouch. destruct (touches o !! key) as [p|] eqn:E; [|done].
  apply Hi in E as E'. split; simpl; [|intros t k [_ ?]%lookup_delete_Some; by eapply Hh|done].
  intros t k. rewrite !lookup_delete_Some. rewrite Hi. split; intros [Hne Hk]; (split; [|done]).
  - intros ->. apply Hne. congruence.
  - intros ->. apply Hi in Hk. congruence.
Qed.

Lemma untouch_next key o : next_touch (untouch key o) = next_touch o.
Proof. unfold untouch. by case_match. Qed.

Lemma untouch_touches key o k : touches (untouch key o) !! k = if decide (k = key) then None else touches o !! k.
Proof.
  unfold untouch. case_decide as Hk; [subst k|].
  - destruct (touches o !! key) eqn:E; simpl; [by rewrite lookup_delete_eq|done].
  - destruct (touches o !! key) eqn:E; simpl; [by rewrite lookup_delete_ne|done].
Qed.

Lemma touch_next key o : 0 <= next_touch o < 2 ^ 64 - 1 -> next_touch (touch key o) = next_touch o + 1.
Proof.
  intros Hb. unfold touch; simpl. rewrite untouch_next. unfold wrapping_add.
  rewrite wrap_small by lia. destruct (Z.eqb_spec (next_touch o + 1) 0); simpl; lia.
Qed.

Lemma touch_touches key o : dom (touches (touch key o)) = {[ key ]} ∪ dom (touches o).
Proof.
  apply set_eq. intros k. unfold touch; simpl. rewrite dom_insert, !elem_of_union, elem_of_singleton.
  rewrite !elem_of_dom, untouch_touches. case_decide; naive_solver.
Qed.

Lemma touch_wf key o : order_wf o -> next_touch o < 2 ^ 64 - 1 -> order_wf (touch key o).
Proof.
  intros Hwf Hb. pose proof (untouch_wf key o Hwf) as [Hi Hh Hn]. pose proof (untouch_next key o) as Hun.
  assert (touches (untouch key o) !! key = None) as Hnone by (by rewrite untouch_touches, decide_True).
  pose proof (ow_next _ Hwf) as H0. pose proof (touch_next key o ltac:(lia)) as Hnx.
  assert (forall t k, oldest (touch key o) !! t = Some k <->
    (t = next_touch o + 1 /\ k = key) \/ (t <> next_touch o + 1 /\ oldest (untouch key o) !! t = Some k)) as Hold.
  { intros t k. unfold touch in Hnx |- *; simpl in *. rewrite Hnx, lookup_insert_Some. naive_solver. }
  assert (forall k t, touches (touch key o) !! k = Some t <->
    (t = next_touch o + 1 /\ k = key) \/ (k <> key /\ touches (untouch key o) !! k = Some t)) as Htch.
  { intros k t. unfold touch in Hnx |- *; simpl in *. rewrite Hnx, lookup_insert_Some. naive_solver. }
  split; [intros t k|intros t k|lia].
  - rewrite Hold, Htch. rewrite Hi. split; intros [?|[Hne Hk]]; [by left| |by left|]; right; (split; [|done]).
    + intros ->. congruence.
    + intros ->. apply Hi, Hh in Hk. lia.
  - rewrite Hold, Hnx. intros [[-> _]|[_ Hk]]; [lia|]. apply Hh in Hk. lia.
Qed.

Lemma pop_oldest_some o t key rest :
  order_wf o -> pop_oldest o = Some (t, key, rest) ->
  order_wf rest /\ next_touch rest = next_touch o /\ touches o !! key = Some t /\ touches rest = delete key (touches o) /\
  oldest rest = delete t (oldest o) /\ forall t', is_Some (oldest o !! t') -> t <= t'.
Proof.
  intros [Hi Hh Hn]. unfold pop_oldest. destruct (pop_first (oldest o)) as [[[t0 k0] m]|] eqn:E; [|done].
  intros [= -> -> <-]. apply pop_first_some in E as (Ht & -> & Hmin). split_and!; simpl; try done; [|by apply Hi].
  split; simpl; [|intros t' k' [_ ?]%lookup_delete_Some; by eapply Hh|done].
  intros t' k'. rewrite !lookup_delete_Some, Hi. apply Hi in Ht as Ht'. split; intros [Hne Hk]; (split; [|done]).
  - intros ->. congruence.
  - intros ->. apply Hi in Hk. congruence.
Qed.

Lemma pop_oldest_none o : order_wf o -> pop_oldest o = None -> touches o = ∅.
Proof.
  intros [Hi _ _] Hp. unfold pop_oldest in Hp. destruct (pop_first (oldest o)) as [[[t0 k0] m]|] eqn:E; [done|].
  apply pop_first_none in E. apply map_empty. intros k. apply eq_None_not_Some. intros [t Ht%Hi]. by rewrite E in Ht.
Qed.

(** Restoring the entry just popped undoes the pop. *)
Lemma restore_pop o t key rest : order_wf o -> pop_oldest o = Some (t, key, rest) -> restore t key rest = o.
Proof.
  intros Hwf Hp. destruct (pop_oldest_some _ _ _ _ Hwf Hp) as (_ & Hn & Ht & Htch & Hold & _).
  unfold restore. destruct o as [ol tc nx], rest as [ol' tc' nx']; simpl in *. subst.
  f_equal; apply insert_delete_id; [by apply (ow_inverse _ Hwf)|done].
Qed.

#[local] Opaque touch.

(** ** Shards *)

(** A shard tracks the recency of exactly its entries, and its last slot is
    only ever taken by the overflow entry. *)
Record shard_wf {V} (overflow_key : string) (s : Shard V) : Prop := {
  sw_order : order_wf (touch_order s);
  sw_tracks : dom (touches (touch_order s)) = dom (entries s);
  sw_size : (size (entries s) <= PER_SHARD_REGULAR_MAX)%nat \/
            (size (entries s) <= PER_SHARD_MAX)%nat /\ is_Some (entries s !! overflow_key);
}.

Section shard_facts.
Context {V : Type} (overflow_key : string).
Implicit Types (s : Shard V) (evict : V -> bool).

Lemma shard_wf_default : shard_wf overflow_key (Shard_default : Shard V).
Proof. split; [apply order_wf_default|done|]. left. simpl. rewrite map_size_empty. lia. Qed.

Lemma shard_wf_max s : shard_wf overflow_key s -> (size (entries s) <= PER_SHARD_MAX)%nat.
Proof. intros [_ _ [H|[H _]]]; unfold PER_SHARD_REGULAR_MAX in *; lia. Qed.

(** What [n] turns of a sweep may do. *)
Record swept (n : nat) evict s s' : Prop := {
  sp_wf : shard_wf overflow_key s';
  sp_sub : entries s' ⊆ entries s;
  sp_evicted k v : entries s !! k = Some v -> entries s' !! k = None -> evict v = true;
  sp_count : (size (entries s) <= size (entries s') + n)%nat;
  sp_touches : next_touch (touch_order s') <= next_touch (touch_order s) + Z.of_nat n;
}.

Lemma swept_refl evict s n : shard_wf overflow_key s -> swept n evict s s.
Proof. split; [done..|congruence|lia|lia]. Qed.

Lemma swept_trans evict s1 s2 s3 n m : swept n evict s1 s2 -> swept m evict s2 s3 -> swept (n + m) evict s1 s3.
Proof.
  intros [? Hs1 He1 Hc1 Ht1] [? Hs2 He2 Hc2 Ht2]. split; [done|by etrans| |lia|lia].
  intros k v Hk Hn. destruct (entries s2 !! k) as [w|] eqn:E; [|by eapply He1].
  pose proof (lookup_weaken _ _ _ _ E Hs1). assert (w = v) as -> by congruence. by eapply He2.
Qed.

Lemma shard_size_sub s s' :
  shard_wf overflow_key s -> entries s' ⊆ entries s ->
  (size (entries s') <= PER_SHARD_REGULAR_MAX)%nat \/
  (size (entries s') <= PER_SHARD_MAX)%nat /\ is_Some (entries s' !! overflow_key).
Proof.
  intros Hwf Hsub. pose proof (map_subseteq_size _ _ Hsub) as Hsz. pose proof (shard_wf_max _ Hwf) as Hm.
  destruct (entries s' !! overflow_key) eqn:E; [right; split; [lia|by eexists]|left].
  destruct (sw_size _ _ Hwf) as [?|[_ [v Hv]]]; [lia|].
  assert (entries s' ⊆ delete overflow_key (entries s)) as Hd.
  { apply map_subseteq_spec. intros k w Hk. rewrite lookup_delete_ne; [by eapply lookup_weaken|]. intros ->. congruence. }
  apply map_subseteq_size in Hd. rewrite map_size_delete, Hv in Hd. simpl in Hd. unfold PER_SHARD_REGULAR_MAX. lia.
Qed.

Lemma sweep_turn_swept evict on_miss s s' :
  shard_wf overflow_key s -> next_touch (touch_order s) < 2 ^ 64 - 1 ->
  sweep_turn evict on_miss s = Some s' -> swept 1 evict s s'.
Proof.
  intros Hwf Hb Ht. unfold sweep_turn in Ht. destruct (pop_oldest (touch_order s)) as [[[t key] rest]|] eqn:Hp; [|done].
  destruct (pop_oldest_some _ _ _ _ (sw_order _ _ Hwf) Hp) as (Hrwf & Hrn & Htk & Hrt & _ & _).
  cbv zeta in Ht. simpl in Ht. destruct (match entries s !! key with Some v => evict v | None => true end) eqn:Hev.
  - injection Ht as <-. assert (delete key (entries s) ⊆ entries s) as Hsub by apply delete_subseteq.
    split; simpl; [|done| | |lia].
    + split; simpl; [done| |exact (shard_size_sub s (Build_Shard (delete key (entries s)) rest) Hwf Hsub)].
      by rewrite Hrt, !dom_delete_L, (sw_tracks _ _ Hwf).
    + intros k v Hk [<-|Hn]%lookup_delete_None; [|congruence]. by rewrite Hk in Hev.
    + rewrite map_size_delete. destruct (entries s !! key); simpl; lia.
  - destruct on_miss; injection Ht as <-; simpl.
    + rewrite (restore_pop _ _ _ _ (sw_order _ _ Hwf) Hp). destruct s. by apply swept_refl.
    + split; simpl; [|done|congruence|lia|rewrite touch_next, Hrn by (pose proof (ow_next _ Hrwf); lia); lia].
      split; simpl; [apply touch_wf; [done|lia]| |apply (sw_size _ _ Hwf)].
      rewrite touch_touches, Hrt, dom_delete_L, <- (sw_tracks _ _ Hwf).
      assert (key ∈ dom (touches (touch_order s))) by (apply elem_of_dom; by eexists).
      symmetry. by apply union_difference_singleton_L.
Qed.

Lemma sweep_loop_swept n evict on_miss s :
  shard_wf overflow_key s -> next_touch (touch_order s) + Z.of_nat n < 2 ^ 64 ->
  swept n evict s (sweep_loop n evict on_miss s).
Proof.
  revert s; induction n as [|n IH]; intros s Hwf Hb; simpl; [by apply swept_refl|].
  destruct (sweep_turn evict on_miss s) as [s'|] eqn:Ht; [|by apply swept_refl].
  pose proof (sweep_turn_swept _ _ _ _ Hwf ltac:(lia) Ht) as Hs.
  apply (swept_trans _ _ s' _ 1 n); [done|]. destruct Hs. apply IH; [done|lia].
Qed.

Lemma sweep_loop_entries n evict on_miss s : entries (sweep_loop n evict on_miss s) ⊆ entries s.
Proof.
  revert s. induction n as [|n IH]; intros s; [done|]. cbn [sweep_loop]. unfold sweep_turn.
  destruct (pop_oldest (touch_order s)) as [[[t key] rest]|]; [|done]. etrans; [apply IH|].
  destruct (match entries s !! key with Some v => evict v | None => true end) eqn:E; cbn [entries update_field] in *.
  - simpl. rewrite E. simpl. apply delete_subseteq.
  - simpl. rewrite E. by destruct on_miss.
Qed.

Lemma admit_entries key overflow evict on_miss s :
  entries (admit_key key overflow (sweep evict on_miss) s).2 ⊆ entries s.
Proof. unfold admit_key. simpl. case_match; [|done]. apply sweep_loop_entries. Qed.

(** What a sweep removes satisfies its test, whatever the recency index holds. *)
Lemma sweep_loop_lost n evict on_miss s k v :
  entries s !! k = Some v -> entries (sweep_loop n evict on_miss s) !! k = Some v \/ evict v = true.
Proof.
  revert s. induction n as [|n IH]; intros s Hk; [by left|]. cbn [sweep_loop]. unfold sweep_turn.
  destruct (pop_oldest (touch_order s)) as [[[t key] rest]|]; [|by left]. simpl.
  destruct (match entries s !! key with Some v => evict v | None => true end) eqn:E; [|apply IH; by destruct on_miss].
  destruct (decide (key = k)) as [->|Hne]; [rewrite Hk in E; by right|]. apply IH. simpl. by rewrite lookup_delete_ne.
Qed.

(** The slot a key is admitted to and what its shard loses. *)
Lemma admit_slot key overflow evict on_miss s :
  let r := admit_key key overflow (sweep evict on_miss) s in
  (r.1 = key \/ entries s !! key = None /\ r.1 = overflow) /\
  (is_Some (entries s !! key) -> r.1 = key /\ entries r.2 = entries s) /\
  (forall k v, entries s !! k = Some v -> entries r.2 !! k = Some v \/ evict v = true).
Proof.
  cbv zeta. unfold admit_key. simpl. unfold contains_key. case_bool_decide as Hk; simpl; [by auto|].
  apply eq_None_not_Some in Hk. split; [case_match; auto|]. split; [rewrite Hk; by intros []|].
  intros k v Hv. case_match; [by apply sweep_loop_lost|by left].
Qed.

Lemma fill_wf s k v :
  shard_wf overflow_key s -> next_touch (touch_order s) < 2 ^ 64 - 1 ->
  (is_Some (entries s !! k) \/ (size (entries s) < PER_SHARD_REGULAR_MAX)%nat \/ k = overflow_key) ->
  shard_wf overflow_key (fill k v (shard_touch k s)).
Proof.
  intros Hwf Hb Hk. split; simpl; [apply touch_wf; [apply Hwf|done]| |].
  - rewrite touch_touches, dom_insert_L, (sw_tracks _ _ Hwf). done.
  - rewrite map_size_insert. destruct (entries s !! k) as [w|] eqn:E; simpl.
    + destruct (sw_size _ _ Hwf) as [?|[? [u Hu]]]; [by left|right]. split; [done|].
      destruct (decide (k = overflow_key)) as [->|]; [rewrite lookup_insert_eq|rewrite lookup_insert_ne by done]; by eexists.
    + destruct Hk as [[]|[Hlt| ->]]; [done|left; lia|right]. rewrite lookup_insert_eq. split; [|by eexists].
      destruct (sw_size _ _ Hwf) as [?|[_ [u Hu]]]; [|congruence]. unfold PER_SHARD_REGULAR_MAX in *.
      change PER_SHARD_MAX with 256%nat in *. lia.
Qed.

End shard_facts.

Lemma admission_bounded_lemma {V} overflow_key key (evict : V -> bool) on_miss v s :
  shard_wf overflow_key s -> next_touch (touch_order s) + Z.of_nat CLEANUP_BUDGET + 1 < 2 ^ 64 ->
  let r := admit_key key overflow_key (sweep evict on_miss) s in
  shard_wf overflow_key (fill r.1 v r.2) /\ (size (entries (fill r.1 v r.2)) <= PER_SHARD_MAX)%nat /\
  (is_Some (entries s !! key) -> r.1 = key /\ entries r.2 = entries s) /\
  (r.1 <> key -> r.1 = overflow_key /\ entries s !! key = None) /\
  entries r.2 ⊆ entries s /\ (size (entries s) <= size (entries r.2) + CLEANUP_BUDGET)%nat /\
  (forall k w, entries s !! k = Some w -> entries r.2 !! k = None -> evict w = true).
Proof.
  intros Hwf Hb. cbv zeta. unfold admit_key. set (nk := negb (contains_key key s)).
  set (s1 := if nk && (PER_SHARD_REGULAR_MAX <=? shard_len s)%nat then sweep evict on_miss s else s).
  assert (swept overflow_key CLEANUP_BUDGET evict s s1 /\ (nk = false -> s1 = s)) as [Hs Hold].
  { unfold s1. destruct nk; cbn [andb]; [|split; [by apply swept_refl|done]]. split; [|done].
    destruct (_ <=? _)%nat; [apply sweep_loop_swept; [done|lia]|by apply swept_refl]. }
  clearbody s1. destruct Hs as [Hwf1 Hsub Hev Hc Ht].
  assert (nk = false <-> is_Some (entries s !! key)) as Hnk.
  { unfold nk, contains_key. by rewrite negb_false_iff, bool_decide_eq_true. }
  set (k := if negb nk || _ then key else overflow_key).
  assert (is_Some (entries s1 !! k) \/ (size (entries s1) < PER_SHARD_REGULAR_MAX)%nat \/ k = overflow_key) as Hk.
  { unfold k, shard_len. destruct nk; cbn [negb orb].
    - destruct (Nat.ltb_spec (size (entries s1)) PER_SHARD_REGULAR_MAX); auto.
    - left. rewrite Hold by done. by apply Hnk. }
  pose proof (fill_wf overflow_key s1 k v Hwf1 ltac:(lia) Hk) as Hfill. cbn [fst snd].
  split_and!; [done|by eapply shard_wf_max| | |done|done|done].
  - intros Hin%Hnk. unfold k. rewrite Hin. cbn [negb orb]. by rewrite Hold.
  - unfold k. destruct nk eqn:E; cbn [negb orb]; [|done]. destruct (_ <? _)%nat; [done|]. intros _. split; [done|].
    apply eq_None_not_Some. intros Hin%Hnk. done.
Qed.

(** ** [BoundedShardMap]

    [shard_idx] is any hash of the key reduced to the shard count.  A request
    locks the shard of its own key, is admitted and fills its slot under the
    lock; two requests on one shard are serialised by it. *)

Section bounded_map.
Context {V : Type} (hash : string -> Z) (overflow_key : string).

Definition shard_idx (key : string) : nat := Z.to_nat (hash key `mod` Z.of_nat LIMIT_SHARDS).

Definition shard_map_new : list (Shard V) := replicate LIMIT_SHARDS Shard_default.

Record Request : Type := { rq_key : string; rq_evict : V -> bool; rq_on_miss : SweepMiss; rq_fill : option V -> V }.

Definition serve (rq : Request) (shards : list (Shard V)) : list (Shard V) :=
  alter (fun s => let r := admit_key (rq_key rq) overflow_key (sweep (rq_evict rq) (rq_on_miss rq)) s in
                  fill r.1 (rq_fill rq (entries r.2 !! r.1)) r.2) (shard_idx (rq_key rq)) shards.

Definition tracked (shards : list (Shard V)) : nat := sum_list_with shard_len shards.

Lemma shard_idx_lt key : (shard_idx key < LIMIT_SHARDS)%nat.
Proof. unfold shard_idx, LIMIT_SHARDS. pose proof (Z.mod_pos_bound (hash key) (Z.of_nat 16)). lia. Qed.

Definition shards_ok (n : nat) (shards : list (Shard V)) : Prop :=
  length shards = LIMIT_SHARDS /\
  Forall (fun s => shard_wf overflow_key s /\ next_touch (touch_order s) <= Z.of_nat (9 * n)) shards.

Lemma admit_touches key ev miss (s : Shard V) :
  shard_wf overflow_key s -> next_touch (touch_order s) + 9 < 2 ^ 64 ->
  next_touch (touch_order (admit_key key overflow_key (sweep ev miss) s).2) <= next_touch (touch_order s) + 9.
Proof.
  intros Hwf Hb. unfold admit_key. cbn [snd].
  match goal with |- context [shard_touch _ ?s1] => set (s' := s1) end.
  assert (next_touch (touch_order s) >= 0) by (pose proof (ow_next _ (sw_order _ _ Hwf)); lia).
  assert (next_touch (touch_order s') <= next_touch (touch_order s) + 8 /\ shard_wf overflow_key s') as [Hn Hwf'].
  { unfold s'. destruct (_ && _); [|split; [lia|done]].
    destruct (sweep_loop_swept overflow_key CLEANUP_BUDGET ev miss s Hwf ltac:(unfold CLEANUP_BUDGET; lia)) as [Hw _ _ _ Ht].
    split; [unfold CLEANUP_BUDGET in Ht; exact Ht|exact Hw]. }
  unfold shard_touch. pose proof (ow_next _ (sw_order _ _ Hwf')). simpl. rewrite touch_next by lia. lia.
Qed.

Lemma serve_ok n rq shards :
  Z.of_nat (9 * (n + 1)) < 2 ^ 64 -> shards_ok n shards -> shards_ok (n + 1) (serve rq shards).
Proof.
  intros Hb [Hl Hall]. split; [unfold serve; by rewrite length_alter|]. unfold serve.
  apply Forall_alter.
  - eapply Forall_impl; [exact Hall|]. intros s [Hwf Hn]. split; [done|lia].
  - intros s Hs [Hwf Hn]. rewrite Forall_lookup in Hall. destruct (Hall _ _ Hs) as [_ Hn'].
    split.
    + apply (admission_bounded_lemma overflow_key); [done|]. unfold CLEANUP_BUDGET. lia.
    + pose proof (admit_touches (rq_key rq) (rq_evict rq) (rq_on_miss rq) s Hwf ltac:(lia)) as Ht. etrans; [exact Ht|lia].
Qed.

(** Tracked keys are bounded.  Whatever keys clients present, a limiter
    tracks at most 4096 of them. *)
Theorem tracked_bounded rqs :
  Z.of_nat (9 * length rqs) < 2 ^ 64 ->
  (tracked (fold_left (fun shards rq => serve rq shards) rqs shard_map_new) <= MAX_KEYS)%nat.
Proof.
  intros Hb. assert (forall l n shards, shards_ok n shards -> Z.of_nat (9 * (n + length l)) < 2 ^ 64 ->
    shards_ok (n + length l) (fold_left (fun shards rq => serve rq shards) l shards)) as Hrun.
  { induction l as [|rq l IH]; intros n shards Hs Hn; simpl; [by rewrite Nat.add_0_r|].
    replace (n + S (length l))%nat with ((n + 1) + length l)%nat by lia. simpl in Hn.
    apply IH; [apply serve_ok; [lia|done]|lia]. }
  assert (shards_ok 0 shard_map_new) as H0.
  { split; [reflexivity|]. apply Forall_forall. intros s [-> _]%elem_of_replicate.
    split; [apply shard_wf_default|done]. }
  destruct (Hrun rqs 0%nat _ H0 Hb) as [Hl Hall]. set (shards := fold_left _ _ _) in *.
  assert (forall l : list (Shard V), Forall (fun s => (shard_len s <= PER_SHARD_MAX)%nat) l ->
    (sum_list_with shard_len l <= length l * PER_SHARD_MAX)%nat) as Hsum.
  { induction 1 as [|s l Hs _ IH]; cbn [sum_list_with length]; [lia|]. lia. }
  unfold tracked. etrans; [apply Hsum|rewrite Hl; done].
  eapply Forall_impl; [exact Hall|]. intros s [Hwf _]. by eapply shard_wf_max.
Qed.

End bounded_map.

(** ** Admission *)

(** C18 (bounded admission).  Admitting a key into a well-formed shard and
    filling the slot keeps the shard well-formed, hence within its capacity.  A
    tracked key keeps its slot and removes nothing; a new key gets a slot of its
    own or the shared overflow slot, and removes at most eight entries, all of
    which satisfy the limiter's eviction test. *)
Theorem admission_bounded {V} overflow_key key (evict : V -> bool) on_miss v s :
  shard_wf overflow_key s -> next_touch (touch_order s) + Z.of_nat CLEANUP_BUDGET + 1 < 2 ^ 64 ->
  let r := admit_key key overflow_key (sweep evict on_miss) s in
  shard_wf overflow_key (fill r.1 v r.2) /\ (size (entries (fill r.1 v r.2)) <= PER_SHARD_MAX)%nat /\
  (is_Some (entries s !! key) -> r.1 = key /\ entries r.2 = entries s) /\
  (r.1 <> key -> r.1 = overflow_key /\ entries s !! key = None) /\
  entries r.2 ⊆ entries s /\ (size (entries s) <= size (entries r.2) + CLEANUP_BUDGET)%nat /\
  (forall k w, entries s !! k = Some w -> entries r.2 !! k = None -> evict w = true).
Proof. apply admission_bounded_lemma. Qed.

(** A full shard of live entries, one of them drained: the new key evicts
    nothing live and shares the overflow slot, or takes the drained one's. *)
Definition demo_shard : Shard bool :=
  fold_left (fun s i => fill (pretty (i : nat)) (bool_decide (i = 0%nat)) (shard_touch (pretty i) s))
    (seq 0 PER_SHARD_REGULAR_MAX) Shard_default.

Lemma demo_shard_wf : shard_wf "__overflow__" demo_shard /\ next_touch (touch_order demo_shard) = 255.
Proof.
  assert (forall l n s, shard_wf "__overflow__" s -> (size (entries s) + length l <= PER_SHARD_REGULAR_MAX)%nat ->
    next_touch (touch_order s) = Z.of_nat n -> (n + length l <= PER_SHARD_REGULAR_MAX)%nat ->
    let s' := fold_left (fun s i => fill (pretty (i : nat)) (bool_decide (i = 0%nat)) (shard_touch (pretty i) s)) l s in
    shard_wf "__overflow__" s' /\ next_touch (touch_order s') = Z.of_nat (n + length l)) as Hl.
  { induction l as [|i l IH]; intros n s Hwf Hsz Hn Hb; cbn [fold_left length] in *; [by rewrite Nat.add_0_r|].
    assert (Z.of_nat n < 2 ^ 64 - 1) by (assert (Z.of_nat n < 256) by (change PER_SHARD_REGULAR_MAX with 255%nat in Hb; lia); lia).
    replace (n + S (length l))%nat with (S n + length l)%nat by lia. apply IH.
    - apply fill_wf; [done|lia|]. right. left. lia.
    - simpl. rewrite map_size_insert. destruct (entries s !! pretty i); simpl; lia.
    - simpl. rewrite touch_next by lia. lia.
    - lia. }
  apply (Hl (seq 0 PER_SHARD_REGULAR_MAX) 0%nat Shard_default); [apply shard_wf_default|..]; rewrite ?length_seq; done.
Qed.

Lemma admission_bounded_witness :
  let r := admit_key "new" "__overflow__" (sweep id Restore) demo_shard in
  r.1 = "new" /\ entries demo_shard !! "0" = Some true /\ entries r.2 !! "0" = None /\
  shard_wf "__overflow__" (fill "new" false r.2).
Proof.
  destruct demo_shard_wf as [Hwf Hn].
  destruct (admission_bounded "__overflow__" "new" id Restore false demo_shard Hwf) as [Hw _]; [rewrite Hn; reflexivity|].
  assert ((admit_key "new" "__overflow__" (sweep id Restore) demo_shard).1 = "new") as Hr by (vm_compute; reflexivity).
  split; [exact Hr|]. split; [vm_compute; reflexivity|]. split; [vm_compute; reflexivity|].
  cbv zeta in Hw. rewrite Hr in Hw. exact Hw.
Defined.

Lemma tracked_bounded_witness :
  (tracked (fold_left (fun shards rq => serve (fun _ => 3%Z) "__overflow__" rq shards)
     [{| rq_key := "a"; rq_evict := id; rq_on_miss := PushBack; rq_fill := default false |}] shard_map_new) <= MAX_KEYS)%nat.
Proof. apply tracked_bounded. simpl. lia. Defined.

(** With [Restore] the entry that is not evicted is popped again on every turn
    of the sweep: drained entries behind a live oldest one are not reached, and
    new keys share the overflow slot although most of the shard is drained. *)
Definition blocked_shard : Shard bool :=
  fold_left (fun s i => fill (pretty (i : nat)) (negb (bool_decide (i = 0%nat))) (shard_touch (pretty i) s))
    (seq 0 PER_SHARD_REGULAR_MAX) Shard_default.

Example restore_sweep_stuck :
  size (filter (fun kv : string * bool => kv.2 = true) (entries blocked_shard)) = 254%nat /\
  (admit_key "new" "__overflow__" (sweep id Restore) blocked_shard).1 = "__overflow__" /\
  (admit_key "new" "__overflow__" (sweep id PushBack) blocked_shard).1 = "new".
Proof. vm_compute. done. Qed.
