(* ===== verification/Errors.v ===== *)
(** * Error types ([src/src/core/error.rs])

    The unified error type of the proxy, its rendering and its mapping to the
    error classes of the HTTP framework.  Errors of third-party crates enter as
    the text they display, which is all the program observes of them. *)

From Stdlib Require Import ZArith.
From stdpp Require Import base tactics strings list.
From S2P Require Import Prelude.

Open Scope string_scope.

Inductive ProxyError : Type :=
| Configuration (msg : string)
| Network (err : string)
| DnsResolution (msg : string)
| HealthCheckError (msg : string)
| RouteMatching (msg : string)
| UpstreamSelection (msg : string)
| SslError (msg : string)
| PluginError (msg : string)
| Internal (msg : string)
| Pingora (err : string)
| Validation (msg : string)
| ValidationStructured (errors : string)
| Serialization (msg : string)
| EtcdError (msg : string)
| CasConflictError (msg : string)
| Auth (msg : string)
| RateLimit (msg : string)
| WithCause (message cause : string).

#[export] Instance ProxyError_eq_dec : EqDecision ProxyError.
Proof. solve_decision. Defined.

Abbreviation ProxyResult A := (Result A ProxyError).

(** [impl Display for ProxyError]. *)
Definition ProxyError_to_string (self : ProxyError) : string :=
  match self with
  | Configuration msg => "Configuration error: " +:+ msg
  | Network err => "Network error: " +:+ err
  | DnsResolution msg => "DNS resolution failed: " +:+ msg
  | HealthCheckError msg => "Health check failed: " +:+ msg
  | RouteMatching msg => "Route matching failed: " +:+ msg
  | UpstreamSelection msg => "Upstream selection failed: " +:+ msg
  | SslError msg => "SSL/TLS error: " +:+ msg
  | PluginError msg => "Plugin execution error: " +:+ msg
  | Internal msg => "Internal error: " +:+ msg
  | Pingora err => "Pingora error: " +:+ err
  | Validation msg => "Validation error: " +:+ msg
  | ValidationStructured errors => "Validation error: " +:+ errors
  | Serialization msg => "Serialization error: " +:+ msg
  | EtcdError msg => "Etcd error: " +:+ msg
  | CasConflictError msg => "CAS conflict: " +:+ msg
  | Auth msg => "Authentication error: " +:+ msg
  | RateLimit msg => "Rate limit error: " +:+ msg
  | WithCause message cause => message +:+ ": " +:+ cause
  end.

(** Constructors with an underlying cause. *)
Definition with_cause_prefixed (prefix message cause : string) : ProxyError :=
  WithCause (prefix +:+ ": " +:+ message) cause.
Definition serialization_error (message cause : string) : ProxyError :=
  with_cause_prefixed "Serialization error" message cause.
Definition etcd_error_with_cause (message cause : string) : ProxyError :=
  with_cause_prefixed "Etcd error" message cause.

(** The other constructors. *)
Definition with_cause (message cause : string) : ProxyError := WithCause message cause.
Definition config_error (message cause : string) : ProxyError := with_cause_prefixed "Configuration error" message cause.
Definition plugin_error (message cause : string) : ProxyError := with_cause_prefixed "Plugin execution error" message cause.
Definition validation_error (message : string) : ProxyError := Validation message.
Definition validation_error_structured (errors : string) : ProxyError := ValidationStructured errors.
Definition validation_error_with_cause (message cause : string) : ProxyError := with_cause_prefixed "Validation error" message cause.
Definition etcd_error (message : string) : ProxyError := EtcdError message.
Definition auth_error (message : string) : ProxyError := Auth message.
Definition rate_limit_error (message : string) : ProxyError := RateLimit message.

(** [From] a foreign error, given by what it displays. *)
Definition from_io (err : string) : ProxyError := Network err.
Definition from_pingora (err : string) : ProxyError := Pingora err.
Definition from_serde (err : string) : ProxyError := Serialization err.
Definition from_validation_errors (err : string) : ProxyError := ValidationStructured err.
Definition from_validation_error (err : string) : ProxyError := Validation err.

(** [ErrorContext::with_context] *)
Definition with_context {A} (r : Result A string) (context : string) : ProxyResult A := map_err (fun e => Internal (context +:+ ": " +:+ e)) r.

(** [std::error::Error::source] *)
Definition error_source (self : ProxyError) : option string :=
  match self with
  | Network err | Pingora err | ValidationStructured err => Some err
  | WithCause _ cause => Some cause
  | _ => None
  end.

(** The error classes of the HTTP framework the mapping targets. *)
Inductive ErrorType : Type :=
| InternalError
| ConnectNoRoute
| ConnectError
| TLSHandshakeFailure
| HTTPStatus (code : Z).

Definition pingora_error_type (err : ProxyError) : ErrorType :=
  match err with
  | Configuration _ | HealthCheckError _ | RouteMatching _ | UpstreamSelection _
  | PluginError _ | Internal _ | Validation _ | ValidationStructured _
  | Serialization _ | EtcdError _ | CasConflictError _ => InternalError
  | DnsResolution _ => ConnectNoRoute
  | SslError _ => TLSHandshakeFailure
  | Auth _ => HTTPStatus 401
  | RateLimit _ => HTTPStatus 429
  | Network _ | Pingora _ | WithCause _ _ => InternalError
  end.

(** [From<ProxyError> for Box<pingora_error::Error>]: an existing framework
    error passes through, a cause is attached, and any other variant is
    explained by its rendering. *)
Inductive PingoraError : Type :=
| PingoraPass (err : string)
| PingoraBecause (ty : ErrorType) (context cause : string)
| PingoraExplain (ty : ErrorType) (context : string).

Definition into_pingora_error (err : ProxyError) : PingoraError :=
  match err with
  | Pingora e => PingoraPass e
  | Network io => PingoraBecause ConnectError "Network error" io
  | WithCause message cause => PingoraBecause InternalError message cause
  | rest => PingoraExplain (pingora_error_type rest) (ProxyError_to_string rest)
  end.

(** The text of an error ends in the text of its source: no rendering drops the
    cause it was made with. *)
Theorem display_keeps_source err cause : error_source err = Some cause -> exists before, ProxyError_to_string err = before +:+ cause.
Proof.
  destruct err as [msg|e|msg|msg|msg|msg|msg|msg|msg|e|msg|es|msg|msg|msg|msg|msg|message c]; cbn [error_source]; try discriminate; intros [= <-]; cbn [ProxyError_to_string].
  - by exists "Network error: ".
  - by exists "Pingora error: ".
  - by exists "Validation error: ".
  - exists (message +:+ ": "). induction message as [|a message IH]; [done|]. cbn in IH |- *. by rewrite IH.
Qed.

(** Only a refused credential and an exceeded limit are the client's: 401 and
    429 reach it from no other error. *)
Theorem client_statuses err code context : into_pingora_error err = PingoraExplain (HTTPStatus code) context ->
  (exists msg, err = Auth msg /\ code = 401%Z) \/ (exists msg, err = RateLimit msg /\ code = 429%Z).
Proof. destruct err; cbn; intros E; try discriminate E; injection E as <- _; [left|right]; by eexists. Qed.
