(* ===== verification/Status.v ===== *)
(** * Readiness and etcd sync status ([src/src/core/status.rs])

    The instance-owned readiness store: every operation of [StatusStore] that
    writes the mutex-protected record, the readiness decision and the status
    view served by the probe endpoints.  [now] is the clock reading the source
    takes with [Instant::now()]. *)

From Stdlib Require Import ZArith Lia.
From stdpp Require Import base tactics strings option list.
From S2P Require Import Prelude.

Open Scope Z_scope.

(** ** Data *)

Inductive ConfigSource : Type := Yaml | Etcd.
Inductive ConfigErrorKind : Type := EtcdUnavailable | CandidateInvalid.

#[export] Instance ConfigSource_eq_dec : EqDecision ConfigSource.
Proof. solve_decision. Defined.
#[export] Instance ConfigErrorKind_eq_dec : EqDecision ConfigErrorKind.
Proof. solve_decision. Defined.

Definition as_str (self : ConfigSource) : string :=
  match self with Yaml => "yaml" | Etcd => "etcd" end.

Record RuntimeStatusInner : Type := {
  initialized : bool;
  config_source : option ConfigSource;
  st_revision : option Z;
  st_published_revision : option Z;
  last_success : option Instant;
  error_kind : option ConfigErrorKind;
  last_error : option string;
  connected : bool;
  disconnected_since : option Instant;
  awaiting_publish_after_reconnect : bool;
  config_stale_after : Duration;
  fail_readiness_when_stale : bool;
}.

#[export] Instance eta_RuntimeStatusInner : Eta RuntimeStatusInner := fun s =>
  Build_RuntimeStatusInner (initialized s) (config_source s) (st_revision s)
    (st_published_revision s) (last_success s) (error_kind s) (last_error s)
    (connected s) (disconnected_since s) (awaiting_publish_after_reconnect s)
    (config_stale_after s) (fail_readiness_when_stale s).

Definition RuntimeStatusInner_default : RuntimeStatusInner := {|
  initialized := false;
  config_source := None;
  st_revision := None;
  st_published_revision := None;
  last_success := None;
  error_kind := None;
  last_error := None;
  connected := false;
  disconnected_since := None;
  awaiting_publish_after_reconnect := false;
  config_stale_after := from_secs 300;
  fail_readiness_when_stale := true;
|}.

(** The public projection served by [/status]. *)
Record RuntimeStatusView : Type := {
  view_initialized : bool;
  view_ready : bool;
  view_config_source : option string;
  view_observed_revision : option Z;
  view_published_revision : option Z;
  view_revision : option Z;
  view_connected : bool;
  view_degraded : bool;
  view_degraded_reason : option string;
  view_last_success_age_secs : option Z;
  view_error_kind : option ConfigErrorKind;
  view_last_error : option string;
}.

(** ** Readiness *)

Definition is_stale (now : Instant) (status : RuntimeStatusInner) : bool :=
  if negb (bool_decide (config_source status = Some Etcd)) then false
  else if connected status then false
  else match disconnected_since status with
       | Some t => config_stale_after status <? duration_since now t
       | None => false
       end.

Definition compute_ready (now : Instant) (status : RuntimeStatusInner) : bool :=
  if negb (initialized status) || awaiting_publish_after_reconnect status then false
  else if fail_readiness_when_stale status && is_stale now status then false
  else true.

(** ** Operations of [StatusStore] *)

Definition configure_policy (config_stale_after_secs : Z) (fail_when_stale : bool)
    (status : RuntimeStatusInner) : RuntimeStatusInner :=
  status <| config_stale_after := from_secs config_stale_after_secs |>
         <| fail_readiness_when_stale := fail_when_stale |>.

Definition mark_ready (now : Instant) (source : ConfigSource)
    (status : RuntimeStatusInner) : RuntimeStatusInner :=
  let status := status <| initialized := true |> <| config_source := Some source |>
                       <| last_success := Some now |> <| error_kind := None |>
                       <| last_error := None |> in
  if bool_decide (source = Yaml) then status <| connected := true |> else status.

(** The three writers of the disconnection clock share this guard. *)
Definition note_disconnected (now : Instant) (status : RuntimeStatusInner) : RuntimeStatusInner :=
  if connected status || bool_decide (disconnected_since status = None)
  then status <| disconnected_since := Some now |> else status.

Definition mark_etcd_connected (now : Instant) (conn : bool)
    (status : RuntimeStatusInner) : RuntimeStatusInner :=
  let status := if conn then status <| disconnected_since := None |>
                else note_disconnected now status in
  status <| connected := conn |>.

Definition begin_etcd_sync (status : RuntimeStatusInner) : RuntimeStatusInner :=
  status <| config_source := Some Etcd |>.

Definition set_revision (revision : option Z) (status : RuntimeStatusInner) : RuntimeStatusInner :=
  status <| st_revision := revision |>.

Definition set_published_revision (now : Instant) (revision : Z)
    (status : RuntimeStatusInner) : RuntimeStatusInner :=
  let status := status <| st_published_revision := Some revision |> in
  if bool_decide (config_source status = Some Etcd) then
    status <| initialized := true |> <| last_success := Some now |>
           <| error_kind := None |> <| last_error := None |>
           <| awaiting_publish_after_reconnect := false |>
  else status.

Definition record_sync_success (now : Instant) (revision : Z)
    (status : RuntimeStatusInner) : RuntimeStatusInner :=
  let status := status <| st_revision := Some revision |> <| last_success := Some now |> in
  let status := if bool_decide (error_kind status = Some EtcdUnavailable)
                then status <| error_kind := None |> <| last_error := None |> else status in
  let status := if bool_decide (config_source status = None)
                then status <| config_source := Some Etcd |> else status in
  let status := if negb (connected status) && initialized status
                then status <| awaiting_publish_after_reconnect := true |> else status in
  status <| connected := true |> <| disconnected_since := None |>.

Definition record_sync_error (now : Instant) (error : string)
    (status : RuntimeStatusInner) : RuntimeStatusInner :=
  let status := status <| error_kind := Some EtcdUnavailable |> <| last_error := Some error |> in
  let status := note_disconnected now status in
  status <| connected := false |>.

Definition record_preparation_error (error : string)
    (status : RuntimeStatusInner) : RuntimeStatusInner :=
  status <| error_kind := Some CandidateInvalid |> <| last_error := Some error |>.

Definition is_ready (now : Instant) (status : RuntimeStatusInner) : bool :=
  compute_ready now status.

Definition is_live (status : RuntimeStatusInner) : bool := true.

Definition readiness (now : Instant) (status : RuntimeStatusInner) : bool * option string :=
  let ready := compute_ready now status in
  let reason :=
    if ready then None
    else if negb (initialized status) then Some "not_initialized"
    else if is_stale now status then Some "config_stale"
    else if awaiting_publish_after_reconnect status then Some "awaiting_publish_after_reconnect"
    else Some "config_invalid" in
  (ready, reason).

Definition degraded (now : Instant) (status : RuntimeStatusInner) : bool :=
  initialized status &&
  (negb (connected status) || is_stale now status
   || bool_decide (is_Some (error_kind status)) || awaiting_publish_after_reconnect status).

Definition degraded_reason (now : Instant) (status : RuntimeStatusInner) : option string :=
  if negb (initialized status) then None
  else if negb (connected status) then Some "etcd disconnected"
  else if is_stale now status then Some "configuration sync is stale"
  else if bool_decide (error_kind status = Some CandidateInvalid)
       then Some "latest configuration candidate is invalid"
  else if awaiting_publish_after_reconnect status then Some "awaiting publish after reconnect"
  else None.

Definition status_view (now : Instant) (status : RuntimeStatusInner) : RuntimeStatusView := {|
  view_initialized := initialized status;
  view_ready := compute_ready now status;
  view_config_source := as_str <$> config_source status;
  view_observed_revision := st_revision status;
  view_published_revision := st_published_revision status;
  view_revision := st_revision status;
  view_connected := connected status;
  view_degraded := degraded now status;
  view_degraded_reason := degraded_reason now status;
  view_last_success_age_secs := (fun t => as_secs (duration_since now t)) <$> last_success status;
  view_error_kind := error_kind status;
  view_last_error := last_error status;
|}.

Definition published_revision (status : RuntimeStatusInner) : Z :=
  default 0 (st_published_revision status).

(** ** Interleavings of writers

    The etcd sync task, the graph worker and the bootstrap code call the store
    concurrently; each call holds the mutex, so a run is a sequence of timed
    operations. *)

Inductive StatusOp : Type :=
| OpConfigurePolicy (secs : Z) (fail_when_stale : bool)
| OpMarkReady (now : Instant) (source : ConfigSource)
| OpMarkEtcdConnected (now : Instant) (conn : bool)
| OpBeginEtcdSync
| OpSetRevision (revision : option Z)
| OpSetPublishedRevision (now : Instant) (revision : Z)
| OpRecordSyncSuccess (now : Instant) (revision : Z)
| OpRecordSyncError (now : Instant) (error : string)
| OpRecordPreparationError (error : string).

Definition apply_op (s : RuntimeStatusInner) (op : StatusOp) : RuntimeStatusInner :=
  match op with
  | OpConfigurePolicy secs f => configure_policy secs f s
  | OpMarkReady now src => mark_ready now src s
  | OpMarkEtcdConnected now c => mark_etcd_connected now c s
  | OpBeginEtcdSync => begin_etcd_sync s
  | OpSetRevision r => set_revision r s
  | OpSetPublishedRevision now r => set_published_revision now r s
  | OpRecordSyncSuccess now r => record_sync_success now r s
  | OpRecordSyncError now e => record_sync_error now e s
  | OpRecordPreparationError e => record_preparation_error e s
  end.

Definition run_ops (s : RuntimeStatusInner) (ops : list StatusOp) : RuntimeStatusInner :=
  fold_left apply_op ops s.

Definition is_publish (op : StatusOp) : bool :=
  match op with OpSetPublishedRevision _ _ => true | _ => false end.

(** Operations that may happen while etcd stays unreachable: failures, progress
    bookkeeping and publications of already listed graphs. *)
Definition is_outage_op (op : StatusOp) : bool :=
  match op with
  | OpMarkEtcdConnected _ c => negb c
  | OpBeginEtcdSync | OpSetRevision _ | OpSetPublishedRevision _ _
  | OpRecordSyncError _ _ | OpRecordPreparationError _ => true
  | OpMarkReady _ src => bool_decide (src = Etcd)
  | OpConfigurePolicy _ _ | OpRecordSyncSuccess _ _ => false
  end.

(** ** Lemmas *)

(** Unfold every operation and split on its guards. *)
Ltac status_cases :=
  repeat unfold apply_op, configure_policy, mark_ready, mark_etcd_connected, begin_etcd_sync,
    set_revision, set_published_revision, record_sync_success, record_sync_error,
    record_preparation_error, note_disconnected in *;
  simpl in *;
  repeat (case_bool_decide || case_match; simpl in *; simplify_eq).

Lemma run_ops_inv (P : RuntimeStatusInner -> Prop) (Q : StatusOp -> bool) ops s :
  (forall s op, Q op = true -> P s -> P (apply_op s op)) ->
  forallb Q ops = true -> P s -> P (run_ops s ops).
Proof.
  intros Hstep. revert s. induction ops as [|op ops IH]; intros s; simpl; [done|].
  intros [Hop Hops]%andb_true_iff Hs. auto.
Qed.

Lemma awaiting_kept s op :
  negb (is_publish op) = true -> awaiting_publish_after_reconnect s = true ->
  awaiting_publish_after_reconnect (apply_op s op) = true.
Proof. destruct op; intros ? Hs; status_cases; try done. Qed.

Lemma awaiting_not_ready now s :
  awaiting_publish_after_reconnect s = true -> compute_ready now s = false.
Proof. intros Hs. unfold compute_ready. by rewrite Hs, orb_true_r. Qed.

Lemma reconnect_awaits now r s :
  initialized s = true -> connected s = false ->
  awaiting_publish_after_reconnect (record_sync_success now r s) = true.
Proof. destruct s; simpl; intros -> ->. by status_cases. Qed.

Lemma publish_reopens now now' r s :
  config_source s = Some Etcd ->
  compute_ready now' (set_published_revision now r s)
  = negb (fail_readiness_when_stale s && is_stale now' s).
Proof.
  intros Hs. unfold set_published_revision; simpl. rewrite bool_decide_true by done.
  unfold compute_ready, is_stale; simpl. rewrite Hs. by destruct (_ && _).
Qed.

(** The shape of the state during an unbroken outage that began at [t0]. *)
Definition in_outage (t0 : Instant) (stale_after : Duration) (fail : bool)
    (s : RuntimeStatusInner) : Prop :=
  initialized s = true /\ config_source s = Some Etcd /\ connected s = false /\
  disconnected_since s = Some t0 /\ awaiting_publish_after_reconnect s = false /\
  config_stale_after s = stale_after /\ fail_readiness_when_stale s = fail.

Lemma in_outage_kept t0 d f s op :
  is_outage_op op = true -> in_outage t0 d f s -> in_outage t0 d f (apply_op s op).
Proof.
  unfold in_outage. destruct s; simpl. intros Hop (->&->&->&->&->&->&->).
  destruct op as [| |? []| | | | | |]; try done; by status_cases.
Qed.

Lemma in_outage_ready t0 d f s now :
  in_outage t0 d f s -> compute_ready now s = negb (f && (d <? duration_since now t0)).
Proof.
  intros (Hi&Hs&Hc&Ht&Ha&<-&<-). unfold compute_ready, is_stale.
  rewrite Hi, Ha, Hs, Hc, Ht, bool_decide_true by done. simpl. by destruct (_ && _).
Qed.

(** ** Properties *)

(** Publication fence.  Once etcd reconnects after an outage of an
    initialised gateway, the probe reports not ready whatever the sync task and
    the worker do next, until a publication; the publication itself reopens
    readiness unless the configuration is stale again. *)
Theorem reconnect_fence s now r ops now' :
  initialized s = true -> connected s = false ->
  forallb (fun op => negb (is_publish op)) ops = true ->
  let s' := run_ops (record_sync_success now r s) ops in
  is_ready now' s' = false /\
  (config_source s' = Some Etcd -> forall t rev,
     is_ready now' (set_published_revision t rev s')
     = negb (fail_readiness_when_stale s' && is_stale now' s')).
Proof.
  intros Hi Hc Hops s'. split; [|intros; by apply publish_reopens].
  apply awaiting_not_ready.
  apply (run_ops_inv (fun s => awaiting_publish_after_reconnect s = true) _ _ _ awaiting_kept Hops).
  by apply reconnect_awaits.
Qed.

(** Staleness clock.  When a ready etcd-backed gateway loses etcd at [t0],
    the clock of the outage is never restarted by later failures or by
    publications: as long as no operation reports a reconnection, readiness at
    [now'] depends only on whether [config_stale_after] has elapsed since [t0]. *)
Theorem outage_staleness s t0 e ops now' :
  initialized s = true -> config_source s = Some Etcd -> connected s = true ->
  awaiting_publish_after_reconnect s = false ->
  forallb is_outage_op ops = true ->
  is_ready now' (run_ops (record_sync_error t0 e s) ops)
  = negb (fail_readiness_when_stale s && (config_stale_after s <? duration_since now' t0)).
Proof.
  intros Hi Hs Hc Ha Hops. apply in_outage_ready.
  apply (run_ops_inv _ _ _ _ (in_outage_kept t0 _ _) Hops).
  unfold in_outage, record_sync_error, note_disconnected; simpl. rewrite Hc; simpl. auto 10.
Qed.

(** Probe reasons.  The readiness answer and its public reason always
    agree: a reason is given exactly when the gateway is not ready, and it is
    one of the three documented causes; the fallback [config_invalid] is never
    reported, so a rejected candidate alone never closes readiness. *)
Theorem readiness_reason_complete now s :
  let '(ready, reason) := readiness now s in
  ready = is_ready now s /\
  (reason = None <-> ready = true) /\
  (reason = Some "not_initialized" <-> initialized s = false) /\
  (reason = Some "config_stale" <->
     initialized s = true /\ ready = false /\ is_stale now s = true) /\
  (reason = Some "awaiting_publish_after_reconnect" <->
     initialized s = true /\ is_stale now s = false /\
     awaiting_publish_after_reconnect s = true) /\
  reason <> Some "config_invalid".
Proof.
  unfold readiness, is_ready, compute_ready.
  destruct (initialized s), (awaiting_publish_after_reconnect s), (fail_readiness_when_stale s),
    (is_stale now s); simpl; intuition congruence.
Qed.

(** Degradation reasons.  A view is degraded without a stated reason only
    in one situation: a transport error recorded by [record_sync_error] that a
    bare [mark_etcd_connected] left behind.  In every other state the view is
    degraded exactly when it states a reason. *)
Theorem degraded_reason_complete now s :
  let v := status_view now s in
  (view_degraded v = false -> view_degraded_reason v = None) /\
  (view_degraded v = true -> view_degraded_reason v = None ->
     view_connected v = true /\ view_error_kind v = Some EtcdUnavailable) /\
  view_degraded_reason v <> Some "configuration sync is stale".
Proof.
  unfold status_view, degraded, degraded_reason, is_stale; simpl.
  destruct (initialized s), (connected s), (error_kind s) as [[]|],
    (awaiting_publish_after_reconnect s), (bool_decide _); simpl; try done;
    repeat case_match; simplify_eq; try done; intuition congruence.
Qed.

(** ** Witnesses *)

Definition outage_example : RuntimeStatusInner :=
  run_ops RuntimeStatusInner_default
    [OpBeginEtcdSync; OpRecordSyncSuccess 0 7; OpSetPublishedRevision 5 7].

Lemma reconnect_fence_witness :
  is_ready 10 outage_example = true /\
  is_ready 30 (run_ops (record_sync_success 30 9 (record_sync_error 20 "io" outage_example))
                 [OpSetRevision (Some 9); OpRecordPreparationError "bad"]) = false.
Proof.
  split; [vm_compute; reflexivity|].
  refine (proj1 (reconnect_fence (record_sync_error 20 "io" outage_example) 30 9
           [OpSetRevision (Some 9); OpRecordPreparationError "bad"] 30 _ _ _));
    vm_compute; reflexivity.
Defined.

Lemma outage_staleness_witness :
  is_ready (from_secs 400) (run_ops (record_sync_error 20 "io" outage_example)
     [OpRecordSyncError (from_secs 390) "io"]) = false.
Proof.
  rewrite (outage_staleness outage_example 20 "io" [OpRecordSyncError (from_secs 390) "io"]
              (from_secs 400)); vm_compute; reflexivity.
Defined.

(** The exceptional state of [degraded_reason_complete] is reachable. *)
Example degraded_without_reason :
  let s := run_ops outage_example [OpRecordSyncError 20 "io"; OpMarkEtcdConnected 30 true] in
  view_degraded (status_view 30 s) = true /\ view_degraded_reason (status_view 30 s) = None.
Proof. vm_compute. auto. Qed.
