(* ===== verification/GraphStore.v ===== *)
(** * Graph vocabulary and the store seam ([src/src/proxy/graph_mutation/store.rs])

    Resource kinds and keys, the stored configuration graph, commits with their
    compare-and-swap expectations, the [GraphStore] interface the authority is
    written against, and [InMemoryGraphStore], the reference implementation
    that ships with the program. *)

From Stdlib Require Import ZArith Lia Ascii.
From stdpp Require Import base tactics gmap strings option list.
From S2P Require Import Prelude Errors.

Open Scope Z_scope.

(** ** Vocabulary *)

Inductive ResourceKind : Type := Upstream | Service | GlobalRule | Route | Ssl.

#[export] Instance ResourceKind_eq_dec : EqDecision ResourceKind.
Proof. solve_decision. Defined.

Definition ResourceKind_encode (k : ResourceKind) : nat :=
  match k with Upstream => 0 | Service => 1 | GlobalRule => 2 | Route => 3 | Ssl => 4 end%nat.
Definition ResourceKind_decode (n : nat) : option ResourceKind :=
  [Upstream; Service; GlobalRule; Route; Ssl] !! n.
#[export] Instance ResourceKind_countable : Countable ResourceKind.
Proof. by apply (inj_countable ResourceKind_encode ResourceKind_decode); intros []. Defined.

Record ResourceKey : Type := { kind : ResourceKind; id : string }.

#[export] Instance ResourceKey_eq_dec : EqDecision ResourceKey.
Proof. solve_decision. Defined.
#[export] Instance ResourceKey_countable : Countable ResourceKey.
Proof.
  apply (inj_countable' (fun k => (kind k, id k)) (fun p => {| kind := p.1; id := p.2 |})).
  by intros [].
Defined.

Abbreviation Bytes := string (only parsing).

Record StoredResource : Type := {
  value : Bytes;
  create_revision : Z;
  mod_revision : Z;
}.

#[export] Instance StoredResource_eq_dec : EqDecision StoredResource.
Proof. solve_decision. Defined.

Record StoredGraph : Type := {
  resources : gmap ResourceKey StoredResource;
  guard_mod_revision : option Z;
  graph_revision : Z;
}.

#[export] Instance eta_StoredGraph : Eta StoredGraph := fun g =>
  Build_StoredGraph (resources g) (guard_mod_revision g) (graph_revision g).

Definition StoredGraph_default : StoredGraph :=
  {| resources := ∅; guard_mod_revision := None; graph_revision := 0 |}.

Inductive StoredChange : Type :=
| ChangePut (key : ResourceKey) (resource : StoredResource)
| ChangeDelete (key : ResourceKey).

Record WatchBatch : Type := { batch_revision : Z; changes : list StoredChange }.

Inductive StoredMutation : Type :=
| MutationPut (key : ResourceKey) (value : Bytes)
| MutationDelete (key : ResourceKey).

Record GraphCommit : Type := {
  mutation : StoredMutation;
  expected_target_mod_revision : option Z;
  expected_guard_mod_revision : option Z;
}.

Inductive SecretMode : Type := DecryptForRuntime | PreserveStored.
#[export] Instance SecretMode_eq_dec : EqDecision SecretMode.
Proof. solve_decision. Defined.

Inductive SecretOperation : Type := OpEncrypt | OpDecrypt | OpRedact | OpRestore.

Inductive StoreError : Type :=
| Unavailable (source : ProxyError)
| InvalidResponse (message : string)
| UnsupportedProtocol
| Conflict.

Inductive GraphError : Type :=
| InvalidKey (key reason : string)
| InvalidResource (key : ResourceKey) (source : ProxyError)
| InvalidCandidate (source : ProxyError)
| ReferentialConflict (source : ProxyError)
| NotFound (key : ResourceKey)
| CasConflict
| StaleRevision (incoming published : Z)
| Secret (key : ResourceKey) (operation : SecretOperation) (source : ProxyError)
| WorkerStopped
| Store (err : StoreError).

(** ** Keys *)

Definition slash : ascii := "/"%char.

Fixpoint contains_char (c : ascii) (s : string) : bool :=
  match s with
  | EmptyString => false
  | String c' s' => bool_decide (c = c') || contains_char c s'
  end.

Definition kind_as_str (k : ResourceKind) : string :=
  match k with
  | Upstream => "upstreams"
  | Service => "services"
  | GlobalRule => "global_rules"
  | Route => "routes"
  | Ssl => "ssls"
  end.

Definition kind_parse (value : string) : Result ResourceKind GraphError :=
  if bool_decide (value = "upstreams") then Ok Upstream
  else if bool_decide (value = "services") then Ok Service
  else if bool_decide (value = "global_rules") then Ok GlobalRule
  else if bool_decide (value = "routes") then Ok Route
  else if bool_decide (value = "ssls") then Ok Ssl
  else Err (InvalidKey value "unknown resource kind").

Definition ResourceKey_new (k : ResourceKind) (i : string) : Result ResourceKey GraphError :=
  if bool_decide (i = "") || contains_char slash i
  then Err (InvalidKey (kind_as_str k +:+ "/" +:+ i)
              "resource id must be non-empty and must not contain '/'")
  else Ok {| kind := k; id := i |}.

Definition logical_path (self : ResourceKey) : string :=
  kind_as_str (kind self) +:+ "/" +:+ id self.

(** Well-formed keys are those [ResourceKey::new] builds. *)
Definition key_wf (key : ResourceKey) : Prop :=
  id key <> "" /\ contains_char slash (id key) = false.

#[export] Instance key_wf_dec key : Decision (key_wf key).
Proof. unfold key_wf. apply _. Defined.

Lemma kind_parse_as_str k : kind_parse (kind_as_str k) = Ok k.
Proof. by destruct k. Qed.

Lemma kind_parse_ok s k : kind_parse s = Ok k -> s = kind_as_str k.
Proof. unfold kind_parse. repeat case_bool_decide; intros; by simplify_eq/=. Qed.

Lemma ResourceKey_new_ok k i key :
  ResourceKey_new k i = Ok key <-> key = {| kind := k; id := i |} /\ key_wf key.
Proof.
  unfold ResourceKey_new, key_wf.
  destruct (bool_decide (i = "")) eqn:E1; destruct (contains_char slash i) eqn:E2; simpl; bool_to_prop;
    split; intros; destruct_and?; simplify_eq/=; auto; congruence.
Qed.

(** ** Errors *)

Definition StoreError_debug (e : StoreError) : string :=
  match e with
  | Unavailable _ => "Unavailable"
  | InvalidResponse _ => "InvalidResponse"
  | UnsupportedProtocol => "UnsupportedProtocol"
  | Conflict => "Conflict"
  end.

Definition map_store_error (err : StoreError) : GraphError :=
  match err with Conflict => CasConflict | other => Store other end.

(** ** The store interface

    [St] is the state behind the seam.  The operations are the four methods of
    the trait; the laws are what the authority relies on: reads do not change
    the state, and a commit that is acknowledged was applied with both
    expectations holding in the state it met, atomically, at a revision newer
    than the guard's.  A commit that is not acknowledged changed nothing, or
    (never when the answer is a conflict) was applied just so.  The in-memory
    store meets the laws here and the etcd store in [EtcdStore]. *)

Definition mutation_key (m : StoredMutation) : ResourceKey :=
  match m with MutationPut key _ | MutationDelete key => key end.

Definition target_matches (g : StoredGraph) (commit : GraphCommit) : bool :=
  let target := resources g !! mutation_key (mutation commit) in
  match expected_target_mod_revision commit with
  | None => bool_decide (target = None)
  | Some expected => bool_decide (mod_revision <$> target = Some expected)
  end.

Definition guard_matches (g : StoredGraph) (commit : GraphCommit) : bool :=
  match expected_guard_mod_revision commit with
  | None => bool_decide (guard_mod_revision g = None)
  | Some expected => bool_decide (guard_mod_revision g = Some expected)
  end.

Definition apply_mutation (revision : Z) (m : StoredMutation)
    (rs : gmap ResourceKey StoredResource) : gmap ResourceKey StoredResource :=
  match m with
  | MutationPut key v =>
    let create := default revision (create_revision <$> rs !! key) in
    <[key := {| value := v; create_revision := create; mod_revision := revision |}]> rs
  | MutationDelete key => delete key rs
  end.

Class GraphStore (St : Type) : Type := {
  get_exact : ResourceKey -> St -> Result (option StoredResource) StoreError;
  list_kind : ResourceKind -> St -> Result (list (ResourceKey * StoredResource)) StoreError;
  snapshot : St -> Result StoredGraph StoreError;
  compare_and_swap : GraphCommit -> St -> Result Z StoreError * St;
}.

(** The graph a commit leaves. *)
Definition committed (commit : GraphCommit) (rev : Z) (g : StoredGraph) : StoredGraph :=
  {| resources := apply_mutation rev (mutation commit) (resources g); guard_mod_revision := Some rev; graph_revision := rev |}.

(** Revisions start at one; an expectation is a revision that was read. *)
Definition expects_positive (commit : GraphCommit) : Prop :=
  (forall r, expected_target_mod_revision commit = Some r -> 0 < r) /\
  (forall r, expected_guard_mod_revision commit = Some r -> 0 < r).

(** A graph between two states: the commit's expectations hold in [g], and
    [g'] is [g] with the commit applied at a fresh revision. *)
Definition commits (commit : GraphCommit) (rev : Z) (g g' : StoredGraph) : Prop :=
  target_matches g commit = true /\ guard_matches g commit = true /\ g' = committed commit rev g /\
  (forall r, guard_mod_revision g = Some r -> r < rev).

(** The logical content of a store state and the contract of its operations.
    An error leaves the outcome of a commit open, as a lost reply does, unless
    it is [Conflict], which is only reported when nothing was written. *)
Class GraphStoreLaws (St : Type) `{GraphStore St} : Type := {
  store_wf : St -> Prop;
  contents : St -> StoredGraph;
  key_stored : ResourceKey -> Prop;
  contents_positive s : store_wf s ->
    (forall r, guard_mod_revision (contents s) = Some r -> 0 < r) /\
    (forall key res, resources (contents s) !! key = Some res -> key_stored key /\ 0 < mod_revision res);
  snapshot_contents s g : store_wf s -> snapshot s = Ok g -> g = contents s;
  get_exact_contents key s r :
    store_wf s -> key_stored key -> get_exact key s = Ok r -> r = resources (contents s) !! key;
  cas_err commit s e s' : store_wf s -> key_stored (mutation_key (mutation commit)) -> expects_positive commit ->
    compare_and_swap commit s = (Err e, s') ->
    store_wf s' /\ (contents s' = contents s \/ (e <> Conflict /\ exists rev, commits commit rev (contents s) (contents s')));
  cas_ok commit s rev s' : store_wf s -> key_stored (mutation_key (mutation commit)) -> expects_positive commit ->
    compare_and_swap commit s = (Ok rev, s') ->
    store_wf s' /\ commits commit rev (contents s) (contents s');
}.

(** ** [InMemoryGraphStore] *)

Record InMemoryState : Type := { mem_graph : StoredGraph; next_revision : Z }.

#[export] Instance eta_InMemoryState : Eta InMemoryState := fun s =>
  Build_InMemoryState (mem_graph s) (next_revision s).

Module InMemoryGraphStore.

Definition new : InMemoryState := {| mem_graph := StoredGraph_default; next_revision := 1 |}.

Definition get_exact (key : ResourceKey) (state : InMemoryState)
    : Result (option StoredResource) StoreError :=
  Ok (resources (mem_graph state) !! key).

Definition list_kind (k : ResourceKind) (state : InMemoryState)
    : Result (list (ResourceKey * StoredResource)) StoreError :=
  Ok (filter (fun kr => kind kr.1 = k) (map_to_list (resources (mem_graph state)))).

Definition snapshot (state : InMemoryState) : Result StoredGraph StoreError :=
  Ok (mem_graph state).

Definition compare_and_swap (commit : GraphCommit) (state : InMemoryState)
    : Result Z StoreError * InMemoryState :=
  let target_key := mutation_key (mutation commit) in
  let target_ok :=
    match expected_target_mod_revision commit with
    | None => negb (bool_decide (is_Some (resources (mem_graph state) !! target_key)))
    | Some expected =>
      bool_decide (mod_revision <$> resources (mem_graph state) !! target_key = Some expected)
    end in
  let guard_ok :=
    match expected_guard_mod_revision commit with
    | None => bool_decide (guard_mod_revision (mem_graph state) = None)
    | Some expected => bool_decide (guard_mod_revision (mem_graph state) = Some expected)
    end in
  if negb target_ok || negb guard_ok then (Err Conflict, state)
  else
    let revision := next_revision state in
    let state := state <| next_revision := next_revision state + 1 |> in
    let rs := resources (mem_graph state) in
    let rs :=
      match mutation commit with
      | MutationPut key v =>
        let create_rev := default revision (create_revision <$> rs !! key) in
        <[key := {| value := v; create_revision := create_rev; mod_revision := revision |}]> rs
      | MutationDelete key => delete key rs
      end in
    let graph := (mem_graph state) <| resources := rs |>
                   <| guard_mod_revision := Some revision |> <| graph_revision := revision |> in
    (Ok revision, state <| mem_graph := graph |>).

(** Revisions are positive and the counter is ahead of the guard. *)
Definition wf (state : InMemoryState) : Prop :=
  0 < next_revision state /\
  (forall g, guard_mod_revision (mem_graph state) = Some g -> 0 < g < next_revision state) /\
  (forall key res, resources (mem_graph state) !! key = Some res -> 0 < mod_revision res).

Lemma new_wf : wf new.
Proof. split_and!; [done|by intros|by intros]. Qed.

Lemma target_ok_spec g commit :
  match expected_target_mod_revision commit with
  | None => negb (bool_decide (is_Some (resources g !! mutation_key (mutation commit))))
  | Some expected =>
    bool_decide (mod_revision <$> resources g !! mutation_key (mutation commit) = Some expected)
  end = target_matches g commit.
Proof.
  unfold target_matches. destruct (expected_target_mod_revision commit); [done|].
  destruct (resources g !! mutation_key (mutation commit)) eqn:E; simpl;
    repeat case_bool_decide; naive_solver.
Qed.

Lemma compare_and_swap_spec commit state :
  compare_and_swap commit state =
  if target_matches (mem_graph state) commit && guard_matches (mem_graph state) commit then
    (Ok (next_revision state),
     {| mem_graph :=
          {| resources := apply_mutation (next_revision state) (mutation commit)
                            (resources (mem_graph state));
             guard_mod_revision := Some (next_revision state);
             graph_revision := next_revision state |};
        next_revision := next_revision state + 1 |})
  else (Err Conflict, state).
Proof.
  unfold compare_and_swap. rewrite target_ok_spec. fold (guard_matches (mem_graph state) commit).
  destruct (target_matches _ _), (guard_matches _ _); simpl; done.
Qed.

Lemma compare_and_swap_wf commit state : wf state -> wf (compare_and_swap commit state).2.
Proof.
  intros (Hn & Hg & Hr). rewrite compare_and_swap_spec. destruct (_ && _); cbn [snd]; [|done].
  split_and!; cbn; [lia|intros g [= <-]; lia|]. intros key res. destruct (mutation commit); cbn.
  - rewrite lookup_insert_Some. intros [[_ <-]|[_ Hk]]; [cbn; lia|by apply Hr in Hk].
  - rewrite lookup_delete_Some. intros [_ Hk]. by apply Hr in Hk.
Qed.

End InMemoryGraphStore.

#[export] Instance in_memory_store : GraphStore InMemoryState := {
  get_exact := InMemoryGraphStore.get_exact;
  list_kind := InMemoryGraphStore.list_kind;
  snapshot := InMemoryGraphStore.snapshot;
  compare_and_swap := InMemoryGraphStore.compare_and_swap;
}.

(** The shipped stand-in meets the contract the authority is written against. *)
#[export, refine] Instance in_memory_laws : GraphStoreLaws InMemoryState := {
  store_wf := InMemoryGraphStore.wf;
  contents := mem_graph;
  key_stored _ := True;
}.
Proof.
  - intros s (_ & Hg & Hr). split; [intros r Hr'; by apply Hg in Hr' as [? _]|by eauto].
  - by intros ? ? _ [= ->].
  - by intros ? ? ? _ _ [= ->].
  - intros commit s e s' Hwf _ _ Hc. pose proof (InMemoryGraphStore.compare_and_swap_wf commit s Hwf) as Hwf'.
    unfold compare_and_swap in Hc; simpl in Hc. rewrite Hc in Hwf'. split; [exact Hwf'|left].
    rewrite InMemoryGraphStore.compare_and_swap_spec in Hc. by case_match; simplify_eq.
  - intros commit s rev s' Hwf _ _ Hc. pose proof (InMemoryGraphStore.compare_and_swap_wf commit s Hwf) as Hwf'.
    unfold compare_and_swap in Hc; simpl in Hc. rewrite Hc in Hwf'. split; [exact Hwf'|].
    rewrite InMemoryGraphStore.compare_and_swap_spec in Hc. destruct (target_matches _ _) eqn:Et, (guard_matches _ _) eqn:Eg; try done.
    injection Hc as <- <-. split_and!; try done. intros r Hr. by apply Hwf in Hr as [_ ?].
Defined.

(** ** Consequences of the contract *)

Section laws.
Context {St : Type} `{GraphStoreLaws St}.

(** The guard order: [None] precedes every revision. *)
Definition guard_le (a b : option Z) : Prop :=
  match a, b with
  | None, _ => True
  | Some x, Some y => x <= y
  | Some _, None => False
  end.

Lemma guard_le_refl a : guard_le a a.
Proof. destruct a; simpl; lia. Qed.

Lemma guard_le_trans a b c : guard_le a b -> guard_le b c -> guard_le a c.
Proof. destruct a, b, c; simpl; lia || done. Qed.

(** What a commit the store can hold needs, from the graph it was planned on. *)
Definition admissible (commit : GraphCommit) : Prop :=
  key_stored (mutation_key (mutation commit)) /\ expects_positive commit.

Lemma commits_advances commit rev g g' : commits commit rev g g' ->
  guard_le (guard_mod_revision g) (guard_mod_revision g') /\ guard_mod_revision g' <> guard_mod_revision g.
Proof.
  intros (_ & _ & -> & Hlt); simpl.
  destruct (guard_mod_revision g) as [r|]; simpl; [|done].
  specialize (Hlt r eq_refl). split; [lia|]. intros [= ?]. lia.
Qed.

Lemma commits_guard commit rev g g' : commits commit rev g g' -> expected_guard_mod_revision commit = guard_mod_revision g.
Proof.
  intros (_ & Hg & _). revert Hg. unfold guard_matches.
  destruct (expected_guard_mod_revision commit); by case_bool_decide.
Qed.

End laws.

#[export] Hint Resolve guard_le_refl : pingsix.

(** The in-memory store implements the seam.  A commit applies exactly
    when the target's revision and the guard are the expected ones; it then
    performs its mutation under a fresh revision that becomes the guard and the
    graph revision, and any other commit is a conflict that changes nothing. *)
Theorem in_memory_cas_refines commit s :
  InMemoryGraphStore.wf s ->
  let '(r, s') := InMemoryGraphStore.compare_and_swap commit s in
  InMemoryGraphStore.wf s' /\
  match r with
  | Ok rev => commits commit rev (mem_graph s) (mem_graph s') /\ 0 < rev
  | Err e => e = Conflict /\ s' = s /\ target_matches (mem_graph s) commit && guard_matches (mem_graph s) commit = false
  end.
Proof.
  intros Hwf. pose proof (InMemoryGraphStore.compare_and_swap_wf commit s Hwf) as Hwf'. revert Hwf'.
  rewrite InMemoryGraphStore.compare_and_swap_spec. destruct Hwf as (Hn & Hg & _).
  unfold commits. destruct (target_matches _ _), (guard_matches _ _); cbn [andb snd]; intros Hwf'; (split; [exact Hwf'|]); try done.
  split_and!; try done. intros r Hr. by apply Hg in Hr as [_ ?].
Qed.

Lemma in_memory_cas_refines_witness :
  let commit := {| mutation := MutationPut {| kind := Upstream; id := "u1" |} "{}";
                   expected_target_mod_revision := None; expected_guard_mod_revision := None |} in
  let '(r, s') := InMemoryGraphStore.compare_and_swap commit InMemoryGraphStore.new in
  r = Ok 1 /\ InMemoryGraphStore.wf s'.
Proof.
  destruct (in_memory_cas_refines {| mutation := MutationPut {| kind := Upstream; id := "u1" |} "{}";
    expected_target_mod_revision := None; expected_guard_mod_revision := None |} InMemoryGraphStore.new) as [Hwf _].
  - exact InMemoryGraphStore.new_wf.
  - split; [reflexivity | exact Hwf].
Defined.

(** ** Watch application ([decode.rs], [apply_watch_batch]) *)

Definition apply_change (rs : gmap ResourceKey StoredResource) (change : StoredChange)
    : gmap ResourceKey StoredResource :=
  match change with
  | ChangePut key resource => <[key := resource]> rs
  | ChangeDelete key => delete key rs
  end.

Definition apply_watch_batch (base : StoredGraph) (batch : WatchBatch) : Result StoredGraph GraphError :=
  match changes batch with
  | [] => Ok base
  | _ =>
    let next := base <| graph_revision := batch_revision batch |> in
    Ok (next <| resources := fold_left apply_change (changes batch) (resources next) |>)
  end.

Definition change_key (c : StoredChange) : ResourceKey :=
  match c with ChangePut key _ | ChangeDelete key => key end.

(** The value a change leaves at its key. *)
Definition change_value (c : StoredChange) : option StoredResource :=
  match c with ChangePut _ r => Some r | ChangeDelete _ => None end.

Lemma apply_change_lookup rs c k :
  apply_change rs c !! k = if decide (change_key c = k) then change_value c else rs !! k.
Proof. destruct c; simpl; [rewrite lookup_insert | rewrite lookup_delete]; by case_decide. Qed.

(** The last change of each key decides. *)
Lemma fold_changes_lookup cs rs k :
  fold_left apply_change cs rs !! k =
  match last (filter (fun c => change_key c = k) cs) with
  | Some c => change_value c
  | None => rs !! k
  end.
Proof.
  induction cs as [|c cs IH] using rev_ind; [done|].
  rewrite fold_left_app, filter_app; simpl. rewrite apply_change_lookup, IH.
  rewrite filter_cons, filter_nil. case_decide.
  - by rewrite last_snoc.
  - by rewrite app_nil_r.
Qed.
