(* ===== verification/Utf8.v ===== *)
(** * Byte strings and UTF-8

    The part of Rust's standard library the key mapping uses: UTF-8 validation
    ([std::str::from_utf8] and its error text), lossy decoding
    ([String::from_utf8_lossy]) and the string searches [strip_prefix],
    [split_once], [rsplit] and [trim_end_matches] at a single ASCII byte.
    Strings and byte slices are both [string], a sequence of bytes. *)

From Stdlib Require Import ZArith Lia Ascii.
From stdpp Require Import base tactics strings pretty list.
From S2P Require Import Prelude GraphStore.

Open Scope Z_scope.

(** ** Hexadecimal *)

Definition hex_digit (d : Z) : string :=
  match String.get (Z.to_nat d) "0123456789abcdef" with Some a => String a EmptyString | None => "" end.
Fixpoint lower_hex (fuel : nat) (z : Z) : string :=
  match fuel with
  | O => ""
  | S fuel => if z <? 16 then hex_digit z else lower_hex fuel (z / 16) +:+ hex_digit (z mod 16)
  end.

(** ** UTF-8 chunks *)

Definition byte_val (b : ascii) : Z := Z.of_N (N_of_ascii b).
Definition between (lo hi b : Z) : bool := (lo <=? b) && (b <=? hi).
Definition is_cont (b : ascii) : bool := between 0x80 0xBF (byte_val b).

(** Width announced by a leading byte; 0 for a byte that cannot lead. *)
Definition utf8_char_width (b : ascii) : Z :=
  let v := byte_val b in
  if v <? 0x80 then 1
  else if between 0xC2 0xDF v then 2
  else if between 0xE0 0xEF v then 3
  else if between 0xF0 0xF4 v then 4
  else 0.

(** Second byte of a three or four byte sequence (no overlong forms, no
    surrogates, nothing above U+10FFFF). *)
Definition second_ok (b0 b1 : ascii) : bool :=
  let v := byte_val b0 in
  let w := byte_val b1 in
  if v =? 0xE0 then between 0xA0 0xBF w
  else if v =? 0xED then between 0x80 0x9F w
  else if v =? 0xF0 then between 0x90 0xBF w
  else if v =? 0xF4 then between 0x80 0x8F w
  else between 0x80 0xBF w.

Definition str1 (a : ascii) : string := String a "".
Definition str2 (a b : ascii) : string := String a (str1 b).
Definition str3 (a b c : ascii) : string := String a (str2 b c).
Definition str4 (a b c d : ascii) : string := String a (str3 b c d).

(** One entry per character, or per maximal invalid prefix (flag [false]). *)
Fixpoint utf8_chunks (s : string) : list (bool * string) :=
  match s with
  | EmptyString => []
  | String b0 s1 =>
    let w := utf8_char_width b0 in
    if w =? 1 then (true, str1 b0) :: utf8_chunks s1
    else if w =? 2 then
      match s1 with
      | String b1 s2 =>
        if is_cont b1 then (true, str2 b0 b1) :: utf8_chunks s2
        else (false, str1 b0) :: utf8_chunks s1
      | EmptyString => [(false, str1 b0)]
      end
    else if w =? 3 then
      match s1 with
      | String b1 s2 =>
        if second_ok b0 b1 then
          match s2 with
          | String b2 s3 =>
            if is_cont b2 then (true, str3 b0 b1 b2) :: utf8_chunks s3
            else (false, str2 b0 b1) :: utf8_chunks s2
          | EmptyString => [(false, str2 b0 b1)]
          end
        else (false, str1 b0) :: utf8_chunks s1
      | EmptyString => [(false, str1 b0)]
      end
    else if w =? 4 then
      match s1 with
      | String b1 s2 =>
        if second_ok b0 b1 then
          match s2 with
          | String b2 s3 =>
            if is_cont b2 then
              match s3 with
              | String b3 s4 =>
                if is_cont b3 then (true, str4 b0 b1 b2 b3) :: utf8_chunks s4
                else (false, str3 b0 b1 b2) :: utf8_chunks s3
              | EmptyString => [(false, str3 b0 b1 b2)]
              end
            else (false, str2 b0 b1) :: utf8_chunks s2
          | EmptyString => [(false, str2 b0 b1)]
          end
        else (false, str1 b0) :: utf8_chunks s1
      | EmptyString => [(false, str1 b0)]
      end
    else (false, str1 b0) :: utf8_chunks s1
  end.

Definition utf8_valid (s : string) : bool := forallb fst (utf8_chunks s).

(** U+FFFD *)
Definition replacement_character : string := str3 "239" "191" "189".

Definition from_utf8_lossy (s : string) : string :=
  fold_right (fun (c : bool * string) acc =>
    (if c.1 then c.2 else replacement_character) +:+ acc) "" (utf8_chunks s).

(** The text of [Utf8Error] for the first invalid chunk. *)
Fixpoint utf8_error_text (index : Z) (cs : list (bool * string)) : string :=
  match cs with
  | [] => ""
  | (true, c) :: cs' => utf8_error_text (index + Z.of_nat (String.length c)) cs'
  | (false, c) :: cs' =>
    let incomplete :=
      match cs', c with
      | [], String b0 _ => Z.of_nat (String.length c) <? utf8_char_width b0
      | _, _ => false
      end in
    if incomplete then "incomplete utf-8 byte sequence from index " +:+ pretty index
    else "invalid utf-8 sequence of " +:+ pretty (Z.of_nat (String.length c))
         +:+ " bytes from index " +:+ pretty index
  end.

Definition from_utf8 (s : string) : Result string string :=
  if utf8_valid s then Ok s else Err (utf8_error_text 0 (utf8_chunks s)).

(** ** ASCII case *)

Definition ascii_lower (a : ascii) : ascii :=
  if between 65 90 (byte_val a) then ascii_of_N (N_of_ascii a + 32) else a.
Fixpoint to_ascii_lowercase (s : string) : string :=
  match s with EmptyString => "" | String a s' => String (ascii_lower a) (to_ascii_lowercase s') end.

(** ** Searches *)

Fixpoint strip_prefix (p s : string) : option string :=
  match p, s with
  | EmptyString, _ => Some s
  | String a p', String b s' => if bool_decide (a = b) then strip_prefix p' s' else None
  | String _ _, EmptyString => None
  end.

Definition starts_with (s p : string) : bool := bool_decide (is_Some (strip_prefix p s)).

Fixpoint split_once (c : ascii) (s : string) : option (string * string) :=
  match s with
  | EmptyString => None
  | String a s' =>
    if bool_decide (a = c) then Some ("", s')
    else match split_once c s' with
         | Some (l, r) => Some (String a l, r)
         | None => None
         end
  end.

(** [s.rsplit(c).next()]: the part after the last [c]. *)
Fixpoint rsplit_first (c : ascii) (s : string) : string :=
  match s with
  | EmptyString => ""
  | String a s' =>
    if contains_char c s' then rsplit_first c s'
    else if bool_decide (a = c) then s' else s
  end.

Fixpoint trim_end_matches (c : ascii) (s : string) : string :=
  match s with
  | EmptyString => ""
  | String a s' =>
    let t := trim_end_matches c s' in
    if bool_decide (a = c) && bool_decide (t = "") then "" else String a t
  end.

(** ** Lemmas *)

Lemma str_app_assoc (a b c : string) : (a +:+ b) +:+ c = a +:+ (b +:+ c).
Proof. induction a; simpl; congruence. Qed.

Lemma str_app_nil_r (a : string) : a +:+ "" = a.
Proof. induction a; simpl; congruence. Qed.

Lemma strip_prefix_spec p s r : strip_prefix p s = Some r <-> s = p +:+ r.
Proof.
  revert s; induction p as [|a p IH]; intros [|b s]; simpl;
    try (case_bool_decide; [subst; rewrite IH|]); split; congruence.
Qed.

Lemma strip_prefix_app p r : strip_prefix p (p +:+ r) = Some r.
Proof. by apply strip_prefix_spec. Qed.

Lemma starts_with_app p r : starts_with (p +:+ r) p = true.
Proof. unfold starts_with. rewrite strip_prefix_app. by apply bool_decide_eq_true. Qed.

Lemma starts_with_spec s p : starts_with s p = true <-> exists r, s = p +:+ r.
Proof.
  unfold starts_with. rewrite bool_decide_eq_true. unfold is_Some.
  by setoid_rewrite strip_prefix_spec.
Qed.

Lemma split_once_app c l r :
  contains_char c l = false -> split_once c (l +:+ String c r) = Some (l, r).
Proof.
  induction l as [|a l IH]; simpl; [by rewrite bool_decide_true|].
  intros [Ha Hl]%orb_false_iff. bool_to_prop.
  case_bool_decide; [congruence|]. by rewrite IH.
Qed.

Lemma split_once_some c s l r :
  split_once c s = Some (l, r) -> contains_char c l = false /\ s = l +:+ String c r.
Proof.
  revert l r; induction s as [|a s IH]; intros l r; simpl; [done|].
  case_bool_decide as E; subst; [by intros [= <- <-]|].
  destruct (split_once c s) as [[l' r']|]; [|done]. intros [= <- <-].
  destruct (IH l' r' eq_refl) as [Hl ->]. simpl.
  rewrite Hl, orb_false_r. split; [bool_to_prop; congruence|done].
Qed.

Lemma contains_char_app c a b : contains_char c (a +:+ b) = contains_char c a || contains_char c b.
Proof. induction a; simpl; [done|]. by rewrite IHa, orb_assoc. Qed.

Lemma rsplit_first_none c s : contains_char c s = false -> rsplit_first c s = s.
Proof.
  destruct s as [|a s]; simpl; [done|]. intros [Ha ->]%orb_false_iff.
  bool_to_prop. case_bool_decide; congruence.
Qed.

Lemma rsplit_first_app c a b : contains_char c b = false -> rsplit_first c (a +:+ String c b) = b.
Proof.
  intros Hb. induction a as [|x a IH]; simpl.
  { by rewrite Hb, bool_decide_true. }
  by rewrite contains_char_app; simpl; rewrite bool_decide_true, orb_true_r.
Qed.

Lemma utf8_chunks_lossy s : utf8_valid s = true -> from_utf8_lossy s = s.
Proof.
  unfold utf8_valid, from_utf8_lossy.
  remember (String.length s) as n eqn:Hn. assert (String.length s <= n)%nat by lia. clear Hn.
  revert s H. induction n as [|n IH]; intros [|b0 s1] Hlen; simpl in *; try (done || lia).
  repeat (case_match; simpl in *; try done);
    intros Hv; try (apply andb_true_iff in Hv as [? Hv]); try done;
    repeat f_equal; apply IH; simpl in *; try done; lia.
Qed.

(** Reading lower-case hexadecimal back. *)
Definition hex_val (a : ascii) : Z := if byte_val a <? 58 then byte_val a - 48 else byte_val a - 87.
Fixpoint hex_value (acc : Z) (s : string) : Z :=
  match s with EmptyString => acc | String a s => hex_value (acc * 16 + hex_val a) s end.

Lemma hex_value_app acc a b : hex_value acc (a +:+ b) = hex_value (hex_value acc a) b.
Proof. revert acc; induction a as [|x a IH]; intros acc; simpl; auto. Qed.

Lemma hex_digit_value d acc : 0 <= d < 16 -> hex_value acc (hex_digit d) = acc * 16 + d.
Proof.
  intros Hd. assert (d = 0 \/ d = 1 \/ d = 2 \/ d = 3 \/ d = 4 \/ d = 5 \/ d = 6 \/ d = 7 \/ d = 8 \/ d = 9 \/ d = 10 \/
    d = 11 \/ d = 12 \/ d = 13 \/ d = 14 \/ d = 15) as H by lia.
  repeat destruct H as [->|H]; [reflexivity..|subst; reflexivity].
Qed.

Lemma lower_hex_value fuel z : 0 <= z < 16 ^ Z.of_nat fuel -> hex_value 0 (lower_hex fuel z) = z.
Proof.
  revert z. induction fuel as [|fuel IH]; intros z Hz; [simpl in *; lia|].
  cbn [lower_hex]. destruct (Z.ltb_spec z 16); [by rewrite hex_digit_value by lia|].
  assert (0 <= z / 16 < 16 ^ Z.of_nat fuel) as Hq.
  { rewrite Nat2Z.inj_succ, Z.pow_succ_r in Hz by lia. split; [apply Z.div_pos; lia|apply Z.div_lt_upper_bound; lia]. }
  pose proof (Z.mod_pos_bound z 16 ltac:(lia)). rewrite hex_value_app, IH, hex_digit_value by done.
  pose proof (Z.div_mod z 16 ltac:(lia)). lia.
Qed.

Lemma lower_hex_inj fuel y z : 0 <= y < 16 ^ Z.of_nat fuel -> 0 <= z < 16 ^ Z.of_nat fuel ->
  lower_hex fuel y = lower_hex fuel z -> y = z.
Proof. intros Hy Hz E. by rewrite <-(lower_hex_value fuel y Hy), <-(lower_hex_value fuel z Hz), E. Qed.

Lemma hex_digit_no_bar d : contains_char "|" (hex_digit d) = false.
Proof.
  unfold hex_digit. destruct (Z.to_nat d) as [|[|[|[|[|[|[|[|[|[|[|[|[|[|[|[|n]]]]]]]]]]]]]]]]; reflexivity.
Qed.

Lemma lower_hex_no_bar fuel z : contains_char "|" (lower_hex fuel z) = false.
Proof.
  revert z; induction fuel as [|fuel IH]; intros z; [done|]. cbn [lower_hex]. destruct (z <? 16); [apply hex_digit_no_bar|].
  rewrite contains_char_app, IH. apply hex_digit_no_bar.
Qed.
