(* ===== verification/EtcdKeys.v ===== *)
(** * Physical etcd keys ([src/src/config/etcd/keys.rs])

    Namespace canonicalisation, the graph-generation guard key and the mapping
    between physical keys and logical resource keys. *)

From Stdlib Require Import ZArith Lia Ascii.
From stdpp Require Import base tactics gmap strings option list.
From S2P Require Import Prelude Errors GraphStore Utf8.

Open Scope string_scope.

Definition dot : ascii := ".".

Definition canonicalize_prefix (prefix : string) : string :=
  let trimmed := trim_end_matches slash prefix in
  if bool_decide (trimmed = "") then "/" else trimmed +:+ "/".

Definition GRAPH_REVISION_KEY : string := ".pingsix_graph_revision".
Definition GRAPH_PROTOCOL_VERSION : string := "pingsix-graph-v1".

Definition validate_guard_value (value : string) : Result unit StoreError :=
  if negb (bool_decide (value = GRAPH_PROTOCOL_VERSION)) && negb (bool_decide (value = "1"))
  then Err UnsupportedProtocol else Ok ().

Definition is_metadata_key (key : string) : bool :=
  match from_utf8 key with
  | Ok key => starts_with (rsplit_first slash key) "."
  | Err _ => false
  end.

(** [e.to_string()] of the key errors [ResourceKind::parse] and
    [ResourceKey::new] produce. *)
Definition GraphError_key_text (e : GraphError) : string :=
  match e with
  | InvalidKey key reason => "invalid key '" +:+ key +:+ "': " +:+ reason
  | _ => ""
  end.

Definition physical_key_to_resource_key (key canonical_prefix : string)
    : Result ResourceKey string :=
  let? key := map_err (fun e => "Key is not valid UTF-8: " +:+ e) (from_utf8 key) in
  let? rest := ok_or ("Key '" +:+ key +:+ "' is outside etcd namespace '"
                        +:+ canonical_prefix +:+ "'")
                     (strip_prefix canonical_prefix key) in
  let? parts := ok_or ("Invalid key format under namespace: " +:+ key)
                  (split_once slash rest) in
  let '(kind_s, id_s) := parts in
  if bool_decide (kind_s = "") || bool_decide (id_s = "") || contains_char slash id_s
  then Err ("Invalid key format under namespace: " +:+ key)
  else
    let? k := map_err GraphError_key_text (kind_parse kind_s) in
    map_err GraphError_key_text (ResourceKey_new k id_s).

(** [EtcdGraphStore::with_prefix]: the physical key of a logical path. *)
Fixpoint trim_start_matches (c : ascii) (s : string) : string :=
  match s with
  | EmptyString => ""
  | String a s' => if bool_decide (a = c) then trim_start_matches c s' else s
  end.

Definition with_prefix (canonical_prefix key : string) : string :=
  canonical_prefix +:+ trim_start_matches slash key.

(** ** Lemmas *)

Lemma trim_start_logical_path rk : trim_start_matches slash (logical_path rk) = logical_path rk.
Proof. by destruct rk as [[] i]. Qed.

Lemma kind_no_slash k : contains_char slash (kind_as_str k) = false.
Proof. by destruct k. Qed.

Lemma kind_nonempty k : kind_as_str k <> "".
Proof. by destruct k. Qed.

Lemma logical_path_split rk : split_once slash (logical_path rk) = Some (kind_as_str (kind rk), id rk).
Proof. unfold logical_path. apply (split_once_app slash), kind_no_slash. Qed.

Lemma trim_end_ends c s a : trim_end_matches c (s +:+ str1 a) =
  if bool_decide (a = c) then trim_end_matches c s else s +:+ str1 a.
Proof.
  induction s as [|b s IH]; simpl.
  { rewrite andb_true_r. by case_bool_decide. }
  rewrite IH. case_bool_decide; [done|].
  destruct (s +:+ str1 a) eqn:E; [by destruct s|].
  by rewrite (bool_decide_false (String a0 s0 = "")), andb_false_r.
Qed.

Lemma trim_end_idem c s : trim_end_matches c (trim_end_matches c s) = trim_end_matches c s.
Proof.
  induction s as [|a s IH]; simpl; [done|].
  destruct (bool_decide (a = c) && bool_decide (trim_end_matches c s = "")) eqn:E; [done|].
  simpl. by rewrite IH, E.
Qed.

Lemma trim_end_slash s : trim_end_matches slash (s +:+ "/") = trim_end_matches slash s.
Proof. change "/" with (str1 slash). by rewrite trim_end_ends, bool_decide_true. Qed.

Lemma canonicalize_nonempty p : trim_end_matches slash p <> "" ->
  canonicalize_prefix p = trim_end_matches slash p +:+ "/".
Proof. intros Hp. unfold canonicalize_prefix. by rewrite bool_decide_false. Qed.

Lemma app_cancel_l (a b c : string) : a +:+ b = a +:+ c -> b = c.
Proof. induction a; simpl; [done|]. intros [= ?]. auto. Qed.

(** ** Properties *)

(** Key mapping round trip.  A physical key maps to a resource key exactly
    when it is valid UTF-8 and is the canonical prefix followed by the logical
    path of a well-formed key; the mapping inverts [with_prefix]. *)
Theorem physical_key_roundtrip key prefix rk :
  physical_key_to_resource_key key prefix = Ok rk <->
  utf8_valid key = true /\ key = with_prefix prefix (logical_path rk) /\ key_wf rk.
Proof.
  unfold physical_key_to_resource_key, with_prefix, from_utf8. rewrite trim_start_logical_path.
  destruct (utf8_valid key) eqn:Hu; simpl; [|split; [done|by intros []]].
  destruct (strip_prefix prefix key) as [rest|] eqn:Hp; simpl; last first.
  { split; [done|]. intros (_ & -> & _). by rewrite strip_prefix_app in Hp. }
  apply strip_prefix_spec in Hp as ->.
  split.
  - destruct (split_once slash rest) as [[ks ids]|] eqn:Hs; simpl; [|done].
    apply split_once_some in Hs as [_ ->].
    destruct (_ || _); simpl; [done|].
    destruct (kind_parse ks) as [k|] eqn:Hk; simpl; [|done].
    destruct (ResourceKey_new k ids) as [rk'|] eqn:Hn; simpl; [|done]. intros [= <-].
    apply kind_parse_ok in Hk as ->. by apply ResourceKey_new_ok in Hn as [-> Hwf].
  - intros (_ & ->%app_cancel_l & Hwf). rewrite logical_path_split; simpl.
    destruct Hwf as [Hne Hsl].
    rewrite (bool_decide_false (kind_as_str _ = "")) by apply kind_nonempty.
    rewrite bool_decide_false, Hsl, kind_parse_as_str by done; simpl.
    destruct (ResourceKey_new (kind rk) (id rk)) as [rk'|e] eqn:Hn; simpl.
    + apply ResourceKey_new_ok in Hn as [-> _]. by destruct rk.
    + unfold ResourceKey_new in Hn. by rewrite bool_decide_false, Hsl in Hn.
Qed.

(** Namespace isolation.  Canonicalisation is idempotent, ignores trailing
    slashes, and the canonical prefix of a namespace is never a prefix of a key
    of a sibling namespace whose name merely extends it. *)
Theorem canonicalize_prefix_isolates p :
  canonicalize_prefix (canonicalize_prefix p) = canonicalize_prefix p /\
  canonicalize_prefix (p +:+ "/") = canonicalize_prefix p /\
  (forall c rest, c <> slash -> trim_end_matches slash p <> "" ->
     starts_with (trim_end_matches slash p +:+ String c rest) (canonicalize_prefix p) = false).
Proof.
  split_and!.
  - destruct (decide (trim_end_matches slash p = "")) as [E|E].
    + unfold canonicalize_prefix. by rewrite (bool_decide_true _ E).
    + rewrite (canonicalize_nonempty p), canonicalize_nonempty;
        by rewrite ?trim_end_slash, ?trim_end_idem.
  - unfold canonicalize_prefix. by rewrite trim_end_slash.
  - intros c rest Hc Hp. rewrite canonicalize_nonempty by done.
    apply not_true_iff_false. intros [r Hr]%starts_with_spec.
    rewrite str_app_assoc in Hr. apply app_cancel_l in Hr. by injection Hr.
Qed.

Lemma physical_key_roundtrip_witness :
  physical_key_to_resource_key "/pingsix/routes/r1" "/pingsix/"
  = Ok {| kind := Route; id := "r1" |}.
Proof.
  apply (physical_key_roundtrip "/pingsix/routes/r1" "/pingsix/" {| kind := Route; id := "r1" |}).
  split_and!; [vm_compute; reflexivity | vm_compute; reflexivity | by split].
Defined.

Example physical_key_rejects :
  is_ok (physical_key_to_resource_key "/pingsix-other/routes/1" "/pingsix/") = false /\
  is_ok (physical_key_to_resource_key "/pingsix/routes/a/b" "/pingsix/") = false /\
  is_ok (physical_key_to_resource_key "/pingsix/certificates/1" "/pingsix/") = false.
Proof. vm_compute. auto. Qed.
