(* ===== verification/EtcdSync.v ===== *)
(** * Mapping etcd responses ([src/src/config/etcd/sync.rs])

    The pure part of the list/watch adapter: a full list response becomes a
    [StoredGraph], a watch response becomes a coalesced list of changes, and a
    rejection of the authority is classified as a data or a transport failure. *)

From Stdlib Require Import ZArith Lia Ascii.
From stdpp Require Import base tactics gmap strings option list.
From S2P Require Import Prelude Errors GraphStore Utf8 EtcdKeys.

Open Scope Z_scope.

(** ** Data *)

Record ListKv : Type := {
  kv_key : Bytes;
  kv_value : Bytes;
  kv_create_revision : Z;
  kv_mod_revision : Z;
}.

Inductive EventType : Type := EventPut | EventDelete.
Record Event : Type := { event_type : EventType; event_kv : option ListKv }.

Inductive SyncError : Type :=
| Transport (err : ProxyError)
| Data (err : ProxyError).

(** ** Operations *)

Definition kv_resource (kv : ListKv) : StoredResource :=
  {| value := kv_value kv; create_revision := kv_create_revision kv;
     mod_revision := kv_mod_revision kv |}.

Definition guard_key (canonical_prefix : string) : string :=
  canonical_prefix +:+ GRAPH_REVISION_KEY.

Definition list_step (canonical_prefix : string)
    (acc : gmap ResourceKey StoredResource * option Z) (kv : ListKv)
    : Result (gmap ResourceKey StoredResource * option Z) StoreError :=
  let '(rs, guard) := acc in
  let key := from_utf8_lossy (kv_key kv) in
  if negb (starts_with key canonical_prefix) then Ok (rs, guard)
  else if bool_decide (key = guard_key canonical_prefix) then
    let? _ := validate_guard_value (kv_value kv) in
    Ok (rs, Some (kv_mod_revision kv))
  else if is_metadata_key (kv_key kv) then Ok (rs, guard)
  else
    let? rk := map_err InvalidResponse
                 (physical_key_to_resource_key (kv_key kv) canonical_prefix) in
    Ok (<[rk := kv_resource kv]> rs, guard).

Definition graph_snapshot_from_list (kvs : list ListKv) (header_revision : Z)
    (canonical_prefix : string) : Result StoredGraph StoreError :=
  let? acc := try_fold (list_step canonical_prefix) (∅, None) kvs in
  Ok {| resources := acc.1; guard_mod_revision := acc.2; graph_revision := header_revision |}.

(** The change one event denotes; [None] for an ignored key. *)
Definition event_change (canonical_prefix : string) (event : Event)
    : ProxyResult (option StoredChange) :=
  let? kv := ok_or (Configuration "Etcd event missing key-value pair") (event_kv event) in
  let key := from_utf8_lossy (kv_key kv) in
  if is_metadata_key (kv_key kv) then Ok None
  else if negb (starts_with key canonical_prefix) then Ok None
  else
    let? rk := map_err Configuration (physical_key_to_resource_key (kv_key kv) canonical_prefix) in
    Ok (Some (match event_type event with
              | EventPut => ChangePut rk (kv_resource kv)
              | EventDelete => ChangeDelete rk
              end)).

Definition event_step (canonical_prefix : string)
    (final_by_key : gmap ResourceKey StoredChange) (event : Event)
    : ProxyResult (gmap ResourceKey StoredChange) :=
  let? change := event_change canonical_prefix event in
  Ok (match change with
      | Some c => <[change_key c := c]> final_by_key
      | None => final_by_key
      end).

(** The changes are the values of a hash map: their order is unspecified, and
    [graph_changes_from_events] fixes the one of the map's enumeration. *)
Definition coalesce_events (events : list Event) (canonical_prefix : string)
    : ProxyResult (gmap ResourceKey StoredChange) :=
  try_fold (event_step canonical_prefix) ∅ events.

Definition graph_changes_from_events (events : list Event) (canonical_prefix : string)
    : ProxyResult (list StoredChange) :=
  let? final_by_key := coalesce_events events canonical_prefix in
  Ok (snd <$> map_to_list final_by_key).

(** The revision of a watch batch: the newest [mod_revision] of its events. *)
Definition batch_revision_of (events : list Event) : Z :=
  default 0 (foldr (fun e acc =>
    match event_kv e with
    | Some kv => Some (match acc with
                       | Some m => Z.max (kv_mod_revision kv) m
                       | None => kv_mod_revision kv
                       end)
    | None => acc
    end) None events).

Section classify.
(** The rendering of a graph error (its [Display] text). *)
Context (GraphError_display : GraphError -> string).

Definition classify_rejection (err : GraphError) : SyncError :=
  let is_data := match err with
                 | InvalidCandidate _ | InvalidResource _ _ | Secret _ _ _ => true
                 | _ => false
                 end in
  let message := "Configuration graph rejected input: " +:+ GraphError_display err in
  if is_data then Data (Configuration message) else Transport (Configuration message).

End classify.

(** ** Lemmas *)

Lemma metadata_key_physical prefix rk :
  key_wf rk -> utf8_valid (with_prefix prefix (logical_path rk)) = true ->
  is_metadata_key (with_prefix prefix (logical_path rk)) = starts_with (id rk) ".".
Proof.
  intros [_ Hsl] Hu. unfold is_metadata_key, from_utf8. rewrite Hu.
  unfold with_prefix. rewrite trim_start_logical_path. unfold logical_path.
  change ("/" +:+ id rk) with (String slash (id rk)).
  by rewrite <- str_app_assoc, rsplit_first_app.
Qed.

Lemma physical_not_guard prefix rk : with_prefix prefix (logical_path rk) <> guard_key prefix.
Proof.
  unfold with_prefix, guard_key. rewrite trim_start_logical_path.
  intros E%app_cancel_l. apply (f_equal (contains_char slash)) in E.
  unfold logical_path in E. rewrite !contains_char_app in E; simpl in E.
  by rewrite orb_true_r in E.
Qed.

Lemma physical_starts prefix path : starts_with (with_prefix prefix path) prefix = true.
Proof. apply starts_with_app. Qed.

(** One listed pair: what it does to the entry of [rk]. *)
Lemma list_step_lookup prefix rs gd kv rs' gd' rk :
  key_wf rk -> utf8_valid (with_prefix prefix (logical_path rk)) = true ->
  list_step prefix (rs, gd) kv = Ok (rs', gd') ->
  rs' !! rk =
    if decide (kv_key kv = with_prefix prefix (logical_path rk))
    then (if starts_with (id rk) "." then rs !! rk else Some (kv_resource kv))
    else rs !! rk.
Proof.
  intros Hwf Hu. unfold list_step. case_decide as Hk.
  - rewrite Hk, utf8_chunks_lossy, physical_starts by done; simpl.
    rewrite bool_decide_false, metadata_key_physical by (done || apply physical_not_guard).
    destruct (starts_with (id rk) "."); [by intros [= <- <-]|].
    rewrite (proj2 (physical_key_roundtrip _ _ rk)) by done; simpl.
    intros [= <- <-]. apply lookup_insert_eq.
  - destruct (negb _); [by intros [= <- <-]|].
    destruct (bool_decide _).
    { intros ([] & _ & [= <- <-])%and_then_ok. done. }
    destruct (is_metadata_key _); [by intros [= <- <-]|].
    intros (rk' & Hrk & [= <- <-])%and_then_ok.
    destruct (physical_key_to_resource_key _ _) as [rk0|] eqn:E; simplify_eq/=.
    apply physical_key_roundtrip in E as (_ & E & _).
    apply lookup_insert_ne. by intros ->.
Qed.

Lemma list_step_guard prefix rs gd kv rs' gd' :
  list_step prefix (rs, gd) kv = Ok (rs', gd') ->
  gd' = if decide (from_utf8_lossy (kv_key kv) = guard_key prefix)
        then Some (kv_mod_revision kv) else gd.
Proof.
  unfold list_step. case_decide as Hk.
  - rewrite Hk. unfold guard_key at 1. rewrite starts_with_app, bool_decide_true by done; simpl.
    by intros ([] & _ & [= <- <-])%and_then_ok.
  - rewrite (bool_decide_false _ Hk).
    destruct (negb _); [by intros [= <- <-]|].
    destruct (is_metadata_key _); [by intros [= <- <-]|].
    by intros (rk' & Hrk & [= <- <-])%and_then_ok.
Qed.

Lemma try_fold_snoc {A S E} (f : S -> A -> Result S E) s l x s' :
  try_fold f s (l ++ [x]) = Ok s' -> exists s1, try_fold f s l = Ok s1 /\ f s1 x = Ok s'.
Proof.
  rewrite try_fold_app. intros (s1 & H1 & H2)%and_then_ok. simpl in H2.
  apply and_then_ok in H2 as (s2 & Hx & [= <-]). eauto.
Qed.

(** The changes of the events, one by one, without coalescing. *)
Definition event_sequence (prefix : string) (events : list Event) : list StoredChange :=
  omap (fun e => match event_change prefix e with Ok c => c | Err _ => None end) events.

Lemma coalesce_lookup prefix events m k :
  coalesce_events events prefix = Ok m ->
  m !! k = list.last (filter (fun c => change_key c = k) (event_sequence prefix events)).
Proof.
  revert m; induction events as [|e events IH] using rev_ind; intros m.
  { by intros [= <-]. }
  intros (m1 & H1%IH & He)%try_fold_snoc.
  unfold event_sequence. rewrite omap_app, filter_app; simpl.
  unfold event_step in He. apply and_then_ok in He as (oc & Hc & [= <-]). rewrite Hc.
  destruct oc as [c|]; simpl; [|by rewrite app_nil_r].
  rewrite filter_cons, filter_nil, lookup_insert. case_decide; [by rewrite last_snoc|].
  by rewrite app_nil_r.
Qed.

Lemma coalesce_keyed prefix events m k c :
  coalesce_events events prefix = Ok m -> m !! k = Some c -> change_key c = k.
Proof.
  intros Hm. rewrite (coalesce_lookup _ _ _ _ Hm).
  intros Hc%last_Some_elem_of. by apply list_elem_of_filter in Hc as [].
Qed.

(** Any listing of a well-keyed map holds, under each key, the map's value. *)
Lemma last_filter_values (m : gmap ResourceKey StoredChange) l k :
  (forall k c, m !! k = Some c -> change_key c = k) ->
  l ≡ₚ (snd <$> map_to_list m) ->
  list.last (filter (fun c => change_key c = k) l) = m !! k.
Proof.
  intros Hkey Hl.
  assert (forall c, c ∈ l <-> m !! change_key c = Some c) as Hin.
  { intros c. rewrite Hl, list_elem_of_fmap. split.
    - intros ([k' c'] & -> & Hc%elem_of_map_to_list). simpl. by rewrite (Hkey _ _ Hc).
    - intros Hc. exists (change_key c, c). split; [done|]. by apply elem_of_map_to_list. }
  destruct (list.last _) as [c|] eqn:Hlast.
  - apply last_Some_elem_of, list_elem_of_filter in Hlast as [<- Hc]. by apply Hin in Hc.
  - apply last_None in Hlast. destruct (m !! k) as [c|] eqn:Hk; [|done].
    assert (c ∈ filter (fun c => change_key c = k) l) as Hc; [|by rewrite Hlast in Hc; apply not_elem_of_nil in Hc].
    apply list_elem_of_filter. rewrite Hin. by rewrite (Hkey _ _ Hk).
Qed.

(** The coalesced changes, in any order, do what the events do. *)
Lemma coalesced_resources events prefix cs l rs :
  graph_changes_from_events events prefix = Ok cs -> l ≡ₚ cs ->
  fold_left apply_change l rs = fold_left apply_change (event_sequence prefix events) rs.
Proof.
  unfold graph_changes_from_events. intros (m & Hm & [= <-])%and_then_ok Hl.
  apply map_eq. intros k. rewrite !fold_changes_lookup.
  rewrite (last_filter_values m) by (done || (intros; by eapply coalesce_keyed)).
  by rewrite (coalesce_lookup _ _ _ _ Hm).
Qed.

(** ** Properties *)

(** List mapping.  The snapshot built from a list response holds, under
    every well-formed key, the last listed pair of its physical key, except
    that resources whose id starts with a dot are treated as control-plane
    metadata and never appear; the guard revision is the last one listed. *)
Theorem snapshot_from_list_lookup kvs rev prefix g :
  graph_snapshot_from_list kvs rev prefix = Ok g ->
  graph_revision g = rev /\
  guard_mod_revision g =
    kv_mod_revision <$> list.last (filter (fun kv => from_utf8_lossy (kv_key kv) = guard_key prefix) kvs) /\
  forall rk, key_wf rk -> utf8_valid (with_prefix prefix (logical_path rk)) = true ->
    resources g !! rk =
      if starts_with (id rk) "." then None
      else kv_resource <$>
             list.last (filter (fun kv => kv_key kv = with_prefix prefix (logical_path rk)) kvs).
Proof.
  unfold graph_snapshot_from_list. intros ([rs gd] & Hf & [= <-])%and_then_ok. simpl.
  split; [done|].
  revert rs gd Hf; induction kvs as [|kv kvs IH] using rev_ind; intros rs gd Hf.
  { simplify_eq/=. split; [done|]. intros. by destruct (starts_with _ _). }
  apply try_fold_snoc in Hf as ([rs1 gd1] & [Hg Hrs]%IH & Hstep).
  rewrite filter_app, filter_cons, filter_nil.
  split.
  - rewrite (list_step_guard _ _ _ _ _ _ Hstep), Hg.
    case_decide; [by rewrite last_snoc|by rewrite app_nil_r].
  - intros rk Hwf Hu. rewrite (list_step_lookup _ _ _ _ _ _ _ Hwf Hu Hstep), Hrs by done.
    rewrite filter_app, filter_cons, filter_nil.
    case_decide; [rewrite last_snoc|rewrite app_nil_r]; by destruct (starts_with _ _).
Qed.

(** Watch coalescing.  Keeping only the last change of each key loses
    nothing: applying the coalesced batch, in whatever order the hash map
    yields it, gives the same resources as applying every event in order. *)
Theorem watch_coalescing_sound events prefix cs l base rev :
  graph_changes_from_events events prefix = Ok cs -> l ≡ₚ cs ->
  exists g, apply_watch_batch base {| batch_revision := rev; changes := l |} = Ok g /\
    resources g = fold_left apply_change (event_sequence prefix events) (resources base).
Proof.
  intros Hcs Hl. rewrite <-(coalesced_resources _ _ _ _ (resources base) Hcs Hl). destruct l; eexists; split; done.
Qed.

(** ** Witnesses *)

Definition demo_kv (k v : string) (r : Z) : ListKv :=
  {| kv_key := k; kv_value := v; kv_create_revision := 1; kv_mod_revision := r |}.

Definition demo_list : list ListKv :=
  [demo_kv "/p/.pingsix_graph_revision" "pingsix-graph-v1" 7;
   demo_kv "/p/routes/r1" "old" 2; demo_kv "/p/routes/r1" "{}" 3;
   demo_kv "/p/routes/.hidden" "{}" 5; demo_kv "/other/routes/r2" "{}" 6].

Lemma snapshot_from_list_lookup_witness :
  exists g, graph_snapshot_from_list demo_list 9 "/p/" = Ok g /\
    resources g !! {| kind := Route; id := "r1" |} = Some (kv_resource (demo_kv "/p/routes/r1" "{}" 3)) /\
    resources g !! {| kind := Route; id := ".hidden" |} = None.
Proof.
  destruct (graph_snapshot_from_list demo_list 9 "/p/") as [g|] eqn:E;
    [|vm_compute in E; discriminate].
  exists g. split; [done|].
  destruct (snapshot_from_list_lookup demo_list 9 "/p/" g E) as (_ & _ & H).
  split; rewrite H by (vm_compute; done); vm_compute; reflexivity.
Defined.

Lemma watch_coalescing_sound_witness :
  let evs := [{| event_type := EventPut; event_kv := Some (demo_kv "/p/routes/r1" "a" 4) |};
              {| event_type := EventDelete; event_kv := Some (demo_kv "/p/routes/r1" "" 5) |}] in
  exists g, apply_watch_batch StoredGraph_default
    {| batch_revision := 5; changes := [ChangeDelete {| kind := Route; id := "r1" |}] |} = Ok g /\
    resources g = fold_left apply_change (event_sequence "/p/" evs) (resources StoredGraph_default).
Proof.
  intros evs.
  apply (watch_coalescing_sound evs "/p/" [ChangeDelete {| kind := Route; id := "r1" |}]);
    [vm_compute; reflexivity | reflexivity].
Defined.
