(* ===== verification/Hosts.v ===== *)
(** * Node addresses ([src/src/config/node.rs])

    Host validation, the [host:port] parser and the canonical rendering of a
    node address, with the IPv4 and IPv6 literal parsers of Rust's standard
    library they rely on.  The two regular expressions of the file are
    translated by hand on the characters of the (UTF-8) text. *)

From Stdlib Require Import ZArith Lia Ascii.
From stdpp Require Import base tactics strings pretty option sorting list.
From S2P Require Import Prelude GraphStore Utf8.

Open Scope Z_scope.

(** ** Characters *)

Definition digit_val (radix : Z) (a : ascii) : option Z :=
  let v := byte_val a in
  let d := if between 48 57 v then Some (v - 48)
           else if between 97 122 v then Some (v - 87)
           else if between 65 90 v then Some (v - 55)
           else None in
  match d with Some n => if n <? radix then Some n else None | None => None end.

Definition is_ascii_digit (a : ascii) : bool := between 48 57 (byte_val a).
Definition is_ascii_alpha (a : ascii) : bool :=
  between 97 122 (byte_val a) || between 65 90 (byte_val a).
Definition is_ascii_alnum (a : ascii) : bool := is_ascii_digit a || is_ascii_alpha a.

Fixpoint str_forall (f : ascii -> bool) (s : string) : bool :=
  match s with EmptyString => true | String a s' => f a && str_forall f s' end.

(** ** [Ipv4Addr] and [Ipv6Addr] literals *)

(** [Parser::read_number]: longest run of digits, at most [max_digits] of them,
    below [bound]; returns the rest of the input. *)
Fixpoint read_digits (radix bound : Z) (max_digits count acc : Z) (s : string)
    : option (Z * Z * string) :=
  match s with
  | String a s' =>
    match digit_val radix a with
    | Some d =>
      let acc := acc * radix + d in
      if bound <=? acc then None
      else if max_digits <? count + 1 then None
      else read_digits radix bound max_digits (count + 1) acc s'
    | None => Some (acc, count, s)
    end
  | EmptyString => Some (acc, count, s)
  end.

Definition read_number (radix bound max_digits : Z) (allow_zero_prefix : bool) (s : string)
    : option (Z * string) :=
  let has_leading_zero := starts_with s "0" in
  match read_digits radix bound max_digits 0 0 s with
  | Some (v, count, rest) =>
    if count =? 0 then None
    else if negb allow_zero_prefix && has_leading_zero && (1 <? count) then None
    else Some (v, rest)
  | None => None
  end.

Definition read_char (c : ascii) (s : string) : option string := strip_prefix (str1 c) s.

(** [read_separator]: the separator is expected except before the first item. *)
Definition read_separator {A} (sep : ascii) (index : nat) (inner : string -> option (A * string))
    (s : string) : option (A * string) :=
  match index with
  | O => inner s
  | S _ => match read_char sep s with Some s' => inner s' | None => None end
  end.

Definition read_octet (s : string) : option (Z * string) := read_number 10 256 3 false s.

Definition read_ipv4_addr (s : string) : option (list Z * string) :=
  match read_separator "." 0 read_octet s with
  | Some (a, s) =>
    match read_separator "." 1 read_octet s with
    | Some (b, s) =>
      match read_separator "." 2 read_octet s with
      | Some (c, s) =>
        match read_separator "." 3 read_octet s with
        | Some (d, s) => Some ([a; b; c; d], s)
        | None => None
        end
      | None => None
      end
    | None => None
    end
  | None => None
  end.

Definition parse_ipv4 (s : string) : option (list Z) :=
  if (15 <? Z.of_nat (String.length s)) then None
  else match read_ipv4_addr s with Some (o, EmptyString) => Some o | _ => None end.

(** [read_groups]: up to [limit - i] further groups, an embedded IPv4 address
    standing for two of them. *)
Fixpoint read_groups (fuel i limit : nat) (acc : list Z) (s : string)
    : list Z * bool * string :=
  match fuel with
  | O => (acc, false, s)
  | S fuel =>
    let v4 := if (i <? limit - 1)%nat then read_separator ":" i read_ipv4_addr s else None in
    match v4 with
    | Some (o, rest) =>
      match o with
      | [a; b; c; d] => (acc ++ [a * 256 + b; c * 256 + d], true, rest)
      | _ => (acc, false, s)
      end
    | None =>
      match read_separator ":" i (read_number 16 65536 4 true) s with
      | Some (g, rest) => read_groups fuel (S i) limit (acc ++ [g]) rest
      | None => (acc, false, s)
      end
    end
  end.

Definition read_ipv6_addr (s : string) : option (list Z * string) :=
  let '(head, head_ipv4, s) := read_groups 8 0 8 [] s in
  if (length head =? 8)%nat then Some (head, s)
  else if head_ipv4 then None
  else
    match strip_prefix "::" s with
    | None => None
    | Some s =>
      let limit := (8 - (length head + 1))%nat in
      let '(tail, _, s) := read_groups limit 0 limit [] s in
      Some (head ++ replicate (8 - length head - length tail) 0 ++ tail, s)
    end.

Definition parse_ipv6 (s : string) : option (list Z) :=
  match read_ipv6_addr s with Some (g, EmptyString) => Some g | _ => None end.

(** ** Host validation *)

Fixpoint split_on (c : ascii) (s : string) : list string :=
  match s with
  | EmptyString => [""]
  | String a s' =>
    if bool_decide (a = c) then "" :: split_on c s'
    else match split_on c s' with
         | p :: ps => String a p :: ps
         | [] => [str1 a]
         end
  end.

Definition is_ipv4_shaped (s : string) : bool :=
  let parts := split_on "." s in
  (length parts =? 4)%nat
  && forallb (fun p => negb (bool_decide (p = "")) && str_forall is_ascii_digit p) parts.

(** The characters [(?i)[a-z0-9]] matches: ASCII alphanumerics and the two
    characters that fold to ASCII letters, U+017F and U+212A. *)
Definition fold_alnum (c : string) : bool :=
  match c with
  | String a EmptyString => is_ascii_alnum a
  | _ => bool_decide (c = str2 "197" "191") || bool_decide (c = str3 "226" "132" "170")
  end.

(** One label [[a-z0-9]([a-z0-9-]*[a-z0-9])?]. *)
Definition fqdn_label (cs : list string) : bool :=
  match cs, list.last cs with
  | c :: _, Some e =>
    fold_alnum c && fold_alnum e && forallb (fun c => fold_alnum c || bool_decide (c = "-")) cs
  | _, _ => false
  end.

Fixpoint split_labels (cs : list string) : list (list string) :=
  match cs with
  | [] => [[]]
  | c :: cs' =>
    if bool_decide (c = ".") then [] :: split_labels cs'
    else match split_labels cs' with l :: ls => (c :: l) :: ls | [] => [[c]] end
  end.

(** [HOST_FQDN_REGEX.is_match] *)
Definition fqdn_match (s : string) : bool := forallb fqdn_label (split_labels (snd <$> utf8_chunks s)).

Fixpoint last_char (s : string) : option ascii :=
  match s with
  | EmptyString => None
  | String a EmptyString => Some a
  | String _ s' => last_char s'
  end.

(** [&host[1..host.len() - 1]] of a host that starts with a bracket. *)
Fixpoint drop_last (s : string) : string :=
  match s with
  | EmptyString => ""
  | String _ EmptyString => ""
  | String a s' => String a (drop_last s')
  end.
Definition inner (s : string) : string := match s with String _ s' => drop_last s' | _ => "" end.

Definition bracketed (host : string) : bool :=
  starts_with host "[" && bool_decide (last_char host = Some "]"%char)
  && (2 <? Z.of_nat (String.length host)).

(** Error codes stand for [ValidationError]s. *)
Definition validate_node_host (host : string) : Result unit string :=
  if bool_decide (host = "") then Err "invalid_host"
  else if starts_with host "[" && negb (bracketed host) then Err "invalid_host"
  else
    let bare := if starts_with host "[" then inner host else host in
    if bool_decide (is_Some (parse_ipv4 bare)) || bool_decide (is_Some (parse_ipv6 bare)) then Ok ()
    else if is_ipv4_shaped bare then Err "invalid_host"
    else if fqdn_match host then Ok ()
    else Err "invalid_host".

Definition strip_ipv6_brackets (host : string) : string :=
  if bracketed host then inner host else host.

(** ** [host:port] *)

(** [(?::(\d+))?$]: the port text, if any. *)
Definition port_suffix (s : string) : option (option string) :=
  match s with
  | EmptyString => Some None
  | String a ds =>
    if bool_decide (a = ":"%char) && negb (bool_decide (ds = "")) && str_forall is_ascii_digit ds
    then Some (Some ds) else None
  end.

(** [(.+?)\]] followed by the port suffix: the shortest non-empty group. *)
Fixpoint bracket_group (acc s : string) : option (string * option string) :=
  match s with
  | EmptyString => None
  | String a s' =>
    let here :=
      if bool_decide (a = "]"%char) && negb (bool_decide (acc = ""))
      then match port_suffix s' with Some p => Some (acc, p) | None => None end
      else None in
    match here with
    | Some r => Some r
    | None => if bool_decide (a = "010"%char) then None else bracket_group (acc +:+ str1 a) s'
    end
  end.

(** [([^:]+)] followed by the port suffix. *)
Definition bare_group (s : string) : option (string * option string) :=
  match split_once ":" s with
  | None => if bool_decide (s = "") then None else Some (s, None)
  | Some (h, ds) =>
    if bool_decide (h = "") then None
    else match port_suffix (String ":" ds) with Some p => Some (h, p) | None => None end
  end.

(** [HOST_PORT_REGEX.captures] *)
Definition host_port_captures (addr : string) : option (string * option string) :=
  match addr with
  | String "[" rest => match bracket_group "" rest with Some r => Some r | None => bare_group addr end
  | _ => bare_group addr
  end.

(** [str::parse::<u16>] on a text of ASCII digits. *)
Fixpoint digits_val (acc : Z) (s : string) : Z :=
  match s with
  | EmptyString => acc
  | String a s' => digits_val (acc * 10 + (byte_val a - 48)) s'
  end.
Definition parse_u16 (s : string) : option Z :=
  let v := digits_val 0 s in if v <=? u16_max then Some v else None.

(** Which [ValidationError] code is reported is not modelled: [\d] of the
    pattern admits every Unicode digit, so a port of non-ASCII digits is
    refused by the number parser here rather than by the pattern. *)
Definition split_host_port (addr : string) : Result (string * option Z) unit :=
  let? caps := ok_or () (host_port_captures addr) in
  let '(host, p) := caps in
  let? _ := map_err (fun _ => ()) (validate_node_host host) in
  match p with
  | None => Ok (host, None)
  | Some ds =>
    let? port := ok_or () (parse_u16 ds) in
    if port =? 0 then Err () else Ok (host, Some port)
  end.

(** [write_addr] *)
Definition write_addr (host : string) (port : option Z) : string :=
  (if contains_char ":" host then "[" +:+ host +:+ "]" else host)
  +:+ match port with Some p => ":" +:+ pretty p | None => "" end.

(** ** Nodes *)

Inductive UpstreamScheme : Type := HTTP | HTTPS | GRPC | GRPCS.
#[export] Instance UpstreamScheme_eq_dec : EqDecision UpstreamScheme.
Proof. solve_decision. Defined.

Record Node : Type := {
  host : string;
  port : option Z;
  weight : Z;
  priority : Z;
}.
#[export] Instance Node_eq_dec : EqDecision Node.
Proof. solve_decision. Defined.
#[export] Instance eta_Node : Eta Node := fun n =>
  Build_Node (host n) (port n) (weight n) (priority n).

Definition default_weight : Z := 1.
Definition is_enabled (self : Node) : bool := 0 <? weight self.
Definition bare_host (self : Node) : string := strip_ipv6_brackets (host self).

Definition sort_key (self : Node) : string * Z * Z * Z :=
  (bare_host self, default 0 (port self), weight self, priority self).

(** [Display]; [addr_key] is its [to_string]. *)
Definition addr_key (self : Node) : string := write_addr (bare_host self) (port self).

Definition effective_port (scheme : UpstreamScheme) (self : Node) : Z :=
  default (match scheme with HTTPS | GRPCS => 443 | HTTP | GRPC => 80 end) (port self).

Definition effective_addr_key (scheme : UpstreamScheme) (self : Node) : string :=
  write_addr (bare_host self) (Some (effective_port scheme self)).

Definition matches_addr (addr : string) (self : Node) : bool :=
  match split_host_port addr with
  | Ok (h, p) => bool_decide (bare_host self = h) && bool_decide (port self = p)
  | Err _ => false
  end.

(** [FromStr for Node] *)
Definition Node_from_str (addr : string) : Result Node unit :=
  let? hp := split_host_port addr in
  Ok {| host := hp.1; port := hp.2; weight := default_weight; priority := 0 |}.

Definition contains_addr (addr : string) (nodes : list Node) : bool :=
  existsb (matches_addr addr) nodes.

(** *** Ordering of sort keys *)

(** [Ordering::then]: the tuple order of the standard library. *)
Definition then_cmp (c d : comparison) : comparison := match c with Eq => d | _ => c end.

Fixpoint str_cmp (a b : string) : comparison :=
  match a, b with
  | EmptyString, EmptyString => Eq
  | EmptyString, _ => Lt
  | _, EmptyString => Gt
  | String x a', String y b' => then_cmp (byte_val x ?= byte_val y) (str_cmp a' b')
  end.

Definition key_cmp (a b : string * Z * Z * Z) : comparison :=
  let '(h1, p1, w1, q1) := a in
  let '(h2, p2, w2, q2) := b in
  then_cmp (str_cmp h1 h2) (then_cmp (p1 ?= p2) (then_cmp (w1 ?= w2) (q1 ?= q2))).

Definition node_le (a b : Node) : Prop := key_cmp (sort_key a) (sort_key b) <> Gt.
#[export] Instance node_le_dec : RelDecision node_le.
Proof. intros a b. unfold node_le. apply _. Defined.

(** [TryFrom<HashMap<String, u32>> for Nodes]; [entries] is the map in the
    order its iterator yields it.  Every address is parsed before the first
    error is reported; the error lists the rejected addresses. *)
Definition try_from_step (acc : list string * list Node) (entry : string * Z)
    : list string * list Node :=
  match Node_from_str entry.1 with
  | Ok node => (acc.1, acc.2 ++ [node <| weight := entry.2 |>])
  | Err _ => (acc.1 ++ [entry.1], acc.2)
  end.

Definition Nodes_try_from (entries : list (string * Z)) : Result (list Node) (list string) :=
  let '(errors, nodes) := fold_left try_from_step entries ([], []) in
  if bool_decide (errors = []) then Ok (merge_sort node_le nodes) else Err errors.

(** [Validate for Nodes]: the error codes of the field. *)
Definition Nodes_validate (nodes : list Node) : list string :=
  if bool_decide (nodes = []) then ["nodes_empty"]
  else (if existsb is_enabled nodes then [] else ["nodes_all_disabled"])
       ++ concat ((fun n => match validate_node_host (host n) with Ok _ => [] | Err c => [c] end) <$> nodes).

(** ** Checks against the unit tests of the file *)

Example hosts_accepted :
  split_host_port "example.com:80" = Ok ("example.com", Some 80) /\
  split_host_port "[::1]:8443" = Ok ("::1", Some 8443) /\
  split_host_port "10.0.0.1" = Ok ("10.0.0.1", None) /\
  parse_ipv6 "1::1.2.3.4" = Some [1; 0; 0; 0; 0; 0; 258; 772] /\
  validate_node_host "a-b.example" = Ok () /\ validate_node_host "[::1]" = Ok ().
Proof. vm_compute. auto 10. Qed.

Example hosts_rejected :
  split_host_port "example.com:0" = Err () /\
  split_host_port "example.com:65536" = Err () /\
  validate_node_host "999.999.999.999" = Err "invalid_host" /\
  validate_node_host "bad_host!" = Err "invalid_host" /\
  validate_node_host "" = Err "invalid_host" /\ validate_node_host "[" = Err "invalid_host" /\
  parse_ipv6 "1:2" = None /\ parse_ipv4 "01.2.3.4" = None.
Proof. vm_compute. auto 10. Qed.

(** ** Comparison functions as total orders *)

Class CmpOrder {A} (cmp : A -> A -> comparison) : Prop := {
  cmp_eq x y : cmp x y = Eq <-> x = y;
  cmp_opp x y : cmp y x = CompOpp (cmp x y);
  cmp_lt_trans x y z : cmp x y = Lt -> cmp y z = Lt -> cmp x z = Lt;
}.

#[export] Instance Z_cmp_order : CmpOrder Z.compare.
Proof.
  split.
  - apply Z.compare_eq_iff.
  - intros. apply Z.compare_antisym.
  - intros x y z. rewrite !Z.compare_lt_iff. lia.
Qed.

Definition pair_cmp {A B} (c : A -> A -> comparison) (d : B -> B -> comparison) (x y : A * B)
    : comparison := then_cmp (c x.1 y.1) (d x.2 y.2).

#[export] Instance pair_cmp_order {A B} (c : A -> A -> comparison) (d : B -> B -> comparison) :
  CmpOrder c -> CmpOrder d -> CmpOrder (pair_cmp c d).
Proof.
  intros Hc Hd. split; unfold pair_cmp.
  - intros [a b] [a' b']; simpl. rewrite pair_equal_spec, <- (cmp_eq (cmp:=c) a a'), <- (cmp_eq (cmp:=d) b b').
    destruct (c a a'), (d b b'); simpl; intuition congruence.
  - intros [a b] [a' b']; simpl. rewrite (cmp_opp (cmp:=c) a a'), (cmp_opp (cmp:=d) b b').
    by destruct (c a a').
  - intros [a b] [a' b'] [a'' b'']; simpl.
    destruct (c a a') eqn:E1; simpl; [|intros _|done].
    + apply cmp_eq in E1 as ->. destruct (c a' a''); simpl; [apply cmp_lt_trans|done|done].
    + destruct (c a' a'') eqn:E2; simpl; [|intros _|done].
      * apply cmp_eq in E2 as ->. by rewrite E1.
      * by rewrite (cmp_lt_trans _ _ _ E1 E2).
Qed.

Lemma byte_val_inj x y : byte_val x = byte_val y -> x = y.
Proof.
  unfold byte_val. intros H%N2Z.inj.
  by rewrite <- (ascii_N_embedding x), H, ascii_N_embedding.
Qed.

#[export] Instance str_cmp_order : CmpOrder str_cmp.
Proof.
  split.
  - induction x as [|a x IH]; intros [|b y]; simpl; try naive_solver.
    destruct (byte_val a ?= byte_val b) eqn:E; simpl.
    + apply Z.compare_eq, byte_val_inj in E as ->. rewrite IH. naive_solver.
    + split; [done|]. intros [= -> ->]. by rewrite Z.compare_refl in E.
    + split; [done|]. intros [= -> ->]. by rewrite Z.compare_refl in E.
  - induction x as [|a x IH]; intros [|b y]; simpl; try done.
    rewrite (Z.compare_antisym (byte_val a)), IH. by destruct (byte_val a ?= byte_val b).
  - induction x as [|a x IH]; intros [|b y] [|c z]; simpl; try done.
    destruct (Z.compare_spec (byte_val a) (byte_val b)) as [E|E|E],
             (Z.compare_spec (byte_val b) (byte_val c)) as [F|F|F]; simpl; try done.
    + rewrite E, F, Z.compare_refl. apply IH.
    + intros _ _. rewrite E. apply Z.compare_lt_iff in F. by rewrite F.
    + intros _ _. rewrite <- F. apply Z.compare_lt_iff in E. by rewrite E.
    + intros _ _. assert (byte_val a < byte_val c) as G%Z.compare_lt_iff by lia. by rewrite G.
Qed.

Lemma key_cmp_pairs a b :
  key_cmp a b = pair_cmp (pair_cmp (pair_cmp str_cmp Z.compare) Z.compare) Z.compare a b.
Proof.
  destruct a as [[[h1 p1] w1] q1], b as [[[h2 p2] w2] q2]. unfold pair_cmp; simpl.
  by destruct (str_cmp h1 h2), (p1 ?= p2), (w1 ?= w2).
Qed.

#[export] Instance key_cmp_order : CmpOrder key_cmp.
Proof.
  split; intros *; rewrite !key_cmp_pairs; [apply cmp_eq | apply cmp_opp | apply cmp_lt_trans].
Qed.

Section cmp_le.
Context {A B} (cmp : B -> B -> comparison) `{!CmpOrder cmp} (key : A -> B).

Definition key_le (x y : A) : Prop := cmp (key x) (key y) <> Gt.

Lemma key_le_total : Total key_le.
Proof. intros x y. unfold key_le. rewrite (cmp_opp (key x) (key y)). destruct (cmp (key x) (key y)); auto. Qed.

Lemma key_le_trans : Transitive key_le.
Proof.
  intros x y z. unfold key_le.
  destruct (cmp (key x) (key y)) eqn:E; [apply cmp_eq in E as ->; done| |done].
  intros _. destruct (cmp (key y) (key z)) eqn:F; [apply cmp_eq in F as <-; congruence| |done].
  intros _. by rewrite (cmp_lt_trans _ _ _ E F).
Qed.

Lemma key_le_antisym x y : key_le x y -> key_le y x -> key x = key y.
Proof.
  unfold key_le. rewrite (cmp_opp (key x) (key y)). intros.
  apply cmp_eq. by destruct (cmp (key x) (key y)).
Qed.
End cmp_le.

#[export] Instance node_le_total : Total node_le := key_le_total key_cmp sort_key.
#[export] Instance node_le_trans : Transitive node_le := key_le_trans key_cmp sort_key.

(** ** The canonical order of the map form *)

Definition entry_node (entry : string * Z) : option Node :=
  match Node_from_str entry.1 with Ok n => Some (n <| weight := entry.2 |>) | Err _ => None end.
Definition entry_error (entry : string * Z) : option string :=
  match Node_from_str entry.1 with Ok _ => None | Err _ => Some entry.1 end.

Lemma try_from_fold entries errs nodes :
  fold_left try_from_step entries (errs, nodes)
  = (errs ++ omap entry_error entries, nodes ++ omap entry_node entries).
Proof.
  revert errs nodes; induction entries as [|e es IH]; intros errs nodes; simpl.
  { by rewrite !app_nil_r. }
  unfold try_from_step at 2, entry_error, entry_node.
  destruct (Node_from_str e.1); simpl; rewrite IH; by rewrite <- (assoc_L (++)).
Qed.

Lemma sorted_keys_unique (l1 l2 : list Node) :
  l1 ≡ₚ l2 -> sort_key <$> merge_sort node_le l1 = sort_key <$> merge_sort node_le l2.
Proof.
  intros Hp. set (R := fun a b => key_cmp a b <> Gt).
  assert (AntiSymm (=) R) by (intros a b; apply (key_le_antisym key_cmp (fun k => k))).
  assert (forall l, StronglySorted R (sort_key <$> merge_sort node_le l)) as Hs.
  { intros l. apply (StronglySorted_fmap sort_key node_le R); [done|].
    apply (StronglySorted_merge_sort node_le). }
  apply (StronglySorted_unique R); auto.
  by rewrite !merge_sort_Permutation, Hp.
Qed.

(** ** Address literals use a closed alphabet *)

Definition lit_char (a : ascii) : bool :=
  is_ascii_alnum a || bool_decide (a = ":"%char) || bool_decide (a = "."%char).

(** [r] is what a reader leaves of [s] after reading literal characters. *)
Definition consumed (s r : string) : Prop := exists p, s = p +:+ r /\ str_forall lit_char p = true.

Lemma str_forall_app f a b : str_forall f (a +:+ b) = str_forall f a && str_forall f b.
Proof. induction a as [|c a IH]; simpl; [done|]. by rewrite IH, andb_assoc. Qed.

Lemma consumed_refl s : consumed s s.
Proof. by exists "". Qed.

Lemma consumed_trans s r t : consumed s r -> consumed r t -> consumed s t.
Proof.
  intros (p & -> & Hp) (q & -> & Hq). exists (p +:+ q).
  by rewrite str_app_assoc, str_forall_app, Hp, Hq.
Qed.

Lemma consumed_char a s : lit_char a = true -> consumed (String a s) s.
Proof. intros H. exists (str1 a). simpl. by rewrite H. Qed.

#[local] Hint Resolve consumed_refl consumed_trans consumed_char : core.

Lemma digit_val_lit radix a d : digit_val radix a = Some d -> lit_char a = true.
Proof.
  unfold digit_val, lit_char, is_ascii_alnum, is_ascii_alpha, is_ascii_digit.
  destruct (between 48 57 _), (between 97 122 _), (between 65 90 _); simpl; done.
Qed.

Lemma read_digits_consumed radix bound m c acc s v n r :
  read_digits radix bound m c acc s = Some (v, n, r) -> consumed s r.
Proof.
  revert c acc; induction s as [|a s IH]; intros c acc; simpl; [naive_solver|].
  destruct (digit_val radix a) eqn:E; [|naive_solver].
  repeat case_match; try done. intros. eauto using digit_val_lit.
Qed.

Lemma read_number_consumed radix bound m z s v r :
  read_number radix bound m z s = Some (v, r) -> consumed s r.
Proof.
  unfold read_number. destruct (read_digits _ _ _ _ _ _) as [[[v' n] r']|] eqn:E; [|done].
  repeat case_match; try done. intros [= -> ->]. by eapply read_digits_consumed.
Qed.

Lemma read_separator_consumed {A} (sep : ascii) i (rd : string -> option (A * string)) s v r :
  lit_char sep = true -> (forall s v r, rd s = Some (v, r) -> consumed s r) ->
  read_separator sep i rd s = Some (v, r) -> consumed s r.
Proof.
  intros Hsep Hrd. destruct i; simpl; [apply Hrd|].
  unfold read_char. destruct (strip_prefix (str1 sep) s) as [s'|] eqn:E; [|done].
  apply strip_prefix_spec in E as ->. intros H%Hrd. simpl. eauto.
Qed.

Lemma read_octet_consumed s v r : read_octet s = Some (v, r) -> consumed s r.
Proof. apply read_number_consumed. Qed.

Lemma read_ipv4_consumed s o r : read_ipv4_addr s = Some (o, r) -> consumed s r.
Proof.
  unfold read_ipv4_addr.
  destruct (read_separator _ 0 _ s) as [[a s1]|] eqn:E1; [|done].
  destruct (read_separator _ 1 _ s1) as [[b s2]|] eqn:E2; [|done].
  destruct (read_separator _ 2 _ s2) as [[c s3]|] eqn:E3; [|done].
  destruct (read_separator _ 3 _ s3) as [[d s4]|] eqn:E4; [|done].
  intros [= <- <-].
  apply read_separator_consumed in E1, E2, E3, E4; eauto using read_octet_consumed.
Qed.

Lemma read_groups_consumed fuel i limit acc s g b r :
  read_groups fuel i limit acc s = (g, b, r) -> consumed s r.
Proof.
  revert i acc s; induction fuel as [|fuel IH]; intros i acc s; simpl; [naive_solver|].
  destruct (if (i <? limit - 1)%nat then _ else None) as [[o rest]|] eqn:E.
  - assert (consumed s rest) as Hc.
    { destruct (i <? limit - 1)%nat; [|done].
      eapply read_separator_consumed; [| |exact E]; [done|apply read_ipv4_consumed]. }
    destruct o as [|? [|? [|? [|? [|]]]]]; intros [= _ _ <-]; auto.
  - clear E. destruct (read_separator ":" i (read_number 16 65536 4 true) s) as [[g' rest]|] eqn:F;
      [|intros ?; simplify_eq; apply consumed_refl].
    apply read_separator_consumed in F; [|done|intros; by eapply read_number_consumed].
    eauto.
Qed.

Lemma read_ipv6_consumed s g r : read_ipv6_addr s = Some (g, r) -> consumed s r.
Proof.
  unfold read_ipv6_addr. destruct (read_groups 8 0 8 [] s) as [[h b] s1] eqn:E1.
  apply read_groups_consumed in E1. destruct (_ =? _)%nat; [by intros [= _ <-]|].
  destruct b; [done|]. destruct (strip_prefix "::" s1) as [s2|] eqn:E2; [|done].
  apply strip_prefix_spec in E2 as ->.
  destruct (read_groups _ 0 _ [] s2) as [[t b] s3] eqn:E3. apply read_groups_consumed in E3.
  intros [= _ <-]. eapply consumed_trans; [done|]. simpl. eauto 10.
Qed.

Lemma consumed_all s : consumed s "" -> str_forall lit_char s = true.
Proof. intros (p & -> & H). by rewrite str_app_nil_r. Qed.

Lemma ip_literal_chars s :
  bool_decide (is_Some (parse_ipv4 s)) || bool_decide (is_Some (parse_ipv6 s)) = true ->
  str_forall lit_char s = true.
Proof.
  intros [H|H]%orb_true_iff; apply bool_decide_eq_true in H as [g H];
    unfold parse_ipv4, parse_ipv6 in H; repeat case_match; simplify_eq;
    eauto using consumed_all, read_ipv4_consumed, read_ipv6_consumed.
Qed.

(** ** Host names contain no delimiter *)

Definition delimiter (a : ascii) : bool := bool_decide (a = ":"%char) || bool_decide (a = "["%char).

Lemma utf8_chunks_concat s : fold_right (fun k acc => k.2 +:+ acc) "" (utf8_chunks s) = s.
Proof.
  remember (String.length s) as n eqn:Hn. assert (String.length s <= n)%nat as H by lia. clear Hn.
  revert s H. induction n as [|n IH]; intros [|b0 s1] Hlen; simpl in *; try (done || lia).
  cbv zeta. generalize (utf8_char_width b0). intros w.
  assert (forall t, (String.length t <= n)%nat ->
    fold_right (fun (k : bool * string) acc => k.2 +:+ acc) "" (utf8_chunks t) = t) as IH' by auto.
  clear IH.
  destruct (w =? 1); [simpl; by rewrite IH' by lia|].
  destruct (w =? 2); [|destruct (w =? 3); [|destruct (w =? 4); [|simpl; by rewrite IH' by lia]]].
  all: destruct s1 as [|b1 s2]; [done|]; simpl in Hlen.
  { destruct (is_cont b1); cbn [fold_right fst snd]; by rewrite IH' by (simpl; lia). }
  all: destruct (second_ok b0 b1); [|cbn [fold_right fst snd]; by rewrite IH' by (simpl; lia)].
  all: destruct s2 as [|b2 s3]; [done|]; simpl in Hlen.
  all: destruct (is_cont b2); [|cbn [fold_right fst snd]; by rewrite IH' by (simpl; lia)].
  { cbn [fold_right fst snd]; by rewrite IH' by (simpl; lia). }
  destruct s3 as [|b3 s4]; [done|]; simpl in Hlen.
  destruct (is_cont b3); cbn [fold_right fst snd]; by rewrite IH' by (simpl; lia).
Qed.

Lemma utf8_chunks_contains c s :
  contains_char c s = existsb (fun k => contains_char c k.2) (utf8_chunks s).
Proof.
  rewrite <- (utf8_chunks_concat s) at 1.
  induction (utf8_chunks s) as [|k l IH]; simpl; [done|]. by rewrite contains_char_app, IH.
Qed.

Lemma split_labels_elem c cs :
  c ∈ cs -> c = "." \/ exists l, l ∈ split_labels cs /\ c ∈ l.
Proof.
  induction cs as [|d cs IH]; simpl; [by intros ?%not_elem_of_nil|].
  intros [<-|Hc]%elem_of_cons.
  - case_bool_decide; [by left|]. right.
    destruct (split_labels cs); eexists; (split; [left|]); left.
  - destruct (IH Hc) as [->|(l & Hl & Hcl)]; [by left|]. right.
    case_bool_decide; [exists l; split; [by right|done]|].
    destruct (split_labels cs) as [|l' ls]; [by apply not_elem_of_nil in Hl|].
    apply elem_of_cons in Hl as [->|Hl].
    + exists (d :: l'). split; [left|by right].
    + exists l. split; [by right|done].
Qed.

Lemma fold_alnum_no_delimiter a c : delimiter a = true -> fold_alnum c = true -> contains_char a c = false.
Proof.
  intros Ha. assert (a = ":"%char \/ a = "["%char) as Ha'.
  { apply orb_true_iff in Ha as [H|H]; apply bool_decide_eq_true in H; auto. }
  assert (is_ascii_alnum a = false) as Hal by (destruct Ha' as [-> | ->]; done).
  unfold fold_alnum. destruct c as [|b [|b' c]]; [done| |].
  - intros Hb. simpl. rewrite orb_false_r. apply bool_decide_eq_false. congruence.
  - intros [H|H]%orb_true_iff; apply bool_decide_eq_true in H; rewrite H;
      by destruct Ha' as [-> | ->].
Qed.

Lemma fqdn_label_elem a l c :
  delimiter a = true -> fqdn_label l = true -> c ∈ l -> contains_char a c = false.
Proof.
  intros Ha. unfold fqdn_label. destruct l as [|d l]; [done|].
  destruct (list.last _); [|done]. intros [_ Hall]%andb_true_iff Hc.
  rewrite forallb_forall in Hall. apply list_elem_of_In, Hall in Hc as [H|H]%orb_true_iff.
  - by apply fold_alnum_no_delimiter.
  - apply bool_decide_eq_true in H as ->.
    apply orb_true_iff in Ha as [H|H]; apply bool_decide_eq_true in H as ->; done.
Qed.

Lemma fqdn_no_delimiter a s : delimiter a = true -> fqdn_match s = true -> contains_char a s = false.
Proof.
  intros Ha Hs. rewrite utf8_chunks_contains. apply not_true_is_false.
  intros (k & Hk & Hak)%existsb_exists. unfold fqdn_match in Hs. rewrite forallb_forall in Hs.
  destruct (split_labels_elem k.2 (snd <$> utf8_chunks s)) as [Hdot|(l & Hl & Hkl)].
  - by apply list_elem_of_fmap_2, list_elem_of_In.
  - rewrite Hdot in Hak. apply orb_true_iff in Ha as [H|H]; apply bool_decide_eq_true in H as ->; done.
  - apply list_elem_of_In, Hs in Hl. by rewrite (fqdn_label_elem a l) in Hak.
Qed.

(** ** Display and parse *)

Lemma str_forall_no_char a f s : f a = false -> str_forall f s = true -> contains_char a s = false.
Proof.
  intros Hf. induction s as [|b s IH]; simpl; [done|]. intros [Hb Hs]%andb_true_iff.
  rewrite (IH Hs), orb_false_r. apply bool_decide_eq_false. intros ->. congruence.
Qed.

Lemma starts_with_contains a s : contains_char a s = false -> starts_with s (String a EmptyString) = false.
Proof.
  intros H. apply not_true_is_false. intros (r & ->)%starts_with_spec.
  simpl in H. by rewrite bool_decide_true in H.
Qed.

(** The host text a valid node is addressed by. *)
Lemma valid_bare_host h :
  validate_node_host h = Ok () ->
  let b := strip_ipv6_brackets h in
  validate_node_host b = Ok () /\ contains_char "[" b = false /\
  (contains_char ":" b = true -> str_forall lit_char b = true).
Proof.
  assert (forall b, b <> "" -> contains_char "[" b = false ->
    bool_decide (is_Some (parse_ipv4 b)) || bool_decide (is_Some (parse_ipv6 b)) = true ->
    validate_node_host b = Ok ()) as Hip.
  { intros b Hb Hn Hp. unfold validate_node_host. rewrite bool_decide_false by done.
    rewrite (starts_with_contains "[" b Hn). simpl. by rewrite Hp. }
  unfold validate_node_host at 1, strip_ipv6_brackets.
  destruct (bool_decide (h = "")) eqn:He; [done|]. bool_to_prop.
  destruct (starts_with h "[") eqn:Hs; simpl.
  - destruct (bracketed h); simpl; [|done].
    destruct (_ || _) eqn:Hp.
    + intros _. pose proof (ip_literal_chars _ Hp) as Hlit.
      assert (contains_char "[" (inner h) = false) by (by apply (str_forall_no_char _ lit_char)).
      split_and!; [apply Hip|done|done]; [|done|done].
      intros Hi. by rewrite Hi in Hp.
    + case_match; [done|]. destruct (fqdn_match h) eqn:Hf; [|done]. intros _.
      apply (fqdn_no_delimiter "["), starts_with_contains in Hf; [congruence|done].
  - assert (bracketed h = false) as -> by (unfold bracketed; by rewrite Hs).
    destruct (_ || _) eqn:Hp.
    + intros _. pose proof (ip_literal_chars _ Hp) as Hlit.
      assert (contains_char "[" h = false) by (by apply (str_forall_no_char _ lit_char)). auto.
    + destruct (is_ipv4_shaped h) eqn:Hv; [done|]. destruct (fqdn_match h) eqn:Hf; [|done]. intros _.
      split_and!.
      * unfold validate_node_host. rewrite bool_decide_false by done. rewrite Hs. simpl.
        by rewrite Hp, Hv, Hf.
      * by apply fqdn_no_delimiter.
      * by rewrite fqdn_no_delimiter.
Qed.

(** Every decimal rendering reads back. *)
Lemma pretty_N_char_digit x : (x < 10)%N ->
  is_ascii_digit (pretty_N_char x) = true /\ byte_val (pretty_N_char x) = 48 + Z.of_N x.
Proof.
  intros H. assert (x ∈ ([0; 1; 2; 3; 4; 5; 6; 7; 8; 9]%N : list N)) as Hx by (rewrite !elem_of_cons; lia).
  clear H. revert x Hx. apply list.Forall_forall. by repeat constructor.
Qed.

Lemma pretty_N_go_digits x s :
  str_forall is_ascii_digit (pretty_N_go x s) = str_forall is_ascii_digit s /\
  digits_val 0 (pretty_N_go x s) = digits_val (Z.of_N x) s.
Proof.
  revert s. induction (N.lt_wf_0 x) as [x _ IH]; intros s.
  assert (x = 0 \/ 0 < x)%N as [->|Hx] by lia; [by rewrite pretty_N_go_0|].
  rewrite pretty_N_go_step by done.
  destruct (IH (x `div` 10)%N) with (s := String (pretty_N_char (x `mod` 10)) s) as [-> ->].
  { by apply N.div_lt. }
  destruct (pretty_N_char_digit (x `mod` 10)) as [Hd Hv]; [by apply N.mod_lt|].
  simpl. rewrite Hd, Hv. split; [done|]. f_equal.
  rewrite (N.div_mod x 10) at 3 by done. lia.
Qed.

Lemma port_text p : 1 <= p <= u16_max ->
  port_suffix (":" +:+ pretty p) = Some (Some (pretty p)) /\ parse_u16 (pretty p) = Some p.
Proof.
  intros Hp. destruct p as [|x|x]; try (unfold u16_max in Hp; lia).
  assert (pretty (Z.pos x) = pretty_N_go (N.pos x) "") as -> by done.
  destruct (pretty_N_go_digits (N.pos x) "") as [Hd Hv].
  unfold port_suffix, parse_u16. cbn [String.append]. rewrite Hd, Hv.
  rewrite bool_decide_true by done.
  rewrite bool_decide_false; simpl; [|by intros H; rewrite H in Hv].
  by rewrite (proj2 (Z.leb_le _ _)) by (simpl; lia).
Qed.

Lemma bracket_group_read acc b r p :
  contains_char "]" b = false -> contains_char "010" b = false -> acc +:+ b <> "" ->
  port_suffix r = Some p -> bracket_group acc (b +:+ String "]" r) = Some (acc +:+ b, p).
Proof.
  revert acc. induction b as [|a b IH]; intros acc; cbn [contains_char].
  - intros _ _ Hne Hr. rewrite str_app_nil_r in *. cbn [String.append bracket_group].
    rewrite (bool_decide_true (_ = "]"%char)) by done.
    rewrite (bool_decide_false (acc = "")) by done. cbn [andb negb]. by rewrite Hr.
  - intros [Ha Hb]%orb_false_iff [Ha' Hb']%orb_false_iff Hne Hr. bool_to_prop.
    cbn [String.append bracket_group]. rewrite (bool_decide_false (a = "]"%char)) by congruence.
    rewrite (bool_decide_false (a = "010"%char)) by congruence. cbn [andb].
    rewrite IH, str_app_assoc; try done. by destruct acc.
Qed.

Lemma bare_group_read b r p :
  contains_char ":" b = false -> b <> "" -> port_suffix r = Some p -> bare_group (b +:+ r) = Some (b, p).
Proof.
  intros Hc Hb Hr. unfold bare_group. destruct r as [|a ds].
  - simpl in Hr. simplify_eq. rewrite str_app_nil_r.
    destruct (split_once ":" b) as [[l t]|] eqn:E; [|by rewrite bool_decide_false].
    apply split_once_some in E as [_ ->]. rewrite contains_char_app in Hc. simpl in Hc.
    by rewrite orb_true_r in Hc.
  - assert (a = ":"%char) as ->.
    { simpl in Hr. by destruct (bool_decide (a = ":"%char)) eqn:E; bool_to_prop. }
    rewrite split_once_app by done. by rewrite bool_decide_false, Hr.
Qed.

Lemma host_port_captures_write b q p :
  b <> "" -> contains_char "[" b = false ->
  (contains_char ":" b = true -> str_forall lit_char b = true) ->
  port_suffix q = Some p ->
  host_port_captures ((if contains_char ":" b then "[" +:+ b +:+ "]" else b) +:+ q) = Some (b, p).
Proof.
  intros Hb Hn Hlit Hq. destruct (contains_char ":" b) eqn:Hc.
  - specialize (Hlit eq_refl). rewrite !str_app_assoc.
    change (host_port_captures ("[" +:+ b +:+ "]" +:+ q)) with
      (match bracket_group "" (b +:+ String "]" q) with
       | Some r => Some r | None => bare_group ("[" +:+ b +:+ "]" +:+ q) end).
    rewrite (bracket_group_read "" b q p); [done| | |done|done];
      by apply (str_forall_no_char _ lit_char).
  - unfold host_port_captures. destruct b as [|a b]; [done|].
    simpl in Hn. apply orb_false_iff in Hn as [Ha _]. apply bool_decide_eq_false in Ha.
    assert (forall X Y : option (string * option string),
      match a with "["%char => X | _ => Y end = Y) as Hm.
    { intros X Y. destruct a as [[] [] [] [] [] [] [] []]; try done. }
    cbn [String.append]. rewrite Hm. by apply (bare_group_read (String a b)).
Qed.

Definition node_port_ok (p : option Z) : Prop := from_option (fun p => 1 <= p <= u16_max) True p.
#[export] Instance node_port_ok_dec p : Decision (node_port_ok p).
Proof. destruct p; simpl; apply _. Defined.

Lemma split_write_addr h p :
  validate_node_host h = Ok () -> node_port_ok p ->
  split_host_port (write_addr (strip_ipv6_brackets h) p) = Ok (strip_ipv6_brackets h, p).
Proof.
  intros Hv Hp. destruct (valid_bare_host h Hv) as (Hb & Hn & Hlit).
  set (b := strip_ipv6_brackets h) in *.
  assert (b <> "") as Hne by (intros He; by rewrite He in Hb).
  unfold split_host_port, write_addr. destruct p as [p|].
  - destruct (port_text p Hp) as [Hs Hr].
    rewrite (host_port_captures_write b _ _ Hne Hn Hlit Hs). simpl. rewrite Hb. simpl.
    rewrite Hr. simpl. by rewrite (proj2 (Z.eqb_neq p 0)) by (simpl in Hp; lia).
  - rewrite (host_port_captures_write b "" None Hne Hn Hlit eq_refl). simpl. by rewrite Hb.
Qed.

(** ** Properties *)

(** The canonical address key of a validated node reads back: it parses to
    a node with the same bare host and port (IPv6 literals re-bracketed), and
    [matches_addr] recognises exactly the nodes with that host and port. *)
Theorem addr_key_roundtrip n :
  validate_node_host (host n) = Ok () -> node_port_ok (port n) ->
  Node_from_str (addr_key n)
  = Ok {| host := bare_host n; port := port n; weight := default_weight; priority := 0 |} /\
  (forall m, matches_addr (addr_key n) m = true <-> bare_host m = bare_host n /\ port m = port n).
Proof.
  intros Hv Hp. unfold Node_from_str, matches_addr, addr_key, bare_host.
  rewrite split_write_addr by done. split; [done|].
  intros m. rewrite andb_true_iff, !bool_decide_eq_true. done.
Qed.

Lemma addr_key_roundtrip_witness :
  Node_from_str "[fe80::1]:8443" = Ok {| host := "fe80::1"; port := Some 8443; weight := 1; priority := 0 |}.
Proof.
  refine (proj1 (addr_key_roundtrip
    {| host := "[fe80::1]"; port := Some 8443; weight := 7; priority := 3 |} _ _));
    vm_compute; [reflexivity | split; discriminate].
Defined.

(** The map form of a node set is canonicalised: whatever order the hash
    map yields its entries in, the outcome is the same, and on success the
    sequence of (host, port, weight, priority) is the same sorted one. *)
Theorem nodes_from_map_deterministic entries entries' ns :
  entries ≡ₚ entries' -> Nodes_try_from entries = Ok ns ->
  exists ns', Nodes_try_from entries' = Ok ns' /\ ns ≡ₚ ns' /\ StronglySorted node_le ns /\
    sort_key <$> ns = sort_key <$> ns'.
Proof.
  unfold Nodes_try_from. rewrite !try_from_fold. intros Hp.
  destruct (bool_decide ([] ++ omap entry_error entries = [])) eqn:He; [|done].
  intros [= <-]. bool_to_prop. simpl in *.
  assert (omap entry_error entries' = []) as He'.
  { apply Permutation_nil. by rewrite <- He, Hp. }
  rewrite bool_decide_true by done. eexists; split_and!; [done| | |].
  - by rewrite !merge_sort_Permutation, Hp.
  - apply (StronglySorted_merge_sort node_le).
  - apply sorted_keys_unique. by rewrite Hp.
Qed.

Lemma nodes_from_map_deterministic_witness :
  exists ns', Nodes_try_from [("b.example:80", 2); ("a.example", 1)] = Ok ns' /\
    sort_key <$> ns' = [("a.example", 0, 1, 0); ("b.example", 80, 2, 0)].
Proof.
  destruct (nodes_from_map_deterministic [("a.example", 1); ("b.example:80", 2)]
    [("b.example:80", 2); ("a.example", 1)] (merge_sort node_le
      [{| host := "a.example"; port := None; weight := 1; priority := 0 |};
       {| host := "b.example"; port := Some 80; weight := 2; priority := 0 |}]))
    as (ns' & H1 & _ & _ & H2).
  - apply Permutation_swap.
  - vm_compute. reflexivity.
  - exists ns'. split; [exact H1|]. rewrite <- H2. vm_compute. reflexivity.
Defined.
