(* ===== verification/Json.v ===== *)
(** * JSON documents

    The [serde_json::Value] tree and the accessors the program uses on it.  An
    object is the association list of its fields in key order. *)

From Stdlib Require Import ZArith Lia Floats.SpecFloat.
From stdpp Require Import base tactics strings option list.
From S2P Require Import Prelude.

(** [serde_json::Number]: an integer or a binary64 float. *)
Inductive Number : Type := NInt (z : Z) | NFloat (f : spec_float).

#[local] Set Warnings "-register-all".

Inductive Json : Type :=
| JNull
| JBool (b : bool)
| JNumber (n : Number)
| JString (s : string)
| JArray (items : list Json)
| JObject (fields : list (string * Json)).

Abbreviation Fields := (list (string * Json)).

Section json_ind.
Context (P : Json -> Prop).
Context (Hnull : P JNull) (Hbool : forall b, P (JBool b)) (Hnum : forall n, P (JNumber n))
  (Hstr : forall s, P (JString s))
  (Harr : forall items, Forall P items -> P (JArray items))
  (Hobj : forall fields, Forall (fun kv => P kv.2) fields -> P (JObject fields)).

Fixpoint Json_nested_ind (v : Json) : P v :=
  match v with
  | JNull => Hnull
  | JBool b => Hbool b
  | JNumber n => Hnum n
  | JString s => Hstr s
  | JArray items =>
    Harr items ((fix go l : Forall P l :=
      match l with
      | [] => Forall_nil_2 P
      | x :: l' => Forall_cons_2 P x l' (Json_nested_ind x) (go l')
      end) items)
  | JObject fields =>
    Hobj fields ((fix go l : Forall (fun kv => P kv.2) l :=
      match l with
      | [] => Forall_nil_2 _
      | x :: l' => Forall_cons_2 _ x l' (Json_nested_ind x.2) (go l')
      end) fields)
  end.
End json_ind.

(** ** Objects *)

(** [Map::get] *)
Fixpoint obj_get (key : string) (o : Fields) : option Json :=
  match o with
  | [] => None
  | (k, v) :: o' => if decide (k = key) then Some v else obj_get key o'
  end.

(** Assignment through [Map::get_mut]. *)
Fixpoint obj_set (key : string) (x : Json) (o : Fields) : Fields :=
  match o with
  | [] => []
  | (k, v) :: o' => if decide (k = key) then (k, x) :: o' else (k, v) :: obj_set key x o'
  end.

(** Byte order of keys, the order of [serde_json]'s map. *)
Fixpoint str_ltb (a b : string) : bool :=
  match a, b with
  | EmptyString, EmptyString => false
  | EmptyString, _ => true
  | _, EmptyString => false
  | String x a', String y b' =>
    let x := Ascii.N_of_ascii x in
    let y := Ascii.N_of_ascii y in
    (x <? y)%N || (bool_decide (x = y) && str_ltb a' b')
  end.

(** [Map::insert] *)
Fixpoint obj_insert (key : string) (x : Json) (o : Fields) : Fields :=
  match o with
  | [] => [(key, x)]
  | (k, v) :: o' =>
    if decide (k = key) then (k, x) :: o'
    else if str_ltb key k then (key, x) :: o
    else (k, v) :: obj_insert key x o'
  end.

(** [Value::get] with a string index. *)
Definition json_get (key : string) (v : Json) : option Json :=
  match v with JObject o => obj_get key o | _ => None end.

Definition as_str (v : Json) : option string :=
  match v with JString s => Some s | _ => None end.

(** [v[key] = x]: [IndexMut] turns [null] into an object and panics on
    every other non-object. *)
Definition json_index_assign {E} (key : string) (x : Json) (v : Json) : Result Json (Stop E) :=
  match v with
  | JNull => Ok (JObject [(key, x)])
  | JObject o => Ok (JObject (obj_insert key x o))
  | _ => Err (Panic "cannot access key in JSON value")
  end.

(** ** Lemmas *)

Lemma obj_get_set k k' x o :
  obj_get k' (obj_set k x o) =
  if decide (k = k') then (match obj_get k o with Some _ => Some x | None => None end) else obj_get k' o.
Proof.
  induction o as [|[a v] o IH]; simpl; [by case_decide|].
  repeat (case_decide; simpl; subst; simpl); try congruence; try done.
Qed.

Lemma obj_set_set k x y o : obj_set k x (obj_set k y o) = obj_set k x o.
Proof. induction o as [|[a v] o IH]; simpl; [done|]. case_decide; simpl; rewrite ?decide_True by done; [done|].
  rewrite decide_False by done. by rewrite IH. Qed.

Lemma obj_set_comm k k' x y o :
  k <> k' -> obj_set k x (obj_set k' y o) = obj_set k' y (obj_set k x o).
Proof.
  intros Hk. induction o as [|[a v] o IH]; simpl; [done|].
  repeat (case_decide; simpl; subst; simpl); try congruence; by rewrite ?IH.
Qed.

Lemma obj_set_get k v o : obj_get k o = Some v -> obj_set k v o = o.
Proof.
  induction o as [|[a w] o IH]; simpl; [done|]. case_decide; [by intros [= ->]|].
  intros Hv. by rewrite IH.
Qed.

Lemma obj_get_elem k v o : obj_get k o = Some v -> (k, v) ∈ o.
Proof.
  induction o as [|[a w] o IH]; simpl; [done|]. case_decide; [intros [= ->]; subst; left|].
  intros Hv%IH. by right.
Qed.

(** A document read by [serde_json] has unique keys in every object. *)
Fixpoint json_wf (v : Json) : Prop :=
  match v with
  | JArray items => (fix go l := match l with [] => True | x :: l' => json_wf x /\ go l' end) items
  | JObject fields =>
    NoDup fields.*1 /\
    (fix go l := match l with [] => True | x :: l' => json_wf x.2 /\ go l' end) fields
  | _ => True
  end.

Lemma json_wf_array items : json_wf (JArray items) <-> Forall json_wf items.
Proof. simpl. induction items as [|x l IH]; [done|]. by rewrite Forall_cons, <- IH. Qed.

Lemma json_wf_object fields :
  json_wf (JObject fields) <-> NoDup fields.*1 /\ Forall (fun kv => json_wf kv.2) fields.
Proof.
  simpl. apply and_iff_compat_l. induction fields as [|x l IH]; [done|]. by rewrite Forall_cons, <- IH.
Qed.

Lemma json_wf_get key o v : json_wf (JObject o) -> obj_get key o = Some v -> json_wf v.
Proof.
  intros [_ Hall]%json_wf_object Hg%obj_get_elem. rewrite Forall_forall in Hall. by apply (Hall (key, v)).
Qed.

Lemma obj_get_none key o : key ∉ o.*1 -> obj_get key o = None.
Proof.
  induction o as [|[k v] o IH]; simpl; [done|]. intros [Hk Ho]%not_elem_of_cons.
  rewrite decide_False by congruence. auto.
Qed.

Lemma obj_set_keys key x o : (obj_set key x o).*1 = o.*1.
Proof. induction o as [|[k v] o IH]; [done|]. simpl. case_decide; simpl; [done|]. cbn. f_equal. exact IH. Qed.

Lemma obj_get_some_key key o v : obj_get key o = Some v -> key ∈ o.*1.
Proof. intros H%obj_get_elem. apply list_elem_of_fmap. by exists (key, v). Qed.

(** Objects with the same key sequence and the same values are equal. *)
Lemma obj_ext o o' : NoDup o.*1 -> o.*1 = o'.*1 -> (forall key, obj_get key o = obj_get key o') -> o = o'.
Proof.
  revert o'; induction o as [|[k v] o IH]; intros [|[k' v'] o'] Hnd Hk Hg; simpl in *; try done.
  apply NoDup_cons in Hnd as [Hn Hnd]. injection Hk as <- Hk.
  pose proof (Hg k) as Hgk. rewrite !decide_True in Hgk by done. injection Hgk as <-.
  f_equal. apply IH; [done|done|]. intros key. specialize (Hg key).
  destruct (decide (k = key)) as [<-|]; [|done].
  pose proof (eq_ind _ (fun l => k ∉ l) Hn _ Hk : k ∉ o'.*1) as Hn'. by rewrite !obj_get_none.
Qed.
