(* ===== verification/Config.v ===== *)
(** * Configuration resources ([src/src/config/resources.rs])

    The typed resources, the acceptance test of their [Validate] derives and
    schema functions, and the node and canonical-JSON projections their
    fingerprints hash.  Each record lives in a module of its name. *)

From Stdlib Require Import ZArith Lia.
From stdpp Require Import base tactics gmap strings option sorting sets list.
From S2P Require Import Prelude GraphStore Utf8 Hosts Json.

Open Scope Z_scope.

(** [#[validate(range(min, max))]] *)
Definition range (lo hi v : Z) : bool := (lo <=? v) && (v <=? hi).
Definition non_empty (s : string) : bool := negb (bool_decide (s = "")).
Definition opt_ok {A} (f : A -> bool) (o : option A) : bool := match o with Some a => f a | None => true end.

(** The plugin map of a resource; [HashMap] iteration order is not modelled here. *)
Abbreviation Plugins_map := (gmap string Json).

Module UpstreamTls.
Record t : Type := { client_cert : string; client_key : string }.
Definition validate (self : t) : bool := non_empty (client_cert self) && non_empty (client_key self).
End UpstreamTls.

Module Timeout.
Record t : Type := { connect : Z; send : Z; read : Z }.
Definition validate (self : t) : bool :=
  range 1 86400 (connect self) && range 1 86400 (send self) && range 1 86400 (read self).
End Timeout.

Inductive SelectionType : Type := RoundRobin | Random | Fnv | Ketama.
Inductive ActiveCheckType : Type := CheckTCP | CheckHTTP | CheckHTTPS.
Inductive UpstreamHashOn : Type := VARS | HEAD | COOKIE.
Inductive UpstreamPassHost : Type := PASS | REWRITE | NODE.

Module PassiveHealthy.
Record t : Type := { http_statuses : list Z; successes : Z }.
Definition default_http_statuses : list Z :=
  [200; 201; 202; 203; 204; 205; 206; 207; 208; 226; 300; 301; 302; 303; 304; 305; 306; 307; 308].
Definition default : t := {| http_statuses := default_http_statuses; successes := 5 |}.
Definition validate (self : t) : bool := range 0 254 (successes self).
End PassiveHealthy.

Module PassiveUnhealthy.
Record t : Type := { http_statuses : list Z; tcp_failures : Z; timeouts : Z; http_failures : Z }.
Definition default : t :=
  {| http_statuses := [429; 500; 503]; tcp_failures := 2; timeouts := 7; http_failures := 5 |}.
Definition validate (self : t) : bool :=
  range 0 254 (tcp_failures self) && range 0 254 (timeouts self) && range 0 254 (http_failures self).
End PassiveUnhealthy.

(** Error codes stand for [ValidationError]s. *)
Definition validate_passive_statuses (statuses : list Z) : Result unit string :=
  if bool_decide (statuses = [])
     || existsb (fun s => negb (range 200 599 s)) statuses
     || negb (bool_decide (length (remove_dups statuses) = length statuses))
  then Err "invalid_passive_http_statuses" else Ok ().

Module PassiveCheck.
Record t : Type := { healthy : PassiveHealthy.t; unhealthy : PassiveUnhealthy.t }.
Definition schema (self : t) : Result unit string :=
  let? _ := validate_passive_statuses (PassiveHealthy.http_statuses (healthy self)) in
  let? _ := validate_passive_statuses (PassiveUnhealthy.http_statuses (unhealthy self)) in
  if (254 <? PassiveHealthy.successes (healthy self))
     || (254 <? PassiveUnhealthy.tcp_failures (unhealthy self))
     || (254 <? PassiveUnhealthy.timeouts (unhealthy self))
     || (254 <? PassiveUnhealthy.http_failures (unhealthy self))
  then Err "invalid_passive_threshold" else Ok ().
Definition validate (self : t) : bool :=
  PassiveHealthy.validate (healthy self) && PassiveUnhealthy.validate (unhealthy self)
  && is_ok (schema self).
End PassiveCheck.

Module Health.
Record t : Type := { interval : Z; http_statuses : list Z; successes : Z }.
Definition validate (self : t) : bool := (1 <=? interval self) && (1 <=? successes self).
End Health.

Module Unhealthy.
Record t : Type := { http_failures : Z; tcp_failures : Z }.
Definition validate (self : t) : bool := (1 <=? http_failures self) && (1 <=? tcp_failures self).
End Unhealthy.

Module ActiveCheck.
Record t : Type := {
  type : ActiveCheckType;
  timeout : Z;
  http_path : string;
  host : option string;
  port : option Z;
  https_verify_certificate : bool;
  req_headers : list string;
  healthy : option Health.t;
  unhealthy : option Unhealthy.t;
}.
Definition validate (self : t) : bool :=
  (1 <=? timeout self) && opt_ok (range 1 65535) (port self)
  && opt_ok Health.validate (healthy self) && opt_ok Unhealthy.validate (unhealthy self).
End ActiveCheck.

Module HealthCheck.
Record t : Type := { active : option ActiveCheck.t; passive : option PassiveCheck.t }.
Definition schema (self : t) : Result unit string :=
  match active self, passive self with
  | None, None => Err "health_check_requires_active_or_passive"
  | _, _ => Ok ()
  end.
Definition validate (self : t) : bool :=
  opt_ok ActiveCheck.validate (active self) && opt_ok PassiveCheck.validate (passive self)
  && is_ok (schema self).
End HealthCheck.

Module KeepalivePool.
Record t : Type := { idle_timeout_ms : Z }.
Definition default_idle_timeout_ms : Z := 60000.
Definition validate (self : t) : bool := 0 <=? idle_timeout_ms self.
End KeepalivePool.

Module Upstream.
Record t : Type := {
  id : string;
  retries : option Z;
  retry_timeout : option Z;
  timeout : option Timeout.t;
  nodes : list Node;
  type : SelectionType;
  checks : option HealthCheck.t;
  hash_on : UpstreamHashOn;
  key : string;
  scheme : UpstreamScheme;
  pass_host : UpstreamPassHost;
  upstream_host : option string;
  tls : option UpstreamTls.t;
  keepalive_pool : option KeepalivePool.t;
}.

Definition default_key : string := "uri".

(** The loop over enabled nodes with its [HashSet] of seen addresses. *)
Fixpoint unique_addresses (scheme : UpstreamScheme) (seen : list string) (nodes : list Node)
    : Result unit string :=
  match nodes with
  | [] => Ok ()
  | n :: nodes' =>
    if is_enabled n then
      let addr := effective_addr_key scheme n in
      if bool_decide (addr ∈ seen) then Err "nodes_duplicate_address"
      else unique_addresses scheme (addr :: seen) nodes'
    else unique_addresses scheme seen nodes'
  end.

Definition validate_unique_node_addresses (self : t) : Result unit string :=
  unique_addresses (scheme self) [] (nodes self).

Definition validate_scheme_dependent_fields (self : t) : Result unit string :=
  match pass_host self, upstream_host self with
  | REWRITE, None => Err "upstream_host_required_for_rewrite"
  | _, _ => validate_unique_node_addresses self
  end.

Definition validate (self : t) : bool :=
  opt_ok Timeout.validate (timeout self)
  && bool_decide (Nodes_validate (nodes self) = [])
  && opt_ok HealthCheck.validate (checks self)
  && opt_ok UpstreamTls.validate (tls self)
  && opt_ok KeepalivePool.validate (keepalive_pool self)
  && is_ok (validate_scheme_dependent_fields self).
End Upstream.

Module Route.
Record t : Type := {
  id : string;
  name : option string;
  uri : option string;
  uris : list string;
  methods : list string;
  host : option string;
  hosts : list string;
  priority : Z;
  plugins : Plugins_map;
  upstream : option Upstream.t;
  upstream_id : option string;
  service_id : option string;
  timeout : option Timeout.t;
  enable_websocket : bool;
}.

Definition schema (self : t) : Result unit string :=
  if negb (bool_decide (is_Some (uri self))) && bool_decide (uris self = []) then
    Err "uri_or_uris_required"
  else if bool_decide (is_Some (uri self)) && negb (bool_decide (uris self = [])) then
    Err "uri_and_uris_mutually_exclusive"
  else if bool_decide (is_Some (host self)) && negb (bool_decide (hosts self = [])) then
    Err "host_and_hosts_mutually_exclusive"
  else match upstream_id self, service_id self, upstream self with
  | None, None, None => Err "upstream_or_service_required"
  | Some _, _, Some _ => Err "upstream_and_upstream_id_mutually_exclusive"
  | _, _, _ => Ok ()
  end.

Definition get_hosts (self : t) : list string :=
  match host self with Some h => [h] | None => hosts self end.
Definition get_uris (self : t) : list string :=
  match uri self with Some u => [u] | None => uris self end.

Definition validate (self : t) : bool :=
  opt_ok Upstream.validate (upstream self) && opt_ok Timeout.validate (timeout self)
  && is_ok (schema self).
End Route.

Module Service.
Record t : Type := {
  id : string;
  name : option string;
  plugins : Plugins_map;
  upstream : option Upstream.t;
  upstream_id : option string;
  hosts : list string;
}.

Definition validate_upstream (self : t) : Result unit string :=
  match upstream_id self, upstream self with
  | None, None => Err "upstream_required"
  | Some _, Some _ => Err "upstream_and_upstream_id_mutually_exclusive"
  | _, _ => Ok ()
  end.

(** The derive has no nested validation of the inline upstream. *)
Definition validate (self : t) : bool := is_ok (validate_upstream self).
End Service.

Module GlobalRule.
Record t : Type := { id : string; plugins : Plugins_map }.
Definition validate (self : t) : bool := true.
End GlobalRule.

Module SSL.
Record t : Type := { id : string; cert : string; key : string; snis : list string }.
Definition validate (self : t) : bool := negb (bool_decide (snis self = [])).
End SSL.

(** [Identifiable::set_id] *)
Definition Upstream_set_id (i : string) (u : Upstream.t) : Upstream.t :=
  Upstream.Build_t i (Upstream.retries u) (Upstream.retry_timeout u) (Upstream.timeout u)
    (Upstream.nodes u) (Upstream.type u) (Upstream.checks u) (Upstream.hash_on u) (Upstream.key u)
    (Upstream.scheme u) (Upstream.pass_host u) (Upstream.upstream_host u) (Upstream.tls u)
    (Upstream.keepalive_pool u).
Definition Service_set_id (i : string) (s : Service.t) : Service.t :=
  Service.Build_t i (Service.name s) (Service.plugins s) (Service.upstream s)
    (Service.upstream_id s) (Service.hosts s).
Definition GlobalRule_set_id (i : string) (g : GlobalRule.t) : GlobalRule.t :=
  GlobalRule.Build_t i (GlobalRule.plugins g).
Definition Route_set_id (i : string) (r : Route.t) : Route.t :=
  Route.Build_t i (Route.name r) (Route.uri r) (Route.uris r) (Route.methods r) (Route.host r)
    (Route.hosts r) (Route.priority r) (Route.plugins r) (Route.upstream r) (Route.upstream_id r)
    (Route.service_id r) (Route.timeout r) (Route.enable_websocket r).
Definition SSL_set_id (i : string) (s : SSL.t) : SSL.t :=
  SSL.Build_t i (SSL.cert s) (SSL.key s) (SSL.snis s).

(** ** Fingerprint projections *)

Inductive UpstreamFingerprintProfile : Type := ProfileHealthCheck | ProfileCacheOrigin.
#[export] Instance UpstreamFingerprintProfile_eq_dec : EqDecision UpstreamFingerprintProfile.
Proof. solve_decision. Defined.

Definition UPSTREAM_HEALTH_CHECK_EXCLUDED : list string :=
  ["id"; "retries"; "retry_timeout"; "timeout"; "type"; "hash_on"; "key"; "pass_host";
   "upstream_host"; "tls"; "keepalive_pool"].
Definition UPSTREAM_CACHE_ORIGIN_EXCLUDED : list string := ["checks"; "keepalive_pool"].
Definition ROUTE_CACHE_NAMESPACE_EXCLUDED : list string :=
  ["name"; "methods"; "upstream"; "upstream_id"; "enable_websocket"].
Definition SERVICE_CACHE_NAMESPACE_EXCLUDED : list string := ["name"; "hosts"; "upstream"; "upstream_id"].

Definition obj_remove (key : string) (o : Fields) : Fields := filter (fun kv => kv.1 <> key) o.

Definition project_node (profile : UpstreamFingerprintProfile) (scheme : UpstreamScheme) (n : Node) : Json :=
  JArray ([JString (bare_host n); JNumber (NInt (effective_port scheme n))]
    ++ if decide (profile = ProfileCacheOrigin)
       then [JNumber (NInt (weight n)); JNumber (NInt (priority n))] else []).

Definition projected_nodes (profile : UpstreamFingerprintProfile) (scheme : UpstreamScheme)
    (nodes : list Node) : list Json :=
  project_node profile scheme <$> merge_sort node_le nodes.

(** One call on the [Hasher]. *)
Inductive HashWrite : Type :=
| WriteU8 (z : Z)
| WriteBool (b : bool)
| WriteStr (s : string)
| WriteLen (n : nat).

Section fingerprint.
(** [serde_json]'s serialisation of the resource structs and of numbers, and
    the hex digest of key material. *)
Context (upstream_to_value : Upstream.t -> Fields) (route_to_value : Route.t -> Fields)
  (service_to_value : Service.t -> Fields)
  (number_text : Number -> string) (hex_digest : string -> string).

Definition upstream_projection (profile : UpstreamFingerprintProfile) (self : Upstream.t) : Json :=
  let excluded :=
    match profile with
    | ProfileHealthCheck => UPSTREAM_HEALTH_CHECK_EXCLUDED
    | ProfileCacheOrigin => UPSTREAM_CACHE_ORIGIN_EXCLUDED
    end in
  let object := foldl (fun o key => obj_remove key o) (upstream_to_value self) excluded in
  let object := obj_insert "nodes"
    (JArray (projected_nodes profile (Upstream.scheme self) (Upstream.nodes self))) object in
  JObject (if decide (profile = ProfileCacheOrigin) then
      obj_insert "tls"
        (match Upstream.tls self with
         | Some tls => JArray [JString (hex_digest (UpstreamTls.client_cert tls));
                               JString (hex_digest (UpstreamTls.client_key tls))]
         | None => JNull
         end) object
    else object).

Definition cache_namespace_projection (self : Route.t) (service : option Service.t) : Json :=
  let object := foldl (fun o key => obj_remove key o) (route_to_value self) ROUTE_CACHE_NAMESPACE_EXCLUDED in
  JObject (obj_insert "bound_service"
    (match service with
     | Some s => JObject (foldl (fun o key => obj_remove key o) (service_to_value s)
                            SERVICE_CACHE_NAMESPACE_EXCLUDED)
     | None => JNull
     end) object).

Definition key_le (a b : string * Json) : Prop := str_cmp a.1 b.1 <> Gt.
#[local] Instance key_le_dec : RelDecision key_le.
Proof. intros a b. unfold key_le. apply _. Defined.

(** [hash_canonical_json]: the calls made on the hasher.  The lookups of the
    sorted keys are the sorted fields, keys being unique. *)
Fixpoint hash_canonical_json (value : Json) : list HashWrite :=
  match value with
  | JNull => [WriteU8 0]
  | JBool b => [WriteU8 1; WriteBool b]
  | JNumber n => [WriteU8 2; WriteStr (number_text n)]
  | JString s => [WriteU8 3; WriteStr s]
  | JArray items => WriteU8 4 :: WriteLen (length items) :: concat (map hash_canonical_json items)
  | JObject fields =>
    WriteU8 5 :: WriteLen (length fields)
    :: concat (map (fun kw => WriteStr kw.1 :: kw.2)
         (merge_sort (fun a b : string * list HashWrite => str_cmp a.1 b.1 <> Gt)
            (map (fun kv => (kv.1, hash_canonical_json kv.2)) fields)))
  end.

End fingerprint.

(** ** Lemmas *)

Lemma unique_addresses_spec scheme seen nodes :
  is_ok (Upstream.unique_addresses scheme seen nodes) = true <->
  NoDup (effective_addr_key scheme <$> filter (fun n => is_enabled n = true) nodes) /\
  (forall n, n ∈ nodes -> is_enabled n = true -> effective_addr_key scheme n ∉ seen).
Proof.
  revert seen; induction nodes as [|n nodes IH]; intros seen;
    cbn [Upstream.unique_addresses].
  { split; [|done]. split; [constructor|]. by intros ? ?%not_elem_of_nil. }
  rewrite filter_cons. destruct (is_enabled n) eqn:E.
  - rewrite decide_True by done. rewrite fmap_cons, NoDup_cons. case_bool_decide as Hs; simpl.
    { split; [done|]. intros [_ H]. exfalso. by apply (H n); [left| |]. }
    rewrite IH. split.
    + intros [Hnd Hseen]. split_and!; [|done|].
      * intros (m & Hm & Hmf)%list_elem_of_fmap. apply list_elem_of_filter in Hmf as [Hme Hmn].
        apply (Hseen m Hmn Hme). rewrite <- Hm. left.
      * intros m [->|Hm]%elem_of_cons Hme; [done|]. intros Hin. apply (Hseen m Hm Hme). by right.
    + intros [[Hn Hnd] Hseen]. split; [done|]. intros m Hm Hme [Heq|Hin]%elem_of_cons.
      * apply Hn. apply list_elem_of_fmap. exists m. split; [done|]. by apply list_elem_of_filter.
      * apply (Hseen m); [by right|done|done].
  - rewrite decide_False by done. rewrite IH. split; intros [Hnd Hseen]; (split; [done|]).
    + intros m [->|Hm]%elem_of_cons Hme; [congruence|by apply Hseen].
    + intros m Hm. apply Hseen. by right.
Qed.

Lemma nodes_validate_spec nodes :
  Nodes_validate nodes = [] <->
  nodes <> [] /\ existsb is_enabled nodes = true /\
  (forall n, n ∈ nodes -> validate_node_host (host n) = Ok ()).
Proof.
  unfold Nodes_validate. case_bool_decide as Hn; [naive_solver|].
  rewrite app_nil. destruct (existsb is_enabled nodes); [|naive_solver].
  split.
  - intros [_ Hc]. split_and!; [done..|]. clear Hn. induction nodes as [|n nodes IH]; intros m.
    { by intros ?%not_elem_of_nil. }
    simpl in Hc. apply app_nil in Hc as [Hh Hc].
    intros [->|Hm]%elem_of_cons; [|by apply IH].
    by destruct (validate_node_host (host n)) as [[]|].
  - intros (_ & _ & Hh). split; [done|]. clear Hn. induction nodes as [|n nodes IH]; [done|].
    simpl. rewrite (Hh n) by left. apply IH. intros m Hm. apply Hh. by right.
Qed.

(** What the projection keeps of a node is determined by its sort key. *)
Lemma projected_by_key profile scheme n m :
  node_port_ok (port n) -> node_port_ok (port m) -> sort_key n = sort_key m ->
  project_node profile scheme n = project_node profile scheme m.
Proof.
  unfold sort_key, project_node, effective_port. intros Hn Hm [= Hh Hp Hw Hpr]. rewrite Hh, Hw, Hpr.
  assert (port n = port m) as ->; [|done].
  destruct (port n), (port m); simpl in *; f_equal; lia.
Qed.

(** ** The canonical stream is prefix-free *)

Fixpoint json_sorted (v : Json) : Prop :=
  match v with
  | JArray items => (fix go l := match l with [] => True | x :: l' => json_sorted x /\ go l' end) items
  | JObject fields =>
    (NoDup fields.*1 /\ StronglySorted key_le fields) /\
    (fix go l := match l with [] => True | x :: l' => json_sorted x.2 /\ go l' end) fields
  | _ => True
  end.

Lemma sort_sorted_fields (f : Json -> list HashWrite) fields :
  NoDup fields.*1 -> StronglySorted key_le fields ->
  merge_sort (fun a b : string * list HashWrite => str_cmp a.1 b.1 <> Gt)
    (map (fun kv => (kv.1, f kv.2)) fields) = map (fun kv => (kv.1, f kv.2)) fields.
Proof.
  intros Hnd Hs. set (R := fun a b : string * list HashWrite => str_cmp a.1 b.1 <> Gt).
  assert (Total R) by apply (key_le_total str_cmp fst).
  assert (Transitive R) by apply (key_le_trans str_cmp fst).
  set (l := map (fun kv => (kv.1, f kv.2)) fields).
  assert (NoDup (l.*1)) as Hl.
  { subst l. replace ((map (fun kv => (kv.1, f kv.2)) fields).*1) with (fields.*1); [done|].
    clear. induction fields as [|kv l IH]; [done|]. cbn. f_equal. exact IH. }
  apply (StronglySorted_unique_strong R).
  - intros x y Hx Hy Hxy Hyx.
    assert (x.1 = y.1) as Hk by (by apply (key_le_antisym str_cmp fst)).
    rewrite merge_sort_Permutation in Hx. destruct x as [k a], y as [k' b]. simpl in Hk. subst k'.
    f_equal. clear -Hx Hy Hl. induction l as [|[k' c] l IH]; [by apply not_elem_of_nil in Hx|].
    apply NoDup_cons in Hl as [Hn Hl].
    assert (forall z, (k, z) ∈ l -> k' <> k) as Hne.
    { intros z Hz ->. apply Hn. apply list_elem_of_fmap. by exists (k, z). }
    apply elem_of_cons in Hx as [[= -> ->]|Hx]; apply elem_of_cons in Hy as [[= ->]|Hy]; try done.
    + by destruct (Hne b).
    + by destruct (Hne a).
    + by apply IH.
  - apply (StronglySorted_merge_sort R).
  - subst l. clear -Hs. induction Hs as [|kv l Hs IH Hall]; [constructor|]. simpl. constructor; [done|].
    apply Forall_map. exact Hall.
  - apply merge_sort_Permutation.
Qed.

Section injective.
Context (number_text : Number -> string) (Hnum : forall a b, number_text a = number_text b -> a = b).
Abbreviation hc := (hash_canonical_json number_text).

Lemma concat_prefix {A} (f : A -> list HashWrite) (l l' : list A) r r' :
  length l = length l' ->
  (forall x, x ∈ l -> forall y q q', y ∈ l' -> f x ++ q = f y ++ q' -> x = y /\ q = q') ->
  concat (map f l) ++ r = concat (map f l') ++ r' -> l = l' /\ r = r'.
Proof.
  revert l'; induction l as [|x l IH]; intros [|y l'] Hlen Hf; try done.
  simpl. rewrite <- !(assoc_L (++)). intros H.
  destruct (Hf x ltac:(left) y _ _ ltac:(left) H) as [-> Hr].
  destruct (IH l') as [-> ->]; [simpl in Hlen; lia| |done|done].
  intros x Hx z q q' Hz. apply Hf; by right.
Qed.

Lemma hash_prefix_free v : forall w r r',
  json_sorted v -> json_sorted w -> hc v ++ r = hc w ++ r' -> v = w /\ r = r'.
Proof.
  induction v as [|b|n|s|items IH|fields IH] using Json_nested_ind;
    intros [|b'|n'|s'|items'|fields'] r r' Hv Hw; simpl; try discriminate.
  - by intros [= ->].
  - by intros [= -> ->].
  - intros [= Hn ->]. by rewrite (Hnum _ _ Hn).
  - by intros [= -> ->].
  - intros [= Hlen H]. rewrite Forall_forall in IH.
    assert (forall l, json_sorted (JArray l) -> forall x, x ∈ l -> json_sorted x) as Hel.
    { clear. intros l Hl x Hx. simpl in Hl. induction l as [|y l IH]; [by apply not_elem_of_nil in Hx|].
      destruct Hl as [Hy Hl]. apply elem_of_cons in Hx as [->|Hx]; auto. }
    destruct (concat_prefix hc items items' r r' Hlen) as [-> ->]; [|done|done].
    intros x Hx y q q' Hy. apply (IH x Hx); eauto.
  - intros [= Hlen H]. rewrite Forall_forall in IH.
    assert (forall l, json_sorted (JObject l) -> forall x, x ∈ l -> json_sorted x.2) as Hel.
    { clear. intros l [_ Hl] x Hx. induction l as [|y l IH]; [by apply not_elem_of_nil in Hx|].
      destruct Hl as [Hy Hl]. apply elem_of_cons in Hx as [->|Hx]; auto. }
    pose proof Hv as [[Hnd Hs] _]. pose proof Hw as [[Hnd' Hs'] _].
    rewrite !sort_sorted_fields, !map_map in H by done. simpl in H.
    destruct (concat_prefix (fun kv => WriteStr kv.1 :: hc kv.2) fields fields' r r' Hlen)
      as [-> ->]; [|done|done].
    intros [k x] Hx [k' y] q q' Hy [= -> Hq]. simpl in *.
    destruct (IH (k', x) Hx y q q') as [Hxy ->];
      [by apply (Hel _ Hv (k', x))|by apply (Hel _ Hw (k', y))|done|].
    simpl in Hxy. by subst y.
Qed.

End injective.

(** ** Properties *)

(** Upstream acceptance.  An upstream is accepted exactly when its
    sections are, its node set is non-empty with valid hosts and at least one
    enabled node, no two enabled nodes dial the same effective address, and a
    rewriting upstream names its host. *)
Theorem upstream_validate_spec u :
  Upstream.validate u = true <->
  opt_ok Timeout.validate (Upstream.timeout u) = true /\
  opt_ok HealthCheck.validate (Upstream.checks u) = true /\
  opt_ok UpstreamTls.validate (Upstream.tls u) = true /\
  opt_ok KeepalivePool.validate (Upstream.keepalive_pool u) = true /\
  Upstream.nodes u <> [] /\ existsb is_enabled (Upstream.nodes u) = true /\
  (forall n, n ∈ Upstream.nodes u -> validate_node_host (host n) = Ok ()) /\
  NoDup (effective_addr_key (Upstream.scheme u) <$> filter (fun n => is_enabled n = true) (Upstream.nodes u)) /\
  (Upstream.pass_host u = REWRITE -> is_Some (Upstream.upstream_host u)).
Proof.
  unfold Upstream.validate. rewrite !andb_true_iff, bool_decide_eq_true, nodes_validate_spec.
  unfold Upstream.validate_scheme_dependent_fields, Upstream.validate_unique_node_addresses.
  pose proof (unique_addresses_spec (Upstream.scheme u) [] (Upstream.nodes u)) as Hu.
  assert (forall n, n ∈ Upstream.nodes u -> is_enabled n = true ->
    effective_addr_key (Upstream.scheme u) n ∉ []) as Hnil by (intros ? _ _; apply not_elem_of_nil).
  destruct (Upstream.pass_host u), (Upstream.upstream_host u); simpl; rewrite ?Hu; unfold is_Some;
    split; intros; destruct_and?; split_and!; try done; try (by eauto); try tauto.
  match goal with H : REWRITE = REWRITE -> _ |- _ => by destruct (H eq_refl) end.
Qed.

(** Route acceptance.  The route schema function accepts exactly the
    routes that name their URIs in one form, their hosts in at most one form,
    and their upstream slot in at most one form with some binding present. *)
Theorem route_schema_spec r :
  is_ok (Route.schema r) = true <->
  Route.get_uris r <> [] /\
  ~ (is_Some (Route.uri r) /\ Route.uris r <> []) /\
  ~ (is_Some (Route.host r) /\ Route.hosts r <> []) /\
  (is_Some (Route.upstream_id r) \/ is_Some (Route.service_id r) \/ is_Some (Route.upstream r)) /\
  ~ (is_Some (Route.upstream r) /\ is_Some (Route.upstream_id r)).
Proof.
  unfold Route.schema, Route.get_uris.
  destruct (Route.uri r), (Route.uris r), (Route.host r), (Route.hosts r), (Route.upstream_id r),
    (Route.service_id r), (Route.upstream r); simpl; unfold is_Some; naive_solver.
Qed.

(** Fingerprints ignore node order.  The projected node list of a
    fingerprint is the same for every order of the node set. *)
Theorem projected_nodes_order profile scheme nodes nodes' :
  Forall (fun n => node_port_ok (port n)) nodes -> nodes ≡ₚ nodes' ->
  projected_nodes profile scheme nodes = projected_nodes profile scheme nodes'.
Proof.
  intros Hok Hp. pose proof (sorted_keys_unique _ _ Hp) as Hk. unfold projected_nodes.
  assert (Forall (fun n => node_port_ok (port n)) (merge_sort node_le nodes)) as H1
    by (by rewrite merge_sort_Permutation).
  assert (Forall (fun n => node_port_ok (port n)) (merge_sort node_le nodes')) as H2
    by (by rewrite merge_sort_Permutation, <- Hp).
  revert Hk H1 H2. generalize (merge_sort node_le nodes) (merge_sort node_le nodes').
  induction l as [|n l IH]; intros [|m l'] Hk H1 H2; try done.
  apply Forall_cons in H1 as [Hn H1]. apply Forall_cons in H2 as [Hm H2].
  rewrite !fmap_cons in Hk. injection Hk as Hh Hpt Hw Hpr Hk. rewrite !fmap_cons. f_equal.
  - apply projected_by_key; [done|done|]. unfold sort_key. by rewrite Hh, Hpt, Hw, Hpr.
  - by apply IH.
Qed.

(** An omitted port is not always the default port.  Two node sets over
    HTTP that dial the same addresses, one writing port 80 and one omitting
    it, have different fingerprints: nodes are sorted by the configured port
    and projected with the effective one. *)
Theorem fingerprint_port_form :
  let explicit := [{| host := "a.example"; port := Some 79; weight := 1; priority := 0 |};
                   {| host := "a.example"; port := Some 80; weight := 1; priority := 0 |}] in
  let omitted := [{| host := "a.example"; port := Some 79; weight := 1; priority := 0 |};
                  {| host := "a.example"; port := None; weight := 1; priority := 0 |}] in
  effective_addr_key HTTP <$> explicit = effective_addr_key HTTP <$> omitted /\
  projected_nodes ProfileHealthCheck HTTP explicit <> projected_nodes ProfileHealthCheck HTTP omitted.
Proof. vm_compute. split; [reflexivity|discriminate]. Qed.

(** Canonical hashing loses nothing.  Two documents whose fields are in
    key order feed the hasher the same sequence of writes only when they are
    the same document: fingerprints differ unless the hasher collides. *)
Theorem hash_canonical_injective number_text v w :
  (forall a b, number_text a = number_text b -> a = b) ->
  json_sorted v -> json_sorted w ->
  hash_canonical_json number_text v = hash_canonical_json number_text w -> v = w.
Proof.
  intros Hnum Hv Hw H. apply (hash_prefix_free number_text Hnum v w [] []); [done|done|].
  by rewrite !app_nil_r.
Qed.

(** ** Witnesses *)

Definition two_nodes : list Node :=
  [{| host := "b.example"; port := None; weight := 1; priority := 0 |};
   {| host := "10.0.0.1"; port := Some 8080; weight := 2; priority := 1 |}].

Lemma projected_nodes_order_witness :
  projected_nodes ProfileCacheOrigin HTTPS two_nodes = projected_nodes ProfileCacheOrigin HTTPS (reverse two_nodes).
Proof.
  refine (projected_nodes_order ProfileCacheOrigin HTTPS two_nodes (reverse two_nodes) _ _).
  - repeat constructor; vm_compute; discriminate.
  - apply Permutation_swap.
Defined.

(** A toy rendering of numbers, injective on the numbers of the witness type. *)
Lemma hash_canonical_injective_witness :
  json_sorted (JObject [("a", JNull); ("b", JArray [JBool true])]) /\
  forall number_text, (forall a b, number_text a = number_text b -> a = b) ->
  hash_canonical_json number_text (JObject [("a", JNull); ("b", JArray [JBool true])])
  <> hash_canonical_json number_text (JObject [("a", JNull); ("b", JArray [JBool false])]).
Proof.
  assert (forall b, json_sorted (JObject [("a", JNull); ("b", JArray [JBool b])])) as Hs.
  { intros b. split; [split|simpl; auto].
    - repeat (apply NoDup_cons_2 || apply NoDup_nil_2 || set_solver).
    - repeat constructor; vm_compute; discriminate. }
  split; [apply Hs|]. intros number_text Hnum H.
  pose proof (hash_canonical_injective number_text _ _ Hnum (Hs true) (Hs false) H) as Heq. discriminate.
Defined.

(** A service with an inline upstream no [Upstream] validation accepts. *)
Example service_accepts_invalid_upstream :
  let u := Upstream.Build_t "" None None None [] RoundRobin None VARS "uri" HTTP PASS None None None in
  Upstream.validate u = false /\
  Service.validate (Service.Build_t "s" None ∅ (Some u) None []) = true.
Proof. vm_compute. auto. Qed.
