(* ===== verification/ConfigSet.v ===== *)
(** * The configuration set ([src/src/proxy/control_plane/resources.rs], [src/src/plugins/mod.rs])

    The decoded resource maps, their construction from the static sections,
    whole-graph validation with its reference checks, and the dependency sets
    reuse decisions are made on.  The plugin inventory is a table of function
    pointers in the source and a parameter here. *)

From Stdlib Require Import ZArith Lia.
From stdpp Require Import base tactics gmap fin_maps strings option sets list.
From S2P Require Import Prelude Errors GraphStore Utf8 Hosts Json Config.

Open Scope Z_scope.

Record ResourceConfigSet : Type := {
  upstreams : gmap string Upstream.t;
  services : gmap string Service.t;
  global_rules : gmap string GlobalRule.t;
  routes : gmap string Route.t;
  ssls : gmap string SSL.t;
}.
#[export] Instance eta_ResourceConfigSet : Eta ResourceConfigSet := fun s =>
  Build_ResourceConfigSet (upstreams s) (services s) (global_rules s) (routes s) (ssls s).

Definition ResourceConfigSet_default : ResourceConfigSet := Build_ResourceConfigSet ∅ ∅ ∅ ∅ ∅.

(** [TrafficSplitOwner] and [UpstreamOccurrence] ([proxy/upstream/mod.rs]) *)
Inductive TrafficSplitOwner : Type :=
| OwnerRoute (id : string)
| OwnerService (id : string)
| OwnerGlobalRule (id : string).
#[export] Instance TrafficSplitOwner_eq_dec : EqDecision TrafficSplitOwner.
Proof. solve_decision. Defined.

Inductive UpstreamOccurrence : Type :=
| Named (id : string)
| RouteInline (id : string)
| ServiceInline (id : string)
| TrafficSplit (owner : TrafficSplitOwner) (rule weighted : nat)
| AiProxy (owner : TrafficSplitOwner).
#[export] Instance UpstreamOccurrence_eq_dec : EqDecision UpstreamOccurrence.
Proof. solve_decision. Defined.

(** The columns of [PLUGIN_META] whole-graph validation and planning use. *)
Record PluginMeta : Type := {
  meta_name : string;
  meta_validate : Json -> Result unit ProxyError;
  meta_upstream_refs : option (Json -> Result (list string) ProxyError);
  meta_upstream_jobs : option (TrafficSplitOwner -> Json ->
    Result (list (UpstreamOccurrence * Upstream.t)) ProxyError);
}.

Section collect.
Context {T : Type} (get_id : T -> string) (validate : T -> bool).

(** The loop body of [collect_by_id]; the text of [ValidationErrors] is not modelled. *)
Definition collect_step (resource_name label : string) (map : gmap string T) (item : T)
    : Result (gmap string T) ProxyError :=
  let i := get_id item in
  if bool_decide (i = "") then
    Err (Configuration (label +:+ " resource id must be non-empty (id_required)"))
  else if negb (validate item) then
    Err (Configuration (label +:+ " '" +:+ i +:+ "' validation failed"))
  else
    match map !! i with
    | Some _ => Err (Configuration ("Duplicate " +:+ resource_name +:+ " ID found: " +:+ i))
    | None => Ok (<[i := item]> map)
    end.

Definition collect_by_id (items : list T) (resource_name label : string)
    : Result (gmap string T) ProxyError :=
  try_fold (collect_step resource_name label) ∅ items.

Lemma collect_spec items rn lb map map' :
  try_fold (collect_step rn lb) map items = Ok map' ->
  NoDup (get_id <$> items) /\
  (forall x, x ∈ items -> get_id x <> "" /\ validate x = true /\ map !! get_id x = None) /\
  (forall i x, map' !! i = Some x <-> map !! i = Some x \/ (x ∈ items /\ get_id x = i)).
Proof.
  revert map; induction items as [|y items IH]; intros map; simpl.
  { intros [= <-]. split_and!; [constructor|by intros ? ?%not_elem_of_nil|].
    intros i x. split; [by left|]. intros [H|[H _]]; [done|by apply not_elem_of_nil in H]. }
  intros (m1 & Hs & Hf)%and_then_ok. unfold collect_step in Hs.
  case_bool_decide as Hid; [done|]. destruct (validate y) eqn:Hv; [|done]. simpl in Hs.
  destruct (map !! get_id y) eqn:Hm; [done|]. injection Hs as <-.
  destruct (IH _ Hf) as (Hnd & Hall & Hlk). split_and!.
  - change (NoDup (get_id y :: (get_id <$> items))). apply NoDup_cons. split; [|done].
    intros (x & Hx & Hin)%list_elem_of_fmap. destruct (Hall x Hin) as (_ & _ & Hn).
    rewrite <- Hx, lookup_insert_eq in Hn. done.
  - intros x [->|Hx]%elem_of_cons; [done|]. destruct (Hall x Hx) as (? & ? & Hn). split_and!; [done..|].
    by apply lookup_insert_None in Hn as [? _].
  - intros i x. rewrite Hlk, lookup_insert_Some, elem_of_cons.
    split.
    + intros [[[<- <-]|[Hne Hx]]|[Hx <-]]; auto.
    + intros [Hx|[[->|Hx] <-]]; [|by auto|by auto]. left.
      destruct (decide (get_id y = i)) as [<-|]; [congruence|auto].
Qed.

End collect.

Definition from_yaml_sections (rs : list Route.t) (us : list Upstream.t) (ss : list Service.t)
    (gs : list GlobalRule.t) (cs : list SSL.t) : Result ResourceConfigSet ProxyError :=
  let? u := collect_by_id Upstream.id Upstream.validate us "upstream" "Upstream" in
  let? s := collect_by_id Service.id Service.validate ss "service" "Service" in
  let? g := collect_by_id GlobalRule.id GlobalRule.validate gs "global_rule" "GlobalRule" in
  let? r := collect_by_id Route.id Route.validate rs "route" "Route" in
  let? c := collect_by_id SSL.id SSL.validate cs "ssl" "SSL" in
  Ok (Build_ResourceConfigSet u s g r c).

(** [for x in map.values()] *)
Definition for_values {A} (m : gmap string A) (f : A -> Result unit ProxyError) : Result unit ProxyError :=
  try_for_each (fun kv => f kv.2) (map_to_list m).

Lemma for_values_ok {A} (m : gmap string A) f :
  for_values m f = Ok () <-> forall i x, m !! i = Some x -> f x = Ok ().
Proof.
  unfold for_values. rewrite try_for_each_ok. split.
  - intros H i x Hx. apply (H (i, x)). by apply elem_of_map_to_list.
  - intros H [i x] Hx. apply (H i). by apply elem_of_map_to_list.
Qed.

Section plugins.
Context (PLUGIN_META : list PluginMeta).

Definition plugin_meta (name : string) : option PluginMeta :=
  List.find (fun m => bool_decide (meta_name m = name)) PLUGIN_META.

Definition validate_plugin_config (name : string) (cfg : Json) : Result unit ProxyError :=
  let? meta := ok_or (PluginError ("Unknown plugin type: " +:+ name)) (plugin_meta name) in
  meta_validate meta cfg.

Definition plugin_upstream_refs (name : string) (cfg : Json) : Result (list string) ProxyError :=
  match plugin_meta name ≫= meta_upstream_refs with
  | Some extract => extract cfg
  | None => Ok []
  end.

Definition plugin_upstream_jobs (owner : TrafficSplitOwner) (plugins : Plugins_map)
    : Result (list (UpstreamOccurrence * Upstream.t)) ProxyError :=
  try_fold (fun jobs (nc : string * Json) =>
    match plugin_meta nc.1 ≫= meta_upstream_jobs with
    | Some collect => let? more := collect owner nc.2 in Ok (jobs ++ more)%list
    | None => Ok jobs
    end) [] (map_to_list plugins).

(** *** Whole-graph validation *)

Definition validate_plugin_upstream_refs (owner : string) (plugins : Plugins_map)
    (us : gmap string Upstream.t) : Result unit ProxyError :=
  try_for_each (fun nv : string * Json =>
    let? _ := validate_plugin_config nv.1 nv.2 in
    let? refs := plugin_upstream_refs nv.1 nv.2 in
    try_for_each (fun i =>
      if bool_decide (is_Some (us !! i)) then Ok ()
      else Err (Configuration (owner +:+ " plugin '" +:+ nv.1 +:+ "' references missing upstream '"
                  +:+ i +:+ "'"))) refs) (map_to_list plugins).

Definition checked (valid : bool) (what : string) : Result unit ProxyError :=
  if valid then Ok () else Err (Configuration (what +:+ " validation failed")).

Definition validate_route_refs (set : ResourceConfigSet) (route : Route.t) : Result unit ProxyError :=
  let? _ := match Route.service_id route with
            | Some i => if bool_decide (is_Some (services set !! i)) then Ok ()
                        else Err (Configuration ("Route '" +:+ Route.id route
                               +:+ "' references missing service '" +:+ i +:+ "'"))
            | None => Ok ()
            end in
  let? _ := match Route.upstream route, Route.upstream_id route with
            | None, Some i => if bool_decide (is_Some (upstreams set !! i)) then Ok ()
                              else Err (Configuration ("Route '" +:+ Route.id route
                                     +:+ "' references missing upstream '" +:+ i +:+ "'"))
            | _, _ => Ok ()
            end in
  validate_plugin_upstream_refs ("Route '" +:+ Route.id route +:+ "'") (Route.plugins route) (upstreams set).

Definition validate_service_refs (set : ResourceConfigSet) (service : Service.t) : Result unit ProxyError :=
  let? _ := match Service.upstream service, Service.upstream_id service with
            | None, Some i => if bool_decide (is_Some (upstreams set !! i)) then Ok ()
                              else Err (Configuration ("Service '" +:+ Service.id service
                                     +:+ "' references missing upstream '" +:+ i +:+ "'"))
            | _, _ => Ok ()
            end in
  validate_plugin_upstream_refs ("Service '" +:+ Service.id service +:+ "'") (Service.plugins service)
    (upstreams set).

Definition validate_config_set (set : ResourceConfigSet) : Result unit ProxyError :=
  let? _ := for_values (upstreams set) (fun u => checked (Upstream.validate u) ("Upstream '" +:+ Upstream.id u +:+ "'")) in
  let? _ := for_values (services set) (fun s => checked (Service.validate s) ("Service '" +:+ Service.id s +:+ "'")) in
  let? _ := for_values (global_rules set) (fun g => checked (GlobalRule.validate g) ("GlobalRule '" +:+ GlobalRule.id g +:+ "'")) in
  let? _ := for_values (routes set) (fun r => checked (Route.validate r) ("Route '" +:+ Route.id r +:+ "'")) in
  let? _ := for_values (ssls set) (fun c => checked (SSL.validate c) ("SSL '" +:+ SSL.id c +:+ "'")) in
  let? _ := for_values (routes set) (validate_route_refs set) in
  let? _ := for_values (services set) (validate_service_refs set) in
  for_values (global_rules set) (fun rule =>
    validate_plugin_upstream_refs ("GlobalRule '" +:+ GlobalRule.id rule +:+ "'") (GlobalRule.plugins rule)
      (upstreams set)).

Definition validate_runtime_form : ResourceConfigSet -> Result unit ProxyError := validate_config_set.
Definition validate_stored_form : ResourceConfigSet -> Result unit ProxyError := validate_config_set.

(** *** Dependencies *)

Definition plugin_upstream_deps (plugins : Plugins_map) : Result (gset string) ProxyError :=
  try_fold (fun deps (nc : string * Json) =>
    let? refs := plugin_upstream_refs nc.1 nc.2 in
    Ok (deps ∪ list_to_set refs)) ∅ (map_to_list plugins).

Definition with_direct (i : option string) (deps : gset string) : gset string :=
  match i with Some i => {[ i ]} ∪ deps | None => deps end.

Definition scope_upstream_deps (service : Service.t) : Result (gset string) ProxyError :=
  let? deps := plugin_upstream_deps (Service.plugins service) in
  Ok (with_direct (Service.upstream_id service) deps).

Definition scope_upstream_deps_rule (route : Route.t) : Result (gset string) ProxyError :=
  let? deps := plugin_upstream_deps (Route.plugins route) in
  Ok (with_direct (Route.upstream_id route) deps).

(** ** Specification of a valid graph *)

Definition plugins_ok (us : gmap string Upstream.t) (plugins : Plugins_map) : Prop :=
  forall name cfg, plugins !! name = Some cfg ->
    validate_plugin_config name cfg = Ok () /\
    exists refs, plugin_upstream_refs name cfg = Ok refs /\ forall i, i ∈ refs -> is_Some (us !! i).

Definition ref_ok {A} (m : gmap string A) (i : option string) : Prop :=
  forall j, i = Some j -> is_Some (m !! j).

Definition graph_valid (set : ResourceConfigSet) : Prop :=
  (forall i u, upstreams set !! i = Some u -> Upstream.validate u = true) /\
  (forall i s, services set !! i = Some s ->
     Service.validate s = true /\ (Service.upstream s = None -> ref_ok (upstreams set) (Service.upstream_id s)) /\
     plugins_ok (upstreams set) (Service.plugins s)) /\
  (forall i g, global_rules set !! i = Some g -> plugins_ok (upstreams set) (GlobalRule.plugins g)) /\
  (forall i r, routes set !! i = Some r ->
     Route.validate r = true /\ ref_ok (services set) (Route.service_id r) /\
     (Route.upstream r = None -> ref_ok (upstreams set) (Route.upstream_id r)) /\
     plugins_ok (upstreams set) (Route.plugins r)) /\
  (forall i c, ssls set !! i = Some c -> SSL.validate c = true).

Lemma unit_ok {E} (r : Result unit E) : is_ok r = true <-> r = Ok ().
Proof. destruct r as [[]|]; naive_solver. Qed.

Lemma seq_ok {E} (r r' : Result unit E) : (let? _ := r in r') = Ok () <-> r = Ok () /\ r' = Ok ().
Proof. destruct r as [[]|]; simpl; naive_solver. Qed.

Lemma checked_ok b what : checked b what = Ok () <-> b = true.
Proof. destruct b; simpl; naive_solver. Qed.

Lemma plugin_refs_ok owner plugins us :
  validate_plugin_upstream_refs owner plugins us = Ok () <-> plugins_ok us plugins.
Proof.
  unfold validate_plugin_upstream_refs. rewrite try_for_each_ok. unfold plugins_ok. split.
  - intros H name cfg Hc%elem_of_map_to_list. specialize (H _ Hc). simpl in H.
    apply seq_ok in H as [Hv H]. split; [done|].
    apply and_then_ok in H as (refs & Hr & Hf). exists refs. split; [done|].
    intros i Hi. rewrite try_for_each_ok in Hf. specialize (Hf i Hi). by case_bool_decide.
  - intros H [name cfg] Hc%elem_of_map_to_list. simpl. destruct (H _ _ Hc) as (-> & refs & -> & Hr). simpl.
    apply try_for_each_ok. intros i Hi. by rewrite bool_decide_true by auto.
Qed.

Lemma ref_check_ok {A} (m : gmap string A) i (e : string -> ProxyError) :
  match i with
  | Some j => if bool_decide (is_Some (m !! j)) then Ok () else Err (e j)
  | None => Ok ()
  end = Ok () <-> ref_ok m i.
Proof.
  unfold ref_ok. destruct i as [j|]; [|naive_solver]. case_bool_decide; naive_solver.
Qed.

End plugins.

(** Whatever order the hash maps are walked in, the gate accepts exactly the
    valid graphs. *)
Lemma validate_config_set_spec PLUGIN_META set :
  validate_config_set PLUGIN_META set = Ok () <-> graph_valid PLUGIN_META set.
Proof.
  unfold validate_config_set, graph_valid. rewrite !seq_ok, !for_values_ok.
  assert (forall us o p, validate_plugin_upstream_refs PLUGIN_META o p us = Ok () <->
    plugins_ok PLUGIN_META us p) as Hp by (intros; apply plugin_refs_ok).
  assert (forall r, validate_route_refs PLUGIN_META set r = Ok () <->
    ref_ok (services set) (Route.service_id r) /\
    (Route.upstream r = None -> ref_ok (upstreams set) (Route.upstream_id r)) /\
    plugins_ok PLUGIN_META (upstreams set) (Route.plugins r)) as Hr.
  { intros r. unfold validate_route_refs. rewrite !seq_ok, Hp, (ref_check_ok (services set)).
    destruct (Route.upstream r); [naive_solver|]. rewrite (ref_check_ok (upstreams set)). naive_solver. }
  assert (forall s, validate_service_refs PLUGIN_META set s = Ok () <->
    (Service.upstream s = None -> ref_ok (upstreams set) (Service.upstream_id s)) /\
    plugins_ok PLUGIN_META (upstreams set) (Service.plugins s)) as Hs.
  { intros s. unfold validate_service_refs. rewrite !seq_ok, Hp.
    destruct (Service.upstream s); [naive_solver|]. rewrite (ref_check_ok (upstreams set)). naive_solver. }
  setoid_rewrite checked_ok. setoid_rewrite Hr. setoid_rewrite Hs. setoid_rewrite Hp.
  split; intros; destruct_and?; split_and!; intros; split_and?; eauto.
  all: try match goal with H : forall i x, ?m !! i = Some x -> _ /\ _, Hx : ?m !! _ = Some _ |- _ =>
    destruct (H _ _ Hx); destruct_and?; eauto end.
Qed.

(** ** Properties *)

(** Static sections.  The bootstrap set holds exactly the listed
    resources under their ids; an accepted section has no empty id, no invalid
    resource and no duplicate id. *)
Theorem from_yaml_sections_spec rs us ss gs cs set :
  from_yaml_sections rs us ss gs cs = Ok set ->
  (forall i r, routes set !! i = Some r <-> r ∈ rs /\ Route.id r = i) /\
  (forall i u, upstreams set !! i = Some u <-> u ∈ us /\ Upstream.id u = i) /\
  (forall i s, services set !! i = Some s <-> s ∈ ss /\ Service.id s = i) /\
  NoDup (Route.id <$> rs) /\ NoDup (Upstream.id <$> us) /\ NoDup (Service.id <$> ss) /\
  (forall r, r ∈ rs -> Route.id r <> "" /\ Route.validate r = true) /\
  (forall u, u ∈ us -> Upstream.id u <> "" /\ Upstream.validate u = true).
Proof.
  unfold from_yaml_sections, collect_by_id. intros (mu & Hu & H)%and_then_ok.
  apply and_then_ok in H as (ms & Hs & H). apply and_then_ok in H as (mg & _ & H).
  apply and_then_ok in H as (mr & Hr & H). apply and_then_ok in H as (mc & _ & [= <-]). simpl.
  apply collect_spec in Hu as (Hu1 & Hu2 & Hu3), Hs as (Hs1 & Hs2 & Hs3), Hr as (Hr1 & Hr2 & Hr3).
  split_and!; try done.
  - intros i x. rewrite Hr3, lookup_empty. naive_solver.
  - intros i x. rewrite Hu3, lookup_empty. naive_solver.
  - intros i x. rewrite Hs3, lookup_empty. naive_solver.
  - intros r Hx. by destruct (Hr2 r Hx) as (? & ? & _).
  - intros u Hx. by destruct (Hu2 u Hx) as (? & ? & _).
Qed.

Definition demo_upstream (i : string) : Upstream.t :=
  Upstream.Build_t i None None None [{| host := "10.0.0.1"; port := Some 80; weight := 1; priority := 0 |}]
    RoundRobin None VARS "uri" HTTP PASS None None None.
Definition demo_route (i : string) (up : option string) : Route.t :=
  Route.Build_t i None (Some "/") [] [] None [] 0 ∅ None up None None false.

Lemma from_yaml_sections_spec_witness :
  exists set, from_yaml_sections [demo_route "r1" (Some "u1")] [demo_upstream "u1"] [] [] [] = Ok set /\
  routes set !! "r1" = Some (demo_route "r1" (Some "u1")).
Proof.
  eexists. split; [vm_compute; reflexivity|].
  match goal with |- routes ?s !! _ = _ =>
    pose proof (from_yaml_sections_spec [demo_route "r1" (Some "u1")] [demo_upstream "u1"] [] [] [] s
      ltac:(vm_compute; reflexivity)) as [Hr _] end.
  apply Hr. split; [left | reflexivity].
Defined.
