(* ===== verification/Encryption.v ===== *)
(** * Field encryption ([src/src/utils/encryption.rs], [pingsix-macros], [config/mod.rs])

    The keyring service, the ciphertext envelope, the walk that the
    [EncryptFields] derive expands to, its instances for every resource kind
    and plugin, and [transform_resource_secrets].  AES-256-GCM, Argon2id,
    base64 and the random generator are parameters. *)

From Stdlib Require Import ZArith Lia Ascii.
From stdpp Require Import base tactics strings pretty option list.
From S2P Require Import Prelude Errors GraphStore Utf8 Json.

Open Scope Z_scope.

(** ** Cryptographic primitives *)

Class CipherSuite : Type := {
  AesKey : Type;
  (** [Argon2::hash_password_into] with the application salt *)
  argon2 : string -> Result AesKey string;
  (** the [n]-th nonce drawn from [OsRng] *)
  nonce_at : nat -> string;
  aes_encrypt : AesKey -> string -> string -> Result string string;
  aes_decrypt : AesKey -> string -> string -> option string;
  base64_encode : string -> string;
  base64_decode : string -> Result string string;
}.

(** What the code relies on: an authenticated cipher that opens what it
    sealed and refuses a foreign key, 12-byte nonces, 16-byte tags. *)
Class CipherLaws `{CipherSuite} : Prop := {
  nonce_len n : String.length (nonce_at n) = 12%nat;
  seal_len k n p c : aes_encrypt k n p = Ok c -> (16 <= String.length c)%nat;
  open_seal k n p c : aes_encrypt k n p = Ok c -> aes_decrypt k n c = Some p;
  open_foreign k k' n p c : k' <> k -> aes_encrypt k n p = Ok c -> aes_decrypt k' n c = None;
  base64_roundtrip s : base64_decode (base64_encode s) = Ok s;
}.

Inductive SecretOp : Type := Encrypt | Decrypt | Redact.

Definition REDACTED : string := "***".
Definition CIPHERTEXT_PREFIX : string := "$pingsix-enc:".
Definition ENVELOPE_V1_PREFIX : string := "$pingsix-enc:v1$".

Definition is_ciphertext (value : string) : bool := starts_with value CIPHERTEXT_PREFIX.

(** ** The monad of the secret walk

    The state counts the nonces drawn so far. *)
Definition M (A : Type) : Type := nat -> Result (A * nat) (Stop ProxyError).
Definition ret {A} (a : A) : M A := fun n => Ok (a, n).
Definition bind {A B} (m : M A) (f : A -> M B) : M B := fun n =>
  match m n with Ok (a, n') => f a n' | Err e => Err e end.
Definition lift {A} (r : Result A (Stop ProxyError)) : M A := fun n =>
  match r with Ok a => Ok (a, n) | Err e => Err e end.
Notation "'do!' x ':=' m 'in' k" := (bind m (fun x => k))
  (at level 10, x name, m at level 100, k at level 200,
   format "'do!'  x  ':='  m  'in' '//' k") : pingsix_scope.

Fixpoint map_m {A B} (f : A -> M B) (l : list A) : M (list B) :=
  match l with
  | [] => ret []
  | x :: l' => do! y := f x in do! ys := map_m f l' in ret (y :: ys)
  end.

Definition config_err {A} (msg : string) : Result A (Stop ProxyError) := Err (Raise (Configuration msg)).

Section suite.
Context `{CipherSuite}.

(** ** Keyrings *)

Definition derive_key (secret : string) : Result AesKey (Stop ProxyError) :=
  match argon2 secret with
  | Ok k => Ok k
  | Err e => Err (Raise (Internal ("Failed to derive encryption key: " +:+ e)))
  end.

(** [Keyring]: the derived keys, newest first. *)
Record Keyring : Type := { keys : list AesKey }.

Definition from_secrets_step (acc : nat * list AesKey) (secret : string)
    : Result (nat * list AesKey) (Stop ProxyError) :=
  if bool_decide (secret = "") then
    config_err ("data_encryption.keyring[" +:+ pretty acc.1 +:+ "] must not be empty")
  else
    let? k := derive_key secret in
    Ok (S acc.1, (acc.2 ++ [k])%list).

Definition from_secrets (secrets : list string) : Result Keyring (Stop ProxyError) :=
  if bool_decide (secrets = []) then
    config_err "data_encryption.keyring must contain at least one key when enable is true"
  else
    let? acc := try_fold from_secrets_step (0%nat, []) secrets in
    Ok {| keys := acc.2 |}.

(** [Keyring::encrypt]; indexing an empty keyring panics. *)
Definition keyring_encrypt (self : Keyring) (plaintext : string) : M string := fun n =>
  if is_ciphertext plaintext then Ok (plaintext, n)
  else
    match keys self with
    | [] => Err (Panic "index out of bounds")
    | key :: _ =>
      let nonce := nonce_at n in
      match aes_encrypt key nonce plaintext with
      | Err e => Err (Raise (Internal ("Failed to encrypt value: " +:+ e)))
      | Ok ciphertext => Ok (ENVELOPE_V1_PREFIX +:+ base64_encode (nonce +:+ ciphertext), S n)
      end
    end.

(** [value[..n]]: slicing off a character boundary panics. *)
Definition str_take (n : nat) (value : string) : Result string (Stop ProxyError) :=
  match String.get n value with
  | Some b => if is_cont b then Err (Panic "byte index is not a char boundary")
              else Ok (String.substring 0 n value)
  | None => Ok (String.substring 0 n value)
  end.

Fixpoint try_keys (ks : list AesKey) (nonce ciphertext : string) : Result string (Stop ProxyError) :=
  match ks with
  | [] => config_err "Failed to decrypt value with any configured keyring key"
  | k :: ks' =>
    match aes_decrypt k nonce ciphertext with
    | Some plaintext =>
      match from_utf8 plaintext with
      | Ok s => Ok s
      | Err e => config_err ("Decrypted value is not valid UTF-8: " +:+ e)
      end
    | None => try_keys ks' nonce ciphertext
    end
  end.

(** [Keyring::decrypt] *)
Definition keyring_decrypt (self : Keyring) (value : string) : Result string (Stop ProxyError) :=
  if negb (is_ciphertext value) then Ok value
  else
    match strip_prefix ENVELOPE_V1_PREFIX value with
    | None =>
      let? head := str_take (Nat.min (String.length value) 24) value in
      config_err ("Unsupported encryption envelope version in value starting with '" +:+ head +:+ "'")
    | Some payload =>
      match base64_decode payload with
      | Err e => config_err ("Invalid encrypted value encoding: " +:+ e)
      | Ok packed =>
        if (Z.of_nat (String.length packed) <? 12 + 16) then
          config_err "Invalid encrypted value: payload too short"
        else
          try_keys (keys self) (String.substring 0 12 packed)
            (String.substring 12 (String.length packed - 12) packed)
      end
    end.

(** [KeyringService] *)
Record KeyringService : Type := { keyring : option Keyring }.

Definition disabled : KeyringService := {| keyring := None |}.

Definition KeyringService_new (enable : bool) (secrets : list string)
    : Result KeyringService (Stop ProxyError) :=
  if enable then
    let? k := from_secrets secrets in
    Ok {| keyring := Some k |}
  else Ok {| keyring := None |}.

Definition keyring_is_enabled (self : KeyringService) : bool := bool_decide (is_Some (keyring self)).

Definition encrypt (self : KeyringService) (plaintext : string) : M string :=
  match keyring self with Some kr => keyring_encrypt kr plaintext | None => ret plaintext end.

Definition decrypt (self : KeyringService) (value : string) : Result string (Stop ProxyError) :=
  match keyring self with
  | Some kr => keyring_decrypt kr value
  | None =>
    if is_ciphertext value
    then config_err "Encrypted value found but data_encryption is disabled"
    else Ok value
  end.

Definition apply_secret_op (op : SecretOp) (k : KeyringService) (value : string) : M string :=
  match op with
  | Encrypt => encrypt k value
  | Decrypt => lift (decrypt k value)
  | Redact => ret REDACTED
  end.

End suite.

(** ** The walk, for any operation on secret leaves *)

#[local] Set Warnings "-register-all".

(** The attribute of a field, as the derive reads it. *)
Inductive EncryptKind : Type :=
| Leaf
| Nested (fields : list (string * EncryptKind))
| Plugins.

Abbreviation EncryptFields := (list (string * EncryptKind)).

Section walk.
Context (leaf : string -> M string).

(** [transform_leaf_field] on the value of the field. *)
Definition leaf_item (item : Json) : M Json :=
  match item with
  | JString s => do! s' := leaf s in ret (JString s')
  | _ => ret item
  end.

Definition leaf_value (v : Json) : M Json :=
  match v with
  | JString s => do! s' := leaf s in ret (JString s')
  | JArray items => do! items' := map_m leaf_item items in ret (JArray items')
  | _ => ret v
  end.

(** Update one field in place, when it is present. *)
Definition at_field (name : string) (f : Json -> M Json) (o : Fields) : M Fields :=
  match obj_get name o with
  | Some v => do! v' := f v in ret (obj_set name v' o)
  | None => ret o
  end.

(** The statements the derive emits, in field order. *)
Fixpoint at_fields (fs : list (string * (Json -> M Json))) (o : Fields) : M Fields :=
  match fs with
  | [] => ret o
  | (name, f) :: fs' => do! o' := at_field name f o in at_fields fs' o'
  end.

Definition on_object (f : Fields -> M Fields) (v : Json) : M Json :=
  match v with
  | JObject o => do! o' := f o in ret (JObject o')
  | _ => ret v
  end.

Definition map_values (f : string -> Json -> M Json) : Fields -> M Fields :=
  map_m (fun kv => do! v' := f kv.1 kv.2 in ret (kv.1, v')).

Definition non_null (f : Json -> M Json) (v : Json) : M Json :=
  match v with JNull => ret v | _ => f v end.

Section derived.
Context (plugin : string -> Json -> M Json).

Fixpoint kind_value (k : EncryptKind) : Json -> M Json :=
  match k with
  | Leaf => leaf_value
  | Nested fields =>
    non_null (on_object (at_fields
      ((fix go fs := match fs with [] => [] | (n, k) :: fs' => (n, kind_value k) :: go fs' end) fields)))
  | Plugins => on_object (map_values plugin)
  end.

(** [T::transform_secrets] of a struct with these marked fields. *)
Definition transform_secrets (fields : EncryptFields) : Json -> M Json :=
  on_object (at_fields (map (fun nk => (nk.1, kind_value nk.2)) fields)).

End derived.

(** The marked fields of the plugin configurations. *)
Definition key_auth_fields : EncryptFields := [("key", Leaf); ("keys", Leaf)].
Definition basic_auth_fields : EncryptFields := [("password", Leaf)].
Definition csrf_fields : EncryptFields := [("key", Leaf)].
Definition jwt_auth_fields : EncryptFields := [("secret", Leaf)].

(** [ai_proxy::transform_ai_proxy_secrets] *)
Definition transform_ai_proxy_secrets : Json -> M Json :=
  let section := on_object (map_values (fun _ => leaf_item)) in
  on_object (at_fields [("auth", on_object (at_fields [("header", section); ("query", section)]))]).

(** [plugins::transform_plugin_secrets]: the [secrets_transform] column of [PLUGIN_META]. *)
Definition transform_plugin_secrets (name : string) : Json -> M Json :=
  let derived := transform_secrets (fun _ => ret) in
  if bool_decide (name = "ai-proxy") then transform_ai_proxy_secrets
  else if bool_decide (name = "csrf") then derived csrf_fields
  else if bool_decide (name = "basic-auth") then derived basic_auth_fields
  else if bool_decide (name = "jwt-auth") then derived jwt_auth_fields
  else if bool_decide (name = "key-auth") then derived key_auth_fields
  else ret.

(** The marked fields of the resource types. *)
Definition upstream_tls_fields : EncryptFields := [("client_key", Leaf)].
Definition upstream_fields : EncryptFields := [("tls", Nested upstream_tls_fields)].
Definition route_fields : EncryptFields := [("plugins", Plugins); ("upstream", Nested upstream_fields)].
Definition service_fields : EncryptFields := [("plugins", Plugins); ("upstream", Nested upstream_fields)].
Definition global_rule_fields : EncryptFields := [("plugins", Plugins)].
Definition ssl_fields : EncryptFields := [("key", Leaf)].

(** [config::transform_resource_secrets], dispatched on the resource kind
    whose [as_str] the callers pass. *)
Definition walk_resource_secrets (k : ResourceKind) : Json -> M Json :=
  transform_secrets transform_plugin_secrets
    match k with
    | Ssl => ssl_fields
    | Upstream => upstream_fields
    | Route => route_fields
    | Service => service_fields
    | GlobalRule => global_rule_fields
    end.

End walk.

Definition transform_resource_secrets `{CipherSuite} (k : KeyringService) (kd : ResourceKind)
    (value : Json) (op : SecretOp) : M Json :=
  walk_resource_secrets (apply_secret_op op k) kd value.

(** ** Lawful traversals

    A traversal [T] applies a leaf operation at fixed positions of a value.
    It is lawful when it only reads and writes those positions. *)

Definition guard (chk : string -> bool) (s : string) : M string := fun n =>
  if chk s then Ok (s, n) else Err (Panic "guard").

Abbreviation Leaf_op := (string -> M string).

Record Lawful {A} (T : Leaf_op -> A -> M A) : Prop := {
  lawful_id chk v n v' n' : T (guard chk) v n = Ok (v', n') -> v' = v /\ n' = n;
  lawful_total leaf v n :
    (forall s n, exists s', leaf s n = Ok (s', n)) -> exists v', T leaf v n = Ok (v', n);
  lawful_compose chk enc dec g v k r n v' n' :
    (forall s n s' n', chk s = true -> enc s n = Ok (s', n') -> forall m, dec s' m = Ok (g s, m)) ->
    T (guard chk) v k = Ok r -> T enc v n = Ok (v', n') ->
    forall m, T dec v' m = T (fun s => ret (g s)) v m;
}.

Lemma bind_ok {A B} (m : M A) (f : A -> M B) n b n' :
  bind m f n = Ok (b, n') <-> exists a k, m n = Ok (a, k) /\ f a k = Ok (b, n').
Proof.
  unfold bind. destruct (m n) as [[a k]|e]; split; naive_solver.
Qed.

(** Rewriting under a computation whose first step is known. *)
Lemma bind_run {A B} (m : M A) (f : A -> M B) n a k : m n = Ok (a, k) -> bind m f n = f a k.
Proof. unfold bind. by intros ->. Qed.

Lemma ret_ok {A} (a b : A) n n' : ret a n = Ok (b, n') <-> b = a /\ n' = n.
Proof. unfold ret. naive_solver. Qed.

Lemma lawful_guard {A} (T : Leaf_op -> A -> M A) chk v k r :
  Lawful T -> T (guard chk) v k = Ok r -> T (guard chk) v k = Ok (v, k).
Proof. destruct r as [v' k']. intros HT Hg. rewrite Hg. by apply (lawful_id T HT) in Hg as [-> ->]. Qed.

Lemma lawful_ret {A} : Lawful (fun _ => @ret A).
Proof.
  split.
  - by intros _ v n v' n' ?%ret_ok.
  - intros _ v n _. by exists v.
  - by intros _ _ _ _ v _ _ n v' n' _ _ [-> ->]%ret_ok m.
Qed.

Lemma lawful_pure_total {A} (T : Leaf_op -> A -> M A) g v m :
  Lawful T -> exists w, T (fun s => ret (g s)) v m = Ok (w, m).
Proof. intros HT. apply (lawful_total T HT). intros s n. by exists (g s). Qed.

(** Lifting along an injection: apply [T] to the content of one form of value,
    [T'] to the other forms. *)
Lemma lawful_case {A B} (T : Leaf_op -> A -> M A) (T' : Leaf_op -> B -> M B)
    (inj : A -> B) (proj : B -> option A) :
  (forall a, proj (inj a) = Some a) -> (forall b a, proj b = Some a -> b = inj a) ->
  Lawful T -> Lawful T' ->
  (forall leaf b n b' n', proj b = None -> T' leaf b n = Ok (b', n') -> proj b' = None) ->
  Lawful (fun leaf b =>
    match proj b with Some a => do! a' := T leaf a in ret (inj a') | None => T' leaf b end).
Proof.
  intros Hpi Hip HT HT' Hp. split.
  - intros chk b n b' n' Hg. destruct (proj b) as [a|] eqn:E; [|by eapply (lawful_id T' HT')].
    apply bind_ok in Hg as (a' & k & Ha & [-> ->]%ret_ok).
    apply (lawful_id T HT) in Ha as [-> ->]. by rewrite (Hip b a).
  - intros leaf b n Hl. destruct (proj b) as [a|]; [|by apply (lawful_total T' HT')].
    destruct (lawful_total T HT leaf a n Hl) as [a' Ha]. exists (inj a').
    by rewrite (bind_run _ _ _ _ _ Ha).
  - intros chk enc dec g b k r n b' n' Hed Hg He m. destruct (proj b) as [a|] eqn:E.
    + destruct r as [rv rk]. apply bind_ok in Hg as (a1 & k1 & Hg & _).
      apply bind_ok in He as (a2 & k2 & He & [-> ->]%ret_ok). rewrite Hpi.
      unfold bind at 1. by rewrite (lawful_compose T HT chk enc dec g a _ _ _ _ _ Hed Hg He).
    + rewrite (Hp _ _ _ _ _ E He).
      by rewrite (lawful_compose T' HT' chk enc dec g b _ _ _ _ _ Hed Hg He).
Qed.

Lemma lawful_map_m {A} (T : Leaf_op -> A -> M A) : Lawful T -> Lawful (fun leaf => map_m (T leaf)).
Proof.
  intros HT. split.
  - intros chk l. induction l as [|x l IH]; simpl; intros n l' n' Hg.
    { by apply ret_ok in Hg. }
    apply bind_ok in Hg as (y & k & Hy & (ys & k' & Hys & [-> ->]%ret_ok)%bind_ok).
    apply (lawful_id T HT) in Hy as [-> ->].
    by apply IH in Hys as [-> ->].
  - intros leaf l n Hl. revert n; induction l as [|x l IH]; simpl; intros n; [by eexists|].
    destruct (lawful_total T HT leaf x n Hl) as [y Hy]. destruct (IH n) as [ys Hys].
    exists (y :: ys). by rewrite (bind_run _ _ _ _ _ Hy), (bind_run _ _ _ _ _ Hys).
  - intros chk enc dec g l k r n l' n' Hed. revert k r n l' n'.
    induction l as [|x l IH]; simpl; intros k r n l' n' Hg He m.
    + by apply ret_ok in He as [-> ->].
    + destruct r as [rv rk].
      apply bind_ok in Hg as (y0 & k0 & Hg & (ys0 & k0' & Hgs & _)%bind_ok).
      apply bind_ok in He as (y & k1 & He & (ys & k1' & Hes & [-> ->]%ret_ok)%bind_ok).
      simpl. unfold bind. rewrite (lawful_compose T HT chk enc dec g x _ _ _ _ _ Hed Hg He).
      destruct (lawful_pure_total T g x m HT) as [w ->].
      by rewrite (IH _ _ _ _ _ Hgs Hes).
Qed.

Lemma lawful_ext {A} (T T' : Leaf_op -> A -> M A) :
  (forall leaf a, T leaf a = T' leaf a) -> Lawful T -> Lawful T'.
Proof.
  intros Heq HT. split.
  - intros chk v n v' n'. rewrite <- Heq. apply (lawful_id T HT).
  - intros leaf v n. rewrite <- Heq. apply (lawful_total T HT).
  - intros chk enc dec g v k r n v' n' Hed. rewrite <- !Heq. intros Hg He m.
    by apply (lawful_compose T HT chk enc dec g v k r n v' n').
Qed.

(** ** Objects *)

Definition map_res {A B} (f : A -> B) (r : Result (A * nat) (Stop ProxyError))
    : Result (B * nat) (Stop ProxyError) :=
  match r with Ok (a, n) => Ok (f a, n) | Err e => Err e end.

Lemma at_field_comm name f key x o n :
  name <> key -> at_field name f (obj_set key x o) n = map_res (obj_set key x) (at_field name f o n).
Proof.
  intros Hne. unfold at_field. rewrite obj_get_set, decide_False by done.
  destruct (obj_get name o) as [v|]; [|done]. unfold bind.
  destruct (f v n) as [[v' n']|e]; [|done]. unfold ret; simpl. by rewrite obj_set_comm.
Qed.

Lemma at_fields_comm fs key x o n :
  key ∉ fs.*1 -> at_fields fs (obj_set key x o) n = map_res (obj_set key x) (at_fields fs o n).
Proof.
  revert o n; induction fs as [|[name f] fs IH]; intros o n Hk; [done|].
  apply not_elem_of_cons in Hk as [Hne Hk]. simpl. unfold bind.
  rewrite at_field_comm by done. destruct (at_field name f o n) as [[o' n']|e]; simpl; [|done].
  by apply IH.
Qed.

Lemma at_fields_get fs key o n o' n' :
  key ∉ fs.*1 -> at_fields fs o n = Ok (o', n') -> obj_get key o' = obj_get key o.
Proof.
  revert o n; induction fs as [|[name f] fs IH]; intros o n Hk; simpl.
  { by intros [-> ->]%ret_ok. }
  apply not_elem_of_cons in Hk as [Hne Hk]. intros (o1 & k & H1 & H2)%bind_ok.
  rewrite (IH _ _ Hk H2). revert H1. unfold at_field.
  destruct (obj_get name o) as [v|]; [|by intros [-> ->]%ret_ok].
  intros (v' & k' & _ & [-> ->]%ret_ok)%bind_ok. by rewrite obj_get_set, decide_False.
Qed.

Lemma at_fields_cons_some name f fs o n v w m :
  obj_get name o = Some v -> f v n = Ok (w, m) ->
  at_fields ((name, f) :: fs) o n = at_fields fs (obj_set name w o) m.
Proof. intros Hv Hf. simpl. unfold at_field. rewrite Hv. unfold bind. by rewrite Hf. Qed.

Abbreviation Field_op := (string * (Leaf_op -> Json -> M Json))%type.

Definition inst (leaf : Leaf_op) (fs : list Field_op) : list (string * (Json -> M Json)) :=
  map (fun nf => (nf.1, nf.2 leaf)) fs.

Lemma inst_names leaf fs : (inst leaf fs).*1 = fs.*1.
Proof. induction fs as [|nf fs IH]; [done|]. cbn. f_equal. exact IH. Qed.

Lemma at_fields_guard_cons chk name T (fs : list Field_op) o k r :
  Lawful T -> at_fields (inst (guard chk) ((name, T) :: fs)) o k = Ok r ->
  (forall v, obj_get name o = Some v -> T (guard chk) v k = Ok (v, k)) /\
  at_fields (inst (guard chk) fs) o k = Ok r.
Proof.
  intros HT. simpl. destruct r as [o' n']. intros (o1 & k1 & H1 & H2)%bind_ok.
  revert H1. unfold at_field. destruct (obj_get name o) as [v|] eqn:E.
  - intros (v' & k' & Hv & [-> ->]%ret_ok)%bind_ok.
    destruct (lawful_id T HT _ _ _ _ _ Hv). subst v' k'.
    split; [by intros ? [= <-]|]. revert H2. by rewrite obj_set_get.
  - intros [-> ->]%ret_ok. done.
Qed.

Lemma lawful_at_fields (fs : list Field_op) :
  NoDup fs.*1 -> Forall (fun nf => Lawful nf.2) fs -> Lawful (fun leaf => at_fields (inst leaf fs)).
Proof.
  intros Hnd Hall. split.
  - intros chk. clear Hnd. induction Hall as [|[name T] fs HT Hall IH]; intros o n o' n' Hg.
    { by apply ret_ok in Hg. }
    apply at_fields_guard_cons in Hg as [_ Hg]; [|done]. by apply IH.
  - intros leaf o n Hl. revert o n. clear Hnd.
    induction Hall as [|[name T] fs HT Hall IH]; intros o n; [by eexists|]. simpl.
    assert (exists o1, at_field name (T leaf) o n = Ok (o1, n)) as [o1 H1].
    { unfold at_field. destruct (obj_get name o) as [v|]; [|by eexists].
      destruct (lawful_total T HT leaf v n Hl) as [w Hw].
      rewrite (bind_run _ _ _ _ _ Hw). by eexists. }
    rewrite (bind_run _ _ _ _ _ H1). apply IH.
  - intros chk enc dec g. revert Hnd.
    induction Hall as [|[name T] fs HT Hall IH]; intros Hnd o k r n o' n' Hed Hg He m.
    { apply ret_ok in He as [-> ->]. done. }
    apply NoDup_cons in Hnd as [Hk Hnd]. simpl in HT.
    assert (forall leaf, name ∉ (inst leaf fs).*1) as Hk' by (intros; by rewrite inst_names).
    apply at_fields_guard_cons in Hg as [Hgv Hg]; [|done].
    simpl in He. apply bind_ok in He as (o1 & k1 & He1 & He2). revert He1. unfold at_field.
    pose proof (at_fields_get _ name _ _ _ _ (Hk' enc) He2) as Hget.
    destruct (obj_get name o) as [v|] eqn:E.
    + intros (v' & k2 & Hv & [-> ->]%ret_ok)%bind_ok.
      rewrite obj_get_set, decide_True, E in Hget by done.
      specialize (IH Hnd (obj_set name v' o) k (obj_set name v' r.1, r.2)).
      rewrite at_fields_comm, Hg in IH by done. destruct r as [rv rk].
      specialize (IH _ _ _ Hed eq_refl He2 m).
      destruct (lawful_pure_total T g v m HT) as [w Hw].
      pose proof (lawful_compose T HT chk enc dec g v k _ _ _ _ Hed (Hgv v eq_refl) Hv m) as Hd.
      rewrite Hw in Hd.
      change (at_fields ((name, T dec) :: inst dec fs) o' m =
        at_fields ((name, T (fun s => ret (g s))) :: inst (fun s => ret (g s)) fs) o m).
      rewrite (at_fields_cons_some _ _ _ _ _ _ _ _ Hget Hd), (at_fields_cons_some _ _ _ _ _ _ _ _ E Hw).
      rewrite !at_fields_comm by done. rewrite IH, at_fields_comm by done.
      destruct (at_fields (inst _ fs) o m) as [[oo mm]|]; simpl; [|done].
      by rewrite obj_set_set.
    + intros [-> ->]%ret_ok. rewrite E in Hget. simpl. unfold at_field.
      rewrite Hget, E. unfold bind. simpl. by eapply IH.
Qed.

(** ** Every traversal of the program is lawful *)

Lemma lawful_leaf : Lawful (fun leaf : Leaf_op => leaf).
Proof.
  split.
  - intros chk v n v' n'. unfold guard. by destruct (chk v); intros [= -> ->].
  - auto.
  - intros chk enc dec g v k r n v' n' Hed. unfold guard at 1. destruct (chk v) eqn:E; [|done].
    intros _ He m. by rewrite (Hed v n v' n').
Qed.

Lemma lawful_leaf_item : Lawful leaf_item.
Proof.
  eapply lawful_ext; [|apply (lawful_case (fun leaf => leaf) (fun _ => ret) JString as_str)].
  - by intros leaf [].
  - done.
  - by intros [] a [= ->].
  - apply lawful_leaf.
  - apply lawful_ret.
  - by intros leaf b n b' n' Hb [-> ->]%ret_ok.
Qed.

Definition as_array (v : Json) : option (list Json) :=
  match v with JArray items => Some items | _ => None end.
Definition as_object (v : Json) : option Fields :=
  match v with JObject o => Some o | _ => None end.

Lemma lawful_leaf_value : Lawful leaf_value.
Proof.
  eapply lawful_ext; [|apply (lawful_case (fun leaf => map_m (leaf_item leaf)) leaf_item JArray as_array)].
  - by intros leaf [].
  - done.
  - by intros [] a [= ->].
  - apply lawful_map_m, lawful_leaf_item.
  - apply lawful_leaf_item.
  - intros leaf b n b' n'; destruct b; simpl; try done; try (by intros _ [-> ->]%ret_ok).
    by intros _ (s' & k & _ & [-> ->]%ret_ok)%bind_ok.
Qed.

Lemma lawful_on_object (F : Leaf_op -> Fields -> M Fields) :
  Lawful F -> Lawful (fun leaf => on_object (F leaf)).
Proof.
  intros HF. eapply lawful_ext; [|apply (lawful_case F (fun _ => ret) JObject as_object)].
  - by intros leaf [].
  - done.
  - by intros [] a [= ->].
  - done.
  - apply lawful_ret.
  - by intros leaf b n b' n' Hb [-> ->]%ret_ok.
Qed.

Lemma lawful_map_values (f : Leaf_op -> string -> Json -> M Json) :
  (forall key, Lawful (fun leaf => f leaf key)) -> Lawful (fun leaf => map_values (f leaf)).
Proof.
  intros Hf. unfold map_values.
  apply (lawful_map_m (fun leaf (kv : string * Json) => do! v' := f leaf kv.1 kv.2 in ret (kv.1, v'))).
  split.
  - intros chk [key v] n kv' n' (v' & k & Hv & [-> ->]%ret_ok)%bind_ok. simpl in *.
    by apply (lawful_id _ (Hf key)) in Hv as [-> ->].
  - intros leaf [key v] n Hl. destruct (lawful_total _ (Hf key) leaf v n Hl) as [w Hw].
    exists (key, w). by rewrite (bind_run _ _ _ _ _ Hw).
  - intros chk enc dec g [key v] k [rv rk] n kv' n' Hed (w & k1 & Hg & _)%bind_ok
      (v' & k2 & He & [-> ->]%ret_ok)%bind_ok m. simpl in *.
    unfold bind. by rewrite (lawful_compose _ (Hf key) chk enc dec g v _ _ _ _ _ Hed Hg He).
Qed.

Lemma lawful_derived (fs : list Field_op) :
  NoDup fs.*1 -> Forall (fun nf => Lawful nf.2) fs ->
  Lawful (fun leaf => on_object (at_fields (inst leaf fs))).
Proof. intros. by apply lawful_on_object, lawful_at_fields. Qed.

(** One marked leaf field, or two, of a struct. *)
Definition leaf_fields (names : list string) : EncryptFields := map (fun n => (n, Leaf)) names.

Lemma lawful_leaf_fields plugin names :
  NoDup names -> Lawful (fun leaf => transform_secrets leaf (plugin leaf) (leaf_fields names)).
Proof.
  intros Hnd. eapply lawful_ext; [|apply (lawful_derived (map (fun n => (n, leaf_value)) names))].
  - intros leaf v. unfold transform_secrets, inst, leaf_fields. by rewrite !map_map.
  - replace ((map (fun n => (n, leaf_value)) names).*1) with names; [done|].
    clear Hnd. induction names as [|n l IH]; [done|]. cbn. f_equal. exact IH.
  - apply Forall_forall. intros nf (n & <- & _)%list_elem_of_In%in_map_iff. apply lawful_leaf_value.
Qed.

Ltac forall_lawful := repeat (apply Forall_cons; split; [assumption|]); apply Forall_nil; exact I.

Lemma lawful_ai_proxy : Lawful transform_ai_proxy_secrets.
Proof.
  set (section := fun leaf : Leaf_op => on_object (map_values (fun _ => leaf_item leaf))).
  assert (Lawful section) as Hs.
  { apply lawful_on_object, lawful_map_values. intros _. apply lawful_leaf_item. }
  assert (Lawful (fun leaf => on_object (at_fields (inst leaf [("header", section); ("query", section)]))))
    as Hauth.
  { apply lawful_derived; [by apply (bool_decide_unpack _)|]. forall_lawful. }
  eapply lawful_ext; [|apply (lawful_derived
    [("auth", fun leaf => on_object (at_fields (inst leaf [("header", section); ("query", section)])))])].
  - done.
  - by apply (bool_decide_unpack _).
  - forall_lawful.
Qed.

Lemma lawful_plugin name : Lawful (fun leaf => transform_plugin_secrets leaf name).
Proof.
  unfold transform_plugin_secrets.
  repeat case_bool_decide; [apply lawful_ai_proxy| | | | |apply lawful_ret].
  - apply (lawful_leaf_fields (fun _ _ => ret) ["key"]), NoDup_singleton.
  - apply (lawful_leaf_fields (fun _ _ => ret) ["password"]), NoDup_singleton.
  - apply (lawful_leaf_fields (fun _ _ => ret) ["secret"]), NoDup_singleton.
  - apply (lawful_leaf_fields (fun _ _ => ret) ["key"; "keys"]). by apply (bool_decide_unpack _).
Qed.

Lemma lawful_tls : Lawful (fun leaf =>
  kind_value leaf (transform_plugin_secrets leaf) (Nested upstream_tls_fields)).
Proof.
  eapply lawful_ext; [|apply (lawful_derived [("client_key", leaf_value)])].
  - by intros leaf [].
  - by apply (bool_decide_unpack _).
  - pose proof lawful_leaf_value. forall_lawful.
Qed.

Lemma lawful_upstream : Lawful (fun leaf =>
  kind_value leaf (transform_plugin_secrets leaf) (Nested upstream_fields)).
Proof.
  eapply lawful_ext; [|apply (lawful_derived [("tls", fun leaf =>
    kind_value leaf (transform_plugin_secrets leaf) (Nested upstream_tls_fields))])].
  - by intros leaf [].
  - by apply (bool_decide_unpack _).
  - pose proof lawful_tls. forall_lawful.
Qed.

Lemma lawful_plugins : Lawful (fun leaf => kind_value leaf (transform_plugin_secrets leaf) Plugins).
Proof. apply lawful_on_object, lawful_map_values, lawful_plugin. Qed.

Lemma lawful_resource kd : Lawful (fun leaf => walk_resource_secrets leaf kd).
Proof.
  pose proof lawful_plugins. pose proof lawful_upstream. pose proof lawful_tls.
  destruct kd.
  1: eapply lawful_ext; [|apply (lawful_derived [("tls", fun leaf =>
       kind_value leaf (transform_plugin_secrets leaf) (Nested upstream_tls_fields))])].
  4: eapply lawful_ext; [|apply (lawful_derived
       [("plugins", fun leaf => kind_value leaf (transform_plugin_secrets leaf) Plugins);
        ("upstream", fun leaf => kind_value leaf (transform_plugin_secrets leaf) (Nested upstream_fields))])].
  7: eapply lawful_ext; [|apply (lawful_derived
       [("plugins", fun leaf => kind_value leaf (transform_plugin_secrets leaf) Plugins)])].
  10: eapply lawful_ext; [|apply (lawful_derived
       [("plugins", fun leaf => kind_value leaf (transform_plugin_secrets leaf) Plugins);
        ("upstream", fun leaf => kind_value leaf (transform_plugin_secrets leaf) (Nested upstream_fields))])].
  13: apply (lawful_leaf_fields transform_plugin_secrets ["key"]).
  all: try done; try (by apply (bool_decide_unpack _)); try (apply NoDup_singleton); forall_lawful.
Qed.

(** ** Property *)

(** Decryption panics.  Decrypting a value panics exactly when it is an
    envelope of an unknown version whose 24th byte falls inside a character;
    every other malformed value is an error. *)
Theorem decrypt_panics `{CipherSuite} kr value :
  panics (keyring_decrypt kr value) = true <->
  is_ciphertext value = true /\ strip_prefix ENVELOPE_V1_PREFIX value = None /\
  exists b, String.get 24 value = Some b /\ is_cont b = true.
Proof.
  unfold keyring_decrypt. destruct (is_ciphertext value); cbn [negb]; [|split; [done|by intros (? & _)]].
  destruct (strip_prefix ENVELOPE_V1_PREFIX value) as [payload|].
  - assert (forall ks a b, panics (try_keys ks a b) = false) as Hk.
    { intros ks a b. induction ks as [|k ks IH]; simpl; [done|]. destruct (aes_decrypt k a b); [|done].
      by destruct (from_utf8 s). }
    destruct (base64_decode payload); [case_match; rewrite ?Hk|]; (split; [done|by intros (_ & [=] & _)]).
  - unfold str_take. destruct (le_lt_dec 24 (String.length value)) as [Hl|Hl].
    + rewrite Nat.min_r by done. generalize (String.get 24 value). intros [b|].
      * destruct (is_cont b) eqn:E; (split; [try done; intros _; by eauto 6|]); [done|].
        intros (_ & _ & b' & [= <-] & Hb). congruence.
      * split; [done|]. by intros (_ & _ & b' & [=] & _).
    + rewrite Nat.min_l by lia.
      assert (forall s i, (String.length s <= i)%nat -> String.get i s = None) as Hg.
      { induction s as [|a s IH]; intros [|i] Hi; simpl in *; try done; try lia. apply IH. lia. }
      rewrite !Hg by lia. split; [done|]. by intros (_ & _ & b' & [=] & _).
Qed.
