(* ===== verification/Secrets.v ===== *)
(** * Secret redaction and restoration ([src/src/proxy/graph_mutation/secrets.rs])

    The Admin read path (decrypt, then redact), the restoration of redacted
    secrets on a PUT, storage encryption, and what they guarantee. *)

From Stdlib Require Import ZArith Lia Ascii.
From stdpp Require Import base tactics strings option sets list.
From S2P Require Import Prelude Errors GraphStore Utf8 Json Encryption.

Open Scope Z_scope.

Definition REDACTED_SENTINEL : string := "***".

Section secrets.
Context `{CipherSuite}.

(** [redact]: the error of the walk is [expect]ed away. *)
Definition redact (kd : ResourceKind) (value : Json) (k : KeyringService) : M Json := fun n =>
  match transform_resource_secrets k kd value Redact n with
  | Ok r => Ok r
  | Err _ => Err (Panic "redaction performs no fallible crypto")
  end.

Fixpoint contains_redaction_sentinel (value : Json) : bool :=
  match value with
  | JString s => bool_decide (s = REDACTED_SENTINEL)
  | JArray items => existsb contains_redaction_sentinel items
  | JObject fields => existsb (fun kv => contains_redaction_sentinel kv.2) fields
  | _ => false
  end.

(** [restore_walk]: recursion on [secret_map]; the result is the updated
    [incoming].  A field or index absent from [incoming] or [plaintext] is left alone. *)
Fixpoint restore_walk (secret_map incoming plaintext : Json) {struct secret_map} : Json :=
  match secret_map with
  | JString s =>
    if bool_decide (s = REDACTED_SENTINEL) && bool_decide (as_str incoming = Some REDACTED_SENTINEL)
    then plaintext else incoming
  | JObject map =>
    match incoming, plaintext with
    | JObject inc, JObject pt =>
      JObject ((fix go map inc :=
        match map with
        | [] => inc
        | (key, sub) :: map' =>
          go map' (match obj_get key inc, obj_get key pt with
                   | Some iv, Some pv => obj_set key (restore_walk sub iv pv) inc
                   | _, _ => inc
                   end)
        end) map inc)
    | _, _ => incoming
    end
  | JArray items =>
    match incoming, plaintext with
    | JArray inc, JArray pt =>
      JArray ((fix go items inc pt :=
        match items, inc, pt with
        | sub :: items', iv :: inc', pv :: pt' => restore_walk sub iv pv :: go items' inc' pt'
        | _, _, _ => inc
        end) items inc pt)
    | _, _ => incoming
    end
  | _ => incoming
  end.

Definition restore_redacted_secrets (kd : ResourceKind) (incoming existing_plaintext : Json)
    (k : KeyringService) : M Json :=
  do! secret_map := redact kd existing_plaintext k in
  ret (restore_walk secret_map incoming existing_plaintext).

(** [serde_json::to_vec] is a parameter of the storage form. *)
Definition encrypt_for_storage (to_vec : Json -> Result string string) (kd : ResourceKind)
    (value : Json) (k : KeyringService) : M string :=
  do! value := (if keyring_is_enabled k then transform_resource_secrets k kd value Encrypt else ret value) in
  lift (match to_vec value with
        | Ok bytes => Ok bytes
        | Err e => Err (Raise (serialization_error "Failed to serialize resource for storage" e))
        end).

Definition decrypt_for_read (kd : ResourceKind) (value : Json) (k : KeyringService) : M Json :=
  if keyring_is_enabled k then transform_resource_secrets k kd value Decrypt else ret value.

(** ** Redaction *)

Definition redact_leaf (s : string) : M string := ret REDACTED.

Lemma redact_walk kd v k n : exists v',
  walk_resource_secrets redact_leaf kd v n = Ok (v', n) /\ redact kd v k n = Ok (v', n).
Proof.
  destruct (lawful_total _ (lawful_resource kd) redact_leaf v n) as [v' Hv]; [by intros; eexists|].
  exists v'. split; [done|]. unfold redact.
  change (transform_resource_secrets k kd v Redact n) with (walk_resource_secrets redact_leaf kd v n).
  by rewrite Hv.
Qed.

Definition any_leaf : string -> bool := fun _ => true.

Lemma guard_any_ok kd v n : exists r, walk_resource_secrets (guard any_leaf) kd v n = Ok r.
Proof.
  destruct (lawful_total _ (lawful_resource kd) (guard any_leaf) v n) as [v' Hv]; eauto.
Qed.

Lemma redact_absorbs kd leaf v n v' n' k m :
  walk_resource_secrets leaf kd v n = Ok (v', n') -> redact kd v' k m = redact kd v k m.
Proof.
  intros He. destruct (redact_walk kd v' k m) as (w' & Hw' & ->).
  destruct (redact_walk kd v k m) as (w & Hw & ->).
  destruct (guard_any_ok kd v 0%nat) as [r Hr].
  pose proof (lawful_compose _ (lawful_resource kd) any_leaf leaf redact_leaf (fun _ => REDACTED)
    v 0%nat r n v' n' ltac:(by intros) Hr He m) as Hc.
  change (walk_resource_secrets redact_leaf kd v' m = walk_resource_secrets redact_leaf kd v m) in Hc.
  congruence.
Qed.

(** ** Restoration *)

Lemma restore_object_go (map inc pt : Fields) :
  (fix go map inc :=
    match map with
    | [] => inc
    | (key, sub) :: map' =>
      go map' (match obj_get key inc, obj_get key pt with
               | Some iv, Some pv => obj_set key (restore_walk sub iv pv) inc
               | _, _ => inc
               end)
    end) map inc
  = fold_left (fun inc kv =>
      match obj_get kv.1 inc, obj_get kv.1 pt with
      | Some iv, Some pv => obj_set kv.1 (restore_walk kv.2 iv pv) inc
      | _, _ => inc
      end) map inc.
Proof. revert inc; induction map as [|[key sub] map IH]; intros inc; [done|]. apply IH. Qed.

(** Without a sentinel in the request there is nothing to restore. *)
Lemma restore_no_sentinel m inc pt :
  contains_redaction_sentinel inc = false -> restore_walk m inc pt = inc.
Proof.
  revert inc pt. induction m as [| | |s|items IH|map IH] using Json_nested_ind; intros inc pt Hs; try done.
  - simpl. destruct (bool_decide (as_str inc = Some REDACTED_SENTINEL)) eqn:E; [|by rewrite andb_false_r].
    bool_to_prop. destruct inc; simpl in *; try done. injection E as ->.
    by rewrite bool_decide_true in Hs.
  - destruct inc as [| | | |inc|]; try done. destruct pt as [| | | |pt|]; try done. simpl. f_equal.
    simpl in Hs. revert inc pt Hs. induction IH as [|sub items Hsub _ IH]; intros [|iv inc] pt Hs; try done.
    destruct pt as [|pv pt]; [done|]. simpl in Hs. apply orb_false_iff in Hs as [Hi Hs].
    rewrite Hsub by done. f_equal. by apply IH.
  - destruct inc as [| | | | |inc]; try done. destruct pt as [| | | | |pt]; try done.
    cbn [restore_walk]. f_equal. rewrite restore_object_go. simpl in Hs.
    induction IH as [|[key sub] map Hsub _ IH]; [done|]. simpl.
    destruct (obj_get key inc) as [iv|] eqn:Ei; [|done].
    destruct (obj_get key pt) as [pv|]; [|done]. simpl in Hsub. rewrite Hsub; [by rewrite obj_set_get|].
    apply not_true_is_false. intros Hiv. apply not_true_iff_false in Hs. apply Hs.
    apply existsb_exists. exists (key, iv). split; [|done]. apply list_elem_of_In. by apply obj_get_elem.
Qed.

(** Restoring the unedited redacted view [m] of [v] gives [v] back. *)
Definition restores (v m : Json) : Prop := restore_walk m m v = v.

Lemma restores_object o m :
  NoDup o.*1 -> o.*1 = m.*1 ->
  (forall key a b, obj_get key o = Some a -> obj_get key m = Some b -> restores a b) ->
  restores (JObject o) (JObject m).
Proof.
  intros Hnd Hk Hr. unfold restores. cbn [restore_walk]. f_equal. rewrite restore_object_go.
  assert (forall l inc, NoDup l.*1 -> (forall kv, kv ∈ l -> obj_get kv.1 m = Some kv.2) ->
    inc.*1 = o.*1 ->
    (forall key, obj_get key inc = if decide (key ∈ l.*1) then obj_get key m else obj_get key o) ->
    fold_left (fun inc kv =>
      match obj_get kv.1 inc, obj_get kv.1 o with
      | Some iv, Some pv => obj_set kv.1 (restore_walk kv.2 iv pv) inc
      | _, _ => inc
      end) l inc = o) as Hgo.
  { induction l as [|[key sub] l IH]; intros inc Hl Hlm Hik Hinc; simpl.
    - apply obj_ext; [by rewrite Hik|done|]. intros key. rewrite Hinc. by rewrite decide_False by set_solver.
    - apply NoDup_cons in Hl as [Hn Hl]. pose proof (Hlm (key, sub) ltac:(left)) as Hsub. simpl in Hsub.
      rewrite Hinc, decide_True, Hsub by (simpl; set_solver).
      assert (exists a, obj_get key o = Some a) as [a Ha].
      { assert (key ∈ o.*1) as Hko by (rewrite Hk; by eapply obj_get_some_key).
        clear -Hko. induction o as [|[k v] o IH]; simpl in *; [by apply not_elem_of_nil in Hko|].
        case_decide; [by eexists|]. apply IH. apply elem_of_cons in Hko as [->|]; done. }
      rewrite Ha. rewrite (Hr key a sub) by done. apply IH; [done| |by rewrite obj_set_keys|].
      + intros kv Hkv. apply Hlm. by right.
      + intros key'. rewrite obj_get_set, Hinc. simpl. destruct (decide (key = key')) as [<-|Hne].
        * rewrite decide_True by set_solver. rewrite Hsub, decide_False by done. by rewrite Ha.
        * rewrite Hinc. simpl. repeat case_decide; set_solver. }
  apply Hgo; [by rewrite <- Hk| |done|].
  - intros [key b] Hkv. simpl.
    assert (NoDup m.*1) as Hm by (by rewrite <- Hk). clear -Hkv Hm.
    induction m as [|[k v] m IH]; simpl in *; [by apply not_elem_of_nil in Hkv|].
    apply NoDup_cons in Hm as [Hn Hm]. apply elem_of_cons in Hkv as [[= -> ->]|Hkv].
    + by rewrite decide_True.
    + rewrite decide_False; [by apply IH|]. intros ->. apply Hn. apply list_elem_of_fmap. by exists (key, b).
  - intros key. case_decide as Hd; [done|]. rewrite !obj_get_none; [done| |]; by rewrite ?Hk.
Qed.

Lemma restores_array vs ms : Forall2 restores vs ms -> restores (JArray vs) (JArray ms).
Proof.
  intros Hall. unfold restores. simpl. f_equal. induction Hall as [|v m vs ms Hv Hall IH]; [done|].
  by rewrite Hv, IH.
Qed.

Lemma restores_refl v : json_wf v -> restores v v.
Proof.
  induction v as [| | |s|items IH|fields IH] using Json_nested_ind; intros Hwf; try done.
  - unfold restores. simpl. by case_match.
  - apply restores_array. apply json_wf_array in Hwf. apply Forall_Forall2_diag.
    rewrite Forall_forall in IH, Hwf |- *. auto.
  - pose proof Hwf as [Hnd Hall]%json_wf_object. apply restores_object; [done|done|].
    intros key a b Ha [= <-]%(transitivity (eq_sym Ha)).
    rewrite Forall_forall in IH, Hall. apply obj_get_elem in Ha. apply (IH (key, a) Ha), (Hall _ Ha).
Qed.

(** Every masking traversal can be undone by restoration. *)
Definition Restoring (T : Leaf_op -> Json -> M Json) : Prop :=
  forall v n m n', json_wf v -> T redact_leaf v n = Ok (m, n') -> restores v m.

Lemma restoring_ret : Restoring (fun _ => ret).
Proof. intros v n m n' Hwf [-> ->]%ret_ok. by apply restores_refl. Qed.

Lemma restoring_leaf_item : Restoring leaf_item.
Proof.
  intros v n m n' Hwf. destruct v; try (intros [-> ->]%ret_ok; by apply restores_refl).
  intros (x & k & [-> ->]%ret_ok & [-> ->]%ret_ok)%bind_ok. done.
Qed.

Lemma restoring_map_m {A} (proj : A -> Json) (f : A -> M A) l n l' n' :
  (forall x n y n', x ∈ l -> f x n = Ok (y, n') -> restores (proj x) (proj y)) ->
  map_m f l n = Ok (l', n') -> Forall2 (fun x y => restores (proj x) (proj y)) l l'.
Proof.
  revert n l'; induction l as [|x l IH]; intros n l' Hf; simpl.
  { intros [-> ->]%ret_ok. constructor. }
  intros (y & k & Hy & (ys & k' & Hys & [-> ->]%ret_ok)%bind_ok)%bind_ok. constructor.
  - eapply Hf; [left|done].
  - eapply IH; [|done]. intros. eapply Hf; [by right|done].
Qed.

Lemma restoring_leaf_value : Restoring leaf_value.
Proof.
  intros v n m n' Hwf. destruct v as [| | | |items|];
    try (intros [-> ->]%ret_ok; by apply restores_refl).
  - by apply (restoring_leaf_item (JString s) n m n').
  - intros (items' & k & Hi & [-> ->]%ret_ok)%bind_ok. apply restores_array.
    apply (restoring_map_m (fun x => x) (leaf_item redact_leaf) items n items' k); [|done].
    intros x i y i' Hx. apply restoring_leaf_item. apply json_wf_array in Hwf.
    rewrite Forall_forall in Hwf. auto.
Qed.

Lemma restoring_on_object (F : Leaf_op -> Fields -> M Fields) :
  (forall o n o' n', json_wf (JObject o) -> F redact_leaf o n = Ok (o', n') ->
    o.*1 = o'.*1 /\ (forall key a b, obj_get key o = Some a -> obj_get key o' = Some b -> restores a b)) ->
  Restoring (fun leaf => on_object (F leaf)).
Proof.
  intros HF v n m n' Hwf. destruct v; try (intros [-> ->]%ret_ok; by apply restores_refl).
  intros (o' & k & Ho & [-> ->]%ret_ok)%bind_ok. destruct (HF _ _ _ _ Hwf Ho) as [Hk Hr].
  apply restores_object; [|done|done]. by apply json_wf_object in Hwf as [? _].
Qed.

Lemma restoring_at_fields (fs : list Field_op) o n o' n' :
  NoDup fs.*1 -> Forall (fun nf => Restoring nf.2) fs -> json_wf (JObject o) ->
  at_fields (inst redact_leaf fs) o n = Ok (o', n') ->
  o.*1 = o'.*1 /\
  (forall key a b, obj_get key o = Some a -> obj_get key o' = Some b -> restores a b) /\
  (forall key, key ∉ fs.*1 -> obj_get key o' = obj_get key o).
Proof.
  intros Hnd Hall Hwf He. split_and!.
  - clear Hnd Hall Hwf. revert o n He. induction fs as [|[name T] fs IH]; intros o n; simpl.
    { by intros [-> ->]%ret_ok. }
    intros (o1 & k & H1 & H2)%bind_ok. rewrite <- (IH _ _ H2). revert H1. unfold at_field.
    destruct (obj_get name o); [|by intros [-> ->]%ret_ok].
    intros (w & k' & _ & [-> ->]%ret_ok)%bind_ok. by rewrite obj_set_keys.
  - revert o n o' n' Hwf He.
    induction Hall as [|[name T] fs HT Hall IH]; intros o n o' n' Hwf He key a b Ha Hb.
    { apply ret_ok in He as [-> ->]. assert (a = b) as <- by congruence.
      by eapply restores_refl, json_wf_get. }
    apply NoDup_cons in Hnd as [Hk Hnd]. simpl in He. apply bind_ok in He as (o1 & k & H1 & H2).
    assert (forall key, key ∉ (inst redact_leaf fs).*1 -> obj_get key o' = obj_get key o1) as Hsame.
    { intros key' Hkey'. by eapply at_fields_get. }
    rewrite inst_names in Hsame. revert H1. unfold at_field.
    destruct (obj_get name o) as [v|] eqn:Ev.
    + intros (w & k' & Hw & [-> ->]%ret_ok)%bind_ok. destruct (decide (key = name)) as [->|Hne].
      * rewrite Hsame, obj_get_set, decide_True, Ev in Hb by done.
        assert (a = v) as -> by congruence. injection Hb as <-.
        by apply (HT v n w k'); [eapply json_wf_get|].
      * (* the remaining fields act on [o] as they do on the updated object *)
        rewrite at_fields_comm in H2 by (by rewrite inst_names).
        destruct (at_fields (inst redact_leaf fs) o k') as [[o3 n3]|] eqn:E3; [|done].
        injection H2 as <- <-. rewrite obj_get_set, decide_False in Hb by done.
        by eapply (IH Hnd o k' o3 n3).
    + intros [-> ->]%ret_ok. by eapply (IH Hnd o n o' n').
  - intros key Hkey. eapply at_fields_get; [|done]. by rewrite inst_names.
Qed.

Lemma restoring_derived (fs : list Field_op) :
  NoDup fs.*1 -> Forall (fun nf => Restoring nf.2) fs ->
  Restoring (fun leaf => on_object (at_fields (inst leaf fs))).
Proof.
  intros Hnd Hall. apply restoring_on_object. intros o n o' n' Hwf He.
  by destruct (restoring_at_fields fs o n o' n') as (? & ? & _).
Qed.

Lemma map_m_keys (f : string -> Json -> M Json) o n o' n' :
  map_values f o n = Ok (o', n') -> o.*1 = o'.*1.
Proof.
  unfold map_values. revert n o'; induction o as [|[k v] o IH]; intros n o'; simpl.
  { by intros [-> ->]%ret_ok. }
  intros (y & i & (w & i' & _ & [-> ->]%ret_ok)%bind_ok & (ys & i'' & Hys & [-> ->]%ret_ok)%bind_ok)%bind_ok.
  cbn. f_equal. by eapply IH.
Qed.

Lemma restoring_map_values (f : Leaf_op -> string -> Json -> M Json) :
  (forall key, Restoring (fun leaf => f leaf key)) -> Restoring (fun leaf => on_object (map_values (f leaf))).
Proof.
  intros Hf. apply restoring_on_object. intros o n o' n' Hwf He.
  split; [by eapply map_m_keys|].
  apply (restoring_map_m (fun kv : string * Json => kv.2)) in He as Hall.
  - pose proof (map_m_keys _ _ _ _ _ He) as Hk. clear He Hwf. intros key a b.
    induction Hall as [|[k v] [k' v'] l l' Hv Hall IH]; simpl; [done|].
    injection Hk as <- Hk. case_decide; [|by apply IH]. by intros [= <-] [= <-].
  - intros [k v] i [k' v'] i' Hkv (w & j & Hw & [Heq ->]%ret_ok)%bind_ok. simpl in *.
    injection Heq as -> ->. eapply (Hf k); [|done].
    apply json_wf_object in Hwf as [_ Hwf]. rewrite Forall_forall in Hwf. by apply (Hwf (k, v)).
Qed.

Lemma restoring_ext (T T' : Leaf_op -> Json -> M Json) :
  (forall leaf a, T leaf a = T' leaf a) -> Restoring T -> Restoring T'.
Proof. intros Heq HT v n m n' Hwf. rewrite <- Heq. by apply HT. Qed.

Ltac forall_restoring := repeat (apply Forall_cons; split; [assumption|]); apply Forall_nil; exact I.

Lemma restoring_leaf_fields plugin names :
  NoDup names -> Restoring (fun leaf => transform_secrets leaf (plugin leaf) (leaf_fields names)).
Proof.
  intros Hnd. eapply restoring_ext; [|apply (restoring_derived (map (fun n => (n, leaf_value)) names))].
  - intros leaf v. unfold transform_secrets, inst, leaf_fields. by rewrite !map_map.
  - replace ((map (fun n => (n, leaf_value)) names).*1) with names; [done|].
    clear Hnd. induction names as [|n l IH]; [done|]. cbn. f_equal. exact IH.
  - apply Forall_forall. intros nf (n & <- & _)%list_elem_of_In%in_map_iff. apply restoring_leaf_value.
Qed.

Lemma restoring_ai_proxy : Restoring transform_ai_proxy_secrets.
Proof.
  set (section := fun leaf : Leaf_op => on_object (map_values (fun _ => leaf_item leaf))).
  assert (Restoring section) as Hs by (apply restoring_map_values; intros _; apply restoring_leaf_item).
  assert (Restoring (fun leaf => on_object (at_fields (inst leaf [("header", section); ("query", section)]))))
    as Hauth.
  { apply restoring_derived; [by apply (bool_decide_unpack _)|]. forall_restoring. }
  eapply restoring_ext; [|apply (restoring_derived
    [("auth", fun leaf => on_object (at_fields (inst leaf [("header", section); ("query", section)])))])].
  - done.
  - by apply (bool_decide_unpack _).
  - forall_restoring.
Qed.

Lemma restoring_plugin name : Restoring (fun leaf => transform_plugin_secrets leaf name).
Proof.
  unfold transform_plugin_secrets.
  repeat case_bool_decide; [apply restoring_ai_proxy| | | | |apply restoring_ret].
  - apply (restoring_leaf_fields (fun _ _ => ret) ["key"]), NoDup_singleton.
  - apply (restoring_leaf_fields (fun _ _ => ret) ["password"]), NoDup_singleton.
  - apply (restoring_leaf_fields (fun _ _ => ret) ["secret"]), NoDup_singleton.
  - apply (restoring_leaf_fields (fun _ _ => ret) ["key"; "keys"]). by apply (bool_decide_unpack _).
Qed.

Lemma restoring_resource kd : Restoring (fun leaf => walk_resource_secrets leaf kd).
Proof.
  assert (Restoring (fun leaf => kind_value leaf (transform_plugin_secrets leaf) Plugins)) as Hp.
  { apply restoring_map_values, restoring_plugin. }
  pose proof restoring_leaf_value as Hl.
  assert (Restoring (fun leaf =>
    kind_value leaf (transform_plugin_secrets leaf) (Nested upstream_tls_fields))) as Ht.
  { eapply restoring_ext; [|apply (restoring_derived [("client_key", leaf_value)])];
      [by intros leaf []|by apply (bool_decide_unpack _)|forall_restoring]. }
  assert (Restoring (fun leaf =>
    kind_value leaf (transform_plugin_secrets leaf) (Nested upstream_fields))) as Hu.
  { eapply restoring_ext; [|apply (restoring_derived [("tls", fun leaf =>
      kind_value leaf (transform_plugin_secrets leaf) (Nested upstream_tls_fields))])];
      [by intros leaf []|by apply (bool_decide_unpack _)|forall_restoring]. }
  destruct kd.
  1: eapply restoring_ext; [|apply (restoring_derived [("tls", fun leaf =>
       kind_value leaf (transform_plugin_secrets leaf) (Nested upstream_tls_fields))])].
  4: eapply restoring_ext; [|apply (restoring_derived
       [("plugins", fun leaf => kind_value leaf (transform_plugin_secrets leaf) Plugins);
        ("upstream", fun leaf => kind_value leaf (transform_plugin_secrets leaf) (Nested upstream_fields))])].
  7: eapply restoring_ext; [|apply (restoring_derived
       [("plugins", fun leaf => kind_value leaf (transform_plugin_secrets leaf) Plugins)])].
  10: eapply restoring_ext; [|apply (restoring_derived
       [("plugins", fun leaf => kind_value leaf (transform_plugin_secrets leaf) Plugins);
        ("upstream", fun leaf => kind_value leaf (transform_plugin_secrets leaf) (Nested upstream_fields))])].
  13: apply (restoring_leaf_fields transform_plugin_secrets ["key"]).
  all: try done; try (by apply (bool_decide_unpack _)); try (apply NoDup_singleton); forall_restoring.
Qed.

(** ** Encryption *)

(** A secret that is not itself an envelope, as Rust strings are valid UTF-8. *)
Definition plain_secret (s : string) : bool := utf8_valid s && negb (is_ciphertext s).

Definition secrets_plain (kd : ResourceKind) (v : Json) : bool :=
  is_ok (walk_resource_secrets (guard plain_secret) kd v 0%nat).

Lemma substring_app_l a b : String.substring 0 (String.length a) (a +:+ b) = a.
Proof. induction a as [|c a IH]; simpl; [by destruct b|]. by rewrite IH. Qed.

Lemma substring_full s : String.substring 0 (String.length s) s = s.
Proof. induction s as [|c s IH]; simpl; [done|]. by rewrite IH. Qed.

Lemma substring_app_r a b : String.substring (String.length a) (String.length b) (a +:+ b) = b.
Proof. induction a as [|c a IH]; simpl; [apply substring_full|done]. Qed.

Lemma length_str_app a b : String.length (a +:+ b) = (String.length a + String.length b)%nat.
Proof. induction a as [|c a IH]; simpl; [done|]. by rewrite IH. Qed.

Context `{!CipherLaws}.

Lemma try_keys_found front k back nonce_i c p :
  utf8_valid p = true -> (forall k', k' ∈ front -> k' <> k) ->
  aes_encrypt k (nonce_at nonce_i) p = Ok c ->
  try_keys (front ++ k :: back) (nonce_at nonce_i) c = Ok p.
Proof.
  intros Hu Hf Hc. induction front as [|k' front IH]; simpl.
  - rewrite (open_seal _ _ _ _ Hc). unfold from_utf8. by rewrite Hu.
  - rewrite (open_foreign _ _ _ _ _ (Hf k' ltac:(left)) Hc). apply IH. intros. apply Hf. by right.
Qed.

Lemma decrypt_encrypt k ks front back s n s' n' :
  (forall k', k' ∈ front -> k' <> k) -> plain_secret s = true ->
  keyring_encrypt {| keys := k :: ks |} s n = Ok (s', n') ->
  keyring_decrypt {| keys := front ++ k :: back |} s' = Ok s.
Proof.
  intros Hf [Hu Hc%negb_true_iff]%andb_true_iff. unfold keyring_encrypt. rewrite Hc. cbn [keys].
  destruct (aes_encrypt k (nonce_at n) s) as [c|] eqn:E; [|done]. intros Hs'.
  assert (s' = ENVELOPE_V1_PREFIX +:+ base64_encode (nonce_at n +:+ c)) as -> by congruence.
  unfold keyring_decrypt.
  assert (is_ciphertext (ENVELOPE_V1_PREFIX +:+ base64_encode (nonce_at n +:+ c)) = true) as ->
    by apply (starts_with_app CIPHERTEXT_PREFIX ("v1$" +:+ base64_encode (nonce_at n +:+ c))).
  cbn [negb keys]. rewrite strip_prefix_app, base64_roundtrip.
  rewrite length_str_app, nonce_len. pose proof (seal_len _ _ _ _ E).
  rewrite (proj2 (Z.ltb_ge _ _)) by lia.
  replace (12 + String.length c - 12)%nat with (String.length c) by lia.
  rewrite <- (nonce_len n) at 1 2. rewrite substring_app_l, substring_app_r.
  by apply try_keys_found.
Qed.

(** What the first key of a keyring encrypts, any keyring that still contains
    that key decrypts, whatever newer keys were put in front of it, as long as
    no secret is itself shaped like an envelope. *)
Lemma transform_inverse kd k ks front back v n v' n' m :
  (forall k', k' ∈ front -> k' <> k) ->
  secrets_plain kd v = true ->
  transform_resource_secrets {| keyring := Some {| keys := k :: ks |} |} kd v Encrypt n = Ok (v', n') ->
  transform_resource_secrets {| keyring := Some {| keys := front ++ k :: back |} |} kd v' Decrypt m
  = Ok (v, m).
Proof.
  intros Hf Hp He. unfold secrets_plain in Hp.
  destruct (walk_resource_secrets (guard plain_secret) kd v 0%nat) as [r|] eqn:Hg; [|done].
  unfold transform_resource_secrets in *.
  rewrite (lawful_compose _ (lawful_resource kd) plain_secret
    (apply_secret_op Encrypt {| keyring := Some {| keys := k :: ks |} |})
    (apply_secret_op Decrypt {| keyring := Some {| keys := front ++ k :: back |} |})
    (fun s => s) v 0%nat r n v' n'); [|  |exact Hg|exact He].
  - destruct (lawful_total _ (lawful_resource kd) (guard any_leaf) v m) as [w Hw]; [by eauto|].
    destruct (lawful_id _ (lawful_resource kd) _ _ _ _ _ Hw) as [-> _]. exact Hw.
  - intros s i s' i' Hs Hi j. unfold apply_secret_op, encrypt, decrypt, lift in *. cbn [keyring] in *.
    by rewrite (decrypt_encrypt k ks front back s i s' i').
Qed.

(** ** Properties *)

(** C11 (storage round trip).  A document the Admin write path stores under some
    keyring is read back unchanged under a keyring rotated by putting newer
    keys in front, provided serde reads back what it writes and no secret of
    the document is itself shaped like an envelope. *)
Theorem storage_roundtrip (to_vec : Json -> Result string string) (from_slice : string -> Result Json string)
    kd k ks front v n bytes n' m :
  (forall w b, to_vec w = Ok b -> from_slice b = Ok w) ->
  (forall k', k' ∈ front -> k' <> k) ->
  secrets_plain kd v = true ->
  encrypt_for_storage to_vec kd v {| keyring := Some {| keys := k :: ks |} |} n = Ok (bytes, n') ->
  exists w, from_slice bytes = Ok w /\
    decrypt_for_read kd w {| keyring := Some {| keys := front ++ k :: ks |} |} m = Ok (v, m).
Proof.
  intros Hserde Hf Hp (w & i & Hw & Hb)%bind_ok. simpl in Hw.
  destruct (to_vec w) as [b|] eqn:E; [|done]. injection Hb as -> ->.
  exists w. split; [by apply Hserde|]. by apply (transform_inverse kd k ks front ks v n w n' m).
Qed.

(** Redaction is total and blind.  Redacting a resource never fails, and
    the redacted view does not depend on the secrets: every replacement of the
    secret leaves (encryption, decryption, rotation) has the same view. *)
Theorem redaction_blind kd v k n :
  exists m, redact kd v k n = Ok (m, n) /\
  forall leaf v' i j, walk_resource_secrets leaf kd v i = Ok (v', j) -> redact kd v' k n = Ok (m, n).
Proof.
  destruct (redact_walk kd v k n) as (m & _ & Hm). exists m. split; [done|].
  intros leaf v' i j Hw. by rewrite (redact_absorbs kd leaf v i v' j).
Qed.

(** C12 (GET then PUT).  Sending the redacted view back unedited restores the
    stored plaintext exactly, secrets included. *)
Theorem restore_roundtrip kd v k n m n' :
  json_wf v -> redact kd v k n = Ok (m, n') -> restore_redacted_secrets kd m v k n = Ok (v, n').
Proof.
  intros Hwf Hm. unfold restore_redacted_secrets. rewrite (bind_run _ _ _ _ _ Hm).
  destruct (redact_walk kd v k n) as (m' & Hw & Hm'). rewrite Hm in Hm'. injection Hm' as -> ->.
  pose proof (restoring_resource kd v _ _ _ Hwf Hw) as Hr. unfold restores in Hr. unfold ret. by rewrite Hr.
Qed.

(** The restoration shortcut.  The write path restores only documents
    that contain the sentinel; on any other document restoration would be the
    identity, whatever is stored. *)
Theorem restore_shortcut kd v k incoming n :
  contains_redaction_sentinel incoming = false ->
  restore_redacted_secrets kd incoming v k n = Ok (incoming, n).
Proof.
  intros Hs. unfold restore_redacted_secrets. destruct (redact_walk kd v k n) as (m & _ & Hm).
  rewrite (bind_run _ _ _ _ _ Hm). unfold ret. by rewrite restore_no_sentinel.
Qed.

End secrets.

(** ** Witnesses

    A toy suite that satisfies the laws: a ciphertext is a tag, the one
    character of its key and the plaintext. *)

Module Toy.

Definition tag : string := "0123456789abcdef".

#[export] Instance suite : CipherSuite := {
  AesKey := ascii;
  argon2 s := match s with String a _ => Ok a | EmptyString => Err "empty" end;
  nonce_at _ := "nonce-------";
  aes_encrypt k _ p := Ok (tag +:+ String k p);
  aes_decrypt k _ c := strip_prefix (tag +:+ str1 k) c;
  base64_encode s := s;
  base64_decode := Ok;
}.

#[export] Instance laws : CipherLaws.
Proof.
  split.
  - done.
  - intros k n p c [= <-]. simpl. lia.
  - intros k n p c [= <-]. simpl. by rewrite bool_decide_true.
  - intros k k' n p c Hk [= <-]. simpl. by rewrite bool_decide_false.
  - done.
Qed.

Definition ssl : Json := JObject [("cert", JString "PEM"); ("key", JString "s3cret"); ("snis", JArray [])].

Definition route : Json := JObject
  [("plugins", JObject [("key-auth", JObject [("keys", JArray [JString "k1"; JString "k2"])])]);
   ("upstream", JObject [("tls", JObject [("client_cert", JString "C"); ("client_key", JString "K")])])].

Definition ring (l : list ascii) : @Keyring suite := @Build_Keyring suite l.

End Toy.

Import Toy.

(** A stand-in for serde on one stored document. *)
Definition toy_to_vec (v : Json) : Result string string :=
  match v with
  | JObject [(a, JString p); (b, JString key); (c, JArray [])] =>
    if bool_decide (a = "cert" /\ p = "PEM" /\ b = "key" /\ c = "snis") then Ok key else Err "unsupported"
  | _ => Err "unsupported"
  end.
Definition toy_from_slice (b : string) : Result Json string :=
  Ok (JObject [("cert", JString "PEM"); ("key", JString b); ("snis", JArray [])]).

Lemma toy_reads_back w b : toy_to_vec w = Ok b -> toy_from_slice b = Ok w.
Proof.
  unfold toy_to_vec, toy_from_slice. repeat (case_match; try done). intros [= <-].
  subst. bool_to_prop. destruct_and!. by subst.
Qed.

Lemma storage_roundtrip_witness :
  exists bytes, encrypt_for_storage toy_to_vec Ssl Toy.ssl {| keyring := Some (ring ["a"%char]) |} 0%nat
    = Ok (bytes, 1%nat) /\
  exists w, toy_from_slice bytes = Ok w /\
    decrypt_for_read Ssl w {| keyring := Some (ring ["b"%char; "a"%char]) |} 7%nat = Ok (Toy.ssl, 7%nat).
Proof.
  eexists. split; [vm_compute; reflexivity|].
  refine (storage_roundtrip toy_to_vec toy_from_slice Ssl "a"%char [] ["b"%char] Toy.ssl 0%nat _ 1%nat 7%nat
    toy_reads_back _ _ _).
  - intros k' Hk'. apply list_elem_of_singleton in Hk' as ->. discriminate.
  - vm_compute. reflexivity.
  - vm_compute. reflexivity.
Defined.

Lemma redaction_blind_witness :
  exists m, redact Ssl Toy.ssl disabled 0%nat = Ok (m, 0%nat) /\
  redact Ssl (JObject [("cert", JString "PEM"); ("key", JString "other"); ("snis", JArray [])]) disabled 0%nat
  = Ok (m, 0%nat).
Proof.
  destruct (redaction_blind Ssl Toy.ssl disabled 0%nat) as (m & Hm & Hb). exists m. split; [exact Hm|].
  apply (Hb (fun _ => ret "other") _ 0%nat 0%nat). vm_compute. reflexivity.
Defined.

Lemma restore_roundtrip_witness :
  exists m, redact Route Toy.route disabled 0%nat = Ok (m, 0%nat) /\ contains_redaction_sentinel m = true /\
  restore_redacted_secrets Route m Toy.route disabled 0%nat = Ok (Toy.route, 0%nat).
Proof.
  eexists. split; [vm_compute; reflexivity|]. split; [vm_compute; reflexivity|].
  refine (restore_roundtrip Route Toy.route disabled 0%nat _ 0%nat _ _).
  - simpl. repeat (split || apply NoDup_cons_2 || apply NoDup_nil_2 || set_solver).
  - vm_compute. reflexivity.
Defined.

Lemma restore_shortcut_witness :
  restore_redacted_secrets Ssl (JObject [("key", JString "rotated")]) Toy.ssl disabled 0%nat
  = Ok (JObject [("key", JString "rotated")], 0%nat).
Proof. refine (restore_shortcut Ssl Toy.ssl disabled _ 0%nat _). vm_compute. reflexivity. Defined.

(** An unknown envelope version followed by two-byte characters panics. *)
Example decrypt_panics_example :
  panics (keyring_decrypt (ring ["a"%char]) "$pingsix-enc:v22$ééééé") = true.
Proof. vm_compute. reflexivity. Qed.

(** An inline upstream of a traffic-split plugin keeps its client key in the
    redacted view, where the same upstream of the route is masked. *)
Example traffic_split_client_key_not_redacted :
  let tls := JObject [("tls", JObject [("client_key", JString "K")])] in
  let rule := JObject [("weighted_upstreams", JArray [JObject [("upstream", tls)]])] in
  let split := JObject [("rules", JArray [rule])] in
  let route := JObject [("plugins", JObject [("traffic-split", split)]); ("upstream", tls)] in
  redact Route route disabled 0%nat
  = Ok (JObject [("plugins", JObject [("traffic-split", split)]);
                 ("upstream", JObject [("tls", JObject [("client_key", JString "***")])])], 0%nat).
Proof. vm_compute. reflexivity. Qed.
