(* ===== verification/GraphDecode.v ===== *)
(** * Graph decoding and CAS planning ([src/src/proxy/graph_mutation/decode.rs])

    Stored graphs to typed configuration sets, and the candidate validation
    that turns an Admin mutation into a guarded commit.  [serde_json] parsing
    and typed deserialisation are parameters. *)

From Stdlib Require Import ZArith Lia.
From stdpp Require Import base tactics gmap fin_maps strings option sets list.
From S2P Require Import Prelude Errors GraphStore Utf8 Hosts Json Config ConfigSet Encryption Secrets.

Open Scope Z_scope.

(** A typed resource of any kind. *)
Inductive Resource : Type :=
| RUpstream (u : Upstream.t)
| RService (s : Service.t)
| RGlobalRule (g : GlobalRule.t)
| RRoute (r : Route.t)
| RSsl (c : SSL.t).

(** [serde_json]: reading a document, and each derived [Deserialize]. *)
Class Serde : Type := {
  from_slice : string -> Result Json string;
  upstream_from_value : Json -> Result Upstream.t string;
  service_from_value : Json -> Result Service.t string;
  global_rule_from_value : Json -> Result GlobalRule.t string;
  route_from_value : Json -> Result Route.t string;
  ssl_from_value : Json -> Result SSL.t string;
  to_vec : Json -> Result string string;
}.

(** A walk that draws no nonce. *)
Definition run {A} (m : M A) : Result A (Stop ProxyError) := let? r := m 0%nat in Ok r.1.

(** [set.<kind>.insert(id, resource)] *)
Definition set_insert (i : string) (x : Resource) (set : ResourceConfigSet) : ResourceConfigSet :=
  match x with
  | RUpstream u => set <| upstreams := <[i := u]> (upstreams set) |>
  | RService s => set <| services := <[i := s]> (services set) |>
  | RGlobalRule g => set <| global_rules := <[i := g]> (global_rules set) |>
  | RRoute r => set <| routes := <[i := r]> (routes set) |>
  | RSsl c => set <| ssls := <[i := c]> (ssls set) |>
  end.

Definition set_lookup (key : ResourceKey) (set : ResourceConfigSet) : option Resource :=
  match kind key with
  | Upstream => RUpstream <$> upstreams set !! id key
  | Service => RService <$> services set !! id key
  | GlobalRule => RGlobalRule <$> global_rules set !! id key
  | Route => RRoute <$> routes set !! id key
  | Ssl => RSsl <$> ssls set !! id key
  end.

Section decode.
Context `{CipherSuite} `{Serde}.

(** [resource_from_stored]; the typo warning of the source only logs. *)
Definition resource_from_stored {T} (from_value : Json -> Result T string) (value : string)
    (kd : ResourceKind) (decrypt : bool) (k : KeyringService) : Result T (Stop ProxyError) :=
  let? json := map_err (fun e => Raise (serialization_error "Failed to parse resource JSON" e))
                 (from_slice value) in
  let? json := (if decrypt then run (transform_resource_secrets k kd json Decrypt) else Ok json) in
  map_err (fun e => Raise (serialization_error "Failed to deserialize resource" e)) (from_value json).

(** The typed resource of one stored entry, under the id of its key. *)
Definition decode_resource (key : ResourceKey) (value : string) (decrypt : bool) (k : KeyringService)
    : Result Resource (Stop ProxyError) :=
  match kind key with
  | Upstream =>
    let? r := resource_from_stored upstream_from_value value Upstream decrypt k in
    Ok (RUpstream (Upstream_set_id (id key) r))
  | Service =>
    let? r := resource_from_stored service_from_value value Service decrypt k in
    Ok (RService (Service_set_id (id key) r))
  | GlobalRule =>
    let? r := resource_from_stored global_rule_from_value value GlobalRule decrypt k in
    Ok (RGlobalRule (GlobalRule_set_id (id key) r))
  | Route =>
    let? r := resource_from_stored route_from_value value Route decrypt k in
    Ok (RRoute (Route_set_id (id key) r))
  | Ssl =>
    let? r := resource_from_stored ssl_from_value value Ssl decrypt k in
    Ok (RSsl (SSL_set_id (id key) r))
  end.

Definition insert_resource (set : ResourceConfigSet) (key : ResourceKey) (value : string)
    (decrypt : bool) (k : KeyringService) : Result ResourceConfigSet (Stop ProxyError) :=
  let? x := decode_resource key value decrypt k in
  Ok (set_insert (id key) x set).

Definition decode_graph (graph : StoredGraph) (mode : SecretMode) (k : KeyringService)
    : Result ResourceConfigSet (Stop ProxyError) :=
  try_fold (fun set (kr : ResourceKey * StoredResource) =>
    insert_resource set kr.1 (value kr.2) (bool_decide (mode = DecryptForRuntime)) k)
    ResourceConfigSet_default (map_to_list (resources graph)).

Context (PLUGIN_META : list PluginMeta).

(** [validate_stored_form] under the candidate error of the mutation. *)
Definition gate (wrap : ProxyError -> GraphError) (candidate : StoredGraph) (k : KeyringService)
    : Result ResourceConfigSet (Stop GraphError) :=
  let? set := map_raise wrap (decode_graph candidate PreserveStored k) in
  let? _ := map_err (fun e => Raise (wrap e)) (validate_stored_form PLUGIN_META set) in
  Ok set.

Definition plan_put_mutation (snapshot : StoredGraph) (key : ResourceKey) (stored_value : string)
    (k : KeyringService) : Result GraphCommit (Stop GraphError) :=
  let candidate := snapshot <| resources := <[key := {| value := stored_value; create_revision := 0;
                                                        mod_revision := 0 |}]> (resources snapshot) |> in
  let? _ := gate InvalidCandidate candidate k in
  Ok {| mutation := MutationPut key stored_value;
        expected_target_mod_revision := mod_revision <$> resources snapshot !! key;
        expected_guard_mod_revision := guard_mod_revision snapshot |}.

Definition plan_delete_mutation (snapshot : StoredGraph) (key : ResourceKey) (k : KeyringService)
    : Result GraphCommit (Stop GraphError) :=
  let? existing := ok_or (Raise (NotFound key)) (resources snapshot !! key) in
  let candidate := snapshot <| resources := delete key (resources snapshot) |> in
  let? _ := gate ReferentialConflict candidate k in
  Ok {| mutation := MutationDelete key;
        expected_target_mod_revision := Some (mod_revision existing);
        expected_guard_mod_revision := guard_mod_revision snapshot |}.

(** ** Decoding is a pointwise map *)

Lemma decode_resource_kind key v d k x :
  decode_resource key v d k = Ok x -> forall set,
  set_lookup key (set_insert (id key) x set) = Some x /\
  (forall key', key' <> key -> set_lookup key' (set_insert (id key) x set) = set_lookup key' set).
Proof.
  destruct key as [kd i]. unfold decode_resource; simpl. intros Hd set.
  destruct kd; apply and_then_ok in Hd as (r & _ & [= <-]); unfold set_lookup, set_insert; simpl;
    (split; [by rewrite lookup_insert_eq|]);
    intros [kd' i'] Hne; simpl; destruct kd'; simpl; try done;
    rewrite lookup_insert_ne by (intros <-; congruence); done.
Qed.

Definition decode_step (d : bool) (k : KeyringService) (set : ResourceConfigSet)
    (kr : ResourceKey * StoredResource) : Result ResourceConfigSet (Stop ProxyError) :=
  insert_resource set kr.1 (value kr.2) d k.

Lemma decode_list l set0 d k set :
  NoDup l.*1 -> try_fold (decode_step d k) set0 l = Ok set ->
  (forall key r, (key, r) ∈ l -> exists x, decode_resource key (value r) d k = Ok x /\ set_lookup key set = Some x) /\
  (forall key, key ∉ l.*1 -> set_lookup key set = set_lookup key set0).
Proof.
  revert set0; induction l as [|[key r] l IH]; intros set0; simpl.
  { intros _ [= <-]. split; [by intros ? ? ?%not_elem_of_nil | done]. }
  intros Hnd (s1 & Hs & Hf)%and_then_ok.
  change (NoDup (key :: l.*1)) in Hnd. apply NoDup_cons in Hnd as [Hni Hnd].
  unfold decode_step, insert_resource in Hs; simpl in Hs. apply and_then_ok in Hs as (x & Hx & [= <-]).
  pose proof (decode_resource_kind _ _ _ _ _ Hx set0) as [Hin Hout].
  destruct (IH _ Hnd Hf) as [Hall Hrest]. split.
  - intros key' r' [[= -> ->]|Hr]%elem_of_cons; [|by eauto].
    exists x. split; [done|]. by rewrite Hrest.
  - intros key' Hk. change (key' ∉ key :: l.*1) in Hk. rewrite elem_of_cons in Hk. rewrite Hrest by tauto. apply Hout. tauto.
Qed.

Lemma decode_list_total l set0 d k :
  (forall key r, (key, r) ∈ l -> is_ok (decode_resource key (value r) d k) = true) ->
  exists set, try_fold (decode_step d k) set0 l = Ok set.
Proof.
  revert set0; induction l as [|[key r] l IH]; intros set0 Hall; simpl; [eauto|].
  pose proof (Hall key r (list_elem_of_here _ _)) as Hx.
  unfold decode_step at 1, insert_resource; simpl.
  destruct (decode_resource key (value r) d k); [|done]. simpl.
  apply IH. intros. apply Hall. by apply list_elem_of_further.
Qed.

Lemma fmap_some_inj {A B} (f : A -> B) (x y : option A) :
  (forall a b, f a = f b -> a = b) -> f <$> x = f <$> y -> x = y.
Proof. intros Hf. destruct x, y; simpl; try done. intros [= H1%Hf]. by subst. Qed.

Lemma set_ext s1 s2 : (forall key, set_lookup key s1 = set_lookup key s2) -> s1 = s2.
Proof.
  intros Hk. destruct s1 as [u1 v1 g1 r1 c1], s2 as [u2 v2 g2 r2 c2].
  f_equal; apply map_eq; intros i.
  - apply (fmap_some_inj RUpstream); [congruence | exact (Hk {| kind := Upstream; id := i |})].
  - apply (fmap_some_inj RService); [congruence | exact (Hk {| kind := Service; id := i |})].
  - apply (fmap_some_inj RGlobalRule); [congruence | exact (Hk {| kind := GlobalRule; id := i |})].
  - apply (fmap_some_inj RRoute); [congruence | exact (Hk {| kind := Route; id := i |})].
  - apply (fmap_some_inj RSsl); [congruence | exact (Hk {| kind := Ssl; id := i |})].
Qed.

(** The abstract specification: the set is the graph, read pointwise. *)
Definition decodes (d : bool) (k : KeyringService) (rs : gmap ResourceKey string)
    (set : ResourceConfigSet) : Prop :=
  forall key, match rs !! key with
              | Some v => exists x, decode_resource key v d k = Ok x /\ set_lookup key set = Some x
              | None => set_lookup key set = None
              end.

Definition mode_decrypts (mode : SecretMode) : bool := bool_decide (mode = DecryptForRuntime).

Lemma decode_graph_spec g mode k set :
  decode_graph g mode k = Ok set <-> decodes (mode_decrypts mode) k (value <$> resources g) set.
Proof.
  unfold decode_graph. fold (mode_decrypts mode). set (d := mode_decrypts mode).
  change (try_fold (decode_step d k) ResourceConfigSet_default (map_to_list (resources g)) = Ok set <->
    decodes d k (value <$> resources g) set).
  assert (forall set', try_fold (decode_step d k) ResourceConfigSet_default (map_to_list (resources g)) = Ok set' ->
    decodes d k (value <$> resources g) set') as Hsound.
  { intros set' Hf. apply decode_list in Hf as [Hin Hout]; [|apply NoDup_fst_map_to_list].
    intros key. rewrite lookup_fmap. destruct (resources g !! key) as [r|] eqn:Hr; simpl.
    - apply Hin. by apply elem_of_map_to_list.
    - rewrite Hout; [by destruct key as [[] ?]|]. intros ([? r] & -> & Hr')%list_elem_of_fmap. simpl in *.
      apply elem_of_map_to_list in Hr'. congruence. }
  split; [apply Hsound|]. intros Hd.
  destruct (decode_list_total (map_to_list (resources g)) ResourceConfigSet_default d k) as [set' Hs'].
  { intros key r Hr%elem_of_map_to_list. specialize (Hd key). rewrite lookup_fmap, Hr in Hd.
    destruct Hd as (x & Hx & _). simpl in Hx. by rewrite Hx. }
  rewrite Hs'. f_equal. apply set_ext. intros key. specialize (Hsound _ Hs' key). specialize (Hd key).
  destruct ((value <$> resources g) !! key); [|congruence].
  destruct Hd as (? & ? & ->), Hsound as (? & ? & ->). congruence.
Qed.

(** ** The gate *)

(** Every commit the authority makes must leave a graph of this kind: it
    decodes, and the decoded set is valid with its references resolved. *)
Definition values_valid (k : KeyringService) (rs : gmap ResourceKey string) : Prop :=
  exists set, decodes false k rs set /\ graph_valid PLUGIN_META set.
Definition stored_valid (k : KeyringService) (g : StoredGraph) : Prop :=
  values_valid k (value <$> resources g).

Lemma gate_ok wrap g k set :
  gate wrap g k = Ok set <-> decodes false k (value <$> resources g) set /\ graph_valid PLUGIN_META set.
Proof.
  unfold gate. rewrite <- validate_config_set_spec, <- (decode_graph_spec g PreserveStored).
  unfold map_raise, validate_stored_form.
  destruct (decode_graph g PreserveStored k) as [s|]; simpl; [|by split; [|intros [? _]]].
  destruct (validate_config_set PLUGIN_META s) as [[]|] eqn:Hv; simpl; split;
    [intros [= <-]; by split | by intros [[= ->] _] | done | intros [[= ->] Hv']; congruence].
Qed.

Lemma decodes_keyring k k' rs set : decodes false k rs set -> decodes false k' rs set.
Proof.
  intros Hd key. specialize (Hd key). destruct (rs !! key); [|done].
  destruct Hd as (x & Hx & Hl). exists x. split; [|done]. rewrite <- Hx. by destruct key as [[] ?].
Qed.

Definition mutated (m : StoredMutation) (rs : gmap ResourceKey string) : gmap ResourceKey string :=
  match m with MutationPut key v => <[key := v]> rs | MutationDelete key => delete key rs end.

Lemma apply_mutation_values rev m rs : value <$> apply_mutation rev m rs = mutated m (value <$> rs).
Proof. destruct m; simpl; [by rewrite fmap_insert | by rewrite fmap_delete]. Qed.

Lemma plan_put_ok g key v k commit :
  plan_put_mutation g key v k = Ok commit <->
  values_valid k (<[key := v]> (value <$> resources g)) /\
  commit = {| mutation := MutationPut key v;
              expected_target_mod_revision := mod_revision <$> resources g !! key;
              expected_guard_mod_revision := guard_mod_revision g |}.
Proof.
  unfold plan_put_mutation, values_valid. rewrite and_then_ok. setoid_rewrite gate_ok; simpl.
  rewrite fmap_insert; simpl. naive_solver.
Qed.

Lemma plan_delete_ok g key k commit :
  plan_delete_mutation g key k = Ok commit <->
  values_valid k (delete key (value <$> resources g)) /\
  exists r, resources g !! key = Some r /\
  commit = {| mutation := MutationDelete key;
              expected_target_mod_revision := Some (mod_revision r);
              expected_guard_mod_revision := guard_mod_revision g |}.
Proof.
  unfold plan_delete_mutation, values_valid. rewrite and_then_ok. setoid_rewrite and_then_ok.
  setoid_rewrite gate_ok; simpl. rewrite fmap_delete.
  destruct (resources g !! key); simpl; naive_solver.
Qed.

(** The commit of an accepted plan, applied to the graph it was planned from,
    leaves a valid graph. *)
Definition planned (k : KeyringService) (g : StoredGraph) (commit : GraphCommit) : Prop :=
  values_valid k (mutated (mutation commit) (value <$> resources g)) /\
  expected_guard_mod_revision commit = guard_mod_revision g.

Lemma plan_put_planned g key v k commit : plan_put_mutation g key v k = Ok commit -> planned k g commit.
Proof. intros [? ->]%plan_put_ok. by split. Qed.
Lemma plan_delete_planned g key k commit : plan_delete_mutation g key k = Ok commit -> planned k g commit.
Proof. intros (? & r & ? & ->)%plan_delete_ok. by split. Qed.

(** ** Deletion and references *)

Definition set_delete (key : ResourceKey) (set : ResourceConfigSet) : ResourceConfigSet :=
  match kind key with
  | Upstream => set <| upstreams := delete (id key) (upstreams set) |>
  | Service => set <| services := delete (id key) (services set) |>
  | GlobalRule => set <| global_rules := delete (id key) (global_rules set) |>
  | Route => set <| routes := delete (id key) (routes set) |>
  | Ssl => set <| ssls := delete (id key) (ssls set) |>
  end.

Lemma set_delete_lookup key set key' :
  set_lookup key' (set_delete key set) = if decide (key' = key) then None else set_lookup key' set.
Proof.
  destruct key as [kd i], key' as [kd' i']. unfold set_lookup, set_delete; simpl.
  destruct kd, kd'; simpl; rewrite ?lookup_delete; repeat case_decide; simplify_eq/=; done.
Qed.

Lemma decodes_unique d k rs s1 s2 : decodes d k rs s1 -> decodes d k rs s2 -> s1 = s2.
Proof.
  intros H1 H2. apply set_ext. intros key. specialize (H1 key). specialize (H2 key).
  destruct (rs !! key); [|congruence]. destruct H1 as (? & ? & ->), H2 as (? & ? & ->). congruence.
Qed.

Lemma decodes_delete d k rs key set : decodes d k rs set -> decodes d k (delete key rs) (set_delete key set).
Proof.
  intros Hd key'. specialize (Hd key'). rewrite lookup_delete, set_delete_lookup.
  repeat case_decide; simplify_eq; done.
Qed.

(** Some plugin configuration names the upstream. *)
Definition plugin_names (i : string) (plugins : Plugins_map) : Prop :=
  exists name cfg refs, plugins !! name = Some cfg /\ plugin_upstream_refs PLUGIN_META name cfg = Ok refs /\ i ∈ refs.

Definition referenced (set : ResourceConfigSet) (key : ResourceKey) : Prop :=
  match kind key with
  | Upstream =>
    (exists j r, routes set !! j = Some r /\
       ((Route.upstream r = None /\ Route.upstream_id r = Some (id key)) \/ plugin_names (id key) (Route.plugins r))) \/
    (exists j s, services set !! j = Some s /\
       ((Service.upstream s = None /\ Service.upstream_id s = Some (id key)) \/ plugin_names (id key) (Service.plugins s))) \/
    (exists j g, global_rules set !! j = Some g /\ plugin_names (id key) (GlobalRule.plugins g))
  | Service => exists j r, routes set !! j = Some r /\ Route.service_id r = Some (id key)
  | _ => False
  end.

Lemma ref_ok_delete {A} (m : gmap string A) i o :
  ref_ok m o -> (ref_ok (delete i m) o <-> o <> Some i).
Proof.
  intros Ho. unfold ref_ok in *. split.
  - intros Hd ->. destruct (Hd i eq_refl) as [? Hx]. by rewrite lookup_delete_eq in Hx.
  - intros Hne j ->. rewrite lookup_delete_ne by congruence. by apply Ho.
Qed.

Lemma plugins_ok_delete us i p :
  plugins_ok PLUGIN_META us p -> (plugins_ok PLUGIN_META (delete i us) p <-> ~ plugin_names i p).
Proof.
  intros Ho. split.
  - intros Hd (name & cfg & refs & Hn & Hr & Hi). destruct (Hd _ _ Hn) as (_ & refs' & Hr' & Hall).
    rewrite Hr in Hr'. injection Hr' as <-. destruct (Hall i Hi) as [? Hx]. by rewrite lookup_delete_eq in Hx.
  - intros Hno name cfg Hn. destruct (Ho _ _ Hn) as (Hv & refs & Hr & Hall). split; [done|].
    exists refs. split; [done|]. intros j Hj. rewrite lookup_delete_ne; [by apply Hall|].
    intros <-. apply Hno. by exists name, cfg, refs.
Qed.

Lemma valid_delete_other key set :
  graph_valid PLUGIN_META set -> kind key <> Upstream -> kind key <> Service ->
  graph_valid PLUGIN_META (set_delete key set).
Proof.
  intros (Hu & Hs & Hg & Hr & Hc) H1 H2. destruct key as [kd i]. unfold set_delete, graph_valid; simpl in *.
  destruct kd; try done; simpl; split_and!; try done; intros j x [_ Hx]%lookup_delete_Some; eauto.
Qed.

Lemma valid_delete_upstream i set :
  graph_valid PLUGIN_META set ->
  (graph_valid PLUGIN_META (set_delete {| kind := Upstream; id := i |} set) <->
   ~ referenced set {| kind := Upstream; id := i |}).
Proof.
  intros (Hu & Hs & Hg & Hr & Hc). unfold graph_valid, set_delete, referenced; simpl. split.
  - intros (_ & Hs' & Hg' & Hr' & _) [(j & r & Hj & Href)|[(j & s & Hj & Href)|(j & g & Hj & Href)]].
    + destruct (Hr _ _ Hj) as (_ & _ & Hup & Hpl), (Hr' _ _ Hj) as (_ & _ & Hup' & Hpl').
      destruct Href as [[Hn Hid]|Href]; [|by apply (plugins_ok_delete _ _ _ Hpl) in Hpl'].
      exact (proj1 (ref_ok_delete _ i _ (Hup Hn)) (Hup' Hn) Hid).
    + destruct (Hs _ _ Hj) as (_ & Hup & Hpl), (Hs' _ _ Hj) as (_ & Hup' & Hpl').
      destruct Href as [[Hn Hid]|Href]; [|by apply (plugins_ok_delete _ _ _ Hpl) in Hpl'].
      exact (proj1 (ref_ok_delete _ i _ (Hup Hn)) (Hup' Hn) Hid).
    + exact (proj1 (plugins_ok_delete _ i _ (Hg _ _ Hj)) (Hg' _ _ Hj) Href).
  - intros Hno. split_and!; [|intros j s Hj|intros j g Hj|intros j r Hj|done].
    + intros j u [_ Hj]%lookup_delete_Some. by eapply Hu.
    + destruct (Hs _ _ Hj) as (? & Hup & Hpl). split_and!; [done| |].
      * intros Hn. apply ref_ok_delete; [by apply Hup|]. intros Hid. apply Hno. eauto 8.
      * apply plugins_ok_delete; [done|]. intros Hp. apply Hno. eauto 8.
    + apply plugins_ok_delete; [by eapply Hg|]. intros Hp. apply Hno. eauto 8.
    + destruct (Hr _ _ Hj) as (? & ? & Hup & Hpl). split_and!; [done..| |].
      * intros Hn. apply ref_ok_delete; [by apply Hup|]. intros Hid. apply Hno. eauto 8.
      * apply plugins_ok_delete; [done|]. intros Hp. apply Hno. eauto 8.
Qed.

Lemma valid_delete_service i set :
  graph_valid PLUGIN_META set ->
  (graph_valid PLUGIN_META (set_delete {| kind := Service; id := i |} set) <->
   ~ referenced set {| kind := Service; id := i |}).
Proof.
  intros (Hu & Hs & Hg & Hr & Hc). unfold graph_valid, set_delete, referenced; simpl. split.
  - intros (_ & _ & _ & Hr' & _) (j & r & Hj & Href).
    destruct (Hr _ _ Hj) as (_ & Hsv & _), (Hr' _ _ Hj) as (_ & Hsv' & _).
    exact (proj1 (ref_ok_delete _ i _ Hsv) Hsv' Href).
  - intros Hno. split_and!; [done| |done| |done].
    + intros j s [_ Hj]%lookup_delete_Some. by eapply Hs.
    + intros j r Hj. destruct (Hr _ _ Hj) as (? & Hsv & ? & ?). split_and!; [done| |done..].
      apply ref_ok_delete; [done|]. intros Hid. apply Hno. eauto.
Qed.

Lemma valid_delete key set :
  graph_valid PLUGIN_META set ->
  (graph_valid PLUGIN_META (set_delete key set) <-> ~ referenced set key).
Proof.
  intros Hv. destruct key as [[] i];
    [by apply valid_delete_upstream | by apply valid_delete_service|..];
    (split; [by intros _ [] | intros _; by apply valid_delete_other]).
Qed.

(** ** Properties *)

(** C10 (DELETE and references).  On a valid stored graph, planning a DELETE
    succeeds exactly when the key is stored and no other resource references
    it, directly or through a plugin; the commit then deletes that key under
    the revisions of the snapshot. *)
Theorem delete_respects_references g key k set :
  decode_graph g PreserveStored k = Ok set -> graph_valid PLUGIN_META set ->
  forall commit, plan_delete_mutation g key k = Ok commit <->
    ~ referenced set key /\ exists r, resources g !! key = Some r /\
    commit = {| mutation := MutationDelete key; expected_target_mod_revision := Some (mod_revision r);
                expected_guard_mod_revision := guard_mod_revision g |}.
Proof.
  intros Hd%decode_graph_spec Hv commit. rewrite plan_delete_ok, <- (valid_delete key set Hv).
  unfold values_valid. apply (decodes_delete _ _ _ key) in Hd. split.
  - intros [(set' & Hd' & Hv') Hr]. split; [|done]. by rewrite (decodes_unique _ _ _ _ _ Hd Hd').
  - intros [Hv' Hr]. split; [|done]. eauto.
Qed.

End decode.

(** ** Witnesses

    Toy documents: a document is its id, every upstream has one node and every
    route names the upstream [u1]. *)

Module ToySerde.

Definition doc (i : string) : Json := JObject [("id", JString i)].

Definition doc_id (v : Json) : Result string string :=
  match v with
  | JObject [(a, JString i)] => if bool_decide (a = "id") then Ok i else Err "unsupported"
  | _ => Err "unsupported"
  end.

#[export] Instance serde : Serde := {
  from_slice b := Ok (doc b);
  upstream_from_value v := let? i := doc_id v in Ok (demo_upstream i);
  service_from_value _ := Err "unsupported";
  global_rule_from_value _ := Err "unsupported";
  route_from_value v := let? i := doc_id v in Ok (demo_route i (Some "u1"));
  ssl_from_value _ := Err "unsupported";
  to_vec := doc_id;
}.

Lemma reads_back w b : to_vec w = Ok b -> from_slice b = Ok w.
Proof. change (doc_id w = Ok b -> @Ok Json string (doc b) = Ok w). unfold doc_id. repeat (case_match; try done). bool_to_prop. intros [= <-]. by subst. Qed.

Definition key_u1 : ResourceKey := {| kind := Upstream; id := "u1" |}.
Definition key_r1 : ResourceKey := {| kind := Route; id := "r1" |}.

Definition stored_at (i : string) (rev : Z) : StoredResource :=
  {| value := i; create_revision := rev; mod_revision := rev |}.
Definition graph : StoredGraph :=
  {| resources := <[key_u1 := stored_at "u1" 1]> {[ key_r1 := stored_at "r1" 2 ]};
     guard_mod_revision := Some 2; graph_revision := 2 |}.

End ToySerde.

Import Toy ToySerde.

Lemma delete_respects_references_witness :
  (forall commit, plan_delete_mutation [] graph key_u1 disabled <> Ok commit) /\
  exists commit, plan_delete_mutation [] graph key_r1 disabled = Ok commit.
Proof.
  assert (exists set, decode_graph graph PreserveStored disabled = Ok set /\ graph_valid [] set /\
    referenced [] set key_u1) as (set & Hd & Hv & Href).
  { eexists. split; [vm_compute; reflexivity|]. split.
    - apply validate_config_set_spec. vm_compute. reflexivity.
    - left. exists "r1", (demo_route "r1" (Some "u1")). split; [reflexivity|]. left. split; reflexivity. }
  split.
  - intros commit Hc.
    exact (proj1 (proj1 (delete_respects_references [] graph key_u1 disabled set Hd Hv commit) Hc) Href).
  - eexists. refine (proj2 (delete_respects_references [] graph key_r1 disabled set Hd Hv _) _).
    split; [by intros []|]. exists (stored_at "r1" 2). split; reflexivity.
Defined.
