(* ===== verification/Publication.v ===== *)
(** * The publication registry ([src/src/proxy/graph_mutation/state.rs])

    The bounded record of what became of each committed revision, and its
    outcome state machine. *)

From Stdlib Require Import ZArith Lia Sorted.
From stdpp Require Import base tactics gmap fin_maps fin_sets strings option sorting sets list.
From S2P Require Import Prelude OrderedMap.

Open Scope Z_scope.

Definition PUBLICATION_REGISTRY_CAPACITY : nat := 128.

Inductive PublicationState : Type := Pending | Published | Rejected | Superseded.
#[export] Instance PublicationState_eq_dec : EqDecision PublicationState.
Proof. solve_decision. Defined.

Record PublicationRecord : Type := { state : PublicationState; error : option string }.
#[export] Instance eta_PublicationRecord : Eta PublicationRecord := fun r =>
  Build_PublicationRecord (state r) (error r).

Record PublicationView : Type := {
  view_state : PublicationState;
  view_published_revision : option Z;
  view_error : option string;
}.

Record PublicationRegistry : Type := {
  records : gmap Z PublicationRecord;
  published_revision : option Z;
}.
#[export] Instance eta_PublicationRegistry : Eta PublicationRegistry := fun r =>
  Build_PublicationRegistry (records r) (published_revision r).

Definition PublicationRegistry_default : PublicationRegistry :=
  {| records := ∅; published_revision := None |}.

Definition settled (r : PublicationRecord) : bool := negb (bool_decide (state r = Pending)).

(** The revision [trim] removes next: the first that is not pending. *)
Definition victim (m : gmap Z PublicationRecord) : option Z :=
  fst <$> List.find (fun kr => settled kr.2) (in_order m).

(** The [while] loop of [trim]: every turn removes a record, so the number of
    records is fuel enough. *)
Fixpoint trim_loop (fuel : nat) (m : gmap Z PublicationRecord) : gmap Z PublicationRecord :=
  match fuel with
  | O => m
  | S fuel =>
    if (PUBLICATION_REGISTRY_CAPACITY <? size m)%nat then
      match victim m with
      | Some revision => trim_loop fuel (delete revision m)
      | None => m
      end
    else m
  end.

Definition trim (self : PublicationRegistry) : PublicationRegistry :=
  self <| records := trim_loop (size (records self)) (records self) |>.

Definition pending (revision : Z) (self : PublicationRegistry) : PublicationRegistry :=
  if revision >? 0 then
    let rs := match records self !! revision with
              | Some _ => records self
              | None => <[revision := {| state := Pending; error := None |}]> (records self)
              end in
    trim (self <| records := rs |>)
  else self.

Definition supersede_record (revision candidate : Z) (record : PublicationRecord) : PublicationRecord :=
  if negb (bool_decide (candidate = revision)) && bool_decide (state record = Pending)
  then {| state := Superseded; error := None |} else record.

Definition supersede_pending_except (revision : Z) (self : PublicationRegistry) : PublicationRegistry :=
  self <| records := map_imap (fun candidate r => Some (supersede_record revision candidate r)) (records self) |>.

Definition published (revision : Z) (self : PublicationRegistry) : PublicationRegistry :=
  let self := pending revision self in
  let self := self <| records := alter (fun _ => {| state := Published; error := None |}) revision (records self) |> in
  let self := self <| published_revision := Some revision |> in
  trim self.

Definition rejected (revision : Z) (err : string) (self : PublicationRegistry) : PublicationRegistry :=
  match records self !! revision with
  | Some record =>
    if bool_decide (state record = Pending)
    then self <| records := <[revision := {| state := Rejected; error := Some err |}]> (records self) |>
    else self
  | None => self
  end.

Definition view (revision : Z) (self : PublicationRegistry) : option PublicationView :=
  (fun record => {| view_state := state record; view_published_revision := published_revision self;
                    view_error := error record |}) <$> records self !! revision.

(** ** The eviction order *)

Definition all_pending (m : gmap Z PublicationRecord) : Prop :=
  forall r x, m !! r = Some x -> settled x = false.

Lemma victim_some m r : victim m = Some r ->
  (exists x, m !! r = Some x /\ settled x = true) /\
  (forall r' x, m !! r' = Some x -> settled x = true -> r <= r').
Proof.
  unfold victim. destruct (List.find _ _) as [[k x]|] eqn:E; [|done]. intros [= <-].
  apply find_first in E as (Hin & Hs & Hmin); [|apply in_order_sorted]. apply elem_of_in_order in Hin.
  split; [eauto|]. intros r' y Hy%elem_of_in_order Hf. by apply (Hmin _ Hy).
Qed.

Lemma victim_none m : victim m = None -> all_pending m.
Proof.
  unfold victim. destruct (List.find _ _) as [[k x]|] eqn:E; [done|]. intros _ r x Hr%elem_of_in_order.
  apply (List.find_none _ _ E (r, x)). by apply list_elem_of_In.
Qed.

(** What the loop leaves: a sub-map holding every pending record, short enough
    or pending throughout, from which older settled records went first. *)
Record trimmed (m m' : gmap Z PublicationRecord) : Prop := {
  trimmed_sub : m' ⊆ m;
  trimmed_pending r x : m !! r = Some x -> settled x = false -> m' !! r = Some x;
  trimmed_short : (size m' <= PUBLICATION_REGISTRY_CAPACITY)%nat \/ all_pending m';
  trimmed_oldest r x r' x' : m !! r = Some x -> m' !! r = None ->
    m' !! r' = Some x' -> settled x' = true -> r < r';
  trimmed_floor : (Nat.min PUBLICATION_REGISTRY_CAPACITY (size m) <= size m')%nat;
}.

Lemma trimmed_refl m :
  (size m <= PUBLICATION_REGISTRY_CAPACITY)%nat \/ all_pending m -> trimmed m m.
Proof. intros Hm. split; try done; [congruence | lia]. Qed.

Lemma trim_loop_spec fuel m : (size m <= fuel)%nat -> trimmed m (trim_loop fuel m).
Proof.
  revert m; induction fuel as [|fuel IH]; intros m Hf; simpl.
  { apply trimmed_refl. left. unfold PUBLICATION_REGISTRY_CAPACITY. lia. }
  destruct (_ <? size m)%nat eqn:E; [apply Nat.ltb_lt in E | apply Nat.ltb_ge in E].
  2:{ apply trimmed_refl. by left. }
  destruct (victim m) as [v|] eqn:Hv.
  2:{ apply trimmed_refl. right. by apply victim_none. }
  apply victim_some in Hv as [(x & Hx & Hs) Hmin].
  assert (size m = S (size (delete v m))) as Hsz.
  { rewrite <- (insert_delete_id m v x Hx) at 1. by rewrite map_size_insert_None by apply lookup_delete_eq. }
  destruct (IH (delete v m) ltac:(lia)) as [Hsub Hp Hsh Ho Hn]. split.
  - etrans; [exact Hsub | apply delete_subseteq].
  - intros r y Hr Hy. apply Hp; [|done]. rewrite lookup_delete_ne; [done|]. intros ->. congruence.
  - done.
  - intros r y r' y' Hr Hr0 Hr' Hy'. destruct (decide (r = v)) as [->|Hne].
    + pose proof (lookup_weaken _ _ _ _ Hr' Hsub) as Hd. apply lookup_delete_Some in Hd as [Hne Hd].
      specialize (Hmin _ _ Hd Hy'). lia.
    + eapply Ho; [|done..]. by rewrite lookup_delete_ne.
  - lia.
Qed.

Lemma trim_spec s : trimmed (records s) (records (trim s)).
Proof. by apply trim_loop_spec. Qed.

Lemma supersede_lookup rev s r :
  records (supersede_pending_except rev s) !! r = supersede_record rev r <$> records s !! r.
Proof. simpl. rewrite map_lookup_imap. by destruct (records s !! r). Qed.

(** ** Operation histories *)

Inductive RegistryOp : Type :=
| OpPending (revision : Z)
| OpSupersede (revision : Z)
| OpPublished (revision : Z)
| OpRejected (revision : Z) (err : string).

Definition registry_step (s : PublicationRegistry) (op : RegistryOp) : PublicationRegistry :=
  match op with
  | OpPending r => pending r s
  | OpSupersede r => supersede_pending_except r s
  | OpPublished r => published r s
  | OpRejected r e => rejected r e s
  end.

Definition record_wf (x : PublicationRecord) : Prop := is_Some (error x) <-> state x = Rejected.

Definition registry_wf (s : PublicationRegistry) : Prop :=
  map_Forall (fun _ x => record_wf x) (records s).

Lemma trimmed_lookup m m' r : trimmed m m' ->
  m' !! r = m !! r \/ (m' !! r = None /\ exists x, m !! r = Some x /\ settled x = true).
Proof.
  intros [Hsub Hp _ _ _]. destruct (m' !! r) as [y|] eqn:E.
  { left. symmetry. by eapply lookup_weaken. }
  destruct (m !! r) as [x|] eqn:Ex; [|by left]. right. split; [done|].
  destruct (settled x) eqn:Es; [eauto|]. rewrite (Hp _ _ Ex Es) in E. done.
Qed.

Lemma registry_wf_trim s : registry_wf s -> registry_wf (trim s).
Proof. intros Hwf r x Hx. eapply Hwf, lookup_weaken, trimmed_sub, trim_spec. done. Qed.

Lemma pending_lookup r s r' x : records s !! r' = Some x ->
  records (pending r s) !! r' = Some x \/ (records (pending r s) !! r' = None /\ settled x = true).
Proof.
  intros Hx. unfold pending. destruct (r >? 0); [|by left].
  set (s1 := s <| records := _ |>).
  assert (records s1 !! r' = Some x) as Hx1.
  { unfold s1; simpl. destruct (records s !! r) eqn:E; [done|].
    rewrite lookup_insert_ne; [done|]. intros ->. congruence. }
  destruct (trimmed_lookup _ _ r' (trim_spec s1)) as [->|(-> & y & Hy & Hs)]; [by left|].
  right. split; [done|]. congruence.
Qed.

Lemma registry_step_wf s op : registry_wf s -> registry_wf (registry_step s op).
Proof.
  assert (forall r s, registry_wf s -> registry_wf (pending r s)) as Hp.
  { clear. intros r s Hwf. unfold pending. destruct (r >? 0); [|done]. apply registry_wf_trim.
    unfold registry_wf; simpl. case_match; [done|]. apply map_Forall_insert_2; [|done].
    unfold record_wf; simpl. by split; [intros []|]. }
  intros Hwf. destruct op; simpl; [by apply Hp| | |].
  - intros r x. change (records (supersede_pending_except revision s) !! r = Some x -> record_wf x).
    rewrite supersede_lookup. destruct (records s !! r) as [y|] eqn:Hy; simpl; [|done].
    intros [= <-]. unfold supersede_record. case_match; [by split; [intros []|]|]. by apply (Hwf r).
  - apply registry_wf_trim. intros r x. simpl.
    destruct (decide (revision = r)) as [->|Hne]; [rewrite lookup_alter_eq|rewrite lookup_alter_ne by done].
    + destruct (records (pending r s) !! r); simpl; [|done]. intros [= <-]. by split; [intros []|].
    + apply (Hp revision s Hwf).
  - unfold rejected. case_match; [|done]. case_bool_decide; [|done].
    apply map_Forall_insert_2; [|done]. split; simpl; [done|by eexists].
Qed.

(** ** Properties *)

(** Outcomes are stable.  A pending revision leaves that state only by
    being superseded by another submission, rejected, or published under its
    own revision, and is never evicted otherwise; a settled outcome changes
    only if that revision publishes, and may age out. *)
Theorem publication_outcome_stable s op r x :
  records s !! r = Some x -> op <> OpPublished r ->
  records (registry_step s op) !! r =
    match op with
    | OpSupersede r' => Some (supersede_record r' r x)
    | OpRejected r' e => if bool_decide (r' = r /\ state x = Pending)
                         then Some {| state := Rejected; error := Some e |} else Some x
    | _ => Some x
    end
  \/ (records (registry_step s op) !! r = None /\ settled x = true).
Proof.
  intros Hx Hop. destruct op; cbn [registry_step].
  - by apply pending_lookup.
  - left. by rewrite supersede_lookup, Hx.
  - unfold published. cbv zeta. match goal with |- records (trim ?s1) !! _ = _ \/ _ => set (s1' := s1) end.
    assert (records s1' !! r = records (pending revision s) !! r) as E.
    { unfold s1'; simpl. rewrite lookup_alter_ne; [done|congruence]. }
    destruct (trimmed_lookup _ _ r (trim_spec s1')) as [->|(-> & y & Hy & Hs)]; rewrite E in *.
    + by apply pending_lookup.
    + right. split; [done|]. destruct (pending_lookup revision s r x Hx) as [|[? _]]; congruence.
  - left. unfold rejected. destruct (decide (revision = r)) as [->|Hne].
    + rewrite Hx. destruct (decide (state x = Pending)) as [Hp|Hp].
      * rewrite !bool_decide_true by done. simpl. by rewrite lookup_insert_eq.
      * rewrite !bool_decide_false by tauto. done.
    + rewrite (bool_decide_false (revision = r /\ _)) by tauto.
      case_match; [|done]. case_bool_decide; [|done]. simpl. by rewrite lookup_insert_ne.
Qed.

Definition demo_history : PublicationRegistry :=
  foldl registry_step PublicationRegistry_default
    [OpPending 5; OpPending 7; OpPublished 7; OpPending 9; OpRejected 9 "candidate rejected"].

Lemma publication_outcome_stable_witness :
  records demo_history !! 5 = Some {| state := Pending; error := None |} /\
  (records (registry_step demo_history (OpSupersede 9)) !! 5 =
     Some (supersede_record 9 5 {| state := Pending; error := None |}) \/
   (records (registry_step demo_history (OpSupersede 9)) !! 5 = None /\
    settled {| state := Pending; error := None |} = true)).
Proof.
  split; [vm_compute; reflexivity|].
  apply (publication_outcome_stable demo_history (OpSupersede 9) 5 {| state := Pending; error := None |});
    [vm_compute; reflexivity | discriminate].
Defined.

(** The number of pending records other than that of [r]. *)
Definition others_pending (r : Z) (s : PublicationRegistry) : nat :=
  size (filter (fun kx : Z * PublicationRecord => kx.1 <> r /\ settled kx.2 = false) (records s)).

Lemma trimmed_keeps m m' r x :
  trimmed m m' -> m !! r = Some x ->
  (forall r' y, m !! r' = Some y -> settled y = true -> r' <= r) ->
  (size (filter (fun kx : Z * PublicationRecord => kx.1 <> r /\ settled kx.2 = false) m)
     < PUBLICATION_REGISTRY_CAPACITY)%nat ->
  m' !! r = Some x.
Proof.
  intros [Hsub Hp Hsh Ho Hfl] Hx Hold Hfew.
  destruct (m' !! r) as [y|] eqn:E.
  { rewrite <- Hx. symmetry. by eapply lookup_weaken. }
  exfalso. set (f := fun kx : Z * PublicationRecord => kx.1 <> r /\ settled kx.2 = false) in *.
  assert (m' ⊆ filter f m) as Hall.
  { apply map_subseteq_spec. intros k y Hy. apply map_lookup_filter_Some. pose proof (lookup_weaken _ _ _ _ Hy Hsub) as Hy'.
    split; [done|]. unfold f; simpl. split; [intros ->; congruence|].
    destruct (settled y) eqn:Es; [|done]. specialize (Ho _ _ _ _ Hx E Hy Es). specialize (Hold _ _ Hy' Es). lia. }
  assert (m' ⊂ m) as Hlt.
  { split; [done|]. intros Hge. pose proof (lookup_weaken _ _ _ _ Hx Hge). congruence. }
  apply map_subseteq_size in Hall as Hs. pose proof (map_subset_size _ _ Hlt) as Hs2.
  unfold PUBLICATION_REGISTRY_CAPACITY in *. lia.
Qed.

(** A publication is reported.  When the runtime publishes a revision and
    every settled record is at most that revision (revisions are published in
    order), its record reads Published, with no error and with the revision as
    the last published one, unless 128 other revisions are waiting. *)
Theorem published_is_visible r s :
  0 < r ->
  (forall r' y, records s !! r' = Some y -> settled y = true -> r' <= r) ->
  (others_pending r s < PUBLICATION_REGISTRY_CAPACITY)%nat ->
  view r (published r s) =
    Some {| view_state := Published; view_published_revision := Some r; view_error := None |}.
Proof.
  intros Hr Hold Hfew. set (done := {| state := Published; error := None |}).
  assert (exists x, records (pending r s) !! r = Some x) as [x Hx].
  { unfold pending. rewrite (proj2 (Z.gtb_lt r 0) Hr).
    match goal with |- context [trim ?s1] => set (s2 := s1) end.
    assert (exists x, records s2 !! r = Some x) as [x Hx].
    { unfold s2; simpl. destruct (records s !! r) eqn:E; [eauto|]. rewrite lookup_insert_eq. eauto. }
    exists x. apply (trimmed_keeps (records s2) _ r); [apply trim_spec|done|..]; unfold s2; simpl.
    - intros r' y. case_match; [apply Hold|]. intros [[<- <-]|[_ Hy]]%lookup_insert_Some; [by unfold settled|by apply Hold].
    - case_match; [done|]. rewrite map_filter_insert_False by naive_solver.
      rewrite delete_id by done. done. }
  unfold published, view; cbv zeta. match goal with |- context [trim ?s1] => set (s2 := s1) end.
  assert (forall k y, k <> r -> records (pending r s) !! k = Some y -> records s !! k = Some y) as Hsub.
  { intros k y Hk. unfold pending. rewrite (proj2 (Z.gtb_lt r 0) Hr).
    match goal with |- context [trim ?s1] => set (s3 := s1) end.
    intros Hy. pose proof (lookup_weaken _ _ _ _ Hy (trimmed_sub _ _ (trim_spec s3))) as Hy3.
    unfold s3 in Hy3; simpl in Hy3. case_match; [done|]. by rewrite lookup_insert_ne in Hy3. }
  assert (records (trim s2) !! r = Some done) as ->; [|done].
  apply (trimmed_keeps (records s2) _ r); [apply trim_spec|unfold s2; simpl; by rewrite lookup_alter_eq, Hx|..].
  - intros r' y. unfold s2; simpl. destruct (decide (r' = r)) as [->|Hne]; [intros; lia|].
    rewrite lookup_alter_ne by done. intros Hy. by apply (Hold r' y), Hsub.
  - eapply Nat.le_lt_trans; [|exact Hfew]. apply map_subseteq_size, map_subseteq_spec.
    intros k y [Hy [Hk Hs]]%map_lookup_filter_Some. apply map_lookup_filter_Some. split; [|done].
    apply Hsub; [done|]. unfold s2 in Hy; simpl in Hy, Hk. by rewrite lookup_alter_ne in Hy.
Qed.

Lemma published_is_visible_witness :
  view 12 (published 12 demo_history) =
    Some {| view_state := Published; view_published_revision := Some 12; view_error := None |}.
Proof.
  apply (published_is_visible 12 demo_history).
  - reflexivity.
  - intros r' y Hy _. revert r' y Hy.
    change (map_Forall (fun r' _ => r' <= 12) (records demo_history)).
    apply (bool_decide_unpack _). vm_compute. exact I.
  - vm_compute. lia.
Defined.

(** The bound: recording leaves at most 128 records, or only waiting ones. *)
Lemma pending_bounded r s : 0 < r ->
  (size (records (pending r s)) <= PUBLICATION_REGISTRY_CAPACITY)%nat \/ all_pending (records (pending r s)).
Proof.
  intros Hr. unfold pending. rewrite (proj2 (Z.gtb_lt r 0) Hr). exact (trimmed_short _ _ (trim_spec _)).
Qed.

(** A revision recorded after the submission that overtook it stays pending:
    nothing supersedes it until the next submission. *)
Example late_record_stays_pending :
  view 6 (foldl registry_step PublicationRegistry_default
    [OpPending 8; OpSupersede 8; OpPublished 8; OpPending 6]) =
  Some {| view_state := Pending; view_published_revision := Some 8; view_error := None |}.
Proof. vm_compute. reflexivity. Qed.
