(* ===== verification/AdminOps.v ===== *)
(** * Admin operations of the graph authority ([src/src/proxy/graph_mutation/authority.rs])

    GET, LIST, PUT and DELETE against the store seam, with the validation of a
    resource document, and its TLS material, that precedes a PUT.  OpenSSL and
    serde are parameters; the store is any implementation of the seam. *)

From Stdlib Require Import ZArith Lia Ascii.
From stdpp Require Import base tactics gmap fin_maps strings option sorting sets list.
From S2P Require Import Prelude Errors GraphStore Utf8 Hosts Json Config ConfigSet Encryption Secrets.
From S2P Require Import GraphDecode Publication.

Open Scope Z_scope.

(** OpenSSL, as the program calls it. *)
Class OpenSsl : Type := {
  X509 : Type;
  PKey : Type;
  stack_from_pem : string -> Result (list X509) string;
  x509_from_pem : string -> Result X509 string;
  private_key_from_pem : string -> Result PKey string;
  public_key : X509 -> Result PKey string;
  public_eq : PKey -> PKey -> bool;
}.

Section tls.
Context `{OpenSsl}.

(** [load_client_cert_key] up to the construction of the [CertKey]. *)
Definition load_client_cert_key (tls_config : UpstreamTls.t) : Result (list X509 * PKey) ProxyError :=
  let? certificates := map_err Pingora (stack_from_pem (UpstreamTls.client_cert tls_config)) in
  match certificates with
  | [] => Err (Configuration "No certificates found in client_cert")
  | leaf :: _ =>
    let? private_key := map_err Pingora (private_key_from_pem (UpstreamTls.client_key tls_config)) in
    let? leaf_public := map_err (fun e => Configuration ("Failed to read client certificate public key: " +:+ e))
                          (public_key leaf) in
    if negb (public_eq leaf_public private_key)
    then Err (Configuration "Upstream client certificate and private key do not match")
    else Ok (certificates, private_key)
  end.

Definition validate_client_tls_material (tls_config : UpstreamTls.t) : Result unit ProxyError :=
  let? _ := load_client_cert_key tls_config in Ok ().

Definition validate_upstream_tls_material (upstream : Upstream.t) : Result unit ProxyError :=
  match Upstream.tls upstream with
  | Some tls => validate_client_tls_material tls
  | None => Ok ()
  end.

Fixpoint count_char (c : ascii) (s : string) : nat :=
  match s with
  | EmptyString => 0
  | String c' s' => (if bool_decide (c = c') then 1 else 0) + count_char c s'
  end%nat.

Definition ends_with_char (c : ascii) (s : string) : bool :=
  match String.length s with
  | O => false
  | S n => bool_decide (String.get n s = Some c)
  end.

(** The wildcard test of [ProxySSL::try_from] on one SNI. *)
Definition sni_supported (sni : string) : bool :=
  let wildcard_count := count_char "*"%char sni in
  let valid_wildcard :=
    bool_decide (sni = "*") ||
    ((wildcard_count =? 1)%nat && starts_with sni "*." && (2 <? String.length sni)%nat
     && negb (starts_with (String.substring 2 (String.length sni - 2) sni) ".")
     && negb (ends_with_char "."%char sni)) in
  negb ((0 <? wildcard_count)%nat && negb valid_wildcard).

Record ProxySSL : Type := { ssl_inner : SSL.t; parsed_cert : X509; parsed_key : PKey }.

Definition ProxySSL_try_from (value : SSL.t) : Result ProxySSL ProxyError :=
  let of_id := "for '" +:+ SSL.id value +:+ "'" in
  let? _ := try_for_each (fun sni =>
              if sni_supported sni then Ok ()
              else Err (Configuration ("Unsupported TLS wildcard SNI '" +:+ sni +:+ "' " +:+ of_id
                     +:+ "; use '*' or '*.example.com'"))) (SSL.snis value) in
  let? cert := map_err (fun e => Configuration ("Failed to parse cert " +:+ of_id +:+ ": " +:+ e))
                 (x509_from_pem (SSL.cert value)) in
  let? key := map_err (fun e => Configuration ("Failed to parse key " +:+ of_id +:+ ": " +:+ e))
                (private_key_from_pem (SSL.key value)) in
  let? pub := map_err (fun e => Configuration ("Failed to read certificate public key " +:+ of_id +:+ ": " +:+ e))
                (public_key cert) in
  if negb (public_eq pub key)
  then Err (Configuration ("TLS certificate and private key do not match " +:+ of_id))
  else Ok {| ssl_inner := value; parsed_cert := cert; parsed_key := key |}.

End tls.

Record ResourceView : Type := {
  rv_key : ResourceKey;
  rv_value : Json;
  rv_create_revision : Z;
  rv_mod_revision : Z;
}.

(** The order [list] sorts by: the ids, byte by byte. *)
Definition view_id (v : ResourceView) : string := id (rv_key v).
Definition view_le : ResourceView -> ResourceView -> Prop := Hosts.key_le str_cmp view_id.
#[export] Instance view_le_dec : RelDecision view_le.
Proof. intros a b. unfold view_le, Hosts.key_le. apply _. Defined.
#[export] Instance view_le_total : Total view_le := Hosts.key_le_total str_cmp view_id.
#[export] Instance view_le_trans : Transitive view_le := Hosts.key_le_trans str_cmp view_id.

Section admin.
Context {St : Type} `{GraphStore St} `{CipherSuite} `{Serde} `{OpenSsl}.
Context (PLUGIN_META : list PluginMeta) (kr : KeyringService).

(** The parts of [Inner] the Admin operations touch: the store, the
    publication registry and the nonces drawn so far. *)
Record Gateway : Type := { gw_store : St; publications : PublicationRegistry; nonces : nat }.

Definition parse_stored_resource (key : ResourceKey) (value : string) : Result Json (Stop GraphError) :=
  map_err (fun e => Raise (InvalidResource key (serialization_error "Failed to parse stored resource" e)))
    (from_slice value).

(** *** Document validation *)

Definition validate_plugins (plugins : Plugins_map) : Result unit ProxyError :=
  try_for_each (fun nv : string * Json =>
    map_err (fun e => PluginError ("Failed to validate plugin '" +:+ nv.1 +:+ "': " +:+ ProxyError_to_string e))
      (validate_plugin_config PLUGIN_META nv.1 nv.2)) (map_to_list plugins).

Definition deserialize {T} (r : Result T string) : Result T ProxyError :=
  map_err (serialization_error "Failed to deserialize resource JSON") r.

(** [resource.validate()?]; the report's text is not modelled. *)
Definition validated (valid : bool) : Result unit ProxyError :=
  if valid then Ok () else Err (ValidationStructured "").

Definition validate_inline (upstream : option Upstream.t) : Result unit ProxyError :=
  match upstream with Some u => validate_upstream_tls_material u | None => Ok () end.

Definition validate_resource_json (kd : ResourceKind) (value : Json) : Result unit ProxyError :=
  match kd with
  | Upstream =>
    let? resource := deserialize (upstream_from_value value) in
    let? _ := validated (Upstream.validate resource) in
    validate_upstream_tls_material resource
  | Service =>
    let? resource := deserialize (service_from_value value) in
    let? _ := validated (Service.validate resource) in
    let? _ := validate_plugins (Service.plugins resource) in
    validate_inline (Service.upstream resource)
  | GlobalRule =>
    let? resource := deserialize (global_rule_from_value value) in
    let? _ := validated (GlobalRule.validate resource) in
    validate_plugins (GlobalRule.plugins resource)
  | Route =>
    let? resource := deserialize (route_from_value value) in
    let? _ := validated (Route.validate resource) in
    let? _ := validate_plugins (Route.plugins resource) in
    validate_inline (Route.upstream resource)
  | Ssl =>
    let? resource := deserialize (ssl_from_value value) in
    let? _ := validated (SSL.validate resource) in
    let? _ := ProxySSL_try_from resource in
    Ok ()
  end.

(** *** Reads *)

(** Decrypt, then redact, one stored resource. *)
Definition read_view (key : ResourceKey) (resource : StoredResource) : Result ResourceView (Stop GraphError) :=
  let? json := parse_stored_resource key (value resource) in
  let? json := map_raise (Secret key OpDecrypt) (run (decrypt_for_read (kind key) json kr)) in
  let? json := map_raise (Secret key OpRedact) (run (redact (kind key) json kr)) in
  Ok {| rv_key := key; rv_value := json; rv_create_revision := create_revision resource;
        rv_mod_revision := mod_revision resource |}.

Definition get (key : ResourceKey) (gw : Gateway) : Result (option ResourceView) (Stop GraphError) :=
  let? resource := map_err (fun e => Raise (Store e)) (get_exact key (gw_store gw)) in
  match resource with
  | None => Ok None
  | Some resource => let? view := read_view key resource in Ok (Some view)
  end.

Definition list_views (kd : ResourceKind) (gw : Gateway) : Result (list ResourceView) (Stop GraphError) :=
  let? rs := map_err (fun e => Raise (Store e)) (list_kind kd (gw_store gw)) in
  let? views := try_fold (fun views (kr : ResourceKey * StoredResource) =>
                  let? view := read_view kr.1 kr.2 in Ok (views ++ [view])%list) [] rs in
  Ok (merge_sort view_le views).

(** *** PUT *)

(** The path id is the identity of the resource. *)
Definition normalize_id (key : ResourceKey) (value : Json) : Result Json (Stop GraphError) :=
  let body_id := json_get "id" value ≫= as_str in
  if bool_decide (body_id = Some (id key)) then Ok value
  else json_index_assign "id" (JString (id key)) value.

Definition restore_secrets (snapshot : StoredGraph) (key : ResourceKey) (value : Json)
    : Result Json (Stop GraphError) :=
  if contains_redaction_sentinel value then
    match resources snapshot !! key with
    | Some stored =>
      let? existing := parse_stored_resource key (GraphStore.value stored) in
      let? existing := map_raise (Secret key OpRestore) (run (decrypt_for_read (kind key) existing kr)) in
      map_raise (Secret key OpRestore) (run (restore_redacted_secrets (kind key) value existing kr))
    | None => Ok value
    end
  else Ok value.

(** The document a PUT means: identity normalised, secrets restored. *)
Definition logical_document (snapshot : StoredGraph) (key : ResourceKey) (value : Json)
    : Result Json (Stop GraphError) :=
  let? value := normalize_id key value in
  restore_secrets snapshot key value.

(** [put] from the snapshot to the planned commit. *)
Definition prepare_put (snapshot : StoredGraph) (key : ResourceKey) (value : Json) (n : nat)
    : Result (GraphCommit * nat) (Stop GraphError) :=
  let? value := logical_document snapshot key value in
  let? _ := map_err (fun e => Raise (InvalidResource key e)) (validate_resource_json (kind key) value) in
  let? stored := map_raise (Secret key OpEncrypt) (encrypt_for_storage to_vec (kind key) value kr n) in
  let? commit := plan_put_mutation PLUGIN_META snapshot key stored.1 kr in
  Ok (commit, stored.2).

(** The compare-and-swap and the registration that end [put] and [delete]. *)
Definition commit_mutation (commit : GraphCommit) (gw : Gateway) : Result Z (Stop GraphError) * Gateway :=
  let r := compare_and_swap commit (gw_store gw) in
  match r.1 with
  | Err e => (Err (Raise (map_store_error e)),
              {| gw_store := r.2; publications := publications gw; nonces := nonces gw |})
  | Ok rev => (Ok rev, {| gw_store := r.2; publications := pending rev (publications gw); nonces := nonces gw |})
  end.

Definition put (key : ResourceKey) (value : Json) (gw : Gateway) : Result Z (Stop GraphError) * Gateway :=
  match snapshot (gw_store gw) with
  | Err e => (Err (Raise (Store e)), gw)
  | Ok g =>
    match prepare_put g key value (nonces gw) with
    | Err e => (Err e, gw)
    | Ok (commit, n) =>
      commit_mutation commit {| gw_store := gw_store gw; publications := publications gw; nonces := n |}
    end
  end.

Definition delete (key : ResourceKey) (gw : Gateway) : Result Z (Stop GraphError) * Gateway :=
  match snapshot (gw_store gw) with
  | Err e => (Err (Raise (Store e)), gw)
  | Ok g =>
    match plan_delete_mutation PLUGIN_META g key kr with
    | Err e => (Err e, gw)
    | Ok commit => commit_mutation commit gw
    end
  end.

Lemma prepare_put_ok g key value n commit n' :
  prepare_put g key value n = Ok (commit, n') ->
  exists v bytes, logical_document g key value = Ok v /\
    validate_resource_json (kind key) v = Ok () /\
    encrypt_for_storage to_vec (kind key) v kr n = Ok (bytes, n') /\
    plan_put_mutation PLUGIN_META g key bytes kr = Ok commit.
Proof.
  unfold prepare_put. intros (v & Hv & H')%and_then_ok. apply and_then_ok in H' as ([] & Hval & H').
  apply and_then_ok in H' as ([bytes i] & He & H'). apply and_then_ok in H' as (c & Hc & [= -> ->]).
  exists v, bytes. split; [done|]. split.
  - by destruct (validate_resource_json (kind key) v) as [[]|].
  - split; [|done]. unfold map_raise in He.
    by destruct (encrypt_for_storage to_vec (kind key) v kr n) as [[]|]; simplify_eq/=.
Qed.

End admin.
Arguments Gateway : clear implicits.

(** ** Properties *)

Section properties.
Context {St : Type} `{GraphStoreLaws St} `{CipherLaws} `{Serde} `{OpenSsl}.
Context (PLUGIN_META : list PluginMeta).

(** The service in use: no encryption, or at least one key. *)
Definition usable (kr : KeyringService) : Prop :=
  match keyring kr with Some ring => keys ring <> [] | None => True end.

Lemma storage_inverse kr kd v n bytes n' :
  usable kr -> (forall w b, to_vec w = Ok b -> from_slice b = Ok w) ->
  secrets_plain kd v = true ->
  encrypt_for_storage to_vec kd v kr n = Ok (bytes, n') ->
  exists w, from_slice bytes = Ok w /\ run (decrypt_for_read kd w kr) = Ok v.
Proof.
  intros Hu Hserde Hp (w & i & Hw & Hb)%bind_ok.
  destruct (to_vec w) as [b|] eqn:E; [|done]. injection Hb as -> ->.
  exists w. split; [by apply Hserde|]. unfold run, decrypt_for_read. destruct kr as [[[[|k ks]]|]]; simpl in *.
  - done.
  - pose proof (transform_inverse kd k ks [] ks v n w n' 0%nat ltac:(by intros ? ?%not_elem_of_nil) Hp Hw) as E'.
    simpl in E'. by rewrite E'.
  - by injection Hw as -> ->.
Qed.

(** Whatever the secrets look like, a stored document that decrypts shows the
    redaction of the document that was stored. *)
Lemma storage_redacts kr kd v n bytes n' w w' :
  (forall w b, to_vec w = Ok b -> from_slice b = Ok w) ->
  encrypt_for_storage to_vec kd v kr n = Ok (bytes, n') ->
  from_slice bytes = Ok w -> run (decrypt_for_read kd w kr) = Ok w' ->
  redact kd w' kr 0%nat = redact kd v kr 0%nat.
Proof.
  intros Hserde (w0 & i & Hw & Hb)%bind_ok Hs Hd. destruct (to_vec w0) as [b|] eqn:E; [|done]. injection Hb as -> ->.
  rewrite (Hserde _ _ E) in Hs. injection Hs as ->. unfold run, decrypt_for_read in Hd.
  destruct (keyring_is_enabled kr).
  - destruct (transform_resource_secrets kr kd w Decrypt 0%nat) as [[w1 j]|] eqn:Ed; [|done]. injection Hd as ->.
    unfold transform_resource_secrets in *. rewrite (redact_absorbs kd _ w 0%nat w' j kr 0%nat Ed). by eapply redact_absorbs.
  - injection Hw as -> ->. by injection Hd as ->.
Qed.

(** PUT plans from the contents; the commit is one the store can hold. *)
Lemma planned_put_admissible st key value n commit n' kr :
  store_wf st -> key_stored key -> prepare_put PLUGIN_META kr (contents st) key value n = Ok (commit, n') ->
  mutation_key (mutation commit) = key /\ admissible commit.
Proof.
  intros Hwf Hk (v & bytes & _ & _ & _ & [_ ->]%plan_put_ok)%prepare_put_ok. split; [done|]. split; [done|].
  destruct (contents_positive st Hwf) as [Hg Hr]. split; [|done]. cbn. intros r Hr'.
  destruct (resources (contents st) !! key) as [res|] eqn:E; [|done]. injection Hr' as <-. by apply Hr in E as [_ ?].
Qed.

Lemma planned_delete_admissible st key commit kr :
  store_wf st -> plan_delete_mutation PLUGIN_META (contents st) key kr = Ok commit ->
  mutation_key (mutation commit) = key /\ admissible commit.
Proof.
  intros Hwf (_ & res & E & ->)%plan_delete_ok. destruct (contents_positive st Hwf) as [Hg Hr].
  apply Hr in E as [Hk Hp]. split; [done|]. split; [done|]. split; [by intros r [= <-]|done].
Qed.

Lemma commit_mutation_ok commit (gw : Gateway St) rev gw' :
  store_wf (gw_store gw) -> admissible commit -> commit_mutation commit gw = (Ok rev, gw') ->
  store_wf (gw_store gw') /\ commits commit rev (contents (gw_store gw)) (contents (gw_store gw')) /\
  publications gw' = pending rev (publications gw).
Proof.
  unfold commit_mutation. intros Hwf [Hk Hp]. destruct (compare_and_swap commit (gw_store gw)) as [[r|e] s'] eqn:E; [|done].
  simpl. intros [= <- <-]. simpl. by apply (cas_ok _ _ _ _ Hwf Hk Hp) in E as [? ?].
Qed.

(** C5 (a PUT is read back, redacted).  After a successful PUT, GET of the key
    returns the redaction of the document the PUT meant (path id, secrets
    restored from the stored resource), at the committed revision, whichever
    store implementation is behind the seam.  The one exception is a secret
    that is itself shaped like an encryption envelope while encryption is on:
    such a secret is stored as it is, and if it does not decrypt, GET fails. *)
Theorem put_then_get kr key value (gw gw' : Gateway St) rev :
  usable kr -> (forall w b, to_vec w = Ok b -> from_slice b = Ok w) ->
  store_wf (gw_store gw) -> key_stored key ->
  put PLUGIN_META kr key value gw = (Ok rev, gw') ->
  (forall e, get_exact key (gw_store gw') <> Err e) ->
  exists v m c, logical_document kr (contents (gw_store gw)) key value = Ok v /\
    redact (kind key) v kr 0%nat = Ok (m, 0%nat) /\
    (get kr key gw' = Ok (Some {| rv_key := key; rv_value := m; rv_create_revision := c; rv_mod_revision := rev |}) \/
     (secrets_plain (kind key) v = false /\ keyring_is_enabled kr = true /\
      exists e, get kr key gw' = Err (map_stop (Secret key OpDecrypt) e))).
Proof.
  intros Hu Hserde Hwf Hkey Hput Hread. unfold put in Hput.
  destruct (snapshot (gw_store gw)) as [g|] eqn:Hg; [|done]. apply (snapshot_contents _ _ Hwf) in Hg as ->.
  destruct (prepare_put _ _ _ _ _ _) as [[commit n']|] eqn:Hp; [|done].
  pose proof (planned_put_admissible _ _ _ _ _ _ _ Hwf Hkey Hp) as [_ Hadm].
  apply prepare_put_ok in Hp as (v & bytes & Hv & _ & He & [_ ->]%plan_put_ok).
  apply commit_mutation_ok in Hput as (Hwf' & (_ & _ & Hres & _) & _); [|done|done]. simpl in Hres.
  destruct (redact_walk (kind key) v kr 0%nat) as (m & _ & Hm). exists v, m.
  unfold get. destruct (get_exact key (gw_store gw')) as [r|e] eqn:Hr; [|by destruct (Hread e)].
  apply (get_exact_contents _ _ _ Hwf' Hkey) in Hr as ->. rewrite Hres. unfold committed. cbn [mutation apply_mutation resources]. rewrite lookup_insert_eq.
  eexists. split; [done|]. split; [done|]. cbn [map_err and_then]. unfold read_view, parse_stored_resource. cbn [GraphStore.value create_revision mod_revision].
  assert (exists w, from_slice bytes = Ok w) as [w Hw].
  { apply bind_ok in He as (w & i & _ & Hb). exists w. destruct (to_vec w) eqn:E; [|done]. injection Hb as -> _. by apply Hserde. }
  rewrite Hw. cbn [map_err and_then]. destruct (run (decrypt_for_read (kind key) w kr)) as [w'|e] eqn:Hd.
  - left. unfold map_raise. cbn [map_err and_then]. unfold run at 1. by rewrite (storage_redacts kr _ _ _ _ _ _ _ Hserde He Hw Hd), Hm.
  - right. split_and!; [|unfold run, decrypt_for_read in Hd; by destruct (keyring_is_enabled kr)|by eexists].
    destruct (secrets_plain (kind key) v) eqn:Hs; [|done].
    destruct (storage_inverse kr _ _ _ _ _ Hu Hserde Hs He) as (w0 & Hw0 & Hd0). congruence.
Qed.

(** A PUT body that is neither an object nor null panics.  No handler
    validates the shape of the body before the id is assigned into it. *)
Theorem put_non_object_panics kr key value (gw : Gateway St) g :
  snapshot (gw_store gw) = Ok g ->
  match value with JObject _ | JNull => False | _ => True end ->
  put PLUGIN_META kr key value gw = (Err (Panic "cannot access key in JSON value"), gw).
Proof. intros Hg Hv. unfold put. rewrite Hg. by destruct value. Qed.

End properties.

(** ** Witnesses

    A toy environment: the documents of [GraphDecode.ToySerde], and an OpenSSL
    that takes every PEM text for its own key. *)

Module ToyEnv.

#[export] Instance openssl : OpenSsl := {
  X509 := string; PKey := string;
  stack_from_pem s := Ok [s];
  x509_from_pem := Ok;
  private_key_from_pem := Ok;
  public_key := Ok;
  public_eq a b := bool_decide (a = b);
}.

Definition start : Gateway InMemoryState :=
  {| gw_store := InMemoryGraphStore.new; publications := PublicationRegistry_default; nonces := 0 |}.

End ToyEnv.

Import Toy ToySerde ToyEnv.

Lemma put_then_get_witness :
  exists gw', put [] disabled key_u1 (JObject []) start = (Ok 1, gw') /\
  exists c, get disabled key_u1 gw' =
    Ok (Some {| rv_key := key_u1; rv_value := doc "u1"; rv_create_revision := c; rv_mod_revision := 1 |}).
Proof.
  eexists. split; [vm_compute; reflexivity|].
  match goal with |- context [get _ _ ?g] =>
    destruct (put_then_get [] disabled key_u1 (JObject []) start g 1 I reads_back) as (v & m & c & Hv & Hm & [->|(_ & Hk & _)]) end;
    [exact InMemoryGraphStore.new_wf | exact I | vm_compute; reflexivity | discriminate | | discriminate Hk].
  vm_compute in Hv. injection Hv as <-. exists c. vm_compute in Hm. by injection Hm as <-.
Defined.

Lemma put_non_object_panics_witness :
  put [] disabled key_u1 (JString "oops") start = (Err (Panic "cannot access key in JSON value"), start).
Proof. exact (put_non_object_panics [] disabled key_u1 (JString "oops") start _ eq_refl I). Defined.
