(* ===== verification/SniMatch.v ===== *)
(** * Certificate selection ([src/src/proxy/ssl.rs], [MatchEntry])

    The SNI matcher of the TLS listener: exact names through the path router,
    single-label wildcards, and the catch-all. *)

From Stdlib Require Import ZArith Lia Ascii List.
From stdpp Require Import base tactics gmap fin_maps strings option sorting sets list.
From S2P Require Import Prelude Errors GraphStore Utf8 Hosts Config Encryption AdminOps.

Open Scope Z_scope.

(** ** The router ([matchit::Router])

    Only literal routes are relied on: the router's own parameters are written
    with braces, and a route without them matches the equal path and conflicts
    with an equal route. *)

Class MatchRouter : Type := {
  Router : Type -> Type;
  router_new {A} : Router A;
  router_insert {A} : string -> A -> Router A -> Result (Router A) string;
  router_at {A} : Router A -> string -> option A;
}.

Definition literal_route (p : string) : bool := negb (contains_char "{"%char p) && negb (contains_char "}"%char p).

(** [holds r m]: the routes of [r] are the literal keys of [m]. *)
Class MatchRouterLaws `{MatchRouter} : Type := {
  holds {A} : Router A -> gmap string A -> Prop;
  holds_new {A} : holds (A := A) router_new ∅;
  holds_insert {A} (r : Router A) m p (a : A) : holds r m -> literal_route p = true -> m !! p = None ->
    exists r', router_insert p a r = Ok r' /\ holds r' (<[p := a]> m);
  holds_conflict {A} (r : Router A) m p (a : A) : holds r m -> literal_route p = true -> is_Some (m !! p) ->
    is_ok (router_insert p a r) = false;
  holds_at {A} (r : Router A) m p : holds (A := A) r m -> router_at r p = m !! p;
}.

(** ** Strings of the standard library *)

(** [s.chars().rev().collect()] *)
Definition rev_chars (s : string) : string :=
  fold_left (fun acc (c : bool * string) => c.2 +:+ acc) (utf8_chunks s) "".

Fixpoint str_drop (n : nat) (s : string) : string :=
  match n, s with S n, String _ s' => str_drop n s' | _, _ => s end.
Fixpoint str_take (n : nat) (s : string) : string :=
  match n, s with S n, String a s' => String a (str_take n s') | _, _ => "" end.

(** [&s[n..]] for [n <= s.len()]: panics off a character boundary. *)
Definition slice_from (n : nat) (s : string) : Result string (Stop ProxyError) :=
  match String.get n s with
  | Some b => if is_cont b then Err (Panic "byte index is not a char boundary") else Ok (str_drop n s)
  | None => Ok (str_drop n s)
  end.

(** ** [MatchEntry] *)

Section matcher.
Context `{OpenSsl} `{MatchRouter}.

Record MatchEntry : Type := {
  snis : Router ProxySSL;
  wildcards : list (string * ProxySSL);
  catch_all : option ProxySSL;
}.
#[export] Instance eta_MatchEntry : Eta MatchEntry := fun m => Build_MatchEntry (snis m) (wildcards m) (catch_all m).

Definition MatchEntry_default : MatchEntry := {| snis := router_new; wildcards := []; catch_all := None |}.

(** The body of the loop of [insert_ssl]. *)
Definition insert_sni (proxy_ssl : ProxySSL) (self : MatchEntry) (sni : string) : Result MatchEntry ProxyError :=
  let normalized := to_ascii_lowercase sni in
  if bool_decide (normalized = "*") then
    match catch_all self with
    | Some _ => Err (Configuration "Duplicate TLS catch-all SNI '*'")
    | None => Ok (self <| catch_all := Some proxy_ssl |>)
    end
  else
    match strip_prefix "*." normalized with
    | Some suffix =>
      if existsb (fun w => bool_decide (w.1 = suffix)) (wildcards self)
      then Err (Configuration ("Duplicate TLS wildcard SNI '*." +:+ suffix +:+ "'"))
      else Ok (self <| wildcards := (wildcards self ++ [(suffix, proxy_ssl)])%list |>)
    | None =>
      match router_insert (rev_chars normalized) proxy_ssl (snis self) with
      | Ok r => Ok (self <| snis := r |>)
      | Err e => Err (Configuration ("Failed to insert TLS SNI '" +:+ sni +:+ "' for '"
                   +:+ SSL.id (ssl_inner proxy_ssl) +:+ "': " +:+ e))
      end
    end.

Definition insert_ssl (self : MatchEntry) (proxy_ssl : ProxySSL) : Result MatchEntry ProxyError :=
  try_fold (insert_sni proxy_ssl) self (SSL.snis (ssl_inner proxy_ssl)).

(** Longest suffix first. *)
Definition suffix_le (a b : string * ProxySSL) : Prop := (String.length b.1 <= String.length a.1)%nat.
#[export] Instance suffix_le_dec : RelDecision suffix_le.
Proof. intros a b. unfold suffix_le. apply _. Defined.

Definition build (ssls : gmap string ProxySSL) : Result MatchEntry ProxyError :=
  let? matcher := try_fold insert_ssl MatchEntry_default (map_to_list ssls).*2 in
  Ok (matcher <| wildcards := merge_sort suffix_le (wildcards matcher) |>).

Definition host_matches_wildcard (host suffix : string) : Result bool (Stop ProxyError) :=
  if bool_decide (suffix = "") then
    Ok (negb (bool_decide (host = "")) && negb (contains_char "."%char host))
  else
    let suffix_len := String.length suffix in
    if (String.length host <=? suffix_len + 1)%nat then Ok false
    else
      let suffix_start := (String.length host - suffix_len)%nat in
      let? tail := slice_from suffix_start host in
      if negb (bool_decide (tail = suffix)) then Ok false
      else if negb (bool_decide (String.get (suffix_start - 1) host = Some "."%char)) then Ok false
      else
        let label := str_take (suffix_start - 1) host in
        Ok (negb (bool_decide (label = "")) && negb (contains_char "."%char label)).

Fixpoint first_wildcard (ws : list (string * ProxySSL)) (host : string) : Result (option ProxySSL) (Stop ProxyError) :=
  match ws with
  | [] => Ok None
  | (suffix, ssl) :: ws' =>
    let? ok := host_matches_wildcard host suffix in
    if ok : bool then Ok (Some ssl) else first_wildcard ws' host
  end.

Definition match_sni (self : MatchEntry) (sni : string) : Result (option ProxySSL) (Stop ProxyError) :=
  let normalized := to_ascii_lowercase sni in
  match router_at (snis self) (rev_chars normalized) with
  | Some v => Ok (Some v)
  | None =>
    let? w := first_wildcard (wildcards self) normalized in
    Ok (match w with Some ssl => Some ssl | None => catch_all self end)
  end.

End matcher.

(** ** Panics *)

Lemma ascii_get s n a : str_forall (fun a => byte_val a <? 128) s = true -> String.get n s = Some a -> is_cont a = false.
Proof.
  revert n; induction s as [|b s IH]; intros [|n] Hs Hg; simpl in *; try done; apply andb_true_iff in Hs as [Hb Hs].
  - injection Hg as <-. unfold is_cont, between. lia.
  - by eapply IH.
Qed.

Lemma ascii_lowered s : str_forall (fun a => byte_val a <? 128) s = true ->
  str_forall (fun a => byte_val a <? 128) (to_ascii_lowercase s) = true.
Proof.
  induction s as [|a s IH]; simpl; [done|]. rewrite !andb_true_iff. intros [Ha Hs]. split; [|by apply IH].
  destruct a as [[] [] [] [] [] [] [] []]; vm_compute in Ha |- *; done.
Qed.

(** Selection cannot fail on ASCII names.  The wildcard test slices the
    name by bytes; on a name of ASCII bytes it always answers, whatever
    certificates are loaded. *)
Lemma match_sni_total `{OpenSsl} `{MatchRouter} (m : MatchEntry) host :
  str_forall (fun a => byte_val a <? 128) host = true -> is_ok (match_sni m host) = true.
Proof.
  intros Hh%ascii_lowered. unfold match_sni. cbv zeta. case_match; [done|].
  assert (forall suffix, is_ok (host_matches_wildcard (to_ascii_lowercase host) suffix) = true) as Hw.
  { intros suffix. unfold host_matches_wildcard. case_bool_decide; [done|]. cbv zeta.
    destruct (_ <=? _)%nat; [done|]. unfold slice_from.
    destruct (String.get _ _) as [a|] eqn:Hg; [rewrite (ascii_get _ _ _ Hh Hg)|]; cbn [and_then].
    all: destruct (negb _); [done|]; by destruct (negb _). }
  assert (is_ok (first_wildcard (wildcards m) (to_ascii_lowercase host)) = true) as Hf.
  { induction (wildcards m) as [|[suffix ssl] ws IH]; simpl; [done|]. specialize (Hw suffix).
    destruct (host_matches_wildcard _ _) as [[]|]; simpl; [done|exact IH|done]. }
  by destruct (first_wildcard _ _).
Qed.

(** ** Lower-casing and reversal *)

Lemma ascii_lower_width a : utf8_char_width (ascii_lower a) = utf8_char_width a.
Proof. destruct a as [[] [] [] [] [] [] [] []]; reflexivity. Qed.
Lemma ascii_lower_cont a : is_cont (ascii_lower a) = is_cont a.
Proof. destruct a as [[] [] [] [] [] [] [] []]; reflexivity. Qed.
Lemma ascii_lower_second a b : second_ok (ascii_lower a) (ascii_lower b) = second_ok a b.
Proof.
  unfold second_ok. cbv zeta.
  assert (forall k, 128 <= k -> (byte_val (ascii_lower a) =? k) = (byte_val a =? k)) as Ha.
  { intros k Hk. unfold ascii_lower. destruct (between 65 90 (byte_val a)) eqn:E; [|done].
    transitivity false; [|symmetry; apply Z.eqb_neq; unfold between in E; lia].
    apply Z.eqb_neq. destruct a as [[] [] [] [] [] [] [] []]; vm_compute in E |- *; try done; intros <-; lia. }
  assert (forall lo hi, 128 <= lo -> between lo hi (byte_val (ascii_lower b)) = between lo hi (byte_val b)) as Hb.
  { intros lo hi Hlo. unfold ascii_lower. destruct (between 65 90 (byte_val b)) eqn:E; [|done].
    assert (byte_val (ascii_of_N (N_of_ascii b + 32)) < 128) as Hlt.
    { destruct b as [[] [] [] [] [] [] [] []]; vm_compute in E |- *; done. }
    unfold between in *. lia. }
  rewrite !Ha, !Hb by lia. done.
Qed.

Lemma lower_chunks s :
  utf8_chunks (to_ascii_lowercase s) = (fun c => (c.1, to_ascii_lowercase c.2)) <$> utf8_chunks s.
Proof.
  remember (String.length s) as n eqn:Hn. assert (String.length s <= n)%nat as H by lia. clear Hn.
  revert s H. induction n as [|n IH]; intros [|b0 s1] Hlen; simpl in *; try (done || lia).
  cbv zeta. rewrite ascii_lower_width. generalize (utf8_char_width b0). intros w.
  destruct (w =? 1); [simpl; by rewrite IH by lia|].
  destruct (w =? 2); [|destruct (w =? 3); [|destruct (w =? 4); [|simpl; by rewrite IH by lia]]].
  all: destruct s1 as [|b1 s2]; [done|]; simpl in Hlen; cbn [to_ascii_lowercase].
  { rewrite ascii_lower_cont. destruct (is_cont b1); [rewrite IH by lia; done|].
    change (String (ascii_lower b1) (to_ascii_lowercase s2)) with (to_ascii_lowercase (String b1 s2)).
    rewrite IH by (simpl; lia). done. }
  all: rewrite ascii_lower_second; destruct (second_ok b0 b1);
    [|change (String (ascii_lower b1) (to_ascii_lowercase s2)) with (to_ascii_lowercase (String b1 s2));
      rewrite IH by (simpl; lia); done].
  all: destruct s2 as [|b2 s3]; [done|]; simpl in Hlen; cbn [to_ascii_lowercase].
  all: rewrite ascii_lower_cont; destruct (is_cont b2);
    [|change (String (ascii_lower b2) (to_ascii_lowercase s3)) with (to_ascii_lowercase (String b2 s3));
      rewrite IH by (simpl; lia); done].
  { rewrite IH by lia. done. }
  destruct s3 as [|b3 s4]; [done|]; simpl in Hlen; cbn [to_ascii_lowercase].
  rewrite ascii_lower_cont; destruct (is_cont b3); [rewrite IH by lia; done|].
  change (String (ascii_lower b3) (to_ascii_lowercase s4)) with (to_ascii_lowercase (String b3 s4)).
  rewrite IH by (simpl; lia); done.
Qed.

Lemma lower_valid s : utf8_valid (to_ascii_lowercase s) = utf8_valid s.
Proof.
  unfold utf8_valid. rewrite lower_chunks. induction (utf8_chunks s) as [|c l IH]; simpl; [done|]. f_equal. exact IH.
Qed.

(** A character is one chunk whatever follows it. *)
Definition is_char (c : string) : Prop := forall r, utf8_chunks (c +:+ r) = (true, c) :: utf8_chunks r.

Lemma valid_chars s c : (true, c) ∈ utf8_chunks s -> is_char c.
Proof.
  remember (String.length s) as n eqn:Hn. assert (String.length s <= n)%nat as H by lia. clear Hn.
  revert s H. induction n as [|n IH]; intros [|b0 s1] Hlen; simpl in *;
    try (intros ?%not_elem_of_nil; done); try lia.
  cbv zeta. destruct (utf8_char_width b0 =? 1) eqn:E1.
  { intros [[= ->]|Hin]%elem_of_cons; [intros r; simpl; cbv zeta; by rewrite E1|eapply IH, Hin; lia]. }
  destruct (utf8_char_width b0 =? 2) eqn:E2; [|destruct (utf8_char_width b0 =? 3) eqn:E3;
    [|destruct (utf8_char_width b0 =? 4) eqn:E4; [|intros [[=]|Hin]%elem_of_cons; eapply IH, Hin; lia]]].
  all: destruct s1 as [|b1 s2]; [intros [[=]|Hin%not_elem_of_nil]%elem_of_cons; done|]; simpl in Hlen.
  { destruct (is_cont b1) eqn:C1; intros [[=]|Hin]%elem_of_cons; try (eapply IH, Hin; simpl; lia).
    subst c. intros r. simpl. cbv zeta. by rewrite E1, E2, C1. }
  all: destruct (second_ok b0 b1) eqn:C1; [|intros [[=]|Hin]%elem_of_cons; eapply IH, Hin; simpl; lia].
  all: destruct s2 as [|b2 s3]; [intros [[=]|Hin%not_elem_of_nil]%elem_of_cons; done|]; simpl in Hlen.
  all: destruct (is_cont b2) eqn:C2; [|intros [[=]|Hin]%elem_of_cons; eapply IH, Hin; simpl; lia].
  { intros [[=]|Hin]%elem_of_cons; [|eapply IH, Hin; lia].
    subst c. intros r. simpl. cbv zeta. by rewrite E1, E2, E3, C1, C2. }
  destruct s3 as [|b3 s4]; [intros [[=]|Hin%not_elem_of_nil]%elem_of_cons; done|]; simpl in Hlen.
  destruct (is_cont b3) eqn:C3; intros [[=]|Hin]%elem_of_cons; try (eapply IH, Hin; simpl; lia).
  subst c. intros r. simpl. cbv zeta. by rewrite E1, E2, E3, E4, C1, C2, C3.
Qed.

Definition concat_chunks (l : list (bool * string)) : string := fold_right (fun k acc => k.2 +:+ acc) "" l.

Lemma rev_chars_concat s : rev_chars s = concat_chunks (rev (utf8_chunks s)).
Proof. unfold rev_chars, concat_chunks. symmetry. apply fold_left_rev_right. Qed.

Lemma rev_chars_chunks s : utf8_valid s = true -> utf8_chunks (rev_chars s) = rev (utf8_chunks s).
Proof.
  intros Hv. rewrite rev_chars_concat.
  assert (forall k, k ∈ rev (utf8_chunks s) -> k.1 = true /\ is_char k.2) as Hall.
  { intros [b c] Hk. apply list_elem_of_In, in_rev, list_elem_of_In in Hk. unfold utf8_valid in Hv.
    assert (b = true) as -> by exact (proj1 (forallb_forall _ _) Hv _ (proj1 (list_elem_of_In _ _) Hk)).
    split; [done|by eapply valid_chars]. }
  induction (rev (utf8_chunks s)) as [|[b c] l IH]; [done|].
  destruct (Hall (b, c) (list_elem_of_here _ _)) as [Hb Hc]. simpl in Hb, Hc. subst b. simpl. rewrite Hc.
  f_equal. apply IH. intros k Hk. apply Hall. by right.
Qed.

Lemma rev_chars_inj s t : utf8_valid s = true -> utf8_valid t = true -> rev_chars s = rev_chars t -> s = t.
Proof.
  intros Hs Ht He. apply (f_equal utf8_chunks) in He. rewrite !rev_chars_chunks in He by done.
  apply (f_equal (@rev _)) in He. rewrite !rev_involutive in He.
  by rewrite <- (utf8_chunks_concat s), He, utf8_chunks_concat.
Qed.

Lemma contains_rev c s : contains_char c (rev_chars s) = contains_char c s.
Proof.
  rewrite rev_chars_concat, (utf8_chunks_contains c s). generalize (utf8_chunks s). intros l.
  assert (forall l, contains_char c (concat_chunks l) = existsb (fun k => contains_char c k.2) l) as Hl.
  { induction l0 as [|k l0 IH]; simpl; [done|]. by rewrite contains_char_app, IH. }
  rewrite Hl. induction l as [|k l IH]; simpl; [done|]. rewrite existsb_app, IH. simpl. by rewrite orb_false_r, orb_comm.
Qed.

Lemma lower_keeps c s : ascii_lower c = c -> between 65 90 (byte_val c) = false -> (forall a, ascii_lower a = c -> a = c) ->
  contains_char c (to_ascii_lowercase s) = contains_char c s.
Proof.
  intros Hc _ Hi. induction s as [|a s IH]; simpl; [done|]. rewrite IH. f_equal.
  apply bool_decide_ext. split; [intros ->; symmetry; by apply Hi|intros <-; done].
Qed.

Lemma literal_key s : literal_route s = true -> literal_route (rev_chars (to_ascii_lowercase s)) = true.
Proof.
  unfold literal_route. rewrite !contains_rev. rewrite !lower_keeps; try done.
  all: intros [[] [] [] [] [] [] [] []]; vm_compute; congruence.
Qed.

Lemma lower_star s : to_ascii_lowercase s = "*." -> s = "*.".
Proof.
  destruct s as [|a [|b [|c s]]]; simpl; try done. intros [= Ha Hb].
  assert (a = "*"%char) as -> by (destruct a as [[] [] [] [] [] [] [] []]; vm_compute in Ha; congruence).
  assert (b = "."%char) as -> by (destruct b as [[] [] [] [] [] [] [] []]; vm_compute in Hb; congruence).
  done.
Qed.

(** ** Slices *)

Lemma str_take_drop n s : (n <= String.length s)%nat -> s = str_take n s +:+ str_drop n s.
Proof. revert s; induction n as [|n IH]; intros [|a s] Hn; simpl in *; try done; try lia. f_equal. apply IH. lia. Qed.
Lemma str_drop_get n a s : String.get n s = Some a -> str_drop n s = String a (str_drop (S n) s).
Proof. revert s; induction n as [|n IH]; intros [|b s] Hn; simpl in *; try done; [congruence|]. by rewrite IH. Qed.
Lemma str_app_take a b : str_take (String.length a) (a +:+ b) = a.
Proof. induction a as [|x a IH]; simpl; [by destruct b|]. by rewrite IH. Qed.
Lemma str_app_drop a b : str_drop (String.length a) (a +:+ b) = b.
Proof. induction a as [|x a IH]; simpl; [by destruct b|]. done. Qed.
Lemma str_app_get a c b : String.get (String.length a) (a +:+ String c b) = Some c.
Proof. induction a as [|x a IH]; simpl; done. Qed.
Lemma length_app_str a b : String.length (a +:+ b) = (String.length a + String.length b)%nat.
Proof. induction a as [|x a IH]; simpl; [done|]. by rewrite IH. Qed.

(** A name is one label in front of the suffix. *)
Definition one_label (host suffix : string) : Prop :=
  exists label, label <> "" /\ contains_char "."%char label = false /\ host = label +:+ String "."%char suffix.

Lemma one_label_unique host s1 s2 : one_label host s1 -> one_label host s2 -> s1 = s2.
Proof.
  intros (l1 & _ & H1 & ->) (l2 & _ & H2 & He). apply (f_equal (split_once "."%char)) in He.
  rewrite !split_once_app in He by done. by injection He.
Qed.

Lemma host_matches_wildcard_ok host suffix b :
  suffix <> "" -> host_matches_wildcard host suffix = Ok b -> (b = true <-> one_label host suffix).
Proof.
  intros Hne. unfold host_matches_wildcard. rewrite bool_decide_false by done.
  assert (one_label host suffix -> exists l, l <> "" /\ contains_char "."%char l = false /\
    host = l +:+ String "."%char suffix /\ String.length host = (String.length l + 1 + String.length suffix)%nat /\
    (0 < String.length l)%nat) as Hol.
  { intros (l & Hl & Hd & ->). exists l. split_and!; [done..| |]; [rewrite length_app_str; simpl; lia|].
    destruct l; simpl; [done|lia]. }
  destruct (Nat.leb_spec (String.length host) (String.length suffix + 1)) as [Hlen|Hlen].
  { intros [= <-]. split; [done|]. intros (l & _ & _ & _ & Hl & ?)%Hol. lia. }
  set (start := (String.length host - String.length suffix)%nat). intros (tail & Htail & Hb)%and_then_ok.
  assert (tail = str_drop start host) as ->.
  { unfold slice_from in Htail. destruct (String.get start host) as [c|]; [destruct (is_cont c)|]; congruence. }
  assert (one_label host suffix -> exists l, l <> "" /\ contains_char "."%char l = false /\
    (start - 1)%nat = String.length l /\ host = l +:+ String "."%char suffix) as Hst.
  { intros (l & Hl & Hd & Hh & Hlen' & ?)%Hol. exists l. split_and!; try done. unfold start. lia. }
  destruct (bool_decide (str_drop start host = suffix)) eqn:E1; bool_to_prop; cbn [negb] in Hb.
  2:{ injection Hb as <-. split; [done|]. intros (l & _ & _ & Hs & Hh)%Hst. exfalso. apply E1.
    replace start with (String.length (l +:+ ".")) by (rewrite length_app_str; simpl; unfold start in *; lia).
    rewrite Hh at 1. change (String "."%char suffix) with ("." +:+ suffix). rewrite <- str_app_assoc. apply str_app_drop. }
  destruct (bool_decide (String.get (start - 1) host = Some "."%char)) eqn:E2; bool_to_prop; cbn [negb] in Hb.
  2:{ injection Hb as <-. split; [done|]. intros (l & _ & _ & Hs & Hh)%Hst. exfalso. apply E2.
    rewrite Hs, Hh. apply str_app_get. }
  injection Hb as <-. rewrite andb_true_iff, !negb_true_iff, bool_decide_eq_false. split.
  - intros [Hl Hd]. exists (str_take (start - 1) host). split_and!; try done.
    rewrite (str_take_drop (start - 1) host) at 1 by (unfold start; lia). f_equal.
    rewrite (str_drop_get _ _ _ E2). replace (S (start - 1)) with start by (unfold start; lia). by rewrite E1.
  - intros (l & Hl & Hd & Hs & Hh)%Hst. rewrite Hs, Hh, str_app_take. done.
Qed.

(** ** The matcher's contents *)

Section contents.
Context `{OpenSsl} `{MatchRouterLaws}.

Definition exact_form (p : string) : Prop := p <> "*" /\ strip_prefix "*." p = None.

(** The patterns of a certificate, lower-cased. *)
Definition entries (ssl : ProxySSL) : list (string * ProxySSL) :=
  (fun s => (to_ascii_lowercase s, ssl)) <$> SSL.snis (ssl_inner ssl).

Record indexed (es : list (string * ProxySSL)) (m : MatchEntry) : Prop := {
  ix_exact : exists M, holds (snis m) M /\
    forall k ssl, M !! k = Some ssl <-> exists p, (p, ssl) ∈ es /\ exact_form p /\ rev_chars p = k;
  ix_wild suf ssl : (suf, ssl) ∈ wildcards m <-> ("*." +:+ suf, ssl) ∈ es;
  ix_nodup : NoDup (wildcards m).*1;
  ix_any ssl : catch_all m = Some ssl <-> ("*", ssl) ∈ es;
}.

Lemma indexed_default : indexed [] MatchEntry_default.
Proof.
  split; try (intros; split; [done|by intros ?%not_elem_of_nil]).
  - exists ∅. split; [apply holds_new|]. intros k ssl. rewrite lookup_empty. split; [done|].
    by intros (p & ?%not_elem_of_nil & _).
  - intros suf ssl. split; by intros ?%not_elem_of_nil.
  - constructor.
Qed.

Lemma insert_sni_indexed ssl es m s m' :
  literal_route s = true -> indexed es m -> insert_sni ssl m s = Ok m' ->
  indexed (es ++ [(to_ascii_lowercase s, ssl)])%list m'.
Proof.
  intros Hlit [(M & HM & Hx) Hw Hnd Ha] Hi. unfold insert_sni in Hi. cbv zeta in Hi.
  pose proof (literal_key _ Hlit) as Hkey. set (p := to_ascii_lowercase s) in *.
  assert (forall x (a : ProxySSL), (x, a) ∈ (es ++ [(p, ssl)])%list <-> (x, a) ∈ es \/ (x = p /\ a = ssl)) as Hel.
  { intros x a. rewrite elem_of_app, list_elem_of_singleton. naive_solver. }
  destruct (bool_decide (p = "*")) eqn:E; bool_to_prop.
  { destruct (catch_all m) eqn:Hc; [done|]. injection Hi as <-. split; cbn [snis wildcards catch_all]; [|intros ? ?|done|intros a].
    - exists M. split; [exact HM|]. intros k a. rewrite Hx. setoid_rewrite Hel. split; [naive_solver|].
      intros (q & [?|[-> ->]] & Hf & Hk); [by exists q|]. by destruct Hf as [? _].
    - rewrite Hw, Hel, E. split; [by left|]. intros [?|[? _]]; done.
    - simpl. rewrite Hel, E. split; [intros [= <-]; by right|]. intros [Hin|[_ ->]]; [|done].
      apply Ha in Hin. congruence. }
  destruct (strip_prefix "*." p) as [suf|] eqn:Hs.
  - destruct (existsb _ _) eqn:He; [done|]. injection Hi as <-. apply strip_prefix_spec in Hs.
    split; cbn [snis wildcards catch_all]; [|intros x a| |intros a].
    + exists M. split; [exact HM|]. intros k a. rewrite Hx. setoid_rewrite Hel. split; [naive_solver|].
      intros (q & [?|[-> ->]] & Hf & Hk); [by exists q|]. destruct Hf as [_ Hf]. by rewrite Hs, strip_prefix_app in Hf.
    + rewrite elem_of_app, list_elem_of_singleton, Hw, Hel, Hs. split; [intros [?|[= -> ->]]; [by left|by right]|].
      intros [?|[Heq ->]]; [by left|]. right. apply (f_equal (strip_prefix "*.")) in Heq.
      rewrite !strip_prefix_app in Heq. congruence.
    + rewrite fmap_app. apply NoDup_app. split_and!; [done| |repeat constructor; by intros ?%not_elem_of_nil].
      intros x ([x' a] & -> & Hin)%list_elem_of_fmap Heq%list_elem_of_singleton. cbn [fst] in Heq. subst x'.
      apply not_true_iff_false in He. apply He, existsb_exists. exists (suf, a).
      split; [by apply list_elem_of_In|]. by apply bool_decide_eq_true.
    + rewrite Ha, Hel, Hs. split; [by left|]. intros [?|[? _]]; done.
  - destruct (router_insert _ _ _) as [r|] eqn:Hr; [|done]. injection Hi as <-.
    assert (M !! rev_chars p = None) as Hfree.
    { destruct (M !! rev_chars p) eqn:Hsome; [|done].
      pose proof (holds_conflict (snis m) M (rev_chars p) ssl HM Hkey (ex_intro _ _ Hsome)) as Hc. by rewrite Hr in Hc. }
    destruct (holds_insert (snis m) M (rev_chars p) ssl HM Hkey Hfree) as (r' & Hr' & HM').
    rewrite Hr in Hr'. injection Hr' as <-.
    split; cbn [snis wildcards catch_all]; [|intros x a|done|intros a].
    + exists (<[rev_chars p := ssl]> M). split; [exact HM'|]. intros k a. setoid_rewrite Hel. split.
      * intros [[<- <-]|[_ Hk]]%lookup_insert_Some; [exists p; split_and!; [by right|by split|done]|]. apply Hx in Hk as (q & ? & ? & ?). exists q. auto.
      * intros (q & [Hq|[-> ->]] & Hf & <-); [|by rewrite lookup_insert_eq].
        assert (M !! rev_chars q = Some a) as Hq' by (apply Hx; eauto).
        rewrite lookup_insert_ne; [done|]. intros Heq. congruence.
    + rewrite Hw, Hel. split; [by left|]. intros [?|[Heq _]]; [done|]. by rewrite <- Heq, strip_prefix_app in Hs.
    + rewrite Ha, Hel. split; [by left|]. intros [?|[Heq _]]; [done|]. by rewrite <- Heq in E.
Qed.

Definition literal_snis (ssl : ProxySSL) : Prop := forall s, s ∈ SSL.snis (ssl_inner ssl) -> literal_route s = true.

Lemma insert_ssl_indexed ssl es m m' :
  literal_snis ssl -> indexed es m -> insert_ssl m ssl = Ok m' -> indexed (es ++ entries ssl)%list m'.
Proof.
  unfold literal_snis, insert_ssl, entries. revert es m. induction (SSL.snis (ssl_inner ssl)) as [|s l IH]; intros es m Hl Hm; simpl.
  { intros [= <-]. by rewrite app_nil_r. }
  intros (m1 & Hins & Hrest)%and_then_ok. rewrite cons_middle, app_assoc. eapply IH; [|by eapply insert_sni_indexed, Hins; [apply Hl; left|]|done].
  intros s' Hs'. apply Hl. by right.
Qed.

Lemma build_indexed ssls m :
  (forall i ssl, ssls !! i = Some ssl -> literal_snis ssl) -> build ssls = Ok m ->
  exists es, indexed es m /\ forall p ssl, (p, ssl) ∈ es <-> exists i, ssls !! i = Some ssl /\ (p, ssl) ∈ entries ssl.
Proof.
  intros Hlit (m0 & Hf & Hm)%and_then_ok. injection Hm as <-.
  exists ((map_to_list ssls).*2 ≫= entries). split.
  - assert (forall l es m, (forall x, x ∈ l -> literal_snis x) -> indexed es m -> try_fold insert_ssl m l = Ok m0 ->
      indexed (es ++ (l ≫= entries))%list m0) as Hall.
    { induction l as [|x l IH]; intros es m Hl Hi; simpl; [intros [= <-]; by rewrite app_nil_r|].
      intros (m1 & Hins & Hrest)%and_then_ok. rewrite app_assoc. eapply IH; [|by eapply insert_ssl_indexed, Hins; [apply Hl; left|]|done].
      intros y Hy. apply Hl. by right. }
    assert (forall x, x ∈ (map_to_list ssls).*2 -> literal_snis x) as Hl.
    { intros x ([i y] & -> & Hy%elem_of_map_to_list)%list_elem_of_fmap. by eapply Hlit. }
    destruct (Hall _ [] _ Hl indexed_default Hf) as [Hx Hw Hnd Ha]. simpl in Hx, Hw, Ha.
    assert (merge_sort suffix_le (wildcards m0) ≡ₚ wildcards m0) as Hp by apply merge_sort_Permutation.
    split; cbn [snis wildcards catch_all]; [done| | |done].
    + intros suf ssl. by rewrite Hp.
    + by rewrite Hp.
  - intros p ssl. rewrite list_elem_of_bind. split.
    + intros (y & Hin & ([i z] & -> & Hz%elem_of_map_to_list)%list_elem_of_fmap). simpl in *.
      assert (z = ssl) as -> by (by apply list_elem_of_fmap in Hin as (s & [= _ ->] & _)). by exists i.
    + intros (i & Hi & Hin). exists ssl. split; [done|]. apply list_elem_of_fmap. exists (i, ssl).
      split; [done|]. by apply elem_of_map_to_list.
Qed.

(** ** Properties *)

(** What a pattern matches, most specific kind first. *)
Inductive sni_matches (h : string) : string -> nat -> Prop :=
| sm_exact : exact_form h -> sni_matches h h 0
| sm_label suffix : one_label h suffix -> sni_matches h ("*." +:+ suffix) 1
| sm_any : sni_matches h "*" 2.

Definition serves (ssl : ProxySSL) (h : string) (rank : nat) : Prop :=
  exists p, (p, ssl) ∈ entries ssl /\ sni_matches h p rank.

Definition loaded (ssls : gmap string ProxySSL) : Prop :=
  forall i ssl, ssls !! i = Some ssl -> (exists v, ProxySSL_try_from v = Ok ssl) /\ literal_snis ssl /\
    forall s, s ∈ SSL.snis (ssl_inner ssl) -> utf8_valid s = true.

Lemma loaded_suffix ssls i ssl suf :
  loaded ssls -> ssls !! i = Some ssl -> ("*." +:+ suf, ssl) ∈ entries ssl -> suf <> "".
Proof.
  intros Hl Hi Hin ->. destruct (Hl _ _ Hi) as ([v Hv] & _ & _).
  apply list_elem_of_fmap in Hin as (s & [= Hs] & Hin). symmetry in Hs. apply lower_star in Hs as ->.
  unfold ProxySSL_try_from in Hv. apply and_then_ok in Hv as ([] & Hc & Hv).
  assert (ssl_inner ssl = v) as Hin'.
  { repeat (apply and_then_ok in Hv as (? & _ & Hv)). case_match; [done|]. by injection Hv as <-. }
  rewrite Hin' in Hin. by apply (proj1 (try_for_each_ok _ _) Hc) in Hin.
Qed.

(** The wildcard test cuts the name inside a character: its last bytes, as
    many as the suffix has, begin with a continuation byte. *)
Definition cuts_char (h suffix : string) : Prop :=
  (String.length suffix + 1 < String.length h)%nat /\
  exists b, String.get (String.length h - String.length suffix) h = Some b /\ is_cont b = true.

Lemma host_matches_wildcard_err h suffix e : host_matches_wildcard h suffix = Err e ->
  e = Panic "byte index is not a char boundary" /\ cuts_char h suffix.
Proof.
  unfold host_matches_wildcard, cuts_char. case_bool_decide; [done|]. cbv zeta. destruct (_ <=? _)%nat eqn:El; [done|]. apply Nat.leb_gt in El.
  unfold slice_from. destruct (String.get _ h) as [b|]; [destruct (is_cont b) eqn:Eb|]; cbn [and_then].
  - intros [= <-]. split; [done|]. split; [lia|by exists b].
  - destruct (negb _); [done|]. by destruct (negb _).
  - destruct (negb _); [done|]. by destruct (negb _).
Qed.

Lemma first_wildcard_err ws h e : first_wildcard ws h = Err e ->
  e = Panic "byte index is not a char boundary" /\ exists suf ssl, (suf, ssl) ∈ ws /\ cuts_char h suf.
Proof.
  induction ws as [|[suf ssl] ws IH]; cbn [first_wildcard]; [done|].
  destruct (host_matches_wildcard h suf) as [[]|e'] eqn:E; cbn [and_then]; [done| |].
  - intros (? & s & x & Hin & Hc)%IH. split; [done|]. exists s, x. split; [by right|done].
  - intros [= <-]. apply host_matches_wildcard_err in E as [-> Hc]. split; [done|]. exists suf, ssl. split; [by left|done].
Qed.

Lemma match_sni_err m host e : match_sni m host = Err e ->
  e = Panic "byte index is not a char boundary" /\ exists suf ssl, (suf, ssl) ∈ wildcards m /\ cuts_char (to_ascii_lowercase host) suf.
Proof.
  unfold match_sni. cbv zeta. destruct (router_at _ _); [done|]. destruct (first_wildcard _ _) as [w|e'] eqn:E; cbn [and_then]; [done|].
  intros [= <-]. by apply first_wildcard_err.
Qed.

Lemma first_wildcard_ok ws h r :
  (forall suf ssl, (suf, ssl) ∈ ws -> suf <> "") -> first_wildcard ws h = Ok r ->
  match r with
  | Some ssl => exists suf, (suf, ssl) ∈ ws /\ one_label h suf
  | None => forall suf ssl, (suf, ssl) ∈ ws -> ~ one_label h suf
  end.
Proof.
  induction ws as [|[suf ssl] ws IH]; simpl; intros Hne.
  { intros [= <-] suf ssl ?%not_elem_of_nil. done. }
  intros (b & Hb & Hr)%and_then_ok. apply host_matches_wildcard_ok in Hb; [|by eapply Hne; left].
  assert (forall suf' ssl', (suf', ssl') ∈ ws -> suf' <> "") as Hne' by (intros s' ? ?; eapply Hne; by right).
  destruct b.
  - injection Hr as <-. exists suf. split; [by left|by apply Hb].
  - specialize (IH Hne' Hr). destruct r.
    + destruct IH as (s' & ? & ?). exists s'. split; [by right|done].
    + intros s' a [[= -> ->]|Hin]%elem_of_cons; [|by eapply IH]. intros Hol. by apply Hb in Hol.
Qed.

Section selection.
Context (es : list (string * ProxySSL)) (m : MatchEntry) (Hix : indexed es m) (h : string).

Definition es_serves (ssl : ProxySSL) (rank : nat) : Prop := exists p, (p, ssl) ∈ es /\ sni_matches h p rank.

Lemma serves_functional a b k : es_serves a k -> es_serves b k -> a = b.
Proof.
  destruct Hix as [(M & _ & Hx) Hw Hnd Ha].
  intros (p & Hp & Hmp) (q & Hq & Hmq). destruct Hmp as [Hf|suf Ho|]; inversion Hmq as [Hf'|suf' Ho'|]; subst.
  - assert (M !! rev_chars q = Some a) as Ea by (apply Hx; eauto).
    assert (M !! rev_chars q = Some b) as Eb by (apply Hx; eauto). congruence.
  - assert (suf' = suf) as -> by (by eapply one_label_unique). apply Hw in Hp, Hq.
    clear -Hnd Hp Hq. induction (wildcards m) as [|[x c] ws IH]; [by apply not_elem_of_nil in Hp|].
    change (NoDup (x :: ws.*1)) in Hnd. apply NoDup_cons in Hnd as [Hni Hnd].
    apply elem_of_cons in Hp as [Ep|Hp], Hq as [Eq|Hq]; simplify_eq; [done| | |by apply IH].
    + destruct Hni. apply list_elem_of_fmap. by exists (x, b).
    + destruct Hni. apply list_elem_of_fmap. by exists (x, a).
  - apply Ha in Hp, Hq. congruence.
Qed.

Lemma match_ranks host r :
  h = to_ascii_lowercase host -> utf8_valid h = true -> (forall p ssl, (p, ssl) ∈ es -> utf8_valid p = true) ->
  (forall suf ssl, ("*." +:+ suf, ssl) ∈ es -> suf <> "") -> match_sni m host = Ok r ->
  match r with
  | Some ssl => exists k, es_serves ssl k /\ forall ssl' k', es_serves ssl' k' -> (k <= k')%nat
  | None => forall ssl k, ~ es_serves ssl k
  end.
Proof.
  destruct Hix as [(M & HM & Hx) Hw Hnd Ha]. intros Hh Hv Hvs Hne Hr. unfold match_sni in Hr. cbv zeta in Hr.
  rewrite <- Hh, (holds_at _ _ _ HM) in Hr. destruct (M !! rev_chars h) as [v|] eqn:Hlk.
  { injection Hr as <-. apply Hx in Hlk as (p & Hp & Hf & Hrev).
    assert (p = h) as -> by (eapply rev_chars_inj; [by eapply Hvs|done..]).
    exists 0%nat. split; [exists h; split; [done|by constructor]|]. intros; lia. }
  assert (forall ssl, ~ es_serves ssl 0) as Hno0.
  { intros ssl (p & Hp & Hm). inversion Hm; subst p. assert (M !! rev_chars h = Some ssl) by (apply Hx; eauto). congruence. }
  apply and_then_ok in Hr as (w & Hw1 & Hr). injection Hr as <-. apply first_wildcard_ok in Hw1.
  2:{ intros suf ssl Hin%Hw. by eapply Hne. }
  destruct w as [ssl|].
  { destruct Hw1 as (suf & Hin & Ho). exists 1%nat. split.
    - exists ("*." +:+ suf). split; [by apply Hw|by constructor].
    - intros ssl' [|k'] Hs; [by apply Hno0 in Hs|lia]. }
  assert (forall ssl, ~ es_serves ssl 1) as H1'.
  { intros ssl (p & Hp & Hm). inversion Hm; subst p. by eapply Hw1; [apply Hw|]. }
  assert (forall ssl k, es_serves ssl k -> k = 2%nat) as H2'.
  { intros ssl k Hs. destruct Hs as (p & Hp & Hm). inversion Hm; subst; [destruct (Hno0 ssl)|destruct (H1' ssl)|done]; eexists; eauto. }
  destruct (catch_all m) as [ssl|] eqn:Hc.
  - exists 2%nat. split; [exists "*"; split; [by apply Ha|constructor]|]. intros ssl' k' ->%H2'. done.
  - intros ssl k Hs. assert (k = 2%nat) as -> by eauto. destruct Hs as (p & Hp & Hm). inversion Hm; subst p.
    apply Ha in Hp. congruence.
Qed.

End selection.

(** C37 (certificate selection).  For a loaded certificate set and a name of
    the client the selected certificate is the one whose pattern matches the
    name most specifically: the exact name, else the wildcard with exactly one
    label in front, else the catch-all; none is selected exactly when no
    pattern matches.  A name of ASCII bytes is always answered; on another name
    the selection can only fail by panicking, where the wildcard test of a
    loaded pattern cuts the name inside a character. *)
Theorem match_sni_spec ssls m host :
  loaded ssls -> build ssls = Ok m -> utf8_valid host = true ->
  let h := to_ascii_lowercase host in
  (str_forall (fun a => byte_val a <? 128) host = true -> is_ok (match_sni m host) = true) /\
  match match_sni m host with
  | Ok r =>
    (forall ssl, r = Some ssl <-> exists i rank, ssls !! i = Some ssl /\ serves ssl h rank /\
       forall j ssl' rank', ssls !! j = Some ssl' -> serves ssl' h rank' -> (rank <= rank')%nat) /\
    (r = None <-> forall i ssl rank, ssls !! i = Some ssl -> ~ serves ssl h rank)
  | Err e => e = Panic "byte index is not a char boundary" /\
      exists i ssl suffix, ssls !! i = Some ssl /\ ("*." +:+ suffix, ssl) ∈ entries ssl /\ cuts_char h suffix
  end.
Proof.
  intros Hl Hb Hv h. split; [apply match_sni_total|].
  destruct (build_indexed ssls m) as (es & Hix & Hes); [by intros; apply (Hl i)|done|].
  destruct (match_sni m host) as [r|e] eqn:Hr.
  2: { apply match_sni_err in Hr as (-> & suf & ssl & Hin & Hc). split; [done|]. destruct Hix as [_ Hw _ _].
    apply Hw, Hes in Hin as (i & Hi & Hin). by exists i, ssl, suf. }
  assert (forall ssl k, es_serves es h ssl k <-> exists i, ssls !! i = Some ssl /\ serves ssl h k) as Hserves.
  { intros ssl k. unfold es_serves, serves. setoid_rewrite Hes. naive_solver. }
  pose proof (match_ranks es m Hix h host r eq_refl) as Hranks.
  specialize (Hranks ltac:(unfold h; by rewrite lower_valid)).
  assert (forall p ssl, (p, ssl) ∈ es -> utf8_valid p = true) as Hvalid.
  { intros p ssl (i & Hi & (s & [= ->] & Hs)%list_elem_of_fmap)%Hes. rewrite lower_valid. by apply (Hl _ _ Hi). }
  assert (forall suf ssl, ("*." +:+ suf, ssl) ∈ es -> suf <> "") as Hsuf.
  { intros suf ssl (i & Hi & Hin)%Hes. by eapply loaded_suffix. }
  specialize (Hranks Hvalid Hsuf Hr). split.
  - intros ssl. split.
    + intros ->. destruct Hranks as (k & Hs & Hmin). apply Hserves in Hs as (i & Hi & Hs). exists i, k.
      split_and!; [done..|]. intros j ssl' k' Hj Hs'. apply (Hmin ssl'), Hserves. by exists j.
    + intros (i & k & Hi & Hs & Hmin). assert (es_serves es h ssl k) as Hes1 by (apply Hserves; by exists i).
      destruct r as [v|]; [|by apply Hranks in Hes1]. destruct Hranks as (k' & Hk' & Hmin').
      f_equal. assert (k' = k) as ->; [|by eapply serves_functional].
      pose proof (Hmin' _ _ Hes1). apply Hserves in Hk' as (j & Hj & Hk'). pose proof (Hmin _ _ _ Hj Hk'). lia.
  - split.
    + intros -> i ssl k Hi Hs. apply (Hranks ssl k), Hserves. by exists i.
    + intros Hno. destruct r as [v|]; [|done]. destruct Hranks as (k & Hk & _). apply Hserves in Hk as (i & Hi & Hs).
      by destruct (Hno i v k Hi Hs).
Qed.

End contents.
(** ** Witnesses *)

Import ToyEnv.

Module ToyRouter.

#[export] Instance router : MatchRouter := {
  Router A := gmap string A;
  router_new A := ∅;
  router_insert A p a m :=
    if literal_route p && bool_decide (m !! p = None) then Ok (<[p := a]> m) else Err "conflict";
  router_at A m p := m !! p;
}.

#[export, refine] Instance laws : MatchRouterLaws := { holds A m m' := m = m' }.
Proof.
  - done.
  - intros A r m p a -> Hl Hp. eexists. split; [|done]. simpl. by rewrite Hl, bool_decide_true.
  - intros A r m p a -> Hl [b Hb]. simpl. by rewrite Hl, Hb.
  - by intros A r m p ->.
Defined.

Definition ssl (i : string) (names : list string) : ProxySSL :=
  {| ssl_inner := {| SSL.id := i; SSL.cert := "K"; SSL.key := "K"; SSL.snis := names |};
     parsed_cert := "K"; parsed_key := "K" |}.

Definition ssls : gmap string ProxySSL :=
  {[ "exact" := ssl "exact" ["API.example.com"]; "wild" := ssl "wild" ["*.example.com"]; "any" := ssl "any" ["*"] ]}.
Definition matcher : MatchEntry :=
  match build ssls with Ok m => m | Err _ => MatchEntry_default end.

Lemma ssls_loaded : loaded ssls.
Proof.
  intros i s Hi. unfold ssls in Hi. repeat (apply lookup_insert_Some in Hi as [[<- <-]|[_ Hi]]);
    try (apply lookup_singleton_Some in Hi as [<- <-]).
  all: split_and!; [match goal with |- exists v, _ = Ok ?x => exists (ssl_inner x); vm_compute; reflexivity end|intros n ->%list_elem_of_singleton; reflexivity..].
Qed.

End ToyRouter.
Import ToyRouter.

Lemma match_sni_spec_witness :
  let h := to_ascii_lowercase "api.Example.com" in
  match_sni matcher "api.Example.com" = Ok (Some (ssl "exact" ["API.example.com"])) /\
  (exists i rank, ssls !! i = Some (ssl "exact" ["API.example.com"]) /\ serves (ssl "exact" ["API.example.com"]) h rank) /\
  match_sni matcher "b.example.com" = Ok (Some (ssl "wild" ["*.example.com"])) /\
  match_sni matcher "a.b.example.com" = Ok (Some (ssl "any" ["*"])).
Proof.
  assert (match_sni matcher "api.Example.com" = Ok (Some (ssl "exact" ["API.example.com"]))) as Hm by (vm_compute; reflexivity).
  split; [exact Hm|]. split; [|split; vm_compute; reflexivity].
  pose proof (match_sni_spec ssls matcher "api.Example.com" ssls_loaded eq_refl eq_refl) as [_ Hspec]. rewrite Hm in Hspec. destruct Hspec as [Hs _].
  destruct (proj1 (Hs _) eq_refl) as (i & rank & Hi & Hr & _). exists i, rank. split; [exact Hi | exact Hr].
Defined.

Lemma match_sni_total_witness : is_ok (match_sni matcher "unknown.test") = true.
Proof. exact (match_sni_total matcher "unknown.test" eq_refl). Defined.

(** A client may send any UTF-8 name: one whose suffix-length tail starts
    inside a character panics the certificate callback. *)
Example match_sni_panics :
  match_sni matcher "aaaé0123456789" = Err (Panic "byte index is not a char boundary").
Proof. vm_compute. reflexivity. Qed.
