(* ===== verification/RouteBuild.v ===== *)
(** * Compiled resources ([src/src/proxy/route.rs], [service.rs], [global_rule.rs])

    What the control plane compiles a resource into: upstreams with their load
    balancer, plugin entries, services, global rules and routes, with the
    objects they hold.  An [Arc] is a value with the allocation that made it;
    load balancers and plugin bodies are opaque, and the table of plugin
    factories is a parameter, as in [ConfigSet]. *)

From Stdlib Require Import ZArith Lia Sorted Floats.SpecFloat.
From stdpp Require Import base tactics gmap fin_maps strings option sorting list.
From S2P Require Import Prelude Errors GraphStore Hosts Json Config ConfigSet.

Open Scope Z_scope.

(** ** Decidable equality of configurations ([#[derive(PartialEq)]])

    Floats compare by representation; Rust also equates the two zeros. *)

#[export] Instance spec_float_eq_dec : EqDecision spec_float.
Proof. solve_decision. Defined.
#[export] Instance Number_eq_dec : EqDecision Number.
Proof. solve_decision. Defined.

Fixpoint Json_eq_dec (a b : Json) : {a = b} + {a <> b}.
Proof.
  destruct a as [|x|x|x|xs|xs], b as [|y|y|y|ys|ys]; try (right; discriminate).
  - by left.
  - destruct (decide (x = y)); [left|right]; congruence.
  - destruct (decide (x = y)); [left|right]; congruence.
  - destruct (decide (x = y)); [left|right]; congruence.
  - destruct (list_eq_dec (dec := Json_eq_dec) xs ys); [left|right]; congruence.
  - destruct (list_eq_dec (dec := @prod_eq_dec _ _ _ Json_eq_dec) xs ys); [left|right]; congruence.
Defined.
#[export] Instance Json_EqDecision : EqDecision Json := Json_eq_dec.

#[export] Instance Timeout_eq_dec : EqDecision Timeout.t.
Proof. solve_decision. Defined.
#[export] Instance UpstreamTls_eq_dec : EqDecision UpstreamTls.t.
Proof. solve_decision. Defined.
#[export] Instance KeepalivePool_eq_dec : EqDecision KeepalivePool.t.
Proof. solve_decision. Defined.
#[export] Instance PassiveHealthy_eq_dec : EqDecision PassiveHealthy.t.
Proof. solve_decision. Defined.
#[export] Instance PassiveUnhealthy_eq_dec : EqDecision PassiveUnhealthy.t.
Proof. solve_decision. Defined.
#[export] Instance PassiveCheck_eq_dec : EqDecision PassiveCheck.t.
Proof. solve_decision. Defined.
#[export] Instance Health_eq_dec : EqDecision Health.t.
Proof. solve_decision. Defined.
#[export] Instance Unhealthy_eq_dec : EqDecision Unhealthy.t.
Proof. solve_decision. Defined.
#[export] Instance ActiveCheckType_eq_dec : EqDecision ActiveCheckType.
Proof. solve_decision. Defined.
#[export] Instance ActiveCheck_eq_dec : EqDecision ActiveCheck.t.
Proof. solve_decision. Defined.
#[export] Instance HealthCheck_eq_dec : EqDecision HealthCheck.t.
Proof. solve_decision. Defined.
#[export] Instance SelectionType_eq_dec : EqDecision SelectionType.
Proof. solve_decision. Defined.
#[export] Instance UpstreamHashOn_eq_dec : EqDecision UpstreamHashOn.
Proof. solve_decision. Defined.
#[export] Instance UpstreamPassHost_eq_dec : EqDecision UpstreamPassHost.
Proof. solve_decision. Defined.
#[export] Instance Upstream_eq_dec : EqDecision Upstream.t.
Proof. solve_decision. Defined.
#[export] Instance Service_eq_dec : EqDecision Service.t.
Proof. solve_decision. Defined.
#[export] Instance GlobalRule_eq_dec : EqDecision GlobalRule.t.
Proof. solve_decision. Defined.
#[export] Instance Route_eq_dec : EqDecision Route.t.
Proof. solve_decision. Defined.
#[export] Instance SSL_eq_dec : EqDecision SSL.t.
Proof. solve_decision. Defined.

(** ** Building with allocation

    The state counts the allocations made so far; [Arc::ptr_eq] is equality of
    allocations. *)

Definition B (A : Type) : Type := nat -> Result (A * nat) ProxyError.
Definition pure {A} (a : A) : B A := fun n => Ok (a, n).
Definition fail {A} (e : ProxyError) : B A := fun _ => Err e.
Definition bindB {A C} (m : B A) (f : A -> B C) : B C := fun n =>
  match m n with Ok (a, n') => f a n' | Err e => Err e end.
Definition from_result {A} (r : Result A ProxyError) : B A :=
  match r with Ok a => pure a | Err e => fail e end.
Definition on_err {A} (f : ProxyError -> ProxyError) (m : B A) : B A := fun n => map_err f (m n).
Definition allocate : B nat := fun n => Ok (n, S n).
Notation "'let!' x ':=' m 'in' k" := (bindB m (fun x => k))
  (at level 10, x name, m at level 100, k at level 200,
   format "'let!'  x  ':='  m  'in' '//' k") : pingsix_scope.

Fixpoint collect {A C} (f : A -> B C) (l : list A) : B (list C) :=
  match l with
  | [] => pure []
  | x :: l' => let! y := f x in let! ys := collect f l' in pure (y :: ys)
  end.

Lemma bindB_ok {A C} (m : B A) (f : A -> B C) n c n' :
  bindB m f n = Ok (c, n') <-> exists a k, m n = Ok (a, k) /\ f a k = Ok (c, n').
Proof. unfold bindB. destruct (m n) as [[a k]|]; naive_solver. Qed.
Lemma pure_ok {A} (a : A) n b n' : pure a n = Ok (b, n') <-> b = a /\ n' = n.
Proof. unfold pure. naive_solver. Qed.
Lemma on_err_ok {A} f (m : B A) n a n' : on_err f m n = Ok (a, n') <-> m n = Ok (a, n').
Proof. unfold on_err. destruct (m n); simpl; naive_solver. Qed.
Lemma from_result_ok {A} (r : Result A ProxyError) n a n' :
  from_result r n = Ok (a, n') <-> r = Ok a /\ n' = n.
Proof. destruct r; unfold from_result, pure, fail; naive_solver. Qed.

Lemma collect_ok {A C} (f : A -> B C) l n ys n' :
  collect f l n = Ok (ys, n') -> forall y, y ∈ ys -> exists x k k', x ∈ l /\ f x k = Ok (y, k').
Proof.
  revert n ys; induction l as [|x l IH]; simpl; intros n ys.
  { intros [-> ->]%pure_ok y Hy. by apply not_elem_of_nil in Hy. }
  intros (y & k & Hy & (zs & k2 & Hzs & [-> ->]%pure_ok)%bindB_ok)%bindB_ok z [->|Hz]%elem_of_cons.
  - exists x, n, k. split; [left|done].
  - destruct (IH _ _ Hzs _ Hz) as (x' & k' & k'' & Hx & Hf). exists x', k', k''. split; [by right|done].
Qed.

(** ** Compiled objects *)

(** The load balancer an upstream compiles to, the prepared (resolved)
    material, plugin instances and random ids are opaque. *)
Class Compiler : Type := {
  Lb : Type;
  Prep : Type;
  Body : Type;
  from_prepared : Upstream.t -> Prep -> Result Lb string;
  fresh_uuid : nat -> string;
}.

Definition CORS_PLUGIN_NAME : string := "cors".

Section build.
Context `{Compiler}.

Record ProxyUpstream : Type := { pu_inner : Upstream.t; pu_lb : Lb; pu_arc : nat }.

(** [p_targets] are the upstreams of the candidate a plugin instance holds,
    [p_inlines] the ones it compiled itself. *)
Record Plugin : Type := {
  body : Body;
  p_name : string;
  p_priority : Z;
  p_targets : list ProxyUpstream;
  p_inlines : list ProxyUpstream;
}.

Record PluginEntry : Type := { plugin : Plugin; phases : Z }.
Definition entry_name (e : PluginEntry) : string := p_name (plugin e).
Definition entry_priority (e : PluginEntry) : Z := p_priority (plugin e).

Abbreviation Prepared := (UpstreamOccurrence -> option Prep).
Abbreviation Upstreams := (gmap string ProxyUpstream).

Inductive PluginFactory : Type :=
| Plain (create : Json -> Result (Body * (string * Z)) ProxyError)
| WithUpstreams (create : Json -> Upstreams -> Prepared -> TrafficSplitOwner -> B Plugin).

Record FactoryMeta : Type := { fm_name : string; fm_phases : Z; fm_factory : PluginFactory }.

Context (FACTORIES : list FactoryMeta).

(** [ProxyUpstream::build] under an [Arc] *)
Definition ProxyUpstream_build (upstream : Upstream.t) (prepared : Prep) : B ProxyUpstream :=
  let! arc := allocate in
  let upstream := if bool_decide (Upstream.id upstream = "")
                  then Upstream_set_id ("inline_" +:+ fresh_uuid arc) upstream else upstream in
  match from_prepared upstream prepared with
  | Ok lb => pure {| pu_inner := upstream; pu_lb := lb; pu_arc := arc |}
  | Err e => fail (Configuration ("Failed to create load balancer: " +:+ e))
  end.

Definition with_context {A} (context : string) (m : B A) : B A :=
  on_err (fun e => Internal (context +:+ ": " +:+ ProxyError_to_string e)) m.

Definition build_plugin_with_upstreams (name : string) (cfg : Json) (us : Upstreams) (prepared : Prepared)
    (owner : TrafficSplitOwner) : B PluginEntry :=
  match List.find (fun m => bool_decide (fm_name m = name)) FACTORIES with
  | None => fail (PluginError ("Unknown plugin type: " +:+ name))
  | Some meta =>
    let! p := match fm_factory meta with
              | Plain create =>
                let! r := from_result (create cfg) in
                pure {| body := r.1; p_name := r.2.1; p_priority := r.2.2; p_targets := []; p_inlines := [] |}
              | WithUpstreams create => create cfg us prepared owner
              end in
    pure {| plugin := p; phases := fm_phases meta |}
  end.

(** *** Plugin order *)

(** [sort_plugins_by_priority_desc]: higher priority first, then the name. *)
Definition entry_key (e : PluginEntry) : Z * string := (- entry_priority e, entry_name e).
Definition entry_le : PluginEntry -> PluginEntry -> Prop := Hosts.key_le (pair_cmp Z.compare str_cmp) entry_key.
#[export] Instance entry_le_dec : RelDecision entry_le.
Proof. intros a b. unfold entry_le, Hosts.key_le. apply _. Defined.
#[export] Instance entry_le_total : Total entry_le := Hosts.key_le_total _ entry_key.
#[export] Instance entry_le_trans : Transitive entry_le := Hosts.key_le_trans _ entry_key.

Definition sort_plugins_by_priority_desc (entries : list PluginEntry) : list PluginEntry :=
  merge_sort entry_le entries.

(** A sorted, deduplicated vector searched by bisection: membership. *)
Definition build_plugin_name_index (plugins : list PluginEntry) : list string :=
  remove_dups (entry_name <$> plugins).
Definition route_overrides_plugin (route_plugin_names : list string) (plugin_name : string) : bool :=
  bool_decide (plugin_name ∈ route_plugin_names).

(** The two-index merge: ties go to the route, overridden service plugins are skipped. *)
Fixpoint merge_route_and_service_plugins (route_plugins service_plugins : list PluginEntry)
    (names : list string) {struct route_plugins} : list PluginEntry :=
  (fix take_service (service_plugins : list PluginEntry) : list PluginEntry :=
    match route_plugins, service_plugins with
    | [], [] => []
    | rp :: rest, [] => rp :: merge_route_and_service_plugins rest [] names
    | [], sp :: srest =>
      if route_overrides_plugin names (entry_name sp) then take_service srest else sp :: take_service srest
    | rp :: rest, sp :: srest =>
      if entry_priority rp >=? entry_priority sp
      then rp :: merge_route_and_service_plugins rest service_plugins names
      else if route_overrides_plugin names (entry_name sp) then take_service srest else sp :: take_service srest
    end) service_plugins.

(** *** Services, global rules and routes *)

Record ProxyService : Type := {
  ps_inner : Service.t;
  ps_upstream : option ProxyUpstream;
  ps_plugins : list PluginEntry;
  ps_inline : option ProxyUpstream;
}.
Record ProxyGlobalRule : Type := { pg_inner : GlobalRule.t; pg_plugins : list PluginEntry }.
Record ProxyRoute : Type := {
  pr_inner : Route.t;
  pr_plugins : list PluginEntry;
  pr_resolved : option ProxyUpstream;
  effective_hosts : list string;
  service_name : option string;
  pr_executor : list PluginEntry;
  pr_inline : option ProxyUpstream;
  serves_preflight : bool;
}.

(** The inline upstream of a scope, compiled from its prepared occurrence. *)
Definition build_inline (upstream : option Upstream.t) (prepared : option Prep) (missing context : string)
    : B (option ProxyUpstream) :=
  match upstream with
  | Some u =>
    let! p := from_result (ok_or (Configuration missing) prepared) in
    let! b := with_context context (ProxyUpstream_build u p) in
    pure (Some b)
  | None => pure None
  end.

Definition build_plugins (plugins : Plugins_map) (us : Upstreams) (prepared : Prepared)
    (owner : TrafficSplitOwner) (error : string -> ProxyError -> ProxyError) : B (list PluginEntry) :=
  let! entries := collect (fun nv : string * Json =>
                    on_err (error nv.1) (build_plugin_with_upstreams nv.1 nv.2 us prepared owner))
                    (map_to_list plugins) in
  pure (sort_plugins_by_priority_desc entries).

Definition ProxyService_build (service : Service.t) (us : Upstreams) (prepared : Prepared) : B ProxyService :=
  let i := Service.id service in
  let! inline := build_inline (Service.upstream service) (prepared (ServiceInline i))
      ("Service '" +:+ i +:+ "' inline upstream was not prepared")
      ("Failed to create upstream for service '" +:+ i +:+ "'") in
  let! up := match inline, Service.upstream_id service with
             | Some u, _ => pure (Some u)
             | None, Some uid =>
               let! u := from_result (ok_or (Configuration ("Service '" +:+ i +:+ "' references missing upstream '"
                                                             +:+ uid +:+ "'")) (us !! uid)) in
               pure (Some u)
             | None, None => pure None
             end in
  let! plugins := build_plugins (Service.plugins service) us prepared (OwnerService i)
      (fun name e => PluginError ("Failed to build plugin '" +:+ name +:+ "' for service '" +:+ i +:+ "': "
                                   +:+ ProxyError_to_string e)) in
  pure {| ps_inner := service; ps_upstream := up; ps_plugins := plugins; ps_inline := inline |}.

Definition ProxyGlobalRule_build (rule : GlobalRule.t) (us : Upstreams) (prepared : Prepared) : B ProxyGlobalRule :=
  let i := GlobalRule.id rule in
  let! plugins := build_plugins (GlobalRule.plugins rule) us prepared (OwnerGlobalRule i)
      (fun name e => PluginError ("Failed to build plugin '" +:+ name +:+ "' for global rule '" +:+ i +:+ "': "
                                   +:+ ProxyError_to_string e)) in
  pure {| pg_inner := rule; pg_plugins := plugins |}.

Definition ProxyRoute_build (route : Route.t) (us : Upstreams) (ss : gmap string ProxyService)
    (prepared : Prepared) : B ProxyRoute :=
  let i := Route.id route in
  let! service := match Route.service_id route with
                  | Some sid =>
                    let! s := from_result (ok_or (Configuration ("Route '" +:+ i +:+ "' references missing service '"
                                                                  +:+ sid +:+ "'")) (ss !! sid)) in
                    pure (Some s)
                  | None => pure None
                  end in
  let! inline := build_inline (Route.upstream route) (prepared (RouteInline i))
      ("Route '" +:+ i +:+ "' inline upstream was not prepared")
      ("Failed to create upstream for route '" +:+ i +:+ "'") in
  let! resolved := match inline, Route.upstream_id route with
                   | Some u, _ => pure (Some u)
                   | None, Some uid =>
                     let! u := from_result (ok_or (Configuration ("Route '" +:+ i +:+ "' references missing upstream '"
                                                                   +:+ uid +:+ "'")) (us !! uid)) in
                     pure (Some u)
                   | None, None => pure (service ≫= ps_upstream)
                   end in
  let hosts := if bool_decide (Route.get_hosts route <> []) then Route.get_hosts route
               else default [] ((fun s => Service.hosts (ps_inner s)) <$> service) in
  let! plugins := build_plugins (Route.plugins route) us prepared (OwnerRoute i)
      (fun name e => PluginError ("Failed to build plugin '" +:+ name +:+ "': " +:+ ProxyError_to_string e)) in
  let merged := match service with
                | Some s => merge_route_and_service_plugins plugins (ps_plugins s) (build_plugin_name_index plugins)
                | None => plugins
                end in
  pure {| pr_inner := route; pr_plugins := plugins; pr_resolved := resolved; effective_hosts := hosts;
          service_name := service ≫= (fun s => Service.name (ps_inner s)); pr_executor := merged;
          pr_inline := inline;
          serves_preflight := existsb (fun e => bool_decide (entry_name e = CORS_PLUGIN_NAME)) merged |}.

(** *** Global plugin order *)

Definition rule_le : ProxyGlobalRule -> ProxyGlobalRule -> Prop :=
  Hosts.key_le str_cmp (fun r => GlobalRule.id (pg_inner r)).
#[export] Instance rule_le_dec : RelDecision rule_le.
Proof. intros a b. unfold rule_le, Hosts.key_le. apply _. Defined.

Definition global_key (re : string * PluginEntry) : Z * string * string :=
  (- entry_priority re.2, entry_name re.2, re.1).
Definition global_le : string * PluginEntry -> string * PluginEntry -> Prop :=
  Hosts.key_le (pair_cmp (pair_cmp Z.compare str_cmp) str_cmp) global_key.
#[export] Instance global_le_dec : RelDecision global_le.
Proof. intros a b. unfold global_le, Hosts.key_le. apply _. Defined.

Definition build_global_plugin_executor (rules : gmap string ProxyGlobalRule) : list PluginEntry :=
  let rules := merge_sort rule_le (map_to_list rules).*2 in
  let with_rule := rules ≫= (fun r => pair (GlobalRule.id (pg_inner r)) <$> pg_plugins r) in
  (merge_sort global_le with_rule).*2.

(** ** The merged order *)

Definition prio_ge (a b : PluginEntry) : Prop := entry_priority b <= entry_priority a.
Definition kept (names : list string) (e : PluginEntry) : Prop := route_overrides_plugin names (entry_name e) = false.
#[export] Instance kept_dec names e : Decision (kept names e).
Proof. unfold kept. apply _. Defined.

Lemma merge_nil_l ss names :
  merge_route_and_service_plugins [] ss names = filter (kept names) ss.
Proof.
  induction ss as [|s ss IH]; simpl; [done|]. simpl in IH. rewrite IH.
  destruct (route_overrides_plugin names (entry_name s)) eqn:E.
  - by rewrite filter_cons_False by (unfold kept; congruence).
  - by rewrite filter_cons_True.
Qed.

Lemma merge_cons_cons r rs s ss names :
  merge_route_and_service_plugins (r :: rs) (s :: ss) names =
  if entry_priority r >=? entry_priority s
  then r :: merge_route_and_service_plugins rs (s :: ss) names
  else if route_overrides_plugin names (entry_name s)
       then merge_route_and_service_plugins (r :: rs) ss names
       else s :: merge_route_and_service_plugins (r :: rs) ss names.
Proof. done. Qed.

Lemma merge_nil_r rs names : merge_route_and_service_plugins rs [] names = rs.
Proof. induction rs as [|r rs IH]; simpl; [done|]. by rewrite IH. Qed.

Lemma merge_elems rs ss names :
  merge_route_and_service_plugins rs ss names ≡ₚ (rs ++ filter (kept names) ss)%list.
Proof.
  revert ss; induction rs as [|r rs IH]; intros ss; [by rewrite merge_nil_l|].
  induction ss as [|s ss IHs]; [rewrite merge_nil_r, filter_nil; by rewrite app_nil_r|].
  rewrite merge_cons_cons. destruct (_ >=? _); [by rewrite IH|].
  destruct (route_overrides_plugin names (entry_name s)) eqn:E.
  - rewrite filter_cons_False by (unfold kept; congruence). exact IHs.
  - rewrite filter_cons_True by done. rewrite IHs. by rewrite <- Permutation_middle.
Qed.

Lemma merge_sorted rs ss names :
  StronglySorted prio_ge rs -> StronglySorted prio_ge ss ->
  StronglySorted prio_ge (merge_route_and_service_plugins rs ss names).
Proof.
  assert (Transitive prio_ge) as Htr by (intros a b c; unfold prio_ge; lia).
  assert (forall x l1 l2, Forall (prio_ge x) l1 -> Forall (prio_ge x) l2 ->
    Forall (prio_ge x) (merge_route_and_service_plugins l1 l2 names)) as Hall.
  { intros x l1 l2 H1 H2. rewrite merge_elems. apply Forall_app. split; [done|].
    apply Forall_forall. intros y [_ Hy]%list_elem_of_filter. rewrite Forall_forall in H2. auto. }
  intros Hr. revert ss; induction Hr as [|r rs Hr IH Hrall]; intros ss Hs.
  { rewrite merge_nil_l. induction Hs as [|s ss Hs IH Hsall]; [constructor|]. rewrite filter_cons.
    case_decide; [|done]. constructor; [done|]. apply Forall_forall. intros y [_ Hy]%list_elem_of_filter.
    rewrite Forall_forall in Hsall. auto. }
  induction Hs as [|s ss Hs IHs Hsall]; [rewrite merge_nil_r; by constructor|].
  rewrite merge_cons_cons. destruct (_ >=? _) eqn:E.
  - constructor; [apply IH; by constructor|]. apply Hall; [done|].
    assert (prio_ge r s) as Hrs by (unfold prio_ge; apply Z.geb_le in E; lia).
    constructor; [done|]. eapply Forall_impl; [exact Hsall|]. intros y Hy. by etrans.
  - assert (prio_ge s r) as Hsr by (unfold prio_ge; rewrite Z.geb_leb in E; apply Z.leb_gt in E; lia).
    destruct (route_overrides_plugin _ _); [done|]. constructor; [done|]. apply Hall; [|done].
    constructor; [done|]. eapply Forall_impl; [exact Hrall|]. intros y Hy. by etrans.
Qed.

Lemma sort_prio l : StronglySorted prio_ge (sort_plugins_by_priority_desc l).
Proof.
  pose proof (StronglySorted_merge_sort entry_le l) as Hs. unfold sort_plugins_by_priority_desc.
  induction Hs as [|x l' Hs IH Hall]; constructor; [done|]. eapply Forall_impl; [exact Hall|].
  intros y Hy. unfold entry_le, Hosts.key_le, pair_cmp, entry_key in Hy. simpl in Hy. unfold prio_ge.
  destruct (- entry_priority x ?= - entry_priority y) eqn:E; simpl in Hy; [|rewrite Z.compare_lt_iff in E; lia|done].
  apply Z.compare_eq in E. lia.
Qed.

(** ** Inversion of the builds *)

Lemma ok_or_ok {A E} (e : E) (o : option A) a : ok_or e o = Ok a <-> o = Some a.
Proof. destruct o; simpl; naive_solver. Qed.

(** A plugin factory that sees the candidate's upstreams takes from them only
    upstreams that the plugin's declared references name. *)
Definition targets_declared (refs : string -> Json -> Result (list string) ProxyError) : Prop :=
  forall name meta create, List.find (fun m => bool_decide (fm_name m = name)) FACTORIES = Some meta ->
    fm_factory meta = WithUpstreams create ->
  forall cfg us prepared owner n p n', create cfg us prepared owner n = Ok (p, n') ->
    exists ids, refs name cfg = Ok ids /\ forall u, u ∈ p_targets p -> exists i, i ∈ ids /\ us !! i = Some u.

Lemma build_plugins_ok plugins us prepared owner error n es n' refs :
  targets_declared refs ->
  build_plugins plugins us prepared owner error n = Ok (es, n') ->
  forall e, e ∈ es -> p_targets (plugin e) = [] \/
    exists name cfg ids, plugins !! name = Some cfg /\ refs name cfg = Ok ids /\
      forall u, u ∈ p_targets (plugin e) -> exists i, i ∈ ids /\ us !! i = Some u.
Proof.
  intros Hd Hb e He. unfold build_plugins in Hb.
  apply bindB_ok in Hb as (l & k & Hl & [-> ->]%pure_ok). unfold sort_plugins_by_priority_desc in He.
  rewrite merge_sort_Permutation in He.
  destruct (collect_ok _ _ _ _ _ Hl e He) as ([name cfg] & i & j & Hnc%elem_of_map_to_list & He'). simpl in He'.
  apply on_err_ok in He'. unfold build_plugin_with_upstreams in He'.
  destruct (List.find _ _) as [meta|] eqn:Hm; [|done].
  apply bindB_ok in He' as (p & i' & Hp & [-> ->]%pure_ok). simpl.
  destruct (fm_factory meta) as [create|create] eqn:Hf.
  - apply bindB_ok in Hp as (r & ? & _ & [-> _]%pure_ok). by left.
  - right. destruct (Hd _ _ _ Hm Hf _ _ _ _ _ _ _ Hp) as (ids & Hids & Hu). eauto 8.
Qed.

(** [x] is what building the upstream [u] gives, from some prepared body. *)
Definition built_from (u : Upstream.t) (x : ProxyUpstream) : Prop :=
  exists p n n', ProxyUpstream_build u p n = Ok (x, n').

(** The inline upstream of a scope is built from the configured one. *)
Definition inline_built (config : option Upstream.t) (inline : option ProxyUpstream) : Prop :=
  match config, inline with
  | Some u, Some x => built_from u x
  | None, None => True
  | _, _ => False
  end.

Lemma ProxyUpstream_build_ok u p n x n' : ProxyUpstream_build u p n = Ok (x, n') ->
  pu_arc x = n /\ n' = S n /\ from_prepared (pu_inner x) p = Ok (pu_lb x) /\
  pu_inner x = if bool_decide (Upstream.id u = "") then Upstream_set_id ("inline_" +:+ fresh_uuid n) u else u.
Proof.
  unfold ProxyUpstream_build. intros (arc & k & Ha & Hb)%bindB_ok. injection Ha as -> ->. cbv zeta in Hb.
  destruct (from_prepared _ _) as [lb|e] eqn:E; [|done]. injection Hb as <- <-. done.
Qed.

(** A built upstream has the configuration it was built from; only an
    upstream without an id is given one. *)
Lemma built_from_inner u x : built_from u x -> Upstream.id u <> "" -> pu_inner x = u.
Proof. intros (p & n & n' & (_ & _ & _ & ->)%ProxyUpstream_build_ok) Hid. by rewrite bool_decide_false. Qed.

Lemma built_from_self u x : built_from u x -> built_from (pu_inner x) x.
Proof.
  intros (p & n & n' & Hb). pose proof (ProxyUpstream_build_ok _ _ _ _ _ Hb) as (<- & -> & Hp & Hi). exists p, (pu_arc x), (S (pu_arc x)).
  assert (Hne : bool_decide (Upstream.id (pu_inner x) = "") = false).
  { apply bool_decide_false. rewrite Hi. case_bool_decide as E; [by destruct u|done]. }
  unfold ProxyUpstream_build, allocate, bindB. rewrite Hne. cbv zeta. rewrite Hp. by destruct x.
Qed.

Lemma build_inline_ok upstream prepared m c n o n' :
  build_inline upstream prepared m c n = Ok (o, n') -> inline_built upstream o.
Proof.
  unfold build_inline. destruct upstream as [u|]; [|by intros [-> _]%pure_ok].
  intros (p & k & [Hp%ok_or_ok _]%from_result_ok & Hr)%bindB_ok.
  apply bindB_ok in Hr as (b & k' & Hb & [-> _]%pure_ok). unfold with_context in Hb. apply on_err_ok in Hb. by exists p, k, k'.
Qed.

(** The upstream a scope resolves to, given the named upstreams. *)
Definition resolves_to (us : Upstreams) (inline : option ProxyUpstream) (i : option string)
    (fallback resolved : option ProxyUpstream) : Prop :=
  match inline, i with
  | Some u, _ => resolved = Some u
  | None, Some i => is_Some resolved /\ resolved = us !! i
  | None, None => resolved = fallback
  end.

Definition targets_from (us : Upstreams) (refs : string -> Json -> Result (list string) ProxyError)
    (plugins : Plugins_map) (es : list PluginEntry) : Prop :=
  forall e u, e ∈ es -> u ∈ p_targets (plugin e) ->
    exists name cfg ids i, plugins !! name = Some cfg /\ refs name cfg = Ok ids /\ i ∈ ids /\ us !! i = Some u.

Lemma build_plugins_targets plugins us prepared owner error n es n' refs :
  targets_declared refs -> build_plugins plugins us prepared owner error n = Ok (es, n') ->
  targets_from us refs plugins es.
Proof.
  intros Hd Hb e u He Hu. destruct (build_plugins_ok _ _ _ _ _ _ _ _ _ Hd Hb e He) as [Hn|(name & cfg & ids & Hc & Hr & Ht)].
  - rewrite Hn in Hu. by apply not_elem_of_nil in Hu.
  - destruct (Ht u Hu) as (i & Hi & Hl). by exists name, cfg, ids, i.
Qed.

Lemma ProxyService_build_ok service us prepared n s n' refs :
  targets_declared refs -> ProxyService_build service us prepared n = Ok (s, n') ->
  ps_inner s = service /\ inline_built (Service.upstream service) (ps_inline s) /\
  resolves_to us (ps_inline s) (Service.upstream_id service) None (ps_upstream s) /\
  targets_from us refs (Service.plugins service) (ps_plugins s) /\
  StronglySorted prio_ge (ps_plugins s).
Proof.
  intros Hd. unfold ProxyService_build. intros (inline & k & Hi & Hr)%bindB_ok.
  apply bindB_ok in Hr as (up & k1 & Hup & Hr). apply bindB_ok in Hr as (pl & k2 & Hpl & [-> _]%pure_ok). simpl.
  split; [done|]. split.
  { by apply build_inline_ok in Hi. }
  split; [|split; [by eapply build_plugins_targets|]].
  - unfold resolves_to. destruct inline as [u|]; [by apply pure_ok in Hup as [-> _]|].
    destruct (Service.upstream_id service) as [uid|]; [|by apply pure_ok in Hup as [-> _]].
    apply bindB_ok in Hup as (u & k3 & [Hu%ok_or_ok _]%from_result_ok & [-> _]%pure_ok). by rewrite Hu.
  - unfold build_plugins in Hpl. apply bindB_ok in Hpl as (l & ? & _ & [-> _]%pure_ok). apply sort_prio.
Qed.

Lemma ProxyGlobalRule_build_ok rule us prepared n g n' refs :
  targets_declared refs -> ProxyGlobalRule_build rule us prepared n = Ok (g, n') ->
  pg_inner g = rule /\ targets_from us refs (GlobalRule.plugins rule) (pg_plugins g).
Proof.
  intros Hd. unfold ProxyGlobalRule_build. intros (pl & k & Hpl & [-> _]%pure_ok)%bindB_ok. simpl.
  split; [done|]. by eapply build_plugins_targets.
Qed.

(** The service a route binds to. *)
Definition bound_service (ss : gmap string ProxyService) (route : Route.t) : option ProxyService :=
  Route.service_id route ≫= (fun sid => ss !! sid).

Definition merged_plugins (plugins : list PluginEntry) (service : option ProxyService) : list PluginEntry :=
  match service with
  | Some s => merge_route_and_service_plugins plugins (ps_plugins s) (build_plugin_name_index plugins)
  | None => plugins
  end.

Lemma ProxyRoute_build_ok route us ss prepared n r n' refs :
  targets_declared refs -> ProxyRoute_build route us ss prepared n = Ok (r, n') ->
  pr_inner r = route /\ inline_built (Route.upstream route) (pr_inline r) /\
  (forall sid, Route.service_id route = Some sid -> is_Some (ss !! sid)) /\
  resolves_to us (pr_inline r) (Route.upstream_id route) (bound_service ss route ≫= ps_upstream) (pr_resolved r) /\
  targets_from us refs (Route.plugins route) (pr_plugins r) /\
  StronglySorted prio_ge (pr_plugins r) /\
  pr_executor r = merged_plugins (pr_plugins r) (bound_service ss route).
Proof.
  intros Hd. unfold ProxyRoute_build. intros (service & k0 & Hsv & Hr)%bindB_ok.
  apply bindB_ok in Hr as (inline & k & Hi & Hr). apply bindB_ok in Hr as (resolved & k1 & Hup & Hr).
  apply bindB_ok in Hr as (pl & k2 & Hpl & [-> _]%pure_ok). simpl.
  assert (service = bound_service ss route /\
    forall sid, Route.service_id route = Some sid -> is_Some (ss !! sid)) as [-> Hsome].
  { unfold bound_service. destruct (Route.service_id route) as [sid|]; simpl.
    - apply bindB_ok in Hsv as (s & ? & [Hs%ok_or_ok _]%from_result_ok & [-> _]%pure_ok).
      rewrite Hs. split; [done|]. intros ? [= <-]. rewrite Hs. eauto.
    - by apply pure_ok in Hsv as [-> _]. }
  split; [done|]. split.
  { by apply build_inline_ok in Hi. }
  split; [done|]. split; [|split; [by eapply build_plugins_targets|split; [|done]]].
  - unfold resolves_to. destruct inline as [u|]; [by apply pure_ok in Hup as [-> _]|].
    destruct (Route.upstream_id route) as [uid|]; [|by apply pure_ok in Hup as [-> _]].
    apply bindB_ok in Hup as (u & k3 & [Hu%ok_or_ok _]%from_result_ok & [-> _]%pure_ok). by rewrite Hu.
  - unfold build_plugins in Hpl. apply bindB_ok in Hpl as (l & ? & _ & [-> _]%pure_ok). apply sort_prio.
Qed.

(** ** Properties *)

(** Route and service plugins merge.  The executor of a route bound to a
    service runs exactly the route's plugins and the service plugins whose name
    the route does not configure, in non-increasing priority. *)
Theorem merge_spec rs ss :
  let merged := merge_route_and_service_plugins rs ss (build_plugin_name_index rs) in
  merged ≡ₚ (rs ++ filter (fun s => entry_name s ∉ entry_name <$> rs) ss)%list /\
  (StronglySorted prio_ge rs -> StronglySorted prio_ge ss -> StronglySorted prio_ge merged).
Proof.
  intros merged. split; [|apply merge_sorted].
  unfold merged. rewrite merge_elems. f_equiv. apply reflexive_eq, list_filter_iff. intros s.
  unfold kept, route_overrides_plugin, build_plugin_name_index.
  rewrite bool_decide_eq_false, elem_of_remove_dups. done.
Qed.

End build.
