(* ===== verification/ControlPlane.v ===== *)
(** * Candidate planning and compilation ([src/src/proxy/control_plane/plan.rs], [compile.rs])

    One plan per candidate decides what is reused from the previous snapshot
    and what must be prepared; the compiler applies it.  The theorems state that
    no compiled object ever holds a stale one. *)

From Stdlib Require Import ZArith Lia Sorted.
From stdpp Require Import base tactics gmap fin_maps strings option sorting sets list.
From S2P Require Import Prelude Errors GraphStore Hosts Json Config ConfigSet AdminOps RouteBuild.

Open Scope Z_scope.

Section control_plane.
Context `{Compiler} `{OpenSsl}.
Context (FACTORIES : list FactoryMeta) (PLUGIN_META : list PluginMeta).

Abbreviation refs := (plugin_upstream_refs PLUGIN_META).
Abbreviation Prepared := (UpstreamOccurrence -> option Prep).

(** [CandidateSnapshot], and the maps of a [RuntimeSnapshot]. *)
Record CandidateSnapshot : Type := {
  c_upstreams : gmap string ProxyUpstream;
  c_services : gmap string ProxyService;
  c_global_rules : gmap string ProxyGlobalRule;
  c_routes : gmap string ProxyRoute;
  c_ssls : gmap string ProxySSL;
}.
Definition empty_snapshot : CandidateSnapshot := Build_CandidateSnapshot ∅ ∅ ∅ ∅ ∅.

Inductive ResourceDecision (T : Type) : Type := Reuse (existing : T) | Rebuild.
Arguments Reuse {T} existing.
Arguments Rebuild {T}.

Record CandidatePlan : Type := {
  reused_upstreams : gmap string ProxyUpstream;
  reused_services : gmap string ProxyService;
  reused_global_rules : gmap string ProxyGlobalRule;
  reused_routes : gmap string ProxyRoute;
  reused_ssls : gmap string ProxySSL;
  jobs : list (UpstreamOccurrence * Upstream.t);
}.


(** *** [CandidatePlan::build] *)

(** One reuse loop: the objects of [previous] whose configuration passes [keep]. *)
Definition reuse_loop {T X} (keep : string -> T -> X -> Result bool ProxyError) (config : gmap string T)
    (previous : gmap string X) : Result (gmap string X) ProxyError :=
  try_fold (fun reused (it : string * T) =>
    match previous !! it.1 with
    | Some existing =>
      let? ok := keep it.1 it.2 existing in
      Ok (if ok : bool then <[it.1 := existing]> reused else reused)
    | None => Ok reused
    end) ∅ (map_to_list config).

Definition all_reused {X} (deps : gset string) (reused : gmap string X) : bool :=
  bool_decide (deps ⊆ dom reused).

Definition keep_upstream (i : string) (u : Upstream.t) (existing : ProxyUpstream) : Result bool ProxyError :=
  Ok (bool_decide (pu_inner existing = u)).

Definition keep_service (ru : gmap string ProxyUpstream) (i : string) (s : Service.t) (existing : ProxyService)
    : Result bool ProxyError :=
  if bool_decide (ps_inner existing = s) then
    let? deps := scope_upstream_deps PLUGIN_META s in Ok (all_reused deps ru)
  else Ok false.

Definition keep_global_rule (ru : gmap string ProxyUpstream) (i : string) (g : GlobalRule.t)
    (existing : ProxyGlobalRule) : Result bool ProxyError :=
  if bool_decide (pg_inner existing = g) then
    let? deps := plugin_upstream_deps PLUGIN_META (GlobalRule.plugins g) in Ok (all_reused deps ru)
  else Ok false.

Definition keep_route (ru : gmap string ProxyUpstream) (rs : gmap string ProxyService) (i : string)
    (r : Route.t) (existing : ProxyRoute) : Result bool ProxyError :=
  let service_ok := match Route.service_id r with
                    | Some sid => bool_decide (is_Some (rs !! sid))
                    | None => true
                    end in
  if service_ok && bool_decide (pr_inner existing = r) then
    let? deps := scope_upstream_deps_rule PLUGIN_META r in Ok (all_reused deps ru)
  else Ok false.

Definition keep_ssl (i : string) (c : SSL.t) (existing : ProxySSL) : Result bool ProxyError :=
  Ok (bool_decide (ssl_inner existing = c)).

(** One job loop over the resources that are rebuilt. *)
Definition job_loop {T X} (config : gmap string T) (reused : gmap string X)
    (scope : string -> T -> Result (list (UpstreamOccurrence * Upstream.t)) ProxyError)
    (jobs : list (UpstreamOccurrence * Upstream.t))
    : Result (list (UpstreamOccurrence * Upstream.t)) ProxyError :=
  try_fold (fun jobs (it : string * T) =>
    if bool_decide (is_Some (reused !! it.1)) then Ok jobs
    else let? more := scope it.1 it.2 in Ok (jobs ++ more)%list) jobs (map_to_list config).

Definition inline_job (occurrence : UpstreamOccurrence) (upstream : option Upstream.t)
    : list (UpstreamOccurrence * Upstream.t) :=
  match upstream with Some u => [(occurrence, u)] | None => [] end.

Definition scope_jobs (occurrence : option UpstreamOccurrence) (upstream : option Upstream.t)
    (owner : TrafficSplitOwner) (plugins : Plugins_map)
    : Result (list (UpstreamOccurrence * Upstream.t)) ProxyError :=
  let? more := plugin_upstream_jobs PLUGIN_META owner plugins in
  Ok (match occurrence with Some o => inline_job o upstream | None => [] end ++ more)%list.

Definition CandidatePlan_build (config : ResourceConfigSet) (previous : CandidateSnapshot)
    : Result CandidatePlan ProxyError :=
  let? ru := reuse_loop keep_upstream (upstreams config) (c_upstreams previous) in
  let? rsv := reuse_loop (keep_service ru) (services config) (c_services previous) in
  let? rg := reuse_loop (keep_global_rule ru) (global_rules config) (c_global_rules previous) in
  let? rr := reuse_loop (keep_route ru rsv) (routes config) (c_routes previous) in
  let? rc := reuse_loop keep_ssl (ssls config) (c_ssls previous) in
  let? jobs := job_loop (upstreams config) ru (fun i u => Ok [(Named i, u)]) [] in
  let? jobs := job_loop (services config) rsv (fun i s =>
                 scope_jobs (Some (ServiceInline i)) (Service.upstream s) (OwnerService i) (Service.plugins s)) jobs in
  let? jobs := job_loop (global_rules config) rg (fun i g =>
                 scope_jobs None None (OwnerGlobalRule i) (GlobalRule.plugins g)) jobs in
  let? jobs := job_loop (routes config) rr (fun i r =>
                 scope_jobs (Some (RouteInline i)) (Route.upstream r) (OwnerRoute i) (Route.plugins r)) jobs in
  Ok {| reused_upstreams := ru; reused_services := rsv; reused_global_rules := rg; reused_routes := rr;
        reused_ssls := rc; jobs := jobs |}.

Definition decision {X} (reused : gmap string X) (i : string) : ResourceDecision X :=
  match reused !! i with Some existing => Reuse existing | None => Rebuild end.
Definition upstream_decision (p : CandidatePlan) := decision (reused_upstreams p).
Definition service_decision (p : CandidatePlan) := decision (reused_services p).
Definition global_rule_decision (p : CandidatePlan) := decision (reused_global_rules p).
Definition route_decision (p : CandidatePlan) := decision (reused_routes p).
Definition ssl_decision (p : CandidatePlan) := decision (reused_ssls p).

(** *** [CandidateSnapshot::build_prepared] *)

(** One pass: every resource is reused or compiled. *)
Fixpoint compile_pass {T X} (decide_ : string -> ResourceDecision X) (compile : string -> T -> B X)
    (l : list (string * T)) (acc : gmap string X) : B (gmap string X) :=
  match l with
  | [] => pure acc
  | (i, t) :: l' =>
    let! x := match decide_ i with Reuse existing => pure existing | Rebuild => compile i t end in
    compile_pass decide_ compile l' (<[i := x]> acc)
  end.

Definition build_prepared (config : ResourceConfigSet) (plan : CandidatePlan) (prepared : Prepared)
    : B CandidateSnapshot :=
  let! _ := from_result (validate_runtime_form PLUGIN_META config) in
  let! us := compile_pass (upstream_decision plan) (fun i u =>
      let! p := from_result (ok_or (Configuration ("Upstream '" +:+ i +:+ "' was not prepared")) (prepared (Named i))) in
      ProxyUpstream_build u p) (map_to_list (upstreams config)) ∅ in
  let! ss := compile_pass (service_decision plan) (fun i s => ProxyService_build FACTORIES s us prepared)
      (map_to_list (services config)) ∅ in
  let! gs := compile_pass (global_rule_decision plan) (fun i g => ProxyGlobalRule_build FACTORIES g us prepared)
      (map_to_list (global_rules config)) ∅ in
  let! rs := compile_pass (route_decision plan) (fun i r => ProxyRoute_build FACTORIES r us ss prepared)
      (map_to_list (routes config)) ∅ in
  let! cs := compile_pass (ssl_decision plan) (fun i c => from_result (ProxySSL_try_from c))
      (map_to_list (ssls config)) ∅ in
  pure {| c_upstreams := us; c_services := ss; c_global_rules := gs; c_routes := rs; c_ssls := cs |}.

(** ** What the loops compute *)

Lemma reuse_list_ok {T X} (keep : string -> T -> X -> Result bool ProxyError) (l : list (string * T)) (previous m0 m : gmap string X) :
  NoDup l.*1 -> (forall i, i ∈ l.*1 -> m0 !! i = None) ->
  try_fold (fun reused (it : string * T) =>
    match previous !! it.1 with
    | Some existing =>
      let? ok := keep it.1 it.2 existing in
      Ok (if ok : bool then <[it.1 := existing]> reused else reused)
    | None => Ok reused
    end) m0 l = Ok m ->
  forall i x, m !! i = Some x <->
    m0 !! i = Some x \/ exists t, (i, t) ∈ l /\ previous !! i = Some x /\ keep i t x = Ok true.
Proof.
  revert m0; induction l as [|[j t] l IH]; intros m0 Hnd Hfresh; simpl.
  { intros [= <-] i x. split; [by left|]. intros [?|(t & Ht%not_elem_of_nil & _)]; done. }
  intros (m1 & Hs & Hf)%and_then_ok. change (NoDup (j :: l.*1)) in Hnd. apply NoDup_cons in Hnd as [Hj Hnd].
  assert (m0 !! j = None) as Hj0 by (apply Hfresh; left).
  assert (forall i, i ∈ l.*1 -> m1 !! i = None) as Hfresh1.
  { intros i Hi. assert (i <> j) by (intros ->; done). assert (m0 !! i = None) by (apply Hfresh; by right).
    destruct (previous !! j); [|by simplify_eq]. apply and_then_ok in Hs as ([] & _ & [= <-]); [|done].
    by rewrite lookup_insert_ne. }
  intros i x. rewrite (IH m1 Hnd Hfresh1 Hf).
  destruct (previous !! j) as [ex|] eqn:Hp.
  - apply and_then_ok in Hs as (ok & Hk & [= <-]). split.
    + intros [Hx|(t' & Ht' & ?)]; [|right; exists t'; split; [by right|done]].
      destruct ok; [|by left]. apply lookup_insert_Some in Hx as [[<- <-]|[_ Hx]]; [|by left].
      right. exists t. split; [left|done].
    + intros [Hx|(t' & [[= -> ->]|Ht']%elem_of_cons & Hx & Hk')].
      * left. destruct ok; [|done]. rewrite lookup_insert_ne; [done|]. intros ->. congruence.
      * left. assert (ex = x) as -> by congruence. assert (ok = true) as -> by congruence. by rewrite lookup_insert_eq.
      * right. by exists t'.
  - injection Hs as <-. split.
    + intros [Hx|(t' & Ht' & ?)]; [by left|]. right. exists t'. split; [by right|done].
    + intros [Hx|(t' & [[= -> ->]|Ht']%elem_of_cons & Hx & Hk')]; [by left|congruence|right; by exists t'].
Qed.

Lemma reuse_loop_ok {T X} keep (config : gmap string T) (previous m : gmap string X) :
  reuse_loop keep config previous = Ok m ->
  forall i x, m !! i = Some x <-> exists t, config !! i = Some t /\ previous !! i = Some x /\ keep i t x = Ok true.
Proof.
  intros Hr i x. rewrite (reuse_list_ok _ _ _ _ _ (NoDup_fst_map_to_list config) (fun i _ => lookup_empty i) Hr).
  setoid_rewrite elem_of_map_to_list. rewrite lookup_empty. naive_solver.
Qed.

(** Every entry of a pass is the reused object or a compiled one. *)
Definition passed {T X} (decide_ : string -> ResourceDecision X) (compile : string -> T -> B X)
    (i : string) (t : T) (x : X) : Prop :=
  match decide_ i with Reuse existing => x = existing | Rebuild => exists n n', compile i t n = Ok (x, n') end.

Lemma compile_list_ok {T X} decide_ (compile : string -> T -> B X) l acc n m n' :
  NoDup l.*1 -> compile_pass decide_ compile l acc n = Ok (m, n') ->
  (forall i t, (i, t) ∈ l -> exists x, m !! i = Some x /\ passed decide_ compile i t x) /\
  (forall i, i ∉ l.*1 -> m !! i = acc !! i).
Proof.
  revert acc n; induction l as [|[j t] l IH]; intros acc n Hnd; simpl.
  { intros [-> _]%pure_ok. split; [by intros ? ? ?%not_elem_of_nil|done]. }
  change (NoDup (j :: l.*1)) in Hnd. apply NoDup_cons in Hnd as [Hj Hnd].
  intros (x & k & Hx & Hc)%bindB_ok. destruct (IH _ _ Hnd Hc) as [Hin Hout]. split.
  - intros i t' [[= -> ->]|Ht']%elem_of_cons; [|by apply Hin].
    exists x. split; [by rewrite Hout, lookup_insert_eq|]. unfold passed.
    destruct (decide_ j); [by apply pure_ok in Hx as [-> _]|eauto].
  - intros i Hi. change (i ∉ j :: l.*1) in Hi. rewrite elem_of_cons in Hi.
    rewrite Hout by tauto. rewrite lookup_insert_ne by (intros ->; tauto). done.
Qed.

Lemma compile_pass_ok {T X} decide_ (compile : string -> T -> B X) (config : gmap string T) n m n' :
  compile_pass decide_ compile (map_to_list config) ∅ n = Ok (m, n') ->
  (forall i t, config !! i = Some t -> exists x, m !! i = Some x /\ passed decide_ compile i t x) /\
  (forall i x, m !! i = Some x -> exists t, config !! i = Some t /\ passed decide_ compile i t x).
Proof.
  intros [Hin Hout]%compile_list_ok; [|apply NoDup_fst_map_to_list]. split.
  - intros i t Ht%elem_of_map_to_list. eauto.
  - intros i x Hx. destruct (config !! i) as [t|] eqn:Ht.
    + exists t. split; [done|]. apply elem_of_map_to_list in Ht. destruct (Hin _ _ Ht) as (y & Hy & ?). congruence.
    + rewrite Hout, lookup_empty in Hx; [done|]. intros ([j t] & -> & Hj%elem_of_map_to_list)%list_elem_of_fmap.
      simpl in *. congruence.
Qed.

(** ** Coherent snapshots

    Every upstream and certificate is compiled from the configuration it
    carries, and no compiled object holds an upstream or a service other than
    the ones the same snapshot publishes under the referenced id. *)

Definition service_coherent (us : gmap string ProxyUpstream) (s : ProxyService) : Prop :=
  inline_built (Service.upstream (ps_inner s)) (ps_inline s) /\
  resolves_to us (ps_inline s) (Service.upstream_id (ps_inner s)) None (ps_upstream s) /\
  targets_from us refs (Service.plugins (ps_inner s)) (ps_plugins s).

Definition rule_coherent (us : gmap string ProxyUpstream) (g : ProxyGlobalRule) : Prop :=
  targets_from us refs (GlobalRule.plugins (pg_inner g)) (pg_plugins g).

Definition route_coherent (us : gmap string ProxyUpstream) (ss : gmap string ProxyService) (r : ProxyRoute) : Prop :=
  inline_built (Route.upstream (pr_inner r)) (pr_inline r) /\
  (forall sid, Route.service_id (pr_inner r) = Some sid -> is_Some (ss !! sid)) /\
  resolves_to us (pr_inline r) (Route.upstream_id (pr_inner r)) (bound_service ss (pr_inner r) ≫= ps_upstream)
    (pr_resolved r) /\
  targets_from us refs (Route.plugins (pr_inner r)) (pr_plugins r) /\
  pr_executor r = merged_plugins (pr_plugins r) (bound_service ss (pr_inner r)).

Record coherent (c : CandidateSnapshot) : Prop := {
  coherent_upstreams i x : c_upstreams c !! i = Some x -> built_from (pu_inner x) x;
  coherent_ssls i x : c_ssls c !! i = Some x -> ProxySSL_try_from (ssl_inner x) = Ok x;
  coherent_services i s : c_services c !! i = Some s -> service_coherent (c_upstreams c) s;
  coherent_rules i g : c_global_rules c !! i = Some g -> rule_coherent (c_upstreams c) g;
  coherent_routes i r : c_routes c !! i = Some r -> route_coherent (c_upstreams c) (c_services c) r;
}.

Lemma empty_coherent : coherent empty_snapshot.
Proof. by split. Qed.

(** Moving an object between upstream maps that agree on what it references. *)
Lemma resolves_to_agree (us us' : gmap string ProxyUpstream) inline i fb fb' r :
  (forall j, i = Some j -> us' !! j = us !! j) -> fb' = fb ->
  resolves_to us inline i fb r -> resolves_to us' inline i fb' r.
Proof.
  intros Hi ->. unfold resolves_to. destruct inline; [done|]. destruct i as [j|]; [|done].
  by rewrite (Hi j).
Qed.

Lemma targets_from_agree (us us' : gmap string ProxyUpstream) plugins es :
  (forall name cfg ids i, plugins !! name = Some cfg -> refs name cfg = Ok ids -> i ∈ ids -> us' !! i = us !! i) ->
  targets_from us refs plugins es -> targets_from us' refs plugins es.
Proof.
  intros Ha Ht e u He Hu. destruct (Ht e u He Hu) as (name & cfg & ids & i & Hn & Hr & Hi & Hl).
  exists name, cfg, ids, i. split_and!; try done. by rewrite (Ha name cfg ids).
Qed.

Lemma plugin_deps_ok plugins deps :
  plugin_upstream_deps PLUGIN_META plugins = Ok deps ->
  forall name cfg ids, plugins !! name = Some cfg -> refs name cfg = Ok ids -> forall i, i ∈ ids -> i ∈ deps.
Proof.
  unfold plugin_upstream_deps. intros Hd name cfg ids Hn Hr i Hi. apply elem_of_map_to_list in Hn.
  revert Hd Hn. generalize (∅ : gset string). induction (map_to_list plugins) as [|[n c] l IH]; intros d0; simpl.
  { by intros _ ?%not_elem_of_nil. }
  intros (d1 & Hs & Hf)%and_then_ok [[= <- <-]|Hin]%elem_of_cons; [|by eapply IH].
  rewrite Hr in Hs. simpl in Hs. injection Hs as <-.
  eapply (try_fold_inv (fun d => i ∈ d)); [|..|exact Hf]; [|set_solver].
  intros s x s' _ Hs (r & _ & [= <-])%and_then_ok. set_solver.
Qed.

Lemma with_direct_ok i deps : forall j, i = Some j -> j ∈ with_direct i deps.
Proof. intros j ->. simpl. set_solver. Qed.
Lemma with_direct_sub i deps : deps ⊆ with_direct i deps.
Proof. destruct i; simpl; set_solver. Qed.

(** ** Reuse is sound *)

Context (Hdeclared : targets_declared FACTORIES refs).

Definition agree (ru : gmap string ProxyUpstream) (us us' : gmap string ProxyUpstream) : Prop :=
  forall i, i ∈ dom ru -> us' !! i = us !! i.

Lemma all_reused_true {X} deps (reused : gmap string X) :
  all_reused deps reused = true -> forall i, i ∈ deps -> i ∈ dom reused.
Proof. unfold all_reused. intros Ha. bool_to_prop. set_solver. Qed.

Lemma targets_moved ru us us' plugins es deps :
  agree ru us us' -> plugin_upstream_deps PLUGIN_META plugins = Ok deps ->
  (forall i, i ∈ deps -> i ∈ dom ru) ->
  targets_from us refs plugins es -> targets_from us' refs plugins es.
Proof.
  intros Ha Hd Hall. apply targets_from_agree. intros name cfg ids i Hn Hr Hi.
  apply Ha, Hall. by eapply plugin_deps_ok.
Qed.

Lemma service_moved ru us us' s ex i :
  agree ru us us' -> service_coherent us ex -> keep_service ru i s ex = Ok true ->
  ps_inner ex = s /\ service_coherent us' ex.
Proof.
  intros Ha (Hin & Hres & Ht). unfold keep_service. case_bool_decide as Heq; [|done].
  intros (deps & Hd & [= Hall])%and_then_ok. split; [done|]. subst s.
  unfold scope_upstream_deps in Hd. apply and_then_ok in Hd as (pd & Hpd & [= <-]).
  pose proof (all_reused_true _ _ Hall) as Hin'. split; [done|]. split.
  - eapply resolves_to_agree; [|done|exact Hres]. intros j Hj. apply Ha, Hin'. by apply with_direct_ok.
  - eapply targets_moved; [done|exact Hpd| |done]. intros j Hj. apply Hin'. by apply with_direct_sub.
Qed.

Lemma rule_moved ru us us' g ex i :
  agree ru us us' -> rule_coherent us ex -> keep_global_rule ru i g ex = Ok true ->
  pg_inner ex = g /\ rule_coherent us' ex.
Proof.
  intros Ha Ht. unfold keep_global_rule. case_bool_decide as Heq; [|done].
  intros (deps & Hd & [= Hall])%and_then_ok. split; [done|]. subst g.
  eapply targets_moved; [done|exact Hd|by apply all_reused_true|done].
Qed.

Lemma route_moved ru rs us us' ss ss' r ex i :
  agree ru us us' -> (forall j x, rs !! j = Some x -> ss !! j = Some x /\ ss' !! j = Some x) ->
  route_coherent us ss ex -> keep_route ru rs i r ex = Ok true ->
  pr_inner ex = r /\ route_coherent us' ss' ex.
Proof.
  intros Ha Hs (Hin & Hsv & Hres & Ht & Hex). unfold keep_route.
  destruct (match Route.service_id r with Some _ => _ | None => true end) eqn:Hok; [|done].
  simpl. case_bool_decide as Heq; [|done].
  intros (deps & Hd & [= Hall])%and_then_ok. split; [done|]. subst r.
  unfold scope_upstream_deps_rule in Hd. apply and_then_ok in Hd as (pd & Hpd & [= <-]).
  pose proof (all_reused_true _ _ Hall) as Hin'.
  assert (bound_service ss' (pr_inner ex) = bound_service ss (pr_inner ex)
    /\ forall sid, Route.service_id (pr_inner ex) = Some sid -> is_Some (ss' !! sid)) as [Hb Hsome].
  { unfold bound_service. destruct (Route.service_id (pr_inner ex)) as [sid|]; simpl; [|done].
    bool_to_prop. destruct Hok as [x Hx]. destruct (Hs _ _ Hx) as [-> E]. rewrite E. split; [done|].
    intros ? [= <-]. by rewrite E. }
  split; [done|]. split; [done|]. rewrite Hb. split; [|split; [|done]].
  - eapply resolves_to_agree; [|done|exact Hres]. intros j Hj. apply Ha, Hin'. by apply with_direct_ok.
  - eapply targets_moved; [done|exact Hpd| |done]. intros j Hj. apply Hin'. by apply with_direct_sub.
Qed.

Lemma decision_reuse {X} (reused : gmap string X) i x : decision reused i = Reuse x <-> reused !! i = Some x.
Proof. unfold decision. destruct (reused !! i); naive_solver. Qed.

(** The plan's reuse maps, as the loops compute them. *)
Record plan_spec (config : ResourceConfigSet) (previous : CandidateSnapshot) (p : CandidatePlan) : Prop := {
  plan_upstreams : reuse_loop keep_upstream (upstreams config) (c_upstreams previous) = Ok (reused_upstreams p);
  plan_services : reuse_loop (keep_service (reused_upstreams p)) (services config) (c_services previous)
    = Ok (reused_services p);
  plan_rules : reuse_loop (keep_global_rule (reused_upstreams p)) (global_rules config) (c_global_rules previous)
    = Ok (reused_global_rules p);
  plan_routes : reuse_loop (keep_route (reused_upstreams p) (reused_services p)) (routes config) (c_routes previous)
    = Ok (reused_routes p);
  plan_ssls : reuse_loop keep_ssl (ssls config) (c_ssls previous) = Ok (reused_ssls p);
}.

Lemma CandidatePlan_build_ok config previous p :
  CandidatePlan_build config previous = Ok p -> plan_spec config previous p.
Proof.
  unfold CandidatePlan_build. intros (ru & Hu & H1)%and_then_ok. apply and_then_ok in H1 as (rs & Hs & H1).
  apply and_then_ok in H1 as (rg & Hg & H1). apply and_then_ok in H1 as (rr & Hr & H1).
  apply and_then_ok in H1 as (rc & Hc & H1). do 4 (apply and_then_ok in H1 as (? & _ & H1)).
  injection H1 as <-. by split.
Qed.

(** What [build_prepared] computes, pass by pass. *)
Lemma build_prepared_ok config plan prepared n c n' :
  build_prepared config plan prepared n = Ok (c, n') ->
  validate_runtime_form PLUGIN_META config = Ok () /\ exists n1 n2 n3 n4 n5 n6,
  compile_pass (upstream_decision plan) (fun i u =>
      let! p := from_result (ok_or (Configuration ("Upstream '" +:+ i +:+ "' was not prepared")) (prepared (Named i))) in
      ProxyUpstream_build u p) (map_to_list (upstreams config)) ∅ n1 = Ok (c_upstreams c, n2) /\
  compile_pass (service_decision plan) (fun i s => ProxyService_build FACTORIES s (c_upstreams c) prepared)
      (map_to_list (services config)) ∅ n2 = Ok (c_services c, n3) /\
  compile_pass (global_rule_decision plan) (fun i g => ProxyGlobalRule_build FACTORIES g (c_upstreams c) prepared)
      (map_to_list (global_rules config)) ∅ n3 = Ok (c_global_rules c, n4) /\
  compile_pass (route_decision plan) (fun i r => ProxyRoute_build FACTORIES r (c_upstreams c) (c_services c) prepared)
      (map_to_list (routes config)) ∅ n4 = Ok (c_routes c, n5) /\
  compile_pass (ssl_decision plan) (fun i x => from_result (ProxySSL_try_from x))
      (map_to_list (ssls config)) ∅ n5 = Ok (c_ssls c, n6).
Proof.
  unfold build_prepared. intros ([] & n1 & [Hv _]%from_result_ok & H1)%bindB_ok. split; [done|].
  apply bindB_ok in H1 as (us & n2 & Hu & H1). apply bindB_ok in H1 as (ss & n3 & Hs & H1).
  apply bindB_ok in H1 as (gs & n4 & Hg & H1). apply bindB_ok in H1 as (rs & n5 & Hr & H1).
  apply bindB_ok in H1 as (cs & n6 & Hc & [-> _]%pure_ok). simpl.
  by exists n1, n2, n3, n4, n5, n6.
Qed.

Lemma pass_inner {T X} (inner : X -> T) decide_ (compile : string -> T -> B X) (config : gmap string T) n m n' :
  compile_pass decide_ compile (map_to_list config) ∅ n = Ok (m, n') ->
  (forall i t x, config !! i = Some t -> passed decide_ compile i t x -> inner x = t) ->
  inner <$> m = config.
Proof.
  intros [Hin Hout]%compile_pass_ok Hi. apply map_eq. intros i. rewrite lookup_fmap.
  destruct (m !! i) as [x|] eqn:Hx; simpl.
  - destruct (Hout i x Hx) as (t & Ht & Hp). by rewrite Ht, (Hi i t x).
  - destruct (config !! i) as [t|] eqn:Ht; [|done]. destruct (Hin i t Ht) as (x & Hx' & _). congruence.
Qed.

Lemma agree_passes config previous p prepared n m n' :
  plan_spec config previous p ->
  compile_pass (upstream_decision p) (fun i u =>
      let! q := from_result (ok_or (Configuration ("Upstream '" +:+ i +:+ "' was not prepared")) (prepared (Named i))) in
      ProxyUpstream_build u q) (map_to_list (upstreams config)) ∅ n = Ok (m, n') ->
  agree (reused_upstreams p) (c_upstreams previous) m.
Proof.
  intros Hp [Hin _]%compile_pass_ok i [x Hx]%elem_of_dom.
  pose proof (reuse_loop_ok _ _ _ _ (plan_upstreams _ _ _ Hp) i x) as [Hr _].
  destruct (Hr Hx) as (t & Ht & Hprev & _). destruct (Hin i t Ht) as (y & -> & Hy).
  unfold passed, upstream_decision in Hy. rewrite (proj2 (decision_reuse _ i x) Hx) in Hy. congruence.
Qed.

Lemma services_pass config previous p us prepared n m n' :
  plan_spec config previous p -> coherent previous -> agree (reused_upstreams p) (c_upstreams previous) us ->
  compile_pass (service_decision p) (fun i s => ProxyService_build FACTORIES s us prepared)
    (map_to_list (services config)) ∅ n = Ok (m, n') ->
  forall i t x, services config !! i = Some t ->
    passed (service_decision p) (fun i s => ProxyService_build FACTORIES s us prepared) i t x ->
    ps_inner x = t /\ service_coherent us x.
Proof.
  intros Hp Hc Ha _ i t x Ht Hx. unfold passed, service_decision, decision in Hx.
  destruct (reused_services p !! i) as [ex|] eqn:Hr.
  - subst x. apply (reuse_loop_ok _ _ _ _ (plan_services _ _ _ Hp)) in Hr as (t' & Ht' & Hprev & Hk).
    assert (t' = t) as -> by congruence.
    eapply service_moved; [done| |exact Hk]. by eapply coherent_services.
  - destruct Hx as (k & k' & Hb). apply (ProxyService_build_ok _ _ _ _ _ _ _ refs Hdeclared) in Hb
      as (Hin & Hi & Hres & Htg & _). split; [done|]. unfold service_coherent. by rewrite Hin.
Qed.

Lemma rules_pass config previous p us prepared :
  plan_spec config previous p -> coherent previous -> agree (reused_upstreams p) (c_upstreams previous) us ->
  forall i t x, global_rules config !! i = Some t ->
    passed (global_rule_decision p) (fun i g => ProxyGlobalRule_build FACTORIES g us prepared) i t x ->
    pg_inner x = t /\ rule_coherent us x.
Proof.
  intros Hp Hc Ha i t x Ht Hx. unfold passed, global_rule_decision, decision in Hx.
  destruct (reused_global_rules p !! i) as [ex|] eqn:Hr.
  - subst x. apply (reuse_loop_ok _ _ _ _ (plan_rules _ _ _ Hp)) in Hr as (t' & Ht' & Hprev & Hk).
    assert (t' = t) as -> by congruence.
    eapply rule_moved; [done| |exact Hk]. by eapply coherent_rules.
  - destruct Hx as (k & k' & Hb). apply (ProxyGlobalRule_build_ok _ _ _ _ _ _ _ refs Hdeclared) in Hb as (Hin & Htg).
    split; [done|]. unfold rule_coherent. by rewrite Hin.
Qed.

Lemma routes_pass config previous p us ss prepared :
  plan_spec config previous p -> coherent previous -> agree (reused_upstreams p) (c_upstreams previous) us ->
  (forall i x, reused_services p !! i = Some x -> ss !! i = Some x) ->
  forall i t x, routes config !! i = Some t ->
    passed (route_decision p) (fun i r => ProxyRoute_build FACTORIES r us ss prepared) i t x ->
    pr_inner x = t /\ route_coherent us ss x.
Proof.
  intros Hp Hc Ha Hss i t x Ht Hx. unfold passed, route_decision, decision in Hx.
  destruct (reused_routes p !! i) as [ex|] eqn:Hr.
  - subst x. apply (reuse_loop_ok _ _ _ _ (plan_routes _ _ _ Hp)) in Hr as (t' & Ht' & Hprev & Hk).
    assert (t' = t) as -> by congruence.
    eapply route_moved; [done| |by eapply coherent_routes|exact Hk].
    intros j y Hy. split; [|by apply Hss].
    by apply (reuse_loop_ok _ _ _ _ (plan_services _ _ _ Hp)) in Hy as (? & _ & ? & _).
  - destruct Hx as (k & k' & Hb). apply (ProxyRoute_build_ok _ _ _ _ _ _ _ _ refs Hdeclared) in Hb
      as (Hin & Hi & Hsome & Hres & Htg & _ & Hex). split; [done|]. unfold route_coherent. by rewrite Hin.
Qed.

Lemma reused_service_kept config previous p us prepared n m n' :
  plan_spec config previous p ->
  compile_pass (service_decision p) (fun i s => ProxyService_build FACTORIES s us prepared)
    (map_to_list (services config)) ∅ n = Ok (m, n') ->
  forall i x, reused_services p !! i = Some x -> m !! i = Some x.
Proof.
  intros Hp [Hin _]%compile_pass_ok i x Hx.
  pose proof (reuse_loop_ok _ _ _ _ (plan_services _ _ _ Hp) i x) as [Hr _].
  destruct (Hr Hx) as (t & Ht & _). destruct (Hin i t Ht) as (y & -> & Hy).
  unfold passed, service_decision in Hy. rewrite (proj2 (decision_reuse _ i x) Hx) in Hy. by subst.
Qed.

(** ** Properties *)

(** [c] is a compilation of [config]: each compiled object is under the id of
    a resource of [config] and is compiled from that resource, and no resource
    is left out. *)
Record compiles (config : ResourceConfigSet) (c : CandidateSnapshot) : Prop := {
  compiles_upstreams : map_Forall2 (fun _ => built_from) (upstreams config) (c_upstreams c);
  compiles_services : ps_inner <$> c_services c = services config;
  compiles_rules : pg_inner <$> c_global_rules c = global_rules config;
  compiles_routes : pr_inner <$> c_routes c = routes config;
  compiles_ssls : map_Forall2 (fun _ v x => ProxySSL_try_from v = Ok x) (ssls config) (c_ssls c);
}.

Lemma pass_forall2 {T X} (P : T -> X -> Prop) decide_ (compile : string -> T -> B X) (config : gmap string T) n m n' :
  compile_pass decide_ compile (map_to_list config) ∅ n = Ok (m, n') ->
  (forall i t x, config !! i = Some t -> passed decide_ compile i t x -> P t x) ->
  map_Forall2 (fun _ => P) config m.
Proof.
  intros [Hin Hout]%compile_pass_ok HP i. destruct (config !! i) as [t|] eqn:Ht.
  - destruct (Hin i t Ht) as (x & -> & Hp). constructor. by eapply HP.
  - destruct (m !! i) as [x|] eqn:Hx; [|constructor]. destruct (Hout i x Hx) as (t & Ht' & _). congruence.
Qed.

Lemma try_from_inner v x : ProxySSL_try_from v = Ok x -> ssl_inner x = v.
Proof.
  unfold ProxySSL_try_from. intros ([] & _ & Hv)%and_then_ok. do 3 apply and_then_ok in Hv as (? & _ & Hv).
  by destruct (negb _); [|injection Hv as <-].
Qed.

Lemma upstreams_pass config previous p prepared :
  plan_spec config previous p -> coherent previous ->
  forall i u x, upstreams config !! i = Some u ->
    passed (upstream_decision p) (fun i u =>
      let! q := from_result (ok_or (Configuration ("Upstream '" +:+ i +:+ "' was not prepared")) (prepared (Named i))) in
      ProxyUpstream_build u q) i u x ->
    built_from u x.
Proof.
  intros Hp Hc i u x Hu Hx. unfold passed, upstream_decision, decision in Hx.
  destruct (reused_upstreams p !! i) as [ex|] eqn:Hr.
  - subst x. apply (reuse_loop_ok _ _ _ _ (plan_upstreams _ _ _ Hp)) in Hr as (u' & Hu' & Hprev & Hk).
    assert (u' = u) as -> by congruence. unfold keep_upstream in Hk. case_bool_decide as E; [|done]. subst u. by eapply coherent_upstreams.
  - destruct Hx as (k & k' & (q & k1 & _ & Hb)%bindB_ok). by exists q, k1, k'.
Qed.

Lemma ssls_pass config previous p :
  plan_spec config previous p -> coherent previous ->
  forall i v x, ssls config !! i = Some v ->
    passed (ssl_decision p) (fun i v => from_result (ProxySSL_try_from v)) i v x -> ProxySSL_try_from v = Ok x.
Proof.
  intros Hp Hc i v x Hv Hx. unfold passed, ssl_decision, decision in Hx.
  destruct (reused_ssls p !! i) as [ex|] eqn:Hr.
  - subst x. apply (reuse_loop_ok _ _ _ _ (plan_ssls _ _ _ Hp)) in Hr as (v' & Hv' & Hprev & Hk).
    assert (v' = v) as -> by congruence. unfold keep_ssl in Hk. case_bool_decide as E; [|done]. subst v. by eapply coherent_ssls.
  - by destruct Hx as (k & k' & [? _]%from_result_ok).
Qed.

(** What a compilation against a coherent snapshot gives. *)
Lemma compile_sound config previous plan prepared n c n' :
  coherent previous ->
  CandidatePlan_build config previous = Ok plan ->
  build_prepared config plan prepared n = Ok (c, n') ->
  coherent c /\ compiles config c.
Proof.
  intros Hc Hp%CandidatePlan_build_ok (_ & n1 & n2 & n3 & n4 & n5 & n6 & Hu & Hs & Hg & Hr & Hl)%build_prepared_ok.
  pose proof (agree_passes _ _ _ _ _ _ _ Hp Hu) as Ha.
  pose proof (upstreams_pass _ _ _ prepared Hp Hc) as Hup.
  pose proof (ssls_pass _ _ _ Hp Hc) as Hlp.
  pose proof (services_pass _ _ _ _ _ _ _ _ Hp Hc Ha Hs) as Hsp.
  pose proof (rules_pass _ _ _ _ prepared Hp Hc Ha) as Hgp.
  pose proof (routes_pass _ _ _ _ (c_services c) prepared Hp Hc Ha (reused_service_kept _ _ _ _ _ _ _ _ Hp Hs)) as Hrp.
  split; split.
  - intros i x Hi. apply (compile_pass_ok _ _ _ _ _ _ Hu) in Hi as (t & Ht & Hx). eapply built_from_self. by eapply Hup.
  - intros i x Hi. apply (compile_pass_ok _ _ _ _ _ _ Hl) in Hi as (t & Ht & Hx). apply (Hlp _ _ _ Ht) in Hx. by rewrite (try_from_inner _ _ Hx).
  - intros i s Hi. apply (compile_pass_ok _ _ _ _ _ _ Hs) in Hi as (t & Ht & Hx). by eapply Hsp.
  - intros i g Hi. apply (compile_pass_ok _ _ _ _ _ _ Hg) in Hi as (t & Ht & Hx). by eapply Hgp.
  - intros i r Hi. apply (compile_pass_ok _ _ _ _ _ _ Hr) in Hi as (t & Ht & Hx). by eapply Hrp.
  - eapply pass_forall2; [exact Hu|]. intros. by eapply Hup.
  - eapply pass_inner; [exact Hs|]. intros. by eapply Hsp.
  - eapply pass_inner; [exact Hg|]. intros. by eapply Hgp.
  - eapply pass_inner; [exact Hr|]. intros. by eapply Hrp.
  - eapply pass_forall2; [exact Hl|]. intros. by eapply Hlp.
Qed.

(** An upstream that has an id is compiled under exactly its configuration. *)
Lemma compiles_inner config c : compiles config c -> (forall i u, upstreams config !! i = Some u -> Upstream.id u <> "") ->
  pu_inner <$> c_upstreams c = upstreams config /\ ssl_inner <$> c_ssls c = ssls config.
Proof.
  intros Hc Hid. split; apply map_eq; intros i; rewrite lookup_fmap.
  - pose proof (compiles_upstreams _ _ Hc i) as Hi. inversion Hi as [u x Hb Eu Ex|Eu Ex]; cbn; [|done].
    by rewrite (built_from_inner u x) by eauto.
  - pose proof (compiles_ssls _ _ Hc i) as Hi. inversion Hi as [v x Hb Ev Ex|Ev Ex]; cbn; [|done].
    by rewrite (try_from_inner _ _ Hb).
Qed.

(** C4 (incremental compilation is sound).  Compiling a candidate against a
    coherent previous snapshot yields a coherent snapshot of exactly the
    candidate: under every id of every kind, and under no other, an object
    that is compiled from the candidate's resource of that id (an upstream
    and a certificate with the contents the candidate gives them), and every
    reference of every object, reused or rebuilt, is to the upstream or
    service the new snapshot itself publishes under that id.  Only an upstream
    whose id is empty carries another configuration: it is given an id. *)
Theorem incremental_compile_coherent config previous plan prepared n c n' :
  coherent previous ->
  CandidatePlan_build config previous = Ok plan ->
  build_prepared config plan prepared n = Ok (c, n') ->
  coherent c /\ compiles config c /\
  ((forall i u, upstreams config !! i = Some u -> Upstream.id u <> "") ->
   pu_inner <$> c_upstreams c = upstreams config /\ ssl_inner <$> c_ssls c = ssls config).
Proof.
  intros Hc Hp Hb. destruct (compile_sound _ _ _ _ _ _ _ Hc Hp Hb) as [H1 H2].
  split; [done|]. split; [done|]. by apply compiles_inner.
Qed.

(** ** Preparation jobs *)

Lemma job_list_ok {T X} (reused : gmap string X)
    (scope : string -> T -> Result (list (UpstreamOccurrence * Upstream.t)) ProxyError) l js0 js :
  try_fold (fun jobs (it : string * T) =>
    if bool_decide (is_Some (reused !! it.1)) then Ok jobs
    else let? more := scope it.1 it.2 in Ok (jobs ++ more)%list) js0 l = Ok js ->
  forall j, j ∈ js <-> j ∈ js0 \/ exists i t more, (i, t) ∈ l /\ reused !! i = None /\ scope i t = Ok more /\ j ∈ more.
Proof.
  revert js0; induction l as [|[k t] l IH]; intros js0; simpl.
  { intros [= <-] j. split; [by left|]. intros [?|(i & t & more & ?%not_elem_of_nil & _)]; done. }
  intros (js1 & Hs & Hf)%and_then_ok j. rewrite (IH _ Hf). case_bool_decide as Hk.
  - injection Hs as <-. split.
    + intros [Hj|(i & t' & more & Hin & ?)]; [by left|]. right. exists i, t', more. split; [by right|done].
    + intros [Hj|(i & t' & more & [[= -> ->]|Hin]%elem_of_cons & Hn & ?)]; [by left|by rewrite Hn in Hk; destruct Hk|].
      right. by exists i, t', more.
  - apply and_then_ok in Hs as (more & Hm & [= <-]). rewrite elem_of_app. split.
    + intros [[Hj|Hj]|(i & t' & more' & Hin & ?)]; [by left| |].
      * right. exists k, t, more. split_and!; [left|by apply eq_None_not_Some|done|done].
      * right. exists i, t', more'. split; [by right|done].
    + intros [Hj|(i & t' & more' & [[= -> ->]|Hin]%elem_of_cons & Hn & Hsc & Hj)]; [by left; left| |].
      * left. right. congruence.
      * right. by exists i, t', more'.
Qed.

Lemma job_loop_ok {T X} (config : gmap string T) (reused : gmap string X) scope js0 js :
  job_loop config reused scope js0 = Ok js ->
  forall j, j ∈ js <-> j ∈ js0 \/
    exists i t more, config !! i = Some t /\ reused !! i = None /\ scope i t = Ok more /\ j ∈ more.
Proof. intros Hj j. rewrite (job_list_ok _ _ _ _ _ Hj). by setoid_rewrite elem_of_map_to_list. Qed.

Lemma job_scope_total {T X} (config : gmap string T) (reused : gmap string X) scope js0 js :
  job_loop config reused scope js0 = Ok js ->
  forall i t, config !! i = Some t -> reused !! i = None -> exists more, scope i t = Ok more.
Proof.
  unfold job_loop. intros Hj i t Ht%elem_of_map_to_list Hn. revert js0 Hj Ht.
  induction (map_to_list config) as [|[k t'] l IH]; intros js0; simpl; [by intros _ ?%not_elem_of_nil|].
  intros (js1 & Hs & Hf)%and_then_ok [[= <- <-]|Hin]%elem_of_cons; [|by eapply IH].
  rewrite Hn in Hs. rewrite bool_decide_false in Hs by (by intros []).
  apply and_then_ok in Hs as (more & Hm & _). eauto.
Qed.

(** A plugin declares inline upstreams of its own scope only. *)
Definition plugin_occurrence (owner : TrafficSplitOwner) (o : UpstreamOccurrence) : Prop :=
  (exists a b, o = TrafficSplit owner a b) \/ o = AiProxy owner.
Definition jobs_owned : Prop :=
  forall name meta f, plugin_meta PLUGIN_META name = Some meta -> meta_upstream_jobs meta = Some f ->
  forall owner cfg l, f owner cfg = Ok l -> forall o u, (o, u) ∈ l -> plugin_occurrence owner o.

Lemma plugin_jobs_owned owner plugins js :
  jobs_owned -> plugin_upstream_jobs PLUGIN_META owner plugins = Ok js ->
  forall o u, (o, u) ∈ js -> plugin_occurrence owner o.
Proof.
  intros Hown Hj. refine (try_fold_inv (fun js => forall o u, (o, u) ∈ js -> plugin_occurrence owner o) _ _ _ _ _ _ Hj).
  - intros js1 [name cfg] js2 _ IH. simpl.
    destruct (plugin_meta PLUGIN_META name) as [meta|] eqn:Hm; simpl; [|by intros [= <-]].
    destruct (meta_upstream_jobs meta) as [f|] eqn:Hf; [|by intros [= <-]].
    intros (more & Hmore & [= <-])%and_then_ok o u [Hin|Hin]%elem_of_app; [by eapply IH|by eapply Hown].
  - by intros o u ?%not_elem_of_nil.
Qed.

Lemma scope_jobs_ok occ upstream owner plugins js :
  jobs_owned -> scope_jobs occ upstream owner plugins = Ok js ->
  forall o u, (o, u) ∈ js -> (occ = Some o /\ upstream = Some u) \/ plugin_occurrence owner o.
Proof.
  intros Hown (more & Hm & [= <-])%and_then_ok o u [Hin|Hin]%elem_of_app.
  - left. destruct occ as [o'|]; [|by apply not_elem_of_nil in Hin]. destruct upstream as [u'|]; simpl in Hin.
    + by apply list_elem_of_singleton in Hin as [= -> ->].
    + by apply not_elem_of_nil in Hin.
  - right. by eapply plugin_jobs_owned.
Qed.

Lemma scope_jobs_inline occ u owner plugins js :
  scope_jobs (Some occ) (Some u) owner plugins = Ok js -> (occ, u) ∈ js.
Proof. intros (more & _ & [= <-])%and_then_ok. left. Qed.

(** The scope that owns an occurrence is rebuilt. *)
Definition owner_rebuilt (p : CandidatePlan) (owner : TrafficSplitOwner) : Prop :=
  match owner with
  | OwnerRoute i => reused_routes p !! i = None
  | OwnerService i => reused_services p !! i = None
  | OwnerGlobalRule i => reused_global_rules p !! i = None
  end.

(** Exactly the rebuilt occurrences are prepared.  A named upstream is
    resolved again if and only if it is not reused, the inline upstream of a
    service or a route if and only if its scope is not reused, and a plugin's
    inline upstream only if its scope is not: an unrelated update never repeats
    the DNS work of an untouched scope. *)
Theorem jobs_are_rebuilds config previous p :
  jobs_owned -> CandidatePlan_build config previous = Ok p ->
  (forall i u, (Named i, u) ∈ jobs p <-> upstreams config !! i = Some u /\ reused_upstreams p !! i = None) /\
  (forall i u, (ServiceInline i, u) ∈ jobs p <->
     exists s, services config !! i = Some s /\ Service.upstream s = Some u /\ reused_services p !! i = None) /\
  (forall i u, (RouteInline i, u) ∈ jobs p <->
     exists r, routes config !! i = Some r /\ Route.upstream r = Some u /\ reused_routes p !! i = None) /\
  (forall owner o u, plugin_occurrence owner o -> (o, u) ∈ jobs p -> owner_rebuilt p owner).
Proof.
  intros Hown Hb. unfold CandidatePlan_build in Hb. do 5 (apply and_then_ok in Hb as (? & _ & Hb)).
  apply and_then_ok in Hb as (j1 & H1 & Hb). apply and_then_ok in Hb as (j2 & H2 & Hb).
  apply and_then_ok in Hb as (j3 & H3 & Hb). apply and_then_ok in Hb as (j4 & H4 & [= <-]). simpl.
  pose proof (job_loop_ok _ _ _ _ _ H1) as E1. pose proof (job_loop_ok _ _ _ _ _ H2) as E2.
  pose proof (job_loop_ok _ _ _ _ _ H3) as E3. pose proof (job_loop_ok _ _ _ _ _ H4) as E4.
  assert (forall o u, (o, u) ∈ j4 -> 
    (exists i, o = Named i /\ upstreams config !! i = Some u /\ x !! i = None) \/
    (exists i s, services config !! i = Some s /\ x0 !! i = None /\
       ((o = ServiceInline i /\ Service.upstream s = Some u) \/ plugin_occurrence (OwnerService i) o)) \/
    (exists i, x1 !! i = None /\ plugin_occurrence (OwnerGlobalRule i) o) \/
    (exists i r, routes config !! i = Some r /\ x2 !! i = None /\
       ((o = RouteInline i /\ Route.upstream r = Some u) \/ plugin_occurrence (OwnerRoute i) o))) as Hcases.
  { intros o u Hj. apply E4 in Hj as [Hj|(i & t & more & Hc & Hn & Hs & Hj)].
    2:{ do 3 right. exists i, t. split_and!; [done..|]. apply (scope_jobs_ok _ _ _ _ _ Hown Hs) in Hj as [[[= ->] ?]|?]; auto. }
    apply E3 in Hj as [Hj|(i & t & more & Hc & Hn & Hs & Hj)].
    2:{ do 2 right. left. exists i. split; [done|]. apply (scope_jobs_ok _ _ _ _ _ Hown Hs) in Hj as [[[=] ?]|?]; auto. }
    apply E2 in Hj as [Hj|(i & t & more & Hc & Hn & Hs & Hj)].
    2:{ right. left. exists i, t. split_and!; [done..|]. apply (scope_jobs_ok _ _ _ _ _ Hown Hs) in Hj as [[[= ->] ?]|?]; auto. }
    apply E1 in Hj as [Hj|(i & t & more & Hc & Hn & [= <-] & Hj)]; [by apply not_elem_of_nil in Hj|].
    apply list_elem_of_singleton in Hj as [= -> ->]. left. eauto. }
  assert (forall owner i, ~ plugin_occurrence owner (Named i)) as Hn by (by intros ? ? [(? & ? & [=])|[=]]).
  assert (forall owner i, ~ plugin_occurrence owner (ServiceInline i)) as Hs by (by intros ? ? [(? & ? & [=])|[=]]).
  assert (forall owner i, ~ plugin_occurrence owner (RouteInline i)) as Hr by (by intros ? ? [(? & ? & [=])|[=]]).
  split_and!.
  - intros i u. split; [intros Hj; destruct (Hcases _ _ Hj); naive_solver|]. intros [Hu Hx].
    apply E4. left. apply E3. left. apply E2. left. apply E1. right. exists i, u, [(Named i, u)].
    split_and!; [done..|left].
  - intros i u. split; [intros Hj; destruct (Hcases _ _ Hj); naive_solver|]. intros (s & Hsv & Hu & Hx).
    destruct (job_scope_total _ _ _ _ _ H2 i s Hsv Hx) as [more Hm].
    apply E4. left. apply E3. left. apply E2. right. exists i, s, more. split_and!; [done..|].
    rewrite Hu in Hm. by eapply scope_jobs_inline.
  - intros i u. split; [intros Hj; destruct (Hcases _ _ Hj); naive_solver|]. intros (r & Hrt & Hu & Hx).
    destruct (job_scope_total _ _ _ _ _ H4 i r Hrt Hx) as [more Hm].
    apply E4. right. exists i, r, more. split_and!; [done..|]. rewrite Hu in Hm. by eapply scope_jobs_inline.
  - intros owner o u Ho Hj.
    assert (forall ow, plugin_occurrence ow o -> ow = owner) as Hsame.
    { intros ow [(a & b & ->)| ->]; destruct Ho as [(? & ? & [=])|[=]]; congruence. }
    destruct (Hcases _ _ Hj) as [(i & -> & _)|[(i & s & _ & Hx & [[-> _]|Hp])|[(i & Hx & Hp)|(i & r & _ & Hx & [[-> _]|Hp])]]];
      try (by destruct (Hn owner i)); try (by destruct (Hs owner i)); try (by destruct (Hr owner i));
      rewrite <- (Hsame _ Hp); exact Hx.
Qed.

End control_plane.

(** ** Witnesses: adding [u2] compiles [u2] alone *)

Import ToyEnv.

Module ToyCompiler.

#[export] Instance compiler : Compiler := {
  Lb := nat; Prep := nat; Body := unit;
  from_prepared u p := Ok p;
  fresh_uuid n := "x";
}.

Definition set1 : ResourceConfigSet :=
  {| upstreams := <["u1" := demo_upstream "u1"]> {["u2" := demo_upstream "u2"]}; services := ∅; global_rules := ∅;
     routes := {["r1" := demo_route "r1" (Some "u1")]}; ssls := ∅ |}.
Definition set3 : ResourceConfigSet := set1 <| upstreams := base.delete "u2" (upstreams set1) |>.
Definition prepared (o : UpstreamOccurrence) : option nat := Some 7%nat.

Definition first_plan : Result CandidatePlan ProxyError := CandidatePlan_build [] set3 empty_snapshot.
Definition first : Result (CandidateSnapshot * nat) ProxyError :=
  let? p := first_plan in build_prepared [] [] set3 p prepared 0%nat.
Definition first_snapshot : CandidateSnapshot :=
  match first with Ok r => r.1 | Err _ => empty_snapshot end.
Definition second_plan : CandidatePlan :=
  match CandidatePlan_build [] set1 first_snapshot with
  | Ok p => p
  | Err _ => Build_CandidatePlan ∅ ∅ ∅ ∅ ∅ []
  end.

Lemma no_factories refs : targets_declared [] refs.
Proof. intros name meta create Hf. discriminate Hf. Qed.

End ToyCompiler.

Import ToyCompiler.

Lemma first_coherent : coherent [] first_snapshot.
Proof.
  split.
  - intros i x. change (c_upstreams first_snapshot) with (<["u1" := default (Build_ProxyUpstream (demo_upstream "") 0%nat 0%nat)
      (c_upstreams first_snapshot !! "u1")]> (∅ : gmap string ProxyUpstream)).
    rewrite lookup_insert_Some, lookup_empty. intros [[<- <-]|[_ [=]]]. exists 7%nat, 0%nat, 1%nat. vm_compute. reflexivity.
  - intros i s. vm_compute. discriminate.
  - intros i s. vm_compute. discriminate.
  - intros i s. vm_compute. discriminate.
  - intros i r. change (c_routes first_snapshot) with (<["r1" := default (Build_ProxyRoute (demo_route "" None) [] None [] None [] None false)
      (c_routes first_snapshot !! "r1")]> (∅ : gmap string ProxyRoute)).
    rewrite lookup_insert_Some, lookup_empty. intros [[<- <-]|[_ [=]]].
    unfold route_coherent. refine (conj _ (conj _ (conj _ (conj _ _)))).
    + vm_compute. exact I.
    + intros sid Hx. vm_compute in Hx. discriminate Hx.
    + vm_compute. split; [by eexists|reflexivity].
    + intros e u He. vm_compute in He. by apply not_elem_of_nil in He.
    + vm_compute. reflexivity.
Qed.

Lemma incremental_compile_coherent_witness :
  exists c n', build_prepared [] [] set1 second_plan prepared 10%nat = Ok (c, n') /\ coherent [] c /\
  pu_inner <$> c_upstreams c = upstreams set1 /\ c_routes c !! "r1" = c_routes first_snapshot !! "r1".
Proof.
  destruct (build_prepared [] [] set1 second_plan prepared 10%nat) as [[c n']|] eqn:E; [|vm_compute in E; discriminate].
  exists c, n'. split; [done|].
  destruct (incremental_compile_coherent [] [] (no_factories _) set1 first_snapshot second_plan prepared 10%nat c n')
    as (Hc & _ & Hi); [exact first_coherent | vm_compute; reflexivity | exact E |].
  split; [exact Hc|]. split.
  { apply Hi. intros i u. unfold set1. cbn [upstreams]. rewrite lookup_insert_Some, lookup_singleton_Some.
    intros [[<- <-]|[_ [<- <-]]]; discriminate. }
  vm_compute in E. injection E as <- _. vm_compute. reflexivity.
Defined.

Lemma jobs_are_rebuilds_witness :
  jobs second_plan = [(Named "u2", demo_upstream "u2")] /\
  ((Named "u2", demo_upstream "u2") ∈ jobs second_plan <->
   upstreams set1 !! "u2" = Some (demo_upstream "u2") /\ reused_upstreams second_plan !! "u2" = None).
Proof.
  split; [vm_compute; reflexivity|].
  refine (proj1 (jobs_are_rebuilds [] set1 first_snapshot second_plan _ _) "u2" (demo_upstream "u2")).
  - intros name meta f Hm. discriminate Hm.
  - vm_compute. reflexivity.
Defined.
