(* ===== verification/TrafficSplit.v ===== *)
(** * The traffic-split plugin ([src/src/plugins/traffic_split.rs])

    Validation, the declared references and inline upstreams, compilation
    against the candidate's upstreams, and the weighted choice. *)

From Stdlib Require Import ZArith Lia.
From stdpp Require Import base tactics gmap fin_maps strings pretty option list.
From S2P Require Import Prelude Errors GraphStore Json Config ConfigSet GraphDecode RouteBuild.

Open Scope Z_scope.

Definition PLUGIN_NAME : string := "traffic-split".
Definition PRIORITY : Z := 966.

Record WeightedUpstream : Type := {
  upstream_id : option string;
  upstream : option Upstream.t;
  weight : Z;
}.
Record MatchRule : Type := { vars : list (list string); weighted_upstreams : list WeightedUpstream }.
Record PluginConfig : Type := { rules : list MatchRule }.

(** The derived [Deserialize] of [PluginConfig], with the JSON documents of [GraphDecode]. *)
Class SplitSerde : Type := { split_from_value : Json -> Result PluginConfig string }.

Section split.
Context `{Serde} `{SplitSerde}.

Definition parse (cfg : Json) : Result PluginConfig ProxyError :=
  map_err Serialization (split_from_value cfg).

(** The [try_fold] of [checked_add]: the sum of the weights as a [u64]. *)
Definition total_weight_of (ws : list WeightedUpstream) : Result Z ProxyError :=
  try_fold (fun acc w =>
    if acc + weight w <=? u64_max then Ok (acc + weight w)
    else Err (Configuration "traffic-split weight overflow")) 0 ws.

Definition rule_error (rule_idx : nat) (what : string) : ProxyError :=
  PluginError ("Rule " +:+ pretty rule_idx +:+ what).

Definition both_targets (w : WeightedUpstream) : bool :=
  bool_decide (is_Some (upstream_id w)) && bool_decide (is_Some (upstream w)).
Definition both_error : ProxyError :=
  Configuration "traffic-split target cannot set both upstream_id and upstream".

(** [for (i, x) in l.iter().enumerate()] *)
Definition enumerate {A} (l : list A) : list (nat * A) := imap pair l.

Definition validate_rule (ir : nat * MatchRule) : Result unit ProxyError :=
  if bool_decide (weighted_upstreams ir.2 = []) then
    Err (rule_error ir.1 " must have at least one weighted upstream")
  else
    let? total := total_weight_of (weighted_upstreams ir.2) in
    if total =? 0 then Err (rule_error ir.1 " must have total weight greater than 0")
    else try_for_each (fun w => if both_targets w then Err both_error else Ok ()) (weighted_upstreams ir.2).

(** [validate_traffic_split_config]; the derived schema accepts every parsed
    configuration. *)
Definition validate_traffic_split_config (cfg : Json) : Result unit ProxyError :=
  let? config := parse cfg in
  if bool_decide (rules config = []) then
    Err (PluginError "Traffic-split plugin requires at least one rule")
  else try_for_each validate_rule (enumerate (rules config)).

Definition named_upstream_ids (cfg : Json) : Result (list string) ProxyError :=
  let? config := parse cfg in
  Ok (rules config ≫= (fun r => omap upstream_id (weighted_upstreams r))).

(** *** Inline upstreams, read from the document *)

Definition json_array (v : option Json) : option (list Json) :=
  match v with Some (JArray items) => Some items | _ => None end.

Definition weighted_job (owner : TrafficSplitOwner) (rule_index : nat)
    (jobs : list (UpstreamOccurrence * Upstream.t)) (iw : nat * Json)
    : Result (list (UpstreamOccurrence * Upstream.t)) ProxyError :=
  match json_get "upstream" iw.2 with
  | Some value =>
    let? u := map_err (fun e => Configuration ("Invalid traffic-split upstream: " +:+ e)) (upstream_from_value value) in
    Ok (jobs ++ [(TrafficSplit owner rule_index iw.1, u)])%list
  | None => Ok jobs
  end.

Definition rule_jobs (owner : TrafficSplitOwner) (jobs : list (UpstreamOccurrence * Upstream.t))
    (ir : nat * Json) : Result (list (UpstreamOccurrence * Upstream.t)) ProxyError :=
  let? us := ok_or (Configuration "Invalid traffic-split weighted_upstreams")
               (json_array (json_get "weighted_upstreams" ir.2)) in
  try_fold (weighted_job owner ir.1) jobs (enumerate us).

Definition inline_upstream_jobs (owner : TrafficSplitOwner) (cfg : Json)
    : Result (list (UpstreamOccurrence * Upstream.t)) ProxyError :=
  let? rules := ok_or (Configuration "Invalid traffic-split rules") (json_array (json_get "rules" cfg)) in
  try_fold (rule_jobs owner) [] (enumerate rules).

(** *** The weighted choice *)

(** The loop of [pick_upstream] from the drawn number [n]. *)
Fixpoint pick {T} (targets : list (Z * T)) (n : Z) : option T :=
  match targets with
  | [] => None
  | (w, t) :: rest => if n <? w then Some t else pick rest (n - w)
  end.

Section compiled.
Context `{Compiler}.

Inductive WeightedTarget : Type := Selected (u : ProxyUpstream) | PassThrough.

Record CompiledRule : Type := { targets : list (Z * WeightedTarget); total_weight : Z }.
Record PluginTrafficSplit : Type := { config : PluginConfig; compiled : list CompiledRule }.

(** [draw] is [gen_range(0..total_weight)]. *)
Definition pick_upstream (rule : CompiledRule) (draw : Z -> Z) : option WeightedTarget :=
  if total_weight rule =? 0 then None else pick (targets rule) (draw (total_weight rule)).

(** [request_filter]: the first rule whose vars match decides; the result is
    the new [ctx.upstream_override].  Matching of vars is a parameter. *)
Fixpoint request_filter (matches : list (list string) -> bool) (draw : Z -> Z)
    (rs : list (MatchRule * CompiledRule)) (override_ : option ProxyUpstream) : option ProxyUpstream :=
  match rs with
  | [] => override_
  | (rule, c) :: rs' =>
    if matches (vars rule) then
      match pick_upstream c draw with
      | Some (Selected u) => Some u
      | Some PassThrough => None
      | None => override_
      end
    else request_filter matches draw rs' override_
  end.

(** *** Compilation *)

Definition build_target (us : gmap string ProxyUpstream) (prepared : UpstreamOccurrence -> option Prep)
    (owner : TrafficSplitOwner) (rule_idx : nat) (iw : nat * WeightedUpstream) : B (Z * WeightedTarget) :=
  if both_targets iw.2 then fail both_error
  else
    let! target :=
      match upstream_id iw.2, upstream iw.2 with
      | Some i, _ =>
        let! u := from_result (ok_or (Configuration ("Traffic-split references missing upstream '" +:+ i +:+ "'")) (us !! i)) in
        pure (Selected u)
      | None, Some inline =>
        let! p := from_result (ok_or (Configuration ("Traffic-split inline upstream " +:+ pretty rule_idx +:+ "/"
                     +:+ pretty iw.1 +:+ " was not prepared")) (prepared (TrafficSplit owner rule_idx iw.1))) in
        let! u := ProxyUpstream_build inline p in
        pure (Selected u)
      | None, None => pure PassThrough
      end in
    pure (weight iw.2, target).

Definition build_rule (us : gmap string ProxyUpstream) (prepared : UpstreamOccurrence -> option Prep)
    (owner : TrafficSplitOwner) (ir : nat * MatchRule) : B CompiledRule :=
  if bool_decide (weighted_upstreams ir.2 = []) then
    fail (rule_error ir.1 " must have at least one weighted upstream")
  else
    let! total := from_result (total_weight_of (weighted_upstreams ir.2)) in
    if total =? 0 then fail (rule_error ir.1 " must have total weight greater than 0")
    else
      let! ts := collect (build_target us prepared owner ir.1) (enumerate (weighted_upstreams ir.2)) in
      pure {| targets := ts; total_weight := total |}.

Definition create_traffic_split_plugin_with_upstreams (cfg : Json) (us : gmap string ProxyUpstream)
    (prepared : UpstreamOccurrence -> option Prep) (owner : TrafficSplitOwner) : B PluginTrafficSplit :=
  let! config := from_result (parse cfg) in
  if bool_decide (rules config = []) then fail (PluginError "Traffic-split plugin requires at least one rule")
  else
    let! rs := collect (build_rule us prepared owner) (enumerate (rules config)) in
    pure {| config := config; compiled := rs |}.

(** *** The registered factory *)

(** The upstreams taken by name, next to the entry that names them. *)
Definition named_target (wt : WeightedUpstream * (Z * WeightedTarget)) : list ProxyUpstream :=
  match upstream_id wt.1, wt.2.2 with Some _, Selected u => [u] | _, _ => [] end.
Definition inline_target (wt : WeightedUpstream * (Z * WeightedTarget)) : list ProxyUpstream :=
  match upstream_id wt.1, wt.2.2 with None, Selected u => [u] | _, _ => [] end.
Definition split_pairs (self : PluginTrafficSplit) : list (WeightedUpstream * (Z * WeightedTarget)) :=
  zip (rules (config self)) (compiled self) ≫= (fun rc => zip (weighted_upstreams rc.1) (targets rc.2)).

Context (mk_body : PluginTrafficSplit -> Body).

Definition create_traffic_split_plugin (cfg : Json) (us : gmap string ProxyUpstream)
    (prepared : UpstreamOccurrence -> option Prep) (owner : TrafficSplitOwner) : B Plugin :=
  let! self := create_traffic_split_plugin_with_upstreams cfg us prepared owner in
  pure {| body := mk_body self; p_name := PLUGIN_NAME; p_priority := PRIORITY;
          p_targets := split_pairs self ≫= named_target; p_inlines := split_pairs self ≫= inline_target |}.

Definition traffic_split_factory : FactoryMeta :=
  {| fm_name := PLUGIN_NAME; fm_phases := 2; fm_factory := WithUpstreams create_traffic_split_plugin |}.

End compiled.
Definition traffic_split_meta : PluginMeta :=
  {| meta_name := PLUGIN_NAME; meta_validate := validate_traffic_split_config;
     meta_upstream_refs := Some named_upstream_ids; meta_upstream_jobs := Some inline_upstream_jobs |}.

(** ** The choice *)

Definition sumw {T} (l : list (Z * T)) : Z := foldr (fun wt acc => wt.1 + acc) 0 l.

Lemma pick_interval {T} (l : list (Z * T)) k :
  Forall (fun wt => 0 <= wt.1) l -> 0 <= k < sumw l ->
  exists i w t, l !! i = Some (w, t) /\ pick l k = Some t /\ sumw (take i l) <= k < sumw (take i l) + w.
Proof.
  intros Hpos. revert k; induction Hpos as [|[w t] l Hw Hpos IH]; intros k Hk; simpl in *; [lia|].
  destruct (k <? w) eqn:E; [apply Z.ltb_lt in E | apply Z.ltb_ge in E].
  - exists 0%nat, w, t. simpl. split_and!; try done; lia.
  - destruct (IH (k - w)) as (i & w' & t' & Hi & Hp & Hr); [lia|].
    exists (S i), w', t'. simpl. split_and!; try done; lia.
Qed.

Lemma total_weight_sum acc ws t :
  try_fold (fun acc w =>
    if acc + weight w <=? u64_max then Ok (acc + weight w)
    else Err (Configuration "traffic-split weight overflow")) acc ws = Ok t ->
  t = acc + foldr (fun w s => weight w + s) 0 ws.
Proof.
  revert acc; induction ws as [|w ws IH]; intros acc; simpl; [intros [= ->]; lia|].
  destruct (_ <=? _); simpl; [|done]. intros ->%IH. lia.
Qed.

(** ** Jobs and errors *)

Lemma try_fold_err {A S E} (f : S -> A -> Result S E) s l x :
  x ∈ l -> (forall s, is_ok (f s x) = false) -> is_ok (try_fold f s l) = false.
Proof.
  intros Hx Hf. revert s; induction l as [|y l IH]; intros s; simpl; [by apply not_elem_of_nil in Hx|].
  apply elem_of_cons in Hx as [->|Hx].
  - specialize (Hf s). by destruct (f s y).
  - destruct (f s y); simpl; auto.
Qed.

Lemma enumerate_lookup {A} (l : list A) i x : l !! i = Some x -> (i, x) ∈ enumerate l.
Proof.
  intros Hx. unfold enumerate. apply list_elem_of_lookup. exists i. rewrite list_lookup_imap, Hx. done.
Qed.

Lemma enumerate_snd {A} (l : list A) ix : ix ∈ enumerate l -> ix.2 ∈ l.
Proof.
  unfold enumerate. intros (i & Hi)%list_elem_of_lookup. rewrite list_lookup_imap in Hi.
  destruct (l !! i) eqn:E; simplify_eq/=. by eapply list_elem_of_lookup_2.
Qed.

(** ** Properties *)

(** Weighted choice.  In a compiled rule the targets keep the configured
    weights in order, their sum is the drawing range, and a draw [k] selects
    the target whose prefix-sum interval contains it: each target is selected
    by exactly as many draws as its weight, and none draws nothing. *)
Theorem pick_weighted `{Compiler} us prepared owner ir n c n' :
  Forall (fun w => 0 <= weight w) (weighted_upstreams ir.2) ->
  build_rule us prepared owner ir n = Ok (c, n') ->
  (targets c).*1 = weight <$> weighted_upstreams ir.2 /\ total_weight c = sumw (targets c) /\
  forall k, 0 <= k < total_weight c ->
    exists i w t, targets c !! i = Some (w, t) /\ pick_upstream c (fun _ => k) = Some t /\
      sumw (take i (targets c)) <= k < sumw (take i (targets c)) + w.
Proof.
  intros Hpos. unfold build_rule. case_bool_decide; [done|].
  intros (total & k1 & [Ht _]%from_result_ok & Hr)%bindB_ok. destruct (total =? 0) eqn:Hz; [done|].
  apply bindB_ok in Hr as (ts & k2 & Hts & [-> _]%pure_ok). cbn [targets total_weight].
  assert (ts.*1 = weight <$> weighted_upstreams ir.2) as Hw.
  { clear Ht. revert Hts. unfold enumerate. generalize (weighted_upstreams ir.2), k1, k2, ts. clear.
    intros l. change (imap pair l) with (imap (fun i x => ((0 + i)%nat, x)) l). generalize 0%nat.
    induction l as [|w l IH]; intros m k kk ts; simpl; [by intros [-> _]%pure_ok|].
    intros (y & j & Hy & Hr)%bindB_ok. apply bindB_ok in Hr as (ys & j' & Hys & [-> _]%pure_ok). simpl. f_equal.
    - unfold build_target in Hy. destruct (both_targets _); [done|].
      apply bindB_ok in Hy as (t & ? & _ & [-> _]%pure_ok). done.
    - apply (IH (S m) j j' ys). erewrite imap_ext; [exact Hys|].
      intros i x _. simpl. f_equal. lia. }
  assert (total = sumw ts) as ->.
  { apply total_weight_sum in Ht as ->. simpl. clear -Hw. revert ts Hw. generalize (weighted_upstreams ir.2).
    induction l as [|w l IH]; intros [|t ts]; simpl; try done. intros [= -> Hts]. specialize (IH ts Hts). unfold sumw in *. simpl. lia. }
  split; [done|]. split; [done|]. intros k Hk. unfold pick_upstream. cbn [targets total_weight].
  rewrite Hz. apply pick_interval; [|done].
  apply Forall_forall. intros [w t] Hin. simpl.
  assert (w ∈ ts.*1) as Hin' by (apply list_elem_of_fmap; by exists (w, t)).
  rewrite Hw in Hin'. apply list_elem_of_fmap in Hin' as (x & -> & Hx). rewrite Forall_forall in Hpos. auto.
Qed.

(** An explicit null upstream blocks planning.  Validation reads a target
    through the typed configuration, where a null [upstream] is an absent one;
    the job collection reads the document, where it is present, and fails: an
    accepted configuration then fails every preparation of the candidate. *)
Theorem null_upstream_breaks_jobs owner cfg rs r ws w i j :
  json_get "rules" cfg = Some (JArray rs) -> rs !! i = Some r ->
  json_get "weighted_upstreams" r = Some (JArray ws) -> ws !! j = Some w ->
  json_get "upstream" w = Some JNull -> is_ok (upstream_from_value JNull) = false ->
  is_ok (inline_upstream_jobs owner cfg) = false.
Proof.
  intros Hrs Hr Hws Hw Hu Hnull. unfold inline_upstream_jobs. rewrite Hrs. simpl.
  apply (try_fold_err _ _ _ _ (enumerate_lookup _ _ _ Hr)). intros s. unfold rule_jobs. simpl. rewrite Hws. simpl.
  apply (try_fold_err _ _ _ _ (enumerate_lookup _ _ _ Hw)). intros s'. unfold weighted_job. simpl. rewrite Hu.
  by destruct (upstream_from_value JNull).
Qed.

Lemma collect_zip {A C} (f : nat * A -> B C) (l : list A) m n ys n' :
  collect f (imap (fun i x => ((m + i)%nat, x)) l) n = Ok (ys, n') ->
  forall x y, (x, y) ∈ zip l ys -> exists i k k', f (i, x) k = Ok (y, k').
Proof.
  revert m n n' ys; induction l as [|a l IH]; intros m n n' ys; simpl.
  { intros _ x y Hin. by apply not_elem_of_nil in Hin. }
  intros (y0 & j & Hy & Hr)%bindB_ok x y Hin. apply bindB_ok in Hr as (ys' & j' & Hys & [-> _]%pure_ok).
  apply elem_of_cons in Hin as [[= -> ->]|Hin]; [eauto|].
  eapply (IH (S m)); [|exact Hin]. erewrite imap_ext; [exact Hys|]. intros i z _. simpl. f_equal. lia.
Qed.

Lemma named_target_found `{Compiler} us prepared owner cfg n self n' :
  create_traffic_split_plugin_with_upstreams cfg us prepared owner n = Ok (self, n') ->
  parse cfg = Ok (config self) /\
  forall u, u ∈ split_pairs self ≫= named_target ->
    exists r w i, r ∈ rules (config self) /\ w ∈ weighted_upstreams r /\ upstream_id w = Some i /\ us !! i = Some u.
Proof.
  unfold create_traffic_split_plugin_with_upstreams. intros (c & k & [Hc _]%from_result_ok & Hr)%bindB_ok.
  case_bool_decide; [done|]. apply bindB_ok in Hr as (cs & k' & Hcs & [-> _]%pure_ok). split; [done|]. simpl.
  intros u ([w [wt t]] & Hu & Hwt)%list_elem_of_bind. unfold split_pairs in Hwt. simpl in Hwt.
  apply list_elem_of_bind in Hwt as ([r c'] & Hz & Hin). simpl in Hz.
  destruct (collect_zip (build_rule us prepared owner) _ 0 _ _ _ Hcs _ _ Hin) as (i & k1 & k2 & Hb).
  unfold build_rule in Hb. simpl in Hb. case_bool_decide; [done|].
  apply bindB_ok in Hb as (tot & k3 & _ & Hb). destruct (tot =? 0); [done|].
  apply bindB_ok in Hb as (ts & k4 & Hts & [-> _]%pure_ok). simpl in Hz.
  destruct (collect_zip (build_target us prepared owner i) _ 0 _ _ _ Hts _ _ Hz) as (j & k5 & k6 & Ht).
  unfold named_target in Hu. simpl in Hu. unfold build_target in Ht. simpl in Ht.
  destruct (both_targets w); [done|]. destruct (upstream_id w) as [uid|] eqn:Hid; [|by apply not_elem_of_nil in Hu].
  apply bindB_ok in Ht as (tg & k7 & Htg & [E _]%pure_ok). injection E as -> ->.
  apply bindB_ok in Htg as (u' & k8 & [Hl%ok_or_ok _]%from_result_ok & [-> _]%pure_ok).
  apply list_elem_of_singleton in Hu as ->.
  exists r, w, uid. apply elem_of_zip_l in Hin as Hr. apply elem_of_zip_l in Hz as Hw. done.
Qed.

(** Declared references.  The upstreams a compiled traffic-split plugin
    holds by name are found in the candidate under ids the plugin declares, so
    the reuse plan sees every one of them. *)
Theorem traffic_split_declares `{Compiler} mk_body :
  targets_declared [traffic_split_factory mk_body] (plugin_upstream_refs [traffic_split_meta]).
Proof.
  intros name meta create Hf Hcr cfg us prepared owner n p n'. simpl in Hf. case_bool_decide as Hn; [|done].
  injection Hf as <-. injection Hcr as <-. subst name.
  intros (self & k & Hs & [-> _]%pure_ok)%bindB_ok. apply named_target_found in Hs as [Hp Hu]. simpl.
  unfold plugin_upstream_refs, plugin_meta. simpl. unfold named_upstream_ids. rewrite Hp. simpl.
  eexists. split; [done|]. intros u (r & w & i & Hr & Hw & Hid & Hl)%Hu.
  exists i. split; [|done]. apply list_elem_of_bind. exists r. split; [|done].
  apply list_elem_of_omap. eauto.
Qed.

End split.

(** ** Witnesses *)

Module ToySplit.

Definition rule (ws : list WeightedUpstream) : MatchRule := {| vars := []; weighted_upstreams := ws |}.
Definition named (i : string) (w : Z) : WeightedUpstream := {| upstream_id := Some i; upstream := None; weight := w |}.
Definition default_target (w : Z) : WeightedUpstream := {| upstream_id := None; upstream := None; weight := w |}.

(** A document whose single target spells out [null], read as serde reads it. *)
Definition null_doc : Json := JObject [("rules", JArray [JObject [("weighted_upstreams",
  JArray [JObject [("upstream", JNull); ("weight", JNumber (NInt 1))]])]])].
#[export] Instance serde : SplitSerde := {
  split_from_value v := Ok {| rules := [rule [default_target 1]] |};
}.

#[export] Instance compiler : Compiler := {
  Lb := nat; Prep := nat; Body := unit;
  from_prepared u p := Ok p;
  fresh_uuid n := "x";
}.
Definition up : ProxyUpstream := {| pu_inner := demo_upstream "u1"; pu_lb := 1%nat; pu_arc := 1%nat |}.

End ToySplit.

Import ToySerde ToySplit.

Lemma pick_weighted_witness :
  exists c, build_rule {["u1" := up]} (fun _ => None) (OwnerRoute "r1") (0%nat, rule [named "u1" 3; default_target 1]) 0%nat
    = Ok (c, 0%nat) /\ total_weight c = 4 /\
  exists i w t, targets c !! i = Some (w, t) /\ pick_upstream c (fun _ => 3) = Some t /\
    sumw (take i (targets c)) <= 3 < sumw (take i (targets c)) + w.
Proof.
  eexists. split; [vm_compute; reflexivity|]. split; [reflexivity|].
  match goal with |- context [pick_upstream ?c _] =>
    destruct (pick_weighted {["u1" := up]} (fun _ => None) (OwnerRoute "r1") (0%nat, rule [named "u1" 3; default_target 1])
      0%nat c 0%nat) as (_ & _ & Hp) end.
  - simpl. repeat constructor; discriminate.
  - vm_compute. reflexivity.
  - apply Hp. split; [discriminate|reflexivity].
Defined.

Lemma null_upstream_breaks_jobs_witness :
  validate_traffic_split_config null_doc = Ok () /\ is_ok (inline_upstream_jobs (OwnerRoute "r1") null_doc) = false.
Proof.
  split; [vm_compute; reflexivity|].
  refine (null_upstream_breaks_jobs (OwnerRoute "r1") null_doc _ _ _ _ 0 0 _ _ _ _ _ _); reflexivity.
Defined.
