(* ===== verification/Authority.v ===== *)
(** * The graph authority's worker ([src/src/proxy/graph_mutation/state.rs], [authority.rs])

    Submissions, the sole preparation worker, the generation fence and
    shutdown, as a labelled transition system: an event is one submission, one
    step of the worker, or the completion of an operation it awaits.
    Submissions and the fenced publication hold [write_lock], so each is one
    event; DNS preparation and compilation are awaited between events. *)

From Stdlib Require Import ZArith Lia.
From stdpp Require Import base tactics gmap fin_maps strings option sets list.
From S2P Require Import Prelude Errors Status GraphStore Json Config ConfigSet Encryption GraphDecode Publication.

Open Scope Z_scope.

Inductive Lifecycle : Type := Running | Stopped.
#[export] Instance Lifecycle_eq_dec : EqDecision Lifecycle.
Proof. solve_decision. Defined.

(** A cancellation token is named by the generation it was created for. *)
Record PendingGraph : Type := {
  generation : Z;
  revision : Z;
  stored : StoredGraph;
  logical : ResourceConfigSet;
}.

Inductive PrepareOutcome : Type :=
| Settled
| Transient (e : ProxyError)
| Permanent (e : ProxyError).

(** Where the worker task is: waiting on the channel; having read the target
    it will report failures for; awaiting preparation or compilation of a
    captured target; sleeping out a backoff; parked on a rejected generation;
    or no task, before the first submission and after the channel closed. *)
Inductive Worker : Type :=
| WIdle
| WStarting (attempted : option Z) (delay : Z)
| WAttempt (attempted : option Z) (captured : PendingGraph) (delay : Z)
| WBackoff (failed_generation : Z) (delay : Z)
| WParked (failed_generation : Z)
| WNone.

Record Inner : Type := {
  committed : option StoredGraph;
  target : option PendingGraph;
  latest_generation : Z;
  worker_tx : bool;
  signal : bool;
  worker : Worker;
  active_cancellation : option Z;
  cancelled : gset Z;
  lifecycle : Lifecycle;
  registry : PublicationRegistry;
  pending_gauge : Z;
  runtime_revision : Z;
  runtime_logical : ResourceConfigSet;
  status : RuntimeStatusInner;
}.
#[export] Instance eta_Inner : Eta Inner := fun s =>
  Build_Inner (committed s) (target s) (latest_generation s) (worker_tx s) (signal s) (worker s)
    (active_cancellation s) (cancelled s) (lifecycle s) (registry s) (pending_gauge s) (runtime_revision s)
    (runtime_logical s) (status s).

(** [ConfigurationGraph::with_state] on an empty runtime store. *)
Definition Inner_new : Inner :=
  {| committed := None; target := None; latest_generation := 0; worker_tx := false; signal := false; worker := WNone;
     active_cancellation := None; cancelled := ∅; lifecycle := Running; registry := PublicationRegistry_default;
     pending_gauge := 0; runtime_revision := 0; runtime_logical := ResourceConfigSet_default;
     status := RuntimeStatusInner_default |}.

Definition safe_preparation_error (permanent : bool) : string :=
  if permanent then "candidate rejected during runtime preparation"
  else "candidate preparation temporarily unavailable".

Definition initial_delay : Z := 1.
Definition max_delay : Z := 30.

Section authority.
Context `{CipherSuite} `{Serde}.
Context (PLUGIN_META : list PluginMeta) (kr : KeyringService).

(** *** Submission *)

Definition ensure_worker_started (s : Inner) : Result Inner GraphError :=
  if bool_decide (lifecycle s <> Running) then Err WorkerStopped
  else if worker_tx s then Ok s
  else Ok (s <| worker_tx := true |> <| signal := false |> <| worker := WIdle |>).

Definition cancel (token : option Z) (tokens : gset Z) : gset Z :=
  match token with Some g => {[ g ]} ∪ tokens | None => tokens end.

Definition submit (g : StoredGraph) (set : ResourceConfigSet) (s : Inner) : Result unit GraphError * Inner :=
  match ensure_worker_started s with
  | Err e => (Err e, s)
  | Ok s =>
    let gen := latest_generation s + 1 in
    let rev := graph_revision g in
    let s := s <| latest_generation := gen |> in
    let s := s <| registry := supersede_pending_except rev (pending rev (registry s)) |> in
    let s := s <| cancelled := cancel (active_cancellation s) (cancelled s) |> <| active_cancellation := Some gen |> in
    let s := s <| target := Some {| generation := gen; revision := rev; stored := g; logical := set |} |> in
    let s := s <| pending_gauge := rev |> in
    if worker_tx s then (Ok (), s <| signal := true |>) else (Err WorkerStopped, s)
  end.

(** [decode_graph] and [validate_runtime_form], as both submissions run them. *)
Definition admit_runtime (g : StoredGraph) : Result ResourceConfigSet (Stop GraphError) :=
  let? set := map_raise InvalidCandidate (decode_graph g DecryptForRuntime kr) in
  let? _ := map_err (fun e => Raise (InvalidCandidate e)) (validate_runtime_form PLUGIN_META set) in
  Ok set.

Definition lift_result {A} (r : Result A GraphError * Inner) : Result A (Stop GraphError) * Inner :=
  (map_err Raise r.1, r.2).

Definition replace_all (g : StoredGraph) (s : Inner) : Result unit (Stop GraphError) * Inner :=
  match admit_runtime g with
  | Err e => (Err e, s)
  | Ok set => lift_result (submit g set s)
  end.

(** The graph a watch batch layers on. *)
Definition watch_base (s : Inner) : StoredGraph :=
  match target s with
  | Some t => stored t
  | None => default StoredGraph_default (committed s)
  end.

Definition apply_watch (batch : WatchBatch) (s : Inner) : Result unit (Stop GraphError) * Inner :=
  match changes batch with
  | [] => (Ok (), s)
  | _ =>
    if batch_revision batch <? runtime_revision s then
      (Err (Raise (StaleRevision (batch_revision batch) (runtime_revision s))), s)
    else
      match apply_watch_batch (watch_base s) batch with
      | Err e => (Err (Raise e), s)
      | Ok g =>
        match admit_runtime g with
        | Err e => (Err e, s)
        | Ok set => lift_result (submit g set s)
        end
      end
  end.

(** [shutdown] up to waiting for the worker, which the worker's own events follow. *)
Definition shutdown (s : Inner) : Inner :=
  if bool_decide (lifecycle s = Stopped) then s
  else
    let s := s <| lifecycle := Stopped |> in
    let s := s <| cancelled := cancel (active_cancellation s) (cancelled s) |> <| active_cancellation := None |> in
    s <| worker_tx := false |> <| pending_gauge := 0 |>.

(** *** The worker *)

Definition current_target (s : Inner) : option Z := generation <$> target s.
Definition is_cancelled (s : Inner) (token : Z) : bool := bool_decide (token ∈ cancelled s).

Definition reject_publication (gen : Z) (err : string) (s : Inner) : Inner :=
  match target s with
  | Some t => if bool_decide (generation t = gen)
              then s <| registry := rejected (revision t) err (registry s) |> else s
  | None => s
  end.

(** The arms of the worker loop's [match] on an outcome. *)
Definition handle_outcome (attempted : option Z) (delay : Z) (outcome : PrepareOutcome) (s : Inner) : Inner :=
  match outcome with
  | Settled => s <| worker := WIdle |>
  | Transient _ =>
    let s := s <| status := record_preparation_error (safe_preparation_error false) (status s) |> in
    match attempted with
    | None => s <| worker := WIdle |>
    | Some gen =>
      if bool_decide (latest_generation s = gen) then s <| worker := WBackoff gen delay |>
      else s <| worker := WStarting (current_target s) delay |>
    end
  | Permanent _ =>
    let s := match attempted with
             | Some gen => reject_publication gen (safe_preparation_error true) s
             | None => s
             end in
    let s := s <| status := record_preparation_error (safe_preparation_error true) (status s) |> in
    match attempted with
    | None => s <| worker := WIdle |>
    | Some gen => s <| worker := WParked gen |>
    end
  end.

(** The tail of [prepare_latest] under [write_lock]: the fence and the publication. *)
Definition finish_publish (now : Instant) (p : PendingGraph) (s : Inner) : PrepareOutcome * Inner :=
  if is_cancelled s (generation p) || negb (bool_decide (latest_generation s = generation p)) then (Settled, s)
  else if revision p <? runtime_revision s then (Settled, s)
  else
    let s := s <| runtime_revision := revision p |> <| runtime_logical := logical p |>
               <| status := set_published_revision now (revision p) (status s) |> in
    let s := s <| committed := Some (stored p) |> in
    let s := s <| registry := published (revision p) (registry s) |> in
    (Settled, s <| pending_gauge := 0 |>).

(** *** Events *)

Inductive Event : Type :=
| EvReplace (g : StoredGraph)
| EvWatch (batch : WatchBatch)
| EvAdminCommitted (rev : Z)
| EvShutdown
| EvRecv
| EvRead
| EvPrepareFailed (e : ProxyError)
| EvCompileFailed (e : ProxyError)
| EvCancelled
| EvCompiled (now : Instant)
| EvTimer
| EvBackoffCancelled
| EvUnpark.

(** One event; [None] when it is not enabled. *)
Definition step (s : Inner) (ev : Event) : option Inner :=
  match ev, worker s with
  | EvReplace g, _ => Some (replace_all g s).2
  | EvWatch b, _ => Some (apply_watch b s).2
  | EvAdminCommitted rev, _ => Some (s <| registry := pending rev (registry s) |>)
  | EvShutdown, _ => Some (shutdown s)
  | EvRecv, WIdle =>
    if signal s then Some (s <| signal := false |> <| worker := WStarting (current_target s) initial_delay |>)
    else if worker_tx s then None else Some (s <| worker := WNone |>)
  | EvRead, WStarting attempted delay =>
    match target s with
    | Some p => Some (s <| worker := WAttempt attempted p delay |>)
    | None => Some (handle_outcome attempted delay Settled s)
    end
  | EvPrepareFailed e, WAttempt attempted p delay => Some (handle_outcome attempted delay (Transient e) s)
  | EvCompileFailed e, WAttempt attempted p delay => Some (handle_outcome attempted delay (Permanent e) s)
  | EvCancelled, WAttempt attempted p delay =>
    if is_cancelled s (generation p) then Some (handle_outcome attempted delay Settled s) else None
  | EvCompiled now, WAttempt attempted p delay =>
    let r := finish_publish now p s in Some (handle_outcome attempted delay r.1 r.2)
  | EvTimer, WBackoff gen delay =>
    Some (s <| worker := WStarting (current_target s) (Z.min (delay * 2) max_delay) |>)
  | EvBackoffCancelled, WBackoff gen delay =>
    if is_cancelled s gen then Some (s <| worker := WIdle |>) else None
  | EvUnpark, WParked gen => if is_cancelled s gen then Some (s <| worker := WIdle |>) else None
  | _, _ => None
  end.

Definition run_events (s : Inner) (evs : list Event) : option Inner :=
  foldl (fun os ev => s ← os; step s ev) (Some s) evs.

Inductive reachable : Inner -> Prop :=
| reachable_new : reachable Inner_new
| reachable_step s ev s' : reachable s -> step s ev = Some s' -> reachable s'.

(** ** The invariant *)

Definition admitted (p : PendingGraph) : Prop :=
  revision p = graph_revision (stored p) /\ admit_runtime (stored p) = Ok (logical p).

(** The runtime serves exactly the committed graph. *)
Definition serves_committed (s : Inner) : Prop :=
  match committed s with
  | Some g => runtime_revision s = graph_revision g /\ admit_runtime g = Ok (runtime_logical s)
  | None => runtime_revision s = 0 /\ runtime_logical s = ResourceConfigSet_default
  end.

(** What the worker knows is current, or a signal is waiting for it. *)
Definition attempt_current (s : Inner) (attempted : option Z) : Prop :=
  attempted = current_target s \/ signal s = true.

Definition worker_ok (s : Inner) : Prop :=
  match worker s with
  | WIdle => signal s = true \/ forall t, target s = Some t -> lifecycle s = Running -> revision t <= runtime_revision s
  | WStarting a _ => attempt_current s a
  | WAttempt a p _ => admitted p /\ attempt_current s a /\ (target s = Some p \/
                        (generation p < latest_generation s /\ signal s = true))
  | WBackoff g _ | WParked g => attempt_current s (Some g)
  | WNone => worker_tx s = false
  end.

Record inv (s : Inner) : Prop := {
  inv_serves : serves_committed s;
  inv_target t : target s = Some t -> admitted t /\ generation t = latest_generation s;
  inv_cancelled g : g ∈ cancelled s -> g <= latest_generation s;
  inv_running : lifecycle s = Running ->
    active_cancellation s = current_target s /\ (latest_generation s ∉ cancelled s) /\
    (worker_tx s = false -> target s = None /\ worker s = WNone);
  inv_stopped : lifecycle s = Stopped ->
    worker_tx s = false /\ forall t, target s = Some t -> latest_generation s ∈ cancelled s;
  inv_worker : worker_ok s;
}.

Lemma inv_new : inv Inner_new.
Proof. by split. Qed.

(** Fields a submission and the worker leave alone. *)
Lemma submit_running g set s :
  lifecycle s = Running ->
  submit g set s = (Ok (),
    let gen := latest_generation s + 1 in
    {| committed := committed s;
       target := Some {| generation := gen; revision := graph_revision g; stored := g; logical := set |};
       latest_generation := gen; worker_tx := true; signal := true;
       worker := if worker_tx s then worker s else WIdle;
       active_cancellation := Some gen; cancelled := cancel (active_cancellation s) (cancelled s);
       lifecycle := Running;
       registry := supersede_pending_except (graph_revision g) (pending (graph_revision g) (registry s));
       pending_gauge := graph_revision g; runtime_revision := runtime_revision s;
       runtime_logical := runtime_logical s; status := status s |}).
Proof.
  intros Hl. unfold submit, ensure_worker_started. rewrite bool_decide_false by (by intros []).
  destruct s as [? ? ? tx ? ? ? ? l ? ? ? ? ?]; simpl in *. subst l. by destruct tx.
Qed.

Lemma submit_stopped g set s :
  lifecycle s = Stopped -> submit g set s = (Err WorkerStopped, s).
Proof.
  intros Hl. unfold submit, ensure_worker_started. by rewrite bool_decide_true by (rewrite Hl; done).
Qed.

Lemma submit_inv g set s : inv s -> admit_runtime g = Ok set -> inv (submit g set s).2.
Proof.
  intros Hi Ha. destruct (lifecycle s) eqn:Hl.
  2:{ by rewrite submit_stopped. }
  rewrite submit_running by done. destruct Hi as [Hsv Ht Hc Hr Hst Hw]. destruct (Hr Hl) as (Hac & Hnc & Htx). simpl.
  split; simpl; try done.
  - by intros t [= <-].
  - intros x. unfold cancel. destruct (active_cancellation s) as [g0|] eqn:Hg0.
    + intros [->%elem_of_singleton|Hx]%elem_of_union; [|specialize (Hc _ Hx); lia].
      unfold current_target in Hac. destruct (target s) as [t|] eqn:Htt; simpl in Hac; [|done].
      injection Hac as ->. destruct (Ht t eq_refl). lia.
    + intros Hx. specialize (Hc _ Hx). lia.
  - intros _. split_and!; [done| |done]. unfold cancel. destruct (active_cancellation s) as [g0|] eqn:Hg0.
    + rewrite not_elem_of_union, not_elem_of_singleton. split; [|intros Hx; specialize (Hc _ Hx); lia].
      unfold current_target in Hac. destruct (target s) as [t|] eqn:Htt; simpl in Hac; [|done].
      injection Hac as ->. destruct (Ht t eq_refl). lia.
    + intros Hx. specialize (Hc _ Hx). lia.
  - unfold worker_ok, attempt_current in *. simpl. destruct (worker_tx s); [|by left].
    destruct (worker s); try (by left); try (by right); [|congruence].
    destruct Hw as (? & _ & Hp). split_and!; [done|by right|]. right. split; [|done].
    destruct Hp as [Hp|[Hp _]]; [destruct (Ht _ Hp)|]; lia.
Qed.
Lemma lift_result_snd {A} (r : Result A GraphError * Inner) : (lift_result r).2 = r.2.
Proof. done. Qed.

Lemma replace_all_inv g s : inv s -> inv (replace_all g s).2.
Proof. intros Hi. unfold replace_all. destruct (admit_runtime g) eqn:Ha; [by apply submit_inv|done]. Qed.

Lemma apply_watch_inv b s : inv s -> inv (apply_watch b s).2.
Proof.
  intros Hi. unfold apply_watch. destruct (changes b); [done|]. destruct (_ <? _); [done|].
  destruct (apply_watch_batch _ _) as [g|]; [|done].
  destruct (admit_runtime g) eqn:Ha; [by apply submit_inv|done].
Qed.

Lemma shutdown_inv s : inv s -> inv (shutdown s).
Proof.
  intros [Hsv Ht Hc Hr Hst Hw]. unfold shutdown. case_bool_decide as Hl; [done|].
  assert (lifecycle s = Running) as Hrun by (by destruct (lifecycle s)). destruct (Hr Hrun) as (Hac & Hnc & Htx).
  split; simpl; try done.
  - intros x. rewrite Hac. unfold cancel, current_target. destruct (target s) as [t|]; simpl; [|apply Hc].
    intros [->%elem_of_singleton|Hx]%elem_of_union; [|by apply Hc]. destruct (Ht t eq_refl). lia.
  - intros _. split; [done|]. intros t Htt. rewrite Hac. unfold cancel, current_target. rewrite Htt. simpl.
    destruct (Ht t Htt) as [_ ->]. set_solver.
  - unfold worker_ok, attempt_current in *. simpl. destruct (worker s); try done.
    destruct Hw as [Hw|Hw]; [by left|by right].
Qed.

(** Registry, gauge and status play no part in the invariant. *)
Lemma inv_ext s s' :
  inv s -> committed s' = committed s -> target s' = target s -> latest_generation s' = latest_generation s ->
  worker_tx s' = worker_tx s -> signal s' = signal s -> active_cancellation s' = active_cancellation s ->
  cancelled s' = cancelled s -> lifecycle s' = lifecycle s -> runtime_revision s' = runtime_revision s ->
  runtime_logical s' = runtime_logical s -> (worker s' = worker s \/ (worker s <> WNone /\ worker_ok s')) -> inv s'.
Proof.
  intros [Hsv Ht Hc Hr Hst Hw] E1 E2 E3 E4 E5 E6 E7 E8 E9 E10 E11.
  split; unfold serves_committed, current_target in *; rewrite ?E1, ?E2, ?E3, ?E4, ?E6, ?E7, ?E8, ?E9, ?E10; try done.
  { intros Hl. destruct (Hr Hl) as (? & ? & Hn). split_and!; [done..|]. intros Hf. destruct (Hn Hf) as [? Hnone].
    destruct E11 as [->|[E11 _]]; done. }
  destruct E11 as [E11|[_ E11]]; [|done].
  unfold worker_ok, attempt_current, current_target in *. rewrite E11, ?E2, ?E3, ?E4, ?E5, ?E8, ?E9. done.
Qed.

Lemma reject_fields gen e s :
  let s' := reject_publication gen e s in
  committed s' = committed s /\ target s' = target s /\ latest_generation s' = latest_generation s /\
  worker_tx s' = worker_tx s /\ signal s' = signal s /\ active_cancellation s' = active_cancellation s /\
  cancelled s' = cancelled s /\ lifecycle s' = lifecycle s /\ runtime_revision s' = runtime_revision s /\
  runtime_logical s' = runtime_logical s /\ worker s' = worker s.
Proof. unfold reject_publication. destruct (target s) as [t|] eqn:E; [case_bool_decide|]; simpl; by rewrite ?E. Qed.

(** Settling is right when nothing is left to do or a signal is waiting. *)
Lemma settled_inv s :
  inv s -> worker s <> WNone -> (signal s = true \/ forall t, target s = Some t -> lifecycle s = Running -> revision t <= runtime_revision s) ->
  inv (s <| worker := WIdle |>).
Proof. intros Hi Hn Hw. eapply inv_ext; [exact Hi|done..|]. by right. Qed.

Lemma reject_inv gen e s attempted :
  inv s -> attempt_current s attempted ->
  inv (reject_publication gen e s) /\ attempt_current (reject_publication gen e s) attempted.
Proof.
  intros Hi Ha. destruct (reject_fields gen e s) as (?&E2&?&?&E5&?&?&?&?&?&?). split.
  - eapply inv_ext; [exact Hi|done..|by left].
  - unfold attempt_current, current_target in *. by rewrite E2, E5.
Qed.

Lemma stop_attempt_inv s attempted err (w : Z -> Worker) :
  inv s -> worker s <> WNone -> attempt_current s attempted -> (forall gen, w gen = WParked gen \/ exists d, w gen = WBackoff gen d) ->
  inv (match attempted with
       | None => s <| status := err |> <| worker := WIdle |>
       | Some gen => s <| status := err |> <| worker := w gen |>
       end).
Proof.
  intros Hi Hn Ha Hw. destruct attempted as [gen|].
  - eapply inv_ext; [exact Hi|done..|right]. split; [done|]. unfold worker_ok, attempt_current in *; simpl.
    destruct (Hw gen) as [->|[d ->]]; exact Ha.
  - eapply inv_ext; [exact Hi|done..|right]. split; [done|]. unfold worker_ok; simpl.
    destruct Ha as [Ha|Ha]; [|by left]. right. intros t Htt. unfold current_target in Ha. by rewrite Htt in Ha.
Qed.

Lemma failed_inv attempted delay outcome s :
  inv s -> worker s <> WNone -> attempt_current s attempted -> outcome <> Settled -> inv (handle_outcome attempted delay outcome s).
Proof.
  intros Hi Hn Ha Ho. destruct outcome as [|e|e]; [done|..]; cbn [handle_outcome].
  - destruct attempted as [gen|]; [|by apply (stop_attempt_inv s None _ WParked); auto].
    cbn [latest_generation]. destruct (bool_decide _).
    + apply (stop_attempt_inv s (Some gen) _ (fun g => WBackoff g delay)); eauto.
    + eapply inv_ext; [exact Hi|done..|right]. split; [done|by left].
  - destruct attempted as [gen|]; [|by apply (stop_attempt_inv s None _ WParked); auto].
    destruct (reject_inv gen (safe_preparation_error true) s (Some gen) Hi Ha) as [Hi1 Ha1].
    apply (stop_attempt_inv _ (Some gen) _ WParked); auto.
    by destruct (reject_fields gen (safe_preparation_error true) s) as (?&?&?&?&?&?&?&?&?&?&->).
Qed.

(** The publication, or one of the two ways to drop the attempt. *)
Lemma finish_cases now p s :
  finish_publish now p s = (Settled, s) /\
    (generation p ∈ cancelled s \/ generation p <> latest_generation s \/ revision p < runtime_revision s) \/
  (generation p ∉ cancelled s) /\ generation p = latest_generation s /\ runtime_revision s <= revision p /\
  exists s', finish_publish now p s = (Settled, s') /\
    committed s' = Some (stored p) /\ runtime_revision s' = revision p /\ runtime_logical s' = logical p /\
    target s' = target s /\ latest_generation s' = latest_generation s /\ worker_tx s' = worker_tx s /\
    signal s' = signal s /\ active_cancellation s' = active_cancellation s /\ cancelled s' = cancelled s /\
    lifecycle s' = lifecycle s /\ worker s' = worker s.
Proof.
  unfold finish_publish, is_cancelled. destruct (bool_decide (generation p ∈ cancelled s)) eqn:E1; bool_to_prop; simpl.
  { left. split; [done|by left]. }
  destruct (bool_decide (latest_generation s = generation p)) eqn:E2; bool_to_prop; simpl.
  2:{ left. split; [done|]. right. left. congruence. }
  destruct (revision p <? runtime_revision s) eqn:E3; [apply Z.ltb_lt in E3|apply Z.ltb_ge in E3].
  { left. split; [done|]. by do 2 right. }
  right. split_and!; [done..|]. eexists. split; [done|]. done.
Qed.

Lemma compiled_inv now attempted p delay s :
  inv s -> worker s = WAttempt attempted p delay -> exists s2,
  finish_publish now p s = (Settled, s2) /\ inv s2 /\ worker s2 <> WNone /\
  (signal s2 = true \/ forall t, target s2 = Some t -> lifecycle s2 = Running -> revision t <= runtime_revision s2).
Proof.
  intros Hi Hwk. pose proof Hi as [Hsv Ht Hc Hr Hst Hw]. unfold worker_ok in Hw. rewrite Hwk in Hw.
  destruct Hw as ([Hrev Hadm] & Ha & Hp).
  destruct (finish_cases now p s) as [[-> Hdrop]|(Hnc & Hgen & Hle & s' & -> & E1 & E2 & E3 & E4 & E5 & E6 & E7 & E8 & E9 & E10 & E11)].
  - exists s. split_and!; [done..|congruence|].
    destruct Hp as [Hp|[_ Hp]]; [|by left]. right. intros t Htt Hl. assert (t = p) as -> by congruence.
    destruct Hdrop as [Hx|[Hx|Hx]]; [|destruct (Ht p Hp); lia|lia].
    destruct (Hr Hl) as (_ & Hn & _). destruct (Ht p Hp) as [_ Hg]. rewrite Hg in Hx. done.
  - destruct Hp as [Hp|[Hlt _]]; [|lia]. exists s'. split_and!; [done| |congruence|].
    + split; unfold serves_committed, current_target in *;
        rewrite ?E1, ?E2, ?E3, ?E4, ?E5, ?E6, ?E8, ?E9, ?E10, ?E11; try done.
      unfold worker_ok, attempt_current, current_target in *. rewrite E11, Hwk, E4, E5, E7. split_and!; [done..|by left].
    + right. intros t Htt _. assert (t = p) as -> by congruence. lia.
Qed.

Lemma cancelled_settled s g :
  inv s -> attempt_current s (Some g) -> is_cancelled s g = true ->
  signal s = true \/ forall t, target s = Some t -> lifecycle s = Running -> revision t <= runtime_revision s.
Proof.
  intros Hi [Ha|Ha] Hc; [|by left]. right. intros t Ht Hl. unfold is_cancelled in Hc. bool_to_prop.
  unfold current_target in Ha. rewrite Ht in Ha. injection Ha as ->.
  destruct (inv_running _ Hi Hl) as (_ & Hn & _). destruct (inv_target _ Hi _ Ht) as [_ Hg]. by rewrite Hg in Hc.
Qed.

Lemma step_inv s ev s' : inv s -> step s ev = Some s' -> inv s'.
Proof.
  intros Hi Hs. pose proof (inv_worker _ Hi) as Hw. unfold worker_ok in Hw.
  destruct ev; cbn [step] in Hs;
    try (destruct (worker s) as [|a d|a p d|g d|g|] eqn:E; cbn [step] in Hs; try done;
         assert (worker s <> WNone) as Hnn by congruence).
  - apply (inj Some) in Hs as <-. by apply replace_all_inv.
  - apply (inj Some) in Hs as <-. by apply apply_watch_inv.
  - apply (inj Some) in Hs as <-. eapply inv_ext; [exact Hi|done..|by left].
  - apply (inj Some) in Hs as <-. by apply shutdown_inv.
  - destruct (signal s) eqn:Hsig.
    + apply (inj Some) in Hs as <-. destruct Hi as [Hsv Ht Hc Hr Hst _]. split; try done; [|by left].
      intros Hl. destruct (Hr Hl) as (? & ? & Htx). split_and!; [done..|]. intros Hf. destruct (Htx Hf). congruence.
    + destruct (worker_tx s) eqn:Htx; [done|]. apply (inj Some) in Hs as <-.
      destruct Hi as [Hsv Ht Hc Hr Hst _]. split; try done; simpl.
      intros Hl. destruct (Hr Hl) as (? & ? & Hn). destruct (Hn Htx). congruence.
  - destruct (target s) as [p|] eqn:Htg; apply (inj Some) in Hs as <-.
    + pose proof (inv_target _ Hi _ Htg) as [Hadm Hg]. eapply inv_ext; [exact Hi|done..|right]. split; [congruence|].
      unfold worker_ok; simpl. split; [done|]. split; [exact Hw|by left].
    + apply settled_inv; [done..|]. right. intros t Htt. congruence.
  - apply (inj Some) in Hs as <-. apply failed_inv; [done..|tauto|done].
  - apply (inj Some) in Hs as <-. apply failed_inv; [done..|tauto|done].
  - destruct (is_cancelled s (generation p)) eqn:Hc; [|done]. apply (inj Some) in Hs as <-. apply settled_inv; [done..|].
    destruct Hw as (_ & _ & [Htg|[_ Hsig]]); [|by left]. apply (cancelled_settled s (generation p)); [done| |done].
    left. unfold current_target. by rewrite Htg.
  - apply (inj Some) in Hs as <-. destruct (compiled_inv now a p d s Hi E) as (s2 & -> & Hi2 & Hn2 & Hset). by apply settled_inv.
  - apply (inj Some) in Hs as <-. eapply inv_ext; [exact Hi|done..|right]. split; [done|by left].
  - destruct (is_cancelled s g) eqn:Hc; [|done]. apply (inj Some) in Hs as <-. apply settled_inv; [done..|]. by eapply cancelled_settled.
  - destruct (is_cancelled s g) eqn:Hc; [|done]. apply (inj Some) in Hs as <-. apply settled_inv; [done..|]. by eapply cancelled_settled.
Qed.

Lemma reachable_inv s : reachable s -> inv s.
Proof. induction 1; [apply inv_new | by eapply step_inv]. Qed.

(** ** What one event does to the published state *)

Definition published_state (s : Inner) : Z * ResourceConfigSet * option StoredGraph :=
  (runtime_revision s, runtime_logical s, committed s).

Lemma submit_published g set s : published_state (submit g set s).2 = published_state s.
Proof.
  unfold submit, ensure_worker_started. destruct (bool_decide _); [done|].
  destruct (worker_tx s) eqn:E; simpl; by rewrite ?E.
Qed.

Lemma handle_published a d o s : published_state (handle_outcome a d o s) = published_state s.
Proof.
  destruct o as [|e|e]; [done|..]; cbn [handle_outcome].
  - destruct a; [destruct (bool_decide _)|]; done.
  - destruct a as [gen|]; [|done]. unfold reject_publication.
    destruct (target s); [destruct (bool_decide _)|]; done.
Qed.

(** The publication of the current target by a running authority. *)
Definition publishes (s s' : Inner) : Prop :=
  lifecycle s = Running /\ exists t, target s = Some t /\ runtime_revision s <= revision t /\
    published_state s' = (revision t, logical t, Some (stored t)).

Lemma step_published s ev s' :
  inv s -> step s ev = Some s' -> published_state s' = published_state s \/ publishes s s'.
Proof.
  intros Hi Hs. pose proof (inv_worker _ Hi) as Hw. unfold worker_ok in Hw.
  destruct ev; cbn [step] in Hs;
    try (destruct (worker s) as [|a d|a p d|g d|g|] eqn:E; cbn [step] in Hs; try done;
         assert (worker s <> WNone) as Hnn by congruence).
  - apply (inj Some) in Hs as <-. left. unfold replace_all.
    destruct (admit_runtime g); [apply submit_published|done].
  - apply (inj Some) in Hs as <-. left. unfold apply_watch. destruct (changes batch); [done|].
    destruct (_ <? _); [done|]. destruct (apply_watch_batch _ _); [|done].
    destruct (admit_runtime _); [apply submit_published|done].
  - apply (inj Some) in Hs as <-. left. reflexivity.
  - apply (inj Some) in Hs as <-. left. unfold shutdown. destruct (bool_decide _); reflexivity.
  - left. destruct (signal s); [|destruct (worker_tx s); [done|]]; apply (inj Some) in Hs as <-; reflexivity.
  - left. destruct (target s); apply (inj Some) in Hs as <-; [reflexivity|apply handle_published].
  - apply (inj Some) in Hs as <-. left. apply handle_published.
  - apply (inj Some) in Hs as <-. left. apply handle_published.
  - left. destruct (is_cancelled _ _); [|done]. apply (inj Some) in Hs as <-. apply handle_published.
  - apply (inj Some) in Hs as <-. rewrite handle_published.
    destruct (finish_cases now p s) as [[-> _]|(Hnc & Hgen & Hle & s2 & -> & E1 & E2 & E3 & _)]; [by left|right].
    destruct Hw as (_ & _ & [Htg|[Hlt _]]); [|lia]. split.
    + destruct (lifecycle s) eqn:Hl; [done|]. destruct (inv_stopped _ Hi Hl) as [_ Hc].
      specialize (Hc p Htg). by rewrite <- Hgen in Hc.
    + exists p. split; [done|]. split; [done|]. unfold published_state. simpl. by rewrite E1, E2, E3.
  - left. apply (inj Some) in Hs as <-. reflexivity.
  - left. destruct (is_cancelled _ _); [|done]. apply (inj Some) in Hs as <-. reflexivity.
  - left. destruct (is_cancelled _ _); [|done]. apply (inj Some) in Hs as <-. reflexivity.
Qed.

(** What was admitted decodes and is valid. *)
Lemma admitted_valid g set : admit_runtime g = Ok set -> graph_valid PLUGIN_META set /\ decode_graph g DecryptForRuntime kr = Ok set.
Proof.
  unfold admit_runtime, map_raise. destruct (decode_graph g DecryptForRuntime kr) as [set'|]; [|done].
  cbn [map_err and_then]. unfold validate_runtime_form. destruct (validate_config_set PLUGIN_META set') as [[]|] eqn:Hv; [|done].
  intros [= ->]. split; [by apply validate_config_set_spec|done].
Qed.

(** ** Properties *)

(** C2 (last known good).  In every reachable state the runtime serves exactly
    one committed graph: the empty configuration at revision 0, or a submitted
    graph that decoded with its secrets decrypted and validated, at its own
    revision.  Failed, superseded or cancelled attempts leave it in place. *)
Theorem runtime_serves_committed s :
  reachable s ->
  match committed s with
  | None => runtime_revision s = 0 /\ runtime_logical s = ResourceConfigSet_default
  | Some g => runtime_revision s = graph_revision g /\ graph_valid PLUGIN_META (runtime_logical s) /\
              decode_graph g DecryptForRuntime kr = Ok (runtime_logical s)
  end.
Proof.
  intros Hr%reachable_inv. pose proof (inv_serves _ Hr) as Hs. unfold serves_committed in Hs.
  destruct (committed s) as [g|]; [|done]. destruct Hs as [-> Ha]. split; [done|]. by apply admitted_valid.
Qed.

(** C6 (the generation fence).  One event changes the published state only by
    publishing the latest submitted target of a running authority, never to an
    older revision: a superseded preparation, or one that completes after
    shutdown, publishes nothing. *)
Theorem only_latest_publishes s ev s' :
  reachable s -> step s ev = Some s' -> published_state s' = published_state s \/ publishes s s'.
Proof. intros Hr%reachable_inv. by apply step_published. Qed.

(** C7 (no lost wake-up).  While the authority runs, the latest submission is
    never forgotten: it is published or older than what is published, or the
    worker is working on a target, or a signal is waiting for the worker, or
    the worker rejected this very submission and waits for another. *)
Theorem submission_not_lost s t :
  reachable s -> lifecycle s = Running -> target s = Some t ->
  revision t <= runtime_revision s \/ signal s = true \/ worker s = WParked (generation t) \/
  match worker s with WStarting _ _ | WAttempt _ _ _ | WBackoff _ _ => True | _ => False end.
Proof.
  intros Hr%reachable_inv Hl Ht. pose proof (inv_worker _ Hr) as Hw. unfold worker_ok, attempt_current, current_target in Hw.
  destruct (worker s) as [|a d|a p d|g d|g|]; try (by do 3 right).
  - destruct Hw as [Hw|Hw]; [by right; left|left; by apply Hw].
  - destruct Hw as [Hw|Hw]; [|by right; left]. rewrite Ht in Hw. injection Hw as ->. by do 2 right; left.
  - destruct (inv_running _ Hr Hl) as (_ & _ & Hn). destruct (Hn Hw). congruence.
Qed.

End authority.

(** ** Witnesses *)

Import Secrets.Toy ToySerde.

Definition older_graph : StoredGraph := {| resources := ∅; guard_mod_revision := Some 1; graph_revision := 1 |}.

Definition demo_run (evs : list Event) : Inner := default Inner_new (run_events [] disabled Inner_new evs).

Lemma run_reachable PM k evs s s' :
  reachable PM k s -> run_events PM k s evs = Some s' -> reachable PM k s'.
Proof.
  unfold run_events. revert s; induction evs as [|ev evs IH]; intros s Hr; simpl; [by intros [= <-]|].
  destruct (step PM k s ev) as [s1|] eqn:E.
  - apply IH. by eapply reachable_step.
  - clear. induction evs; simpl; [done|by destruct evs].
Qed.

Definition published_once : Inner := demo_run [EvReplace graph; EvRecv; EvRead; EvCompiled 5].

Lemma published_once_reachable : reachable [] disabled published_once.
Proof.
  apply (run_reachable [] disabled [EvReplace graph; EvRecv; EvRead; EvCompiled 5] Inner_new); [constructor|].
  vm_compute. reflexivity.
Qed.

Lemma runtime_serves_committed_witness :
  committed published_once = Some graph /\ runtime_revision published_once = 2 /\
  decode_graph graph DecryptForRuntime disabled = Ok (runtime_logical published_once).
Proof.
  pose proof (runtime_serves_committed [] disabled published_once published_once_reachable) as Hs.
  assert (committed published_once = Some graph) as E by (vm_compute; reflexivity).
  rewrite E in Hs. destruct Hs as (Hr & _ & Hd). split; [exact E|]. split; [exact Hr|exact Hd].
Defined.

Definition replaced_once : Inner := demo_run [EvReplace graph; EvRecv; EvRead].

Lemma only_latest_publishes_witness :
  published_state published_once = published_state replaced_once \/ publishes replaced_once published_once.
Proof.
  refine (only_latest_publishes [] disabled replaced_once (EvCompiled 5) published_once _ _).
  - apply (run_reachable [] disabled [EvReplace graph; EvRecv; EvRead] Inner_new); [constructor|].
    vm_compute. reflexivity.
  - vm_compute. reflexivity.
Defined.

Lemma submission_not_lost_witness :
  revision (Build_PendingGraph 1 2 graph (runtime_logical published_once)) <= runtime_revision published_once \/
  signal published_once = true \/ worker published_once = WParked 1 \/
  match worker published_once with WStarting _ _ | WAttempt _ _ _ | WBackoff _ _ => True | _ => False end.
Proof.
  refine (submission_not_lost [] disabled published_once _ published_once_reachable _ _); vm_compute; reflexivity.
Defined.

(** A list snapshot at an older revision (a restored etcd) is accepted and
    settles with nothing published, its publication record still pending and no
    error reported. *)
Example older_snapshot_settles_silently :
  let s := demo_run [EvReplace graph; EvRecv; EvRead; EvCompiled 5;
                     EvReplace older_graph; EvRecv; EvRead; EvCompiled 6] in
  worker s = WIdle /\ signal s = false /\ runtime_revision s = 2 /\ last_error (status s) = None /\
  view 1 (registry s) = Some {| view_state := Pending; view_published_revision := Some 2; view_error := None |}.
Proof. vm_compute. repeat split. Qed.
