(* ===== verification/HealthChecks.v ===== *)
(** * Health-check reconciliation ([src/src/proxy/runtime.rs], [src/src/proxy/upstream/health_check.rs])

    The registry of health checks and its generations, the reconciliation that
    publishing a snapshot performs, and the executor that follows the
    registry's events concurrently. *)

From Stdlib Require Import ZArith Lia.
From stdpp Require Import base tactics gmap fin_maps strings option relations sets list.
From S2P Require Import Prelude.

Open Scope Z_scope.

(** ** [HealthCheckRegistry]

    Generations are an [AtomicU64] counted from 1; 2^64 registrations are out
    of reach and the counter does not wrap here.  [sent] holds the events the
    executor has not received; [stopped] the generations whose shutdown channel
    was signalled. *)

Inductive RegistryUpdate : Type :=
| Added (id : string) (registration : Z)
| Removed (id : string) (registration : Z).

Record RegisteredUpstream : Type := { generation : Z; load_balancer : nat }.

Record HealthCheckRegistry : Type := {
  upstreams : gmap string RegisteredUpstream;
  next_generation : Z;
  sent : list RegistryUpdate;
  stopped : gset Z;
}.
#[export] Instance eta_HealthCheckRegistry : Eta HealthCheckRegistry := fun r =>
  Build_HealthCheckRegistry (upstreams r) (next_generation r) (sent r) (stopped r).

Definition registry_new : HealthCheckRegistry :=
  {| upstreams := ∅; next_generation := 1; sent := []; stopped := ∅ |}.

Record DisplacedHealthCheck : Type := { d_id : string; d_registered : RegisteredUpstream }.

Definition register_upstream (i : string) (service : nat) (r : HealthCheckRegistry)
    : (Z * option DisplacedHealthCheck) * HealthCheckRegistry :=
  let registration := next_generation r in
  let r := r <| next_generation := registration + 1 |> in
  let displaced := (fun old => {| d_id := i; d_registered := old |}) <$> upstreams r !! i in
  let r := r <| upstreams := <[i := {| generation := registration; load_balancer := service |}]> (upstreams r) |> in
  let r := r <| sent := sent r ++ [Added i registration] |> in
  ((registration, displaced), r).

Definition stop (gen : Z) (r : HealthCheckRegistry) : HealthCheckRegistry :=
  r <| stopped := {[ gen ]} ∪ stopped r |>.

Definition discard (d : DisplacedHealthCheck) (r : HealthCheckRegistry) : HealthCheckRegistry :=
  let r := stop (generation (d_registered d)) r in
  r <| sent := sent r ++ [Removed (d_id d) (generation (d_registered d))] |>.

Definition unregister_upstream (i : string) (registration : Z) (r : HealthCheckRegistry) : bool * HealthCheckRegistry :=
  if bool_decide (generation <$> upstreams r !! i = Some registration) then
    let r := r <| upstreams := delete i (upstreams r) |> in
    let r := stop registration r in
    (true, r <| sent := sent r ++ [Removed i registration] |>)
  else (false, r).

Definition request_shutdown_all (r : HealthCheckRegistry) : HealthCheckRegistry :=
  r <| stopped := list_to_set ((fun kv => generation kv.2) <$> map_to_list (upstreams r)) ∪ stopped r |>.

(** The (id, generation) pairs a task may run for. *)
Definition is_current (r : HealthCheckRegistry) (i : string) (gen : Z) : bool :=
  bool_decide (generation <$> upstreams r !! i = Some gen).

Definition get_all_upstreams (r : HealthCheckRegistry) : list (string * Z) :=
  (fun kv => (kv.1, generation kv.2)) <$> map_to_list (upstreams r).

(** ** [RuntimeStore::publish] *)

Record HealthCheckSpec : Type := { key : string; fingerprint : Z; service : nat }.

Record ActiveHealthCheckEntry : Type := { e_fingerprint : Z; registration : Z; e_service : nat }.

Abbreviation ActiveHealthCheckSet := (gmap string ActiveHealthCheckEntry).

(** The body of the loop over the desired checks. *)
Definition publish_step (active : ActiveHealthCheckSet)
    (acc : ActiveHealthCheckSet * list DisplacedHealthCheck * HealthCheckRegistry) (spec : HealthCheckSpec)
    : ActiveHealthCheckSet * list DisplacedHealthCheck * HealthCheckRegistry :=
  let '(next_entries, displaced, r) := acc in
  let rebuild :=
    let reg := register_upstream (key spec) (service spec) r in
    (<[key spec := {| e_fingerprint := fingerprint spec; registration := reg.1.1; e_service := service spec |}]> next_entries,
     displaced ++ match reg.1.2 with Some d => [d] | None => [] end, reg.2) in
  match active !! key spec with
  | Some existing =>
    if bool_decide (e_fingerprint existing = fingerprint spec) && bool_decide (e_service existing = service spec)
    then (<[key spec := existing]> next_entries, displaced, r)
    else rebuild
  | None => rebuild
  end.

(** The keys of the active set that have no successor. *)
Definition removed_checks (active next_entries : ActiveHealthCheckSet) : list (string * Z) :=
  omap (fun kv : string * ActiveHealthCheckEntry =>
    match next_entries !! kv.1 with Some _ => None | None => Some (kv.1, registration kv.2) end) (map_to_list active).

(** [publish]: register, (store the snapshot), discard the displaced checks,
    unregister the removed ones. *)
Definition publish (desired : list HealthCheckSpec) (active : ActiveHealthCheckSet) (r : HealthCheckRegistry)
    : ActiveHealthCheckSet * HealthCheckRegistry :=
  let '(next_entries, displaced, r) := fold_left (publish_step active) desired (∅, [], r) in
  let r := fold_left (fun r d => discard d r) displaced r in
  let r := fold_left (fun r (kr : string * Z) => (unregister_upstream kr.1 kr.2 r).2) (removed_checks active next_entries) r in
  (next_entries, r).

(** ** The executor *)

Abbreviation Tasks := (gset (string * Z)).

Definition start_task (r : HealthCheckRegistry) (i : string) (gen : Z) (running : Tasks) : Tasks :=
  if bool_decide ((i, gen) ∈ running) then running
  else if is_current r i gen then {[ (i, gen) ]} ∪ running else running.

Definition process_update (r : HealthCheckRegistry) (u : RegistryUpdate) (running : Tasks) : Tasks :=
  match u with
  | Added i gen => start_task r i gen running
  | Removed i gen => running ∖ {[ (i, gen) ]}
  end.

Definition start_all (r : HealthCheckRegistry) (running : Tasks) : Tasks :=
  fold_left (fun running ig => start_task r ig.1 ig.2 running) (get_all_upstreams r) running.

Definition resync_tasks (r : HealthCheckRegistry) (running : Tasks) : Tasks :=
  let current : Tasks := list_to_set (get_all_upstreams r) in
  start_all r (filter (fun ig => ig ∈ current) running).

(** [finished] are the tasks whose handle reports completion. *)
Definition restart_finished_tasks (r : HealthCheckRegistry) (finished : list (string * Z)) (running : Tasks) : Tasks :=
  fold_left (fun running ig =>
    let running := running ∖ {[ ig ]} in
    if is_current r ig.1 ig.2 then start_task r ig.1 ig.2 running else running) finished running.

(** ** Reconciliation *)

Definition entry_of (e : ActiveHealthCheckEntry) : RegisteredUpstream :=
  {| generation := registration e; load_balancer := e_service e |}.

(** The registry runs exactly the active checks, each under its own generation,
    none of them told to stop. *)
Record synced (active : ActiveHealthCheckSet) (r : HealthCheckRegistry) : Prop := {
  synced_upstreams k : upstreams r !! k = entry_of <$> active !! k;
  synced_live k e : active !! k = Some e -> registration e < next_generation r /\ registration e ∉ stopped r;
  synced_inj k k' e e' : active !! k = Some e -> active !! k' = Some e' -> registration e = registration e' -> k = k';
  synced_stopped g : g ∈ stopped r -> g < next_generation r;
}.

Lemma synced_empty : synced ∅ registry_new.
Proof. split; try (intros; by rewrite ?lookup_empty in *). Qed.

Definition unchanged (spec : HealthCheckSpec) (e : ActiveHealthCheckEntry) : Prop :=
  e_fingerprint e = fingerprint spec /\ e_service e = service spec.

Section publish.
Context (active : ActiveHealthCheckSet) (r : HealthCheckRegistry) (Hsync : synced active r).

Record loop_inv (P : list HealthCheckSpec) (next : ActiveHealthCheckSet) (disp : list DisplacedHealthCheck)
    (r1 : HealthCheckRegistry) : Prop := {
  li_dom k : is_Some (next !! k) <-> k ∈ key <$> P;
  li_spec spec : spec ∈ P -> exists e, next !! key spec = Some e /\ unchanged spec e /\
    (active !! key spec = Some e \/ next_generation r <= registration e) /\
    (forall e0, active !! key spec = Some e0 -> unchanged spec e0 -> e = e0);
  li_upstreams k : upstreams r1 !! k = match next !! k with Some e => Some (entry_of e) | None => upstreams r !! k end;
  li_disp d : d ∈ disp <-> exists k e, active !! k = Some e /\ d = {| d_id := k; d_registered := entry_of e |} /\
    k ∈ key <$> P /\ next !! k <> Some e;
  li_gen : next_generation r <= next_generation r1;
  li_bound k e : next !! k = Some e -> registration e < next_generation r1;
  li_old k e : next !! k = Some e -> active !! k = Some e \/ next_generation r <= registration e;
  li_inj k k' e e' : next !! k = Some e -> next !! k' = Some e' -> registration e = registration e' -> k = k';
  li_stopped : stopped r1 = stopped r;
}.

Lemma loop_inv_nil : loop_inv [] ∅ [] r.
Proof.
  split; try done; try (intros; by rewrite ?lookup_empty in *).
  - intros k. rewrite lookup_empty. split; [by intros []|by intros ?%not_elem_of_nil].
  - by intros spec ?%not_elem_of_nil.
  - intros d. split; [by intros ?%not_elem_of_nil|]. by intros (k & e & _ & _ & ?%not_elem_of_nil & _).
Qed.

Lemma elem_key_snoc P spec k : k ∈ key <$> (P ++ [spec])%list <-> k ∈ key <$> P \/ k = key spec.
Proof. rewrite fmap_app, elem_of_app. simpl. by rewrite list_elem_of_singleton. Qed.

Lemma loop_kept P next disp r1 spec e :
  loop_inv P next disp r1 -> key spec ∉ key <$> P -> active !! key spec = Some e -> unchanged spec e ->
  loop_inv (P ++ [spec]) (<[key spec := e]> next) disp r1.
Proof.
  intros [Hd Hs Hu Hdi Hg Hb Ho Hi Hst] Hnew Ha Hun.
  pose proof (synced_live _ _ Hsync _ _ Ha) as [Hlt _].
  split; try done.
  - intros k. rewrite elem_key_snoc, <- Hd. destruct (decide (key spec = k)) as [<-|Hne].
    + rewrite lookup_insert_eq. split; [by right|by eexists].
    + rewrite lookup_insert_ne by done. split; [by left|]. by intros [?|?].
  - intros sp [Hsp| ->%list_elem_of_singleton]%elem_of_app.
    + rewrite lookup_insert_ne; [by apply Hs|]. intros E. apply Hnew. rewrite E. by apply list_elem_of_fmap_2.
    + exists e. rewrite lookup_insert_eq. split_and!; [done..|by left|]. intros e0 He0 _. congruence.
  - intros k. destruct (decide (key spec = k)) as [<-|Hne]; [|by rewrite lookup_insert_ne by done].
    rewrite lookup_insert_eq, Hu. destruct (next !! key spec) eqn:E.
    + exfalso. apply Hnew, Hd. by rewrite E.
    + by rewrite (synced_upstreams _ _ Hsync), Ha.
  - intros d. rewrite Hdi. split; intros (k & e' & Hk & -> & Hin & Hne); exists k, e'; split_and!; try done.
    + by apply elem_key_snoc; left.
    + rewrite lookup_insert_ne; [done|]. intros <-. done.
    + apply elem_key_snoc in Hin as [?| ->]; [done|]. exfalso. apply Hne. rewrite lookup_insert_eq. congruence.
    + intros Hn. apply Hne. rewrite lookup_insert_ne; [done|]. intros <-. apply Hnew, Hd. by rewrite Hn.
  - intros k e' [[<- <-]|[_ Hk]]%lookup_insert_Some; [lia|by eapply Hb].
  - intros k e' [[<- <-]|[_ Hk]]%lookup_insert_Some; [by left|by apply Ho].
  - intros k k' e1 e2 [[<- <-]|[Hn1 Hk]]%lookup_insert_Some [[<- <-]|[Hn2 Hk']]%lookup_insert_Some Heq; try done.
    + destruct (Ho _ _ Hk') as [Hk2|Hk2]; [by eapply (synced_inj _ _ Hsync)|lia].
    + destruct (Ho _ _ Hk) as [Hk2|Hk2]; [by eapply (synced_inj _ _ Hsync)|lia].
    + by eapply Hi.
Qed.

Lemma loop_rebuilt P next disp r1 spec :
  loop_inv P next disp r1 -> key spec ∉ key <$> P ->
  (forall e, active !! key spec = Some e -> ~ unchanged spec e) ->
  let reg := register_upstream (key spec) (service spec) r1 in
  loop_inv (P ++ [spec])
    (<[key spec := {| e_fingerprint := fingerprint spec; registration := reg.1.1; e_service := service spec |}]> next)
    (disp ++ match reg.1.2 with Some d => [d] | None => [] end) reg.2.
Proof.
  intros [Hd Hs Hu Hdi Hg Hb Ho Hi Hst] Hnew Hch. simpl.
  set (e := {| e_fingerprint := _; registration := _; e_service := _ |}).
  assert (next !! key spec = None) as Hnone.
  { destruct (next !! key spec) eqn:E; [|done]. exfalso. apply Hnew, Hd. by rewrite E. }
  assert (upstreams r1 !! key spec = entry_of <$> active !! key spec) as Hold.
  { by rewrite Hu, Hnone, (synced_upstreams _ _ Hsync). }
  split; simpl; try done.
  - intros k. rewrite elem_key_snoc, <- Hd. destruct (decide (key spec = k)) as [<-|Hne].
    + rewrite lookup_insert_eq. split; [by right|by eexists].
    + rewrite lookup_insert_ne by done. split; [by left|]. by intros [?|?].
  - intros sp [Hsp| ->%list_elem_of_singleton]%elem_of_app.
    + rewrite lookup_insert_ne; [by apply Hs|]. intros E. apply Hnew. rewrite E. by apply list_elem_of_fmap_2.
    + exists e. rewrite lookup_insert_eq. split_and!; [done..|by right|]. intros e0 He0 Hun. by destruct (Hch _ He0).
  - intros k. destruct (decide (key spec = k)) as [<-|Hne]; [by rewrite !lookup_insert_eq|].
    by rewrite !lookup_insert_ne by done.
  - intros d. rewrite elem_of_app, Hdi, Hold. split.
    + intros [(k & e' & Hk & -> & Hin & Hne)|Hin].
      * exists k, e'. split_and!; [done..|by apply elem_key_snoc; left|].
        rewrite lookup_insert_ne; [done|]. intros <-. done.
      * destruct (active !! key spec) as [e'|] eqn:Ha; simpl in Hin; [|by apply not_elem_of_nil in Hin].
        apply list_elem_of_singleton in Hin as ->. exists (key spec), e'. split_and!; [done..| |].
        -- apply elem_key_snoc. by right.
        -- rewrite lookup_insert_eq. intros [= <-]. destruct (synced_live _ _ Hsync _ _ Ha). simpl in *. lia.
    + intros (k & e' & Hk & -> & Hin & Hne). apply elem_key_snoc in Hin as [Hin| ->].
      * left. exists k, e'. split_and!; try done. intros Hn. apply Hne. rewrite lookup_insert_ne; [done|].
        intros <-. congruence.
      * right. rewrite Hk. simpl. by apply list_elem_of_singleton.
  - lia.
  - intros k e' [[<- <-]|[_ Hk]]%lookup_insert_Some; [simpl; lia|]. specialize (Hb _ _ Hk). lia.
  - intros k e' [[<- <-]|[_ Hk]]%lookup_insert_Some; [right; simpl; lia|by apply Ho].
  - intros k k' e1 e2 [[<- <-]|[Hn1 Hk]]%lookup_insert_Some [[<- <-]|[Hn2 Hk']]%lookup_insert_Some Heq; try done.
    + specialize (Hb _ _ Hk'). simpl in Heq. lia.
    + specialize (Hb _ _ Hk). simpl in Heq. lia.
    + by eapply Hi.
Qed.

Lemma loop_all P : NoDup (key <$> P) ->
  let res := fold_left (publish_step active) P (∅, [], r) in loop_inv P res.1.1 res.1.2 res.2.
Proof.
  induction P as [|spec P IH] using rev_ind; intros Hnd; [apply loop_inv_nil|].
  rewrite fmap_app in Hnd. apply NoDup_app in Hnd as (Hnd & Hdisj & _).
  specialize (IH Hnd). rewrite fold_left_app. cbn [fold_left].
  destruct (fold_left (publish_step active) P (∅, [], r)) as [[next disp] r1] eqn:E. cbn [fst snd] in IH.
  assert (key spec ∉ key <$> P) as Hnew. { intros Hin. apply (Hdisj _ Hin). by left. }
  unfold publish_step. destruct (active !! key spec) as [e|] eqn:Ha.
  - destruct (bool_decide (e_fingerprint e = fingerprint spec)) eqn:E1; bool_to_prop; simpl;
      [destruct (bool_decide (e_service e = service spec)) eqn:E2; bool_to_prop|].
    + by apply loop_kept.
    + apply loop_rebuilt; [done..|]. intros e0 He0 [_ ?]. congruence.
    + apply loop_rebuilt; [done..|]. intros e0 He0 [? _]. congruence.
  - apply loop_rebuilt; [done..|]. congruence.
Qed.

End publish.

Lemma discards_ok ds r :
  let r' := fold_left (fun r d => discard d r) ds r in
  upstreams r' = upstreams r /\ next_generation r' = next_generation r /\
  forall g, g ∈ stopped r' <-> g ∈ stopped r \/ exists d, d ∈ ds /\ generation (d_registered d) = g.
Proof.
  revert r; induction ds as [|d ds IH]; intros r; simpl.
  { split_and!; try done. intros g. split; [by left|]. intros [?|(d & ?%not_elem_of_nil & _)]; done. }
  destruct (IH (discard d r)) as (-> & -> & Hs). split_and!; try done. intros g. rewrite Hs. simpl.
  rewrite elem_of_union, elem_of_singleton. setoid_rewrite elem_of_cons. split.
  - intros [[->|?]|(d' & ? & ?)]; [right; exists d; auto|by left|right; eauto].
  - intros [?|(d' & [->|?] & <-)]; [by left; right|by left; left|right; eauto].
Qed.

Lemma unregisters_ok l r :
  NoDup l.*1 -> (forall k g, (k, g) ∈ l -> generation <$> upstreams r !! k = Some g) ->
  let r' := fold_left (fun r (kr : string * Z) => (unregister_upstream kr.1 kr.2 r).2) l r in
  (forall k, upstreams r' !! k = if decide (k ∈ l.*1) then None else upstreams r !! k) /\
  next_generation r' = next_generation r /\
  forall g, g ∈ stopped r' <-> g ∈ stopped r \/ g ∈ l.*2.
Proof.
  revert r; induction l as [|[k0 g0] l IH]; intros r Hnd Hl.
  { simpl. split_and!; [intros k| |intros g].
    - done.
    - done.
    - split; [by left|]. by intros [?|?%not_elem_of_nil]. }
  change (NoDup (k0 :: l.*1)) in Hnd. apply NoDup_cons in Hnd as [Hni Hnd].
  pose proof (Hl k0 g0 (list_elem_of_here _ _)) as H0. simpl.
  unfold unregister_upstream at 2 4 6. rewrite !bool_decide_true by done. cbn [snd].
  match goal with |- context [fold_left _ l ?r1] => set (r1' := r1) end.
  destruct (IH r1' Hnd) as (Hu & -> & Hs).
  { intros k g Hk. unfold r1'; simpl. rewrite lookup_delete_ne; [by apply Hl; right|].
    intros <-. apply Hni. apply list_elem_of_fmap. by exists (k0, g). }
  split_and!; [|done|].
  - intros k. rewrite Hu. unfold r1'; simpl. destruct (decide (k = k0)) as [->|Hne].
    + rewrite lookup_delete_eq. repeat case_decide; try done;
        match goal with Hn : ~ (k0 ∈ _ :: _) |- _ => by destruct Hn; left end.
    + rewrite lookup_delete_ne by done.
      case_decide as Hk; case_decide as Hk'; try done.
      * destruct Hk'. by right.
      * change (k ∈ k0 :: l.*1) in Hk'. by apply elem_of_cons in Hk' as [?|?].
  - intros g. rewrite Hs. unfold r1'; simpl. rewrite elem_of_union, elem_of_singleton, elem_of_cons. tauto.
Qed.

(** What publishing removes: the active keys without a successor, once each. *)
Lemma removed_checks_ok active next_entries :
  NoDup (removed_checks active next_entries).*1 /\
  forall k g, (k, g) ∈ removed_checks active next_entries <->
    exists e, active !! k = Some e /\ next_entries !! k = None /\ registration e = g.
Proof.
  unfold removed_checks. split.
  - pose proof (NoDup_fst_map_to_list active) as Hm.
    induction (map_to_list active) as [|[k e] l IH]; simpl; [constructor|].
    change (NoDup (k :: l.*1)) in Hm. apply NoDup_cons in Hm as [Hk Hm]. destruct (next_entries !! k); [by apply IH|].
    simpl. apply NoDup_cons. split; [|by apply IH].
    intros ([k' g] & Hkk & Hin)%list_elem_of_fmap. simpl in Hkk. subst k'.
    apply list_elem_of_omap in Hin as ([k' e'] & Hin & Hx). simpl in Hx. destruct (next_entries !! k'); [done|].
    injection Hx as -> _. apply Hk, list_elem_of_fmap. by exists (k, e').
  - intros k g. rewrite list_elem_of_omap. split.
    + intros ([k' e] & Hk%elem_of_map_to_list & Hn). simpl in Hn. destruct (next_entries !! k') eqn:En; [done|].
      injection Hn as -> <-. eauto.
    + intros (e & Hk & Hn & <-). exists (k, e). rewrite elem_of_map_to_list. simpl. by rewrite Hn.
Qed.

Lemma publish_ok desired active r :
  synced active r -> NoDup (key <$> desired) ->
  let res := publish desired active r in
  synced res.1 res.2 /\
  (forall k, is_Some (res.1 !! k) <-> k ∈ key <$> desired) /\
  (forall spec, spec ∈ desired -> exists e, res.1 !! key spec = Some e /\ unchanged spec e /\
     forall e0, active !! key spec = Some e0 -> unchanged spec e0 -> e = e0) /\
  (forall g, g ∈ stopped res.2 <->
     g ∈ stopped r \/ exists k e, active !! k = Some e /\ registration e = g /\ res.1 !! k <> Some e).
Proof.
  intros Hsync Hnd. unfold publish. pose proof (loop_all active r Hsync desired Hnd) as Hli.
  destruct (fold_left (publish_step active) desired (∅, [], r)) as [[next disp] r1] eqn:E.
  cbn [fst snd] in Hli. destruct Hli as [Hd Hs Hu Hdi Hg Hb Ho Hi Hst].
  set (r2 := fold_left (fun r d => discard d r) disp r1).
  destruct (discards_ok disp r1) as (Hu2 & Hn2 & Hs2). fold r2 in Hu2, Hn2, Hs2.
  set (rem := removed_checks active next).
  destruct (removed_checks_ok active next) as [Hndr Hrem]. fold rem in Hndr, Hrem.
  destruct (unregisters_ok rem r2 Hndr) as (Hu3 & Hn3 & Hs3).
  { intros k g (e & Hk & Hn & <-)%Hrem. rewrite Hu2, Hu, Hn, (synced_upstreams _ _ Hsync), Hk. done. }
  set (r3 := fold_left _ rem r2) in Hu3, Hn3, Hs3 |- *. cbn [fst snd].
  assert (forall g, g ∈ stopped r3 <->
    g ∈ stopped r \/ exists k e, active !! k = Some e /\ registration e = g /\ next !! k <> Some e) as Hstop.
  { intros g. rewrite Hs3, Hs2, Hst. split.
    - intros [[?|(d & Hdd & <-)]|([k' g'] & -> & (e & Hk & Hn & <-)%Hrem)%list_elem_of_fmap]; [by left| |].
      + apply Hdi in Hdd as (k & e & Hk & -> & _ & Hne). right. by exists k, e.
      + right. exists k', e. split_and!; [done..|]. by rewrite Hn.
    - intros [?|(k & e & Hk & <- & Hne)]; [by left; left|]. destruct (next !! k) as [e'|] eqn:Hn.
      + left. right. exists {| d_id := k; d_registered := entry_of e |}. split; [|done].
        apply Hdi. exists k, e. split_and!; [done..| |by rewrite Hn]. apply Hd. by rewrite Hn.
      + right. apply list_elem_of_fmap. exists (k, registration e). split; [done|]. apply Hrem. eauto. }
  split_and!; [split| | |done].
  - intros k. rewrite Hu3, Hu2, Hu. destruct (next !! k) as [e|] eqn:Hn; simpl.
    + rewrite decide_False; [done|]. intros ([k' g] & -> & (e' & _ & Hn' & _)%Hrem)%list_elem_of_fmap. simpl in Hn. congruence.
    + rewrite (synced_upstreams _ _ Hsync). destruct (active !! k) as [e|] eqn:Ha; simpl.
      * rewrite decide_True; [done|]. apply list_elem_of_fmap. exists (k, registration e). split; [done|]. apply Hrem. eauto.
      * by destruct (decide _).
  - intros k e Hk. rewrite Hn3, Hn2. split; [by eapply Hb|]. rewrite Hstop.
    destruct (Ho _ _ Hk) as [Ha|Hge].
    + intros [Hin|(k' & e' & Ha' & Hreg & Hne)]; [by destruct (synced_live _ _ Hsync _ _ Ha)|].
      assert (k' = k) as -> by (by eapply (synced_inj _ _ Hsync)). congruence.
    + intros [Hin|(k' & e' & Ha' & Hreg & _)].
      * apply (synced_stopped _ _ Hsync) in Hin. lia.
      * destruct (synced_live _ _ Hsync _ _ Ha'). lia.
  - exact Hi.
  - intros g. rewrite Hstop, Hn3, Hn2. intros [Hin|(k & e & Ha & <- & _)].
    + apply (synced_stopped _ _ Hsync) in Hin. lia.
    + destruct (synced_live _ _ Hsync _ _ Ha). lia.
  - exact Hd.
  - intros spec (e & He & Hun & _ & Hk)%Hs. by exists e.
Qed.

(** ** Properties *)

(** C13 (publishing reconciles the health checks).  After publishing, the
    registry runs exactly one live check per desired spec, with the spec's
    fingerprint and service; a check whose fingerprint and service are
    unchanged keeps its registration, and the generations told to stop are
    exactly those of the displaced and the removed checks. *)
Theorem publish_reconciles desired active r :
  synced active r -> NoDup (key <$> desired) ->
  let res := publish desired active r in
  synced res.1 res.2 /\
  (forall k, is_Some (res.1 !! k) <-> k ∈ key <$> desired) /\
  (forall spec, spec ∈ desired -> exists e, res.1 !! key spec = Some e /\ unchanged spec e /\
     forall e0, active !! key spec = Some e0 -> unchanged spec e0 -> e = e0) /\
  (forall g, g ∈ stopped res.2 <->
     g ∈ stopped r \/ exists k e, active !! k = Some e /\ registration e = g /\ res.1 !! k <> Some e).
Proof. apply publish_ok. Qed.

Definition demo_specs : list HealthCheckSpec :=
  [{| key := "upstream/u1"; fingerprint := 1; service := 10%nat |};
   {| key := "upstream/u2"; fingerprint := 2; service := 20%nat |}].
Definition demo_published := publish demo_specs ∅ registry_new.
Definition demo_edited : list HealthCheckSpec :=
  [{| key := "upstream/u1"; fingerprint := 1; service := 10%nat |};
   {| key := "upstream/u2"; fingerprint := 2; service := 21%nat |}].

Lemma publish_reconciles_witness :
  let res := publish demo_edited demo_published.1 demo_published.2 in
  synced res.1 res.2 /\ (2 ∈ stopped res.2 <->
    2 ∈ stopped demo_published.2 \/ exists k e, demo_published.1 !! k = Some e /\ registration e = 2 /\ res.1 !! k <> Some e).
Proof.
  destruct (publish_reconciles demo_specs ∅ registry_new synced_empty) as (Hs & _).
  { apply (bool_decide_unpack _). vm_compute. exact I. }
  destruct (publish_reconciles demo_edited demo_published.1 demo_published.2 Hs) as (Hs2 & _ & _ & Hst).
  { apply (bool_decide_unpack _). vm_compute. exact I. }
  split; [exact Hs2 | exact (Hst 2)].
Defined.

(** ** The executor and the publisher, interleaved *)

Lemma elem_of_get_all r i g : (i, g) ∈ get_all_upstreams r <-> is_current r i g = true.
Proof.
  unfold get_all_upstreams, is_current. rewrite bool_decide_eq_true, list_elem_of_fmap. split.
  - intros ([k v] & [= -> ->] & Hk%elem_of_map_to_list). simpl. by rewrite Hk.
  - intros Hg. destruct (upstreams r !! i) as [v|] eqn:Hv; simpl in Hg; [|done]. injection Hg as <-.
    exists (i, v). split; [done|]. by apply elem_of_map_to_list.
Qed.

Lemma start_task_ok r i g running x :
  x ∈ start_task r i g running <-> x ∈ running \/ (x = (i, g) /\ is_current r i g = true).
Proof.
  unfold start_task. case_bool_decide as Hin.
  - split; [by left|]. intros [?|[-> _]]; done.
  - destruct (is_current r i g); [set_solver|]. split; [by left|]. by intros [?|[_ ?]].
Qed.

Lemma start_all_ok r running x :
  x ∈ start_all r running <-> x ∈ running \/ is_current r x.1 x.2 = true.
Proof.
  unfold start_all. assert (forall l running, (forall y, y ∈ l -> is_current r y.1 y.2 = true) ->
    (x ∈ fold_left (fun running ig => start_task r ig.1 ig.2 running) l running <-> x ∈ running \/ x ∈ l)) as Hl.
  { induction l as [|[i g] l IH]; intros rn Hc; simpl; [set_solver|].
    rewrite IH by (intros; apply Hc; by right). rewrite start_task_ok, elem_of_cons. simpl.
    pose proof (Hc (i, g) (list_elem_of_here _ _)). simpl in *. tauto. }
  rewrite Hl; [|by intros [i g] ?%elem_of_get_all]. destruct x as [i g]. by rewrite elem_of_get_all.
Qed.

Lemma resync_ok r running x : x ∈ resync_tasks r running <-> is_current r x.1 x.2 = true.
Proof.
  unfold resync_tasks. rewrite start_all_ok, elem_of_filter, elem_of_list_to_set.
  destruct x as [i g]. rewrite elem_of_get_all. simpl. tauto.
Qed.

Lemma restart_ok r finished running x :
  (x ∈ running -> is_current r x.1 x.2 = true -> x ∈ restart_finished_tasks r finished running) /\
  (x ∈ restart_finished_tasks r finished running -> x ∈ running \/ is_current r x.1 x.2 = true).
Proof.
  unfold restart_finished_tasks. revert running; induction finished as [|[i g] l IH]; intros rn; simpl; [tauto|].
  match goal with |- context [fold_left _ l ?r1] => set (rn' := r1) end.
  destruct (IH rn') as [H1 H2].
  assert (x ∈ rn' -> x ∈ rn \/ is_current r x.1 x.2 = true) as Hback.
  { unfold rn'. destruct (is_current r i g) eqn:Hc.
    - rewrite start_task_ok. intros [Hx|[-> Hx]]; [left; set_solver|by right].
    - left. set_solver. }
  split.
  - intros Hx Hc. apply H1; [|done]. unfold rn'. destruct (decide (x = (i, g))) as [->|Hne].
    + simpl in Hc. rewrite Hc, start_task_ok. by right.
    + destruct (is_current r i g); [rewrite start_task_ok; left|]; set_solver.
  - intros [Hx|Hx]%H2; [by apply Hback|by right].
Qed.

(** Displaced checks wait in [displaced] for the end of their publication. *)
Record Watching : Type := { registry : HealthCheckRegistry; displaced : gset (string * Z); running : Tasks }.

Inductive watch_step : Watching -> Watching -> Prop :=
| w_register w i svc :
    let reg := register_upstream i svc (registry w) in
    watch_step w {| registry := reg.2;
      displaced := match reg.1.2 with
                   | Some d => {[ (d_id d, generation (d_registered d)) ]} ∪ displaced w
                   | None => displaced w
                   end; running := running w |}
| w_discard w d :
    (d_id d, generation (d_registered d)) ∈ displaced w ->
    watch_step w {| registry := discard d (registry w);
      displaced := displaced w ∖ {[ (d_id d, generation (d_registered d)) ]}; running := running w |}
| w_unregister w i g :
    watch_step w {| registry := (unregister_upstream i g (registry w)).2; displaced := displaced w; running := running w |}
| w_process w u rest :
    sent (registry w) = u :: rest ->
    watch_step w {| registry := (registry w) <| sent := rest |>; displaced := displaced w;
      running := process_update (registry w) u (running w) |}
| w_lagged w n :
    watch_step w {| registry := (registry w) <| sent := drop n (sent (registry w)) |>; displaced := displaced w;
      running := resync_tasks (registry w) (running w) |}
| w_restart w finished :
    watch_step w {| registry := registry w; displaced := displaced w;
      running := restart_finished_tasks (registry w) finished (running w) |}.

(** The executor has subscribed and enumerated the registry. *)
Definition executor_started (r : HealthCheckRegistry) : Watching :=
  {| registry := r <| sent := [] |>; displaced := ∅; running := start_all r ∅ |}.

Record winv (w : Watching) : Prop := {
  w_started i g : is_current (registry w) i g = true -> (i, g) ∈ running w \/ Added i g ∈ sent (registry w);
  w_stopping i g : (i, g) ∈ running w ->
    is_current (registry w) i g = true \/ (i, g) ∈ displaced w \/ Removed i g ∈ sent (registry w);
  w_removed i g : Removed i g ∈ sent (registry w) -> is_current (registry w) i g = false /\ g < next_generation (registry w);
  w_current i g : is_current (registry w) i g = true -> g < next_generation (registry w);
  w_displaced i g : (i, g) ∈ displaced w -> is_current (registry w) i g = false /\ g < next_generation (registry w);
}.

Lemma current_insert r i v j g :
  is_current (r <| upstreams := <[i := v]> (upstreams r) |>) j g =
  if decide (i = j) then bool_decide (generation v = g) else is_current r j g.
Proof.
  unfold is_current; simpl. case_decide as E.
  - subst j. rewrite lookup_insert_eq. simpl. apply bool_decide_ext. naive_solver.
  - by rewrite lookup_insert_ne.
Qed.

Lemma register_winv w i svc :
  winv w ->
  let reg := register_upstream i svc (registry w) in
  winv {| registry := reg.2;
      displaced := match reg.1.2 with
                   | Some d => {[ (d_id d, generation (d_registered d)) ]} ∪ displaced w
                   | None => displaced w
                   end; running := running w |}.
Proof.
  intros [Hs Hp Hr Hc Hd] reg. set (next := next_generation (registry w)).
  assert (forall j g, is_current reg.2 j g = if decide (i = j) then bool_decide (next = g) else is_current (registry w) j g) as Hcur.
  { intros j g. change (is_current reg.2 j g) with (is_current ((registry w) <| upstreams :=
      <[i := {| generation := next; load_balancer := svc |}]> (upstreams (registry w)) |>) j g). apply current_insert. }
  assert (sent reg.2 = (sent (registry w) ++ [Added i next])%list) as Hsent by done.
  assert (next_generation reg.2 = next + 1) as Hnext by done.
  assert (forall g, is_current (registry w) i g = true ->
    reg.1.2 = Some {| d_id := i; d_registered := default (Build_RegisteredUpstream 0 0) (upstreams (registry w) !! i) |} /\
    generation (default (Build_RegisteredUpstream 0 0) (upstreams (registry w) !! i)) = g) as Hold.
  { intros g Hg. unfold is_current in Hg. bool_to_prop. simpl. destruct (upstreams (registry w) !! i); simpl in *; [|done].
    split; congruence. }
  assert (forall d, reg.1.2 = Some d -> d_id d = i /\ is_current (registry w) i (generation (d_registered d)) = true) as Hdisp.
  { intros d Hd'. simpl in Hd'. unfold is_current. destruct (upstreams (registry w) !! i); simpl in *; [|done].
    injection Hd' as <-. by rewrite bool_decide_true. }
  set (disp' := match reg.1.2 with Some d => _ | None => displaced w end).
  assert (forall g, is_current (registry w) i g = true -> (i, g) ∈ disp') as Hin'.
  { intros g Hg. destruct (Hold g Hg) as [E <-]. unfold disp'. rewrite E. simpl. set_solver. }
  assert (forall x, x ∈ displaced w -> x ∈ disp') as Hmon by (intros x; unfold disp'; destruct reg.1.2; set_solver).
  assert (forall j g, (j, g) ∈ disp' -> (j, g) ∈ displaced w \/ (j = i /\ is_current (registry w) i g = true)) as Hback.
  { intros j g. unfold disp'. destruct reg.1.2 as [d|] eqn:E; [|by left].
    intros [Hx%elem_of_singleton|]%elem_of_union; [|by left]. destruct (Hdisp d eq_refl) as [Hi Hcu].
    injection Hx as -> ->. rewrite <- Hi at 1. by right. }
  clearbody disp'. clear Hold Hdisp.
  split; cbn [registry displaced running]; rewrite ?Hsent, ?Hnext.
  - intros j g. rewrite Hcur. case_decide as E; [subst j; intros; bool_to_prop; subst g; right; set_solver|].
    intros [?|?]%Hs; [by left|right; set_solver].
  - intros j g Hin. rewrite Hcur. destruct (Hp _ _ Hin) as [Hx|[Hx|Hx]].
    + case_decide as E; [|by left]. subst j. right. left. by apply Hin'.
    + right. left. by apply Hmon.
    + right. right. set_solver.
  - intros j g [Hin|[=]%list_elem_of_singleton]%elem_of_app. destruct (Hr _ _ Hin) as [Hf Hlt].
    rewrite Hcur. case_decide; split; try lia; [|done]. apply bool_decide_eq_false. unfold next. lia.
  - intros j g. rewrite Hcur. case_decide; [intros; bool_to_prop; lia|]. intros Hx%Hc. unfold next. lia.
  - intros j g [[Hf Hlt]%Hd|[-> Hx]]%Hback; rewrite Hcur.
    + case_decide; [|split; [done|unfold next; lia]].
      split; [apply bool_decide_eq_false|]; unfold next; lia.
    + apply Hc in Hx. rewrite decide_True by done. split; [apply bool_decide_eq_false|]; unfold next; lia.
Qed.

Lemma watch_step_inv w w' : winv w -> watch_step w w' -> winv w'.
Proof.
  intros Hw. destruct 1 as [w i svc reg|w d Hd|w i g|w u rest Hu|w n|w fin].
  - by apply register_winv.
  - destruct Hw as [Hs Hp Hr Hc Hdi]. destruct (Hdi _ _ Hd) as [Hf Hlt].
    assert (forall j g, is_current (discard d (registry w)) j g = is_current (registry w) j g) as Hcur by done.
    split; simpl.
    + intros j g [?|?]%Hs; [by left|right; set_solver].
    + intros j g Hin. rewrite Hcur. destruct (decide ((j, g) = (d_id d, generation (d_registered d)))) as [[= -> ->]|Hne].
      * right. right. set_solver.
      * destruct (Hp _ _ Hin) as [?|[?|?]]; [by left|right; left; set_solver|right; right; set_solver].
    + intros j g [Hin|[= -> ->]%list_elem_of_singleton]%elem_of_app; [by apply Hr|done].
    + done.
    + intros j g Hin. rewrite Hcur. apply Hdi. set_solver.
  - unfold unregister_upstream. case_bool_decide as Hcu; [|by destruct w]. destruct Hw as [Hs Hp Hr Hc Hdi].
    assert (is_current (registry w) i g = true) as Hig by (unfold is_current; by rewrite bool_decide_true).
    cbn [snd]. set (r' := _ <| sent := _ |>).
    assert (forall j h, is_current r' j h = if decide (i = j) then false else is_current (registry w) j h) as Hcur.
    { intros j h. unfold is_current, r'; simpl. case_decide as E.
      - subst j. by rewrite lookup_delete_eq.
      - by rewrite lookup_delete_ne. }
    assert (sent r' = (sent (registry w) ++ [Removed i g])%list) as Hsent by done.
    assert (next_generation r' = next_generation (registry w)) as Hnext by done.
    split; simpl; rewrite ?Hsent, ?Hnext.
    + intros j h. rewrite Hcur. case_decide; [done|]. intros [?|?]%Hs; [by left|right; set_solver].
    + intros j h Hin. rewrite Hcur. destruct (Hp _ _ Hin) as [Hx|[Hx|Hx]]; [|by right; left|right; right; set_solver].
      case_decide as E; [|by left]. subst j. assert (h = g) as ->; [|right; right; set_solver].
      unfold is_current in Hx, Hig. bool_to_prop. congruence.
    + intros j h [Hin|[= -> ->]%list_elem_of_singleton]%elem_of_app.
      * destruct (Hr _ _ Hin) as [Hf Hlt]. rewrite Hcur. by case_decide.
      * rewrite Hcur. rewrite decide_True by done. split; [done|exact (Hc _ _ Hig)].
    + intros j h. rewrite Hcur. case_decide; [done|]. apply Hc.
    + intros j h Hin. destruct (Hdi _ _ Hin). rewrite Hcur. by case_decide.
  - destruct Hw as [Hs Hp Hr Hc Hdi]. rewrite Hu in *.
    assert (forall j h, is_current ((registry w) <| sent := rest |>) j h = is_current (registry w) j h) as Hcur by done.
    split; simpl; try setoid_rewrite Hcur; try done.
    + intros j h Hx. destruct u as [i g|i g]; simpl.
      * rewrite start_task_ok. destruct (Hs _ _ Hx) as [?|[[= -> ->]|?]%elem_of_cons]; auto.
      * destruct (Hs _ _ Hx) as [Hin|[[=]|?]%elem_of_cons]; [|by right]. left.
        destruct (decide ((j, h) = (i, g))) as [[= -> ->]|]; [|set_solver].
        destruct (Hr i g (list_elem_of_here _ _)). congruence.
    + intros j h. destruct u as [i g|i g]; simpl.
      * rewrite start_task_ok. intros [Hin|[[= -> ->] Hx]]; [|by left].
        destruct (Hp _ _ Hin) as [?|[?|[[=]|?]%elem_of_cons]]; auto.
      * intros Hin. assert ((j, h) <> (i, g)) by set_solver.
        destruct (Hp j h) as [?|[?|[[=]|?]%elem_of_cons]]; [set_solver|auto..|congruence|auto].
    + intros j h Hin. apply Hr. by right.
  - destruct Hw as [Hs Hp Hr Hc Hdi].
    assert (forall j h, is_current ((registry w) <| sent := drop n (sent (registry w)) |>) j h = is_current (registry w) j h)
      as Hcur by done.
    split; simpl; try done.
    + intros j h Hx. left. by apply resync_ok.
    + intros j h Hx%resync_ok. by left.
    + intros j h Hin. apply Hr. rewrite <- (take_drop n (sent (registry w))). apply elem_of_app. by right.
  - destruct Hw as [Hs Hp Hr Hc Hdi]. split; simpl; try done.
    + intros j h Hx. destruct (Hs _ _ Hx) as [Hin|?]; [left|by right]. by apply (restart_ok _ fin _ (j, h)).
    + intros j h [Hin|Hx]%(restart_ok _ fin _ (j, h)); [by apply Hp|by left].
Qed.

Lemma started_winv r :
  (forall i g, is_current r i g = true -> g < next_generation r) -> winv (executor_started r).
Proof.
  intros Hc. split; simpl; try done.
  - intros i g Hx. left. apply start_all_ok. by right.
  - intros i g [Hx|Hx]%start_all_ok; [set_solver|by left].
  - by intros i g ?%not_elem_of_nil.
Qed.

Lemma watch_steps_inv w w' : winv w -> rtc watch_step w w' -> winv w'.
Proof. intros Hw Hr. induction Hr; eauto using watch_step_inv. Qed.

(** C14 (the executor follows the registry).  However publications, discards,
    event deliveries, lost events (a lagged receiver) and task restarts
    interleave after the executor started, once every event is delivered and
    every displaced check discarded the tasks running are exactly those of the
    registered generations. *)
Theorem executor_converges r w :
  (forall i g, is_current r i g = true -> g < next_generation r) ->
  rtc watch_step (executor_started r) w ->
  sent (registry w) = [] -> displaced w = ∅ ->
  forall i g, (i, g) ∈ running w <-> is_current (registry w) i g = true.
Proof.
  intros Hc Hr Hsent Hd i g. destruct (watch_steps_inv _ w (started_winv r Hc) Hr) as [Hs Hp _ _ _].
  split.
  - intros [?|[Hx|Hx]]%Hp; [done|set_solver|]. rewrite Hsent in Hx. by apply not_elem_of_nil in Hx.
  - intros [?|Hx]%Hs; [done|]. rewrite Hsent in Hx. by apply not_elem_of_nil in Hx.
Qed.

(** u1 is edited while the executor still runs its first generation: the new
    check is announced, the old one discarded, and both events delivered. *)
Definition demo_registry : HealthCheckRegistry := (register_upstream "upstream/u1" 10 registry_new).2.
Definition demo_end : Watching :=
  {| registry := (register_upstream "upstream/u1" 11 demo_registry).2 <| sent := [] |> <| stopped := {[ 1 ]} |>;
     displaced := ∅; running := {[ ("upstream/u1", 2) ]} |}.

Lemma executor_converges_witness :
  rtc watch_step (executor_started demo_registry) demo_end /\
  (forall i g, (i, g) ∈ running demo_end <-> is_current (registry demo_end) i g = true).
Proof.
  assert (rtc watch_step (executor_started demo_registry) demo_end) as Hsteps.
  { eapply rtc_l; [apply (w_register _ "upstream/u1" 11)|].
    eapply rtc_l; [apply (w_discard _ {| d_id := "upstream/u1"; d_registered := Build_RegisteredUpstream 1 10 |});
      apply (bool_decide_unpack _); vm_compute; exact I|].
    eapply rtc_l; [eapply w_process; reflexivity|].
    eapply rtc_l; [eapply w_process; reflexivity|].
    match goal with |- rtc _ ?a ?b => replace a with b; [apply rtc_refl|] end.
    vm_compute. reflexivity. }
  split; [exact Hsteps|].
  apply (executor_converges demo_registry demo_end); [|exact Hsteps|reflexivity..].
  intros i g Hg. unfold is_current in Hg. apply bool_decide_eq_true in Hg.
  unfold demo_registry, register_upstream, registry_new in Hg. simpl in Hg.
  destruct (decide (i = "upstream/u1")) as [->|Hne].
  - rewrite lookup_insert_eq in Hg. simpl in Hg. injection Hg as <-. done.
  - rewrite lookup_insert_ne in Hg by congruence. done.
Defined.
