(* ===== verification/ApiBreaker.v ===== *)
(** * The circuit breaker ([src/src/plugins/api_breaker.rs])

    Breaker states keyed by route, their state machine and the rejection
    window. *)

From Stdlib Require Import ZArith Lia.
From stdpp Require Import base tactics gmap fin_maps strings option sets list.
From S2P Require Import Prelude OrderedMap Shards Errors.

Open Scope Z_scope.

Definition MAX_EXPONENT : Z := 30.
Definition MAX_BREAKER_KEYS : nat := 1024.

(** ** [StatusCodeSet]: ten 64-bit words *)

Abbreviation StatusCodeSet := (list Z).

Definition set_bit (bits : StatusCodeSet) (status : Z) : StatusCodeSet :=
  if status <? 640 then alter (fun w => Z.lor w (Z.shiftl 1 (status `mod` 64))) (Z.to_nat (status / 64)) bits else bits.

Definition from_statuses (statuses : list Z) : StatusCodeSet := fold_left set_bit statuses (replicate 10 0).

Definition set_contains (bits : StatusCodeSet) (status : Z) : bool :=
  (status <? 640) &&
  match bits !! Z.to_nat (status / 64) with
  | Some w => negb (Z.land w (Z.shiftl 1 (status `mod` 64)) =? 0)
  | None => false
  end.

(** ** Configuration *)

Record BreakHeader : Type := { header_key : string; header_value : string }.
Record UnhealthyConf : Type := { unhealthy_statuses : list Z; failures : Z }.
Record HealthyConf : Type := { healthy_statuses : list Z; successes : Z }.

Definition UnhealthyConf_default : UnhealthyConf := {| unhealthy_statuses := [500]; failures := 3 |}.
Definition HealthyConf_default : HealthyConf := {| healthy_statuses := [200]; successes := 3 |}.

Record PluginConfig : Type := {
  break_response_code : Z;
  break_response_body : option string;
  break_response_headers : list BreakHeader;
  max_breaker_sec : Z;
  unhealthy : UnhealthyConf;
  healthy : HealthyConf;
}.
Definition default_max_breaker_sec : Z := 300.

(** Header names are checked by the [http] crate. *)
Section config.
Context (header_name_ok : string -> bool) (trim : string -> string) (errors : PluginConfig -> string).

Definition validate_header_key (key : string) : bool := negb (bool_decide (trim key = "")) && header_name_ok key.

(** The validators of the derive. *)
Definition derived_ok (c : PluginConfig) : bool :=
  (200 <=? break_response_code c) && (break_response_code c <=? 599) && (3 <=? max_breaker_sec c) &&
  forallb (fun h => validate_header_key (header_key h) && negb (bool_decide (header_value h = ""))) (break_response_headers c).

Definition unique (l : list Z) : bool := bool_decide (length (remove_dups l) = length l).
Definition in_range (lo hi : Z) (l : list Z) : bool := forallb (fun s => (lo <=? s) && (s <=? hi)) l.

(** [PluginConfig::try_from] on the parsed configuration. *)
Definition PluginConfig_try_from (c : PluginConfig) : Result PluginConfig ProxyError :=
  if negb (derived_ok c) then Err (ValidationStructured (errors c))
  else if bool_decide (unhealthy_statuses (unhealthy c) = []) || bool_decide (healthy_statuses (healthy c) = [])
       || negb (unique (unhealthy_statuses (unhealthy c))) || negb (unique (healthy_statuses (healthy c)))
  then Err (Validation "api-breaker http_statuses must be non-empty and unique")
  else if negb (in_range 500 599 (unhealthy_statuses (unhealthy c)))
  then Err (Validation "api-breaker unhealthy.http_statuses must be in [500, 599]")
  else if negb (in_range 200 499 (healthy_statuses (healthy c)))
  then Err (Validation "api-breaker healthy.http_statuses must be in [200, 499]")
  else if failures (unhealthy c) <? 1 then Err (Validation "api-breaker unhealthy.failures must be >= 1")
  else if successes (healthy c) <? 1 then Err (Validation "api-breaker healthy.successes must be >= 1")
  else Ok c.

End config.

(** ** State *)

(** Counters are [u32] and wrap in the release profile. *)
Record BreakerState : Type := { unhealthy_count : Z; healthy_count : Z; lasttime : option Instant }.
#[export] Instance eta_BreakerState : Eta BreakerState := fun s =>
  Build_BreakerState (unhealthy_count s) (healthy_count s) (lasttime s).

Definition BreakerState_default : BreakerState := {| unhealthy_count := 0; healthy_count := 0; lasttime := None |}.

(** [BreakerStates::entry] *)
Definition breaker_entry (key : string) (states : Shard BreakerState) : BreakerState * Shard BreakerState :=
  let states := if negb (contains_key key states) && (MAX_BREAKER_KEYS <=? shard_len states)%nat
                then evict_oldest states else states in
  let states := shard_touch key states in
  let st := default BreakerState_default (entries states !! key) in
  (st, fill key st states).

Definition breaker_secs (unhealthy_count failures max_breaker_sec : Z) : Z :=
  let failure_times := Z.min MAX_EXPONENT (Z.max 1 (unhealthy_count / Z.max failures 1)) in
  Z.min (Z.shiftl 1 failure_times) max_breaker_sec.

Definition window_open (c : PluginConfig) (now : Instant) (st : BreakerState) : bool :=
  match lasttime st with
  | Some t => now <=? t + from_secs (breaker_secs (unhealthy_count st) (failures (unhealthy c)) (max_breaker_sec c))
  | None => false
  end.

(** The body of [response_filter] on one state. *)
Definition observe (c : PluginConfig) (unhealthy_set healthy_set : StatusCodeSet) (now : Instant) (status : Z)
    (st : BreakerState) : BreakerState :=
  if set_contains unhealthy_set status then
    let st := st <| healthy_count := 0 |> <| unhealthy_count := wrapping_add 32 (unhealthy_count st) 1 |> in
    if unhealthy_count st `mod` Z.max (failures (unhealthy c)) 1 =? 0 then st <| lasttime := Some now |> else st
  else if set_contains healthy_set status && bool_decide (is_Some (lasttime st)) then
    let st := st <| healthy_count := wrapping_add 32 (healthy_count st) 1 |> in
    if Z.max (successes (healthy c)) 1 <=? healthy_count st
    then st <| lasttime := None |> <| unhealthy_count := 0 |> <| healthy_count := 0 |>
    else st
  else st.

Record PluginApiBreaker : Type := {
  config : PluginConfig;
  unhealthy_set : StatusCodeSet;
  healthy_set : StatusCodeSet;
  states : Shard BreakerState;
}.
#[export] Instance eta_PluginApiBreaker : Eta PluginApiBreaker := fun p =>
  Build_PluginApiBreaker (config p) (unhealthy_set p) (healthy_set p) (states p).

Definition create_api_breaker_plugin (c : PluginConfig) : PluginApiBreaker :=
  {| config := c; unhealthy_set := from_statuses (unhealthy_statuses (unhealthy c));
     healthy_set := from_statuses (healthy_statuses (healthy c)); states := Shard_default |}.

(** [state_key]: the bound route's id, or one fixed key. *)
Definition state_key (route_id : option string) : string :=
  match route_id with
  | Some i => if bool_decide (i = "") then "__global__" else i
  | None => "__global__"
  end.

Definition is_open (key : string) (now : Instant) (self : PluginApiBreaker) : bool * PluginApiBreaker :=
  let r := breaker_entry key (states self) in
  (window_open (config self) now r.1, self <| states := r.2 |>).

(** [request_filter]: [true] is the rejection. *)
Definition breaker_request_filter (route_id : option string) (now : Instant) (self : PluginApiBreaker) : bool * PluginApiBreaker :=
  is_open (state_key route_id) now self.

Definition breaker_response_filter (route_id : option string) (now : Instant) (status : Z) (self : PluginApiBreaker)
    : PluginApiBreaker :=
  let key := state_key route_id in
  let r := breaker_entry key (states self) in
  self <| states := fill key (observe (config self) (unhealthy_set self) (healthy_set self) now status r.1) r.2 |>.

(** ** The status sets *)

Lemma land_bit w k : 0 <= k -> negb (Z.land w (Z.shiftl 1 k) =? 0) = Z.testbit w k.
Proof.
  intros Hk. rewrite Z.shiftl_1_l. destruct (Z.testbit w k) eqn:E.
  - apply negb_true_iff, Z.eqb_neq. intros H0. apply (f_equal (fun z => Z.testbit z k)) in H0.
    rewrite Z.land_spec, E, Z.pow2_bits_true, Z.bits_0 in H0 by done. done.
  - apply negb_false_iff, Z.eqb_eq, Z.bits_inj'. intros n Hn. rewrite Z.land_spec, Z.bits_0.
    destruct (Z.eq_dec k n) as [<-|Hne]; [by rewrite E|]. by rewrite Z.pow2_bits_false, andb_false_r.
Qed.

Lemma set_bit_contains bits x s :
  length bits = 10%nat -> 0 <= x -> 0 <= s < 640 ->
  length (set_bit bits x) = 10%nat /\ set_contains (set_bit bits x) s = set_contains bits s || bool_decide (x = s).
Proof.
  intros Hl Hx Hs. unfold set_bit. destruct (Z.ltb_spec x 640) as [Hlt|Hge].
  2:{ split; [done|]. rewrite bool_decide_false by lia. by rewrite orb_false_r. }
  split; [by rewrite length_alter|]. unfold set_contains. destruct (Z.ltb_spec s 640); [|lia]. cbn [andb].
  assert (exists w, bits !! Z.to_nat (s / 64) = Some w) as [w Hw].
  { apply lookup_lt_is_Some_2. rewrite Hl. assert (0 <= s / 64 < 10) by (split; [apply Z.div_pos; lia|apply Z.div_lt_upper_bound; lia]). lia. }
  destruct (decide (x / 64 = s / 64)) as [Heq|Hne].
  - rewrite Heq, list_lookup_alter_eq, Hw. cbn [fmap option_fmap option_map].
    pose proof (Z.mod_pos_bound x 64 ltac:(lia)). pose proof (Z.mod_pos_bound s 64 ltac:(lia)).
    rewrite !land_bit by lia. rewrite Z.lor_spec, Z.shiftl_1_l. f_equal.
    destruct (bool_decide (x = s)) eqn:E; bool_to_prop.
    + subst x. apply Z.pow2_bits_true; lia.
    + apply Z.pow2_bits_false. intros Hm. apply E. rewrite (Z.div_mod x 64), (Z.div_mod s 64) by lia. by rewrite Heq, Hm.
  - rewrite list_lookup_alter_ne, Hw. 2:{ intros Hn. apply Hne. apply Z2Nat.inj in Hn; [done|apply Z.div_pos; lia..]. }
    rewrite bool_decide_false by (intros ->; done). by rewrite orb_false_r.
Qed.

Lemma from_statuses_contains l s :
  Forall (Z.le 0) l -> 0 <= s < 640 -> set_contains (from_statuses l) s = bool_decide (s ∈ l).
Proof.
  intros Hl Hs. unfold from_statuses.
  assert (forall l bits, Forall (Z.le 0) l -> length bits = 10%nat ->
    set_contains (fold_left set_bit l bits) s = set_contains bits s || bool_decide (s ∈ l)) as Hf.
  { clear l Hl. induction l as [|x l IH]; intros bits Hall Hb; cbn [fold_left].
    - rewrite bool_decide_false by (by intros ?%not_elem_of_nil). by rewrite orb_false_r.
    - apply Forall_cons in Hall as [Hx Hall]. destruct (set_bit_contains bits x s Hb Hx Hs) as [Hb' Hc].
      rewrite IH, Hc by done. rewrite <- orb_assoc. f_equal. apply eq_iff_eq_true.
      rewrite orb_true_iff, !bool_decide_eq_true, elem_of_cons. naive_solver. }
  rewrite Hf by done. replace (set_contains (replicate 10 0) s) with false; [done|]. symmetry.
  unfold set_contains. apply andb_false_iff. right. destruct (replicate 10 0 !! Z.to_nat (s / 64)) as [w|] eqn:E; [|done].
  apply lookup_replicate in E as [-> _]. done.
Qed.

Lemma set_contains_high bits s : 640 <= s -> set_contains bits s = false.
Proof. intros Hs. unfold set_contains. apply andb_false_iff. left. apply Z.ltb_ge. lia. Qed.

(** ** The state machine of one route *)

Section machine.
Context (c : PluginConfig).
#[local] Abbreviation bad := (from_statuses (unhealthy_statuses (unhealthy c))).
#[local] Abbreviation good := (from_statuses (healthy_statuses (healthy c))).
#[local] Abbreviation F := (failures (unhealthy c)).
#[local] Abbreviation S := (successes (healthy c)).

Definition run (evs : list (Instant * Z)) (st : BreakerState) : BreakerState :=
  fold_left (fun st ev => observe c bad good ev.1 ev.2 st) evs st.

Definition is_bad (status : Z) : bool := set_contains bad status.
Definition is_good (status : Z) : bool := negb (is_bad status) && set_contains good status.
Definition count (f : Z -> bool) (evs : list (Instant * Z)) : Z := Z.of_nat (length (filter (fun ev => f ev.2 = true) evs)).

Definition closed (k : Z) : BreakerState := {| unhealthy_count := k; healthy_count := 0; lasttime := None |}.

Lemma count_cons f ev evs : count f (ev :: evs) = (if f ev.2 then 1 else 0) + count f evs.
Proof.
  unfold count. rewrite filter_cons. destruct (f ev.2); [rewrite decide_True by done|rewrite decide_False by done]; cbn [length]; lia.
Qed.

Lemma count_nonneg f evs : 0 <= count f evs.
Proof. unfold count. lia. Qed.

Hypothesis (HF : 1 <= F) (HS : 1 <= S) (HFmax : F < 2 ^ 32) (HSmax : S < 2 ^ 32).

Lemma observe_closed_bad t status k :
  is_bad status = true -> 0 <= k < F ->
  observe c bad good t status (closed k) =
  {| unhealthy_count := k + 1; healthy_count := 0; lasttime := if k + 1 =? F then Some t else None |}.
Proof.
  intros Hb Hk. unfold observe. unfold is_bad in Hb. rewrite Hb. cbv zeta. simpl. unfold wrapping_add.
  rewrite wrap_small by lia. rewrite Z.max_l by lia. destruct (Z.eqb_spec (k + 1) F) as [->|Hne].
  - rewrite Z.mod_same by lia. done.
  - rewrite Z.mod_small by lia. destruct (Z.eqb_spec (k + 1) 0); [lia|done].
Qed.

Lemma observe_closed_other t status k : is_bad status = false -> observe c bad good t status (closed k) = closed k.
Proof. intros Hb. unfold observe. unfold is_bad in Hb. rewrite Hb. simpl. by rewrite andb_false_r. Qed.

Lemma run_closed evs k : 0 <= k -> k + count is_bad evs < F -> run evs (closed k) = closed (k + count is_bad evs).
Proof.
  revert k; induction evs as [|[t status] evs IH]; intros k Hk Hc; [by rewrite Z.add_0_r|].
  rewrite count_cons in *. pose proof (count_nonneg is_bad evs). cbn [run fold_left fst snd] in *.
  destruct (is_bad status) eqn:E.
  - rewrite observe_closed_bad by (done || lia). destruct (Z.eqb_spec (k + 1) F); [lia|].
    rewrite Z.add_assoc. apply (IH (k + 1)); lia.
  - rewrite observe_closed_other by done. apply IH; lia.
Qed.

(** One response on a tripped breaker that is not unhealthy. *)
Lemma observe_tripped t0 t status u h :
  is_bad status = false -> 0 <= h < S ->
  observe c bad good t status {| unhealthy_count := u; healthy_count := h; lasttime := Some t0 |} =
  if is_good status then
    if S <=? h + 1 then closed 0 else {| unhealthy_count := u; healthy_count := h + 1; lasttime := Some t0 |}
  else {| unhealthy_count := u; healthy_count := h; lasttime := Some t0 |}.
Proof.
  intros Hb Hh. unfold observe, is_good. rewrite Hb. unfold is_bad in Hb. rewrite Hb. cbn [negb andb lasttime].
  rewrite (bool_decide_true (is_Some (Some t0))) by by eexists. rewrite andb_true_r.
  destruct (set_contains good status); [|done]. cbv zeta. simpl. unfold wrapping_add. rewrite wrap_small by lia.
  rewrite Z.max_l by lia. by destruct (S <=? h + 1).
Qed.

Lemma run_tripped evs t0 u h :
  count is_bad evs = 0 -> 0 <= h < S ->
  run evs {| unhealthy_count := u; healthy_count := h; lasttime := Some t0 |} =
  if S <=? h + count is_good evs then closed 0
  else {| unhealthy_count := u; healthy_count := h + count is_good evs; lasttime := Some t0 |}.
Proof.
  revert h; induction evs as [|[t status] evs IH]; intros h Hb Hh.
  { rewrite Z.add_0_r. destruct (Z.leb_spec S h); [lia|done]. }
  rewrite count_cons in Hb |- *. pose proof (count_nonneg is_bad evs). pose proof (count_nonneg is_good evs).
  cbn [fst snd] in *. destruct (is_bad status) eqn:E; [lia|]. cbn [run fold_left fst snd].
  rewrite observe_tripped by done. destruct (is_good status) eqn:Eg.
  - destruct (Z.leb_spec S (h + 1)).
    + destruct (Z.leb_spec S (h + (1 + count is_good evs))); [|lia].
      change (run evs (closed 0) = closed 0). rewrite run_closed by lia. f_equal. lia.
    + rewrite Z.add_assoc. apply IH; lia.
  - rewrite Z.add_0_l. apply IH; lia.
Qed.

End machine.

(** ** Properties *)

(** Trip and recovery.  From a closed breaker with fewer than [failures]
    unhealthy responses so far, every trace short of the threshold leaves it
    closed, and the unhealthy response that reaches it opens it from that
    instant for two seconds (or the configured maximum); once tripped, a trace
    without unhealthy responses closes it exactly when it has the missing
    number of healthy ones, and restarts the count. *)
Theorem breaker_cycle errors hk tr c k evs t status :
  PluginConfig_try_from hk tr errors c = Ok c ->
  0 <= k -> failures (unhealthy c) < 2 ^ 32 -> successes (healthy c) < 2 ^ 32 ->
  (k + count (is_bad c) evs < failures (unhealthy c) -> run c evs (closed k) = closed (k + count (is_bad c) evs)) /\
  (k + count (is_bad c) evs + 1 = failures (unhealthy c) -> is_bad c status = true ->
   forall now, window_open c now (run c (evs ++ [(t, status)]) (closed k)) = (now <=? t + from_secs (Z.min 2 (max_breaker_sec c)))) /\
  (forall t0 u h, count (is_bad c) evs = 0 -> 0 <= h < successes (healthy c) ->
   let st := run c evs {| unhealthy_count := u; healthy_count := h; lasttime := Some t0 |} in
   (lasttime st = None <-> successes (healthy c) <= h + count (is_good c) evs) /\
   (lasttime st = None -> st = BreakerState_default)).
Proof.
  intros Hok Hk HF HS. unfold PluginConfig_try_from in Hok.
  repeat (match type of Hok with (if ?b then _ else _) = _ => destruct b eqn:?; [done|] end).
  assert (1 <= failures (unhealthy c) /\ 1 <= successes (healthy c)) as [HF1 HS1] by lia.
  split_and!.
  - intros Hc. by apply run_closed.
  - intros Hc Hb now. unfold run. rewrite fold_left_app. pose proof (count_nonneg (is_bad c) evs).
    change (window_open c now (observe c (from_statuses (unhealthy_statuses (unhealthy c)))
      (from_statuses (healthy_statuses (healthy c))) t status (run c evs (closed k))) = (now <=? t + from_secs (Z.min 2 (max_breaker_sec c)))).
    rewrite run_closed by lia. rewrite observe_closed_bad by (done || lia). rewrite Hc, Z.eqb_refl.
    unfold window_open; simpl. unfold breaker_secs. rewrite (Z.max_l (failures _)) by lia. rewrite Z.div_same by lia. done.
  - intros t0 u h Hb Hh. cbv zeta. rewrite run_tripped by done. destruct (Z.leb_spec (successes (healthy c)) (h + count (is_good c) evs)).
    + split; [split; [intros _; lia|done]|done].
    + split; [split; [done|lia]|done].
Qed.

(** The rejection window is bounded.  Whatever the counter, an open
    breaker rejects for at least two seconds and at most the configured
    maximum, and longer for more failures. *)
Theorem breaker_window_bounds u u' f m :
  3 <= m -> 0 <= u <= u' ->
  2 <= breaker_secs u f m <= m /\ breaker_secs u f m <= breaker_secs u' f m /\ breaker_secs u f m <= 2 ^ MAX_EXPONENT.
Proof.
  intros Hm Hu. unfold breaker_secs, MAX_EXPONENT. rewrite !Z.shiftl_1_l.
  pose proof (Z.div_le_mono u u' (Z.max f 1) ltac:(lia) ltac:(lia)).
  set (a := Z.min 30 (Z.max 1 (u / Z.max f 1))). set (b := Z.min 30 (Z.max 1 (u' / Z.max f 1))).
  pose proof (Z.pow_le_mono_r 2 1 a ltac:(lia) ltac:(lia)). pose proof (Z.pow_le_mono_r 2 a b ltac:(lia) ltac:(lia)).
  pose proof (Z.pow_le_mono_r 2 a 30 ltac:(lia) ltac:(lia)). lia.
Qed.

(** ** The keyed states *)

Record states_wf (s : Shard BreakerState) : Prop := {
  bs_order : order_wf (touch_order s);
  bs_tracks : dom (touches (touch_order s)) = dom (entries s);
  bs_size : (size (entries s) <= MAX_BREAKER_KEYS)%nat;
}.

#[local] Opaque touch.

(** The states stay bounded and tracked, and looking one up changes no other
    state, except that a new key at capacity drops the least recently used. *)
Lemma breaker_entry_wf key s :
  states_wf s -> next_touch (touch_order s) < 2 ^ 64 - 1 ->
  let r := breaker_entry key s in
  states_wf r.2 /\ entries r.2 !! key = Some r.1 /\ r.1 = default BreakerState_default (entries s !! key) /\
  exists old, (forall k, k <> key -> k <> old -> entries r.2 !! k = entries s !! k) /\
    (old <> key -> entries r.2 !! old = None -> entries s !! key = None /\ size (entries s) = MAX_BREAKER_KEYS \/ entries s !! old = None).
Proof.
  intros [Ho Ht Hs] Hb. cbv zeta. unfold breaker_entry.
  match goal with |- context [shard_touch key ?x] => set (s1 := x) end.
  assert (exists old, states_wf s1 /\ next_touch (touch_order s1) = next_touch (touch_order s) /\
    (forall k, k <> old -> entries s1 !! k = entries s !! k) /\ entries s1 !! key = entries s !! key /\
    (size (entries s1) < MAX_BREAKER_KEYS \/ is_Some (entries s !! key))%nat /\
    (entries s1 !! old = None -> entries s !! key = None /\ size (entries s) = MAX_BREAKER_KEYS \/ entries s !! old = None))
    as (old & Hwf1 & Hn & Hoth & Hkey & Hsz & Hold).
  { unfold s1, contains_key, shard_len. case_bool_decide as Hin; cbn [negb andb].
    { exists key. split_and!; try done; [by right|]. intros Hk. by right. }
    destruct (Nat.leb_spec MAX_BREAKER_KEYS (size (entries s))) as [Hfull|Hfree].
    2:{ exists key. split_and!; try done; [by left|]. intros _. right. by apply eq_None_not_Some. }
    unfold evict_oldest. destruct (pop_oldest (touch_order s)) as [[[t old] rest]|] eqn:Hp.
    - destruct (pop_oldest_some _ _ _ _ Ho Hp) as (Hwf & Hnx & Htk & Hrt & _ & _). exists old.
      assert (is_Some (entries s !! old)) as [w Hw] by (apply elem_of_dom; rewrite <- Ht; apply elem_of_dom; by eexists).
      simpl. split_and!; simpl; try done.
      + split; simpl; [done|by rewrite Hrt, !dom_delete_L, Ht|]. rewrite map_size_delete, Hw. simpl. lia.
      + intros k Hk. by rewrite lookup_delete_ne.
      + rewrite lookup_delete_ne; [done|]. intros ->. apply Hin. by eexists.
      + left. rewrite map_size_delete, Hw. simpl. unfold MAX_BREAKER_KEYS in *. lia.
      + intros _. left. split; [by apply eq_None_not_Some|]. lia.
    - apply pop_oldest_none in Hp; [|done]. rewrite Hp, dom_empty_L in Ht. symmetry in Ht. apply dom_empty_iff_L in Ht.
      rewrite Ht, map_size_empty in Hfull. unfold MAX_BREAKER_KEYS in Hfull. lia. }
  clearbody s1. destruct Hwf1 as [Ho1 Ht1 Hs1]. cbn [fst snd]. simpl. split_and!; [|by rewrite lookup_insert_eq|by rewrite Hkey|].
  - split; simpl; [apply touch_wf; [done|lia]|by rewrite touch_touches, dom_insert_L, Ht1|].
    rewrite map_size_insert. destruct (entries s1 !! key) eqn:E; simpl; [done|].
    destruct Hsz as [?|Hin]; [unfold MAX_BREAKER_KEYS in *; lia|]. destruct Hin as [w Hw]. congruence.
  - exists old. split.
    + intros k Hk Hko. rewrite lookup_insert_ne by done. by apply Hoth.
    + intros Hne. rewrite lookup_insert_ne by done. exact Hold.
Qed.

(** ** Witnesses *)

Definition demo_config : PluginConfig :=
  {| break_response_code := 502; break_response_body := None; break_response_headers := []; max_breaker_sec := 300;
     unhealthy := UnhealthyConf_default; healthy := HealthyConf_default |}.

Lemma breaker_cycle_witness :
  window_open demo_config 2000000005 (run demo_config [(1, 500); (2, 404); (3, 500); (5, 500)] (closed 0)) = true /\
  window_open demo_config 2000000006 (run demo_config [(1, 500); (2, 404); (3, 500); (5, 500)] (closed 0)) = false /\
  lasttime (run demo_config [(6, 200); (7, 200); (8, 200)] {| unhealthy_count := 3; healthy_count := 0; lasttime := Some 5 |}) = None.
Proof.
  destruct (breaker_cycle (fun _ => "") (fun _ => true) id demo_config 0 [(1, 500); (2, 404); (3, 500)] 5 500)
    as (_ & Ht & _); [reflexivity|lia|reflexivity|reflexivity|].
  destruct (breaker_cycle (fun _ => "") (fun _ => true) id demo_config 0 [(6, 200); (7, 200); (8, 200)] 5 500)
    as (_ & _ & Hr); [reflexivity|lia|reflexivity|reflexivity|].
  specialize (Ht eq_refl eq_refl). specialize (Hr 5 3 0 eq_refl ltac:(vm_compute; split; congruence)).
  split; [exact (Ht 2000000005)|]. split; [exact (Ht 2000000006)|]. apply Hr. vm_compute. congruence.
Defined.

Lemma breaker_window_bounds_witness : 2 <= breaker_secs 7 3 300 <= 300 /\ breaker_secs 7 3 300 = 4.
Proof. split; [apply (breaker_window_bounds 7 7 3 300); lia|reflexivity]. Defined.
