(* ===== verification/RequestVars.v ===== *)
(** * Request values and templates ([src/src/utils/request.rs], [apisix_vars.rs])

    Query and cookie pairs with their lookup and removal, the variables of a
    request, the template parser and the limiter keys built from them.  The
    [http] crate's URIs and header maps are a type class. *)

From Stdlib Require Import ZArith Lia Ascii.
From stdpp Require Import base tactics strings pretty option list.
From S2P Require Import Prelude Errors GraphStore Utf8 EtcdKeys Hosts Config.

Open Scope Z_scope.

(** ** Text operations of the standard library *)

(** The UTF-8 encodings of [char::is_whitespace], by length. *)
Definition ws1 (a : ascii) : bool := between 9 13 (byte_val a) || (byte_val a =? 32).
Definition ws2 (a b : ascii) : bool := (byte_val a =? 0xC2) && ((byte_val b =? 0x85) || (byte_val b =? 0xA0)).
Definition ws3 (a b c : ascii) : bool :=
  ((byte_val a =? 0xE1) && (byte_val b =? 0x9A) && (byte_val c =? 0x80)) ||
  ((byte_val a =? 0xE2) && (byte_val b =? 0x80) &&
     (between 0x80 0x8A (byte_val c) || (byte_val c =? 0xA8) || (byte_val c =? 0xA9) || (byte_val c =? 0xAF))) ||
  ((byte_val a =? 0xE2) && (byte_val b =? 0x81) && (byte_val c =? 0x9F)) ||
  ((byte_val a =? 0xE3) && (byte_val b =? 0x80) && (byte_val c =? 0x80)).

(** What follows a leading whitespace character. *)
Definition ws_rest (s : string) : option string :=
  match s with
  | String a r1 =>
    if ws1 a then Some r1
    else match r1 with
         | String b r2 =>
           if ws2 a b then Some r2
           else match r2 with
                | String c r3 => if ws3 a b c then Some r3 else None
                | EmptyString => None
                end
         | EmptyString => None
         end
  | EmptyString => None
  end.

Fixpoint trim_start (s : string) : string :=
  match s with
  | String a r1 =>
    if ws1 a then trim_start r1
    else match r1 with
         | String b r2 =>
           if ws2 a b then trim_start r2
           else match r2 with
                | String c r3 => if ws3 a b c then trim_start r3 else s
                | EmptyString => s
                end
         | EmptyString => s
         end
  | EmptyString => s
  end.

Fixpoint trim_end (s : string) : string :=
  match s with
  | String a s' =>
    let t := trim_end s' in
    if bool_decide (ws_rest (String a t) = Some "") then "" else String a t
  | EmptyString => ""
  end.

(** [str::trim]. *)
Definition trim (s : string) : string := trim_end (trim_start s).

(** [str::split] on a character. *)
Fixpoint split_char (c : ascii) (s : string) : list string :=
  match s with
  | EmptyString => [""]
  | String a s' =>
    if bool_decide (a = c) then "" :: split_char c s'
    else match split_char c s' with
         | h :: t => String a h :: t
         | [] => [str1 a]
         end
  end.

(** [str::rfind] of a character: what precedes its last occurrence. *)
Fixpoint before_last (c : ascii) (s : string) : option string :=
  match s with
  | EmptyString => None
  | String a s' =>
    match before_last c s' with
    | Some l => Some (String a l)
    | None => if bool_decide (a = c) then Some "" else None
    end
  end.

(** [str::replace] of a character. *)
Fixpoint replace_char (c d : ascii) (s : string) : string :=
  match s with
  | EmptyString => ""
  | String a s' => String (if bool_decide (a = c) then d else a) (replace_char c d s')
  end.

(** ** The [http] crate

    A [HeaderValue] is its bytes.  The laws are the documented behaviour of
    [Uri::from_str], [HeaderValue::to_str] and the header map. *)

Class HttpTypes : Type := {
  Uri : Type;
  uri_parse : string -> Result Uri string;
  uri_path : Uri -> string;
  uri_query : Uri -> option string;
  uri_host : Uri -> option string;
  uri_scheme : Uri -> option string;
  uri_path_and_query : Uri -> option string;
  HeaderMap : Type;
  headers_get_all : HeaderMap -> string -> list string;
  headers_remove : HeaderMap -> string -> HeaderMap;
  headers_append : HeaderMap -> string -> string -> Result HeaderMap string;
  to_str : string -> option string;
  value_parse : string -> Result string string;
}.

Class HttpLaws `{HttpTypes} : Type := {
  header_name : string -> string;
  visible : ascii -> bool;
  visible_pairs : visible "=" = true /\ visible ";" = true /\ visible " " = true;
  to_str_spec v : to_str v = if str_forall visible v then Some v else None;
  value_parse_ok s v : value_parse s = Ok v -> v = s;
  get_all_remove h n m : headers_get_all (headers_remove h n) m =
    if bool_decide (header_name m = header_name n) then [] else headers_get_all h m;
  get_all_append h n v h' m : headers_append h n v = Ok h' ->
    headers_get_all h' m = if bool_decide (header_name m = header_name n) then (headers_get_all h m ++ [v])%list
                           else headers_get_all h m;
  uri_path_chars u : contains_char "?" (uri_path u) = false /\ contains_char "#" (uri_path u) = false;
  uri_query_chars u q : uri_query u = Some q -> contains_char "#" q = false;
  uri_parse_path p u : starts_with p "/" = true -> contains_char "?" p = false -> contains_char "#" p = false ->
    uri_parse p = Ok u -> uri_path u = p /\ uri_query u = None;
  uri_parse_query p q u : starts_with p "/" = true -> contains_char "?" p = false -> contains_char "#" p = false ->
    contains_char "#" q = false -> uri_parse (p +:+ "?" +:+ q) = Ok u -> uri_path u = p /\ uri_query u = Some q;
}.

Abbreviation cookie_header := "cookie".
Abbreviation host_header := "host".

Section http.
Context `{HttpTypes}.

Record RequestHeader : Type := { method : string; uri : Uri; headers : HeaderMap }.
#[export] Instance eta_RequestHeader : Eta RequestHeader := fun r => Build_RequestHeader (method r) (uri r) (headers r).

(** What a Pingora session tells about its connections: the TLS digest, the
    peer and local addresses as text. *)
Record Session : Type := {
  req_header : RequestHeader;
  ssl_digest : bool;
  client_ip : option string;
  client_port : option Z;
  server_addr : option string;
}.

(** ** Pairs *)

Definition pair_of (seg : string) : string * string :=
  match split_once "=" seg with Some (n, v) => (trim n, trim v) | None => (seg, "") end.

Definition split_pairs (s : string) (sep : ascii) : list (string * string) :=
  pair_of <$> List.filter (fun s => negb (bool_decide (s = ""))) (trim <$> split_char sep s).

(** [find(|(n, _)| *n == name).map(|(_, v)| v)] *)
Definition find_value (name : string) (l : list (string * string)) : option string :=
  snd <$> List.find (fun nv => bool_decide (nv.1 = name)) l.

Definition render_pair (nv : string * string) : string :=
  if bool_decide (nv.2 = "") then nv.1 else nv.1 +:+ "=" +:+ nv.2.

Definition retain_pairs (name : string) (l : list (string * string)) : list string :=
  render_pair <$> List.filter (fun nv => negb (bool_decide (nv.1 = name))) l.

Definition get_query_value (req : RequestHeader) (name : string) : option string :=
  match uri_query (uri req) with
  | Some query => find_value name (split_pairs query "&")
  | None => None
  end.

Definition remove_query_from_header (req : RequestHeader) (name : string) : Result RequestHeader string :=
  match uri_query (uri req) with
  | Some query =>
    let query := String.concat "&" (retain_pairs name (split_pairs query "&")) in
    let new_path := uri_path (uri req) in
    let new_path := if bool_decide (query = "") then new_path else new_path +:+ "?" +:+ query in
    let? u := uri_parse new_path in Ok (req <| uri := u |>)
  | None => Ok req
  end.

Definition get_req_header_value (req : RequestHeader) (key : string) : option string :=
  head (headers_get_all (headers req) key) ≫= to_str.

(** The pairs of every Cookie field that is text. *)
Definition cookie_pairs (req : RequestHeader) : list (string * string) :=
  concat ((fun value => split_pairs value ";") <$> omap to_str (headers_get_all (headers req) cookie_header)).

Definition get_cookie_value (req : RequestHeader) (cookie_name : string) : option string :=
  find_value cookie_name (cookie_pairs req).

Fixpoint text_values (vs : list string) : ProxyResult (list string) :=
  match vs with
  | [] => Ok []
  | v :: vs' =>
    match to_str v with
    | Some s => let? rest := text_values vs' in Ok (s :: rest)
    | None => Err (Validation "Cookie header is not valid text")
    end
  end.

Definition retained_cookies (cookie_name : string) (values : list string) : list string :=
  List.filter (fun value => negb (bool_decide (value = "")))
    ((fun value => String.concat "; " (retain_pairs cookie_name (split_pairs value ";"))) <$> values).

Definition append_cookie (h : HeaderMap) (value : string) : ProxyResult HeaderMap :=
  let? value := map_err (fun e => Validation ("Failed to rebuild Cookie header: " +:+ e)) (value_parse value) in
  map_err (fun e => Validation ("Failed to rebuild Cookie header: " +:+ e)) (headers_append h cookie_header value).

Definition remove_cookie_from_header (req : RequestHeader) (cookie_name : string) : ProxyResult RequestHeader :=
  let? values := text_values (headers_get_all (headers req) cookie_header) in
  let? h := try_fold append_cookie (headers_remove (headers req) cookie_header) (retained_cookies cookie_name values) in
  Ok (req <| headers := h |>).

(** [get_request_host] *)
Definition get_request_host (req : RequestHeader) : option string :=
  let from_header :=
    match head (headers_get_all (headers req) host_header) ≫= to_str with
    | Some host_str =>
      if starts_with host_str "[" then
        match split_once "]" host_str with
        | Some (l, _) => Some (l +:+ "]")
        | None => Some host_str
        end
      else match before_last ":" host_str with Some l => Some l | None => Some host_str end
    | None => None
    end in
  match uri_host (uri req) with
  | Some host => if bool_decide (host = "") then from_header else Some host
  | None => from_header
  end.

Definition resolve_request_var (req : RequestHeader) (is_tls : bool) (name : string) : option string :=
  match strip_prefix "arg_" name with
  | Some arg => Some (default "" (get_query_value req arg))
  | None =>
    match strip_prefix "http_" name with
    | Some header => Some (default "" (get_req_header_value req (replace_char "_" "-" header)))
    | None =>
      if bool_decide (name = "uri") then Some (uri_path (uri req))
      else if bool_decide (name = "request_uri") then Some (default (uri_path (uri req)) (uri_path_and_query (uri req)))
      else if bool_decide (name = "query_string") then Some (default "" (uri_query (uri req)))
      else if bool_decide (name = "host") then Some (default "" (get_request_host req))
      else if bool_decide (name = "scheme") then Some (default (if is_tls then "https" else "http") (uri_scheme (uri req)))
      else if bool_decide (name = "request_method") then Some (method req)
      else None
    end
  end.

Definition resolve_var (session : Session) (name : string) : string :=
  if bool_decide (name = "remote_addr") then default "" (client_ip session)
  else if bool_decide (name = "remote_port") then default "" (pretty <$> client_port session)
  else if bool_decide (name = "server_addr") then default "" (server_addr session)
  else default "" (resolve_request_var (req_header session) (ssl_digest session) name).

Definition request_selector_key (session : Session) (hash_on : UpstreamHashOn) (key : string) : string :=
  match hash_on with
  | VARS => resolve_var session key
  | HEAD => default "" (get_req_header_value (req_header session) key)
  | COOKIE => default "" (get_cookie_value (req_header session) key)
  end.

(** One condition of [match_apisix_vars]. *)
Definition match_var (session : Session) (v : list string) : bool :=
  match v with
  | var_name :: op :: val :: _ =>
    let actual_val :=
      match strip_prefix "http_" var_name with
      | Some header_name => request_selector_key session HEAD header_name
      | None => request_selector_key session VARS var_name
      end in
    if bool_decide (op = "==") then bool_decide (actual_val = val)
    else if bool_decide (op = "!=") then negb (bool_decide (actual_val = val))
    else false
  | _ => true
  end.

Definition match_apisix_vars (session : Session) (vars : list (list string)) : bool := forallb (match_var session) vars.

End http.

(** ** Templates *)

Definition is_ident (a : ascii) : bool :=
  between 48 57 (byte_val a) || between 65 90 (byte_val a) || between 97 122 (byte_val a) || (byte_val a =? 95).

(** The name after [$]: up to a character that cannot be part of it. *)
Fixpoint take_name (s : string) : string * string :=
  match s with
  | String a s' => if is_ident a then let r := take_name s' in (String a r.1, r.2) else ("", s)
  | EmptyString => ("", "")
  end.

(** The name after [${]: up to the closing brace, which is consumed, or to the
    end of the template. *)
Definition take_braced (s : string) : string * string :=
  match split_once "}" s with Some r => r | None => (s, "") end.

Definition placeholder (s : string) : string * string :=
  match s with
  | String a s' => if bool_decide (a = "{"%char) then take_braced s' else take_name s
  | EmptyString => ("", "")
  end.

Section template.
Context (escape_dollar : bool) (resolve : string -> string).

(** The loop of the parser; every turn consumes a character. *)
Fixpoint render_loop (fuel : nat) (template : string) : string * Z :=
  match fuel, template with
  | S fuel, String ch rest =>
    if escape_dollar && bool_decide (ch = "\"%char) then
      match strip_prefix "$" rest with
      | Some rest => let r := render_loop fuel rest in (String "$" r.1, r.2)
      | None => let r := render_loop fuel rest in (String "\" r.1, r.2)
      end
    else if negb (bool_decide (ch = "$"%char)) then
      let r := render_loop fuel rest in (String ch r.1, r.2)
    else
      let '(name, rest) := placeholder rest in
      let r := render_loop fuel rest in
      if bool_decide (name = "") then (String "$" r.1, r.2)
      else
        let value := resolve name in
        (value +:+ r.1, (if bool_decide (value = "") then 0 else 1) + r.2)
  | _, _ => ("", 0)
  end.

Definition render_template_with_count (template : string) : string * Z := render_loop (String.length template) template.
Definition render_template (template : string) : string := (render_template_with_count template).1.

End template.

Definition render_apisix_template (template : string) (resolve : string -> string) : string :=
  render_template false resolve template.

Fixpoint trim_dollars (s : string) : string :=
  match s with
  | String a s' => if bool_decide (a = "$"%char) then trim_dollars s' else s
  | EmptyString => ""
  end.

(** [apisix_key] *)
Definition apisix_key `{HttpTypes} (session : Session) (key : string) (var_combination : bool) : string :=
  if var_combination then
    let '(rendered, resolved) := render_template_with_count false (resolve_var session) key in
    if 0 <? resolved then rendered else resolve_var session "remote_addr"
  else
    let value := resolve_var session (trim_dollars key) in
    if bool_decide (value = "") then resolve_var session "remote_addr" else value.

Definition render_apisix_request_template `{HttpTypes} (session : Session) (template : string) : string :=
  render_apisix_template template (resolve_var session).

(** ** Trimming *)

Lemma trim_start_unfold s : trim_start s = match ws_rest s with Some r => trim_start r | None => s end.
Proof.
  destruct s as [|a s]; [reflexivity|]. cbn [trim_start ws_rest]. destruct (ws1 a); [reflexivity|].
  destruct s as [|b s]; [reflexivity|]. destruct (ws2 a b); [reflexivity|].
  destruct s as [|c s]; [reflexivity|]. by destruct (ws3 a b c).
Qed.

Lemma ws_rest_length s r : ws_rest s = Some r -> (String.length r < String.length s)%nat.
Proof. destruct s as [|a [|b [|c s]]]; simpl; repeat case_match; intros; simplify_eq; simpl; lia. Qed.

Lemma ws_rest_app s r u : ws_rest s = Some r -> ws_rest (s +:+ u) = Some (r +:+ u).
Proof.
  destruct s as [|a [|b [|c s]]]; simpl; intros; try done; repeat (case_match; simplify_eq/=; try done).
Qed.

Lemma trim_start_length s : (String.length (trim_start s) <= String.length s)%nat.
Proof.
  remember (String.length s) as n eqn:E. assert (String.length s <= n)%nat as Hn by lia. clear E. revert s Hn.
  induction n as [|n IH]; intros s Hn; rewrite trim_start_unfold; destruct (ws_rest s) as [r|] eqn:E; try lia;
    apply ws_rest_length in E; [lia|]. specialize (IH r ltac:(lia)). lia.
Qed.

Lemma trim_start_fixed s : trim_start s = s <-> ws_rest s = None.
Proof.
  rewrite trim_start_unfold. destruct (ws_rest s) as [r|] eqn:E; [|done]. split; [|done]. intros Hr.
  apply ws_rest_length in E. pose proof (trim_start_length r). rewrite Hr in *. lia.
Qed.

Lemma trim_start_ws s : ws_rest (trim_start s) = None.
Proof.
  remember (String.length s) as n eqn:E. assert (String.length s <= n)%nat as Hn by lia. clear E. revert s Hn.
  induction n as [|n IH]; intros s Hn; rewrite trim_start_unfold; destruct (ws_rest s) as [r|] eqn:E; try done;
    apply ws_rest_length in E; [lia|]. apply IH. lia.
Qed.

Lemma trim_end_prefix s : exists u, s = trim_end s +:+ u.
Proof.
  induction s as [|a s [u IH]]; simpl; [by exists ""|]. case_bool_decide; [by eexists|]. exists u. simpl. by rewrite <-IH.
Qed.

Lemma trim_end_twice s : trim_end (trim_end s) = trim_end s.
Proof.
  induction s as [|a s IH]; cbn [trim_end]; [done|]. case_bool_decide as E; [done|]. cbn [trim_end]. rewrite IH.
  by rewrite bool_decide_false.
Qed.

Lemma ws_rest_prefix s t u : s = t +:+ u -> ws_rest s = None -> ws_rest t = None.
Proof. intros -> Hs. destruct (ws_rest t) eqn:E; [|done]. by rewrite (ws_rest_app _ _ u E) in Hs. Qed.

(** A trimmed text: [trim] leaves it alone. *)
Lemma trim_fixed s : trim s = s <-> ws_rest s = None /\ trim_end s = s.
Proof.
  unfold trim. split.
  - intros E. pose proof (trim_start_ws s) as Hw. destruct (trim_end_prefix (trim_start s)) as [u Hu]. rewrite E in Hu.
    pose proof (ws_rest_prefix _ _ _ Hu Hw) as Hs. split; [done|]. apply trim_start_fixed in Hs. by rewrite Hs in E.
  - intros [Hs He]. apply trim_start_fixed in Hs. by rewrite Hs.
Qed.

Lemma trim_trimmed s : trim (trim s) = trim s.
Proof.
  apply trim_fixed. unfold trim. rewrite trim_end_twice. split; [|done].
  destruct (trim_end_prefix (trim_start s)) as [u Hu]. eapply ws_rest_prefix; [exact Hu|]. apply trim_start_ws.
Qed.

Lemma trim_space s : trim (String " " s) = trim s.
Proof. reflexivity. Qed.

(** No whitespace character holds an equals sign. *)
Lemma ws_rest_eq s : ws_rest (String "=" s) = None.
Proof. by destruct s as [|b [|c s]]. Qed.

Lemma ws2_eq a : ws2 a "=" = false.
Proof. unfold ws2. change (byte_val "=") with 61. by rewrite andb_false_r. Qed.

Lemma ws3_eq a b : ws3 a "=" b = false /\ ws3 a b "=" = false.
Proof.
  unfold ws3, between. change (byte_val "=") with 61. simpl. by rewrite !andb_false_r, !andb_false_l.
Qed.

Lemma ws_rest_app_eq n v : ws_rest n = None -> ws_rest (n +:+ String "=" v) = None.
Proof.
  destruct n as [|a [|b [|c n]]]; [intros _; apply ws_rest_eq| | |];
    cbn [String.append ws_rest]; destruct (ws1 a); try done.
  - intros _. rewrite ws2_eq. destruct v; [done|]. by rewrite (proj1 (ws3_eq _ _)).
  - destruct (ws2 a b); [done|]. intros _. by rewrite (proj2 (ws3_eq _ _)).
  - destruct (ws2 a b); [done|]. by destruct (ws3 a b c).
Qed.

Lemma ws_word_eq p v : ws_rest (p +:+ String "=" v) <> Some "".
Proof.
  intros E. assert (exists r, ws_rest p = Some r) as [r Hr].
  { destruct (ws_rest p) eqn:Ep; [by eexists|]. by rewrite (ws_rest_app_eq _ v Ep) in E. }
  rewrite (ws_rest_app _ _ _ Hr) in E. by destruct r.
Qed.

Lemma trim_end_app_eq p v : trim_end (p +:+ String "=" v) = p +:+ String "=" (trim_end v).
Proof.
  induction p as [|a p IH].
  - cbn [String.append trim_end]. by rewrite ws_rest_eq.
  - cbn [String.append trim_end]. rewrite IH. rewrite bool_decide_false; [done|].
    apply (ws_word_eq (String a p) (trim_end v)).
Qed.

Lemma trim_app_eq n v : trim n = n -> trim v = v -> trim (n +:+ String "=" v) = n +:+ String "=" v.
Proof.
  intros [Hn _]%trim_fixed [_ Hv]%trim_fixed. apply trim_fixed.
  split; [by apply ws_rest_app_eq|]. by rewrite trim_end_app_eq, Hv.
Qed.

Lemma trim_start_suffix s : exists u, s = u +:+ trim_start s.
Proof.
  remember (String.length s) as n eqn:E. assert (String.length s <= n)%nat as Hn by lia. clear E. revert s Hn.
  induction n as [|n IH]; intros s Hn; rewrite trim_start_unfold; destruct (ws_rest s) as [r|] eqn:E; try by exists "".
  - apply ws_rest_length in E. lia.
  - destruct (IH r) as [u Hu]; [apply ws_rest_length in E; lia|].
    assert (exists w, s = w +:+ r) as [w Hw].
    { destruct s as [|a [|b [|c s]]]; simpl in E; repeat case_match; simplify_eq;
        first [by exists (str1 a)|by exists (str2 a b)|by exists (str3 a b c)]. }
    exists (w +:+ u). by rewrite str_app_assoc, <-Hu.
Qed.

Lemma trim_infix s : exists u v, s = u +:+ trim s +:+ v.
Proof.
  destruct (trim_start_suffix s) as [u Hu], (trim_end_prefix (trim_start s)) as [v Hv].
  exists u, v. unfold trim. by rewrite <-Hv.
Qed.

(** ** Splitting *)

Lemma split_char_app c a b : contains_char c a = false -> split_char c (a +:+ String c b) = a :: split_char c b.
Proof.
  induction a as [|x a IH]; simpl; [by rewrite bool_decide_true|]. intros [Hx Ha]%orb_false_iff. bool_to_prop.
  rewrite bool_decide_false by congruence. by rewrite IH.
Qed.

Lemma split_char_last c a : contains_char c a = false -> split_char c a = [a].
Proof.
  induction a as [|x a IH]; simpl; [done|]. intros [Hx Ha]%orb_false_iff. bool_to_prop.
  rewrite bool_decide_false by congruence. by rewrite IH.
Qed.

Lemma split_char_pieces c s p : p ∈ split_char c s -> contains_char c p = false /\ exists u v, s = u +:+ p +:+ v.
Proof.
  revert p. induction s as [|a s IH]; intros p; simpl.
  { intros ->%list_elem_of_singleton. split; [done|]. by exists "", "". }
  case_bool_decide as E; subst.
  { intros [->|Hp]%elem_of_cons; [split; [done|by exists "", (String c s)]|].
    destruct (IH p Hp) as [Hc (u & v & ->)]. split; [done|]. by exists (String c u), v. }
  destruct (split_char c s) as [|h t] eqn:Es.
  { destruct s as [|x s]; simpl in Es; [done|]. repeat case_match; done. }
  intros [->|Hp]%elem_of_cons.
  - destruct (IH h ltac:(by left)) as [Hh _]. simpl. split; [rewrite Hh; bool_to_prop; congruence|].
    assert (exists v, s = h +:+ v) as [v ->].
    { clear -Es. revert h t Es. induction s as [|x s IHs]; intros h t; simpl; [intros [= <- <-]; by exists ""|].
      case_bool_decide; [intros [= <- <-]; by eexists|].
      destruct (split_char c s) as [|h' t'] eqn:E; intros [= <- <-]; [by eexists|].
      destruct (IHs h' t' eq_refl) as [v ->]. by exists v. }
    by exists "", v.
  - destruct (IH p ltac:(by right)) as [Hc (u & v & ->)]. split; [done|]. by exists (String a u), v.
Qed.

Lemma contains_infix c s u p v : s = u +:+ p +:+ v -> contains_char c s = false -> contains_char c p = false.
Proof. intros ->. rewrite !contains_char_app. intros. by bool_to_prop. Qed.

Lemma contains_trim c s : contains_char c s = false -> contains_char c (trim s) = false.
Proof. destruct (trim_infix s) as (u & v & Hs). by apply contains_infix with u v. Qed.

(** ** Pairs read back what they render *)

Lemma split_once_none c s : split_once c s = None <-> contains_char c s = false.
Proof.
  induction s as [|a s IH]; simpl; [done|]. destruct (decide (a = c)) as [->|Hne].
  - by rewrite !bool_decide_true.
  - rewrite !bool_decide_false by congruence. rewrite <-IH. simpl. by destruct (split_once c s) as [[]|].
Qed.

Record pair_wf (sep : ascii) (nv : string * string) : Prop := {
  pw_name : trim nv.1 = nv.1;
  pw_value : trim nv.2 = nv.2;
  pw_plain : contains_char "=" nv.1 = false;
  pw_sep : contains_char sep nv.1 = false /\ contains_char sep nv.2 = false;
}.

Lemma pair_of_wf sep seg : trim seg = seg -> contains_char sep seg = false -> pair_wf sep (pair_of seg).
Proof.
  intros Ht Hs. unfold pair_of. destruct (split_once "=" seg) as [[n v]|] eqn:E.
  - apply split_once_some in E as [Hn ->]. rewrite contains_char_app in Hs. simpl in Hs. bool_to_prop.
    constructor; simpl; try apply trim_trimmed; [by apply contains_trim|split; by apply contains_trim].
  - apply split_once_none in E.
    constructor; simpl; try done.
Qed.

Lemma split_pairs_wf sep s : Forall (pair_wf sep) (split_pairs s sep).
Proof.
  apply Forall_fmap, Forall_forall. intros seg Hseg. apply list_elem_of_In, filter_In in Hseg as [Hseg _].
  apply list_elem_of_In, list_elem_of_fmap in Hseg as (p & -> & Hp).
  destruct (split_char_pieces _ _ _ Hp) as [Hc _].
  apply pair_of_wf; [apply trim_trimmed|by apply contains_trim].
Qed.

Lemma render_reads sep nv : pair_wf sep nv -> sep <> "="%char ->
  contains_char sep (render_pair nv) = false /\ trim (render_pair nv) = render_pair nv /\
  (render_pair nv = "" <-> nv = ("", "")) /\ (render_pair nv <> "" -> pair_of (render_pair nv) = nv).
Proof.
  destruct nv as [n v]. intros [Hn Hv Hp [Hsn Hsv]] Hsep. simpl in *. unfold render_pair; simpl.
  case_bool_decide as E.
  - subst. split_and!; try done; [split; [by intros ->|by intros [=]]|]. intros _. unfold pair_of.
    apply split_once_none in Hp. by rewrite Hp.
  - change (n +:+ "=" +:+ v) with (n +:+ String "=" v). split_and!.
    + rewrite contains_char_app. simpl. rewrite Hsn, Hsv, orb_false_r. simpl. by apply bool_decide_eq_false.
    + by apply trim_app_eq.
    + split; [by destruct n|]. intros [= -> ->]. done.
    + intros _. unfold pair_of. rewrite split_once_app by done. by rewrite Hn, Hv.
Qed.

Definition non_blank (nv : string * string) : bool := negb (bool_decide (nv = ("", ""))).

(** Joined again, the pairs are read back, blank ones excepted. *)
Lemma split_pairs_join sep pad l : sep <> "="%char -> sep <> " "%char -> pad = "" \/ pad = " " -> Forall (pair_wf sep) l ->
  split_pairs (String.concat (String sep pad) (render_pair <$> l)) sep = List.filter non_blank l.
Proof.
  intros Hsep Hsp Hpad Hl.
  assert (contains_char sep pad = false) as Hps.
  { destruct Hpad as [->| ->]; [done|]. simpl. rewrite orb_false_r. by apply bool_decide_eq_false. }
  assert (forall r, trim (pad +:+ r) = trim r) as Htp by (intros r; by destruct Hpad as [->| ->]).
  assert (forall q nv rest, trim q = render_pair nv -> pair_wf sep nv ->
    pair_of <$> List.filter (fun s => negb (bool_decide (s = ""))) (trim q :: rest) =
    (if non_blank nv then nv :: (pair_of <$> List.filter (fun s => negb (bool_decide (s = ""))) rest)
     else pair_of <$> List.filter (fun s => negb (bool_decide (s = ""))) rest)) as Hstep.
  { intros q nv rest -> Hnv. destruct (render_reads sep nv Hnv Hsep) as (_ & _ & Hb & Hr). unfold non_blank. simpl.
    case_bool_decide as E; case_bool_decide as E'; simpl; try done; [tauto|tauto|by rewrite Hr]. }
  assert (forall p, (p = "" \/ p = pad) -> split_pairs (p +:+ String.concat (String sep pad) (render_pair <$> l)) sep =
    List.filter non_blank l) as Hgen; [|exact (Hgen "" (or_introl eq_refl))].
  assert (forall p r, p = "" \/ p = pad -> trim (p +:+ r) = trim r) as Htp' by (intros p r [->| ->]; [done|apply Htp]).
  induction Hl as [|nv l Hnv Hl IH]; intros p Hp.
  - simpl. rewrite str_app_nil_r. unfold split_pairs. assert (p = "" \/ p = " ") as [->| ->] by naive_solver; [done|].
    simpl. by rewrite bool_decide_false.
  - destruct (render_reads sep nv Hnv Hsep) as (Hc & Ht & _ & _).
    assert (contains_char sep (p +:+ render_pair nv) = false) as Hpc.
    { rewrite contains_char_app, Hc, orb_false_r. by destruct Hp as [->| ->]. }
    unfold split_pairs. cbn [fmap list_fmap]. destruct l as [|nv' l'].
    + cbn [fmap list_fmap String.concat]. rewrite split_char_last by done. cbn [fmap list_fmap].
      rewrite (Hstep _ nv) by (rewrite ?Htp'; done). simpl. by destruct (non_blank nv).
    + change (String.concat (String sep pad) (render_pair nv :: (render_pair <$> (nv' :: l'))))
        with (render_pair nv +:+ String sep (pad +:+ String.concat (String sep pad) (render_pair <$> (nv' :: l')))).
      rewrite <-str_app_assoc, split_char_app by done. cbn [fmap list_fmap].
      rewrite (Hstep _ nv) by (rewrite ?Htp'; done).
      specialize (IH pad (or_intror eq_refl)). unfold split_pairs in IH. cbn [fmap list_fmap] in IH |- *. rewrite IH. done.
Qed.

(** ** Lookup after removal *)

Lemma find_value_cons m nv l : find_value m (nv :: l) = if bool_decide (nv.1 = m) then Some nv.2 else find_value m l.
Proof. unfold find_value. simpl. by case_bool_decide. Qed.

Lemma find_retained m name l : m = name \/ m <> "" ->
  find_value m (List.filter non_blank (List.filter (fun nv => negb (bool_decide (nv.1 = name))) l)) =
  if bool_decide (m = name) then None else find_value m l.
Proof.
  intros Hm. induction l as [|[n v] l IH]; [by destruct (bool_decide (m = name))|]. rewrite find_value_cons.
  cbn [List.filter fst snd]. destruct (decide (n = name)) as [->|Hn].
  - rewrite bool_decide_true by done. cbn [negb]. cbv iota. rewrite IH. case_bool_decide as E; [done|].
    by rewrite bool_decide_false by congruence.
  - rewrite (bool_decide_false (n = name)) by done. cbn [negb List.filter]. unfold non_blank at 1.
    destruct (decide ((n, v) = ("", ""))) as [E|E].
    + injection E as -> ->. rewrite (bool_decide_true (("", "") = ("", ""))) by done. cbn [negb]. cbv iota. rewrite IH.
      case_bool_decide as E2; [done|]. rewrite bool_decide_false by naive_solver. done.
    + rewrite (bool_decide_false ((n, v) = _)) by done. cbn [negb]. cbv iota.
      rewrite find_value_cons. cbn [fst snd]. rewrite IH. destruct (decide (n = m)) as [->|Hnm].
      * rewrite !(bool_decide_true (m = m)) by done. by rewrite bool_decide_false.
      * by rewrite !(bool_decide_false (n = m)) by done.
Qed.

Lemma str_forall_infix f u p v : str_forall f (u +:+ p +:+ v) = true -> str_forall f p = true.
Proof. rewrite !str_forall_app, !andb_true_iff. tauto. Qed.

Lemma str_forall_trim f s : str_forall f s = true -> str_forall f (trim s) = true.
Proof. intros Hs. destruct (trim_infix s) as (u & v & E). rewrite E in Hs. by eapply str_forall_infix. Qed.

Lemma str_forall_concat f sep l : str_forall f sep = true -> Forall (fun p => str_forall f p = true) l ->
  str_forall f (String.concat sep l) = true.
Proof.
  intros Hsep. induction 1 as [|p l Hp Hl IH]; [done|]. destruct l as [|q l]; [done|].
  change (String.concat sep (p :: q :: l)) with (p +:+ sep +:+ String.concat sep (q :: l)).
  by rewrite !str_forall_app, Hp, Hsep, IH.
Qed.

Lemma str_forall_render f sep s nv : f "="%char = true -> str_forall f s = true -> nv ∈ split_pairs s sep ->
  str_forall f (render_pair nv) = true.
Proof.
  intros He Hs Hnv. apply list_elem_of_fmap in Hnv as (seg & -> & Hseg).
  apply list_elem_of_In, filter_In in Hseg as [Hseg _]. apply list_elem_of_In, list_elem_of_fmap in Hseg as (p & -> & Hp).
  destruct (split_char_pieces _ _ _ Hp) as [_ (u & v & ->)]. apply str_forall_infix, str_forall_trim in Hs.
  unfold pair_of. destruct (split_once "=" (trim p)) as [[n w]|] eqn:E; unfold render_pair; simpl; [|done].
  apply split_once_some in E as [_ E]. rewrite E, str_forall_app in Hs. simpl in Hs. rewrite !andb_true_iff in Hs.
  destruct Hs as (Hn & _ & Hw). apply (str_forall_trim f) in Hn, Hw.
  case_bool_decide; [done|]. rewrite str_forall_app. simpl. by rewrite Hn, He, Hw.
Qed.

Lemma str_forall_retained f sep pad name s : f "="%char = true -> str_forall f (String sep pad) = true ->
  str_forall f s = true -> str_forall f (String.concat (String sep pad) (retain_pairs name (split_pairs s sep))) = true.
Proof.
  intros He Hsep Hs. apply str_forall_concat; [done|]. apply Forall_fmap, Forall_forall. intros nv Hnv.
  apply list_elem_of_In, filter_In in Hnv as [Hnv _]. apply list_elem_of_In in Hnv. by eapply str_forall_render.
Qed.

Lemma contains_forall c s : contains_char c s = false <-> str_forall (fun a => negb (bool_decide (c = a))) s = true.
Proof.
  induction s as [|a s IH]; simpl; [done|]. rewrite orb_false_iff, andb_true_iff, <-IH. by rewrite negb_true_iff.
Qed.

Lemma split_retained sep pad name s : sep <> "="%char -> sep <> " "%char -> pad = "" \/ pad = " " ->
  split_pairs (String.concat (String sep pad) (retain_pairs name (split_pairs s sep))) sep =
  List.filter non_blank (List.filter (fun nv => negb (bool_decide (nv.1 = name))) (split_pairs s sep)).
Proof.
  intros Hs Hsp Hp. unfold retain_pairs. rewrite split_pairs_join; [done..|].
  apply Forall_forall. intros nv Hnv. apply list_elem_of_In, filter_In in Hnv as [Hnv _]. apply list_elem_of_In in Hnv.
  pose proof (split_pairs_wf sep s) as Hw. rewrite Forall_forall in Hw. auto.
Qed.

Section removal.
Context `{HttpLaws}.

Lemma query_rewritten req name req' :
  starts_with (uri_path (uri req)) "/" = true -> remove_query_from_header req name = Ok req' ->
  uri_path (uri req') = uri_path (uri req) /\ headers req' = headers req /\ method req' = method req /\
  forall m, m = name \/ m <> "" -> get_query_value req' m = if bool_decide (m = name) then None else get_query_value req m.
Proof.
  intros Hp. unfold remove_query_from_header, get_query_value. destruct (uri_query (uri req)) as [query|] eqn:Hq.
  2: { intros [= <-]. rewrite Hq. split_and!; try done. intros m _. by case_bool_decide. }
  destruct (uri_path_chars (uri req)) as [Hc1 Hc2].
  pose proof (split_retained "&" "" name query ltac:(done) ltac:(done) ltac:(by left)) as Hs.
  set (joined := String.concat "&" _) in *.
  destruct (uri_parse _) as [u|e] eqn:Hu; [|done]. intros [= <-]. simpl.
  case_bool_decide as E.
  - destruct (uri_parse_path _ _ Hp Hc1 Hc2 Hu) as [-> ->]. split_and!; try done. intros m Hm.
    rewrite <-(find_retained m name) by done. rewrite <-Hs. unfold joined in *. by rewrite E.
  - destruct (uri_parse_query _ joined u Hp Hc1 Hc2) as [-> ->]; [|exact Hu|].
    + apply contains_forall, (str_forall_retained _ "&" ""); [done|done|]. apply contains_forall. by eapply uri_query_chars.
    + split_and!; try done. intros m Hm. rewrite <-(find_retained m name) by done. by rewrite <-Hs.
Qed.

Lemma text_values_ok vs ss : text_values vs = Ok ss -> ss = vs /\ omap to_str vs = vs /\ Forall (fun v => str_forall visible v = true) vs.
Proof.
  revert ss. induction vs as [|v vs IH]; intros ss; [intros [= <-]; done|]. cbn [text_values omap list_omap].
  rewrite to_str_spec. destruct (str_forall visible v) eqn:Hv; [|done]. destruct (text_values vs) as [rest|] eqn:E; [|done].
  intros [= <-]. destruct (IH rest eq_refl) as (-> & Hom & Hall). split_and!; [done|by f_equal|by constructor].
Qed.

Lemma append_cookies_ok vs h h' m : try_fold append_cookie h vs = Ok h' ->
  headers_get_all h' m = if bool_decide (header_name m = header_name cookie_header) then (headers_get_all h m ++ vs)%list else headers_get_all h m.
Proof.
  revert h. induction vs as [|v vs IH]; intros h; simpl.
  { intros [= <-]. rewrite app_nil_r. by case_bool_decide. }
  unfold append_cookie at 1. destruct (value_parse v) as [w|] eqn:Hv; [|done]. apply value_parse_ok in Hv as ->. simpl.
  destruct (headers_append h cookie_header v) as [h1|] eqn:Ha; [|done]. simpl. intros Hh. rewrite (IH h1 Hh).
  rewrite (get_all_append _ _ _ _ _ Ha). case_bool_decide; [|done]. by rewrite <-app_assoc.
Qed.

Lemma cookie_pairs_retained name vs :
  Forall (fun v => str_forall visible v = true) vs ->
  omap to_str (retained_cookies name vs) = retained_cookies name vs /\
  concat ((fun value => split_pairs value ";") <$> retained_cookies name vs) =
  List.filter non_blank (List.filter (fun nv => negb (bool_decide (nv.1 = name))) (concat ((fun v => split_pairs v ";") <$> vs))).
Proof.
  destruct visible_pairs as (Ve & Vs & Vb).
  induction 1 as [|v vs Hv _ [IH1 IH2]]; [done|]. unfold retained_cookies in *. cbn [fmap list_fmap List.filter concat].
  pose proof (split_retained ";" " " name v ltac:(done) ltac:(done) ltac:(by right)) as Hs.
  pose proof (str_forall_retained visible ";" " " name v Ve ltac:(simpl; by rewrite Vs, Vb) Hv) as Hr.
  change (String ";" " ") with "; " in *. set (joined := String.concat "; " (retain_pairs name (split_pairs v ";"))) in *.
  rewrite !List.filter_app, <-Hs, <-IH2. destruct (decide (joined = "")) as [E|E].
  - rewrite (bool_decide_true (joined = "")) by done. cbn [negb]. cbv iota. split; [exact IH1|]. by rewrite E.
  - rewrite (bool_decide_false (joined = "")) by done. cbn [negb]. cbv iota. cbn [omap list_omap fmap list_fmap concat].
    rewrite to_str_spec, Hr. split; [|done]. by rewrite IH1.
Qed.

Lemma cookie_rewritten req name req' : remove_cookie_from_header req name = Ok req' ->
  uri req' = uri req /\ method req' = method req /\
  (forall m, m = name \/ m <> "" -> get_cookie_value req' m = if bool_decide (m = name) then None else get_cookie_value req m) /\
  (forall m, header_name m <> header_name cookie_header -> headers_get_all (headers req') m = headers_get_all (headers req) m).
Proof.
  unfold remove_cookie_from_header. destruct (text_values _) as [vs|] eqn:Ht; [|done]. simpl.
  apply text_values_ok in Ht as (-> & Hom & Hall). destruct (try_fold _ _ _) as [h|] eqn:Hf; [|done]. intros [= <-]. simpl.
  pose proof (fun m => append_cookies_ok _ _ _ m Hf) as Hget. split_and!; try done.
  - intros m Hm. unfold get_cookie_value, cookie_pairs. simpl. rewrite Hget, bool_decide_true by done.
    rewrite get_all_remove, bool_decide_true by done. cbn [app].
    destruct (cookie_pairs_retained name _ Hall) as [-> ->]. rewrite find_retained by done. by rewrite Hom.
  - intros m Hm. rewrite Hget, bool_decide_false by done. by rewrite get_all_remove, bool_decide_false.
Qed.

End removal.

(** ** The template parser *)

Section template_lemmas.
Context (resolve : string -> string).

Lemma take_name_length s : (String.length (take_name s).2 <= String.length s)%nat.
Proof. induction s as [|a s IH]; simpl; [done|]. destruct (is_ident a); simpl; lia. Qed.

Lemma placeholder_length s : (String.length (placeholder s).2 <= String.length s)%nat.
Proof.
  destruct s as [|a s]; [done|]. unfold placeholder. case_bool_decide; [|apply take_name_length].
  unfold take_braced. destruct (split_once "}" s) as [[l r]|] eqn:E; simpl; [|lia].
  apply split_once_some in E as [_ ->]. assert (forall x y, String.length (x +:+ y) = String.length x + String.length y)%nat as Hl.
  { intros x y. induction x; simpl; congruence. }
  rewrite Hl. simpl. lia.
Qed.

Lemma strip_dollar_length s r : strip_prefix "$" s = Some r -> (String.length r < String.length s)%nat.
Proof. intros ->%strip_prefix_spec. simpl. lia. Qed.

Lemma render_loop_fuel escape_dollar n m s : (String.length s <= n)%nat -> (String.length s <= m)%nat ->
  render_loop escape_dollar resolve n s = render_loop escape_dollar resolve m s.
Proof.
  revert m s. induction n as [|n IH]; intros [|m] [|ch rest] Hn Hm; cbn [String.length] in *; try done; try lia.
  cbn [render_loop]. rewrite (IH m rest) by lia.
  pose proof (placeholder_length rest). destruct (placeholder rest) as [name rest'] eqn:Ep. cbn [snd] in *.
  rewrite (IH m rest') by lia. destruct (strip_prefix "$" rest) as [r|] eqn:Es; [|done].
  apply strip_dollar_length in Es. by rewrite (IH m r) by lia.
Qed.

Lemma render_unfold escape_dollar ch rest : render_template_with_count escape_dollar resolve (String ch rest) =
  if escape_dollar && bool_decide (ch = "\"%char) then
    match strip_prefix "$" rest with
    | Some rest => (String "$" (render_template_with_count escape_dollar resolve rest).1, (render_template_with_count escape_dollar resolve rest).2)
    | None => (String "\" (render_template_with_count escape_dollar resolve rest).1, (render_template_with_count escape_dollar resolve rest).2)
    end
  else if negb (bool_decide (ch = "$"%char)) then (String ch (render_template_with_count escape_dollar resolve rest).1, (render_template_with_count escape_dollar resolve rest).2)
  else let '(name, rest) := placeholder rest in
       if bool_decide (name = "") then (String "$" (render_template_with_count escape_dollar resolve rest).1, (render_template_with_count escape_dollar resolve rest).2)
       else (resolve name +:+ (render_template_with_count escape_dollar resolve rest).1, (if bool_decide (resolve name = "") then 0 else 1) + (render_template_with_count escape_dollar resolve rest).2).
Proof.
  unfold render_template_with_count. cbn [String.length render_loop].
  pose proof (placeholder_length rest). destruct (placeholder rest) as [name rest'] eqn:Ep. cbn [snd] in *.
  rewrite (render_loop_fuel _ (String.length rest) (String.length rest') rest') by lia.
  destruct (strip_prefix "$" rest) as [r|] eqn:Es; [|done].
  apply strip_dollar_length in Es. by rewrite (render_loop_fuel _ (String.length rest) (String.length r) r) by lia.
Qed.

(** *** Templates as segments

    A literal, [$name] or [${name}].  With escaping on, every dollar sign of a
    literal is written with a backslash. *)
Inductive Segment : Type := Lit (t : string) | Plain (name : string) | Braced (name : string).

Fixpoint escape_text (s : string) : string :=
  match s with
  | EmptyString => ""
  | String a s' => if bool_decide (a = "$"%char) then "\$" +:+ escape_text s' else String a (escape_text s')
  end.

Definition print_segment (escape_dollar : bool) (s : Segment) : string :=
  match s with
  | Lit t => if escape_dollar then escape_text t else t
  | Plain n => "$" +:+ n
  | Braced n => "${" +:+ n +:+ "}"
  end.
Definition print_segments (escape_dollar : bool) (l : list Segment) : string :=
  fold_right (fun s acc => print_segment escape_dollar s +:+ acc) "" l.

Fixpoint ends_with_backslash (s : string) : bool :=
  match s with
  | EmptyString => false
  | String a EmptyString => bool_decide (a = "\"%char)
  | String _ s' => ends_with_backslash s'
  end.
Definition starts_ident (s : string) : bool := match s with String a _ => is_ident a | EmptyString => false end.

(** A segment that is read back as written in front of [next]. *)
Definition segment_ok (escape_dollar : bool) (s : Segment) (next : string) : bool :=
  match s with
  | Lit t => if escape_dollar then negb (ends_with_backslash t && starts_with next "$") else negb (contains_char "$" t)
  | Plain n => negb (bool_decide (n = "")) && str_forall is_ident n && negb (starts_ident next)
  | Braced n => negb (bool_decide (n = "")) && negb (contains_char "}" n)
  end.
Fixpoint segments_ok (escape_dollar : bool) (l : list Segment) : bool :=
  match l with [] => true | s :: l' => segment_ok escape_dollar s (print_segments escape_dollar l') && segments_ok escape_dollar l' end.

Definition segment_value (s : Segment) : string := match s with Lit t => t | Plain n | Braced n => resolve n end.
Definition resolves (s : Segment) : bool :=
  match s with Lit _ => false | Plain n | Braced n => negb (bool_decide (resolve n = "")) end.

Lemma render_literal escape_dollar t next : segment_ok escape_dollar (Lit t) next = true ->
  render_template_with_count escape_dollar resolve (print_segment escape_dollar (Lit t) +:+ next) = (t +:+ (render_template_with_count escape_dollar resolve next).1, (render_template_with_count escape_dollar resolve next).2).
Proof.
  unfold segment_ok. induction t as [|a t IH]; [destruct escape_dollar; simpl; by destruct (render_template_with_count _ _ next)|]. intros Hok.
  assert ((if escape_dollar then negb (ends_with_backslash t && starts_with next "$") else negb (contains_char "$" t)) = true) as Hok'.
  { destruct escape_dollar; [destruct t; done|]. simpl in Hok. by bool_to_prop. }
  specialize (IH Hok'). destruct escape_dollar; cbn [print_segment escape_text] in IH |- *.
  - case_bool_decide as Ea; [subst|]; cbn [String.append]; rewrite render_unfold; cbn [andb].
    { rewrite bool_decide_true by done. cbn [strip_prefix]. rewrite bool_decide_true by done. by rewrite IH. }
    case_bool_decide as Eb; [subst|].
    + assert (strip_prefix "$" (escape_text t +:+ next) = None) as Hs; [|by rewrite Hs, IH].
      destruct t as [|b t].
      * destruct (starts_with next "$") eqn:E; [by cbn in Hok|]. unfold starts_with in E. cbn [escape_text String.append].
        destruct (strip_prefix "$" next); [|done]. by rewrite bool_decide_true in E.
      * cbn [escape_text]. case_bool_decide as Eb; [done|]. cbn [String.append strip_prefix]. by rewrite bool_decide_false.
    + rewrite bool_decide_false by done. cbn [negb]. cbv iota. by rewrite IH.
  - simpl in Hok. bool_to_prop. cbn [String.append]. rewrite render_unfold. cbn [andb].
    rewrite bool_decide_false by congruence. cbn [negb]. cbv iota. by rewrite IH.
Qed.

Lemma take_name_app n next : str_forall is_ident n = true -> starts_ident next = false -> take_name (n +:+ next) = (n, next).
Proof.
  intros Hn Hs. induction n as [|a n IH]; simpl in *.
  - destruct next as [|b next]; simpl in *; [done|]. by rewrite Hs.
  - apply andb_true_iff in Hn as [-> Hn]. by rewrite IH.
Qed.

Lemma render_name escape_dollar s n next : s = Plain n \/ s = Braced n -> segment_ok escape_dollar s next = true ->
  render_template_with_count escape_dollar resolve (print_segment escape_dollar s +:+ next) = (resolve n +:+ (render_template_with_count escape_dollar resolve next).1, (if resolves s then 1 else 0) + (render_template_with_count escape_dollar resolve next).2).
Proof.
  intros Hs Hok. assert (n <> "" /\ exists body, print_segment escape_dollar s +:+ next = String "$" body /\ placeholder body = (n, next))
    as (Hn & body & -> & Hp).
  { destruct Hs as [-> | ->]; simpl in Hok; bool_to_prop; (split; [done|]).
    - exists (n +:+ next). split; [done|]. destruct n as [|a n]; [done|]. unfold placeholder. cbn [String.append].
      rewrite bool_decide_false; [|intros ->; done]. by apply (take_name_app (String a n)).
    - exists (String "{" (n +:+ String "}" next)). split; [simpl; by rewrite str_app_assoc|]. simpl. unfold take_braced.
      by rewrite split_once_app. }
  rewrite render_unfold. rewrite andb_false_r. cbn [negb]. rewrite bool_decide_true by done. cbn [negb]. cbv iota.
  rewrite Hp, bool_decide_false by done. f_equal. f_equal. destruct Hs as [-> | ->]; simpl; by case_bool_decide.
Qed.

Lemma render_segments escape_dollar l : segments_ok escape_dollar l = true ->
  render_template_with_count escape_dollar resolve (print_segments escape_dollar l) = (String.concat "" (segment_value <$> l), Z.of_nat (length (List.filter resolves l))).
Proof.
  induction l as [|s l IH]; [done|]. cbn [segments_ok]. intros [Hs Hl]%andb_true_iff.
  change (print_segments escape_dollar (s :: l)) with (print_segment escape_dollar s +:+ print_segments escape_dollar l).
  assert (forall x, String.concat "" (x :: (segment_value <$> l)) = x +:+ String.concat "" (segment_value <$> l)) as Hc.
  { intros x. destruct l; simpl; [by rewrite str_app_nil_r|done]. }
  cbn [fmap list_fmap]. rewrite Hc. destruct s as [t|n|n].
  - rewrite render_literal, (IH Hl) by done. done.
  - rewrite (render_name _ _ n), (IH Hl) by (done || by left). cbn [fst snd List.filter]. destruct (resolves _); cbn [length]; f_equal; lia.
  - rewrite (render_name _ _ n), (IH Hl) by (done || by right). cbn [fst snd List.filter]. destruct (resolves _); cbn [length]; f_equal; lia.
Qed.

End template_lemmas.

(** ** Properties *)

(** A query parameter is removed.  When the rewrite succeeds the parameter
    cannot be looked up any more, every other named parameter keeps its first
    value, and path, method and headers are unchanged. *)
Theorem remove_query_spec `{HttpLaws} req name req' :
  starts_with (uri_path (uri req)) "/" = true -> remove_query_from_header req name = Ok req' ->
  get_query_value req' name = None /\ (forall m, m <> name -> m <> "" -> get_query_value req' m = get_query_value req m) /\
  uri_path (uri req') = uri_path (uri req) /\ headers req' = headers req /\ method req' = method req.
Proof.
  intros Hp Hr. destruct (query_rewritten _ _ _ Hp Hr) as (? & ? & ? & Hv). split_and!; try done.
  - rewrite Hv by (by left). by rewrite bool_decide_true.
  - intros m Hn Hm. rewrite Hv by (by right). by rewrite bool_decide_false.
Qed.

(** A cookie is removed.  When the rewrite succeeds the cookie cannot be
    looked up any more in any Cookie field, every other named cookie keeps its
    first value, and the other headers, the method and the URI are unchanged. *)
Theorem remove_cookie_spec `{HttpLaws} req name req' : remove_cookie_from_header req name = Ok req' ->
  get_cookie_value req' name = None /\ (forall m, m <> name -> m <> "" -> get_cookie_value req' m = get_cookie_value req m) /\
  (forall m, header_name m <> header_name cookie_header -> headers_get_all (headers req') m = headers_get_all (headers req) m) /\
  uri req' = uri req /\ method req' = method req.
Proof.
  intros Hr. destruct (cookie_rewritten _ _ _ Hr) as (? & ? & Hv & Hh). split_and!; try done.
  - rewrite Hv by (by left). by rewrite bool_decide_true.
  - intros m Hn Hm. rewrite Hv by (by right). by rewrite bool_decide_false.
Qed.

(** Templates substitute.  A template written as literals, [$name] and
    [${name}] renders to the literals and the resolved values in order, and
    reports how many values were not empty; with escaping on, any literal text
    can be written. *)
Theorem template_substitution escape_dollar resolve l :
  segments_ok escape_dollar l = true ->
  render_template_with_count escape_dollar resolve (print_segments escape_dollar l) =
  (String.concat "" (segment_value resolve <$> l), Z.of_nat (length (List.filter (resolves resolve) l))).
Proof. apply render_segments. Qed.

Lemma render_loop_nonempty escape_dollar resolve n s :
  0 <= (render_loop escape_dollar resolve n s).2 /\
  (0 < (render_loop escape_dollar resolve n s).2 -> (render_loop escape_dollar resolve n s).1 <> "").
Proof.
  revert s. induction n as [|n IH]; intros [|ch s]; cbn [render_loop]; try (simpl; lia).
  destruct (_ && _); [destruct (strip_prefix "$" s); simpl; split; try done; apply IH|].
  destruct (negb _); [simpl; split; [apply IH|done]|]. destruct (placeholder s) as [name rest].
  destruct (IH rest) as [H1 H2]. case_bool_decide; [simpl; split; [done|done]|]. simpl.
  case_bool_decide as E; [rewrite E; simpl; split; [lia|]; intros; apply H2; lia|].
  split; [lia|]. intros _. by destruct (resolve name).
Qed.

(** Limiter keys are never empty.  When the client's address is known,
    neither a missing variable nor an empty combination yields an empty key. *)
Theorem apisix_key_nonempty `{HttpTypes} session key var_combination :
  resolve_var session "remote_addr" <> "" -> apisix_key session key var_combination <> "".
Proof.
  intros Hr. unfold apisix_key. destruct var_combination; [|by case_bool_decide].
  unfold render_template_with_count. pose proof (render_loop_nonempty false (resolve_var session) (String.length key) key) as [_ Hn].
  destruct (render_loop _ _ _ _) as [rendered resolved]. destruct (Z.ltb_spec 0 resolved); [by apply Hn|done].
Qed.

(** ** An instance *)

Module ToyHttp.

(** A URI is its host, when it is absolute, and what follows it. *)
Definition before (c : ascii) (s : string) : string := match split_once c s with Some (l, _) => l | None => s end.
Definition path_of (s : string) : string := before "?" (before "#" s).
Definition query_of (s : string) : option string := snd <$> split_once "?" (before "#" s).

Lemma before_plain c s : contains_char c (before c s) = false.
Proof.
  unfold before. destruct (split_once c s) as [[l r]|] eqn:E; [by apply split_once_some in E as [? _]|by apply split_once_none].
Qed.

Lemma before_same c s : contains_char c s = false -> before c s = s.
Proof. unfold before. intros ->%split_once_none. done. Qed.

Lemma before_sub c d s : contains_char c s = false -> contains_char c (before d s) = false.
Proof.
  unfold before. destruct (split_once d s) as [[l r]|] eqn:E; [|done]. apply split_once_some in E as [_ ->].
  rewrite contains_char_app. by intros [? _]%orb_false_iff.
Qed.

#[export] Instance http : HttpTypes := {
  Uri := option string * string;
  uri_parse s := if starts_with s "/" then Ok (None, s) else Err "invalid uri character";
  uri_path u := path_of u.2;
  uri_query u := query_of u.2;
  uri_host u := u.1;
  uri_scheme u := None;
  uri_path_and_query u := Some (before "#" u.2);
  HeaderMap := list (string * string);
  headers_get_all h n := snd <$> List.filter (fun nv => bool_decide (nv.1 = n)) h;
  headers_remove h n := List.filter (fun nv => negb (bool_decide (nv.1 = n))) h;
  headers_append h n v := Ok (h ++ [(n, v)])%list;
  to_str v := if str_forall (between 32 126 ∘ byte_val) v then Some v else None;
  value_parse v := Ok v;
}.

#[export] Instance http_laws : HttpLaws.
Proof.
  refine {| header_name := fun s => s; visible := between 32 126 ∘ byte_val |}; try done.
  - by intros s v [= <-].
  - intros h n m. simpl. induction h as [|[k v] h IH]; simpl; [by case_bool_decide|].
    destruct (decide (k = n)) as [->|Hk].
    + rewrite (bool_decide_true (n = n)) by done. cbn [negb]. cbv iota. rewrite IH.
      case_bool_decide; [done|]. by rewrite bool_decide_false by congruence.
    + rewrite (bool_decide_false (k = n)) by done. cbn [negb]. cbv iota. cbn [List.filter fst].
      destruct (decide (k = m)) as [->|]; [rewrite !(bool_decide_true (m = m)) by done|rewrite !(bool_decide_false (k = m)) by done; done].
      cbn [fmap list_fmap snd]. rewrite IH. by rewrite !bool_decide_false by done.
  - intros h n v h' m [= <-]. simpl. rewrite List.filter_app, fmap_app. simpl.
    case_bool_decide; case_bool_decide; try congruence; [done|]. by rewrite app_nil_r.
  - intros u. simpl. unfold path_of. split; [apply before_plain|]. apply before_sub, before_plain.
  - intros u q. simpl. unfold query_of. destruct (split_once "?" _) as [[l r]|] eqn:E; [|done]. intros [= <-].
    apply split_once_some in E as [_ E]. pose proof (before_plain "#" u.2) as Hb. rewrite E, contains_char_app in Hb.
    simpl in Hb. by bool_to_prop.
  - intros p u. simpl. intros -> Hq Hh [= <-]. simpl. unfold path_of, query_of. rewrite (before_same "#" p) by done.
    split; [by apply before_same|]. by apply split_once_none in Hq as ->.
  - intros p q u. simpl. intros Hp Hq Hh Hqh. apply starts_with_spec in Hp as [r ->].
    change (("/" +:+ r) +:+ String "?" q) with ("/" +:+ (r +:+ String "?" q)). rewrite starts_with_app. intros [= <-]. simpl.
    unfold path_of, query_of. change (String "/" (r +:+ String "?" q)) with (("/" +:+ r) +:+ String "?" q).
    rewrite (before_same "#") by (rewrite contains_char_app; simpl in *; by rewrite Hh, Hqh).
    unfold before. by rewrite split_once_app.
Defined.

Definition header (u : Uri) (h : HeaderMap) : RequestHeader := {| method := "GET"; uri := u; headers := h |}.

Definition with_key : RequestHeader := header (None, "/a?x=1&key=secret& y = 2 &z&key=other") [("host", "h")].
Definition with_cookies : RequestHeader :=
  header (None, "/") [("cookie", "a=1; token=s; b"); ("host", "h"); ("cookie", "token=t")].

End ToyHttp.
Import ToyHttp.

Lemma remove_query_spec_witness : exists req',
  remove_query_from_header ToyHttp.with_key "key" = Ok req' /\ get_query_value req' "key" = None /\
  get_query_value req' "y" = Some "2" /\ uri req' = (None, "/a?x=1&y=2&z").
Proof.
  destruct (remove_query_from_header ToyHttp.with_key "key") as [req'|] eqn:E; [|vm_compute in E; done].
  destruct (remove_query_spec ToyHttp.with_key "key" req' eq_refl E) as (Hk & Ho & _).
  exists req'. split; [done|]. split; [exact Hk|]. rewrite Ho by done. split; [reflexivity|].
  vm_compute in E. injection E as <-. reflexivity.
Defined.

Lemma remove_cookie_spec_witness : exists req',
  remove_cookie_from_header ToyHttp.with_cookies "token" = Ok req' /\ get_cookie_value req' "token" = None /\
  get_cookie_value req' "a" = Some "1" /\ headers req' = [("host", "h"); ("cookie", "a=1; b")].
Proof.
  destruct (remove_cookie_from_header ToyHttp.with_cookies "token") as [req'|] eqn:E; [|vm_compute in E; done].
  destruct (remove_cookie_spec ToyHttp.with_cookies "token" req' E) as (Hk & Ho & _).
  exists req'. split; [done|]. split; [exact Hk|]. rewrite Ho by done. split; [reflexivity|].
  vm_compute in E. injection E as <-. reflexivity.
Defined.

Definition demo_segments : list Segment := [Lit "pay \$5: "; Braced "a"; Lit "-"; Plain "b_1"; Lit " end"].

Lemma template_substitution_witness :
  render_template_with_count true (fun n => if bool_decide (n = "a") then "A" else "") (print_segments true demo_segments) =
  ("pay \$5: A- end", 1).
Proof. rewrite template_substitution by (vm_compute; reflexivity). vm_compute. reflexivity. Defined.

Definition demo_session : Session :=
  {| req_header := ToyHttp.with_key; ssl_digest := false; client_ip := Some "10.0.0.1"; client_port := Some 1; server_addr := None |}.

Lemma apisix_key_nonempty_witness : apisix_key demo_session "$http_a-$http_b" true <> "".
Proof. apply apisix_key_nonempty. vm_compute. done. Defined.

(** Removing a parameter of an absolute URI drops its authority. *)
Example remove_query_drops_host :
  let req := ToyHttp.header (Some "a.test", "/p?key=1") [] in
  get_request_host req = Some "a.test" /\
  (exists req', remove_query_from_header req "key" = Ok req' /\ get_request_host req' = None).
Proof. split; [reflexivity|]. eexists. split; [vm_compute; reflexivity|]. vm_compute. reflexivity. Qed.
