(* ===== verification/Limiting.v ===== *)
(** * Shared parts of the limiter plugins ([src/src/plugins/limiting.rs])

    Backend and key vocabularies, rejections ([core/plugin/mod.rs]) and the
    selection of [rules] entries.  The bounded map is [Shards]. *)

From Stdlib Require Import ZArith Lia Ascii.
From stdpp Require Import base tactics strings option list.
From S2P Require Import Prelude Errors GraphStore RequestVars.

Open Scope Z_scope.

Definition LIMIT_REQ_OVERFLOW : string := "__pingsix_limit_req_overflow__".
Definition LIMIT_CONN_OVERFLOW : string := "__pingsix_limit_conn_overflow__".
Definition LIMIT_COUNT_OVERFLOW : string := "__pingsix_limit_count_overflow__".

(** ** Rejections *)

Record Rejection : Type := {
  status : Z;
  body : option string;
  content_type : option string;
  rejection_headers : list (string * string);
  close_connection : bool;
}.
#[export] Instance eta_Rejection : Eta Rejection := fun r =>
  Build_Rejection (status r) (body r) (content_type r) (rejection_headers r) (close_connection r).

Definition Rejection_new (status : Z) : Rejection :=
  {| status := status; body := None; content_type := None; rejection_headers := []; close_connection := false |}.
Definition with_body (b : string) (self : Rejection) : Rejection := self <| body := Some b |>.
Definition with_content_type (c : string) (self : Rejection) : Rejection := self <| content_type := Some c |>.
Definition with_headers (hs : list (string * string)) (self : Rejection) : Rejection :=
  self <| rejection_headers := (rejection_headers self ++ hs)%list |>.
Definition with_close_connection (self : Rejection) : Rejection := self <| close_connection := true |>.

Inductive FilterVerdict : Type := Continue | Reject (r : Rejection).

(** [rejection] *)
Definition rejection (status : Z) (body : option string) (extra_headers : list (string * string)) : Rejection :=
  let value := with_headers extra_headers (Rejection_new status) in
  match body with
  | Some b => with_content_type "text/plain" (with_body b value)
  | None => value
  end.

Record RejectPolicy : Type := { code : Z; msg : option string }.

(** [StatusCode::from_u16] takes three-digit codes. *)
Definition reject_status (self : RejectPolicy) : Z :=
  if (100 <=? code self) && (code self <=? 999) then code self else 503.
Definition policy_rejection (self : RejectPolicy) : Rejection := rejection (reject_status self) (msg self) [].

(** ** Vocabularies *)

Inductive Policy : Type := Local | Redis | RedisCluster.
Inductive CountPolicy : Type := CountLocal | CountRedis | CountRedisCluster | CountRedisSentinel.
Inductive KeyType : Type := Var | VarCombination.
Inductive CountKeyType : Type := CountVar | CountVarCombination | Constant | Head | Cookie.

Definition ensure_local (self : Policy) (plugin : string) : ProxyResult unit :=
  match self with
  | Local => Ok ()
  | _ => Err (Validation (plugin +:+ " policy 'redis'/'redis-cluster' requires a distributed backend; only 'local' is supported"))
  end.

Definition count_ensure_local (self : CountPolicy) (plugin : string) : ProxyResult unit :=
  match self with
  | CountLocal => Ok ()
  | _ => Err (Validation (plugin +:+ " policy 'redis'/'redis-cluster'/'redis-sentinel' requires a distributed backend; only 'local' is supported"))
  end.

Definition default_rejected_code : Z := 503.

(** The field validators, as acceptance. *)
Definition validate_key (key : string) : bool := negb (bool_decide (trim key = "")).
Definition validate_rejected_msg (msg : option string) : bool :=
  match msg with Some m => negb (bool_decide (m = "")) | None => true end.
Definition validate_rejected_code (code : Z) : bool := (200 <=? code) && (code <=? 599).

(** ** Rules *)

Section rules.
Context `{HttpTypes} {R S : Type}.

(** A template without a placeholder selects nothing. *)
Definition resolve_rule_key (session : Session) (rule_key : string) : option string :=
  if contains_char "$" rule_key then Some (render_apisix_request_template session rule_key) else None.

Fixpoint select_from (index : nat) (session : Session) (rules : list R) (rule_key : R -> string)
    (selection : nat -> R -> string -> S) : list S :=
  match rules with
  | [] => []
  | rule :: rules =>
    let rest := select_from (index + 1) session rules rule_key selection in
    match resolve_rule_key session (rule_key rule) with
    | Some key => selection index rule key :: rest
    | None => rest
    end
  end.

Definition select_rules (session : Session) (rules : list R) (rule_key : R -> string)
    (selection : nat -> R -> string -> S) : option (list S) :=
  match select_from 0 session rules rule_key selection with
  | [] => None
  | selected => Some selected
  end.

Lemma elem_of_select_from index session rules rule_key selection x :
  x ∈ select_from index session rules rule_key selection ->
  exists i rule key, rules !! i = Some rule /\ resolve_rule_key session (rule_key rule) = Some key /\
    x = selection (index + i)%nat rule key.
Proof.
  revert index. induction rules as [|rule rules IH]; intros index; simpl; [by intros ?%not_elem_of_nil|].
  assert (x ∈ select_from (index + 1) session rules rule_key selection -> exists i rule0 key, (rule :: rules) !! i = Some rule0 /\
    resolve_rule_key session (rule_key rule0) = Some key /\ x = selection (index + i)%nat rule0 key) as Hrest.
  { intros (i & r & key & Hi & Hk & ->)%IH. exists (Datatypes.S i), r, key. split_and!; try done. f_equal. lia. }
  destruct (resolve_rule_key session (rule_key rule)) as [key|] eqn:E; [|exact Hrest].
  intros [->|Hx]%elem_of_cons; [|auto]. exists 0%nat, rule, key. split_and!; try done. by rewrite Nat.add_0_r.
Qed.

(** The rules a request must satisfy are exactly those whose template has a
    placeholder; there are none only when no template has one. *)
Lemma select_rules_elem session rules rule_key selection l x :
  select_rules session rules rule_key selection = Some l -> x ∈ l ->
  exists i rule key, rules !! i = Some rule /\ resolve_rule_key session (rule_key rule) = Some key /\ x = selection i rule key.
Proof. unfold select_rules. case_match eqn:E; [done|]. intros [= <-]. rewrite <-E. apply elem_of_select_from. Qed.

Lemma select_rules_none session rules rule_key selection :
  select_rules session rules rule_key selection = None <-> Forall (fun r => contains_char "$" (rule_key r) = false) rules.
Proof.
  unfold select_rules. generalize 0%nat. induction rules as [|r rules IH]; intros n; simpl; [done|].
  unfold resolve_rule_key at 1. rewrite Forall_cons. destruct (contains_char "$" (rule_key r)); [by split; [|intros [? _]]|].
  rewrite (IH (n + 1)%nat). tauto.
Qed.

End rules.
