(* ===== verification/LimitConn.v ===== *)
(** * The concurrency limiter ([src/src/plugins/limit_conn.rs])

    Configuration, the decision function and the life of the requests that
    share the counters, as a step function over their interleavings. *)

From Stdlib Require Import ZArith Lia Ascii.
From stdpp Require Import base tactics gmap fin_maps strings pretty option list.
From S2P Require Import Prelude Errors Shards GraphStore RequestVars Limiting.

Open Scope Z_scope.

(** The code's [f64] delays: a type of numbers with the operations it uses. *)
Class Seconds (F : Type) : Type := {
  sec_positive : F -> bool;          (* finite and above zero *)
  sec_mul : F -> Z -> F;
  sec_mean : F -> F -> F;            (* (a + b) / 2 *)
  sec_fits : F -> bool;              (* Duration::from_secs_f64 holds it; it panics otherwise *)
}.

Section limit_conn.
Context {F : Type} `{Seconds F}.

Inductive Decision : Type := Pass | Delay (secs : F) | RejectRequest.

Record LimitSelection : Type := { key : string; conn : Z; burst : Z }.

(** [decide]; a zero [conn] divides by zero. *)
Definition decide_conn (count conn burst : Z) (unit_delay : F) : Result Decision (Stop ProxyError) :=
  if conn + burst <? count then Ok RejectRequest
  else if conn <? count then
    if conn =? 0 then Err (Panic "attempt to divide by zero")
    else Ok (Delay (sec_mul unit_delay ((count - 1) / conn)))
  else Ok Pass.

(** ** Configuration *)

Record ConnRule : Type := { rule_conn : Z; rule_burst : Z; rule_key : string }.

Record PluginConfig : Type := {
  conn_opt : option Z;
  burst_main : Z;
  default_conn_delay : F;
  only_use_default_delay : bool;
  key_type : KeyType;
  key_opt : option string;
  rules : list ConnRule;
  rejected_code : Z;
  rejected_msg : option string;
  allow_degradation : bool;
  policy : Policy;
}.

Definition validate_optional_conn (c : option Z) : bool := match c with Some c => 1 <=? c | None => true end.
Definition validate_optional_key (k : option string) : bool :=
  match k with Some k => negb (bool_decide (trim k = "")) | None => true end.
Definition validate_conn_rules (rules : list ConnRule) : bool :=
  forallb (fun r => (1 <=? rule_conn r) && (0 <=? rule_burst r) && validate_key (rule_key r)) rules.

Definition validate_limit_conn_shape (c : PluginConfig) : bool :=
  let main_configured := bool_decide (is_Some (conn_opt c)) || bool_decide (is_Some (key_opt c)) in
  let rules_configured := negb (bool_decide (rules c = [])) in
  negb (main_configured && rules_configured) && (main_configured || rules_configured) &&
  negb (main_configured && (negb (bool_decide (is_Some (conn_opt c))) || negb (bool_decide (is_Some (key_opt c))))).

Definition derived_ok (c : PluginConfig) : bool :=
  validate_optional_conn (conn_opt c) && (0 <=? burst_main c) && sec_positive (default_conn_delay c) &&
  validate_optional_key (key_opt c) && validate_conn_rules (rules c) && validate_rejected_code (rejected_code c) &&
  validate_rejected_msg (rejected_msg c) && validate_limit_conn_shape c.

(** From the deserialised value; [errors] renders the validator's errors. *)
Definition PluginConfig_try_from (errors : PluginConfig -> string) (c : PluginConfig) : ProxyResult PluginConfig :=
  if derived_ok c then
    let? _ := ensure_local (policy c) "limit-conn" in Ok c
  else Err (ValidationStructured (errors c)).

Definition select_limits `{HttpTypes} (c : PluginConfig) (session : Session) : option (list LimitSelection) :=
  if bool_decide (rules c = []) then
    match conn_opt c, key_opt c with
    | Some cn, Some k =>
      Some [{| key := apisix_key session k (match key_type c with VarCombination => true | Var => false end);
               conn := cn; burst := burst_main c |}]
    | _, _ => None
    end
  else select_rules session (rules c) rule_key
         (fun _ rule key => {| key := key; conn := rule_conn rule; burst := rule_burst rule |}).

(** ** Shared state

    A counter is an object: requests hold it after it left its shard. *)

Record ConnState : Type := { count : Z; unit_delay : F }.
#[export] Instance eta_ConnState : Eta ConnState := fun s => Build_ConnState (count s) (unit_delay s).

(** Where a request is in [request_filter]: about to take the next limit, with
    a counter it has not incremented, asleep in the burst range with a guard of
    its own, about to undo the increment of a rejection, admitted, giving its
    guards back, or unwinding from a panic. *)
Inductive Phase : Type :=
| Idle | Got (o : nat) | Sleeping (o : nat) | Rejecting (o : nat) | Served | Leaving | Panicked.

Record Request : Type := { todo : list LimitSelection; guards : list nat; phase : Phase }.

Record Limiter : Type := {
  shards : list (Shard nat);
  heap : gmap nat ConnState;
  requests : list Request;
}.
#[export] Instance eta_Limiter : Eta Limiter := fun w => Build_Limiter (shards w) (heap w) (requests w).

Context (hash : string -> Z) (config : PluginConfig).

Definition limiter_new : Limiter := {| shards := shard_map_new; heap := ∅; requests := [] |}.

Definition inactive (w : Limiter) (o : nat) : bool := match heap w !! o with Some s => count s =? 0 | None => true end.

(** [get_or_insert_counter], under the lock of the key's shard. *)
Definition get_or_insert_counter (k : string) (w : Limiter) : nat * Limiter :=
  let idx := shard_idx hash k in
  let '(slot, shard) := admit_key k LIMIT_CONN_OVERFLOW (sweep (inactive w) PushBack) (default Shard_default (shards w !! idx)) in
  match entries shard !! slot with
  | Some o => (o, w <| shards := <[idx := shard]> (shards w) |>)
  | None =>
    let o := fresh (dom (heap w)) in
    (o, w <| shards := <[idx := fill slot o shard]> (shards w) |>
          <| heap := <[o := {| count := 0; unit_delay := default_conn_delay config |}]> (heap w) |>)
  end.

Definition add_count (d : Z) (o : nat) (w : Limiter) : Limiter :=
  w <| heap := alter (fun s => s <| count := count s + d |>) o (heap w) |>.

Definition set_request (i : nat) (r : Request) (w : Limiter) : Limiter := w <| requests := <[i := r]> (requests w) |>.

Inductive Event : Type :=
| EvArrive (limits : list LimitSelection)
| EvLookup (i : nat)                      (* get_or_insert_counter *)
| EvCount (i : nat)                       (* fetch_add and decide *)
| EvWake (i : nat)                        (* the sleep ends *)
| EvUncount (i : nat)                     (* the fetch_sub of a rejection *)
| EvFinish (i : nat)                      (* logging, or cancellation at an await point *)
| EvRelease (i : nat) (latency : option F) (* ConnGuard::release of one guard *).

(** [fetch_add] with its decision on one counter. *)
Definition count_step (i : nat) (r : Request) (limit : LimitSelection) (rest : list LimitSelection) (o : nat) (w : Limiter) : Limiter :=
  let w := add_count 1 o w in
  match heap w !! o with
  | Some s =>
    match decide_conn (count s) (conn limit) (burst limit) (unit_delay s) with
    | Ok Pass => set_request i {| todo := rest; guards := guards r ++ [o]; phase := Idle |} w
    | Ok (Delay secs) =>
      (* the guard exists before the conversion, so unwinding drops it too *)
      if sec_fits secs then set_request i {| todo := rest; guards := guards r; phase := Sleeping o |} w
      else set_request i {| todo := rest; guards := o :: guards r; phase := Panicked |} w
    | Ok RejectRequest => set_request i {| todo := rest; guards := guards r; phase := Rejecting o |} w
    | Err _ => set_request i {| todo := rest; guards := guards r; phase := Panicked |} w
    end
  | None => w
  end.

Definition release_step (i : nat) (r : Request) (o : nat) (gs : list nat) (latency : option F) (w : Limiter) : Limiter :=
  let w := add_count (-1) o w in
  let w := match latency with
           | Some l => w <| heap := alter (fun s => s <| unit_delay := sec_mean l (unit_delay s) |>) o (heap w) |>
           | None => w
           end in
  set_request i {| todo := todo r; guards := gs; phase := phase r |} w.

Definition request_step (ev : Event) (i : nat) (r : Request) (w : Limiter) : Limiter :=
  match ev, phase r, todo r, guards r with
  | EvLookup _, Idle, limit :: _, _ =>
    let '(o, w) := get_or_insert_counter (key limit) w in
    set_request i {| todo := todo r; guards := guards r; phase := Got o |} w
  | EvLookup _, Idle, [], _ => set_request i {| todo := []; guards := guards r; phase := Served |} w
  | EvCount _, Got o, limit :: rest, _ => count_step i r limit rest o w
  | EvWake _, Sleeping o, _, _ => set_request i {| todo := todo r; guards := guards r ++ [o]; phase := Idle |} w
  | EvUncount _, Rejecting o, _, _ => set_request i {| todo := []; guards := guards r; phase := Leaving |} (add_count (-1) o w)
  | EvFinish _, Sleeping o, _, _ => set_request i {| todo := []; guards := o :: guards r; phase := Leaving |} w
  | EvFinish _, Idle, _, _ | EvFinish _, Served, _, _ => set_request i {| todo := []; guards := guards r; phase := Leaving |} w
  | EvRelease _ latency, Leaving, _, o :: gs => release_step i r o gs latency w
  | EvRelease _ _, Panicked, _, o :: gs => release_step i r o gs None w
  | _, _, _, _ => w
  end.

Definition step (ev : Event) (w : Limiter) : Limiter :=
  match ev with
  | EvArrive limits => w <| requests := (requests w ++ [{| todo := limits; guards := []; phase := Idle |}])%list |>
  | EvLookup i | EvCount i | EvWake i | EvUncount i | EvFinish i | EvRelease i _ =>
    match requests w !! i with Some r => request_step ev i r w | None => w end
  end.

Definition run (evs : list Event) : Limiter := fold_left (fun w ev => step ev w) evs limiter_new.

(** The verdict a request ends with. *)
Definition no_rules_verdict : FilterVerdict :=
  if allow_degradation config then Continue else Reject (rejection 500 (Some "failed to get limit conn rules") []).

End limit_conn.

Arguments Limiter : clear implicits.
Arguments PluginConfig : clear implicits.
Arguments ConnState : clear implicits.
Arguments Event : clear implicits.

(** ** Who holds a counter *)

Section proofs.
Context {F : Type} `{Seconds F} (hash : string -> Z) (config : PluginConfig F).

Definition occurrences (o : nat) (gs : list nat) : nat := length (filter (fun g => g = o) gs).

(** Increments of [o] that [r] has made and not undone. *)
Definition holders (o : nat) (r : Request) : nat :=
  (occurrences o (guards r) + match phase r with Sleeping o' | Rejecting o' => if decide (o' = o) then 1 else 0 | _ => 0 end)%nat.

(** Those that belong to a request that was let through. *)
Definition admitted (o : nat) (r : Request) : nat :=
  (occurrences o (guards r) + match phase r with Sleeping o' => if decide (o' = o) then 1 else 0 | _ => 0 end)%nat.

Definition held (f : Request -> nat) (w : Limiter F) : nat := sum_list_with f (requests w).

Lemma sum_insert (f : Request -> nat) (l : list Request) i r r' : l !! i = Some r ->
  (sum_list_with f (<[i := r']> l) + f r = sum_list_with f l + f r')%nat.
Proof.
  revert i. induction l as [|x l IH]; intros [|i]; simpl; try done; [intros [= ->]; lia|]. intros Hi%IH. lia.
Qed.

Lemma sum_elem (f : Request -> nat) (l : list Request) r : r ∈ l -> (f r <= sum_list_with f l)%nat.
Proof. induction 1; simpl; lia. Qed.

Lemma sum_zero (f : Request -> nat) (l : list Request) : (forall r, r ∈ l -> f r = 0%nat) -> sum_list_with f l = 0%nat.
Proof. induction l as [|r l IH]; intros Hf; simpl; [done|]. rewrite Hf, IH by (intros; apply Hf; by right) || by left. done. Qed.

Lemma occurrences_app o gs g : occurrences o (gs ++ [g]) = (occurrences o gs + if decide (g = o) then 1 else 0)%nat.
Proof. unfold occurrences. rewrite filter_app, length_app, filter_cons, filter_nil. by destruct (decide (g = o)). Qed.

Lemma occurrences_cons o gs g : occurrences o (g :: gs) = (occurrences o gs + if decide (g = o) then 1 else 0)%nat.
Proof. unfold occurrences. rewrite filter_cons. destruct (decide (g = o)); simpl; lia. Qed.

Context (limit : Z).

(** The counter in a slot of a shard. *)
Definition stored (w : Limiter F) (idx : nat) (slot : string) : option nat := shards w !! idx ≫= fun sh => entries sh !! slot.

Lemma stored_some w idx slot o : stored w idx slot = Some o <-> exists sh, shards w !! idx = Some sh /\ entries sh !! slot = Some o.
Proof. unfold stored. destruct (shards w !! idx); naive_solver. Qed.

(** Every request may take a counter up to [limit]. *)
Definition within (l : LimitSelection) : Prop := 1 <= conn l /\ 0 <= burst l /\ conn l + burst l <= limit.

Record inv (w : Limiter F) : Prop := {
  iv_count : forall o s, heap w !! o = Some s -> count s = Z.of_nat (held (holders o) w);
  iv_dom : forall r o, r ∈ requests w -> phase r = Got o \/ (0 < holders o r)%nat -> is_Some (heap w !! o);
  iv_shard : forall i sh k o, shards w !! i = Some sh -> entries sh !! k = Some o -> is_Some (heap w !! o);
  iv_todo : forall r l, r ∈ requests w -> l ∈ todo r -> within l;
  iv_len : length (shards w) = LIMIT_SHARDS;
  iv_separate : forall i k i' k' o, stored w i k = Some o -> stored w i' k' = Some o -> i = i' /\ k = k';
  iv_bound : forall o, Z.of_nat (held (admitted o) w) <= limit;
}.

(** One request moves and the counters follow it. *)
Lemma inv_move w w1 i r r' : inv w -> requests w !! i = Some r ->
  shards w1 = shards w -> requests w1 = requests w ->
  (forall o, heap w1 !! o = None <-> heap w !! o = None) ->
  (forall o s', heap w1 !! o = Some s' -> exists s, heap w !! o = Some s /\
     count s' + Z.of_nat (holders o r) = count s + Z.of_nat (holders o r')) ->
  (forall o, phase r' = Got o \/ (0 < holders o r')%nat -> is_Some (heap w !! o)) ->
  (forall l, l ∈ todo r' -> l ∈ todo r) ->
  (forall o, (admitted o r' <= admitted o r)%nat \/
     Z.of_nat (held (admitted o) w) + Z.of_nat (admitted o r') <= limit + Z.of_nat (admitted o r)) ->
  inv (set_request i r' w1).
Proof.
  intros [Hc Hd Hs Ht Hlen Hsep Hb] Hi Hsh Hrq Hnone Hcount Hdom Htodo Hadm.
  assert (forall x, x ∈ <[i := r']> (requests w) -> x = r' \/ x ∈ requests w) as Hin.
  { intros x [j Hj]%list_elem_of_lookup. destruct (decide (j = i)) as [->|].
    - rewrite list_lookup_insert_eq in Hj by (by eapply lookup_lt_Some). simplify_eq. by left.
    - rewrite list_lookup_insert_ne in Hj by done. right. by eapply list_elem_of_lookup_2. }
  assert (forall o, is_Some (heap w !! o) -> is_Some (heap w1 !! o)) as Hkeep.
  { intros o Ho. destruct (heap w1 !! o) eqn:E; [done|]. apply Hnone in E. rewrite E in Ho. by destruct Ho. }
  constructor; unfold held, set_request, stored; simpl; rewrite ?Hsh, ?Hrq.
  - intros o s' Ho. destruct (Hcount o s' Ho) as (s & Hos & E). specialize (Hc o s Hos). unfold held in Hc.
    pose proof (sum_insert (holders o) _ i r r' Hi). lia.
  - intros x o [->|Hx]%Hin Hxo; apply Hkeep; eauto.
  - intros j sh k o Hsj Hk. apply Hkeep. eauto.
  - intros x l [->|Hx]%Hin Hl; [|by eapply Ht]. eapply Ht; [by eapply list_elem_of_lookup_2|by apply Htodo].
  - done.
  - exact Hsep.
  - intros o. pose proof (sum_insert (admitted o) _ i r r' Hi). specialize (Hb o). unfold held in *. destruct (Hadm o); lia.
Qed.

Lemma add_count_none d o (w : Limiter F) o' : heap (add_count d o w) !! o' = None <-> heap w !! o' = None.
Proof. unfold add_count. simpl. destruct (decide (o = o')) as [->|]; simplify_map_eq; [|done]. by destruct (heap w !! o'). Qed.

Lemma add_count_some d o (w : Limiter F) o' s' : heap (add_count d o w) !! o' = Some s' ->
  exists s, heap w !! o' = Some s /\ count s' = count s + (if decide (o = o') then d else 0) /\ unit_delay s' = unit_delay s.
Proof.
  unfold add_count. simpl. case_decide as E; [subst|]; simplify_map_eq.
  - destruct (heap w !! o') as [s|]; [|done]. intros [= <-]. by exists s.
  - intros ->. exists s'. split_and!; [done|lia|done].
Qed.

(** What [get_or_insert_counter] does to the slots and the counters. *)
Record looked_up (k : string) (w : Limiter F) (o : nat) (w1 : Limiter F) (slot : string) : Prop := {
  lu_slot : slot = k \/ stored w (shard_idx hash k) k = None /\ slot = LIMIT_CONN_OVERFLOW;
  lu_known o' : stored w (shard_idx hash k) k = Some o' -> slot = k /\ o = o';
  lu_stored : stored w1 (shard_idx hash k) slot = Some o;
  lu_kept i s o' : stored w i s = Some o' -> stored w1 i s = Some o' \/ inactive w o' = true;
  lu_new i s o' : stored w1 i s = Some o' -> stored w i s = Some o' \/ i = shard_idx hash k /\ s = slot /\ o' = o /\ heap w !! o = None;
  lu_heap : heap w1 = heap w /\ stored w (shard_idx hash k) slot = Some o \/
    heap w !! o = None /\ heap w1 = <[o := {| count := 0; unit_delay := default_conn_delay config |}]> (heap w);
  lu_len : length (shards w1) = length (shards w);
  lu_requests : requests w1 = requests w;
}.

Lemma stored_insert (w : Limiter F) idx sh i s : (idx < length (shards w))%nat ->
  (<[idx := sh]> (shards w) !! i ≫= fun x => entries x !! s) = if decide (i = idx) then entries sh !! s else stored w i s.
Proof.
  intros Hlt. unfold stored. destruct (decide (i = idx)) as [->|]; [by rewrite list_lookup_insert_eq|by rewrite list_lookup_insert_ne].
Qed.

Lemma lookup_spec k (w : Limiter F) o w1 : length (shards w) = LIMIT_SHARDS -> get_or_insert_counter hash config k w = (o, w1) ->
  exists slot, looked_up k w o w1 slot.
Proof.
  intros Hlen. unfold get_or_insert_counter. cbv zeta. pose proof (shard_idx_lt hash k) as Hlt. rewrite <-Hlen in Hlt.
  set (idx := shard_idx hash k) in *. destruct (lookup_lt_is_Some_2 _ _ Hlt) as [sh Hsh]. rewrite Hsh. cbn [default from_option id].
  pose proof (admit_entries k LIMIT_CONN_OVERFLOW (inactive w) PushBack sh) as Hsub.
  destruct (admit_slot k LIMIT_CONN_OVERFLOW (inactive w) PushBack sh) as (Hslot & Hknown & Hlost).
  destruct (admit_key _ _ _ _) as [slot shard] eqn:Ea. simpl in Hsub, Hslot, Hknown, Hlost.
  assert (forall s, stored w idx s = entries sh !! s) as Hst by (intros s; unfold stored; by rewrite Hsh).
  assert (forall o2 w2 sh2, shards w2 = <[idx := sh2]> (shards w) -> requests w2 = requests w ->
    entries sh2 = <[slot := o2]> (entries shard) ->
    (entries shard !! slot = Some o2 /\ heap w2 = heap w) \/
    (entries shard !! slot = None /\ heap w !! o2 = None /\
     heap w2 = <[o2 := {| count := 0; unit_delay := default_conn_delay config |}]> (heap w)) ->
    looked_up k w o2 w2 slot) as Hgen.
  { intros o2 w2 sh2 Hs2 Hr2 He2 Hcase. assert (forall i s, stored w2 i s = if decide (i = idx) then entries sh2 !! s else stored w i s) as Hst2.
    { intros i s. unfold stored at 1. rewrite Hs2. by apply stored_insert. }
    constructor; fold idx; rewrite ?Hst; try done.
    - intros o1 Hk. destruct (Hknown ltac:(by eexists)) as [-> E]. rewrite E in Hcase. destruct Hcase as [[? _]|[? _]]; split; congruence.
    - by rewrite Hst2, decide_True, He2, lookup_insert_eq.
    - intros i s o1 Hs. rewrite Hst2. case_decide; [subst i|by left]. rewrite Hst in Hs. destruct (Hlost _ _ Hs) as [Hl|]; [left|by right].
      rewrite He2. destruct (decide (s = slot)) as [->|]; [|by rewrite lookup_insert_ne]. rewrite lookup_insert_eq.
      destruct Hcase as [[? _]|[? _]]; congruence.
    - intros i s o1. rewrite Hst2. case_decide; [subst i|by left]. rewrite He2, Hst. destruct (decide (s = slot)) as [->|].
      + rewrite lookup_insert_eq. intros [= <-]. destruct Hcase as [[Hc _]|(_ & ? & _)]; [left; by eapply lookup_weaken|by right].
      + rewrite lookup_insert_ne by done. intros Hs. left. by eapply lookup_weaken.
    - destruct Hcase as [[Hc ?]|(_ & ? & ?)]; [left|by right]. split; [done|by eapply lookup_weaken].
    - by rewrite Hs2, length_insert. }
  destruct (entries shard !! slot) as [o'|] eqn:Eo; intros [= <- <-]; exists slot; eapply Hgen; try done.
  - by rewrite insert_id.
  - by left.
  - right. split_and!; [done|apply not_elem_of_dom, is_fresh|done].
Qed.

Lemma lookup_inv k (w : Limiter F) o w1 : inv w -> get_or_insert_counter hash config k w = (o, w1) ->
  inv w1 /\ requests w1 = requests w /\ is_Some (heap w1 !! o).
Proof.
  intros [Hc Hd Hs Ht Hlen Hsep Hb] E. destruct (lookup_spec k w o w1 Hlen E) as [slot [_ _ Hst _ Hnew Hheap Hln Hrq]].
  assert (forall i s o', stored w i s = Some o' -> is_Some (heap w !! o')) as Hsd.
  { intros i s o' (sh & ? & ?)%stored_some. by eapply Hs. }
  assert (forall o', is_Some (heap w !! o') -> is_Some (heap w1 !! o')) as Hkeep.
  { intros o' [x Hx]. destruct Hheap as [[-> _]|[Hn ->]]; [by eexists|]. rewrite lookup_insert_ne by congruence. by eexists. }
  assert (is_Some (heap w1 !! o)) as Ho.
  { destruct Hheap as [[-> Hsl]|[_ ->]]; [by eapply Hsd|by rewrite lookup_insert_eq]. }
  split_and!; [|done|done]. constructor; unfold held; rewrite ?Hrq; try done.
  - intros o' s. destruct Hheap as [[-> _]|[Hn ->]]; [by apply Hc|]. destruct (decide (o' = o)) as [->|]; simplify_map_eq; [|by apply Hc].
    intros [= <-]. simpl. rewrite sum_zero; [done|]. intros r Hr. destruct (decide (0 < holders o r)%nat) as [Hpos|]; [|lia].
    destruct (Hd r o Hr (or_intror Hpos)) as [s Hss]. congruence.
  - intros r o' Hr Hx. apply Hkeep. by eapply Hd.
  - intros i sh s o' Hi Hk. assert (stored w1 i s = Some o') as [Hx|(_ & _ & -> & _)]%Hnew by (apply stored_some; eauto); [|done].
    apply Hkeep. by eapply Hsd.
  - congruence.
  - intros i s i' s' o' [H1|(-> & -> & -> & H1)]%Hnew [H2|(-> & -> & E2 & H2)]%Hnew; [by eapply Hsep| | |done].
    + subst o'. apply Hsd in H1. rewrite H2 in H1. by destruct H1.
    + apply Hsd in H2. rewrite H1 in H2. by destruct H2.
Qed.

Lemma admitted_holders o r : (admitted o r <= holders o r)%nat.
Proof. unfold admitted, holders. destruct (phase r); lia. Qed.

Lemma held_admitted o (w : Limiter F) : (held (admitted o) w <= held (holders o) w)%nat.
Proof. unfold held. induction (requests w) as [|r l IH]; simpl; [lia|]. pose proof (admitted_holders o r). lia. Qed.

(** A move that adds [d] to the counter [o]; [w1] may change its delay. *)
Lemma inv_add d o w w1 i r r' : inv w -> requests w !! i = Some r ->
  shards w1 = shards w -> requests w1 = requests w ->
  (forall o', heap w1 !! o' = None <-> heap w !! o' = None) ->
  (forall o' s', heap w1 !! o' = Some s' -> exists s, heap w !! o' = Some s /\ count s' = count s + (if decide (o = o') then d else 0)) ->
  (forall o', Z.of_nat (holders o' r') = Z.of_nat (holders o' r) + (if decide (o = o') then d else 0)) ->
  (forall o', phase r' = Got o' -> is_Some (heap w !! o')) -> (0 < d -> is_Some (heap w !! o)) ->
  (forall l, l ∈ todo r' -> l ∈ todo r) ->
  (forall o', (admitted o' r' <= admitted o' r)%nat \/
     Z.of_nat (held (admitted o') w) + Z.of_nat (admitted o' r') <= limit + Z.of_nat (admitted o' r)) ->
  inv (set_request i r' w1).
Proof.
  intros Hinv Hi Hsh Hrq Hnone Hcount Hh Hgot Hd Htodo Hadm.
  apply (inv_move w w1 i r r'); try done.
  - intros o' s' Ho'. destruct (Hcount o' s' Ho') as (s & Hs & E). exists s. split; [done|]. specialize (Hh o'). lia.
  - intros o' [Hg|Hp]; [by apply Hgot|]. specialize (Hh o'). destruct (decide (o = o')) as [<-|].
    + destruct (decide (0 < d)); [auto|]. eapply (iv_dom w Hinv r); [by eapply list_elem_of_lookup_2|right; lia].
    + eapply (iv_dom w Hinv r); [by eapply list_elem_of_lookup_2|right; lia].
Qed.

(** The same without a change of the counters. *)
Lemma inv_stay w i r r' : inv w -> requests w !! i = Some r ->
  (forall o, holders o r' = holders o r) -> (forall o, phase r' = Got o -> is_Some (heap w !! o)) ->
  (forall l, l ∈ todo r' -> l ∈ todo r) -> (forall o, (admitted o r' <= admitted o r)%nat) ->
  inv (set_request i r' w).
Proof.
  intros Hinv Hi Hh Hg Ht Ha. apply (inv_add 0 0%nat w w i r r'); try done.
  - intros o' s' ->. exists s'. split; [done|]. destruct (decide _); lia.
  - intros o'. rewrite Hh. destruct (decide _); lia.
  - intros o'. left. apply Ha.
Qed.

Lemma count_step_inv i r l rest o w : inv w -> requests w !! i = Some r -> phase r = Got o -> todo r = l :: rest ->
  inv (count_step i r l rest o w).
Proof.
  intros Hinv Hi Hph Htodo. assert (r ∈ requests w) as Hr by (by eapply list_elem_of_lookup_2).
  destruct (iv_dom w Hinv r o Hr (or_introl Hph)) as [s0 Hs0].
  destruct (iv_todo w Hinv r l Hr) as (Hc1 & Hb0 & Hl); [rewrite Htodo; by left|].
  pose proof (iv_count w Hinv o s0 Hs0) as Hcnt. pose proof (held_admitted o w) as Hle.
  unfold count_step. cbv zeta. destruct (heap (add_count 1 o w) !! o) as [s|] eqn:Es; [|by apply add_count_none in Es; congruence].
  destruct (add_count_some _ _ _ _ _ Es) as (s0' & Hs0' & Ec & _). rewrite decide_True in Ec by done.
  assert (s0' = s0) as -> by congruence. unfold decide_conn.
  assert (forall r', (forall o', holders o' r' = occurrences o' (guards r) + if decide (o = o') then 1 else 0)%nat ->
    (count s <= limit \/ forall o', (admitted o' r' <= occurrences o' (guards r))%nat) ->
    (forall o', phase r' <> Got o') -> todo r' = rest -> inv (set_request i r' (add_count 1 o w))) as Hmove.
  { intros r' Hh Hlim Hg Htd. apply (inv_add 1 o w _ i r r'); try done.
    - intros o'. apply add_count_none.
    - intros o' s' Hs'. destruct (add_count_some _ _ _ _ _ Hs') as (s1 & ? & ? & _). eauto.
    - intros o'. rewrite Hh. unfold holders. rewrite Hph. destruct (decide (o = o')); lia.
    - intros o' Hgo. by destruct (Hg o').
    - intros l'. rewrite Htd, Htodo. by right.
    - intros o'. assert (admitted o' r = occurrences o' (guards r)) as -> by (unfold admitted; rewrite Hph; lia).
      destruct Hlim as [Hlim|Hlim]; [|by left]. pose proof (admitted_holders o' r') as Ha. rewrite Hh in Ha.
      destruct (decide (o = o')) as [<-|]; [right; lia|left; lia]. }
  assert (forall g gs o', occurrences o' (g :: gs) = occurrences o' gs + if decide (g = o') then 1 else 0)%nat as Hcons
    by (intros; apply occurrences_cons).
  destruct (Z.ltb_spec (conn l + burst l) (count s)); [|destruct (Z.ltb_spec (conn l) (count s)); [|]].
  - apply Hmove; try done. right. intros o'. unfold admitted. simpl. lia.
  - destruct (Z.eqb_spec (conn l) 0); [lia|]. destruct (sec_fits _); (apply Hmove; [|left; lia|done|done]).
    + done.
    + intros o'. unfold holders. simpl. rewrite Hcons. lia.
  - apply Hmove; [|left; lia|done|done]. intros o'. unfold holders. simpl. rewrite occurrences_app. lia.
Qed.

Lemma release_step_inv i r o gs latency w : inv w -> requests w !! i = Some r -> phase r = Leaving \/ phase r = Panicked -> guards r = o :: gs ->
  inv (release_step i r o gs latency w).
Proof.
  intros Hinv Hi Hph Hg. unfold release_step. cbv zeta.
  apply (inv_add (-1) o w _ i r); try done; simpl.
  - by destruct latency.
  - by destruct latency.
  - intros o'. etrans; [|exact (add_count_none (-1) o w o')]. destruct latency; [|reflexivity]. simpl.
    destruct (decide (o = o')) as [<-|]; simplify_map_eq; [|done]. by destruct (heap w !! o).
  - intros o' s'. destruct latency as [lat|].
    + cbn [heap update_field]. simpl. destruct (decide (o = o')) as [<-|]; simplify_map_eq.
      * destruct (heap w !! o) as [s|]; [|done]. intros [= <-]. exists s. split; [done|]. simpl. repeat case_decide; done.
      * intros ->. exists s'. split; [done|]. repeat case_decide; done || lia.
    + intros Hs'. destruct (add_count_some _ _ _ _ _ Hs') as (s & ? & ? & _). eauto.
  - intros o'. unfold holders. simpl. rewrite Hg, occurrences_cons. destruct Hph as [-> | ->], (decide (o = o')); lia.
  - simpl. by destruct Hph as [-> | ->].
  - intros o'. left. unfold admitted. simpl. rewrite Hg, occurrences_cons. lia.
Qed.

Lemma request_step_inv ev i r w : inv w -> requests w !! i = Some r -> inv (request_step hash config ev i r w).
Proof.
  intros Hinv Hi. assert (r ∈ requests w) as Hr by (by eapply list_elem_of_lookup_2).
  pose proof (fun o H => iv_dom w Hinv r o Hr (or_intror H)) as Hdom.
  unfold request_step. destruct ev; destruct (phase r) as [|o|o|o| | |] eqn:Hph; try done.
  - destruct (todo r) as [|l rest] eqn:Ht.
    + apply (inv_stay w i r); try done; simpl; [intros o; unfold holders; by rewrite Hph|intros l Hl; by apply not_elem_of_nil in Hl|].
      intros o. unfold admitted. rewrite Hph. simpl. lia.
    + destruct (get_or_insert_counter hash config (key l) w) as [o w1] eqn:E.
      destruct (lookup_inv _ _ _ _ Hinv E) as (Hinv1 & Hrq & Ho). rewrite <-Hrq in Hi.
      apply (inv_stay w1 i r); try done; simpl; [intros o'; unfold holders; by rewrite Hph|by intros o' [= <-]|by rewrite Ht|].
      intros o'. unfold admitted. rewrite Hph. simpl. lia.
  - destruct (todo r) as [|l rest] eqn:Ht; [done|]. by apply count_step_inv.
  - apply (inv_stay w i r); try done; simpl; intros o'; unfold holders, admitted; simpl; rewrite Hph, occurrences_app; destruct (decide _); lia.
  - apply (inv_add (-1) o w _ i r); try done; simpl.
    + intros o'. exact (add_count_none (-1) o w o').
    + intros o' s' Hs'. destruct (add_count_some (-1) o w o' s' Hs') as (s & ? & ? & _). eauto.
    + intros o'. unfold holders. rewrite Hph. simpl. destruct (decide _); lia.
    + intros l Hl. by apply not_elem_of_nil in Hl.
    + intros o'. left. unfold admitted. rewrite Hph. done.
  - apply (inv_stay w i r); try done; simpl; [intros o'; unfold holders; by rewrite Hph|intros l Hl; by apply not_elem_of_nil in Hl|].
    intros o'. unfold admitted. rewrite Hph. simpl. lia.
  - apply (inv_stay w i r); try done; simpl; [|intros l Hl; by apply not_elem_of_nil in Hl|];
      intros o'; unfold holders, admitted; simpl; rewrite Hph, occurrences_cons; destruct (decide _); lia.
  - apply (inv_stay w i r); try done; simpl; [intros o'; unfold holders; by rewrite Hph|intros l Hl; by apply not_elem_of_nil in Hl|].
    intros o'. unfold admitted. rewrite Hph. simpl. lia.
  - destruct (guards r) as [|o gs] eqn:Hg; [done|]. apply release_step_inv; auto.
  - destruct (guards r) as [|o gs] eqn:Hg; [done|]. apply release_step_inv; auto.
Qed.

Definition arrives_within (ev : Event F) : Prop := match ev with EvArrive ls => Forall within ls | _ => True end.

Lemma limiter_step_inv ev w : inv w -> arrives_within ev -> inv (step hash config ev w).
Proof.
  intros Hinv Hev. destruct ev as [limits|i|i|i|i|i|i lat]; [|cbn [step]; destruct (requests w !! i) eqn:E; [by apply request_step_inv|done]..].
  destruct Hinv as [Hc Hd Hs Ht Hlen Hsep Hb]. simpl in Hev.
  assert (forall f : Request -> nat, f {| todo := limits; guards := []; phase := Idle |} = 0%nat ->
    held f (step hash config (EvArrive limits) w) = held f w) as Hsum.
  { intros f Hf. unfold held. simpl. rewrite sum_list_with_app. simpl. rewrite Hf. lia. }
  constructor.
  - intros o s Ho. rewrite Hsum by done. by apply Hc.
  - intros r o [Hr|[->|?%not_elem_of_nil]%elem_of_cons]%elem_of_app; [by apply Hd| |done]. intros [?|Hx]; [done|]. unfold holders, occurrences in Hx. simpl in Hx. lia.
  - done.
  - intros r l [Hr|[->|?%not_elem_of_nil]%elem_of_cons]%elem_of_app; [by eapply Ht| |done]. simpl. rewrite Forall_forall in Hev. auto.
  - done.
  - exact Hsep.
  - intros o. rewrite Hsum by done. apply Hb.
Qed.

(** ** Single steps *)

(** What the [n]-th holder of a counter meets under limit [l] and delay [d]. *)
Definition verdict (n : Z) (l : LimitSelection) (d : F) (o : nat) : Phase :=
  if conn l + burst l <? n then Rejecting o
  else if conn l <? n then if sec_fits (sec_mul d ((n - 1) / conn l)) then Sleeping o else Panicked
  else Idle.

Lemma set_request_at i r r' (w : Limiter F) : requests w !! i = Some r -> requests (set_request i r' w) !! i = Some r'.
Proof. intros Hi. unfold set_request. simpl. apply list_lookup_insert_eq. by eapply lookup_lt_Some. Qed.

Lemma count_verdict i r l rest o s w : inv w -> requests w !! i = Some r -> phase r = Got o -> todo r = l :: rest -> heap w !! o = Some s ->
  phase <$> requests (step hash config (EvCount i) w) !! i = Some (verdict (Z.of_nat (held (holders o) w) + 1) l (unit_delay s) o).
Proof.
  intros Hinv Hi Hph Ht Hs. cbn [step]. rewrite Hi. unfold request_step. rewrite Hph, Ht. unfold count_step. cbv zeta.
  unfold add_count. cbn [heap update_field]. simpl. rewrite lookup_alter_eq, Hs. simpl.
  destruct (iv_todo w Hinv r l) as (Hc & _ & _); [by eapply list_elem_of_lookup_2|rewrite Ht; by left|].
  rewrite (iv_count w Hinv o s Hs). unfold decide_conn, verdict. set (n := Z.of_nat _ + 1).
  destruct (conn l + burst l <? n); [by erewrite set_request_at|]. destruct (conn l <? n); [|by erewrite set_request_at].
  destruct (Z.eqb_spec (conn l) 0); [lia|]. destruct (sec_fits _); by erewrite set_request_at.
Qed.

Lemma lookup_counter i r l rest w : inv w -> requests w !! i = Some r -> phase r = Idle -> todo r = l :: rest ->
  let w' := step hash config (EvLookup i) w in
  exists o slot, phase <$> requests w' !! i = Some (Got o) /\ stored w' (shard_idx hash (key l)) slot = Some o /\
    (slot = key l \/ slot = LIMIT_CONN_OVERFLOW /\ stored w (shard_idx hash (key l)) (key l) = None) /\
    (forall o', stored w (shard_idx hash (key l)) (key l) = Some o' -> o = o').
Proof.
  intros Hinv Hi Hph Ht. cbn [step]. rewrite Hi. unfold request_step. rewrite Hph, Ht.
  destruct (get_or_insert_counter hash config (key l) w) as [o w1] eqn:E.
  destruct (lookup_spec _ _ _ _ (iv_len w Hinv) E) as [slot [Hsl Hkn Hst _ _ _ _ Hrq]].
  exists o, slot. split; [erewrite set_request_at; [done|by rewrite Hrq]|]. split; [done|]. split; [tauto|]. intros o' Ho. by destruct (Hkn o' Ho).
Qed.

Lemma request_step_shards ev i r (w : Limiter F) : (forall j, ev <> EvLookup j) ->
  shards (request_step hash config ev i r w) = shards w.
Proof.
  intros Hev. destruct ev; try (by edestruct Hev); simpl; destruct (phase r); try done.
  - destruct (todo r); [done|]. unfold count_step. cbv zeta. destruct (heap _ !! _); [|done].
    destruct (decide_conn _ _ _ _) as [[]|]; try done. by destruct (sec_fits _).
  - destruct (guards r); [done|]. unfold release_step. by destruct latency.
  - by destruct (guards r).
Qed.

(** A counter that some request holds stays in its slot. *)
Lemma held_counter_stays ev w idx slot o : inv w -> stored w idx slot = Some o -> (0 < held (holders o) w)%nat ->
  stored (step hash config ev w) idx slot = Some o.
Proof.
  intros Hinv Hst Hheld. destruct ev as [limits|i|i|i|i|i|i lat]; [done|..]; cbn [step]; destruct (requests w !! i) as [r|]; try done;
    [|unfold stored; by rewrite request_step_shards..].
  unfold request_step. destruct (phase r); try done. destruct (todo r) as [|l rest]; [done|].
  destruct (get_or_insert_counter hash config (key l) w) as [o1 w1] eqn:E.
  destruct (lookup_spec _ _ _ _ (iv_len w Hinv) E) as [sl [_ _ _ Hkept _ _ _ _]].
  destruct (Hkept _ _ _ Hst) as [?|Hina]; [done|]. exfalso. apply stored_some in Hst as (sh & Hi & Hk).
  destruct (iv_shard w Hinv _ _ _ _ Hi Hk) as [s Hs]. unfold inactive in Hina. rewrite Hs in Hina.
  rewrite (iv_count w Hinv o s Hs) in Hina. apply Z.eqb_eq in Hina. lia.
Qed.

(** Only the count step of a request panics it. *)
Lemma panics_counting ev i (w : Limiter F) : inv w -> phase <$> requests (step hash config ev w) !! i = Some Panicked ->
  phase <$> requests w !! i = Some Panicked \/ ev = EvCount i.
Proof.
  intros Hinv.
  assert (forall j r r' (w1 : Limiter F), requests w !! j = Some r -> requests w1 = requests w -> (phase r' = Panicked -> phase r = Panicked \/ i = j /\ ev = EvCount j) ->
    phase <$> requests (set_request j r' w1) !! i = Some Panicked -> phase <$> requests w !! i = Some Panicked \/ ev = EvCount i) as Hset.
  { intros j r r' w1 Hj Hrq Hp. unfold set_request. simpl. rewrite Hrq. destruct (decide (i = j)) as [<-|].
    - rewrite list_lookup_insert_eq by (by eapply lookup_lt_Some). rewrite Hj. simpl. intros [= Hr]. destruct (Hp Hr) as [->|[_ ->]]; auto.
    - rewrite list_lookup_insert_ne by done. auto. }
  destruct ev as [limits|j|j|j|j|j|j lat].
  4-6: cbn [step]; destruct (requests w !! j) as [r|] eqn:Hj; [|auto]; unfold request_step; destruct (phase r) eqn:Hph; auto; by eapply Hset.
  - cbn [step]. simpl. destruct (decide (i < length (requests w))%nat); [rewrite lookup_app_l by done; auto|].
    rewrite lookup_app_r by lia. by destruct (i - length (requests w))%nat.
  - cbn [step]. destruct (requests w !! j) as [r|] eqn:Hj; [|auto]. unfold request_step. destruct (phase r) eqn:Hph; auto.
    destruct (todo r) as [|l rest]; [by eapply Hset|]. destruct (get_or_insert_counter hash config (key l) w) as [o1 w1] eqn:E.
    destruct (lookup_spec _ _ _ _ (iv_len w Hinv) E) as [sl [_ _ _ _ _ _ _ Hrq]]. by eapply Hset.
  - destruct (decide (i = j)) as [->|]; [auto|]. cbn [step]. destruct (requests w !! j) as [r|] eqn:Hj; [|auto].
    unfold request_step. destruct (phase r) eqn:Hph; auto. destruct (todo r); [auto|]. unfold count_step. cbv zeta.
    destruct (heap _ !! _); [|auto]. intros Hx. left. revert Hx.
    destruct (decide_conn _ _ _ _) as [[]|]; [|destruct (sec_fits _)|..]; simpl; by rewrite list_lookup_insert_ne.
  - cbn [step]. destruct (requests w !! j) as [r|] eqn:Hj; [|auto]. unfold request_step.
    destruct (phase r) eqn:Hph; auto; (destruct (guards r); [auto|]); unfold release_step; cbv zeta; (eapply Hset; [done|by destruct lat|rewrite Hph; by auto]).
Qed.

Lemma run_inv evs : 0 <= limit -> Forall arrives_within evs -> inv (run hash config evs).
Proof.
  intros Hl Hevs. unfold run. assert (inv limiter_new) as Hnew.
  { constructor; unfold held; simpl; try done.
    - intros r o Hr. by apply not_elem_of_nil in Hr.
    - intros i sh k o Hi. unfold shard_map_new in Hi. apply lookup_replicate in Hi as [-> _]. simpl. by rewrite lookup_empty.
    - intros r l Hr. by apply not_elem_of_nil in Hr.
    - intros i k i' k' o (sh & Hi & Hk)%stored_some. apply lookup_replicate in Hi as [-> _]. simpl in Hk. by rewrite lookup_empty in Hk. }
  revert Hnew. generalize (limiter_new : Limiter F). induction Hevs as [|ev evs Hev _ IH]; intros w Hw; [done|].
  apply IH. by apply limiter_step_inv.
Qed.

End proofs.

(** ** Properties *)

(** The largest number of requests a configuration lets a counter hold. *)
Definition config_limit {F} (c : PluginConfig F) : Z :=
  fold_right Z.max (match conn_opt c with Some n => n + burst_main c | None => 0 end)
    ((fun r => rule_conn r + rule_burst r) <$> rules c).

Lemma config_limit_rule {F} (c : PluginConfig F) r : r ∈ rules c -> rule_conn r + rule_burst r <= config_limit c.
Proof.
  unfold config_limit. induction (rules c) as [|x l IH]; [by intros ?%not_elem_of_nil|].
  intros [->|Hr]%elem_of_cons; simpl; [lia|]. specialize (IH Hr). unfold fmap in IH. lia.
Qed.

Lemma select_limits_within `{Seconds F} `{HttpTypes} errors (c : PluginConfig F) session ls :
  PluginConfig_try_from errors c = Ok c -> select_limits c session = Some ls -> Forall (within (config_limit c)) ls.
Proof.
  unfold PluginConfig_try_from. destruct (derived_ok c) eqn:Hok; [intros _|done]. unfold derived_ok in Hok. bool_to_prop.
  unfold select_limits. case_bool_decide as Er.
  - unfold config_limit. rewrite Er. destruct (conn_opt c) as [n|] eqn:En; [|done]. destruct (key_opt c); [|done].
    intros [= <-]. apply Forall_singleton. unfold within. simpl in *. lia.
  - intros Hsel. apply Forall_forall. intros x Hx.
    destruct (select_rules_elem _ _ _ _ _ _ Hsel Hx) as (i & r & k & Hi & _ & ->).
    assert (r ∈ rules c) as Hr by (by eapply list_elem_of_lookup_2). pose proof (config_limit_rule c r Hr) as Hl.
    unfold validate_conn_rules in *.
    match goal with Hv : forallb _ (rules c) = true |- _ => rewrite forallb_forall in Hv; specialize (Hv r ltac:(by apply list_elem_of_In)) end.
    bool_to_prop. unfold within. simpl. lia.
Qed.

Lemma config_limit_nonneg `{Seconds F} errors (c : PluginConfig F) : PluginConfig_try_from errors c = Ok c -> 0 <= config_limit c.
Proof.
  unfold PluginConfig_try_from. destruct (derived_ok c) eqn:Hok; [intros _|done]. unfold derived_ok in Hok. bool_to_prop.
  unfold config_limit. assert (0 <= match conn_opt c with Some n => n + burst_main c | None => 0 end) as Hm.
  { destruct (conn_opt c); simpl in *; lia. }
  induction (fmap _ (rules c)) as [|x l IH]; simpl; lia.
Qed.

(** What a limiter guarantees in a state [w]. *)
Record limits_concurrency `{Seconds F} (hash : string -> Z) (c : PluginConfig F) (w : Limiter F) : Prop := {
  (* a counter is the number of requests that hold it *)
  lc_exact o s : heap w !! o = Some s -> count s = Z.of_nat (held (holders o) w);
  lc_bound o : Z.of_nat (held (admitted o) w) <= config_limit c;
  (* each request is judged by the limit it came with *)
  lc_verdict i r l rest o s : requests w !! i = Some r -> phase r = Got o -> todo r = l :: rest -> heap w !! o = Some s ->
    phase <$> requests (step hash c (EvCount i) w) !! i = Some (verdict (Z.of_nat (held (holders o) w) + 1) l (unit_delay s) o);
  (* a key has one counter, in its own slot or the overflow slot of its shard *)
  lc_counter i r l rest : requests w !! i = Some r -> phase r = Idle -> todo r = l :: rest ->
    exists o slot, phase <$> requests (step hash c (EvLookup i) w) !! i = Some (Got o) /\
      stored (step hash c (EvLookup i) w) (shard_idx hash (key l)) slot = Some o /\
      (slot = key l \/ slot = LIMIT_CONN_OVERFLOW /\ stored w (shard_idx hash (key l)) (key l) = None) /\
      (forall o', stored w (shard_idx hash (key l)) (key l) = Some o' -> o = o');
  lc_kept ev idx slot o : stored w idx slot = Some o -> (0 < held (holders o) w)%nat -> stored (step hash c ev w) idx slot = Some o;
  lc_separate idx slot idx' slot' o : stored w idx slot = Some o -> stored w idx' slot' = Some o -> idx = idx' /\ slot = slot';
  (* only a count step panics, and [lc_verdict] says when *)
  lc_panic ev i : phase <$> requests (step hash c ev w) !! i = Some Panicked ->
    phase <$> requests w !! i = Some Panicked \/ ev = EvCount i;
  lc_returned : (forall r, r ∈ requests w -> (phase r = Leaving \/ phase r = Panicked) /\ guards r = []) ->
    forall o s, heap w !! o = Some s -> count s = 0;
}.


(** ** Concrete runs *)

Import ToyHttp.

#[local] Instance toy_seconds : Seconds Z :=
  {| sec_positive := fun d => 0 <? d; sec_mul := Z.mul; sec_mean := fun a b => (a + b) / 2;
     sec_fits := fun d => (0 <=? d) && (d <? 2 ^ 64) |}.

Definition demo_config : PluginConfig Z :=
  {| conn_opt := Some 1; burst_main := 1; default_conn_delay := 10; only_use_default_delay := false; key_type := Var;
     key_opt := Some "remote_addr"; rules := []; rejected_code := 503; rejected_msg := None; allow_degradation := false;
     policy := Local |}.

Definition demo_limits : list LimitSelection := [{| key := "10.0.0.1"; conn := 1; burst := 1 |}].

(** Three requests on one key: the first passes, the second is delayed, the
    third is rejected; then they leave. *)
Definition demo_events : list (Event Z) :=
  [EvArrive demo_limits; EvArrive demo_limits; EvArrive demo_limits; EvLookup 0; EvLookup 1; EvLookup 2; EvCount 0; EvCount 1;
   EvCount 2; EvWake 1; EvUncount 2; EvLookup 0; EvLookup 1; EvFinish 0; EvFinish 1; EvRelease 0 (Some 4); EvRelease 1 None].


(** A delay beyond the seconds of a [Duration] is accepted and panics every
    request of the burst range; unwinding gives its slot back. *)
Definition huge_delay_config : PluginConfig Z :=
  {| conn_opt := Some 1; burst_main := 1; default_conn_delay := 2 ^ 64; only_use_default_delay := true; key_type := Var;
     key_opt := Some "remote_addr"; rules := []; rejected_code := 503; rejected_msg := None; allow_degradation := false;
     policy := Local |}.

Example accepted_conn_delay_panics :
  let w := run (fun _ => 0) huge_delay_config [EvArrive demo_limits; EvArrive demo_limits; EvLookup 0; EvLookup 1; EvCount 0; EvCount 1] in
  let w' := step (fun _ => 0) huge_delay_config (EvRelease 1 None) w in
  PluginConfig_try_from (fun _ => "") huge_delay_config = Ok huge_delay_config /\
  phase <$> requests w = [Idle; Panicked] /\ (count <$> (map_to_list (heap w)).*2) = [2] /\ (count <$> (map_to_list (heap w')).*2) = [1].
Proof. vm_compute. done. Qed.

Definition one (k : string) : list LimitSelection := [{| key := k; conn := 1; burst := 0 |}].

(** A request that holds a counter it has not incremented does not protect it:
    a sweep takes the counter for idle and evicts it, the next request of the
    same key gets another one, and both pass under a limit of one. *)
Definition race_events : list (Event Z) :=
  ([EvArrive (one "k"); EvLookup 0] ++
   flat_map (fun i => [EvArrive (one (pretty i)); EvLookup i]) (seq 1 255) ++
   [EvArrive (one "k"); EvLookup 256; EvCount 0; EvCount 256])%list.

Example sweep_race_exceeds_limit :
  let w := run (fun _ => 0) demo_config race_events in
  exists o o', o <> o' /\ guards <$> requests w !! 0%nat = Some [o] /\ guards <$> requests w !! 256%nat = Some [o'].
Proof.
  cbv zeta. assert (forall a b : option (list nat), match a, b with Some [o], Some [o'] => negb (Nat.eqb o o') | _, _ => false end = true ->
    exists o o', o <> o' /\ a = Some [o] /\ b = Some [o']) as Hex.
  { intros [[|o []]|] [[|o' []]|]; try done. intros Hn%negb_true_iff%Nat.eqb_neq. by exists o, o'. }
  apply Hex. vm_compute. reflexivity.
Qed.
