(* ===== verification/LimitCount.v ===== *)
(** * The rate limiter ([src/src/plugins/limit_count.rs])

    Configuration, sliding-window histories, the shared group counters and the
    request and response filters.  The fixed-window estimator of
    [pingora-limits] is a type class. *)

From Stdlib Require Import ZArith Lia Ascii Sorted.
From stdpp Require Import base tactics gmap fin_maps strings pretty option sorting list.
From S2P Require Import Prelude Errors Shards GraphStore Config RequestVars Limiting.

Open Scope Z_scope.

Definition MAX_SLIDING_ENTRIES_PER_KEY : nat := 4096.
Definition MAX_WINDOW_SECS : Z := 86400.

(** [pingora_limits::rate::Rate]: observing returns the count of the key in the
    current window. *)
Class RateLimits : Type := {
  Rate : Type;
  rate_new : Z -> Rate;
  rate_observe : Instant -> string -> Z -> Rate -> Z * Rate;
}.

(** ** Configuration *)

Inductive WindowType : Type := Fixed | Sliding.
Inductive KeyMissingPolicy : Type := Allow | Deny | Default.
Inductive Scope : Type := ScopeLocal | ScopeCluster.

Record CountRule : Type := {
  rule_count : Z;
  rule_time_window : Z;
  rule_key : string;
  rule_header_prefix : option string;
}.

Record PluginConfig : Type := {
  key_type : CountKeyType;
  key : string;
  time_window : option Z;
  count : option Z;
  window_type : WindowType;
  rejected_code : Z;
  rejected_msg : option string;
  header_prefix : option string;
  show_limit_quota_header : bool;
  key_missing_policy : KeyMissingPolicy;
  scope : Scope;
  rules : list CountRule;
  group : option string;
  policy : CountPolicy;
  allow_degradation : bool;
}.

Definition default_key : string := "remote_addr".

Definition validate_optional_count (c : option Z) : bool := match c with Some c => 1 <=? c | None => true end.
Definition validate_optional_time_window (w : option Z) : bool :=
  match w with Some w => (1 <=? w) && (w <=? 86400) | None => true end.

Definition is_alphanumeric (a : ascii) : bool := is_ident a && negb (bool_decide (a = "_"%char)).
Definition validate_header_prefix (p : option string) : bool :=
  match p with
  | Some p => negb (bool_decide (p = "")) &&
      Hosts.str_forall (fun a => is_alphanumeric a || bool_decide (a = "_"%char) || bool_decide (a = "-"%char)) p
  | None => true
  end.

Definition validate_count_rules (rules : list CountRule) : bool :=
  forallb (fun r => (1 <=? rule_count r) && ((1 <=? rule_time_window r) && (rule_time_window r <=? 86400)) &&
                    validate_key (rule_key r) && validate_header_prefix (rule_header_prefix r)) rules.

Definition validate_limit_count_shape (c : PluginConfig) : bool :=
  let main_configured := bool_decide (is_Some (count c)) || bool_decide (is_Some (time_window c)) in
  let rules_configured := negb (bool_decide (length (rules c) = 0%nat)) in
  negb (main_configured && rules_configured) && (main_configured || rules_configured) &&
  negb (main_configured && (negb (bool_decide (is_Some (count c))) || negb (bool_decide (is_Some (time_window c))))).

Definition derived_ok (c : PluginConfig) : bool :=
  validate_key (key c) && validate_optional_time_window (time_window c) && validate_optional_count (count c) &&
  validate_rejected_code (rejected_code c) && validate_rejected_msg (rejected_msg c) &&
  validate_header_prefix (header_prefix c) && validate_count_rules (rules c) && validate_limit_count_shape c.

(** The first rule key met twice. *)
Fixpoint duplicate_key (seen : list string) (rules : list CountRule) : option string :=
  match rules with
  | [] => None
  | r :: rules => if bool_decide (rule_key r ∈ seen) then Some (rule_key r) else duplicate_key (rule_key r :: seen) rules
  end.

Definition configured_counts (c : PluginConfig) : list Z :=
  (match count c with Some n => [n] | None => [] end ++ (rule_count <$> rules c))%list.

(** From the deserialised value; [errors] renders the validator's errors. *)
Definition PluginConfig_try_from (errors : PluginConfig -> string) (c : PluginConfig) : ProxyResult PluginConfig :=
  if derived_ok c then
    let? _ := count_ensure_local (policy c) "limit-count" in
    match scope c with
    | ScopeCluster => Err (Validation "limit-count scope 'cluster' requires a distributed backend")
    | ScopeLocal =>
      if match window_type c with
         | Sliding => existsb (fun n => Z.of_nat MAX_SLIDING_ENTRIES_PER_KEY <=? n) (configured_counts c)
         | Fixed => false
         end
      then Err (Validation ("limit-count sliding window count must be below " +:+ pretty MAX_SLIDING_ENTRIES_PER_KEY
                            +:+ " (bounded per-key history)"))
      else if bool_decide (is_Some (group c)) && negb (bool_decide (length (rules c) = 0%nat)) then
        Err (Validation "limit-count group and rules cannot be configured together")
      else match duplicate_key [] (rules c) with
           | Some k => Err (Validation ("limit-count rules contain duplicate key '" +:+ k +:+ "'"))
           | None => Ok c
           end
    end
  else Err (ValidationStructured (errors c)).

(** ** Sliding windows *)

Record SlidingWindow : Type := { events : list Instant }.

Definition SlidingWindow_default : SlidingWindow := {| events := [] |}.

Fixpoint prune_events (es : list Instant) (now : Instant) (window : Duration) : list Instant :=
  match es with
  | e :: es' => if window <=? duration_since now e then prune_events es' now window else es
  | [] => []
  end.

Definition prune (now : Instant) (time_window : Z) (self : SlidingWindow) : SlidingWindow :=
  {| events := prune_events (events self) now (from_secs time_window) |}.

Definition observe (now : Instant) (time_window : Z) (self : SlidingWindow) : Z * SlidingWindow :=
  let es := events (prune now time_window self) in
  let es := if (MAX_SLIDING_ENTRIES_PER_KEY <=? length es)%nat then tail es else es in
  let es := (es ++ [now])%list in
  (Z.of_nat (length es), {| events := es |}).

Definition sliding_stale (now : Instant) (window : SlidingWindow) : bool :=
  match last (events window) with
  | Some e => (e <=? now) && (from_secs MAX_WINDOW_SECS <=? now - e)
  | None => true
  end.

(** [sliding_window_for] followed by [observe] on the entry. *)
Definition sliding_observe (k : string) (now : Instant) (time_window : Z) (shard : Shard SlidingWindow) : Z * Shard SlidingWindow :=
  let '(slot, shard) := admit_key k LIMIT_COUNT_OVERFLOW (sweep (sliding_stale now) Restore) shard in
  let '(n, w) := observe now time_window (default SlidingWindow_default (entries shard !! slot)) in
  (n, fill slot w shard).

Section limit_count.
Context `{RateLimits} (hash : string -> Z).

(** In the shard of the key. *)
Definition sharded_observe (k : string) (now : Instant) (time_window : Z) (sliding : list (Shard SlidingWindow)) :
    Z * list (Shard SlidingWindow) :=
  let idx := shard_idx hash k in
  let '(n, shard) := sliding_observe k now time_window (default Shard_default (sliding !! idx)) in
  (n, <[idx := shard]> sliding).

(** ** Counters *)

Record GroupState : Type := { group_rates : gmap Z Rate; group_sliding : list (Shard SlidingWindow) }.

Definition GroupState_new : GroupState := {| group_rates := ∅; group_sliding := shard_map_new |}.

(** [GroupState::observe]; a window is registered on first use. *)
Definition group_observe (self : GroupState) (w : WindowType) (now : Instant) (time_window : Z) (k : string) : Z * GroupState :=
  match w with
  | Fixed =>
    let rate := default (rate_new time_window) (group_rates self !! time_window) in
    let '(n, rate) := rate_observe now k 1 rate in
    (n, {| group_rates := <[time_window := rate]> (group_rates self); group_sliding := group_sliding self |})
  | Sliding =>
    let '(n, sliding) := sharded_observe k now time_window (group_sliding self) in
    (n, {| group_rates := group_rates self; group_sliding := sliding |})
  end.

Definition register_window (w : Z) (rates : gmap Z Rate) : gmap Z Rate :=
  match rates !! w with Some _ => rates | None => <[w := rate_new w]> rates end.

Definition build_fixed_rates (c : PluginConfig) : gmap Z Rate :=
  fold_left (fun rates r => register_window (rule_time_window r) rates) (rules c)
    (match time_window c with Some w => register_window w ∅ | None => ∅ end).

(** The registry of group counters: [Weak] pointers by name, and the states
    that some plugin instance keeps alive. *)
Record Groups : Type := { registry : gmap string nat; alive : gmap nat GroupState }.

Definition retain_alive (g : Groups) : Groups :=
  {| registry := filter (fun e => is_Some (alive g !! e.2)) (registry g); alive := alive g |}.

(** [group_state]; the identifier is that of the shared state. *)
Definition group_state (name : string) (g : Groups) : nat * Groups :=
  let g := if (128 <=? size (registry g))%nat then retain_alive g else g in
  let upgraded :=
    match registry g !! name with
    | Some i => match alive g !! i with Some _ => Some i | None => None end
    | None => None
    end in
  match upgraded with
  | Some i => (i, g)
  | None =>
    let i := fresh (dom (alive g) ∪ (list_to_set (map_to_list (registry g)).*2)) in
    (i, {| registry := <[name := i]> (registry g); alive := <[i := GroupState_new]> (alive g) |})
  end.

Record PluginRateLimit : Type := {
  config : PluginConfig;
  fixed_rates : gmap Z Rate;
  sliding : list (Shard SlidingWindow);
  plugin_group : option nat;
}.

Definition configured_group (c : PluginConfig) : option string :=
  match group c with Some g => if bool_decide (g = "") then None else Some g | None => None end.

Definition create_limit_count_plugin (errors : PluginConfig -> string) (cfg : PluginConfig) (g : Groups) :
    ProxyResult (PluginRateLimit * Groups) :=
  let? c := PluginConfig_try_from errors cfg in
  let plugin := fun i => {| config := c; fixed_rates := build_fixed_rates c; sliding := shard_map_new; plugin_group := i |} in
  match configured_group c with
  | None => Ok (plugin None, g)
  | Some name =>
    let '(i, g) := group_state name g in
    let alive := alter (fun s => {| group_rates := group_rates s ∪ build_fixed_rates c; group_sliding := group_sliding s |}) i (alive g) in
    Ok (plugin (Some i), {| registry := registry g; alive := alive |})
  end.

(** ** Selections *)

Record LimitSelection : Type := { sel_count : Z; sel_time_window : Z; sel_header_prefix : string; from_rule : bool }.

Definition main_selection (c : PluginConfig) : option LimitSelection :=
  match count c, time_window c with
  | Some n, Some w => Some {| sel_count := n; sel_time_window := w; sel_header_prefix := default "" (header_prefix c); from_rule := false |}
  | _, _ => None
  end.

Definition resolve_main_key `{HttpTypes} (c : PluginConfig) (session : Session) : string :=
  match key_type c with
  | CountVar => apisix_key session (key c) false
  | CountVarCombination => apisix_key session (key c) true
  | Constant => key c
  | Head => request_selector_key session HEAD (key c)
  | Cookie => request_selector_key session COOKIE (key c)
  end.

Definition rule_selection (index : nat) (rule : CountRule) (k : string) : string * LimitSelection :=
  (k, {| sel_count := rule_count rule; sel_time_window := rule_time_window rule;
         sel_header_prefix := default (pretty (index + 1)%nat) (rule_header_prefix rule); from_rule := true |}).

Definition select_limits `{HttpTypes} (c : PluginConfig) (session : Session) : option (list (string * LimitSelection)) :=
  match rules c with
  | [] => match main_selection c with Some s => Some [(resolve_main_key c session, s)] | None => None end
  | rules => select_rules session rules rule_key rule_selection
  end.

Definition storage_key (self : PluginRateLimit) (k : string) : string :=
  match plugin_group self with
  | Some _ => k
  | None => match configured_group (config self) with Some g => g +:+ "|" +:+ k | None => k end
  end.

(** ** Checking *)

Record LimitOutcome : Type := { limited : bool; current_count : Z; remaining : Z }.

Definition outcome_of (s : LimitSelection) (current : Z) : LimitOutcome :=
  {| limited := sel_count s <? current; current_count := current; remaining := Z.max 0 (sel_count s - current) |}.

Definition State : Type := PluginRateLimit * Groups.

(** [check_rate_limit]; an unregistered fixed window panics. *)
Definition check_rate_limit (s : LimitSelection) (k : string) (now : Instant) (st : State) :
    Result (LimitOutcome * State) (Stop ProxyError) :=
  let '(self, g) := st in
  let namespaced := storage_key self k in
  match plugin_group self, window_type (config self) with
  | Some i, w =>
    match alive g !! i with
    | Some gs =>
      let '(n, gs) := group_observe gs w now (sel_time_window s) namespaced in
      Ok (outcome_of s n, (self, {| registry := registry g; alive := <[i := gs]> (alive g) |}))
    | None => Err (Panic "dangling group state")
    end
  | None, Fixed =>
    match fixed_rates self !! sel_time_window s with
    | Some rate =>
      let '(n, rate) := rate_observe now namespaced 1 rate in
      Ok (outcome_of s n, ({| config := config self; fixed_rates := <[sel_time_window s := rate]> (fixed_rates self);
                              sliding := sliding self; plugin_group := None |}, g))
    | None => Err (Panic "factory pre-registers every configured time window")
    end
  | None, Sliding =>
    let '(n, sliding) := sharded_observe namespaced now (sel_time_window s) (sliding self) in
    Ok (outcome_of s n, ({| config := config self; fixed_rates := fixed_rates self; sliding := sliding; plugin_group := None |}, g))
  end.

End limit_count.

(** ** Quota headers *)

(** [str::replacen] of the first occurrence. *)
Fixpoint replace_first (pat rep s : string) : string :=
  match Utf8.strip_prefix pat s with
  | Some rest => rep +:+ rest
  | None => match s with String a s' => String a (replace_first pat rep s') | EmptyString => "" end
  end.

Definition rate_limit_header_name (prefix base : string) : string :=
  if bool_decide (prefix = "") then base else replace_first "RateLimit-" (prefix +:+ "-RateLimit-") base.

Inductive HeaderPath : Type := Success | Rejected.

Definition build_rate_limit_headers (count remaining time_window current_count : Z) (show : bool) (header_prefix : string)
    (path : HeaderPath) : list (string * string) :=
  if show then
    ([(rate_limit_header_name header_prefix "X-RateLimit-Limit", pretty count);
      (rate_limit_header_name header_prefix "X-RateLimit-Remaining", pretty remaining);
      (rate_limit_header_name header_prefix "X-RateLimit-Reset", pretty time_window);
      ("X-RateLimit-Scope", "local")] ++
     match path with
     | Rejected => [(rate_limit_header_name header_prefix "X-RateLimit-Used", pretty current_count); ("Retry-After", pretty time_window)]
     | Success => []
     end)%list
  else [].

Record RateLimitQuota : Type := {
  quota_limit : Z; quota_remaining : Z; quota_reset : Z; quota_current : Z; quota_prefix : string;
}.

Definition quota_of (s : LimitSelection) (o : LimitOutcome) : RateLimitQuota :=
  {| quota_limit := sel_count s; quota_remaining := remaining o; quota_reset := sel_time_window s;
     quota_current := current_count o; quota_prefix := sel_header_prefix s |}.

(** The headers [response_filter] inserts, in order; a later one of the same
    name replaces an earlier one. *)
Definition quota_headers (quotas : list RateLimitQuota) : list (string * string) :=
  flat_map (fun q => build_rate_limit_headers (quota_limit q) (quota_remaining q) (quota_reset q) (quota_current q) true
                       (quota_prefix q) Success) quotas.

(** ** Filters *)

Section filters.
Context `{RateLimits} `{HttpTypes} (hash : string -> Z).

Definition handle_rate_limit (self : PluginRateLimit) (s : LimitSelection) (current : Z) : FilterVerdict :=
  let c := config self in
  let headers := build_rate_limit_headers (sel_count s) (Z.max 0 (sel_count s - current)) (sel_time_window s) current
                   (show_limit_quota_header c) (sel_header_prefix s) Rejected in
  let policy := {| code := rejected_code c; msg := rejected_msg c |} in
  Reject (with_close_connection (rejection (reject_status policy) (rejected_msg c) headers)).

(** The verdict, and the quotas stored in the request's context. *)
Definition Outcome : Type := FilterVerdict * option (list RateLimitQuota).

Definition handle_missing_key (now : Instant) (st : State) : Result (Outcome * State) (Stop ProxyError) :=
  let c := config st.1 in
  match key_missing_policy c with
  | Allow => Ok ((Continue, None), st)
  | Deny => Ok ((Reject (rejection 400 (Some "Missing required key for rate limiting") []), None), st)
  | Default =>
    match main_selection c with
    | None => Ok ((Continue, None), st)
    | Some s =>
      let? r := check_rate_limit hash s "_default_rate_limit_key" now st in
      let '(o, st) := r in
      if limited o then Ok ((handle_rate_limit st.1 s (current_count o), None), st)
      else Ok ((Continue, if show_limit_quota_header c then Some [quota_of s o] else None), st)
    end
  end.

(** The loop over the selections; [clock n] is the [n]-th clock reading. *)
Fixpoint filter_loop (limits : list (string * LimitSelection)) (clock : nat -> Instant) (n : nat) (quotas : list RateLimitQuota)
    (st : State) : Result (Outcome * State) (Stop ProxyError) :=
  match limits with
  | [] => Ok ((Continue, if show_limit_quota_header (config st.1) then Some quotas else None), st)
  | (k, s) :: limits =>
    if bool_decide (k = "") && negb (from_rule s) then handle_missing_key (clock n) st
    else
      let? r := check_rate_limit hash s k (clock n) st in
      let '(o, st) := r in
      if limited o then Ok ((handle_rate_limit st.1 s (current_count o), None), st)
      else
        let quotas := if show_limit_quota_header (config st.1) then (quotas ++ [quota_of s o])%list else quotas in
        filter_loop limits clock (n + 1) quotas st
  end.

Definition count_request_filter (session : Session) (clock : nat -> Instant) (st : State) :
    Result (Outcome * State) (Stop ProxyError) :=
  match select_limits (config st.1) session with
  | None =>
    if allow_degradation (config st.1) then Ok ((Continue, None), st)
    else Ok ((Reject (rejection 500 (Some "failed to get rate limit rules") []), None), st)
  | Some limits => filter_loop limits clock 0 [] st
  end.

End filters.

(** ** The history is the window

    Against times that do not go back, the history of a key is the most recent
    events, at most 4096 of them, and misses none that is inside the window. *)

Definition observe_all (w : Z) (h : list Instant) : SlidingWindow :=
  fold_left (fun sw t => (observe t w sw).2) h SlidingWindow_default.

Definition in_window (w : Z) (now : Instant) (e : Instant) : bool := now - e <? from_secs w.

(** The requests of [h] inside the window that ends [now]. *)
Definition recent (w : Z) (now : Instant) (h : list Instant) : list Instant := List.filter (in_window w now) h.

Section window.
Context (w : Z) (Hw : 1 <= w).

Record tracks (t : Instant) (h : list Instant) (es : list Instant) (pre : list Instant) : Prop := {
  tr_split : h = (pre ++ es)%list;
  tr_len : (length es <= MAX_SLIDING_ENTRIES_PER_KEY)%nat;
  tr_pre : (forall e, e ∈ pre -> in_window w t e = false) \/ length es = MAX_SLIDING_ENTRIES_PER_KEY;
}.

Lemma sorted_le (a b : list Instant) x y : StronglySorted Z.le (a ++ b) -> x ∈ a -> y ∈ b -> x <= y.
Proof. intros Hs Hx Hy. by eapply StronglySorted_app_1_elem_of. Qed.

(** [prune] drops expired events and stops at the first one inside. *)
Lemma prune_split es now : Forall (fun e => e <= now) es ->
  exists dropped, es = (dropped ++ prune_events es now (from_secs w))%list /\
    Forall (fun e => in_window w now e = false) dropped /\
    (forall e es', prune_events es now (from_secs w) = e :: es' -> in_window w now e = true).
Proof.
  induction 1 as [|e es He _ (d & Hd & Hdd & Hh)]; simpl; [by exists []|]. unfold duration_since, in_window in *.
  destruct (Z.leb_spec (from_secs w) (Z.max 0 (now - e))) as [Hle|Hlt].
  - exists (e :: d). split_and!; [simpl; by f_equal| |done]. constructor; [|done]. apply Z.ltb_ge. unfold from_secs, nanos_per_sec in *. lia.
  - exists []. split_and!; [done|constructor|]. intros e' es' [= <- <-]. apply Z.ltb_lt. lia.
Qed.

Lemma recent_app now a b : recent w now (a ++ b) = (recent w now a ++ recent w now b)%list.
Proof. apply List.filter_app. Qed.

Lemma recent_none now l : (forall e, e ∈ l -> in_window w now e = false) -> recent w now l = [].
Proof.
  induction l as [|e l IH]; intros Hl; simpl; [done|]. rewrite (Hl e) by (by left). apply IH. intros x Hx. apply Hl. by right.
Qed.

Lemma recent_all now l : (forall e, e ∈ l -> in_window w now e = true) -> recent w now l = l.
Proof.
  induction l as [|e l IH]; intros Hl; simpl; [done|]. rewrite (Hl e) by (by left). f_equal. apply IH. intros x Hx. apply Hl. by right.
Qed.

Lemma in_window_mono now e e' : e <= e' -> in_window w now e = true -> in_window w now e' = true.
Proof. unfold in_window. rewrite !Z.ltb_lt. lia. Qed.

Lemma in_window_later t now e : t <= now -> in_window w t e = false -> in_window w now e = false.
Proof. unfold in_window. rewrite !Z.ltb_ge. lia. Qed.

(** One observation at the end of a sorted history. *)
Lemma observe_tracks t now h es pre : StronglySorted Z.le (h ++ [now]) -> t <= now -> tracks t h es pre ->
  (observe now w {| events := es |}).1 = Z.of_nat (Nat.min MAX_SLIDING_ENTRIES_PER_KEY (length (recent w now h) + 1)) /\
  exists pre', tracks now (h ++ [now]) (events (observe now w {| events := es |}).2) pre'.
Proof.
  intros Hs Ht [-> Hlen Hpre]. assert (Forall (fun e => e <= now) (pre ++ es)) as Hnow.
  { apply Forall_forall. intros e He. eapply sorted_le; [exact Hs|done|by left]. }
  apply Forall_app in Hnow as [_ Hes]. destruct (prune_split es now Hes) as (d & Hd & Hdd & Hh).
  unfold observe. cbv zeta. unfold prune. cbn [events fst snd]. set (kept := prune_events es now (from_secs w)) in *.
  assert (forall e, e ∈ kept -> in_window w now e = true) as Hk.
  { destruct kept as [|e kept']; [by intros e ?%not_elem_of_nil|]. specialize (Hh e kept' eq_refl).
    intros x [->|Hx]%elem_of_cons; [done|]. eapply in_window_mono; [|exact Hh].
    apply (sorted_le (pre ++ d ++ [e]) (kept' ++ [now]) e x); [|set_solver|set_solver].
    rewrite Hd in Hs. rewrite <-!app_assoc in Hs |- *. exact Hs. }
  assert ((forall e, e ∈ (pre ++ d)%list -> in_window w now e = false) \/ length kept = MAX_SLIDING_ENTRIES_PER_KEY) as Hpd.
  { rewrite Forall_forall in Hdd. destruct Hpre as [Hpre|Hfull].
    - left. intros e [He|He]%elem_of_app; [|auto]. eapply in_window_later; [exact Ht|by apply Hpre].
    - destruct d as [|x d]; [right; by rewrite Hd in Hfull|]. left. intros e [He|He]%elem_of_app; [|auto].
      destruct (in_window w now e) eqn:Ew; [|done]. assert (e <= x) as Hex.
      { apply (sorted_le pre ((x :: d) ++ kept ++ [now])%list); [|done|by left].
        rewrite Hd in Hs. rewrite <-!app_assoc in Hs. exact Hs. }
      rewrite <-(Hdd x ltac:(by left)). symmetry. by eapply in_window_mono. }
  assert (recent w now (pre ++ es) = (recent w now (pre ++ d) ++ kept)%list) as Hrec.
  { rewrite Hd, app_assoc, recent_app. f_equal. by apply recent_all. }
  assert (length kept <= length es)%nat as Hkl by (rewrite Hd, length_app; lia).
  rewrite Hrec, length_app.
  destruct (Nat.leb_spec MAX_SLIDING_ENTRIES_PER_KEY (length kept)) as [Hfull|Hroom].
  - destruct kept as [|e kept']; [unfold MAX_SLIDING_ENTRIES_PER_KEY in Hfull; simpl in Hfull; lia|].
    cbn [tail length] in *. rewrite length_app. cbn [length]. split; [lia|]. exists (pre ++ d ++ [e])%list. constructor.
    + by rewrite Hd, <-!app_assoc.
    + rewrite length_app. cbn [length]. lia.
    + right. rewrite length_app. cbn [length]. lia.
  - destruct Hpd as [Hout|?]; [|lia]. rewrite (recent_none now (pre ++ d)) by done. rewrite length_app. cbn [length].
    split; [lia|]. exists (pre ++ d)%list. constructor.
    + by rewrite Hd, <-!app_assoc.
    + rewrite length_app. cbn [length]. lia.
    + by left.
Qed.

Lemma observe_all_tracks h : StronglySorted Z.le h -> forall now, (forall e, e ∈ h -> e <= now) ->
  exists t pre, t <= now /\ tracks t h (events (observe_all w h)) pre.
Proof.
  induction h as [|x h IH] using rev_ind; intros Hs now Hnow.
  { exists now, []. split; [done|]. constructor; [done|simpl; lia|left; by intros e ?%not_elem_of_nil]. }
  destruct (IH ltac:(by eapply StronglySorted_app_1_l) x) as (t & pre & Ht & Htr).
  { intros e He. eapply sorted_le; [exact Hs|done|by left]. }
  unfold observe_all. rewrite fold_left_app. cbn [fold_left].
  change (fold_left (fun sw t => (observe t w sw).2) h SlidingWindow_default) with (observe_all w h).
  destruct (observe_all w h) as [es]. cbn [events] in Htr.
  destruct (observe_tracks t x h es pre Hs Ht Htr) as [_ [pre' Htr']]. exists x, pre'. split; [|exact Htr'].
  apply Hnow. set_solver.
Qed.

End window.

(** ** Registered windows *)

Section ready.
Context `{RateLimits} `{HttpTypes} (hash : string -> Z).

Definition windows (c : PluginConfig) : list Z :=
  (match time_window c with Some w => [w] | None => [] end ++ (rule_time_window <$> rules c))%list.

(** What the filters rely on: the fixed windows are registered, or the group's
    counters are alive. *)
Definition ready (st : State) : Prop :=
  match plugin_group st.1 with
  | Some i => is_Some (alive st.2 !! i)
  | None => forall w, w ∈ windows (config st.1) -> is_Some (fixed_rates st.1 !! w)
  end.

Lemma register_window_some w v rates : is_Some (rates !! v) \/ v = w -> is_Some (register_window w rates !! v).
Proof.
  unfold register_window. destruct (rates !! w) eqn:E; [intros [?| ->]; [done|by eexists]|].
  intros Hv. destruct (decide (v = w)) as [->|Hn]; simplify_map_eq; [done|]. by destruct Hv.
Qed.

Lemma build_fixed_rates_some c w : w ∈ windows c -> is_Some (build_fixed_rates c !! w).
Proof.
  unfold windows, build_fixed_rates. set (base := match time_window c with Some w => register_window w ∅ | None => ∅ end).
  intros Hw. assert (is_Some (base !! w) \/ w ∈ (rule_time_window <$> rules c)) as Hb.
  { apply elem_of_app in Hw as [Hw|Hw]; [left|by right]. unfold base. destruct (time_window c) as [v|]; [|by apply not_elem_of_nil in Hw].
    apply list_elem_of_singleton in Hw as ->. apply register_window_some. by right. }
  clear Hw. revert Hb. generalize base. induction (rules c) as [|r rs IH]; intros m; cbn [fold_left].
  - intros [?|?%not_elem_of_nil]; done.
  - rewrite fmap_cons, elem_of_cons. intros Hb. apply IH.
    destruct Hb as [Hm|[Hr|Hr]]; [left|left|by right]; apply register_window_some; [by left|by right].
Qed.

Lemma check_ready s k now st : ready st -> sel_time_window s ∈ windows (config st.1) ->
  exists o st', check_rate_limit hash s k now st = Ok (o, st') /\ ready st' /\ config st'.1 = config st.1.
Proof.
  destruct st as [self g]. unfold ready, check_rate_limit. simpl. intros Hr Hw.
  destruct (plugin_group self) as [i|] eqn:Eg.
  - destruct Hr as [gs Hgs]. rewrite Hgs. destruct (group_observe hash _ _ _ _ _) as [n gs'].
    do 2 eexists. split; [done|]. simpl. rewrite Eg. split; [by simplify_map_eq|done].
  - destruct (window_type (config self)).
    + destruct (Hr _ Hw) as [rate Hrate]. rewrite Hrate. destruct (rate_observe _ _ _ _) as [n rate'].
      do 2 eexists. split; [done|]. simpl. split; [|done]. intros w Hin.
      destruct (decide (w = sel_time_window s)) as [->|]; simplify_map_eq; [done|auto].
    + destruct (sharded_observe hash (storage_key self k) now (sel_time_window s) (sliding self)) as [n sl]. do 2 eexists. split; [done|]. simpl. split; [exact Hr|done].
Qed.

Lemma main_window c s : main_selection c = Some s -> sel_time_window s ∈ windows c.
Proof.
  unfold main_selection, windows. destruct (count c), (time_window c); try done. intros [= <-]. simpl. by left.
Qed.

Lemma selected_window c session limits k s : select_limits c session = Some limits -> (k, s) ∈ limits -> sel_time_window s ∈ windows c.
Proof.
  unfold select_limits. destruct (rules c) as [|r rs] eqn:Er.
  - destruct (main_selection c) as [s'|] eqn:Em; [|done]. intros [= <-] [= -> ->]%list_elem_of_singleton. by apply main_window.
  - rewrite <-Er. intros Hsel Hin. destruct (select_rules_elem _ _ _ _ _ _ Hsel Hin) as (i & rule & k' & Hi & _ & [= -> ->]). simpl.
    unfold windows. apply elem_of_app. right. apply list_elem_of_fmap. exists rule. split; [done|]. by eapply list_elem_of_lookup_2.
Qed.

Lemma missing_key_ready now st : ready st -> exists o st', handle_missing_key hash now st = Ok (o, st') /\ ready st' /\ config st'.1 = config st.1.
Proof.
  intros Hr. unfold handle_missing_key. destruct (key_missing_policy (config st.1)); [by eauto|by eauto|].
  destruct (main_selection (config st.1)) as [s|] eqn:Em; [|by eauto].
  destruct (check_ready s "_default_rate_limit_key" now st Hr (main_window _ _ Em)) as (o & st' & -> & Hr' & Hc).
  simpl. destruct (limited o); eauto.
Qed.

Lemma filter_loop_ready limits clock n quotas st : ready st ->
  (forall k s, (k, s) ∈ limits -> sel_time_window s ∈ windows (config st.1)) ->
  exists o st', filter_loop hash limits clock n quotas st = Ok (o, st') /\ ready st' /\ config st'.1 = config st.1.
Proof.
  revert n quotas st. induction limits as [|[k s] limits IH]; intros n quotas st Hr Hin; cbn [filter_loop]; [by eauto|].
  destruct (_ && _); [by apply missing_key_ready|].
  destruct (check_ready s k (clock n) st Hr (Hin k s ltac:(by left))) as (o & st' & -> & Hr' & Hc). simpl.
  destruct (limited o); [by eauto|]. rewrite <-Hc. apply IH; [done|]. rewrite Hc. intros k' s' Hk. apply (Hin k' s'). by right.
Qed.

Lemma request_filter_ready session clock st : ready st ->
  exists o st', count_request_filter hash session clock st = Ok (o, st') /\ ready st' /\ config st'.1 = config st.1.
Proof.
  intros Hr. unfold count_request_filter. destruct (select_limits (config st.1) session) as [limits|] eqn:Es.
  - apply filter_loop_ready; [done|]. intros k s. by apply (selected_window _ session).
  - destruct (allow_degradation (config st.1)); eauto.
Qed.

Lemma created_ready errors cfg g self g' : create_limit_count_plugin errors cfg g = Ok (self, g') -> ready (self, g').
Proof.
  unfold create_limit_count_plugin. destruct (PluginConfig_try_from errors cfg) as [c|]; [|done]. simpl.
  destruct (configured_group c) as [name|].
  - assert (is_Some (alive (group_state name g).2 !! (group_state name g).1)) as Hsome.
    { unfold group_state. cbv zeta. set (g0 := if (128 <=? size (registry g))%nat then retain_alive g else g).
      destruct (match registry g0 !! name with Some i => match alive g0 !! i with Some _ => Some i | None => None end | None => None end) as [i|] eqn:E.
      - simpl. repeat case_match; simplify_eq. by eexists.
      - simpl. by simplify_map_eq. }
    destruct (group_state name g) as [i g0]. simpl in Hsome. intros [= <- <-]. unfold ready. simpl.
    destruct Hsome as [gs Hgs]. by simplify_map_eq.
  - intros [= <- <-]. unfold ready. simpl. intros w. apply build_fixed_rates_some.
Qed.

Definition serve_request (st : State) (rq : Session * (nat -> Instant)) : Result State (Stop ProxyError) :=
  let? r := count_request_filter hash rq.1 rq.2 st in Ok r.2.

End ready.

(** ** Properties *)

(** C40 (the sliding window is exact).  Against times that do not go back, an
    observation returns the number of requests inside the window, this one
    included, capped at 4096; for every limit a sliding configuration may name
    the decision is that of the uncapped number. *)
Theorem sliding_window_exact w h now limit :
  1 <= w -> StronglySorted Z.le (h ++ [now]) ->
  let n := Z.of_nat (length (recent w now (h ++ [now]))) in
  (observe now w (observe_all w h)).1 = Z.min (Z.of_nat MAX_SLIDING_ENTRIES_PER_KEY) n /\
  (limit < Z.of_nat MAX_SLIDING_ENTRIES_PER_KEY -> (limit <? (observe now w (observe_all w h)).1) = (limit <? n)).
Proof.
  intros Hw Hs n. destruct (observe_all_tracks w Hw h ltac:(by eapply StronglySorted_app_1_l) now) as (t & pre & Ht & Htr).
  { intros e He. eapply sorted_le; [exact Hs|done|by left]. }
  destruct (observe_all w h) as [es]. destruct (observe_tracks w Hw t now h es pre Hs Ht Htr) as [Hn _].
  assert (n = Z.of_nat (length (recent w now h) + 1)) as En.
  { unfold n, recent. rewrite List.filter_app, length_app. simpl. replace (in_window w now now) with true; [done|].
    symmetry. apply Z.ltb_lt. unfold from_secs, nanos_per_sec. lia. }
  rewrite Hn, En. split; [lia|]. intros Hl. apply Bool.eq_iff_eq_true. rewrite !Z.ltb_lt. lia.
Qed.

(** The counter lookup cannot fail.  For a plugin built from an accepted
    configuration the window of every selection is registered, or its group's
    counters are alive: no sequence of requests reaches the [expect]. *)
Theorem limit_count_never_panics `{RateLimits} `{HttpTypes} hash errors cfg g self g' rqs :
  create_limit_count_plugin errors cfg g = Ok (self, g') -> is_ok (try_fold (serve_request hash) (self, g') rqs) = true.
Proof.
  intros Hc%created_ready. revert Hc. generalize (self, g'). induction rqs as [|rq rqs IH]; intros st Hr; [done|].
  cbn [try_fold]. unfold serve_request at 1. destruct (request_filter_ready hash rq.1 rq.2 st Hr) as (o & st' & -> & Hr' & _).
  simpl. by apply IH.
Qed.

(** ** Concrete runs *)

Import ToyHttp.

(** An exact estimator that never resets. *)
#[local] Instance toy_rates : RateLimits := {
  Rate := gmap string Z;
  rate_new _ := ∅;
  rate_observe _ k n r := let m := default 0 (r !! k) + n in (m, <[k := m]> r);
}.

Definition seconds (s : Z) : Instant := s * nanos_per_sec.

Lemma sliding_window_exact_witness :
  (observe (seconds 70) 60 (observe_all 60 [seconds 0; seconds 10; seconds 11; seconds 69])).1 = 3 /\
  (2 <? (observe (seconds 70) 60 (observe_all 60 [seconds 0; seconds 10; seconds 11; seconds 69])).1) = true.
Proof.
  destruct (sliding_window_exact 60 [seconds 0; seconds 10; seconds 11; seconds 69] (seconds 70) 2 ltac:(lia)) as [H1 H2].
  { repeat (constructor; [|repeat (constructor; [vm_compute; discriminate|]); constructor]). constructor. }
  split; [rewrite H1; vm_compute; reflexivity|]. rewrite H2 by (vm_compute; reflexivity). vm_compute. reflexivity.
Defined.

Definition rule (n w : Z) (k : string) : CountRule :=
  {| rule_count := n; rule_time_window := w; rule_key := k; rule_header_prefix := None |}.

Definition demo_config (w : WindowType) (rs : list CountRule) : PluginConfig := {|
  key_type := CountVar; key := default_key; time_window := None; count := None; window_type := w; rejected_code := 503;
  rejected_msg := None; header_prefix := None; show_limit_quota_header := true; key_missing_policy := Allow;
  scope := ScopeLocal; rules := rs; group := None; policy := CountLocal; allow_degradation := false |}.

Definition no_groups : Groups := {| registry := ∅; alive := ∅ |}.

(** The verdicts of a sequence of requests at the given seconds. *)
Fixpoint verdicts (session : Session) (times : list Z) (st : State) : list bool :=
  match times with
  | [] => []
  | t :: times =>
    match count_request_filter (fun _ => 0) session (fun _ => seconds t) st with
    | Ok ((Continue, _), st) => true :: verdicts session times st
    | Ok ((Reject _, _), st) => false :: verdicts session times st
    | Err _ => []
    end
  end.

Definition created (c : PluginConfig) : option State :=
  match create_limit_count_plugin (fun _ => "") c no_groups with Ok st => Some st | Err _ => None end.

Definition rules_config : PluginConfig := demo_config Fixed [rule 1 10 "$remote_addr"; rule 5 60 "$uri"].
Definition two_requests : list (Session * (nat -> Instant)) := [(demo_session, fun _ => 0); (demo_session, fun _ => 1)].

Lemma limit_count_never_panics_witness : exists self g',
  create_limit_count_plugin (fun _ => "") rules_config no_groups = Ok (self, g') /\
  is_ok (try_fold (serve_request (fun _ => 0)) (self, g') two_requests) = true.
Proof.
  pose proof (limit_count_never_panics (fun _ => 0) (fun _ => "") rules_config no_groups) as Hok.
  assert (is_ok (create_limit_count_plugin (fun _ => "") rules_config no_groups) = true) as Hc by (vm_compute; reflexivity).
  destruct (create_limit_count_plugin (fun _ => "") rules_config no_groups) as [[self g']|]; [|discriminate Hc].
  exists self, g'. split; [reflexivity|]. exact (Hok self g' two_requests eq_refl).
Defined.

Example limits_are_enforced : verdicts demo_session [0; 1] <$> created rules_config = Some [true; false].
Proof. vm_compute. reflexivity. Qed.

(** Counters are keyed by the rendered key alone.  Two rules whose variables are
    both absent share the history of the empty key: the first request already
    counts twice, and the shorter window of one rule erases what the longer
    window of the other needs. *)
Example rules_share_the_empty_key :
  verdicts demo_session [0] <$> created (demo_config Sliding [rule 100 1 "$http_a"; rule 1 60 "$http_b"]) = Some [false] /\
  verdicts demo_session [0; 2; 4; 6; 8] <$> created (demo_config Sliding [rule 100 1 "$http_a"; rule 2 60 "$http_b"]) =
    Some [true; true; true; true; true].
Proof. vm_compute. split; reflexivity. Qed.

(** The prefix lands before the marker of the header's name. *)
Example header_name_prefixed : rate_limit_header_name "1" "X-RateLimit-Limit" = "X-1-RateLimit-Limit".
Proof. reflexivity. Qed.
