(* ===== verification/Pipeline.v ===== *)
(** * Plugin execution and gateway exits

    The plugin executor and the two-layer pipeline of
    [src/src/core/plugin/pipeline.rs], and the resolution and writing of
    gateway-generated responses of [src/src/utils/response.rs]. *)

From Stdlib Require Import ZArith Lia Ascii.
From stdpp Require Import base tactics gmap strings pretty option list.
From S2P Require Import Prelude Errors GraphStore Utf8 RequestVars Limiting RouteBuild.

Open Scope Z_scope.

(** ** Exit transformation *)

Record ExitTransformRule : Type := {
  codes : list Z;
  status_code : option Z;
  rule_body : option string;
  rule_headers : list (string * string);
}.
Record ExitTransform : Type := { exit_rules : list ExitTransformRule }.

Definition matching (self : ExitTransform) (status : Z) : option ExitTransformRule :=
  List.find (fun r => bool_decide (status ∈ codes r)) (exit_rules self).

(** [str::replace]: every occurrence, left to right. *)
Fixpoint replace_from (skip : nat) (pat rep s : string) : string :=
  match s with
  | EmptyString => ""
  | String a s' =>
    match skip with
    | S skip => replace_from skip pat rep s'
    | O => if starts_with s pat then rep +:+ replace_from (String.length pat - 1) pat rep s'
           else String a (replace_from O pat rep s')
    end
  end.
Definition replace_all (pat rep s : string) : string := replace_from 0 pat rep s.

Definition substitute_exit_vars (template : string) (status : Z) (message request_id : option string) : string :=
  replace_all "$request_id" (default "" request_id)
    (replace_all "$message" (default "" message) (replace_all "$status" (pretty status) template)).

Definition eq_ignore_ascii_case (a b : string) : bool := bool_decide (to_ascii_lowercase a = to_ascii_lowercase b).
Definition is_framing_header (name : string) : bool :=
  eq_ignore_ascii_case name "content-length" || eq_ignore_ascii_case name "transfer-encoding".

Record ResolvedExitResponse : Type := {
  r_status : Z;
  r_body : option string;
  r_content_type : option string;
  r_headers : list (string * string);
}.
#[export] Instance eta_ResolvedExitResponse : Eta ResolvedExitResponse := fun r =>
  Build_ResolvedExitResponse (r_status r) (r_body r) (r_content_type r) (r_headers r).

(** The first loop: content types go to their slot, framing is dropped. *)
Definition normalize_header (acc : option string * list (string * string)) (nv : string * string) :
    option string * list (string * string) :=
  if eq_ignore_ascii_case nv.1 "content-type" then (Some nv.2, acc.2)
  else if is_framing_header nv.1 then acc
  else (acc.1, (acc.2 ++ [nv])%list).

(** The last loop: a rule's header replaces those of its name. *)
Definition apply_rule_header (body request_id : option string) (resolved : ResolvedExitResponse) (nv : string * string) :
    ResolvedExitResponse :=
  let value := substitute_exit_vars nv.2 (r_status resolved) body request_id in
  if eq_ignore_ascii_case nv.1 "content-type" then resolved <| r_content_type := Some value |>
  else if is_framing_header nv.1 then resolved
  else resolved <| r_headers :=
         (List.filter (fun e => negb (eq_ignore_ascii_case e.1 nv.1)) (r_headers resolved) ++ [(nv.1, value)])%list |>.

Definition resolve_exit_response (transform : option ExitTransform) (status : Z) (body content_type : option string)
    (extra_headers : list (string * string)) (request_id : option string) : ResolvedExitResponse :=
  let '(content_type, headers) := fold_left normalize_header extra_headers (content_type, []) in
  let resolved := {| r_status := status; r_body := body; r_content_type := content_type; r_headers := headers |} in
  match match transform with Some t => matching t status | None => None end with
  | None => resolved
  | Some rule =>
    let resolved := match status_code rule with Some remap => resolved <| r_status := remap |> | None => resolved end in
    let resolved :=
      match rule_body rule with
      | Some template =>
        resolved <| r_body := Some (substitute_exit_vars template (r_status resolved) body request_id) |>
                 <| r_content_type := None |>
      | None => resolved
      end in
    fold_left (apply_rule_header body request_id) (rule_headers rule) resolved
  end.

(** ** The written response *)

Record Written : Type := { w_status : Z; w_headers : list (string * string); w_body : option string }.

Definition header_values (name : string) (hs : list (string * string)) : list string :=
  snd <$> List.filter (fun e => eq_ignore_ascii_case e.1 name) hs.

(** [insert_header] replaces the fields of the name; names and values are
    checked by the [http] crate. *)
Section exit.
Context (header_ok : string -> string -> Result unit string).

Definition insert_header (name value : string) (hs : list (string * string)) : Result (list (string * string)) string :=
  let? _ := header_ok name value in
  Ok (List.filter (fun e => negb (eq_ignore_ascii_case e.1 name)) hs ++ [(name, value)])%list.

Definition insert_all (l hs : list (string * string)) : Result (list (string * string)) string :=
  try_fold (fun hs nv => insert_header nv.1 nv.2 hs) hs l.

Definition body_forbidden (status : Z) : bool :=
  ((100 <=? status) && (status <=? 199)) || (status =? 204) || (status =? 304).

(** [send_exit_response] up to the writes; [StatusCode] takes three digits. *)
Definition render_exit_response (resolved : ResolvedExitResponse) : Result Written string :=
  let final_status := r_status resolved in
  if (100 <=? final_status) && (final_status <=? 999) then
    let forbidden := body_forbidden final_status in
    let final_body := if forbidden then None else r_body resolved in
    let? hs := if forbidden then Ok [] else
                 match r_content_type resolved with Some ct => insert_header "content-type" ct [] | None => Ok [] end in
    match final_body with
    | Some b =>
      if bool_decide (b = "") then
        let? hs := insert_header "content-length" "0" hs in
        let? hs := insert_all (r_headers resolved) hs in
        Ok {| w_status := final_status; w_headers := hs; w_body := None |}
      else
        let? hs := insert_header "content-length" (pretty (String.length b)) hs in
        let? hs := insert_all (r_headers resolved) hs in
        Ok {| w_status := final_status; w_headers := hs; w_body := Some b |}
    | None =>
      let? hs := if forbidden then Ok hs else insert_header "content-length" "0" hs in
      let? hs := insert_all (r_headers resolved) hs in
      Ok {| w_status := final_status; w_headers := hs; w_body := None |}
    end
  else Err "invalid exit-transformer status".

End exit.

(** ** Phases *)

Definition EARLY_REQUEST : Z := 1.
Definition REQUEST : Z := 2.
Definition UPSTREAM_REQUEST : Z := 4.
Definition REQUEST_BODY : Z := 8.
Definition RESPONSE : Z := 16.
Definition RESPONSE_BODY : Z := 32.
Definition LOGGING : Z := 64.
Definition UPSTREAM_PEER : Z := 128.

Definition phases_contain (self other : Z) : bool := Z.land self other =? other.

(** ** The executor *)

Section executor.
Context `{Compiler} {W : Type}.

Abbreviation Hook A := (W -> Result A string * W).

(** The hooks of a plugin over the mutable state of a request, its session and
    context: what a [dyn ProxyPlugin] is to the executor. *)
Class Hooks : Type := {
  early_request_hook : Plugin -> Hook unit;
  request_hook : Plugin -> Hook FilterVerdict;
  upstream_request_hook : Plugin -> Hook unit;
  request_body_hook : Plugin -> Hook unit;
  response_hook : Plugin -> Hook unit;
  response_body_hook : Plugin -> Hook unit;
  upstream_peer_hook : Plugin -> Hook unit;
  logging_hook : Plugin -> W -> W;
  exit_transform_of : Plugin -> option ExitTransform;
}.
Context `{Hooks}.

Record ProxyPluginExecutor : Type := {
  plugins : list PluginEntry;
  early_request : list Plugin;
  request : list Plugin;
  upstream_request : list Plugin;
  request_body : list Plugin;
  response : list Plugin;
  response_body : list Plugin;
  logging : list Plugin;
  upstream_peer : list Plugin;
}.
#[export] Instance eta_ProxyPluginExecutor : Eta ProxyPluginExecutor := fun e =>
  Build_ProxyPluginExecutor (plugins e) (early_request e) (request e) (upstream_request e) (request_body e) (response e)
    (response_body e) (logging e) (upstream_peer e).

Definition executor_default : ProxyPluginExecutor :=
  {| plugins := []; early_request := []; request := []; upstream_request := []; request_body := []; response := [];
     response_body := []; logging := []; upstream_peer := [] |}.

Definition push_if (entry : PluginEntry) (phase : Z) (l : list Plugin) : list Plugin :=
  if phases_contain (phases entry) phase then (l ++ [plugin entry])%list else l.

(** One turn of the partition loop. *)
Definition partition_step (e : ProxyPluginExecutor) (entry : PluginEntry) : ProxyPluginExecutor :=
  {| plugins := plugins e;
     early_request := push_if entry EARLY_REQUEST (early_request e);
     request := push_if entry REQUEST (request e);
     upstream_request := push_if entry UPSTREAM_REQUEST (upstream_request e);
     request_body := push_if entry REQUEST_BODY (request_body e);
     response := push_if entry RESPONSE (response e);
     response_body := push_if entry RESPONSE_BODY (response_body e);
     logging := push_if entry LOGGING (logging e);
     upstream_peer := push_if entry UPSTREAM_PEER (upstream_peer e) |}.

Definition from_sorted (entries : list PluginEntry) : ProxyPluginExecutor :=
  fold_left partition_step entries (executor_default <| plugins := entries |>).

Definition executor_new (entries : list PluginEntry) : ProxyPluginExecutor := from_sorted (sort_plugins_by_priority_desc entries).

Definition has_plugin (self : ProxyPluginExecutor) (name : string) : bool :=
  existsb (fun e => bool_decide (entry_name e = name)) (plugins self).

Definition has_plugin_in_phase (self : ProxyPluginExecutor) (name : string) (phase : Z) : bool :=
  let any := existsb (fun p => bool_decide (p_name p = name)) in
  if phase =? EARLY_REQUEST then any (early_request self)
  else if phase =? REQUEST then any (request self)
  else if phase =? UPSTREAM_REQUEST then any (upstream_request self)
  else if phase =? REQUEST_BODY then any (request_body self)
  else if phase =? RESPONSE then any (response self)
  else if phase =? RESPONSE_BODY then any (response_body self)
  else if phase =? LOGGING then any (logging self)
  else if phase =? UPSTREAM_PEER then any (upstream_peer self)
  else false.

Fixpoint find_transform (l : list PluginEntry) : option ExitTransform :=
  match l with
  | [] => None
  | e :: l => match exit_transform_of (plugin e) with Some t => Some t | None => find_transform l end
  end.
Definition executor_exit_transform (self : ProxyPluginExecutor) : option ExitTransform := find_transform (plugins self).

(** [for_each_plugin_async!] and [_sync!]: in order, up to the first error. *)
Fixpoint for_each_plugin (hook : Plugin -> Hook unit) (l : list Plugin) (w : W) : Result unit string * W :=
  match l with
  | [] => (Ok (), w)
  | p :: l => match hook p w with (Ok _, w) => for_each_plugin hook l w | (Err e, w) => (Err e, w) end
  end.

(** The request phase also stops at the first verdict other than [Continue]. *)
Fixpoint first_verdict (l : list Plugin) (w : W) : Result FilterVerdict string * W :=
  match l with
  | [] => (Ok Continue, w)
  | p :: l => match request_hook p w with (Ok Continue, w) => first_verdict l w | r => r end
  end.

Definition run_logging (l : list Plugin) (w : W) : W := fold_left (fun w p => logging_hook p w) l w.

(** ** The pipeline *)

Record CompiledPluginPipeline : Type := { global : ProxyPluginExecutor; route : ProxyPluginExecutor }.

(** Both layers of a phase: the global one first, an error skips the route's. *)
Definition run_layers (hook : Plugin -> Hook unit) (phase : ProxyPluginExecutor -> list Plugin)
    (self : CompiledPluginPipeline) (w : W) : Result unit string * W :=
  match for_each_plugin hook (phase (global self)) w with
  | (Ok _, w) => for_each_plugin hook (phase (route self)) w
  | (Err e, w) => (Err e, w)
  end.

Definition pipeline_early_request := run_layers early_request_hook early_request.
Definition pipeline_upstream_request := run_layers upstream_request_hook upstream_request.
Definition pipeline_request_body := run_layers request_body_hook request_body.
Definition pipeline_response := run_layers response_hook response.
Definition pipeline_response_body := run_layers response_body_hook response_body.
Definition pipeline_upstream_peer := run_layers upstream_peer_hook upstream_peer.
Definition pipeline_logging (self : CompiledPluginPipeline) (w : W) : W :=
  run_logging (logging (route self)) (run_logging (logging (global self)) w).

Definition pipeline_has_plugin (self : CompiledPluginPipeline) (name : string) : bool :=
  has_plugin (global self) name || has_plugin (route self) name.

Definition pipeline_exit_transform (self : CompiledPluginPipeline) : option ExitTransform :=
  match executor_exit_transform (route self) with Some t => Some t | None => executor_exit_transform (global self) end.

(** The session's writes: dropping keep-alive, and one response. *)
Context (header_ok : string -> string -> Result unit string) (request_id : W -> option string)
  (drop_keepalive : W -> W) (write_response : Written -> Hook unit).

Definition send_rejection (self : CompiledPluginPipeline) (r : Rejection) (w : W) : Result unit string * W :=
  let w := if close_connection r then drop_keepalive w else w in
  match render_exit_response header_ok
          (resolve_exit_response (pipeline_exit_transform self) (status r) (Limiting.body r) (content_type r)
             (rejection_headers r) (request_id w)) with
  | Ok written => write_response written w
  | Err e => (Err e, w)
  end.

(** Answers whether the request was short-circuited. *)
Definition pipeline_request_filter (self : CompiledPluginPipeline) (w : W) : Result bool string * W :=
  let '(verdict, w) :=
    match first_verdict (request (global self)) w with
    | (Ok Continue, w) => first_verdict (request (route self)) w
    | r => r
    end in
  match verdict with
  | Ok Continue => (Ok false, w)
  | Ok (Reject rejection) =>
    match send_rejection self rejection w with (Ok _, w) => (Ok true, w) | (Err e, w) => (Err e, w) end
  | Err e => (Err e, w)
  end.

End executor.

(** ** Header lemmas *)

Lemma eq_case_refl a : eq_ignore_ascii_case a a = true.
Proof. by apply bool_decide_eq_true. Qed.
Lemma eq_case_trans a b c : eq_ignore_ascii_case a b = true -> eq_ignore_ascii_case a c = eq_ignore_ascii_case b c.
Proof. unfold eq_ignore_ascii_case. rewrite bool_decide_eq_true. by intros ->. Qed.

Lemma header_values_app name a b : header_values name (a ++ b) = (header_values name a ++ header_values name b)%list.
Proof. unfold header_values. by rewrite List.filter_app, fmap_app. Qed.

Lemma header_values_cons name e hs :
  header_values name (e :: hs) = if eq_ignore_ascii_case e.1 name then e.2 :: header_values name hs else header_values name hs.
Proof. unfold header_values. simpl. by destruct (eq_ignore_ascii_case e.1 name). Qed.

Lemma header_values_without name n hs :
  header_values name (List.filter (fun e => negb (eq_ignore_ascii_case e.1 n)) hs) =
  if eq_ignore_ascii_case n name then [] else header_values name hs.
Proof.
  induction hs as [|e hs IH]; [by destruct (eq_ignore_ascii_case n name)|]. rewrite header_values_cons. cbn [List.filter].
  destruct (eq_ignore_ascii_case e.1 n) eqn:E; cbn [negb].
  - rewrite IH, (eq_case_trans _ _ name E). by destruct (eq_ignore_ascii_case n name).
  - rewrite header_values_cons, IH. destruct (eq_ignore_ascii_case e.1 name) eqn:Ek; [|done].
    destruct (eq_ignore_ascii_case n name) eqn:En; [|done]. unfold eq_ignore_ascii_case in *. bool_to_prop. congruence.
Qed.

Section headers.
Context (header_ok : string -> string -> Result unit string).

Lemma insert_header_values n v hs hs' name : insert_header header_ok n v hs = Ok hs' ->
  header_values name hs' = if eq_ignore_ascii_case n name then [v] else header_values name hs.
Proof.
  unfold insert_header. destruct (header_ok n v); [|done]. intros [= <-]. rewrite header_values_app, header_values_without.
  rewrite header_values_cons. simpl. destruct (eq_ignore_ascii_case n name); [done|]. by rewrite app_nil_r.
Qed.

(** Fields that the writer does not own. *)
Definition plain_header (nv : string * string) : bool :=
  negb (eq_ignore_ascii_case nv.1 "content-type") && negb (is_framing_header nv.1).
Definition owned (name : string) : Prop := name = "content-type" \/ name = "content-length" \/ name = "transfer-encoding".

Lemma insert_all_owned l hs hs' name : owned name -> Forall (fun nv => plain_header nv = true) l ->
  insert_all header_ok l hs = Ok hs' -> header_values name hs' = header_values name hs.
Proof.
  intros Hn Hl. revert hs. induction Hl as [|[n v] l Hp _ IH]; intros hs; [by intros [= <-]|].
  unfold insert_all. cbn [try_fold fst snd]. destruct (insert_header header_ok n v hs) as [hs1|] eqn:Ei; [|done]. simpl. intros Hf.
  rewrite (IH _ Hf), (insert_header_values _ _ _ _ _ Ei). unfold plain_header, is_framing_header in Hp. simpl in Hp.
  apply andb_true_iff in Hp as [Hct%negb_true_iff [Hcl Hte]%negb_true_iff%orb_false_iff].
  destruct Hn as [->|[->| ->]]; [by rewrite Hct|by rewrite Hcl|by rewrite Hte].
Qed.

(** The tail of the writer: the length, then the plain fields. *)
Lemma write_framed l h0 len st bd w : Forall (fun nv => plain_header nv = true) l ->
  (let? hs := insert_header header_ok "content-length" len h0 in
   let? hs := insert_all header_ok l hs in Ok {| w_status := st; w_headers := hs; w_body := bd |}) = Ok w ->
  w_status w = st /\ w_body w = bd /\ header_values "content-length" (w_headers w) = [len] /\
  header_values "transfer-encoding" (w_headers w) = header_values "transfer-encoding" h0 /\
  header_values "content-type" (w_headers w) = header_values "content-type" h0.
Proof.
  intros Hl. destruct (insert_header header_ok "content-length" len h0) as [h1|] eqn:E1; [|done]. simpl.
  destruct (insert_all header_ok l h1) as [h2|] eqn:E2; [|done]. simpl. intros [= <-]. cbn [w_status w_headers w_body].
  rewrite (insert_all_owned l h1 h2 "content-length"), (insert_all_owned l h1 h2 "transfer-encoding"),
    (insert_all_owned l h1 h2 "content-type") by (unfold owned; tauto || done).
  by rewrite !(insert_header_values _ _ _ _ _ E1).
Qed.

End headers.

(** Whatever rules and plugins ask for, only plain fields are left. *)
Lemma resolved_plain transform st b ct extra rid :
  Forall (fun nv => plain_header nv = true) (r_headers (resolve_exit_response transform st b ct extra rid)).
Proof.
  assert (forall l acc, Forall (fun nv => plain_header nv = true) acc.2 ->
    Forall (fun nv => plain_header nv = true) (fold_left normalize_header l acc).2) as Hnorm.
  { induction l as [|nv l IH]; intros acc Hacc; [done|]. apply IH. unfold normalize_header.
    destruct (eq_ignore_ascii_case nv.1 "content-type") eqn:E1; [done|]. destruct (is_framing_header nv.1) eqn:E2; [done|].
    simpl. apply Forall_app. split; [done|]. apply Forall_singleton. unfold plain_header. by rewrite E1, E2. }
  assert (forall l r, Forall (fun nv => plain_header nv = true) (r_headers r) ->
    Forall (fun nv => plain_header nv = true) (r_headers (fold_left (apply_rule_header b rid) l r))) as Hrule.
  { induction l as [|nv l IH]; intros r Hr; [done|]. apply IH. unfold apply_rule_header.
    destruct (eq_ignore_ascii_case nv.1 "content-type") eqn:E1; [done|]. destruct (is_framing_header nv.1) eqn:E2; [done|].
    simpl. apply Forall_app. split; [|apply Forall_singleton; unfold plain_header; simpl; by rewrite E1, E2].
    apply Forall_forall. intros x Hx. apply list_elem_of_In, filter_In in Hx as [Hx _]. apply list_elem_of_In in Hx.
    rewrite Forall_forall in Hr. auto. }
  unfold resolve_exit_response. specialize (Hnorm extra (ct, []) (Forall_nil_2 _)).
  destruct (fold_left normalize_header extra (ct, [])) as [ct' hs]. simpl in Hnorm.
  destruct (match transform with Some t => matching t st | None => None end) as [rule|]; [|done].
  apply Hrule. by destruct (status_code rule), (rule_body rule).
Qed.

(** ** Partition lemmas *)

Section partition.
Context `{Compiler} {W : Type} `{!Hooks (W := W)}.

(** The plugins that declare a phase, in order. *)
Definition declared (phase : Z) (entries : list PluginEntry) : list Plugin :=
  plugin <$> List.filter (fun e => phases_contain (phases e) phase) entries.

Lemma declared_app phase a b : declared phase (a ++ b) = (declared phase a ++ declared phase b)%list.
Proof. unfold declared. by rewrite List.filter_app, fmap_app. Qed.

Lemma push_if_declared entry phase entries l :
  (push_if entry phase l ++ declared phase entries)%list = (l ++ declared phase (entry :: entries))%list.
Proof.
  unfold push_if, declared. simpl. destruct (phases_contain (phases entry) phase); [|done].
  rewrite <-app_assoc. done.
Qed.

Lemma partition_loop entries e :
  let e' := fold_left partition_step entries e in
  plugins e' = plugins e /\
  early_request e' = (early_request e ++ declared EARLY_REQUEST entries)%list /\
  request e' = (request e ++ declared REQUEST entries)%list /\
  upstream_request e' = (upstream_request e ++ declared UPSTREAM_REQUEST entries)%list /\
  request_body e' = (request_body e ++ declared REQUEST_BODY entries)%list /\
  response e' = (response e ++ declared RESPONSE entries)%list /\
  response_body e' = (response_body e ++ declared RESPONSE_BODY entries)%list /\
  logging e' = (logging e ++ declared LOGGING entries)%list /\
  upstream_peer e' = (upstream_peer e ++ declared UPSTREAM_PEER entries)%list.
Proof.
  revert e. induction entries as [|x entries IH]; intros e; simpl.
  - unfold declared. simpl. by rewrite !app_nil_r.
  - specialize (IH (partition_step e x)). cbv zeta in IH. rewrite <-!push_if_declared. exact IH.
Qed.

Lemma from_sorted_partition entries :
  let e := from_sorted entries in
  plugins e = entries /\ early_request e = declared EARLY_REQUEST entries /\ request e = declared REQUEST entries /\
  upstream_request e = declared UPSTREAM_REQUEST entries /\ request_body e = declared REQUEST_BODY entries /\
  response e = declared RESPONSE entries /\ response_body e = declared RESPONSE_BODY entries /\
  logging e = declared LOGGING entries /\ upstream_peer e = declared UPSTREAM_PEER entries.
Proof. exact (partition_loop entries (executor_default <| plugins := entries |>)). Qed.

Lemma for_each_app hook a b (w : W) : for_each_plugin hook (a ++ b) w =
  match for_each_plugin hook a w with (Ok _, w) => for_each_plugin hook b w | (Err e, w) => (Err e, w) end.
Proof. revert w. induction a as [|p a IH]; intros w; simpl; [done|]. destruct (hook p w) as [[u|e] w']; [apply IH|done]. Qed.

Lemma first_verdict_app a b (w : W) : first_verdict (a ++ b) w =
  match first_verdict a w with (Ok Continue, w) => first_verdict b w | r => r end.
Proof. revert w. induction a as [|p a IH]; intros w; simpl; [done|]. destruct (request_hook p w) as [[[|r]|e] w']; [apply IH|done|done]. Qed.

End partition.

(** ** Properties *)

(** C24 (gateway exits are framed by the writer alone).  Whatever status, body,
    headers and transformation rules are asked for, a written exit carries no
    [Transfer-Encoding]; a status that forbids content is sent without body,
    type and length; any other is sent with exactly one [Content-Length], that
    of its body. *)
Theorem exit_framing header_ok transform st b ct extra rid w :
  render_exit_response header_ok (resolve_exit_response transform st b ct extra rid) = Ok w ->
  header_values "transfer-encoding" (w_headers w) = [] /\
  (body_forbidden (w_status w) = true ->
     w_body w = None /\ header_values "content-length" (w_headers w) = [] /\ header_values "content-type" (w_headers w) = []) /\
  (body_forbidden (w_status w) = false ->
     header_values "content-length" (w_headers w) = [pretty (String.length (default "" (w_body w)))] /\
     header_values "content-type" (w_headers w) =
       match r_content_type (resolve_exit_response transform st b ct extra rid) with Some c => [c] | None => [] end).
Proof.
  pose proof (resolved_plain transform st b ct extra rid) as Hp. set (r := resolve_exit_response transform st b ct extra rid) in *.
  clearbody r. unfold render_exit_response. destruct (_ && _); [|done].
  destruct (body_forbidden (r_status r)) eqn:Ef; cbn [and_then].
  - destruct (insert_all header_ok (r_headers r) []) as [hs|] eqn:Ei; [|done]. simpl. intros [= <-]. cbn [w_status w_headers w_body].
    rewrite Ef, (insert_all_owned header_ok _ _ _ "content-length" ltac:(unfold owned; tauto) Hp Ei),
      (insert_all_owned header_ok _ _ _ "content-type" ltac:(unfold owned; tauto) Hp Ei),
      (insert_all_owned header_ok _ _ _ "transfer-encoding" ltac:(unfold owned; tauto) Hp Ei). done.
  - destruct (match r_content_type r with Some ct => insert_header header_ok "content-type" ct [] | None => Ok [] end) as [h0|] eqn:E0; [|done].
    assert (header_values "transfer-encoding" h0 = [] /\
      header_values "content-type" h0 = match r_content_type r with Some c => [c] | None => [] end) as (Ht0 & Hc0).
    { destruct (r_content_type r); [|by injection E0 as <-]. by rewrite !(insert_header_values _ _ _ _ _ _ E0). }
    cbn [and_then]. intros Hw.
    destruct (r_body r) as [bd|]; [case_bool_decide|];
      apply (write_framed header_ok) in Hw as (Hs & Hbd & Hl & Ht & Hc); try exact Hp; rewrite Hs, Ef, Hbd, Ht, Hc, Hl, Ht0, Hc0; by subst.
Qed.

(** C23 (plugins run where they declare).  In every phase the pipeline runs
    exactly the plugins that declare it, global rules first, each layer in its
    executor's order, up to the first error; the request phase stops at the
    first rejection, which is written once and ends the request. *)
Theorem pipeline_runs_in_order `{Compiler} {W : Type} `{!Hooks (W := W)} header_ok rid close write (g r : list PluginEntry) (w : W) :
  let p := {| global := from_sorted g; route := from_sorted r |} in
  pipeline_early_request p w = for_each_plugin early_request_hook (declared EARLY_REQUEST (g ++ r)) w /\
  pipeline_upstream_request p w = for_each_plugin upstream_request_hook (declared UPSTREAM_REQUEST (g ++ r)) w /\
  pipeline_request_body p w = for_each_plugin request_body_hook (declared REQUEST_BODY (g ++ r)) w /\
  pipeline_response p w = for_each_plugin response_hook (declared RESPONSE (g ++ r)) w /\
  pipeline_response_body p w = for_each_plugin response_body_hook (declared RESPONSE_BODY (g ++ r)) w /\
  pipeline_upstream_peer p w = for_each_plugin upstream_peer_hook (declared UPSTREAM_PEER (g ++ r)) w /\
  pipeline_logging p w = run_logging (declared LOGGING (g ++ r)) w /\
  pipeline_request_filter header_ok rid close write p w =
    match first_verdict (declared REQUEST (g ++ r)) w with
    | (Ok Continue, w) => (Ok false, w)
    | (Ok (Reject rejection), w) =>
      match send_rejection header_ok rid close write p rejection w with (Ok _, w) => (Ok true, w) | (Err e, w) => (Err e, w) end
    | (Err e, w) => (Err e, w)
    end.
Proof.
  intros p. destruct (from_sorted_partition g) as (_ & G1 & G2 & G3 & G4 & G5 & G6 & G7 & G8).
  destruct (from_sorted_partition r) as (_ & R1 & R2 & R3 & R4 & R5 & R6 & R7 & R8). cbv zeta in *.
  rewrite !declared_app. split_and!.
  all: try (rewrite for_each_app; unfold p, pipeline_early_request, pipeline_upstream_request, pipeline_request_body,
    pipeline_response, pipeline_response_body, pipeline_upstream_peer, run_layers; cbn [global route];
    by rewrite ?G1, ?R1, ?G3, ?R3, ?G4, ?R4, ?G5, ?R5, ?G6, ?R6, ?G8, ?R8).
  - unfold pipeline_logging, run_logging, p. cbn [global route]. by rewrite fold_left_app, G7, R7.
  - unfold pipeline_request_filter. rewrite first_verdict_app. unfold p at 1 2. cbn [global route]. rewrite G2, R2.
    destruct (first_verdict (declared REQUEST g) w) as [[[|rj]|e] w1]; done.
Qed.

(** ** Concrete exits *)

Definition accept_headers (n v : string) : Result unit string := Ok ().
Definition demo_transform : ExitTransform :=
  {| exit_rules := [{| codes := [401; 403]; status_code := Some 403; rule_body := Some "denied: $message ($status)";
                       rule_headers := [("Content-Length", "0"); ("X-Id", "$request_id")] |}] |}.

Lemma exit_framing_witness : exists w,
  render_exit_response accept_headers (resolve_exit_response (Some demo_transform) 401 (Some "no token") (Some "text/plain")
    [("transfer-encoding", "chunked"); ("x-id", "old")] (Some "r1")) = Ok w /\
  w_body w = Some "denied: no token (403)" /\ header_values "content-length" (w_headers w) = ["22"] /\
  header_values "transfer-encoding" (w_headers w) = [] /\ header_values "X-ID" (w_headers w) = ["r1"].
Proof.
  destruct (render_exit_response accept_headers (resolve_exit_response (Some demo_transform) 401 (Some "no token") (Some "text/plain")
    [("transfer-encoding", "chunked"); ("x-id", "old")] (Some "r1"))) as [w|] eqn:E; [|vm_compute in E; discriminate].
  destruct (exit_framing _ _ _ _ _ _ _ _ E) as (Ht & _ & Hl). vm_compute in E. injection E as <-.
  eexists. split; [reflexivity|]. split; [reflexivity|]. split; [exact (proj1 (Hl eq_refl))|]. split; [exact Ht|reflexivity].
Defined.

(** Variables are substituted one after the other: a message that holds a
    variable's name is itself expanded. *)
Example message_is_expanded :
  substitute_exit_vars "error: $message" 400 (Some "bad header $request_id") (Some "r1") = "error: bad header r1".
Proof. vm_compute. reflexivity. Qed.
