(* ===== verification/RouteMatch.v ===== *)
(** * Route matching ([src/src/proxy/route.rs])

    Building the route matcher from the compiled routes and matching requests
    and CORS preflights.  The [matchit] router is a type class. *)

From Stdlib Require Import ZArith Lia Ascii Sorted.
From stdpp Require Import base tactics gmap fin_maps strings pretty option sorting list.
From S2P Require Import Prelude Errors GraphStore Utf8 Hosts Config RequestVars RouteBuild ControlPlane SniMatch Limiting Pipeline.

Open Scope Z_scope.

(** ** The router

    [path_update p f] is [at_mut(p)] with an update of the value found: it looks
    [p] up as a path, like [path_at].  Only literal routes are relied on. *)
Class PathRouter : Type := {
  PRouter : Type -> Type;
  path_new {A} : PRouter A;
  path_insert {A} : string -> A -> PRouter A -> Result (PRouter A) string;
  path_at {A} : string -> PRouter A -> option (A * list (string * string));
  path_update {A} : string -> (A -> A) -> PRouter A -> option (PRouter A);
}.

(** [stores r m]: the routes of [r] are the literal keys of [m]. *)
Class PathRouterLaws `{PathRouter} : Type := {
  stores {A} : PRouter A -> gmap string A -> Prop;
  stores_new {A} : stores (A := A) path_new ∅;
  stores_insert {A} (r : PRouter A) m p (a : A) : stores r m -> literal_route p = true -> m !! p = None ->
    exists r', path_insert p a r = Ok r' /\ stores r' (<[p := a]> m);
  stores_at {A} (r : PRouter A) m p : stores (A := A) r m -> path_at p r = (fun a => (a, [])) <$> m !! p;
  stores_update {A} (r : PRouter A) m p f : stores (A := A) r m ->
    match m !! p with
    | Some a => exists r', path_update p f r = Some r' /\ stores r' (<[p := f a]> m)
    | None => path_update p f r = None
    end;
}.

Section matcher.
Context `{Compiler} `{PathRouter}.

Abbreviation Routes := (PRouter (list ProxyRoute)).
Abbreviation BuildError := (Stop string).

Record MatchEntry : Type := {
  non_host_uri : Routes;
  host_uris : PRouter Routes;
  global_cors : bool;
}.

(** ** Building *)

Definition reverse_ascii_lowercase (input : string) : string := to_ascii_lowercase (rev_chars input).

Definition reverse_host (host : string) : string :=
  match strip_prefix "*" host with
  | Some domain_part => reverse_ascii_lowercase domain_part +:+ "{*subdomain}"
  | None => reverse_ascii_lowercase host
  end.

Definition route_priority (r : ProxyRoute) : Z := Route.priority (pr_inner r).

(** The stable [sort_by_key] on descending priorities. *)
Fixpoint insert_by_priority (r : ProxyRoute) (l : list ProxyRoute) : list ProxyRoute :=
  match l with
  | [] => [r]
  | x :: l' => if route_priority x <=? route_priority r then r :: l else x :: insert_by_priority r l'
  end.
Definition sort_by_priority (l : list ProxyRoute) : list ProxyRoute := fold_right insert_by_priority [] l.

Definition insert_into_router (router : Routes) (uri : string) (proxy_route : ProxyRoute) : Result Routes BuildError :=
  match path_update uri (fun routes => sort_by_priority (routes ++ [proxy_route])) router with
  | Some router => Ok router
  | None => lift_err (path_insert uri [proxy_route] router)
  end.

Definition insert_uris (uris : list string) (proxy_route : ProxyRoute) (router : Routes) : Result Routes BuildError :=
  try_fold (fun router uri => insert_into_router router uri proxy_route) router uris.

(** One host of [insert_host_uris]. *)
Definition insert_host (uris : list string) (proxy_route : ProxyRoute) (hosts : PRouter Routes) (host : string) :
    Result (PRouter Routes) BuildError :=
  let processed_host := reverse_host host in
  let? hosts := match path_at processed_host hosts with
                | Some _ => Ok hosts
                | None => lift_err (path_insert processed_host path_new hosts)
                end in
  match path_at processed_host hosts with
  | Some (inner, _) =>
    let? inner := insert_uris uris proxy_route inner in
    match path_update processed_host (fun _ => inner) hosts with
    | Some hosts => Ok hosts
    | None => Err (Panic "called `Option::unwrap()` on a `None` value")
    end
  | None => Err (Panic "called `Option::unwrap()` on a `None` value")
  end.

Definition insert_host_uris (hosts uris : list string) (proxy_route : ProxyRoute) (self : PRouter Routes) :
    Result (PRouter Routes) BuildError :=
  try_fold (insert_host uris proxy_route) self hosts.

Definition insert_route (self : MatchEntry) (proxy_route : ProxyRoute) : Result MatchEntry BuildError :=
  let route_hosts := effective_hosts proxy_route in
  let uris := Route.get_uris (pr_inner proxy_route) in
  match route_hosts with
  | [] =>
    let? r := insert_uris uris proxy_route (non_host_uri self) in
    Ok {| non_host_uri := r; host_uris := host_uris self; global_cors := global_cors self |}
  | _ =>
    let? h := insert_host_uris route_hosts uris proxy_route (host_uris self) in
    Ok {| non_host_uri := non_host_uri self; host_uris := h; global_cors := global_cors self |}
  end.

(** Higher priority first, then the identifier. *)
Definition route_sort_key (r : ProxyRoute) : Z * string := (- route_priority r, Route.id (pr_inner r)).
Definition route_le : ProxyRoute -> ProxyRoute -> Prop := Hosts.key_le (pair_cmp Z.compare str_cmp) route_sort_key.
#[export] Instance route_le_dec : RelDecision route_le.
Proof. intros a b. unfold route_le, Hosts.key_le. apply _. Defined.

Definition ordered_routes (routes : gmap string ProxyRoute) : list ProxyRoute := merge_sort route_le (map_to_list routes).*2.

Definition build_error (r : ProxyRoute) (e : string) : ProxyError :=
  Configuration ("Failed to build route matcher for '" +:+ Route.id (pr_inner r) +:+ "': " +:+ e).

Definition MatchEntry_build (routes : gmap string ProxyRoute) (global_plugins : ProxyPluginExecutor) :
    Result MatchEntry (Stop ProxyError) :=
  try_fold (fun matcher route => map_raise (build_error route) (insert_route matcher route))
    {| non_host_uri := path_new; host_uris := path_new; global_cors := has_plugin global_plugins CORS_PLUGIN_NAME |}
    (ordered_routes routes).

(** ** Matching *)

Abbreviation RouteMatchResult := (option (list (string * string) * ProxyRoute)).

Definition method_matches (method : string) (route : ProxyRoute) : bool :=
  bool_decide (Route.methods (pr_inner route) = []) || bool_decide (method ∈ Route.methods (pr_inner route)).

Definition match_uri_method (router : Routes) (uri method : string) : RouteMatchResult :=
  match path_at uri router with
  | Some (routes, params) =>
    match List.find (method_matches method) routes with
    | Some route => Some (params, route)
    | None => None
    end
  | None => None
  end.

Definition in_host (self : MatchEntry) (host : option string) (m : Routes -> RouteMatchResult) : RouteMatchResult :=
  match host with
  | Some h =>
    if bool_decide (h = "") then None
    else match path_at (reverse_ascii_lowercase h) (host_uris self) with
         | Some (inner, _) => m inner
         | None => None
         end
  | None => None
  end.

Definition match_host_uri_method (self : MatchEntry) (host : option string) (uri method : string) : RouteMatchResult :=
  match in_host self host (fun inner => match_uri_method inner uri method) with
  | Some result => Some result
  | None => match_uri_method (non_host_uri self) uri method
  end.

Definition match_preflight_uri (router : Routes) (uri method : string) (global_cors : bool) : RouteMatchResult :=
  match path_at uri router with
  | Some (routes, params) =>
    match List.find (fun route => (global_cors || serves_preflight route) && method_matches method route) routes with
    | Some route => Some (params, route)
    | None => None
    end
  | None => None
  end.

Definition match_request `{HttpTypes} (self : MatchEntry) (session : Session) : RouteMatchResult :=
  let req := req_header session in
  match_host_uri_method self (get_request_host req) (uri_path (uri req)) (method req).

(** [method_ok] is the [http] crate's method parser. *)
Definition match_preflight `{HttpTypes} (method_ok : string -> bool) (self : MatchEntry) (session : Session) : RouteMatchResult :=
  let req := req_header session in
  if negb (bool_decide (method req = "OPTIONS")) || bool_decide (headers_get_all (headers req) "origin" = []) then None
  else match head (headers_get_all (headers req) "access-control-request-method") ≫= to_str with
       | None => None
       | Some m =>
         if negb (method_ok m) then None
         else
           let uri := uri_path (uri req) in
           match in_host self (get_request_host req) (fun inner => match_preflight_uri inner uri m (global_cors self)) with
           | Some result => Some result
           | None => match_preflight_uri (non_host_uri self) uri m (global_cors self)
           end
       end.

End matcher.

(** ** Sorting is stable *)

Section order.
Context `{Compiler}.

Definition prio_sorted (l : list ProxyRoute) : Prop := StronglySorted (fun a b => route_priority b <= route_priority a) l.

Lemma sort_by_priority_id l : prio_sorted l -> sort_by_priority l = l.
Proof.
  induction 1 as [|r l Hs IH Hr]; [done|]. simpl. rewrite IH. destruct l as [|x l]; [done|]. simpl.
  apply Forall_cons in Hr as [Hx _]. by rewrite (proj2 (Z.leb_le _ _) Hx).
Qed.

Lemma prio_sorted_snoc l r : prio_sorted l -> (forall x, x ∈ l -> route_priority r <= route_priority x) -> prio_sorted (l ++ [r]).
Proof.
  intros Hl Hr. apply StronglySorted_app. split_and!; [|done|by repeat constructor].
  intros x y Hx ->%list_elem_of_singleton. auto.
Qed.

#[export] Instance route_le_total : Total route_le := Hosts.key_le_total _ route_sort_key.
#[export] Instance route_le_trans : Transitive route_le := Hosts.key_le_trans _ route_sort_key.

Lemma route_le_priority a b : route_le a b -> route_priority b <= route_priority a.
Proof.
  unfold route_le, Hosts.key_le, pair_cmp, route_sort_key. simpl.
  destruct (Z.compare_spec (- route_priority a) (- route_priority b)); intros Hc; [lia|lia|by destruct Hc].
Qed.

Lemma ordered_sorted routes : StronglySorted route_le (ordered_routes routes).
Proof. apply Sorted_StronglySorted; [apply _|]. apply (Sorted_merge_sort route_le). Qed.

Lemma elem_of_ordered routes r : r ∈ ordered_routes routes <-> exists i, routes !! i = Some r.
Proof.
  unfold ordered_routes. rewrite (merge_sort_Permutation route_le), list_elem_of_fmap.
  setoid_rewrite <-elem_of_map_to_list. split; [intros ([i x] & -> & Hi); by exists i|intros [i Hi]; by exists (i, r)].
Qed.

End order.

(** ** What the routers hold *)

Section build_lemmas.
Context `{Compiler} `{PathRouterLaws}.

Abbreviation Routes := (PRouter (list ProxyRoute)).

(** [lists R g]: under the path [u] the router holds exactly the routes [g u],
    in order; a router of routers holds the lists [G k] under the host [k]. *)
Definition lists (R : Routes) (g : string -> list ProxyRoute) : Prop :=
  exists m, stores R m /\ forall u, default [] (m !! u) = g u.
Definition host_lists (HR : PRouter Routes) (G : string -> string -> list ProxyRoute) : Prop :=
  exists M, stores HR M /\ forall k, match M !! k with Some R => lists R (G k) | None => forall u, G k u = [] end.

(** [r] may be appended to the list: it comes last in the build order. *)
Definition appendable (r : ProxyRoute) (l : list ProxyRoute) : Prop :=
  prio_sorted l /\ forall x, x ∈ l -> route_priority r <= route_priority x.

Definition copies (r : ProxyRoute) (u : string) (uris : list string) : list ProxyRoute :=
  (fun _ => r) <$> List.filter (fun x => bool_decide (x = u)) uris.

Lemma elem_of_copies r u uris x : x ∈ copies r u uris <-> x = r /\ u ∈ uris.
Proof.
  unfold copies. rewrite list_elem_of_fmap. split.
  - intros (y & -> & Hy). apply list_elem_of_In, filter_In in Hy as [Hy E]. bool_to_prop. subst. split; [done|by apply list_elem_of_In].
  - intros [-> Hu]. exists u. split; [done|]. apply list_elem_of_In, filter_In. split; [by apply list_elem_of_In|by apply bool_decide_eq_true].
Qed.

Lemma appendable_copies r l u uris : appendable r l -> appendable r (l ++ copies r u uris).
Proof.
  intros [Hs Hr]. assert (forall n, appendable r (l ++ replicate n r)) as Hn.
  { induction n as [|n [IHs IHr]]; [simpl; by rewrite app_nil_r|]. rewrite replicate_S_end, app_assoc. split.
    - by apply prio_sorted_snoc.
    - intros x [Hx| ->%list_elem_of_singleton]%elem_of_app; [auto|done]. }
  unfold copies. assert ((fun _ : string => r) <$> List.filter (fun x => bool_decide (x = u)) uris =
    replicate (length (List.filter (fun x => bool_decide (x = u)) uris)) r) as ->; [|apply Hn].
  induction (List.filter _ uris) as [|y ys IH]; simpl; [done|by f_equal].
Qed.

Lemma insert_into_lists R g u r : lists R g -> literal_route u = true -> appendable r (g u) ->
  exists R', insert_into_router R u r = Ok R' /\ lists R' (fun v => if decide (v = u) then (g u ++ [r])%list else g v).
Proof.
  intros (m & Hm & Hg) Hu [Hs Hr]. unfold insert_into_router.
  pose proof (stores_update R m u (fun routes => sort_by_priority (routes ++ [r])) Hm) as Hup. pose proof (Hg u) as Hgu.
  destruct (m !! u) as [l|] eqn:E; simpl in Hgu.
  - destruct Hup as (R' & -> & HR'). exists R'. split; [done|]. subst l. exists (<[u := sort_by_priority (g u ++ [r])]> m).
    split; [done|]. intros v. rewrite sort_by_priority_id by (by apply prio_sorted_snoc).
    destruct (decide (v = u)) as [->|]; simplify_map_eq; [done|apply Hg].
  - rewrite Hup. destruct (stores_insert R m u [r] Hm Hu E) as (R' & -> & HR'). exists R'. split; [done|].
    exists (<[u := [r]]> m). split; [done|]. intros v. rewrite <-Hgu.
    destruct (decide (v = u)) as [->|]; simplify_map_eq; [done|apply Hg].
Qed.

Lemma lists_ext R g g' : (forall u, g u = g' u) -> lists R g -> lists R g'.
Proof. intros Hg (m & Hm & Hl). exists m. split; [done|]. intros u. by rewrite Hl. Qed.

Lemma insert_uris_lists uris r R g : lists R g -> Forall (fun u => literal_route u = true) uris -> (forall u, appendable r (g u)) ->
  exists R', insert_uris uris r R = Ok R' /\ lists R' (fun u => g u ++ copies r u uris)%list.
Proof.
  intros Hl Hu. revert R g Hl. induction Hu as [|u uris Hu _ IH]; intros R g Hl Hap.
  { exists R. split; [done|]. eapply lists_ext; [|exact Hl]. intros v. by rewrite app_nil_r. }
  destruct (insert_into_lists R g u r Hl Hu (Hap u)) as (R1 & E1 & Hl1). unfold insert_uris. cbn [try_fold]. rewrite E1. cbn [and_then].
  destruct (IH R1 _ Hl1) as (R2 & E2 & Hl2).
  { intros v. destruct (decide (v = u)) as [->|]; [|auto]. pose proof (appendable_copies r (g u) u [u] (Hap u)) as Hc.
    unfold copies in Hc. simpl in Hc. by rewrite bool_decide_true in Hc. }
  exists R2. split; [exact E2|]. eapply lists_ext; [|exact Hl2]. intros v. unfold copies. simpl.
  destruct (decide (v = u)) as [->|Hn].
  - rewrite bool_decide_true by done. by rewrite <-app_assoc.
  - by rewrite bool_decide_false by congruence.
Qed.

Lemma insert_host_lists uris r HR G h k : host_lists HR G -> reverse_host h = k -> literal_route k = true ->
  Forall (fun u => literal_route u = true) uris -> (forall u, appendable r (G k u)) ->
  exists HR', insert_host uris r HR h = Ok HR' /\
    host_lists HR' (fun k' u => if decide (k' = k) then (G k u ++ copies r u uris)%list else G k' u).
Proof.
  intros (M & HM & HG) Hk Hlit Hu Hap. unfold insert_host. cbv zeta. rewrite Hk.
  assert (exists HR1 M1 R1, (match path_at k HR with Some _ => Ok HR | None => lift_err (path_insert k path_new HR) end) = Ok HR1 /\
    stores HR1 M1 /\ M1 !! k = Some R1 /\ lists R1 (G k) /\ (forall k', k' <> k -> M1 !! k' = M !! k')) as (HR1 & M1 & R1 & -> & HM1 & Hk1 & Hl1 & Hne).
  { rewrite (stores_at HR M k HM). pose proof (HG k) as HGk. destruct (M !! k) as [R|] eqn:E; simpl.
    - exists HR, M, R. done.
    - destruct (stores_insert HR M k path_new HM Hlit E) as (HR1 & -> & HM1). exists HR1, (<[k := path_new]> M), path_new.
      split_and!; [done|done|by simplify_map_eq| |intros; by simplify_map_eq]. exists ∅. split; [apply stores_new|].
      intros u. by rewrite lookup_empty, HGk. }
  cbn [and_then]. rewrite (stores_at HR1 M1 k HM1), Hk1. cbn [fmap option_fmap option_map].
  destruct (insert_uris_lists uris r R1 (G k) Hl1 Hu Hap) as (R2 & -> & Hl2). cbn [and_then].
  pose proof (stores_update HR1 M1 k (fun _ => R2) HM1) as Hup. rewrite Hk1 in Hup. destruct Hup as (HR2 & -> & HM2).
  exists HR2. split; [done|]. exists (<[k := R2]> M1). split; [done|]. intros k'.
  destruct (decide (k' = k)) as [->|Hn]; simplify_map_eq; [exact Hl2|]. rewrite (Hne k' Hn). apply HG.
Qed.

Definition plain_list (r : ProxyRoute) (u : string) : list ProxyRoute :=
  match effective_hosts r with [] => copies r u (Route.get_uris (pr_inner r)) | _ => [] end.
Definition host_list (hosts : list string) (r : ProxyRoute) (k u : string) : list ProxyRoute :=
  hosts ≫= fun h => if decide (reverse_host h = k) then copies r u (Route.get_uris (pr_inner r)) else [].

Lemma elem_of_host_list hosts r k u x : x ∈ host_list hosts r k u ->
  x = r /\ u ∈ Route.get_uris (pr_inner r) /\ exists h, h ∈ hosts /\ reverse_host h = k.
Proof.
  unfold host_list. rewrite list_elem_of_bind. intros (h & Hx & Hh). case_decide as E; [|by apply not_elem_of_nil in Hx].
  apply elem_of_copies in Hx as [-> Hu]. eauto.
Qed.

(** Without wildcards and router parameters. *)
Definition literal_host (h : string) : Prop :=
  utf8_valid h = true /\ strip_prefix "*" h = None /\ literal_route h = true.
Definition literal (r : ProxyRoute) : Prop :=
  Forall literal_host (effective_hosts r) /\ Forall (fun u => literal_route u = true) (Route.get_uris (pr_inner r)).

Lemma lower_app a b : to_ascii_lowercase (a +:+ b) = to_ascii_lowercase a +:+ to_ascii_lowercase b.
Proof. induction a; simpl; congruence. Qed.

Lemma lower_rev s : to_ascii_lowercase (rev_chars s) = rev_chars (to_ascii_lowercase s).
Proof.
  rewrite !rev_chars_concat, lower_chunks, <-map_rev. unfold concat_chunks. change (@fmap list list_fmap) with map.
  induction (rev (utf8_chunks s)) as [|c l IH]; simpl; [done|]. by rewrite lower_app, IH.
Qed.

Lemma literal_reverse h : literal_host h -> reverse_host h = reverse_ascii_lowercase h /\ literal_route (reverse_host h) = true.
Proof.
  intros (_ & Hs & Hl). unfold reverse_host. rewrite Hs. split; [done|]. unfold reverse_ascii_lowercase. rewrite lower_rev.
  by apply literal_key.
Qed.

Lemma reverse_inj a b : utf8_valid a = true -> utf8_valid b = true ->
  reverse_ascii_lowercase a = reverse_ascii_lowercase b <-> to_ascii_lowercase a = to_ascii_lowercase b.
Proof.
  intros Ha Hb. unfold reverse_ascii_lowercase. rewrite !lower_rev. split; [|by intros ->].
  apply rev_chars_inj; by rewrite lower_valid.
Qed.

Lemma insert_hosts_lists hosts r HR G : host_lists HR G -> Forall literal_host hosts ->
  Forall (fun u => literal_route u = true) (Route.get_uris (pr_inner r)) -> (forall k u, appendable r (G k u)) ->
  exists HR', insert_host_uris hosts (Route.get_uris (pr_inner r)) r HR = Ok HR' /\
    host_lists HR' (fun k u => G k u ++ host_list hosts r k u)%list.
Proof.
  intros HG Hh Hu. revert HR G HG. induction Hh as [|h hosts Hh _ IH]; intros HR G HG Hap.
  { exists HR. split; [done|]. destruct HG as (M & HM & HG). exists M. split; [done|]. intros k. specialize (HG k).
    unfold host_list. simpl. destruct (M !! k); [|intros u; by rewrite HG].
    eapply lists_ext; [|exact HG]. intros u. by rewrite app_nil_r. }
  destruct (literal_reverse h Hh) as [_ Hlit].
  destruct (insert_host_lists _ r HR G h _ HG eq_refl Hlit Hu (Hap _)) as (HR1 & E1 & HG1).
  unfold insert_host_uris. cbn [try_fold]. rewrite E1. cbn [and_then].
  destruct (IH HR1 _ HG1) as (HR2 & E2 & HG2); [intros k u; case_decide; [by apply appendable_copies|done]|].
  exists HR2. split; [exact E2|]. destruct HG2 as (M & HM & HG2). exists M. split; [done|]. intros k. specialize (HG2 k).
  assert (forall u, (if decide (k = reverse_host h) then (G (reverse_host h) u ++ copies r u (Route.get_uris (pr_inner r)))%list else G k u)
     ++ host_list hosts r k u = G k u ++ host_list (h :: hosts) r k u)%list as Heq.
  { intros u. unfold host_list. cbn [mbind list_bind]. destruct (decide (k = reverse_host h)) as [->|Hn].
    - rewrite decide_True by done. by rewrite <-app_assoc.
    - by rewrite decide_False by congruence. }
  destruct (M !! k); [eapply lists_ext; [|exact HG2]; intros u; apply Heq|]. intros u. rewrite <-Heq. apply HG2.
Qed.

(** The concatenation of copies follows the build order. *)
Lemma copies_sorted (f : ProxyRoute -> list ProxyRoute) rs : (forall r x, x ∈ f r -> x = r) ->
  StronglySorted route_le rs -> prio_sorted (rs ≫= f).
Proof.
  intros Hf. induction 1 as [|r rs Hs IH Hr]; [constructor|]. cbn [mbind list_bind]. apply StronglySorted_app. split_and!; [| |done].
  - intros x y Hx Hy. apply Hf in Hx as ->. apply list_elem_of_bind in Hy as (r' & Hy & Hr'). apply Hf in Hy as ->.
    rewrite Forall_forall in Hr. by apply route_le_priority, Hr.
  - assert (forall l : list ProxyRoute, (forall x, x ∈ l -> x = r) -> prio_sorted l) as Heq; [|by apply Heq, Hf].
    induction l as [|x l IHl]; intros Hl; constructor; [apply IHl; intros; apply Hl; by right|].
    apply Forall_forall. intros y Hy. rewrite (Hl x (list_elem_of_here _ _)), (Hl y (list_elem_of_further _ _ _ Hy)). done.
Qed.

Lemma copies_appendable (f : ProxyRoute -> list ProxyRoute) rs r : (forall r x, x ∈ f r -> x = r) ->
  StronglySorted route_le (rs ++ [r]) -> appendable r (rs ≫= f).
Proof.
  intros Hf Hs. apply StronglySorted_app in Hs as (Hle & Hs & _). split; [by apply copies_sorted|].
  intros x (r' & Hx & Hr')%list_elem_of_bind. apply Hf in Hx as ->. apply route_le_priority, Hle; [done|by left].
Qed.

Record built (rs : list ProxyRoute) (m : MatchEntry) : Prop := {
  b_plain : lists (non_host_uri m) (fun u => rs ≫= fun r => plain_list r u);
  b_hosts : host_lists (host_uris m) (fun k u => rs ≫= fun r => host_list (effective_hosts r) r k u);
}.

Lemma plain_list_self u r x : x ∈ plain_list r u -> x = r.
Proof. unfold plain_list. destruct (effective_hosts r); [by intros [-> _]%elem_of_copies|by intros ?%not_elem_of_nil]. Qed.

Lemma insert_route_built rs m r : built rs m -> literal r -> StronglySorted route_le (rs ++ [r]) ->
  exists m', insert_route m r = Ok m' /\ built (rs ++ [r]) m'.
Proof.
  intros [Hp HG] [Hlh Hlu] Hs. unfold insert_route. cbv zeta.
  assert (forall k u, appendable r (rs ≫= fun x => host_list (effective_hosts x) x k u)) as Hap.
  { intros k u. apply copies_appendable; [|done]. intros x y Hy. by apply elem_of_host_list in Hy as [-> _]. }
  assert (forall u, appendable r (rs ≫= fun x => plain_list x u)) as Hapl.
  { intros u. apply copies_appendable; [|done]. intros x y. apply plain_list_self. }
  assert (forall f : ProxyRoute -> list ProxyRoute, (rs ++ [r]) ≫= f = (rs ≫= f) ++ f r)%list as Hsnoc.
  { intros f. rewrite bind_app. simpl. by rewrite app_nil_r. }
  destruct (effective_hosts r) as [|h hs] eqn:Eh.
  - destruct (insert_uris_lists _ r _ _ Hp Hlu Hapl) as (R' & -> & Hl'). eexists. split; [done|]. constructor; simpl.
    + eapply lists_ext; [|exact Hl']. intros u. rewrite Hsnoc. f_equal. unfold plain_list. by rewrite Eh.
    + destruct HG as (M & HM & HG). exists M. split; [done|]. intros k. specialize (HG k).
      destruct (M !! k); [eapply lists_ext; [|exact HG]|]; intros u; rewrite Hsnoc, Eh; simpl; rewrite app_nil_r; done.
  - rewrite <-Eh in Hlh |- *. destruct (insert_hosts_lists _ r _ _ HG Hlh Hlu Hap) as (HR' & -> & HG'). eexists. split; [done|].
    constructor; simpl.
    + eapply lists_ext; [|exact Hp]. intros u. rewrite Hsnoc. assert (plain_list r u = []) as -> by (unfold plain_list; by rewrite Eh).
      by rewrite app_nil_r.
    + destruct HG' as (M & HM & HG'). exists M. split; [done|]. intros k. specialize (HG' k).
      destruct (M !! k); [eapply lists_ext; [|exact HG']|]; intros u; rewrite Hsnoc; done.
Qed.

Lemma build_step rs1 : forall rs m g, built rs m -> Forall literal rs1 -> StronglySorted route_le (rs ++ rs1) -> global_cors m = g ->
  exists m', try_fold (fun matcher route => map_raise (build_error route) (insert_route matcher route)) m rs1 = Ok m' /\
    built (rs ++ rs1) m'.
Proof.
  induction rs1 as [|r rs1 IH]; intros rs m g Hm Hl Hs Hg.
  { exists m. rewrite app_nil_r. done. }
  apply Forall_cons in Hl as [Hr Hl]. rewrite cons_middle, app_assoc in Hs |- *.
  pose proof (proj1 (StronglySorted_app _ _ _) Hs) as (_ & Hs1 & _).
  destruct (insert_route_built rs m r Hm Hr Hs1) as (m1 & E1 & Hm1). cbn [try_fold]. rewrite E1. cbn [and_then map_raise].
  by apply (IH _ m1 (global_cors m1)).
Qed.

Lemma MatchEntry_build_built routes g : (forall i r, routes !! i = Some r -> literal r) ->
  exists m, MatchEntry_build routes g = Ok m /\ built (ordered_routes routes) m.
Proof.
  intros Hl. unfold MatchEntry_build. eapply (build_step _ []); [|apply Forall_forall|apply ordered_sorted|done].
  - constructor; simpl; [exists ∅; split; [apply stores_new|]; intros; by rewrite lookup_empty|].
    exists ∅. split; [apply stores_new|]. intros k. by rewrite lookup_empty.
  - intros r (i & Hi)%elem_of_ordered. by eapply Hl.
Qed.

(** The first route of a concatenation of copies that passes the test. *)
Lemma find_copies (P : ProxyRoute -> bool) (f : ProxyRoute -> list ProxyRoute) rs :
  (forall r x, x ∈ f r -> x = r) -> StronglySorted route_le rs ->
  match List.find P (rs ≫= f) with
  | Some r => r ∈ rs /\ f r <> [] /\ P r = true /\ forall x, x ∈ rs -> f x <> [] -> P x = true -> route_le r x
  | None => forall x, x ∈ rs -> f x <> [] -> P x = false
  end.
Proof.
  intros Hf. induction 1 as [|r rs Hs IH Hr]; [by intros x ?%not_elem_of_nil|]. cbn [mbind list_bind].
  assert (forall l r2, List.find P (l ++ r2) = match List.find P l with Some x => Some x | None => List.find P r2 end) as ->.
  { intros l r2. induction l as [|x l IHl]; simpl; [done|]. by destruct (P x). }
  destruct (List.find P (f r)) as [y|] eqn:E.
  - apply find_some in E as [Hy HP]. pose proof (Hf r y (proj2 (list_elem_of_In _ _) Hy)) as ->. split_and!; [by left| |done|].
    + intros E. by rewrite E in Hy.
    + intros x [->|Hx]%elem_of_cons _ _; [by destruct (total route_le r r)|]. rewrite Forall_forall in Hr. by apply Hr.
  - assert (f r <> [] -> P r = false) as Hnr.
    { destruct (f r) as [|y l] eqn:Er; [done|]. intros _. apply (find_none _ _ E). left. apply Hf. rewrite Er. by left. }
    destruct (List.find P (rs ≫= f)) as [y|].
    + destruct IH as (Hy & Hfy & HP & Hmin). split_and!; [by right|done|done|]. intros x [->|Hx]%elem_of_cons Hne HPx; [|auto].
      by rewrite Hnr in HPx.
    + intros x [->|Hx]%elem_of_cons; auto.
Qed.

(** ** Which route a request reaches *)

(** [serves host uri method r rank]: the route answers the request, by one of
    its hosts (rank 0) or because it names none (rank 1). *)
Definition wants (uri method : string) (r : ProxyRoute) : Prop :=
  uri ∈ Route.get_uris (pr_inner r) /\ method_matches method r = true.
Inductive serves (host : option string) (uri method : string) (r : ProxyRoute) : nat -> Prop :=
  | serves_host h hh : host = Some h -> h <> "" -> hh ∈ effective_hosts r ->
      to_ascii_lowercase hh = to_ascii_lowercase h -> wants uri method r -> serves host uri method r 0
  | serves_any : effective_hosts r = [] -> wants uri method r -> serves host uri method r 1.

Lemma plain_nonempty r u : plain_list r u <> [] <-> effective_hosts r = [] /\ u ∈ Route.get_uris (pr_inner r).
Proof.
  unfold plain_list. destruct (effective_hosts r); [|naive_solver]. split.
  - destruct (copies _ _ _) as [|x l] eqn:E; [done|]. intros _. split; [done|].
    apply (elem_of_copies r u _ x). rewrite E. by left.
  - intros [_ Hu] E. apply (not_elem_of_nil r). rewrite <-E. by apply elem_of_copies.
Qed.

Lemma host_nonempty hosts r k u : host_list hosts r k u <> [] <->
  u ∈ Route.get_uris (pr_inner r) /\ exists h, h ∈ hosts /\ reverse_host h = k.
Proof.
  split.
  - destruct (host_list hosts r k u) as [|x l] eqn:E; [done|]. intros _. assert (x ∈ host_list hosts r k u) as Hx by (rewrite E; by left).
    by apply elem_of_host_list in Hx as [_ Hx].
  - intros (Hu & h & Hh & Hk) E. apply (not_elem_of_nil r). rewrite <-E. unfold host_list. apply list_elem_of_bind.
    exists h. rewrite decide_True by done. split; [by apply elem_of_copies|done].
Qed.

Lemma match_lists R g u method : lists R g ->
  match_uri_method R u method = (fun r => ([], r)) <$> List.find (method_matches method) (g u).
Proof.
  intros (m & Hm & Hg). unfold match_uri_method. rewrite (stores_at _ _ _ Hm), <-Hg. destruct (m !! u); simpl; [by case_match|done].
Qed.

Definition tier_ok (routes : gmap string ProxyRoute) (res : option (list (string * string) * ProxyRoute))
    (Q : ProxyRoute -> Prop) : Prop :=
  match res with
  | Some (params, r) => params = [] /\ (exists i, routes !! i = Some r) /\ Q r /\
      forall i x, routes !! i = Some x -> Q x -> route_le r x
  | None => forall i x, routes !! i = Some x -> ~ Q x
  end.

Lemma tier_find routes f u method (Q : ProxyRoute -> Prop) :
  (forall r x, x ∈ f r -> x = r) -> (forall r, Q r <-> f r <> [] /\ method_matches method r = true) ->
  forall R g, lists R g -> g u = (ordered_routes routes ≫= f) -> tier_ok routes (match_uri_method R u method) Q.
Proof.
  intros Hf HQ R g HR Hg. rewrite (match_lists R g u method HR), Hg.
  pose proof (find_copies (method_matches method) f _ Hf (ordered_sorted routes)) as Hfind.
  destruct (List.find _ _) as [r|]; simpl.
  - destruct Hfind as (Hr & Hfr & HP & Hmin). split_and!; [done|by apply elem_of_ordered|by apply HQ|].
    intros i x Hi [Hx HPx]%HQ. apply Hmin; [apply elem_of_ordered; by exists i|done..].
  - intros i x Hi [Hx HPx]%HQ. rewrite (Hfind x) in HPx; [done|apply elem_of_ordered; by exists i|done].
Qed.

Lemma match_tiers routes m host uri method :
  (forall i r, routes !! i = Some r -> literal r) -> built (ordered_routes routes) m ->
  (forall h, host = Some h -> utf8_valid h = true) ->
  tier_ok routes (in_host m host (fun inner => match_uri_method inner uri method)) (fun r => serves host uri method r 0) /\
  tier_ok routes (match_uri_method (non_host_uri m) uri method) (fun r => serves host uri method r 1).
Proof.
  intros Hl [Hp (M & HM & HG)] Hv. split.
  2:{ eapply (tier_find _ (fun r => plain_list r uri)); [|intros r; rewrite plain_nonempty|exact Hp|done].
      - intros r x. apply plain_list_self.
      - split; [by inversion 1; subst; unfold wants in *; naive_solver|]. intros ((He & Hu) & Hm). by constructor. }
  unfold in_host. destruct host as [h|]; [|intros i x _ Hs; by inversion Hs].
  case_bool_decide as Hh; [intros i x _ Hs; inversion Hs; congruence|].
  set (k := reverse_ascii_lowercase h).
  assert (forall i x, routes !! i = Some x -> serves (Some h) uri method x 0 <->
    host_list (effective_hosts x) x k uri <> [] /\ method_matches method x = true) as HQ.
  { intros i x Hx. rewrite host_nonempty. destruct (Hl i x Hx) as [Hlh _]. rewrite Forall_forall in Hlh. split.
    - inversion 1 as [h' hh [= <-] _ Hin Heq [Hu Hm]|]; subst. split_and!; [done| |done]. exists hh. split; [done|].
      pose proof (Hlh hh Hin) as Hlit. rewrite (proj1 (literal_reverse hh Hlit)). apply reverse_inj; [apply Hlit|by apply Hv|done].
    - intros ((Hu & hh & Hin & Hk) & Hm). pose proof (Hlh hh Hin) as Hlit. rewrite (proj1 (literal_reverse hh Hlit)) in Hk.
      eapply (serves_host _ _ _ _ h hh); [done|done|done| |done]. apply reverse_inj; [apply Hlit|by apply Hv|done]. }
  rewrite (stores_at _ _ _ HM). specialize (HG k). destruct (M !! k) as [R|]; simpl.
  - assert (tier_ok routes (match_uri_method R uri method)
      (fun r => host_list (effective_hosts r) r k uri <> [] /\ method_matches method r = true)) as Ht.
    { eapply (tier_find _ (fun r => host_list (effective_hosts r) r k uri)); [|done|exact HG|done].
      intros r x Hx. by apply elem_of_host_list in Hx as [-> _]. }
    unfold tier_ok in *. destruct (match_uri_method R uri method) as [[params r]|].
    + destruct Ht as (-> & (i & Hi) & HQr & Hmin). split_and!; [done|by exists i|by apply (HQ i)|].
      intros j x Hj Hx%(HQ j); [|done]. by eapply Hmin.
    + intros j x Hj Hx%(HQ j); [|done]. by eapply Ht.
  - intros i x Hi [Hx _]%(HQ i); [|done]. apply Hx.
    specialize (HG uri). assert (x ∈ ordered_routes routes) as Hin by (apply elem_of_ordered; by exists i).
    destruct (host_list _ x k uri) as [|y l] eqn:E; [done|]. exfalso. apply (not_elem_of_nil y). rewrite <-HG.
    apply list_elem_of_bind. exists x. split; [|done]. rewrite E. by left.
Qed.

Lemma route_le_antisym (routes : gmap string ProxyRoute) : (forall i r, routes !! i = Some r -> Route.id (pr_inner r) = i) ->
  forall i a j b, routes !! i = Some a -> routes !! j = Some b -> route_le a b -> route_le b a -> a = b.
Proof.
  intros Hid i a j b Hi Hj Hab Hba. pose proof (Hosts.key_le_antisym _ route_sort_key a b Hab Hba) as Hk.
  injection Hk as _ Hk. rewrite (Hid _ _ Hi), (Hid _ _ Hj) in Hk. congruence.
Qed.

(** C19 (route selection).  For routes whose hosts and URIs are literal, keyed by
    their identifiers, building the matcher succeeds whatever their order in the
    table, and a request reaches the best route that answers it: one serving its
    host before any hostless route, then the highest priority, then the least
    identifier.  It reaches none exactly when no route answers it. *)
Theorem route_match_best (routes : gmap string ProxyRoute) global_plugins host uri method :
  (forall i r, routes !! i = Some r -> Route.id (pr_inner r) = i /\ literal r) ->
  (forall h, host = Some h -> utf8_valid h = true) ->
  exists m, MatchEntry_build routes global_plugins = Ok m /\
  (forall params r, match_host_uri_method m host uri method = Some (params, r) <->
     params = [] /\ exists i rank, routes !! i = Some r /\ serves host uri method r rank /\
       forall i' r' rank', routes !! i' = Some r' -> serves host uri method r' rank' ->
         (rank < rank')%nat \/ rank = rank' /\ route_le r r') /\
  (match_host_uri_method m host uri method = None <->
     forall i r rank, routes !! i = Some r -> ~ serves host uri method r rank).
Proof.
  intros Hr Hv. destruct (MatchEntry_build_built routes global_plugins) as (m & Hm & Hb); [by intros i r [_ ?]%Hr|].
  exists m. split; [done|].
  destruct (match_tiers routes m host uri method) as [Hhost Hany]; [by intros i r [_ ?]%Hr|done|done|].
  assert (forall r k, serves host uri method r k -> k = 0%nat \/ k = 1%nat) as H01 by (intros r k []; auto).
  assert (match match_host_uri_method m host uri method with
    | Some (params, r) => params = [] /\ exists i rank, routes !! i = Some r /\ serves host uri method r rank /\
        forall i' r' rank', routes !! i' = Some r' -> serves host uri method r' rank' -> (rank < rank')%nat \/ rank = rank' /\ route_le r r'
    | None => forall i r rank, routes !! i = Some r -> ~ serves host uri method r rank end) as Hres.
  { unfold match_host_uri_method, tier_ok in *. destruct (in_host m host _) as [[params r]|].
    - destruct Hhost as (-> & (i & Hi) & Hs & Hmin). split; [done|]. exists i, 0%nat. split_and!; [done..|].
      intros i' r' k Hi' Hs'. destruct (H01 _ _ Hs') as [-> | ->]; [right; eauto|left; lia].
    - destruct (match_uri_method _ _ _) as [[params r]|].
      + destruct Hany as (-> & (i & Hi) & Hs & Hmin). split; [done|]. exists i, 1%nat. split_and!; [done..|].
        intros i' r' k Hi' Hs'. destruct (H01 _ _ Hs') as [-> | ->]; [by destruct (Hhost _ _ Hi')|right; eauto].
      + intros i r k Hi Hs. destruct (H01 _ _ Hs) as [-> | ->]; [by eapply Hhost|by eapply Hany]. }
  destruct (match_host_uri_method m host uri method) as [[params r]|].
  - destruct Hres as (-> & i & k & Hi & Hs & Hmin). split; [|split; [done|]; intros Hno; by destruct (Hno i r k)].
    intros params r2. split; [intros [= <- <-]; eauto 10|]. intros (-> & j & k2 & Hj & Hs2 & Hmin2). do 2 f_equal.
    destruct (Hmin _ _ _ Hj Hs2) as [?|[-> Hle]], (Hmin2 _ _ _ Hi Hs) as [?|[? Hle2]]; try lia.
    eapply (route_le_antisym routes); [by intros ? ? [? _]%Hr|done..].
  - split; [|done]. intros params r. split; [done|]. intros (_ & i & k & Hi & Hs & _). by destruct (Hres i r k).
Qed.

End build_lemmas.

(** ** A concrete router: literal paths first, then trailing catch-alls *)

Module ToyPaths.
Import ToyCompiler.

Fixpoint glob (key path : string) : option (list (string * string)) :=
  match key, path with
  | "", "" => Some []
  | String "{" (String "*" name), String _ _ => Some [(String.substring 0 (String.length name - 1) name, path)]
  | String a key, String b path => if ascii_dec a b then glob key path else None
  | _, _ => None
  end.

Definition lookup_key {A} (p : string) (r : gmap string A) : option (string * A * list (string * string)) :=
  match r !! p with
  | Some a => Some (p, a, [])
  | None => head (omap (fun e : string * A => (fun ps => (e, ps)) <$> glob e.1 p) (map_to_list r))
  end.

Lemma literal_cons a p : literal_route (String a p) = true -> a <> "{"%char /\ literal_route p = true.
Proof. unfold literal_route. simpl. repeat case_bool_decide; simpl; rewrite ?andb_false_r; naive_solver. Qed.

Lemma glob_literal key path : literal_route key = true -> glob key path = if decide (key = path) then Some [] else None.
Proof.
  revert path. induction key as [|a key IH]; intros [|b path]; try done.
  - intros [Ha _]%literal_cons. destruct a as [[] [] [] [] [] [] [] []]; done.
  - intros [Ha Hl]%literal_cons. transitivity (if ascii_dec a b then glob key path else None).
    { destruct a as [[] [] [] [] [] [] [] []]; first [done|by destruct Ha]. }
    rewrite IH by done. destruct (ascii_dec a b) as [->|Hn]; [|by rewrite decide_False by congruence].
    destruct (decide (key = path)) as [->|Hn]; [by rewrite decide_True|by rewrite decide_False by congruence].
Qed.

Definition literal_map {A} (r m : gmap string A) : Prop := r = m /\ forall k a, m !! k = Some a -> literal_route k = true.

Lemma lookup_key_literal {A} (m : gmap string A) p : (forall k a, m !! k = Some a -> literal_route k = true) ->
  lookup_key p m = (fun a => (p, a, [])) <$> m !! p.
Proof.
  intros Hm. unfold lookup_key. destruct (m !! p) eqn:Hp; [done|]. simpl.
  destruct (head _) as [[e ps]|] eqn:Eh; [|done]. exfalso.
  apply head_Some_elem_of, list_elem_of_omap in Eh as ([k a] & Hk%elem_of_map_to_list & Hg). simpl in Hg.
  rewrite (glob_literal k p (Hm k a Hk)) in Hg. destruct (decide (k = p)); [congruence|done].
Qed.

#[export] Instance router : PathRouter := {
  PRouter A := gmap string A;
  path_new A := ∅;
  path_insert A p a r := if bool_decide (r !! p = None) then Ok (<[p := a]> r) else Err "conflict";
  path_at A p r := (fun x : string * A * list (string * string) => (x.1.2, x.2)) <$> lookup_key p r;
  path_update A p f r := (fun x : string * A * list (string * string) => <[x.1.1 := f x.1.2]> r) <$> lookup_key p r;
}.

#[export, refine] Instance router_laws : PathRouterLaws := { stores A r m := literal_map r m }.
Proof.
  - done.
  - intros A r m p a [-> Hm] Hl Hp. exists (<[p := a]> m). simpl. rewrite bool_decide_true by done. split; [done|].
    split; [done|]. intros k b [[<- _]|[_ Hk]]%lookup_insert_Some; eauto.
  - intros A r m p [-> Hm]. simpl. rewrite lookup_key_literal by done. by destruct (m !! p).
  - intros A r m p f [-> Hm]. simpl. rewrite lookup_key_literal by done. destruct (m !! p) as [a|] eqn:Hp; simpl; [|done].
    eexists. split; [done|]. split; [done|]. intros k b [[<- _]|[_ Hk]]%lookup_insert_Some; eauto.
Defined.

Definition route (i : string) (hosts uris methods : list string) (prio : Z) : ProxyRoute :=
  {| pr_inner := Route.Build_t i None None uris methods None hosts prio ∅ None None None None false;
     pr_plugins := []; pr_resolved := None; effective_hosts := hosts; service_name := None; pr_executor := [];
     pr_inline := None; serves_preflight := false |}.

Definition by_id (rs : list ProxyRoute) : gmap string ProxyRoute :=
  list_to_map ((fun r => (Route.id (pr_inner r), r)) <$> rs).
Definition matched (rs : list ProxyRoute) (host : option string) (uri method : string) : option string :=
  match MatchEntry_build (by_id rs) executor_default with
  | Ok m => (fun x => Route.id (pr_inner x.2)) <$> match_host_uri_method m host uri method
  | Err _ => None
  end.

End ToyPaths.

Import ToyCompiler ToyPaths.

Definition demo_routes : list ProxyRoute :=
  [route "low" [] ["/users"] [] 0; route "high" [] ["/users"] ["GET"] 5;
   route "hosted" ["API.example.com"] ["/users"] ["GET"] 0].

Lemma route_match_best_witness : exists m,
  MatchEntry_build (by_id demo_routes) executor_default = Ok m /\
  match_host_uri_method m (Some "api.example.com") "/users" "GET" = Some ([], route "hosted" ["API.example.com"] ["/users"] ["GET"] 0) /\
  (exists i rank, by_id demo_routes !! i = Some (route "hosted" ["API.example.com"] ["/users"] ["GET"] 0) /\
    serves (Some "api.example.com") "/users" "GET" (route "hosted" ["API.example.com"] ["/users"] ["GET"] 0) rank).
Proof.
  destruct (route_match_best (by_id demo_routes) executor_default (Some "api.example.com") "/users" "GET") as (m & Hm & Hb & _).
  - intros i r Hi. unfold by_id, demo_routes in Hi. cbn in Hi.
    repeat (apply lookup_insert_Some in Hi as [[<- <-]|[_ Hi]]); [..|by rewrite lookup_empty in Hi].
    all: split; [done|]; split; repeat constructor.
  - by intros h [= <-].
  - assert (match MatchEntry_build (by_id demo_routes) executor_default with
      | Ok m => match_host_uri_method m (Some "api.example.com") "/users" "GET" | Err _ => None end
      = Some ([], route "hosted" ["API.example.com"] ["/users"] ["GET"] 0)) as E by (vm_compute; reflexivity).
    rewrite Hm in E. exists m. split; [exact Hm|]. split; [exact E|].
    destruct (proj1 (Hb _ _) E) as (_ & i & rank & Hi & Hs & _). exists i, rank. split; [exact Hi|exact Hs].
Defined.

Example matching_order :
  matched demo_routes None "/users" "GET" = Some "high" /\ matched demo_routes None "/users" "POST" = Some "low" /\
  matched demo_routes (Some "api.example.com") "/users" "POST" = Some "low".
Proof. vm_compute. done. Qed.

(** Insertion looks the pattern up as a path, so a literal URI inserted after a
    catch-all that covers it joins the catch-all's entry: here a [POST] to any
    path below [/api/] reaches the route declared for [/api/users] only, and the
    route of [api.example.com] answers for every subdomain. *)
Example literal_route_under_catch_all :
  matched [route "a-files" [] ["/api/{*rest}"] ["GET"] 0; route "b-users" [] ["/api/users"] ["POST"] 0] None "/api/secrets" "POST"
    = Some "b-users" /\
  matched [route "a-any" ["*.example.com"] ["/"] ["GET"] 0; route "b-api" ["api.example.com"] ["/"] ["POST"] 0]
    (Some "other.example.com") "/" "POST" = Some "b-api".
Proof. vm_compute. done. Qed.
