(* ===== verification/Selection.v ===== *)
(** * Backend selection ([src/src/proxy/upstream/selection.rs])

    Backend identity and merging, the grouping of backends by priority and the
    candidate order of the grouped iterator: its loop terminates, and it visits
    every backend once, from the highest priority to the lowest. *)

From Stdlib Require Import ZArith Lia Sorted.
From stdpp Require Import base tactics gmap strings option numbers sorting list.
From S2P Require Import Prelude GraphStore Hosts.

Open Scope Z_scope.

(** Socket addresses of the load balancer, totally ordered, and the client
    certificates of its peers. *)
Class SocketAddrs : Type := {
  Addr : Type;
  addr_eq_dec :: EqDecision Addr;
  addr_countable :: Countable Addr;
  addr_cmp : Addr -> Addr -> comparison;
  addr_cmp_order :: CmpOrder addr_cmp;
  CertKey : Type;
}.

Section backends.
Context `{SocketAddrs}.

(** ** Peers and backends *)

Inductive ALPN : Type := H1 | H2.

(** The fields of a Pingora peer the source reads or writes. *)
Record HttpPeer : Type := {
  peer_address : string;
  peer_tls : bool;
  sni : string;
  alpn : ALPN;
  client_cert_key : option CertKey;
  connection_timeout : option Duration;
  read_timeout : option Duration;
  write_timeout : option Duration;
  idle_timeout : option Duration;
}.
#[export] Instance eta_HttpPeer : Eta HttpPeer := fun p =>
  Build_HttpPeer (peer_address p) (peer_tls p) (sni p) (alpn p) (client_cert_key p) (connection_timeout p) (read_timeout p)
    (write_timeout p) (idle_timeout p).
Definition HttpPeer_new (address : string) (tls : bool) (sni : string) : HttpPeer :=
  {| peer_address := address; peer_tls := tls; sni := sni; alpn := H1; client_cert_key := None; connection_timeout := None;
     read_timeout := None; write_timeout := None; idle_timeout := None |}.

(** Assignments to the fields of a peer. *)
Definition set_timeouts (p : HttpPeer) (connect read write : option Duration) : HttpPeer :=
  p <| connection_timeout := connect |> <| read_timeout := read |> <| write_timeout := write |>.
Definition set_idle_timeout (p : HttpPeer) (idle : option Duration) : HttpPeer := p <| idle_timeout := idle |>.
Definition set_alpn (p : HttpPeer) (a : ALPN) : HttpPeer := p <| alpn := a |>.
Definition set_client_cert_key (p : HttpPeer) (k : option CertKey) : HttpPeer := p <| client_cert_key := k |>.

Record BackendId : Type := { id_addr : Addr; id_weight : Z }.
#[export] Instance BackendId_eq_dec : EqDecision BackendId.
Proof. solve_decision. Defined.
#[export] Instance BackendId_countable : Countable BackendId.
Proof.
  refine (inj_countable' (fun i => (id_addr i, id_weight i)) (fun p => Build_BackendId p.1 p.2) _). by intros [].
Defined.

(** A backend is ordered by address and weight; the metadata is ignored. *)
Record Backend : Type := {
  addr : Addr;
  bk_weight : Z;
  ext_priority : option Z;
  ext_id : option BackendId;
  ext_peer : option HttpPeer;
}.
#[export] Instance eta_Backend : Eta Backend := fun b => Build_Backend (addr b) (bk_weight b) (ext_priority b) (ext_id b) (ext_peer b).

Definition set_ext_peer (backend : Backend) (peer : HttpPeer) : Backend := backend <| ext_peer := Some peer |>.

Definition bkey (b : Backend) : Addr * Z := (addr b, bk_weight b).
Definition bcmp : Addr * Z -> Addr * Z -> comparison := pair_cmp addr_cmp Z.compare.
Definition backend_cmp (a b : Backend) : comparison := bcmp (bkey a) (bkey b).

Definition set_backend_priority (backend : Backend) (priority : Z) : Backend := backend <| ext_priority := Some priority |>.
Definition backend_priority (backend : Backend) : Z := default 0 (ext_priority backend).
Definition structural_id (backend : Backend) : BackendId := {| id_addr := addr backend; id_weight := bk_weight backend |}.
Definition set_backend_id (backend : Backend) : Backend := backend <| ext_id := Some (structural_id backend) |>.
Definition backend_id (backend : Backend) : BackendId := default (structural_id backend) (ext_id backend).

(** [BTreeSet<Backend>]: the members in order. *)
Fixpoint set_insert (b : Backend) (set : list Backend) : list Backend :=
  match set with
  | [] => [b]
  | x :: set' => match backend_cmp b x with Lt => b :: set | Eq => set | Gt => x :: set_insert b set' end
  end.
Definition same (a b : Backend) : bool := match backend_cmp a b with Eq => true | _ => false end.
Definition set_get (b : Backend) (set : list Backend) : option Backend := List.find (same b) set.
Definition set_remove (b : Backend) (set : list Backend) : list Backend := List.filter (fun x => negb (same b x)) set.

Definition insert_backend (set : list Backend) (backend : Backend) : list Backend :=
  match set_get backend set with
  | None => set_insert backend set
  | Some existing =>
    let new_priority := backend_priority backend in
    let existing_priority := backend_priority existing in
    if new_priority =? existing_priority then set
    else if existing_priority <? new_priority then set_insert backend (set_remove existing set)
    else set
  end.

(** ** Grouping by priority *)

(** The inner algorithm of an upstream: [W] is the state its iterators share
    (round-robin positions, the random generator). *)
Class BackendSelection (W : Type) : Type := {
  Sel : Type;
  SelIter : Type;
  sel_build : list Backend -> Sel;
  sel_iter : Sel -> string -> W -> SelIter * W;
  sel_next : SelIter -> W -> option Backend * SelIter * W;
}.

Context {W : Type} `{!BackendSelection W}.

Record PriorityGroup : Type := { priority : Z; selector : Sel; backends : list Backend }.

(** [BTreeMap<Reverse<i8>, BTreeSet<Backend>>], one backend added. *)
Fixpoint group_insert (b : Backend) (groups : list (Z * list Backend)) : list (Z * list Backend) :=
  match groups with
  | [] => [(backend_priority b, [b])]
  | (p, members) :: groups' =>
    if backend_priority b =? p then (p, set_insert b members) :: groups'
    else if p <? backend_priority b then (backend_priority b, [b]) :: groups
    else (p, members) :: group_insert b groups'
  end.

Definition group_by_priority (backends : list Backend) : list PriorityGroup :=
  (fun g : Z * list Backend => {| priority := g.1; selector := sel_build g.2; backends := g.2 |})
    <$> fold_left (fun gs b => group_insert b gs) backends [].

(** ** The candidate order *)

Record GroupedCursor : Type := {
  grouped : list PriorityGroup;
  key : string;
  group : nat;
  inner : option SelIter;
  seen : list Z;
  drawn : Z;
  next : nat;
}.
#[export] Instance eta_GroupedCursor : Eta GroupedCursor := fun c =>
  Build_GroupedCursor (grouped c) (key c) (group c) (inner c) (seen c) (drawn c) (next c).

Inductive PriorityGroupedIter : Type := Empty | Flat (i : SelIter) | Grouped (c : GroupedCursor).

Definition iter (groups : list PriorityGroup) (key : string) (w : W) : PriorityGroupedIter * W :=
  match groups with
  | [] => (Empty, w)
  | [only] => let '(i, w) := sel_iter (selector only) key w in (Flat i, w)
  | _ => (Grouped {| grouped := groups; key := key; group := 0; inner := None; seen := []; drawn := 0; next := 0 |}, w)
  end.

Definition usize_max : Z := u64_max.
Definition group_draw_budget (group_len : nat) : Z := Z.max (Z.min (Z.of_nat group_len * 8) usize_max) 64.

(** The bitset of members already yielded; indexing out of range panics. *)
Definition bit_get (seen : list Z) (index : nat) : option bool :=
  (fun word => negb (Z.land word (Z.shiftl 1 (Z.of_nat (index mod 64))) =? 0)) <$> seen !! (index / 64)%nat.
Definition bit_set (seen : list Z) (index : nat) : list Z :=
  alter (fun word => Z.lor word (Z.shiftl 1 (Z.of_nat (index mod 64)))) (index / 64)%nat seen.
Definition div_ceil (n d : nat) : nat := (n / d + if (n mod d =? 0)%nat then 0 else 1)%nat.

(** [binary_search] in a slice ordered without repetition. *)
Fixpoint binary_search (b : Backend) (l : list Backend) : option nat :=
  match l with
  | [] => None
  | x :: l => if same x b then Some O else S <$> binary_search b l
  end.

(** The covering loop over the positions from [i], [n] of them. *)
Inductive Cover : Type := Found (index : nat) | Covered | OutOfBounds.
Fixpoint cover (n i : nat) (seen : list Z) : Cover :=
  match n with
  | O => Covered
  | S n => match bit_get seen i with
           | Some false => Found i
           | Some true => cover n (S i) seen
           | None => OutOfBounds
           end
  end.

(** One turn of the loop of [PriorityGroupedIter::next]. *)
Inductive Turn : Type :=
  | Yield (candidate : option Backend) (c : GroupedCursor) (w : W)
  | Again (c : GroupedCursor) (w : W)
  | Panics.

Definition enter (g : PriorityGroup) (c : GroupedCursor) (w : W) : GroupedCursor * W :=
  if bool_decide (seen c = []) then
    let '(i, w) := sel_iter (selector g) (key c) w in
    (c <| seen := replicate (div_ceil (length (backends g)) 64) 0 |> <| drawn := 0 |> <| next := 0%nat |> <| inner := Some i |>, w)
  else (c, w).

Definition draw (g : PriorityGroup) (c : GroupedCursor) (w : W) : Turn :=
  let '(candidate, c, w) :=
    match inner c with
    | Some i => let '(candidate, i, w) := sel_next i w in (candidate, c <| inner := Some i |>, w)
    | None => (None, c, w)
    end in
  match candidate with
  | None => Again (c <| drawn := group_draw_budget (length (backends g)) |>) w
  | Some backend =>
    let c := c <| drawn := drawn c + 1 |> in
    match binary_search backend (backends g) with
    | Some index =>
      match bit_get (seen c) index with
      | Some false => Yield (backends g !! index) (c <| seen := bit_set (seen c) index |>) w
      | Some true => Again c w
      | None => Panics
      end
    | None => Again c w
    end
  end.

Definition enumerate (g : PriorityGroup) (c : GroupedCursor) (w : W) : Turn :=
  match cover (length (backends g) - next c) (next c) (seen c) with
  | Found index => Yield (backends g !! index) (c <| next := S index |> <| seen := bit_set (seen c) index |>) w
  | Covered => Again (c <| next := (next c + (length (backends g) - next c))%nat |>
                       <| group := S (group c) |> <| inner := None |> <| seen := [] |>) w
  | OutOfBounds => Panics
  end.

Definition turn (c : GroupedCursor) (w : W) : Turn :=
  match grouped c !! group c with
  | None => Yield None c w
  | Some g =>
    let '(c, w) := enter g c w in
    if drawn c <? group_draw_budget (length (backends g)) then draw g c w else enumerate g c w
  end.

(** The loop, [fuel] turns at most: [Again] means unfinished. *)
Fixpoint cursor_next (fuel : nat) (c : GroupedCursor) (w : W) : Turn :=
  match fuel with
  | O => Again c w
  | S fuel => match turn c w with Again c w => cursor_next fuel c w | r => r end
  end.

(** A bound on the turns left before the cursor answers. *)
Definition group_turns (g : PriorityGroup) : nat := S (Z.to_nat (group_draw_budget (length (backends g)))).
Definition turns (c : GroupedCursor) : nat :=
  match grouped c !! group c with
  | None => 1
  | Some g =>
    (group_turns g - (if bool_decide (seen c = []) then 0 else Z.to_nat (drawn c)) +
     sum_list_with group_turns (drop (S (group c)) (grouped c)) + 1)%nat
  end.

(** At most [n] candidates, and the cursor after them. *)
Fixpoint drain (n : nat) (c : GroupedCursor) (w : W) : list Backend * GroupedCursor * W :=
  match n with
  | O => ([], c, w)
  | S n => match cursor_next (turns c) c w with
           | Yield (Some b) c w => let '(l, c, w) := drain n c w in (b :: l, c, w)
           | Yield None c w | Again c w => ([], c, w)
           | Panics => ([], c, w)
           end
  end.

End backends.

(** ** The bitset *)

Lemma word_bit word k : 0 <= k -> negb (Z.land word (Z.shiftl 1 k) =? 0) = Z.testbit word k.
Proof.
  intros Hk. rewrite Z.shiftl_1_l. destruct (Z.testbit word k) eqn:E; [apply negb_true_iff, Z.eqb_neq|apply negb_false_iff, Z.eqb_eq].
  - intros E0. apply (f_equal (fun z => Z.testbit z k)) in E0. by rewrite Z.land_spec, E, Z.pow2_bits_true, Z.bits_0 in E0.
  - apply Z.bits_inj'. intros n Hn. rewrite Z.land_spec, Z.bits_0, Z.pow2_bits_eqb by done.
    destruct (Z.eqb_spec k n) as [<-|]; [by rewrite E|apply andb_false_r].
Qed.

Lemma bit_get_testbit seen i : bit_get seen i = (fun word => Z.testbit word (Z.of_nat (i mod 64))) <$> seen !! (i / 64)%nat.
Proof. unfold bit_get. destruct (seen !! _); simpl; [|done]. by rewrite word_bit by lia. Qed.

Lemma bit_get_set seen i j : is_Some (bit_get seen i) ->
  bit_get (bit_set seen i) j = if decide (j = i) then Some true else bit_get seen j.
Proof.
  rewrite !bit_get_testbit. intros [b Hb]. unfold bit_set. destruct (seen !! (i / 64)%nat) as [word|] eqn:Ew; [|done].
  destruct (decide ((j / 64)%nat = (i / 64)%nat)) as [Hd|Hd].
  - rewrite Hd, list_lookup_alter, decide_True, Ew by done. cbn [fmap option_fmap option_map]. rewrite Z.shiftl_1_l, Z.lor_spec, Z.pow2_bits_eqb by lia.
    destruct (decide (j = i)) as [->|Hn]; [by rewrite Z.eqb_refl, orb_true_r|].
    assert (Z.of_nat (i mod 64) <> Z.of_nat (j mod 64)) as Hm.
    { intros E%Nat2Z.inj. apply Hn. rewrite (Nat.div_mod_eq j 64), (Nat.div_mod_eq i 64). congruence. }
    rewrite (proj2 (Z.eqb_neq _ _) Hm), orb_false_r. done.
  - rewrite list_lookup_alter, decide_False by done. by rewrite decide_False by congruence.
Qed.

Lemma bit_set_length seen i : length (bit_set seen i) = length seen.
Proof. apply length_alter. Qed.

Lemma div_ceil_covers n i : (i < n)%nat -> (i / 64 < div_ceil n 64)%nat.
Proof.
  intros Hi. unfold div_ceil. pose proof (Nat.div_mod_eq n 64). pose proof (Nat.mod_upper_bound n 64 ltac:(lia)).
  apply Nat.Div0.div_lt_upper_bound. destruct (Nat.eqb_spec (n mod 64) 0); lia.
Qed.

Lemma bit_get_some seen n i : length seen = div_ceil n 64 -> (i < n)%nat -> is_Some (bit_get seen i).
Proof.
  intros Hl Hi. unfold bit_get. apply fmap_is_Some, lookup_lt_is_Some. rewrite Hl. by apply div_ceil_covers.
Qed.

Lemma bit_get_zeros n k i : bit_get (replicate k 0) i = Some true -> n = 0%nat.
Proof.
  rewrite bit_get_testbit. destruct (replicate k 0 !! _) as [w|] eqn:E; [|done].
  apply lookup_replicate in E as [-> _]. simpl. by rewrite Z.bits_0.
Qed.

Lemma div_ceil_pos n : (0 < n)%nat -> div_ceil n 64 <> 0%nat.
Proof. intros Hn. pose proof (div_ceil_covers n 0 Hn). lia. Qed.

(** ** The loop *)

Section loop.
Context `{SocketAddrs} {W : Type} `{!BackendSelection W}.

Lemma binary_search_lt b l i : binary_search b l = Some i -> (i < length l)%nat.
Proof.
  revert i; induction l as [|x l IH]; simpl; intros i; [done|]. case_match; [intros [= <-]; lia|].
  intros (j & Hj & ->)%fmap_Some. apply IH in Hj. lia.
Qed.

Lemma cover_spec n i seen : (forall j, (j < i + n)%nat -> is_Some (bit_get seen j)) ->
  match cover n i seen with
  | Found k => (i <= k < i + n)%nat /\ bit_get seen k = Some false /\ forall j, (i <= j < k)%nat -> bit_get seen j = Some true
  | Covered => forall j, (i <= j < i + n)%nat -> bit_get seen j = Some true
  | OutOfBounds => False
  end.
Proof.
  revert i; induction n as [|n IH]; intros i Hs; simpl; [intros; lia|].
  destruct (Hs i ltac:(lia)) as [[] E]; rewrite E; [|split_and!; [lia|lia|done|lia]].
  specialize (IH (S i) ltac:(intros; apply Hs; lia)). destruct (cover n (S i) seen).
  - destruct IH as (? & ? & Hj). split_and!; [lia|lia|done|]. intros j ?. destruct (decide (j = i)) as [->|]; [done|apply Hj; lia].
  - intros j ?. destruct (decide (j = i)) as [->|]; [done|apply IH; lia].
  - done.
Qed.

(** The state between two turns; [entered] holds once the group's bitset is
    allocated. *)
Record entered (g : PriorityGroup) (c : GroupedCursor) : Prop := {
  e_length : length (seen c) = div_ceil (length (backends g)) 64;
  e_drawn : 0 <= drawn c <= group_draw_budget (length (backends g));
  e_next : (next c <= length (backends g))%nat;
  e_before : forall i, (i < next c)%nat -> bit_get (seen c) i = Some true;
}.
Record inv (c : GroupedCursor) : Prop := {
  i_nonempty : Forall (fun g => backends g <> []) (grouped c);
  i_entered : forall g, grouped c !! group c = Some g -> seen c <> [] -> entered g c;
}.

(** The backends still to come. *)
Definition unseen (g : PriorityGroup) (seen : list Z) : list nat :=
  filter (fun i => bit_get seen i <> Some true) (seq 0 (length (backends g))).
Definition block (g : PriorityGroup) (c : GroupedCursor) : list Backend :=
  if bool_decide (seen c = []) then backends g else omap (fun i => backends g !! i) (unseen g (seen c)).
Definition later (c : GroupedCursor) : list Backend := drop (S (group c)) (grouped c) ≫= backends.
Definition rest (c : GroupedCursor) : list Backend :=
  match grouped c !! group c with None => [] | Some g => (block g c ++ later c)%list end.

Lemma omap_seq_lookup {A} (l : list A) : omap (fun i => l !! i) (seq 0 (length l)) = l.
Proof.
  assert (forall (x : A) (l : list A) (s : list nat), omap (fun i => (x :: l) !! i) (S <$> s) = omap (fun i => l !! i) s) as Hs.
  { intros x l' s. induction s as [|k s IHs]; [done|]. cbn. cbn in IHs. by rewrite IHs. }
  induction l as [|x l IH]; [done|]. cbn [length seq omap list_omap]. simpl. f_equal. rewrite <-fmap_S_seq, Hs. exact IH.
Qed.

Lemma unseen_zeros g k : unseen g (replicate k 0) = seq 0 (length (backends g)).
Proof.
  unfold unseen. induction (seq 0 (length (backends g))) as [|i l IH]; [done|]. rewrite filter_cons_True, IH; [done|].
  intros E. rewrite bit_get_testbit in E. destruct (replicate k 0 !! _) as [w|] eqn:El; [|done].
  apply lookup_replicate in El as [-> _]. simpl in E. by rewrite Z.bits_0 in E.
Qed.

Lemma unseen_set g s i b : bit_get s i = Some false -> backends g !! i = Some b ->
  omap (fun i => backends g !! i) (unseen g s) ≡ₚ b :: omap (fun i => backends g !! i) (unseen g (bit_set s i)).
Proof.
  intros Hi Hb. assert (unseen g s ≡ₚ i :: unseen g (bit_set s i)) as Hp.
  { apply NoDup_Permutation.
    - apply NoDup_filter, NoDup_seq.
    - apply NoDup_cons. split; [|apply NoDup_filter, NoDup_seq]. unfold unseen. rewrite list_elem_of_filter, bit_get_set by done.
      rewrite decide_True by done. naive_solver.
    - intros j. unfold unseen. rewrite elem_of_cons, !list_elem_of_filter, bit_get_set by done. rewrite !elem_of_seq.
      apply lookup_lt_Some in Hb. case_decide; [subst; rewrite Hi; naive_solver lia|naive_solver]. }
  transitivity (omap (fun i => backends g !! i) (i :: unseen g (bit_set s i))); [by apply omap_Permutation|].
  simpl. by rewrite Hb.
Qed.

Lemma enter_inv g c w c' w' : inv c -> grouped c !! group c = Some g -> enter g c w = (c', w') ->
  grouped c' = grouped c /\ group c' = group c /\ seen c' <> [] /\ entered g c' /\ block g c' = block g c /\
  drawn c' = if bool_decide (seen c = []) then 0 else drawn c.
Proof.
  intros [Hne He] Hg. unfold enter. case_bool_decide as Es.
  - destruct (sel_iter _ _ w) as [i w1]. intros [= <- <-]. simpl.
    assert (0 < length (backends g))%nat as Hlen.
    { rewrite Forall_forall in Hne. specialize (Hne g (list_elem_of_lookup_2 _ _ _ Hg)). destruct (backends g); simpl; [done|lia]. }
    assert (replicate (div_ceil (length (backends g)) 64) 0 <> []) as Hnil.
    { pose proof (div_ceil_pos _ Hlen). by destruct (div_ceil _ _). }
    split_and!; [done|done|done| | |done].
    + constructor; simpl; [apply length_replicate|unfold group_draw_budget; lia|lia|lia].
    + unfold block. simpl. rewrite bool_decide_false by done. rewrite bool_decide_true by done.
      by rewrite unseen_zeros, omap_seq_lookup.
  - intros [= <- <-]. split_and!; auto.
Qed.

(** What a turn does, from a cursor whose group [g] is entered. *)
Definition turn_ok (c : GroupedCursor) (r : Turn) : Prop :=
  match r with
  | Yield None c' _ => rest c = [] /\ rest c' = [] /\ inv c' /\ grouped c' = grouped c
  | Yield (Some b) c' _ => inv c' /\ grouped c' = grouped c /\ rest c ≡ₚ b :: rest c' /\
      exists g, grouped c !! group c = Some g /\ b ∈ backends g
  | Again c' _ => inv c' /\ grouped c' = grouped c /\ rest c' = rest c /\ (turns c' < turns c)%nat
  | Panics => False
  end.

Lemma block_entered g c : seen c <> [] -> block g c = omap (fun i => backends g !! i) (unseen g (seen c)).
Proof. intros Hs. unfold block. by rewrite bool_decide_false. Qed.

Lemma yield_ok g c c' w i : inv c -> grouped c !! group c = Some g -> seen c <> [] -> (i < length (backends g))%nat ->
  bit_get (seen c) i = Some false -> grouped c' = grouped c -> group c' = group c -> seen c' = bit_set (seen c) i ->
  0 <= drawn c' <= group_draw_budget (length (backends g)) -> (next c' <= length (backends g))%nat ->
  (forall j, (j < next c')%nat -> bit_get (seen c') j = Some true) ->
  turn_ok c (Yield (backends g !! i) c' w).
Proof.
  intros [Hne He] Hg Hs Hi Hbit Hgr Hgp Hsn Hd Hn Hb. pose proof (He g Hg Hs) as [Hl _ _ _].
  destruct (lookup_lt_is_Some_2 _ _ Hi) as [b Eb]. rewrite Eb. simpl.
  assert (seen c' <> []) as Hs'.
  { intros E. apply Hs. apply length_zero_iff_nil. by rewrite <-(bit_set_length (seen c) i), <-Hsn, E. }
  split_and!.
  - constructor; [by rewrite Hgr|]. rewrite Hgr, Hgp. intros g' [= <-]%(eq_trans (eq_sym Hg)) _. constructor; [|done..].
    by rewrite Hsn, bit_set_length.
  - done.
  - unfold rest, later. rewrite Hgr, Hgp, Hg, !block_entered by done. rewrite Hsn, (unseen_set g (seen c) i b Hbit Eb). done.
  - exists g. split; [done|]. by eapply list_elem_of_lookup_2.
Qed.

Lemma draw_ok g c w : inv c -> grouped c !! group c = Some g -> seen c <> [] ->
  drawn c < group_draw_budget (length (backends g)) -> turn_ok c (draw g c w).
Proof.
  intros Hi Hg Hs Hd. pose proof Hi as [Hne He]. pose proof (He g Hg Hs) as Hen. destruct Hen as [Hl Hd0 Hn Hb].
  assert (forall c' w, grouped c' = grouped c -> group c' = group c -> seen c' = seen c -> next c' = next c ->
    drawn c < drawn c' <= group_draw_budget (length (backends g)) -> turn_ok c (Again c' w)) as Hagain.
  { intros c' w' E1 E2 E3 E4 Hd'. simpl. split_and!.
    - constructor; [by rewrite E1|]. rewrite E1, E2. intros g' [= <-]%(eq_trans (eq_sym Hg)) _.
      constructor; rewrite ?E3, ?E4; [done|lia|done..].
    - done.
    - unfold rest, later, block. by rewrite E1, E2, E3.
    - unfold turns, group_turns. rewrite E1, E2, E3, Hg, bool_decide_false by done. lia. }
  unfold draw. destruct (match inner c with Some _ => _ | None => _ end) as [[o c1] w1] eqn:E.
  assert (grouped c1 = grouped c /\ group c1 = group c /\ seen c1 = seen c /\ drawn c1 = drawn c /\ next c1 = next c)
    as (F1 & F2 & F3 & F4 & F5).
  { destruct (inner c); [destruct (sel_next _ _) as [[]]|]; by injection E as _ <- _. }
  clear E. destruct o as [b|]; [|apply Hagain; simpl; done || lia].
  destruct (binary_search b (backends g)) as [k|] eqn:Ek; [|apply Hagain; simpl; done || lia].
  apply binary_search_lt in Ek. simpl. rewrite F3.
  destruct (bit_get_some (seen c) _ k Hl Ek) as [[] E]; rewrite E; [apply Hagain; simpl; done || lia|].
  apply yield_ok; simpl; try done; [lia|lia|]. intros j Hj. rewrite bit_get_set by done. case_decide; [done|]. apply Hb. lia.
Qed.

Lemma enumerate_ok g c w : inv c -> grouped c !! group c = Some g -> seen c <> [] -> turn_ok c (enumerate g c w).
Proof.
  intros Hi Hg Hs. pose proof Hi as [Hne He]. pose proof (He g Hg Hs) as [Hl Hd Hn Hb]. unfold enumerate.
  pose proof (cover_spec (length (backends g) - next c) (next c) (seen c)) as Hc.
  specialize (Hc ltac:(intros; eapply bit_get_some; [done|lia])). destruct (cover _ _ _) as [k| |].
  - destruct Hc as (Hk & Hbit & Hbetween). apply yield_ok; simpl; try done; [lia|lia|].
    intros j Hj. rewrite bit_get_set by done. case_decide; [done|]. destruct (decide (j < next c)%nat); [auto|apply Hbetween; lia].
  - simpl. split_and!; [constructor; simpl; [done|done]|done| |].
    + assert (block g c = []) as Hblock.
      { rewrite block_entered by done. assert (unseen g (seen c) = []) as ->; [|done]. unfold unseen.
        assert (forall i, i ∈ seq 0 (length (backends g)) -> bit_get (seen c) i = Some true) as Hall.
        { intros i Hin%elem_of_seq. destruct (decide (i < next c)%nat); [auto|apply Hc; lia]. }
        induction (seq _ _) as [|i l IH]; [done|]. rewrite filter_cons_False; [apply IH; intros; apply Hall; by right|].
        rewrite Hall by (by left). tauto. }
      unfold rest, later. rewrite Hg, Hblock. simpl. destruct (grouped c !! S (group c)) as [g'|] eqn:E.
      * unfold block. simpl. by rewrite (drop_S (grouped c) g' (S (group c))).
      * apply lookup_ge_None in E. by rewrite drop_ge.
    + unfold turns. simpl. rewrite Hg. destruct (grouped c !! S (group c)) as [g'|] eqn:E.
      * rewrite bool_decide_false by done. rewrite (drop_S (grouped c) g' (S (group c))) by done. simpl. unfold group_turns at 2. lia.
      * rewrite bool_decide_false by done. unfold group_turns at 1. lia.
  - done.
Qed.

Lemma turn_spec c w : inv c -> turn_ok c (turn c w).
Proof.
  intros Hi. unfold turn. destruct (grouped c !! group c) as [g|] eqn:Hg; [|simpl; split_and!; [by unfold rest; rewrite Hg..|done|done]].
  destruct (enter g c w) as [c1 w1] eqn:E. destruct (enter_inv g c w c1 w1 Hi Hg E) as (E1 & E2 & Hs & Hen & Hb & Hd).
  assert (inv c1) as Hi1.
  { constructor; [rewrite E1; apply Hi|]. rewrite E1, E2, Hg. intros g' [= <-] _. done. }
  assert (forall r, turn_ok c1 r -> turn_ok c r) as Hback.
  { assert (rest c1 = rest c) as Er by (unfold rest, later; by rewrite E1, E2, Hg, Hb).
    assert (turns c1 = turns c) as Et.
    { unfold turns. rewrite E1, E2, Hg, Hd. rewrite (bool_decide_false (seen c1 = [])) by done. by case_bool_decide. }
    intros [[b|] c' w'|c' w'|]; simpl; by rewrite ?Er, ?Et, ?E1, ?E2. }
  apply Hback. destruct (drawn c1 <? _) eqn:Eb.
  - apply draw_ok; [done|by rewrite E1, E2|done|by apply Z.ltb_lt].
  - apply enumerate_ok; [done|by rewrite E1, E2|done].
Qed.

(** Enough turns, and the loop answers. *)
Lemma cursor_next_spec fuel c w : inv c -> (turns c <= fuel)%nat ->
  exists o c' w', cursor_next fuel c w = Yield o c' w' /\ inv c' /\ grouped c' = grouped c /\
  match o with
  | Some b => rest c ≡ₚ b :: rest c' /\ exists k g, grouped c !! k = Some g /\ b ∈ backends g /\
      forall x, x ∈ rest c -> exists j h, (k <= j)%nat /\ grouped c !! j = Some h /\ x ∈ backends h
  | None => rest c = [] /\ rest c' = []
  end.
Proof.
  revert c w. induction fuel as [|fuel IH]; intros c w Hi Hf.
  { exfalso. unfold turns in Hf. destruct (grouped c !! group c); lia. }
  cbn [cursor_next]. pose proof (turn_spec c w Hi) as Ht. destruct (turn c w) as [o c' w'|c' w'|]; [| |done].
  - exists o, c', w'. split; [done|]. destruct o as [b|]; simpl in Ht; [|naive_solver].
    destruct Ht as (Hi' & Hg' & Hr & g & Hg & Hb). split_and!; [done..|]. exists (group c), g. split_and!; [done..|].
    intros x Hx. unfold rest, later in Hx. rewrite Hg in Hx. apply elem_of_app in Hx as [Hx|Hx].
    + exists (group c), g. split_and!; [done..|]. unfold block in Hx. case_bool_decide; [done|].
      apply list_elem_of_omap in Hx as (i & _ & Hx). by eapply list_elem_of_lookup_2.
    + apply list_elem_of_bind in Hx as (h & Hx & Hh). apply list_elem_of_lookup in Hh as [j Hj]. rewrite lookup_drop in Hj.
      exists (S (group c) + j)%nat, h. split_and!; [lia|done..].
  - simpl in Ht. destruct Ht as (Hi' & Hg' & Hr & Ht). destruct (IH c' w' Hi' ltac:(lia)) as (o & c2 & w2 & -> & Hi2 & Hg2 & Ho).
    rewrite Hg' in *. exists o, c2, w2. split_and!; [done..|]. by rewrite <-Hr.
Qed.

(** Groups as the constructor makes them: members of their priority, highest
    priority first. *)
Record grouping (gs : list PriorityGroup) : Prop := {
  gs_nonempty : Forall (fun g => backends g <> []) gs;
  gs_members : forall g b, g ∈ gs -> b ∈ backends g -> backend_priority b = priority g;
  gs_sorted : StronglySorted (fun g h => priority h < priority g) gs;
}.

Lemma grouping_le gs j k g h : grouping gs -> (k <= j)%nat -> gs !! k = Some g -> gs !! j = Some h -> priority h <= priority g.
Proof.
  intros [_ _ Hs] Hkj Hk Hj. destruct (decide (k = j)) as [->|]; [simplify_eq; done|].
  cut (priority h < priority g); [lia|]. clear -Hs Hkj Hk Hj n. revert k j Hkj Hk Hj n.
  induction Hs as [|x gs Hs IH Hall]; intros [|k] [|j] Hkj Hk Hj Hn; simplify_eq/=; [|lia|apply (IH k j); [lia|done|done|lia]].
  rewrite Forall_forall in Hall. apply Hall. by eapply list_elem_of_lookup_2.
Qed.

Lemma drain_spec n c w : inv c -> grouping (grouped c) -> (length (rest c) <= n)%nat ->
  exists l c' w', drain n c w = (l, c', w') /\ inv c' /\ grouped c' = grouped c /\ rest c' = [] /\ l ≡ₚ rest c /\
    StronglySorted (fun a b => backend_priority b <= backend_priority a) l.
Proof.
  revert c w. induction n as [|n IH]; intros c w Hi Hgs Hn.
  { exists [], c, w. assert (rest c = []) as E by (destruct (rest c); simpl in Hn; [done|lia]). rewrite E. split_and!; [done..|constructor]. }
  cbn [drain]. destruct (cursor_next_spec (turns c) c w Hi ltac:(lia)) as (o & c1 & w1 & -> & Hi1 & Hg1 & Ho). destruct o as [b|].
  - destruct Ho as (Hr & k & g & Hk & Hb & Hrest). rewrite <-Hg1 in Hgs.
    destruct (IH c1 w1 Hi1 Hgs) as (l & c2 & w2 & -> & Hi2 & Hg2 & He & Hl & Hs); [rewrite Hr in Hn; simpl in Hn; lia|].
    exists (b :: l), c2, w2. split_and!; [done|done|congruence|done|by rewrite Hl, Hr|]. constructor; [done|].
    apply Forall_forall. intros x Hx. rewrite Hl in Hx. assert (x ∈ rest c) as Hx' by (rewrite Hr; by right).
    destruct (Hrest x Hx') as (j & h & Hkj & Hj & Hxh). rewrite <-Hg1 in Hk, Hj.
    pose proof (grouping_le _ j k g h Hgs Hkj Hk Hj).
    rewrite (gs_members _ Hgs g b), (gs_members _ Hgs h x) by (done || by eapply list_elem_of_lookup_2). done.
  - destruct Ho as [Hr Hr1]. exists [], c1, w1. rewrite Hr. split_and!; [done..|constructor].
Qed.

(** ** The groups of a set *)

Definition btree_set (set : list Backend) : Prop := StronglySorted (fun a b => backend_cmp a b = Lt) set.

Lemma backend_cmp_opp a b : backend_cmp b a = CompOpp (backend_cmp a b).
Proof. unfold backend_cmp, bcmp. apply cmp_opp. Qed.

Lemma set_insert_perm b set : (forall x, x ∈ set -> backend_cmp b x <> Eq) -> set_insert b set ≡ₚ b :: set.
Proof.
  induction set as [|x set IH]; intros Hne; [done|]. simpl. destruct (backend_cmp b x) eqn:E; [|done|].
  - by destruct (Hne x (list_elem_of_here _ _)).
  - rewrite IH by (intros y Hy; apply Hne; by right). apply Permutation_swap.
Qed.

Definition members (gs : list (Z * list Backend)) : list Backend := gs ≫= snd.
Record grouped_members (gs : list (Z * list Backend)) : Prop := {
  gm_nonempty : Forall (fun g => g.2 <> []) gs;
  gm_members : forall g b, g ∈ gs -> b ∈ g.2 -> backend_priority b = g.1;
  gm_sorted : StronglySorted (fun g h : Z * list Backend => h.1 < g.1) gs;
}.

Lemma grouped_members_cons g gs : grouped_members (g :: gs) <->
  g.2 <> [] /\ (forall b, b ∈ g.2 -> backend_priority b = g.1) /\ Forall (fun h => h.1 < g.1) gs /\ grouped_members gs.
Proof.
  split.
  - intros [H1 H2 H3]. apply Forall_cons in H1 as [H1 H1']. apply StronglySorted_inv in H3 as [H3 H3'].
    split_and!; [done|intros b; apply H2; by left|done|]. constructor; [done| |done]. intros h b Hh. apply H2. by right.
  - intros (H1 & H2 & H3 & [H4 H5 H6]). constructor; [by constructor| |by constructor].
    intros h b [->|Hh]%elem_of_cons; [auto|by apply H5].
Qed.

Lemma group_insert_spec b gs : grouped_members gs -> (forall x, x ∈ members gs -> backend_cmp b x <> Eq) ->
  grouped_members (group_insert b gs) /\ members (group_insert b gs) ≡ₚ b :: members gs /\
  forall z, Forall (fun h => h.1 < z) gs -> backend_priority b < z -> Forall (fun h => h.1 < z) (group_insert b gs).
Proof.
  induction gs as [|[p ms] gs IH]; intros Hg Hne.
  { simpl. split_and!; [|done|intros; by repeat constructor]. apply grouped_members_cons. split_and!; [done| |done|done].
    by intros x ->%list_elem_of_singleton. }
  apply grouped_members_cons in Hg as (H1 & H2 & H3 & H4). simpl in *.
  assert (forall x, x ∈ ms -> backend_cmp b x <> Eq) as Hms by (intros x Hx; apply Hne, elem_of_app; by left).
  assert (forall x, x ∈ members gs -> backend_cmp b x <> Eq) as Hgs by (intros x Hx; apply Hne, elem_of_app; by right).
  destruct (Z.eqb_spec (backend_priority b) p) as [Ep|Ep]; [|destruct (Z.ltb_spec p (backend_priority b)) as [El|El]].
  - split_and!.
    + apply grouped_members_cons. simpl. split_and!; [| |done|done].
      * intros E. pose proof (set_insert_perm b ms Hms) as Hp. rewrite E in Hp. by apply Permutation_nil_cons in Hp.
      * intros x Hx. rewrite (set_insert_perm b ms Hms) in Hx. apply elem_of_cons in Hx as [->|]; auto.
    + unfold members. simpl. by rewrite (set_insert_perm b ms Hms).
    + intros z [? ?]%Forall_cons ?. by constructor.
  - split_and!.
    + apply grouped_members_cons. simpl. split_and!; [done|by intros x ->%list_elem_of_singleton| |by apply grouped_members_cons].
      constructor; [done|]. eapply Forall_impl; [exact H3|]. simpl. lia.
    + done.
    + intros z ? ?. by constructor.
  - destruct (IH H4 Hgs) as (I1 & I2 & I3). split_and!.
    + apply grouped_members_cons. simpl. split_and!; [done|done| |done]. apply I3; [done|lia].
    + unfold members in *. simpl. rewrite I2. symmetry. apply Permutation_middle.
    + intros z [? ?]%Forall_cons ?. constructor; [done|]. by apply I3.
Qed.

Lemma group_fold bs : forall gs, grouped_members gs -> btree_set bs ->
  (forall x y, x ∈ members gs -> y ∈ bs -> backend_cmp y x <> Eq) ->
  grouped_members (fold_left (fun gs b => group_insert b gs) bs gs) /\
  members (fold_left (fun gs b => group_insert b gs) bs gs) ≡ₚ (bs ++ members gs)%list.
Proof.
  induction bs as [|b bs IH]; intros gs Hg Hs Hne; [done|]. simpl.
  apply StronglySorted_inv in Hs as [Hs Hb]. rewrite Forall_forall in Hb.
  destruct (group_insert_spec b gs Hg) as (H1 & H2 & _); [intros x Hx; by apply Hne; [|left]|].
  destruct (IH _ H1 Hs) as [I1 I2].
  - intros x y Hx Hy. rewrite H2 in Hx. apply elem_of_cons in Hx as [->|Hx]; [|by apply Hne; [|right]].
    rewrite backend_cmp_opp, (Hb y) by done. done.
  - split; [done|]. by rewrite I2, H2, <-Permutation_middle.
Qed.

Lemma group_by_priority_spec bs : btree_set bs ->
  grouping (group_by_priority bs) /\ group_by_priority bs ≫= backends ≡ₚ bs.
Proof.
  intros Hs. unfold group_by_priority. destruct (group_fold bs []) as [[H1 H2 H3] Hm].
  - constructor; [constructor| |constructor]. by intros ? ? ?%not_elem_of_nil.
  - done.
  - by intros ? ? ?%not_elem_of_nil.
  - unfold members in Hm. simpl in Hm. rewrite app_nil_r in Hm.
    set (gs := fold_left (fun gs b => group_insert b gs) bs []) in *. clearbody gs. split.
    + constructor.
      * apply Forall_fmap. eapply Forall_impl; [exact H1|done].
      * intros g b (g' & -> & Hg')%list_elem_of_fmap Hb. by apply H2.
      * clear -H3. induction H3 as [|g gs Hs IH Hg]; [constructor|]. constructor; [done|]. apply Forall_fmap. eapply Forall_impl; [exact Hg|done].
    + rewrite <-Hm. clear. induction gs as [|g gs IH]; [done|]. simpl. by rewrite IH.
Qed.

(** ** The iterator of a set *)

Inductive reached (gs : list PriorityGroup) : GroupedCursor -> Prop :=
  | reached_start key w c w' : iter gs key w = (Grouped c, w') -> reached gs c
  | reached_next fuel c w o c' w' : reached gs c -> cursor_next fuel c w = Yield o c' w' -> reached gs c'.

Lemma iter_grouped gs key w c w' : Forall (fun g => backends g <> []) gs -> iter gs key w = (Grouped c, w') ->
  inv c /\ grouped c = gs /\ rest c = gs ≫= backends /\ w' = w.
Proof.
  intros Hne. destruct gs as [|g1 [|g2 gs]]; simpl; [done|by case_match|]. intros [= <- <-]. split_and!; [|done|done|done].
  constructor; simpl; [done|by intros ? _ []].
Qed.

Lemma next_inv fuel c w o c' w' : inv c -> cursor_next fuel c w = Yield o c' w' -> inv c' /\ grouped c' = grouped c.
Proof.
  revert c w. induction fuel as [|fuel IH]; intros c w Hi; [done|]. cbn [cursor_next]. pose proof (turn_spec c w Hi) as Ht.
  destruct (turn c w) as [[b|] c1 w1|c1 w1|]; simpl in Ht; [intros [= <- <- <-]; naive_solver..| |done].
  destruct Ht as (Hi1 & Hg1 & _). rewrite <-Hg1. by apply IH.
Qed.

Lemma reached_inv gs c : Forall (fun g => backends g <> []) gs -> reached gs c -> inv c /\ grouped c = gs.
Proof.
  intros Hne. induction 1 as [key w c w' Hc|fuel c w o c' w' Hr [Hi Hg] Hn].
  - by destruct (iter_grouped _ _ _ _ _ Hne Hc) as (? & ? & _).
  - destruct (next_inv _ _ _ _ _ _ Hi Hn). naive_solver.
Qed.

(** The selection loop terminates.  From any cursor reached by iterating
    over a set of backends, and whatever the inner algorithm draws, the loop of
    the iterator answers within its turn bound, without an index out of range:
    the answer does not depend on more fuel. *)
Theorem cursor_next_terminates bs c w fuel :
  btree_set bs -> reached (group_by_priority bs) c -> (turns c <= fuel)%nat ->
  exists o c' w', cursor_next fuel c w = Yield o c' w' /\ reached (group_by_priority bs) c'.
Proof.
  intros Hs Hr Hf. destruct (group_by_priority_spec bs Hs) as [[Hne _ _] _].
  destruct (reached_inv _ _ Hne Hr) as [Hi _]. destruct (cursor_next_spec fuel c w Hi Hf) as (o & c' & w' & E & _).
  exists o, c', w'. split; [done|]. by eapply reached_next.
Qed.

(** C20 (failover order).  Over a set with several priorities the iterator
    yields every backend exactly once, never one of a lower priority before one
    of a higher priority, and then ends; the inner algorithm only decides the
    order inside a group. *)
Theorem iteration_order bs key w :
  btree_set bs -> (exists a b, a ∈ bs /\ b ∈ bs /\ backend_priority a <> backend_priority b) ->
  exists c, iter (group_by_priority bs) key w = (Grouped c, w) /\
  exists l c' w', drain (length bs) c w = (l, c', w') /\ l ≡ₚ bs /\
    StronglySorted (fun a b => backend_priority b <= backend_priority a) l /\
    exists c2 w2, cursor_next (turns c') c' w' = Yield None c2 w2.
Proof.
  intros Hs (a & b & Ha & Hb & Hab). destruct (group_by_priority_spec bs Hs) as [Hg Hp]. set (gs := group_by_priority bs) in *.
  assert (exists c, iter gs key w = (Grouped c, w)) as [c Hc].
  { clearbody gs. rewrite <-Hp in Ha, Hb. destruct gs as [|g [|g2 gs]]; [by apply not_elem_of_nil in Ha| |by eexists].
    simpl in Ha, Hb. rewrite app_nil_r in Ha, Hb. destruct Hab.
    by rewrite !(gs_members _ Hg g) by (done || by left). }
  exists c. split; [done|]. destruct (iter_grouped gs key w c w (gs_nonempty _ Hg) Hc) as (Hi & Hgr & Hr & _).
  destruct (drain_spec (length bs) c w Hi) as (l & c' & w' & Hd & Hi' & _ & Hr' & Hl & Hsort); [by rewrite Hgr|by rewrite Hr, Hp|].
  exists l, c', w'. split_and!; [done|by rewrite Hl, Hr|done|].
  destruct (cursor_next_spec (turns c') c' w' Hi' ltac:(lia)) as (o & c2 & w2 & E & _ & _ & Ho). exists c2, w2. rewrite E.
  destruct o as [x|]; [|done]. destruct Ho as [Ho _]. rewrite Hr' in Ho. by apply Permutation_nil_cons in Ho.
Qed.

End loop.

(** ** A concrete upstream *)

Module ToySelection.

#[export] Instance addrs : SocketAddrs := { Addr := string; addr_cmp := str_cmp; CertKey := unit }.

(** Round robin over a shared position. *)
#[export] Instance round_robin : BackendSelection nat := {
  Sel := list Backend;
  SelIter := list Backend * nat;
  sel_build l := l;
  sel_iter l _ w := ((l, w), S w);
  sel_next i w := (i.1 !! (i.2 mod length i.1)%nat, (i.1, S i.2), w);
}.

Definition node (a : string) (prio : Z) : Backend :=
  set_backend_id (set_backend_priority {| addr := a; bk_weight := 1; ext_priority := None; ext_id := None; ext_peer := None |} prio).
Definition nodes : list Backend := [node "a" 0; node "b" 1; node "c" 0; node "d" 1].

Lemma nodes_set : btree_set nodes.
Proof. repeat constructor. Qed.

Definition start : GroupedCursor :=
  {| grouped := group_by_priority nodes; key := "k"; group := 0; inner := None; seen := []; drawn := 0; next := 0 |}.
Lemma iter_start : iter (group_by_priority nodes) "k" 5%nat = (Grouped start, 5%nat).
Proof. reflexivity. Qed.

End ToySelection.
Import ToySelection.

Lemma cursor_next_terminates_witness :
  exists o c' w', cursor_next (turns start) start 5%nat = Yield o c' w' /\ reached (group_by_priority nodes) c'.
Proof.
  exact (cursor_next_terminates nodes start 5%nat (turns start) nodes_set (reached_start _ "k" 5%nat start 5%nat iter_start) (le_n _)).
Defined.

Lemma iteration_order_witness : exists c, iter (group_by_priority nodes) "k" 5%nat = (Grouped c, 5%nat) /\
  exists l c' w', drain 4 c 5%nat = (l, c', w') /\ l ≡ₚ nodes.
Proof.
  destruct (iteration_order nodes "k" 5%nat nodes_set) as (c & Hc & l & c' & w' & Hd & Hl & _).
  - exists (node "a" 0), (node "b" 1). split; [by left|]. split; [by right; left|done].
  - exists c. split; [exact Hc|]. exists l, c', w'. split; [exact Hd|exact Hl].
Defined.

Example drained : addr <$> (drain 4 start 5%nat).1.1 = ["d"; "b"; "a"; "c"].
Proof. vm_compute. reflexivity. Qed.
