(* ===== verification/PassiveHealth.v ===== *)
(** * Passive health checking ([src/src/proxy/upstream/load_balancer.rs])

    Failure counters per backend, half-open probes, the three selection phases
    of an upstream and the timeouts written on the selected peer. *)

From Stdlib Require Import ZArith Lia.
From stdpp Require Import base tactics gmap strings option list.
From S2P Require Import Prelude GraphStore Utf8 Hosts Json Config ConfigSet RequestVars Selection.

Open Scope Z_scope.

Inductive PassiveOutcome : Type := TcpFailure | Timeout | Http (status : Z).

Record PassiveCounters : Type := {
  http_failures : Z;
  tcp_failures : Z;
  timeouts : Z;
  successes : Z;
  tripped : bool;
  probe_lease : option Instant;
}.
#[export] Instance eta_PassiveCounters : Eta PassiveCounters := fun n =>
  Build_PassiveCounters (http_failures n) (tcp_failures n) (timeouts n) (successes n) (tripped n) (probe_lease n).
Definition PassiveCounters_default : PassiveCounters :=
  {| http_failures := 0; tcp_failures := 0; timeouts := 0; successes := 0; tripped := false; probe_lease := None |}.

Definition PROBE_LEASE : Duration := from_secs 30.
Definition MAX_LB_ITERATIONS : nat := 256.

(** [u32] increments wrap in release builds. *)
Definition incr (z : Z) : Z := wrapping_add 32 z 1.

(** The match of [observe] on one node. *)
Definition observe_node (config : PassiveCheck.t) (node : PassiveCounters) (outcome : PassiveOutcome) : PassiveCounters :=
  let unhealthy := PassiveCheck.unhealthy config in
  let healthy := PassiveCheck.healthy config in
  match outcome with
  | TcpFailure =>
    let node := node <| tcp_failures := incr (tcp_failures node) |> <| http_failures := 0 |> <| timeouts := 0 |> <| successes := 0 |> in
    if (0 <? PassiveUnhealthy.tcp_failures unhealthy) && (PassiveUnhealthy.tcp_failures unhealthy <=? tcp_failures node)
    then node <| tripped := true |> else node
  | Timeout =>
    let node := node <| timeouts := incr (timeouts node) |> <| http_failures := 0 |> <| tcp_failures := 0 |> <| successes := 0 |> in
    if (0 <? PassiveUnhealthy.timeouts unhealthy) && (PassiveUnhealthy.timeouts unhealthy <=? timeouts node)
    then node <| tripped := true |> else node
  | Http status =>
    if bool_decide (status ∈ PassiveUnhealthy.http_statuses unhealthy) then
      let node := node <| http_failures := incr (http_failures node) |> <| tcp_failures := 0 |> <| timeouts := 0 |> <| successes := 0 |> in
      if (0 <? PassiveUnhealthy.http_failures unhealthy) && (PassiveUnhealthy.http_failures unhealthy <=? http_failures node)
      then node <| tripped := true |> else node
    else if bool_decide (status ∈ PassiveHealthy.http_statuses healthy) then
      let node := node <| http_failures := 0 |> <| tcp_failures := 0 |> <| timeouts := 0 |> in
      if tripped node then
        let node := node <| successes := incr (successes node) |> in
        if (0 <? PassiveHealthy.successes healthy) && (PassiveHealthy.successes healthy <=? successes node)
        then node <| tripped := false |> <| successes := 0 |> else node
      else node
    else node
  end.

Section passive.
Context `{SocketAddrs}.

Record PassiveHealthState : Type := {
  config : PassiveCheck.t;
  counters : gmap BackendId PassiveCounters;
}.

Definition observe (self : PassiveHealthState) (backend : Backend) (outcome : PassiveOutcome) : PassiveHealthState :=
  let node := default PassiveCounters_default (counters self !! backend_id backend) in
  let node := observe_node (config self) node outcome in
  {| config := config self; counters := <[backend_id backend := node <| probe_lease := None |>]> (counters self) |}.

Definition has_tripped (self : PassiveHealthState) : bool :=
  existsb (fun e : BackendId * PassiveCounters => tripped e.2) (map_to_list (counters self)).

Definition take_probe (self : PassiveHealthState) (backend : Backend) (now : Instant) : bool * PassiveHealthState :=
  match counters self !! backend_id backend with
  | None => (false, self)
  | Some node =>
    let lease_free := match probe_lease node with Some d => d <=? now | None => true end in
    if tripped node && lease_free then
      (true, {| config := config self;
                counters := <[backend_id backend := node <| probe_lease := Some (now + PROBE_LEASE) |>]> (counters self) |})
    else (false, self)
  end.

(** ** The load balancer

    [select_with] tries the candidates of the selector in order, at most
    [max_iterations] of them, and hands each with its health to the accepting
    closure, which may update its captured state. *)
Class LoadBalancers : Type := {
  Lb : Type;
  LbState : Type;
  lb_select_with {S} : Lb -> string -> nat -> (Backend -> bool -> S -> bool * S) -> S -> LbState -> option Backend * S * LbState;
  lb_select : Lb -> string -> nat -> LbState -> option Backend * LbState;
}.

Fixpoint scan {S} (accept : Backend -> bool -> S -> bool * S) (ready : Backend -> bool) (l : list Backend) (s : S) : option Backend * S :=
  match l with
  | [] => (None, s)
  | b :: l => let '(ok, s) := accept b (ready b) s in if ok then (Some b, s) else scan accept ready l s
  end.

Context `{LBs : LoadBalancers}.

Class LoadBalancerLaws : Type := {
  candidates : Lb -> string -> nat -> LbState -> list Backend;
  lb_ready : Lb -> LbState -> Backend -> bool;
  lb_after : Lb -> string -> LbState -> LbState;
  select_with_scans {S} lb key n (accept : Backend -> bool -> S -> bool * S) s w :
    lb_select_with lb key n accept s w =
      (scan accept (lb_ready lb w) (candidates lb key n w) s, lb_after lb key w);
  select_is_healthy lb key n w :
    lb_select lb key n w = (List.find (lb_ready lb w) (candidates lb key n w), lb_after lb key w);
}.

(** [selection::select_backend]: the candidate order, then ignoring health. *)
Definition select_backend (lb : Lb) (key : string) (max_iterations : nat) (w : LbState) : option Backend * LbState :=
  let '(r, w) := lb_select lb key max_iterations w in
  match r with
  | Some backend => (Some backend, w)
  | None => let '(backend, _, w) := lb_select_with lb key max_iterations (fun _ _ (s : unit) => (true, s)) () w in (backend, w)
  end.

(** The algorithm is a type parameter of the balancer. *)
Inductive SelectionLB : Type := RoundRobinLB (lb : Lb) | RandomLB (lb : Lb) | FnvLB (lb : Lb) | KetamaLB (lb : Lb).
Definition with_lb (self : SelectionLB) : Lb :=
  match self with RoundRobinLB lb | RandomLB lb | FnvLB lb | KetamaLB lb => lb end.

Record ProxyUpstream : Type := {
  inner : Upstream.t;
  lb : SelectionLB;
  cache_origin_fingerprint : Z;
  passive : option PassiveHealthState;
  default_timeout : option Timeout.t;
}.
#[export] Instance eta_ProxyUpstream : Eta ProxyUpstream := fun u =>
  Build_ProxyUpstream (inner u) (lb u) (cache_origin_fingerprint u) (passive u) (default_timeout u).

Definition set_passive (self : ProxyUpstream) (p : option PassiveHealthState) : ProxyUpstream := self <| passive := p |>.

Definition is_tripped (p : option PassiveHealthState) (backend : Backend) : bool :=
  match p with
  | Some p => match counters p !! backend_id backend with Some node => tripped node | None => false end
  | None => false
  end.

(** The closures of [select_with_passive] over the passive state. *)
Definition accept_regular (backend : Backend) (ready : bool) (p : option PassiveHealthState) : bool * option PassiveHealthState :=
  (ready && negb (is_tripped p backend), p).
Definition accept_probe (now : Instant) (backend : Backend) (ready : bool) (p : option PassiveHealthState) : bool * option PassiveHealthState :=
  if ready then
    match p with
    | Some p => let '(ok, p) := take_probe p backend now in (ok, Some p)
    | None => (false, p)
    end
  else (false, p).

Definition select_with_passive (self : ProxyUpstream) (key : string) (now : Instant) (w : LbState) :
    option Backend * ProxyUpstream * LbState :=
  let b := with_lb (lb self) in
  let '(r, p, w) := lb_select_with b key MAX_LB_ITERATIONS accept_regular (passive self) w in
  match r with
  | Some backend => (Some backend, set_passive self p, w)
  | None =>
    let '(r, p, w) :=
      if match p with Some p => has_tripped p | None => false end
      then lb_select_with b key MAX_LB_ITERATIONS (accept_probe now) p w
      else (None, p, w) in
    match r with
    | Some backend => (Some backend, set_passive self p, w)
    | None => let '(r, w) := select_backend b key MAX_LB_ITERATIONS w in (r, set_passive self p, w)
    end
  end.

(** ** The selected peer *)

Definition BUILTIN_UPSTREAM_TIMEOUT : Timeout.t := {| Timeout.connect := 5; Timeout.send := 30; Timeout.read := 30 |}.
Definition resolve_upstream_timeout (explicit global : option Timeout.t) : Timeout.t :=
  match explicit with Some t => t | None => default BUILTIN_UPSTREAM_TIMEOUT global end.

Definition set_timeout (self : ProxyUpstream) (p : HttpPeer) : HttpPeer :=
  let t := resolve_upstream_timeout (Upstream.timeout (inner self)) (default_timeout self) in
  let p := set_timeouts p (Some (from_secs (Timeout.connect t))) (Some (from_secs (Timeout.read t)))
             (Some (from_secs (Timeout.send t))) in
  match Upstream.keepalive_pool (inner self) with
  | Some k => set_idle_timeout p (Some (KeepalivePool.idle_timeout_ms k * 1000000))
  | None => p
  end.

Definition hash_key `{HttpTypes} (self : ProxyUpstream) (session : Session) : string :=
  request_selector_key session (Upstream.hash_on (inner self)) (Upstream.key (inner self)).

(** [select_backend] of the upstream selector: the hashing algorithms take the
    request's key, and the peer gets its timeouts. *)
Definition select_for_session `{HttpTypes} (self : ProxyUpstream) (session : Session) (now : Instant) (w : LbState) :
    option Backend * ProxyUpstream * LbState :=
  let key := match lb self with RoundRobinLB _ | RandomLB _ => "" | FnvLB _ | KetamaLB _ => hash_key self session end in
  let '(r, self, w) := select_with_passive self key now w in
  ((fun backend => match ext_peer backend with
                   | Some peer => set_ext_peer backend (set_timeout self peer)
                   | None => backend
                   end) <$> r, self, w).

Definition observe_passive (self : ProxyUpstream) (backend : Backend) (outcome : PassiveOutcome) : ProxyUpstream :=
  match passive self with
  | Some p => set_passive self (Some (observe p backend outcome))
  | None => self
  end.

(** ** Refresh jitter *)

Definition fnv1a (s : string) : Z :=
  fold_left (fun hash byte => wrap 64 (Z.lxor hash byte * 0x100000001b3)) (byte_val <$> String.list_ascii_of_string s) 0xcbf29ce484222325.

Definition dns_refresh_frequency (upstream_id : string) (interval_secs : Z) : Duration :=
  let base := from_secs interval_secs in
  let jitter := Z.min (base / 10) (from_secs 60) in
  if jitter =? 0 then base
  else base + wrap 64 (fnv1a upstream_id `mod` (jitter + 1)).

End passive.

(** ** Counters are runs of the history *)

Inductive Kind : Type := KTcp | KTimeout | KHttp | KHealthy | KNeutral.
#[export] Instance Kind_eq_dec : EqDecision Kind.
Proof. solve_decision. Defined.

Definition classify (c : PassiveCheck.t) (o : PassiveOutcome) : Kind :=
  match o with
  | TcpFailure => KTcp
  | Timeout => KTimeout
  | Http s =>
    if bool_decide (s ∈ PassiveUnhealthy.http_statuses (PassiveCheck.unhealthy c)) then KHttp
    else if bool_decide (s ∈ PassiveHealthy.http_statuses (PassiveCheck.healthy c)) then KHealthy
    else KNeutral
  end.

(** [run c k os]: how many of the latest outcomes that count are of kind [k]. *)
Definition run_step (k : Kind) (n : Z) (o : Kind) : Z :=
  match o with KNeutral => n | _ => if decide (o = k) then n + 1 else 0 end.
Definition run (c : PassiveCheck.t) (k : Kind) (os : list PassiveOutcome) : Z :=
  fold_left (run_step k) (classify c <$> os) 0.
Definition observe_all (c : PassiveCheck.t) (os : list PassiveOutcome) : PassiveCounters :=
  fold_left (observe_node c) os PassiveCounters_default.
Definition reaches (threshold n : Z) : bool := (0 <? threshold) && (threshold <=? n).

Lemma run_snoc c k os o : run c k (os ++ [o]) = run_step k (run c k os) (classify c o).
Proof. unfold run. by rewrite fmap_app, fold_left_app. Qed.

Lemma observe_all_snoc c os o : observe_all c (os ++ [o]) = observe_node c (observe_all c os) o.
Proof. unfold observe_all. by rewrite fold_left_app. Qed.

Lemma run_bounds c k os : 0 <= run c k os <= Z.of_nat (length os).
Proof.
  induction os as [|o os IH] using rev_ind; [done|]. rewrite run_snoc, length_app. simpl. unfold run_step.
  destruct (classify c o); try case_decide; lia.
Qed.

Record tracks (c : PassiveCheck.t) (os : list PassiveOutcome) (n : PassiveCounters) : Prop := {
  t_tcp : tcp_failures n = run c KTcp os;
  t_timeouts : timeouts n = run c KTimeout os;
  t_http : http_failures n = run c KHttp os;
  t_successes : successes n = if tripped n then run c KHealthy os else 0;
}.

Lemma incr_small z n : 0 <= z <= n -> n < 2 ^ 32 - 1 -> incr z = z + 1.
Proof. intros. unfold incr, wrapping_add. apply wrap_small. lia. Qed.

(** A failing outcome: its own run grows, the others end. *)
Ltac solve_failure Hcount Hincr E1 n :=
  rewrite Hcount, Hincr; unfold reaches;
  destruct (_ && _); simpl; rewrite ?orb_true_r, ?orb_false_r; (split; [|done]);
    constructor; simpl; rewrite ?run_snoc; simpl; rewrite ?E1; simpl; try done; by destruct (tripped n).

Lemma outcome_tracks c os o n : Z.of_nat (length os) < 2 ^ 32 - 1 -> tracks c os n ->
  tracks c (os ++ [o]) (observe_node c n o) /\
  tripped (observe_node c n o) =
    match classify c o with
    | KTcp => tripped n || reaches (PassiveUnhealthy.tcp_failures (PassiveCheck.unhealthy c)) (run c KTcp (os ++ [o]))
    | KTimeout => tripped n || reaches (PassiveUnhealthy.timeouts (PassiveCheck.unhealthy c)) (run c KTimeout (os ++ [o]))
    | KHttp => tripped n || reaches (PassiveUnhealthy.http_failures (PassiveCheck.unhealthy c)) (run c KHttp (os ++ [o]))
    | KHealthy => tripped n && negb (reaches (PassiveHealthy.successes (PassiveCheck.healthy c)) (run c KHealthy (os ++ [o])))
    | KNeutral => tripped n
    end.
Proof.
  intros Hl [H1 H2 H3 H4].
  assert (forall k, incr (run c k os) = run c k os + 1) as Hi by (intros k; eapply incr_small; [apply run_bounds|done]).
  assert (forall k, run_step k (run c k os) k = if decide (k = KNeutral) then run c k os else run c k os + 1) as Hk by (by intros []).
  unfold observe_node. destruct o as [| |s]; simpl; rewrite ?run_snoc; simpl.
  - solve_failure H1 Hi I n.
  - solve_failure H2 Hi I n.
  - destruct (bool_decide (s ∈ PassiveUnhealthy.http_statuses _)) eqn:E1; [|destruct (bool_decide (s ∈ PassiveHealthy.http_statuses _)) eqn:E2].
    + simpl. solve_failure H3 Hi E1 n.
    + simpl. destruct (tripped n) eqn:Et; simpl.
      * rewrite H4, Hi. unfold reaches. destruct (_ && _) eqn:E; simpl; (split; [|by rewrite ?Et]);
          constructor; simpl; rewrite ?run_snoc; simpl; rewrite ?E1, ?E2, ?Et; simpl; done.
      * split; [|done]. constructor; simpl; rewrite ?run_snoc; simpl; rewrite ?E1, ?E2, ?Et; simpl; done.
    + split; [|done]. constructor; simpl; rewrite ?run_snoc; simpl; rewrite ?E1, ?E2; simpl; done.
Qed.

Lemma all_tracks c os : Z.of_nat (length os) < 2 ^ 32 -> tracks c os (observe_all c os).
Proof.
  induction os as [|o os IH] using rev_ind; intros Hl; [done|]. rewrite length_app in Hl. simpl in Hl.
  rewrite observe_all_snoc. apply outcome_tracks; [lia|apply IH; lia].
Qed.

(** C21 (passive health follows runs).  After any history the failure counters
    of a backend are the lengths of the current runs of each failure, statuses
    of neither set being ignored.  One more outcome trips the backend exactly
    when it completes a run of its configured threshold, and releases it exactly
    when it completes the configured run of healthy responses. *)
Theorem passive_tracks_runs c os o : Z.of_nat (length os) < 2 ^ 32 - 1 ->
  tracks c (os ++ [o]) (observe_all c (os ++ [o])) /\
  tripped (observe_all c (os ++ [o])) =
    match classify c o with
    | KTcp => tripped (observe_all c os) || reaches (PassiveUnhealthy.tcp_failures (PassiveCheck.unhealthy c)) (run c KTcp (os ++ [o]))
    | KTimeout => tripped (observe_all c os) || reaches (PassiveUnhealthy.timeouts (PassiveCheck.unhealthy c)) (run c KTimeout (os ++ [o]))
    | KHttp => tripped (observe_all c os) || reaches (PassiveUnhealthy.http_failures (PassiveCheck.unhealthy c)) (run c KHttp (os ++ [o]))
    | KHealthy => tripped (observe_all c os) && negb (reaches (PassiveHealthy.successes (PassiveCheck.healthy c)) (run c KHealthy (os ++ [o])))
    | KNeutral => tripped (observe_all c os)
    end.
Proof. intros Hl. rewrite observe_all_snoc. apply outcome_tracks; [done|apply all_tracks; lia]. Qed.

(** ** Probes *)

Section probes.
Context `{SocketAddrs}.

Inductive Event : Type := Observe (b : Backend) (o : PassiveOutcome) | Probe (b : Backend) (now : Instant).
Definition passive_step (p : PassiveHealthState) (e : Event) : PassiveHealthState :=
  match e with Observe b o => observe p b o | Probe b now => (take_probe p b now).2 end.

(** The backend is leased until [d] at least. *)
Definition leased (p : PassiveHealthState) (id : BackendId) (d : Instant) : Prop :=
  exists node d', counters p !! id = Some node /\ probe_lease node = Some d' /\ d <= d'.

Lemma leased_step p id d e : leased p id d -> (forall b o, e = Observe b o -> backend_id b <> id) -> leased (passive_step p e) id d.
Proof.
  intros (node & d' & Hn & Hd & Hle) He. destruct e as [b o|b now]; simpl.
  - exists node, d'. unfold observe. simpl. by rewrite lookup_insert_ne by (by eapply He).
  - unfold take_probe. destruct (counters p !! backend_id b) as [n2|] eqn:E; [|by exists node, d'].
    destruct (decide (backend_id b = id)) as [Hb|Hb].
    + rewrite Hb in E. rewrite Hn in E. injection E as <-. rewrite Hd. destruct (tripped node); simpl; [|by exists node, d'].
      destruct (Z.leb_spec d' now) as [Hln|Hln]; simpl; [|by exists node, d'].
      eexists _, (now + PROBE_LEASE). simpl. rewrite Hb, lookup_insert_eq. split_and!; [done|done|].
      unfold PROBE_LEASE, from_secs, nanos_per_sec. lia.
    + destruct (tripped n2 && _); simpl; [|by exists node, d']. exists node, d'. simpl. by rewrite lookup_insert_ne.
Qed.

(** One probe per lease.  Once a backend has been handed out as a half-open
    probe, no other probe of it is handed out before the lease ends, unless an
    outcome of that backend is observed in between. *)
Theorem probe_exclusive p b t p1 es t2 :
  take_probe p b t = (true, p1) ->
  (forall b2 o, Observe b2 o ∈ es -> backend_id b2 <> backend_id b) ->
  t2 < t + PROBE_LEASE ->
  take_probe (fold_left passive_step es p1) b t2 = (false, fold_left passive_step es p1).
Proof.
  intros Ht He Hlt. assert (leased (fold_left passive_step es p1) (backend_id b) (t + PROBE_LEASE)) as (node & d & Hn & Hd & Hle).
  { assert (leased p1 (backend_id b) (t + PROBE_LEASE)) as Hl.
    { unfold take_probe in Ht. destruct (counters p !! backend_id b); [|done]. destruct (_ && _); [|done]. injection Ht as <-.
      eexists _, _. simpl. rewrite lookup_insert_eq. done. }
    clear Ht. revert p1 Hl. induction es as [|e es IH]; intros p1 Hl; [done|]. simpl. apply IH; [intros b2 o Hin; apply (He b2 o); by right|].
    apply leased_step; [done|]. intros b2 o ->. apply (He b2 o). by left. }
  unfold take_probe. rewrite Hn, Hd. assert ((d <=? t2) = false) as -> by (apply Z.leb_gt; lia). by rewrite andb_false_r.
Qed.

End probes.

(** ** Selection *)

Section select.
Context `{SA : SocketAddrs} `{LB : !LoadBalancers} `{LL : !LoadBalancerLaws}.

Lemma scan_pure {S} (accept : Backend -> bool -> S -> bool * S) ready l s :
  (forall b r, accept b r s = (fst (accept b r s), s)) ->
  scan accept ready l s = (List.find (fun b => fst (accept b (ready b) s)) l, s).
Proof.
  intros Ha. induction l as [|b l IH]; [done|]. simpl. rewrite (Ha b (ready b)). simpl. by destruct (fst _).
Qed.

Lemma scan_regular ready l p :
  scan accept_regular ready l p = (List.find (fun b => ready b && negb (is_tripped p b)) l, p).
Proof. by rewrite scan_pure. Qed.

Definition probe_free (p : PassiveHealthState) (now : Instant) (b : Backend) : bool := (take_probe p b now).1.

(** Only the probe that is accepted changes the state. *)
Lemma scan_probe now ready l p :
  scan (accept_probe now) ready l (Some p) =
    match List.find (fun b => ready b && probe_free p now b) l with
    | Some b => (Some b, Some (take_probe p b now).2)
    | None => (None, Some p)
    end.
Proof.
  induction l as [|b l IH]; [done|]. simpl. destruct (ready b); simpl; [|done]. unfold probe_free in *.
  destruct (take_probe p b now) as [[] p'] eqn:E; simpl; [by rewrite ?E|].
  assert (p' = p) as ->; [|done]. unfold take_probe in E. destruct (counters p !! _); [|by injection E].
  by destruct (_ && _); injection E.
Qed.

Lemma probe_tripped p now b : probe_free p now b = true -> is_tripped (Some p) b = true /\ has_tripped p = true.
Proof.
  unfold probe_free, take_probe, is_tripped, has_tripped. destruct (counters p !! backend_id b) as [n|] eqn:E; [|done].
  destruct (tripped n) eqn:Et; [|done]. intros _. split; [done|]. apply existsb_exists. exists (backend_id b, n). split; [|done].
  by apply list_elem_of_In, elem_of_map_to_list.
Qed.

(** Healthy backends first.  A ready backend that is not tripped is chosen
    whenever the balancer offers one, the first in its order, and changes no
    passive state.  Otherwise a ready tripped backend whose lease is free is
    probed, and only its lease changes.  Otherwise the balancer serves its
    first candidate, ready ones first; the state is unchanged, and nothing is
    selected only when it offers no candidate at all. *)
Theorem passive_selection (u : ProxyUpstream) key now w :
  let b := with_lb (lb u) in
  let at_w w := candidates b key MAX_LB_ITERATIONS w in
  let w1 := lb_after b key w in
  match List.find (fun x => lb_ready b w x && negb (is_tripped (passive u) x)) (at_w w) with
  | Some x => select_with_passive u key now w = (Some x, u, w1)
  | None =>
    (exists p x, passive u = Some p /\ is_tripped (Some p) x = true /\ x ∈ at_w w1 /\ lb_ready b w1 x = true /\
       select_with_passive u key now w = (Some x, set_passive u (Some (take_probe p x now).2), lb_after b key w1)) \/
    (exists w2 r w3, select_with_passive u key now w = (r, u, w3) /\ (w2 = w1 \/ w2 = lb_after b key w1) /\
       match List.find (lb_ready b w2) (at_w w2) with
       | Some x => r = Some x
       | None => r = head (at_w (lb_after b key w2))
       end)
  end.
Proof.
  intros b at_w w1. subst at_w. cbv beta. unfold select_with_passive. fold b. rewrite select_with_scans, scan_regular. fold w1.
  assert (set_passive u (passive u) = u) as Hsame by (by destruct u).
  destruct (List.find _ (candidates b key MAX_LB_ITERATIONS w)) as [x|]; [by rewrite Hsame|].
  assert (forall w2, let '(r, w3) := select_backend b key MAX_LB_ITERATIONS w2 in
    match List.find (lb_ready b w2) (candidates b key MAX_LB_ITERATIONS w2) with Some x => r = Some x | None => r = head (candidates b key MAX_LB_ITERATIONS (lb_after b key w2)) end) as Hfall.
  { intros w2. unfold select_backend. rewrite select_is_healthy. destruct (List.find _ (candidates b key MAX_LB_ITERATIONS w2)); [done|].
    rewrite select_with_scans. by destruct (candidates b key MAX_LB_ITERATIONS _). }
  destruct (passive u) as [p|] eqn:Ep; [destruct (has_tripped p) eqn:Et|].
  - rewrite select_with_scans, scan_probe. destruct (List.find _ (candidates b key MAX_LB_ITERATIONS w1)) as [x|] eqn:Ef.
    + left. apply find_some in Ef as [Hx Hp]. bool_to_prop. exists p, x. split_and!; [done|by eapply probe_tripped|by apply list_elem_of_In|done|done].
    + right. specialize (Hfall (lb_after b key w1)). destruct (select_backend _ _ _ _) as [r w3]. exists (lb_after b key w1), r, w3.
      rewrite Hsame. eauto.
  - right. specialize (Hfall w1). destruct (select_backend _ _ _ _) as [r w3]. exists w1, r, w3. rewrite Hsame. eauto.
  - right. specialize (Hfall w1). destruct (select_backend _ _ _ _) as [r w3]. exists w1, r, w3. rewrite Hsame. eauto.
Qed.

End select.

(** Refresh jitter.  The refresh period of an upstream is at least the
    configured interval, and longer by at most a tenth of it and a minute. *)
Theorem refresh_jitter_bounds id secs : 0 <= secs ->
  from_secs secs <= dns_refresh_frequency id secs <= from_secs secs + Z.min (from_secs secs / 10) (from_secs 60).
Proof.
  intros Hs. unfold dns_refresh_frequency. cbv zeta. assert (0 <= from_secs secs) as Hb by (unfold from_secs, nanos_per_sec; lia).
  pose proof (Z.div_pos _ 10 Hb ltac:(lia)). assert (from_secs 60 = 60000000000) as E60 by done.
  destruct (Z.eqb_spec (Z.min (from_secs secs / 10) (from_secs 60)) 0); [lia|].
  pose proof (Z.mod_pos_bound (fnv1a id) (Z.min (from_secs secs / 10) (from_secs 60) + 1) ltac:(lia)).
  rewrite wrap_small; lia.
Qed.

(** ** A concrete upstream *)

Module ToyBalancer.
Import ToySelection.

(** Candidates in a fixed order, with their health. *)
#[export] Instance balancers : LoadBalancers := {
  Lb := list (Backend * bool);
  LbState := nat;
  lb_select_with T lb key n accept s w :=
    (scan accept (fun b => existsb (fun e => bool_decide (addr e.1 = addr b) && e.2) lb) (take n lb.*1) s, S w);
  lb_select lb key n w :=
    (List.find (fun b => existsb (fun e => bool_decide (addr e.1 = addr b) && e.2) lb) (take n lb.*1), S w);
}.
#[export, refine] Instance balancer_laws : LoadBalancerLaws := {
  candidates (lb : list (Backend * bool)) key n (w : nat) := take n lb.*1;
  lb_ready lb (w : nat) b := existsb (fun e => bool_decide (addr e.1 = addr b) && e.2) lb;
  lb_after lb key w := S w;
}.
Proof. done. done. Defined.

Definition checks : PassiveCheck.t :=
  {| PassiveCheck.healthy := PassiveHealthy.default; PassiveCheck.unhealthy := PassiveUnhealthy.default |}.
Definition fresh : PassiveHealthState := {| config := checks; counters := ∅ |}.
Definition after_failures (bs : list Backend) : PassiveHealthState :=
  fold_left (fun p b => observe (observe p b TcpFailure) b TcpFailure) bs fresh.
Definition upstream (p : PassiveHealthState) : ProxyUpstream :=
  {| inner := demo_upstream "u1"; lb := RoundRobinLB [(node "a" 0, true); (node "b" 0, true)]; cache_origin_fingerprint := 0;
     passive := Some p; default_timeout := None |}.

End ToyBalancer.
Import ToySelection ToyBalancer.

Lemma passive_tracks_runs_witness :
  tripped (observe_all checks [TcpFailure; Http 404; TcpFailure]) = true /\
  tcp_failures (observe_all checks [TcpFailure; Http 404; TcpFailure]) = 2.
Proof.
  destruct (passive_tracks_runs checks [TcpFailure; Http 404] TcpFailure eq_refl) as [[H1 _ _ _] H2].
  split; [etransitivity; [exact H2|]; vm_compute; reflexivity|]. etransitivity; [exact H1|]. vm_compute. reflexivity.
Defined.

Lemma probe_exclusive_witness : exists p1,
  take_probe (after_failures [node "a" 0]) (node "a" 0) 7 = (true, p1) /\
  (take_probe (observe p1 (node "b" 0) Timeout) (node "a" 0) 8).1 = false.
Proof.
  destruct (take_probe (after_failures [node "a" 0]) (node "a" 0) 7) as [ok p1] eqn:Hp. exists p1.
  assert (ok = true) as -> by (transitivity (take_probe (after_failures [node "a" 0]) (node "a" 0) 7).1; [by rewrite Hp|vm_compute; reflexivity]). split; [reflexivity|].
  refine (f_equal fst (probe_exclusive (after_failures [node "a" 0]) (node "a" 0) 7 p1 [Observe (node "b" 0) Timeout] 8 Hp _ eq_refl)).
  intros b o Hin. apply list_elem_of_singleton in Hin. injection Hin as -> ->. vm_compute. discriminate.
Defined.

Lemma passive_selection_witness :
  addr <$> (select_with_passive (upstream (after_failures [node "a" 0])) "k" 7 0%nat).1.1 = Some "b".
Proof.
  pose proof (passive_selection (upstream (after_failures [node "a" 0])) "k" 7 0%nat) as H. cbv zeta in H.
  match type of H with match ?f with _ => _ end => destruct f as [x|] eqn:E; [|vm_compute in E; discriminate] end.
  assert (Some x = Some (node "b" 0)) as Hx by (etransitivity; [symmetry; exact E|vm_compute; reflexivity]).
  injection Hx as ->. exact (f_equal (fun r => addr <$> r.1.1) H).
Defined.

Lemma refresh_jitter_bounds_witness : 30 * 10 ^ 9 <= dns_refresh_frequency "u1" 30 <= 33 * 10 ^ 9.
Proof. exact (refresh_jitter_bounds "u1" 30 ltac:(lia)). Defined.

(** With every node tripped and its probe in flight, the fallback still sends
    requests to a tripped node. *)
Example tripped_nodes_serve :
  let u := upstream (after_failures [node "a" 0; node "b" 0]) in
  let '(r1, u1, w1) := select_with_passive u "k" 7 0%nat in
  let '(r2, u2, w2) := select_with_passive u1 "k" 8 w1 in
  let '(r3, _, _) := select_with_passive u2 "k" 9 w2 in
  (addr <$> r1, addr <$> r2, addr <$> r3) = (Some "a", Some "b", Some "a").
Proof. vm_compute. reflexivity. Qed.
