(* ===== verification/Discovery.v ===== *)
(** * Upstream discovery ([src/src/proxy/upstream/discovery.rs])

    Building the peers and backends of an upstream from its nodes, DNS
    discovery with its last-known-good addresses, the merge of the
    sub-discoveries, and the preparation of a candidate's backends. *)

From Stdlib Require Import ZArith Lia Sorted.
From stdpp Require Import base tactics gmap strings pretty option sorting list.
From S2P Require Import Prelude Errors GraphStore Utf8 Hosts Json Config ConfigSet AdminOps Selection.

Open Scope Z_scope.

(** ** IP addresses *)

Inductive IpAddr : Type := V4 (octets : list Z) | V6 (segments : list Z).

(** [str::parse::<IpAddr>] *)
Definition parse_ip (s : string) : option IpAddr :=
  match parse_ipv4 s with Some o => Some (V4 o) | None => V6 <$> parse_ipv6 s end.
Definition is_ipv6 (ip : IpAddr) : bool := match ip with V6 _ => true | V4 _ => false end.

(** The longest run of zero segments, the first among equals. *)
Fixpoint zero_span (i : nat) (segments : list Z) (current longest : nat * nat) : nat * nat :=
  match segments with
  | [] => longest
  | s :: segments =>
    if s =? 0 then
      let current := (if (current.2 =? 0)%nat then i else current.1, S current.2) in
      zero_span (S i) segments current (if (longest.2 <? current.2)%nat then current else longest)
    else zero_span (S i) segments (0%nat, 0%nat) longest
  end.
Definition join_with (sep : string) (l : list string) : string := String.concat sep l.
Definition display_ipv4 (octets : list Z) : string := join_with "." (pretty <$> octets).
Definition display_segments (l : list Z) : string := join_with ":" (lower_hex 4 <$> l).

(** [Display for IpAddr] *)
Definition ip_display (ip : IpAddr) : string :=
  match ip with
  | V4 octets => display_ipv4 octets
  | V6 ([0; 0; 0; 0; 0; 0xffff; a; b]) => "::ffff:" +:+ display_ipv4 [a / 256; a mod 256; b / 256; b mod 256]
  | V6 segments =>
    let '(start, len) := zero_span 0 segments (0%nat, 0%nat) (0%nat, 0%nat) in
    if (1 <? len)%nat
    then display_segments (take start segments) +:+ "::" +:+ display_segments (drop (start + len) segments)
    else display_segments segments
  end.
(** [Display for SocketAddr] *)
Definition socket_addr_display (ip : IpAddr) (port : Z) : string :=
  if is_ipv6 ip then "[" +:+ ip_display ip +:+ "]:" +:+ pretty port else ip_display ip +:+ ":" +:+ pretty port.

Example ip_texts :
  ip_display <$> (omap parse_ip ["10.0.0.1"; "::"; "::1"; "2001:db8:0:0:1:0:0:1"; "::ffff:1.2.3.4"; "1:0:0:2:0:0:0:3"; "fe80::ABCD"]) =
    ["10.0.0.1"; "::"; "::1"; "2001:db8::1:0:0:1"; "::ffff:1.2.3.4"; "1:0:0:2::3"; "fe80::abcd"].
Proof. vm_compute. reflexivity. Qed.

(** ** Peers *)

(** Parsing a backend address, and packing a client identity. *)
Class Resolution `{SocketAddrs} `{OpenSsl} : Type := {
  parse_socket_addr : string -> Result Addr string;
  CertKey_new : list X509 -> PKey -> CertKey;
}.

Section discovery.
Context `{Resolution}.

Definition compute_peer_sni (host : string) (pass_host : UpstreamPassHost) (upstream_host : option string) : string :=
  match pass_host with REWRITE => default host upstream_host | PASS | NODE => host end.

Definition build_peer (addr : string) (scheme : UpstreamScheme) (sni : string) (cert : option CertKey) : HttpPeer :=
  let tls := match scheme with HTTPS | GRPCS => true | HTTP | GRPC => false end in
  let peer := HttpPeer_new addr tls sni in
  let peer := match scheme with GRPC | GRPCS => set_alpn peer H2 | HTTP | HTTPS => peer end in
  match cert with Some _ => set_client_cert_key peer cert | None => peer end.

Definition Backend_new_with_weight (addr : string) (weight : Z) : Result Backend string :=
  let? a := parse_socket_addr addr in
  Ok {| Selection.addr := a; bk_weight := weight; ext_priority := None; ext_id := None; ext_peer := None |}.

(** A backend with its metadata; the backend is fresh, it holds none yet. *)
Definition stamped (backend : Backend) (peer : HttpPeer) (priority : Z) : Backend :=
  set_backend_id (set_backend_priority (set_ext_peer backend peer) priority).

(** ** DNS discovery *)

Record DnsNode : Type := {
  domain : string;
  dn_port : Z;
  dn_scheme : UpstreamScheme;
  dn_weight : Z;
  dn_priority : Z;
  dn_sni : string;
}.

Inductive DnsRefreshFailure : Type := Lookup | EmptyAnswer.

Record DnsLkgState : Type := { addresses : option (list IpAddr); last_success_at : option Instant }.
Definition DnsLkgState_default : DnsLkgState := {| addresses := None; last_success_at := None |}.

Definition DNS_STALE_TTL : Duration := from_secs 300.

Record DnsDiscovery : Type := { node : DnsNode; dns_cert : option CertKey; lkg : DnsLkgState }.
Definition DnsDiscovery_new (node : DnsNode) (cert : option CertKey) : DnsDiscovery :=
  {| node := node; dns_cert := cert; lkg := DnsLkgState_default |}.

Definition build_backend (n : DnsNode) (cert : option CertKey) (backends : list Backend) (ip : IpAddr) : list Backend :=
  let addr := socket_addr_display ip (dn_port n) in
  match Backend_new_with_weight addr (dn_weight n) with
  | Err _ => backends
  | Ok backend => set_insert (stamped backend (build_peer addr (dn_scheme n) (dn_sni n) cert) (dn_priority n)) backends
  end.
Definition build_backends (self : DnsDiscovery) (ips : list IpAddr) : list Backend :=
  fold_left (build_backend (node self) (dns_cert self)) ips [].

Definition lkg_backends (self : DnsDiscovery) (now : Instant) : option (list Backend) :=
  match addresses (lkg self), last_success_at (lkg self) with
  | Some ips, Some last_success_at =>
    if DNS_STALE_TTL <? duration_since now last_success_at then None else Some (build_backends self ips)
  | _, _ => None
  end.

Abbreviation Discovered := (list Backend * gmap Z bool)%type.

(** [discover], given the resolver's answer and the clock. *)
Definition dns_discover (self : DnsDiscovery) (answer : Result (list IpAddr) string) (now : Instant) :
    Result Discovered string * DnsDiscovery :=
  match answer with
  | Ok [] =>
    match lkg_backends self now with
    | Some lkg => (Ok (lkg, ∅), self)
    | None => (Err ("DNS discovery for domain " +:+ domain (node self) +:+ " returned no addresses"), self)
    end
  | Ok resolved =>
    (Ok (build_backends self resolved, ∅),
     {| node := node self; dns_cert := dns_cert self;
        lkg := {| addresses := Some resolved; last_success_at := Some now |} |})
  | Err e =>
    match lkg_backends self now with
    | Some lkg => (Ok (lkg, ∅), self)
    | None => (Err ("DNS discovery failed for domain: " +:+ domain (node self) +:+ ": " +:+ e), self)
    end
  end.

(** ** Hybrid discovery *)

Inductive SubDiscovery : Type := Dns (d : DnsDiscovery) | Static (backends : list Backend).
Record HybridDiscovery : Type := { discoveries : list SubDiscovery }.

(** The resolver as the sub-discoveries meet it: the answer to the [i]-th and
    when it came, or none while it is pending. *)
Abbreviation Resolver := (nat -> option (Result (list IpAddr) string * Instant)).

Fixpoint poll_all (ask : Resolver) (i : nat) (ds : list SubDiscovery) : list (option (Result Discovered string)) * list SubDiscovery :=
  match ds with
  | [] => ([], [])
  | d :: ds =>
    let '(r, d) := match d with
                   | Static backends => (Some (Ok (backends, ∅)), d)
                   | Dns dns =>
                     match ask i with
                     | Some (answer, now) => let '(r, dns) := dns_discover dns answer now in (Some r, Dns dns)
                     | None => (None, d)
                     end
                   end in
    let '(rs, ds) := poll_all ask (S i) ds in (r :: rs, d :: ds)
  end.

(** One result of [join_all] merged. *)
Definition merge_result (acc : Discovered * option string) (result : Result Discovered string) : Discovered * option string :=
  let '(backends, health_checks, first_err) := acc in
  match result with
  | Ok (part_backends, part_health_checks) =>
    (fold_left insert_backend part_backends backends, part_health_checks ∪ health_checks, first_err)
  | Err e => (backends, health_checks, match first_err with Some e => Some e | None => Some e end)
  end.

Definition merge_all (results : list (Result Discovered string)) : Result Discovered string :=
  let '(backends, health_checks, first_err) := fold_left merge_result results ([], ∅, None) in
  match backends, first_err with
  | [], Some err => Err ("Hybrid discovery yielded no backends and at least one sub-discovery failed: " +:+ err)
  | _, _ => Ok (backends, health_checks)
  end.

(** [None] while a sub-discovery is pending: the future was dropped there. *)
Definition hybrid_discover (ask : Resolver) (self : HybridDiscovery) : option (Result Discovered string) * HybridDiscovery :=
  let '(rs, ds) := poll_all ask 0 (discoveries self) in
  (merge_all <$> mapM (fun r => r) rs, {| discoveries := ds |}).

(** One node of [HybridDiscovery::build]. *)
Definition build_node (upstream : Upstream.t) (cert : option CertKey) (acc : list SubDiscovery * list Backend) (n : Node) :
    Result (list SubDiscovery * list Backend) ProxyError :=
  let '(discoveries, backends) := acc in
  if negb (is_enabled n) then Ok acc
  else
    let port := effective_port (Upstream.scheme upstream) n in
    let host := bare_host n in
    let sni := compute_peer_sni host (Upstream.pass_host upstream) (Upstream.upstream_host upstream) in
    match parse_ip host with
    | Some ip_addr =>
      let addr_str := socket_addr_display ip_addr port in
      let? backend := map_err (fun e => Configuration ("Failed to create backend for " +:+ addr_str +:+ ": " +:+ e))
                        (Backend_new_with_weight addr_str (weight n)) in
      let peer := build_peer addr_str (Upstream.scheme upstream) sni cert in
      Ok (discoveries, insert_backend backends (stamped backend peer (Hosts.priority n)))
    | None =>
      let dns := {| domain := host; dn_port := port; dn_scheme := Upstream.scheme upstream; dn_weight := weight n;
                    dn_priority := Hosts.priority n; dn_sni := sni |} in
      Ok ((discoveries ++ [Dns (DnsDiscovery_new dns cert)])%list, backends)
    end.

Definition HybridDiscovery_build (upstream : Upstream.t) : Result HybridDiscovery ProxyError :=
  let? cert := match Upstream.tls upstream with
               | Some tls => let? ck := load_client_cert_key tls in Ok (Some (CertKey_new ck.1 ck.2))
               | None => Ok None
               end in
  let? acc := try_fold (build_node upstream cert) ([], []) (Upstream.nodes upstream) in
  let '(ds, backends) := acc in
  Ok {| discoveries := if bool_decide (backends = []) then ds else (ds ++ [Static backends])%list |}.

(** ** Preparation and refresh *)

Record PreparedUpstream : Type := { prepared_backends : list Backend; health_checks : gmap Z bool }.

Definition upstream_err (u : Upstream.t) (what : string) : ProxyError := Configuration ("Upstream '" +:+ Upstream.id u +:+ "' " +:+ what).

(** Both preparations; [pending] is the error of an unfinished discovery. *)
Definition prepare_with (pending : string) (ask : Resolver) (upstream : Upstream.t) : Result PreparedUpstream ProxyError :=
  let? discovery := HybridDiscovery_build upstream in
  match (hybrid_discover ask discovery).1 with
  | Some (Ok (backends, health_checks)) =>
    if bool_decide (backends = []) then Err (upstream_err upstream "discovery returned no backends")
    else Ok {| prepared_backends := backends; health_checks := health_checks |}
  | Some (Err e) => Err (upstream_err upstream ("discovery failed: " +:+ e))
  | None => Err (upstream_err upstream pending)
  end.

(** A DNS lookup is pending at the first poll. *)
Definition prepare_static_upstream (upstream : Upstream.t) : Result PreparedUpstream ProxyError :=
  prepare_with "requires asynchronous DNS preparation" (fun _ => None) upstream.
Definition prepare_upstream (dns_resolution_timeout : Z) (ask : Resolver) (upstream : Upstream.t) : Result PreparedUpstream ProxyError :=
  prepare_with ("DNS resolution timed out after " +:+ pretty dns_resolution_timeout +:+ "s") ask upstream.

Record SeededDiscovery : Type := { initial : option PreparedUpstream; refresh : HybridDiscovery }.
Definition seeded_discover (ask : Resolver) (self : SeededDiscovery) : Result Discovered string * SeededDiscovery :=
  match initial self with
  | Some prepared => (Ok (prepared_backends prepared, health_checks prepared), {| initial := None; refresh := refresh self |})
  | None =>
    let '(r, h) := hybrid_discover ask (refresh self) in
    (match r with Some r => r | None => Err "DNS refresh timed out" end, {| initial := None; refresh := h |})
  end.

End discovery.

(** ** Backend sets *)

Section sets.
Context `{SocketAddrs}.

#[local] Instance bcmp_order : CmpOrder bcmp.
Proof. unfold bcmp. apply _. Qed.

Lemma same_key a b : same a b = true <-> bkey a = bkey b.
Proof.
  unfold same, backend_cmp. rewrite <-(cmp_eq (cmp := bcmp)). by destruct (bcmp _ _).
Qed.

Lemma cmp_Eq a b : backend_cmp a b = Eq <-> bkey a = bkey b.
Proof. unfold backend_cmp. apply cmp_eq. Qed.

Lemma elem_of_set_insert b s x : x ∈ set_insert b s -> x = b \/ x ∈ s.
Proof.
  induction s as [|y s IH]; simpl; [intros ->%list_elem_of_singleton; by left|]. destruct (backend_cmp b y).
  - by right.
  - intros [->|Hx]%elem_of_cons; auto.
  - intros [->|Hx]%elem_of_cons; [right; by left|]. destruct (IH Hx); [by left|right; by right].
Qed.

Lemma set_insert_sorted b s : btree_set s -> btree_set (set_insert b s).
Proof.
  induction 1 as [|y s Hs IH Hy]; simpl; [repeat constructor|]. destruct (backend_cmp b y) eqn:E.
  - by constructor.
  - constructor; [by constructor|]. constructor; [done|]. eapply Forall_impl; [exact Hy|]. intros z Hz.
    unfold backend_cmp in *. by eapply cmp_lt_trans.
  - constructor; [done|]. apply Forall_forall. intros x [->|Hx]%elem_of_set_insert.
    + rewrite backend_cmp_opp, E. done.
    + rewrite Forall_forall in Hy. by apply Hy.
Qed.

Lemma set_insert_has b s : exists e, e ∈ set_insert b s /\ bkey e = bkey b /\ (e = b \/ e ∈ s).
Proof.
  induction s as [|y s (e & He & Hk & Hor)]; simpl; [exists b; split_and!; [by left|done|by left]|].
  destruct (backend_cmp b y) eqn:E.
  - exists y. split_and!; [by left|symmetry; by apply cmp_Eq|right; by left].
  - exists b. split_and!; [by left|done|by left].
  - exists e. split_and!; [by right|done|]. destruct Hor; [by left|right; by right].
Qed.

Lemma set_insert_keeps b s x : x ∈ s -> x ∈ set_insert b s.
Proof.
  induction s as [|y s IH]; [by intros ?%not_elem_of_nil|]. simpl. intros Hx. destruct (backend_cmp b y); [done|by right|].
  apply elem_of_cons in Hx as [->|Hx]; [by left|right; auto].
Qed.

Lemma set_get_spec b s e : set_get b s = Some e -> e ∈ s /\ bkey b = bkey e.
Proof. intros [Hin Hs]%find_some. split; [by apply list_elem_of_In|by apply same_key]. Qed.

Lemma set_get_none b s x : set_get b s = None -> x ∈ s -> bkey b <> bkey x.
Proof. intros Hn Hx Hk%same_key. rewrite (find_none _ _ Hn x) in Hk; [done|by apply list_elem_of_In]. Qed.

Lemma set_remove_sorted b s : btree_set s -> btree_set (set_remove b s).
Proof.
  unfold set_remove. induction 1 as [|y s Hs IH Hy]; simpl; [constructor|]. destruct (negb _); [|done].
  constructor; [done|]. apply Forall_forall. intros x Hx. apply list_elem_of_In, filter_In in Hx as [Hx _].
  rewrite Forall_forall in Hy. by apply Hy, list_elem_of_In.
Qed.

Lemma insert_backend_sorted s b : btree_set s -> btree_set (insert_backend s b).
Proof.
  intros Hs. unfold insert_backend. destruct (set_get b s); [|by apply set_insert_sorted]. cbv zeta.
  repeat case_match; try done. by apply set_insert_sorted, set_remove_sorted.
Qed.

(** The address keeps its highest priority. *)
Definition covers (s : list Backend) (x : Backend) : Prop :=
  exists e, e ∈ s /\ bkey e = bkey x /\ backend_priority x <= backend_priority e.

Lemma set_unique s x y : btree_set s -> x ∈ s -> y ∈ s -> bkey x = bkey y -> x = y.
Proof.
  induction 1 as [|z s Hs IH Hz]; intros Hx Hy Hk; [by apply not_elem_of_nil in Hx|]. rewrite Forall_forall in Hz.
  apply cmp_Eq in Hk as Hc. apply elem_of_cons in Hx as [->|Hx], Hy as [->|Hy]; [done| | |by apply IH].
  - by rewrite (Hz y Hy) in Hc.
  - apply Hz in Hx. rewrite backend_cmp_opp, Hc in Hx. done.
Qed.

Lemma insert_backend_spec s b : btree_set s ->
  (forall x, x ∈ insert_backend s b -> x = b \/ x ∈ s) /\ covers (insert_backend s b) b /\
  forall x, x ∈ s -> covers (insert_backend s b) x.
Proof.
  intros Hs. unfold insert_backend. destruct (set_get b s) as [e|] eqn:E.
  2:{ split_and!; [apply elem_of_set_insert| |].
      - destruct (set_insert_has b s) as (e & He & Hk & [->|Hin]); [by exists b|]. by destruct (set_get_none b s e E Hin).
      - intros x Hx. exists x. split_and!; [by apply set_insert_keeps|done|done]. }
  apply set_get_spec in E as [He Hk]. cbv zeta.
  destruct (Z.eqb_spec (backend_priority b) (backend_priority e)) as [Ep|Ep]; [|destruct (Z.ltb_spec (backend_priority e) (backend_priority b)) as [El|El]].
  - split_and!; [auto|exists e; split_and!; [done|done|lia]|intros x Hx; by exists x].
  - assert (forall x, x ∈ set_remove e s <-> x ∈ s /\ bkey x <> bkey e) as Hrm.
    { intros x. unfold set_remove. rewrite !list_elem_of_In, filter_In, negb_true_iff, <-not_true_iff_false, same_key. naive_solver. }
    assert (covers (set_insert b (set_remove e s)) b) as Hb.
    { destruct (set_insert_has b (set_remove e s)) as (e' & He' & Hk' & [->|Hin]); [by exists b|]. apply Hrm in Hin as [_ Hne]. congruence. }
    split_and!; [|done|].
    + intros x [->|Hx%Hrm]%elem_of_set_insert; naive_solver.
    + intros x Hx. destruct (decide (bkey x = bkey b)) as [Hxb|Hxb].
      * destruct Hb as (e' & He' & Hk' & Hp'). exists e'. split_and!; [done|congruence|].
        rewrite (set_unique s x e) by (done || congruence). lia.
      * exists x. split_and!; [|done|done]. apply set_insert_keeps, Hrm. split; [done|congruence].
  - split_and!; [auto|exists e; split_and!; [done|done|lia]|intros x Hx; by exists x].
Qed.

Lemma insert_backends_spec part : forall s, btree_set s ->
  let r := fold_left insert_backend part s in
  btree_set r /\ (forall x, x ∈ r -> x ∈ part \/ x ∈ s) /\ (forall x, x ∈ part \/ x ∈ s -> covers r x).
Proof.
  induction part as [|b part IH]; intros s Hs r; simpl in r.
  { split_and!; [done|auto|]. intros x [Hx|Hx]; [by apply not_elem_of_nil in Hx|by exists x]. }
  destruct (insert_backend_spec s b Hs) as (H1 & H2 & H3).
  destruct (IH (insert_backend s b) (insert_backend_sorted s b Hs)) as (I1 & I2 & I3). split_and!; [done| |].
  - intros x [Hx|Hx]%I2; [left; by right|]. apply H1 in Hx as [->|Hx]; [left; by left|by right].
  - intros x Hx. assert (covers (insert_backend s b) x \/ x ∈ part) as [(e & He & Hk & Hp)|Hin].
    { destruct Hx as [[->|Hx]%elem_of_cons|Hx]; auto. }
    + destruct (I3 e (or_intror He)) as (e' & He' & Hk' & Hp'). exists e'. split_and!; [done|congruence|lia].
    + by apply I3; left.
Qed.

End sets.

(** ** What discovery answers *)

Section answers.
Context `{Resolution}.

Abbreviation Discovered := (list Backend * gmap Z bool)%type.

(** The latest successful non-empty answer of a history. *)
Definition success (e : Result (list IpAddr) string * Instant) : option (list IpAddr * Instant) :=
  match e.1 with Ok ((_ :: _) as ips) => Some (ips, e.2) | _ => None end.
Definition last_success (hist : list (Result (list IpAddr) string * Instant)) : option (list IpAddr * Instant) :=
  fold_left (fun acc e => match success e with Some s => Some s | None => acc end) hist None.
Definition refreshed (n : DnsNode) (cert : option CertKey) (hist : list (Result (list IpAddr) string * Instant)) : DnsDiscovery :=
  fold_left (fun d e => (dns_discover d e.1 e.2).2) hist (DnsDiscovery_new n cert).

Lemma refreshed_lkg n cert hist :
  node (refreshed n cert hist) = n /\ dns_cert (refreshed n cert hist) = cert /\
  lkg (refreshed n cert hist) =
    match last_success hist with
    | Some (ips, t) => {| addresses := Some ips; last_success_at := Some t |}
    | None => DnsLkgState_default
    end.
Proof.
  unfold refreshed, last_success. induction hist as [|e hist IH] using rev_ind; [done|]. rewrite !fold_left_app. simpl.
  set (d := fold_left _ hist (DnsDiscovery_new n cert)) in *. clearbody d. destruct IH as (<- & <- & IH).
  destruct e as [[[|ip ips]|err] t]; simpl; [by destruct (lkg_backends d t)|done|by destruct (lkg_backends d t)].
Qed.

(** Last-known-good addresses.  Whatever the resolver answered before, a
    refresh serves its own non-empty answer; when it fails or is empty it serves
    the latest successful answer as long as that is at most 300 seconds old,
    counted from its resolution, and otherwise fails. *)
Theorem dns_serves_last_success n cert hist answer now :
  let d := refreshed n cert hist in
  match success (answer, now), last_success hist with
  | Some (ips, _), _ => (dns_discover d answer now).1 = Ok (build_backends d ips, ∅)
  | None, Some (ips, t) =>
    if DNS_STALE_TTL <? duration_since now t then is_ok (dns_discover d answer now).1 = false
    else (dns_discover d answer now).1 = Ok (build_backends d ips, ∅)
  | None, None => is_ok (dns_discover d answer now).1 = false
  end.
Proof.
  intros d. destruct (refreshed_lkg n cert hist) as (_ & _ & Hl). fold d in Hl. clearbody d.
  destruct answer as [[|ip ips]|err]; simpl; unfold lkg_backends; rewrite ?Hl; [|done|];
    destruct (last_success hist) as [[ips t]|]; simpl; try done; by destruct (_ <? _).
Qed.

Lemma merge_results_spec results : forall bs h e, btree_set bs ->
  let '(r, _, err) := fold_left merge_result results (bs, h, e) in
  btree_set r /\ (forall x, x ∈ r -> x ∈ bs \/ exists part ph, Ok (part, ph) ∈ results /\ x ∈ part) /\
  (forall x, x ∈ bs -> covers r x) /\ (forall part ph x, Ok (part, ph) ∈ results -> x ∈ part -> covers r x) /\
  (is_Some err <-> is_Some e \/ exists m, Err m ∈ results).
Proof.
  induction results as [|[[part ph]|m] results IH]; intros bs h e Hs; simpl.
  { split_and!; [done|auto|intros x Hx; by exists x|by intros ? ? ? ?%not_elem_of_nil|].
    split; [auto|intros [?|[m ?%not_elem_of_nil]]; done]. }
  - destruct (insert_backends_spec part bs Hs) as (P1 & P2 & P3).
    specialize (IH (fold_left insert_backend part bs) (ph ∪ h) e P1). destruct (fold_left merge_result _ _) as [[r rh] err].
    destruct IH as (I1 & I2 & I3 & I4 & I5).
    assert (forall x, covers (fold_left insert_backend part bs) x -> covers r x) as Htrans.
    { intros x (y & Hy & Hk & Hp). destruct (I3 y Hy) as (z & Hz & Hk' & Hp'). exists z. split_and!; [done|congruence|lia]. }
    split_and!; [done| | | |].
    + intros x [[Hx|Hx]%P2|(p2 & ph2 & Hin & Hx)]%I2; [right; exists part, ph; split; [by left|done]|by left|].
      right. exists p2, ph2. split; [by right|done].
    + intros x Hx. by apply Htrans, P3; right.
    + intros p2 ph2 x [[= -> ->]|Hin]%elem_of_cons Hx; [by apply Htrans, P3; left|by eapply I4].
    + rewrite I5. split; (intros [?|[m Hm]]; [by left|right; exists m]); [by right|by apply elem_of_cons in Hm as [|]].
  - specialize (IH bs h (match e with Some e => Some e | None => Some m end) Hs).
    destruct (fold_left merge_result _ _) as [[r rh] err]. destruct IH as (I1 & I2 & I3 & I4 & I5).
    split_and!; [done| |done| |].
    + intros x [Hx|(p2 & ph2 & Hin & Hx)]%I2; [by left|]. right. exists p2, ph2. split; [by right|done].
    + intros p2 ph2 x [|Hin]%elem_of_cons Hx; [done|by eapply I4].
    + rewrite I5. split; [intros _; right; exists m; by left|]. intros _. left. by destruct e.
Qed.

(** Merging sub-discoveries.  The merge of the results is a set of backends
    of the successful parts; an address offered by several parts keeps its
    highest priority; the merge fails exactly when no part offers a backend and
    some part failed. *)
Theorem merge_all_spec results :
  match merge_all results with
  | Ok (bs, _) => btree_set bs /\ (forall x, x ∈ bs -> exists part ph, Ok (part, ph) ∈ results /\ x ∈ part) /\
      (forall part ph x, Ok (part, ph) ∈ results -> x ∈ part -> covers bs x) /\
      (bs = [] -> forall m, ~ Err m ∈ results)
  | Err _ => (forall part ph, Ok (part, ph) ∈ results -> part = []) /\ exists m, Err m ∈ results
  end.
Proof.
  unfold merge_all. pose proof (merge_results_spec results [] ∅ None ltac:(constructor)) as Hm.
  destruct (fold_left _ _ _) as [[bs h] err]. destruct Hm as (H1 & H2 & _ & H4 & H5).
  assert ((exists m, Err m ∈ results) <-> is_Some err) as Herr by (rewrite H5; split; [by right|intros [[? ?]|?]; done]).
  assert (forall x, x ∈ bs -> exists part ph, Ok (part, ph) ∈ results /\ x ∈ part) as Hin.
  { intros x [Hx|Hx]%H2; [by apply not_elem_of_nil in Hx|done]. }
  destruct bs as [|b bs]; [|split_and!; done]. destruct err as [m|].
  - split; [|by apply Herr]. intros part ph Hp. destruct part as [|x part]; [done|].
    destruct (H4 _ _ x Hp ltac:(by left)) as (e & He & _). by apply not_elem_of_nil in He.
  - split_and!; [done|done|done|]. intros _ m Hm. destruct (proj1 Herr (ex_intro _ m Hm)); done.
Qed.

End answers.

(** ** Prepared backends *)

Section prepared.
Context `{Resolution}.

(** [b] was made from the enabled node [n]: its weight, priority, identity and
    the server name of its peer. *)
Definition made (u : Upstream.t) (b : Backend) : Prop :=
  ext_id b = Some (structural_id b) /\
  exists n peer, n ∈ Upstream.nodes u /\ is_enabled n = true /\ backend_priority b = Hosts.priority n /\ bk_weight b = weight n /\
    ext_peer b = Some peer /\ sni peer = compute_peer_sni (bare_host n) (Upstream.pass_host u) (Upstream.upstream_host u).
Definition sub_made (u : Upstream.t) (d : SubDiscovery) : Prop :=
  match d with
  | Static bs => btree_set bs /\ Forall (made u) bs
  | Dns d => exists n, n ∈ Upstream.nodes u /\ is_enabled n = true /\ dn_priority (node d) = Hosts.priority n /\
      dn_weight (node d) = weight n /\ dn_sni (node d) = compute_peer_sni (bare_host n) (Upstream.pass_host u) (Upstream.upstream_host u)
  end.
(** The literal address of a node is in the set. *)
Definition placed (u : Upstream.t) (bs : list Backend) (n : Node) : Prop :=
  forall ip, is_enabled n = true -> parse_ip (bare_host n) = Some ip ->
  exists a b, parse_socket_addr (socket_addr_display ip (effective_port (Upstream.scheme u) n)) = Ok a /\ b ∈ bs /\
    bkey b = (a, weight n) /\ Hosts.priority n <= backend_priority b.

Lemma sni_build_peer addr scheme s cert : sni (build_peer addr scheme s cert) = s.
Proof. unfold build_peer. by destruct scheme, cert. Qed.

Lemma build_backends_made u d ips : sub_made u (Dns d) -> Forall (made u) (build_backends d ips).
Proof.
  intros (n & Hn & He & Hp & Hw & Hs). unfold build_backends. apply Forall_forall.
  assert (forall acc, (forall x, x ∈ acc -> made u x) -> forall x, x ∈ fold_left (build_backend (node d) (dns_cert d)) ips acc -> made u x) as Hi;
    [|apply Hi; by intros x ?%not_elem_of_nil].
  induction ips as [|ip ips IH]; intros acc Ha; [done|]. simpl. apply IH. intros x. unfold build_backend. cbv zeta.
  destruct (Backend_new_with_weight _ _) as [b|] eqn:Eb; [|auto]. intros [->|Hx]%elem_of_set_insert; [|auto].
  unfold Backend_new_with_weight in Eb. apply and_then_ok in Eb as (a & _ & [= <-]). split; [done|].
  eexists n, _. split_and!; [done|done|done|done|reflexivity|]. by rewrite sni_build_peer.
Qed.

(** Every sub-discovery answers made backends. *)
Lemma dns_result_made u d answer now bs h : sub_made u (Dns d) -> (dns_discover d answer now).1 = Ok (bs, h) -> Forall (made u) bs.
Proof.
  intros Hd. unfold dns_discover, lkg_backends.
  destruct answer as [[|ip ips]|e]; [|intros [= <- <-]; by apply build_backends_made|];
    (destruct (addresses (lkg d)), (last_success_at (lkg d)); simpl; try done; destruct (DNS_STALE_TTL <? _); simpl; [done|]; intros [= <- <-]; by apply build_backends_made).
Qed.

Lemma poll_made u ask ds : forall i, Forall (sub_made u) ds ->
  forall bs h, Some (Ok (bs, h)) ∈ (poll_all ask i ds).1 -> Forall (made u) bs.
Proof.
  induction ds as [|d ds IH]; intros i Hd bs h; simpl; [by intros ?%not_elem_of_nil|]. apply Forall_cons in Hd as [Hd Hds].
  destruct (match d with Dns _ => _ | Static _ => _ end) as [r d'] eqn:Ed. specialize (IH (S i) Hds bs h).
  destruct (poll_all ask (S i) ds) as [rs ds']. simpl. intros [Hr|Hin]%elem_of_cons; [|by apply IH]. subst r.
  destruct d as [dd|sb].
  - destruct (ask i) as [[answer now]|]; [|done]. pose proof (dns_result_made u dd answer now bs h Hd) as Hm.
    destruct (dns_discover _ _ _) as [r dd']. injection Ed as Hr _. by apply Hm.
  - injection Ed as -> _ _. by destruct Hd as [_ Hd].
Qed.

(** The static part is polled as it is. *)
Lemma poll_static ask sb ds : forall i, Static sb ∈ ds -> Some (Ok (sb, ∅)) ∈ (poll_all ask i ds).1.
Proof.
  induction ds as [|d ds IH]; intros i Hin; [by apply not_elem_of_nil in Hin|]. simpl.
  destruct (match d with Dns _ => _ | Static _ => _ end) as [r d'] eqn:Ed. specialize (IH (S i)).
  destruct (poll_all ask (S i) ds) as [rs ds']. simpl. apply elem_of_cons in Hin as [<-|Hin]; [|right; by apply IH].
  injection Ed as <- <-. left.
Qed.

Lemma build_nodes_made u cert nodes : forall ds bs ds' bs',
  (forall n, n ∈ nodes -> n ∈ Upstream.nodes u) -> Forall (sub_made u) ds -> btree_set bs -> Forall (made u) bs ->
  try_fold (build_node u cert) (ds, bs) nodes = Ok (ds', bs') ->
  Forall (sub_made u) ds' /\ btree_set bs' /\ Forall (made u) bs' /\ (forall x, x ∈ bs -> covers bs' x) /\
  forall n, n ∈ nodes -> placed u bs' n.
Proof.
  induction nodes as [|n nodes IH]; intros ds bs ds' bs' Hn Hd Hs Hm.
  { intros [= <- <-]. split_and!; [done..|intros x Hx; by exists x|by intros n ?%not_elem_of_nil]. }
  cbn [try_fold]. intros ([ds1 bs1] & H1 & Hrest)%and_then_ok.
  assert (Forall (sub_made u) ds1 /\ btree_set bs1 /\ Forall (made u) bs1 /\ (forall x, x ∈ bs -> covers bs1 x) /\ placed u bs1 n)
    as (Hd1 & Hs1 & Hm1 & Hc1 & Hp1).
  { unfold build_node in H1. destruct (is_enabled n) eqn:Ee; simpl in H1.
    2:{ injection H1 as <- <-. split_and!; [done..|intros x Hx; by exists x|]. intros ip ?. congruence. }
    destruct (parse_ip (bare_host n)) as [ip|] eqn:Eip.
    - apply and_then_ok in H1 as (b & Hb & [= <- <-]). unfold Backend_new_with_weight in Hb.
      destruct (parse_socket_addr _) as [a|] eqn:Ea; [|done]. injection Hb as <-.
      match goal with |- context [insert_backend bs ?x] => destruct (insert_backend_spec bs x Hs) as (P1 & P2 & P3); set (b := x) in * end.
      assert (made u b) as Hmade.
      { split; [done|]. eexists n, _. split_and!; [apply Hn; by left|done|done|done|reflexivity|]. by rewrite sni_build_peer. }
      split_and!; [done|by apply insert_backend_sorted| |done|].
      + apply Forall_forall. intros x [->|Hx]%P1; [done|]. rewrite Forall_forall in Hm. by apply Hm.
      + intros ip' _ Eip'. assert (ip' = ip) as -> by congruence. destruct P2 as (e & He & Hk & Hp). exists a, e.
        split_and!; [done|done|done|exact Hp].
    - injection H1 as <- <-. split_and!; [|done|done|intros x Hx; by exists x|]; [|intros ip ? ?; congruence].
      apply Forall_app. split; [done|]. repeat constructor. exists n. split_and!; [apply Hn; by left|done..]. }
  destruct (IH ds1 bs1 ds' bs') as (I1 & I2 & I3 & I4 & I5); [intros; apply Hn; by right|done..|].
  split_and!; [done..| |].
  - intros x Hx. destruct (Hc1 x Hx) as (y & Hy & Hk & Hp). destruct (I4 y Hy) as (z & Hz & Hk' & Hp').
    exists z. split_and!; [done|congruence|lia].
  - intros m [->|Hm']%elem_of_cons; [|by apply I5]. intros ip He Hip. destruct (Hp1 ip He Hip) as (a & b & Ha & Hb & Hk & Hp).
    destruct (I4 b Hb) as (z & Hz & Hk' & Hp'). exists a, z. split_and!; [done|done|congruence|lia].
Qed.

(** Prepared backends.  A prepared upstream has backends: a set without
    two backends of one address and weight, each made from an enabled node with
    that node's weight, priority, own identity and server name, and with every
    enabled node of a literal address in it at its priority or above. *)
Theorem prepared_backends_sound pending ask u p : prepare_with pending ask u = Ok p ->
  prepared_backends p <> [] /\ btree_set (prepared_backends p) /\ Forall (made u) (prepared_backends p) /\
  forall n, n ∈ Upstream.nodes u -> placed u (prepared_backends p) n.
Proof.
  unfold prepare_with. intros (hd & Hb & Hp)%and_then_ok. unfold HybridDiscovery_build in Hb.
  apply and_then_ok in Hb as (cert & _ & Hb). apply and_then_ok in Hb as ([ds bs] & Hf & [= <-]).
  destruct (build_nodes_made u cert (Upstream.nodes u) [] [] ds bs) as (Hd & Hs & Hm & _ & Hpl); [done|done|constructor|done|done|].
  set (subs := if bool_decide (bs = []) then ds else (ds ++ [Static bs])%list) in *.
  assert (Forall (sub_made u) subs) as Hsubs.
  { unfold subs. case_bool_decide; [done|]. apply Forall_app. split; [done|]. by repeat constructor. }
  assert (bs = [] \/ Static bs ∈ subs) as Hst.
  { unfold subs. case_bool_decide; [by left|right]. apply elem_of_app. right. by left. }
  unfold hybrid_discover in Hp. simpl in Hp. pose proof (poll_made u ask subs 0 Hsubs) as Hpoll.
  pose proof (poll_static ask bs subs 0) as Hstat. destruct (poll_all ask 0 subs) as [rs ds']. simpl in *.
  destruct (mapM (fun r => r) rs) as [results|] eqn:Er; [|done]. simpl in Hp.
  apply mapM_Some in Er. assert (forall r, r ∈ results <-> Some r ∈ rs) as Hres.
  { clear -Er. induction Er as [|x y l k -> Hxy IH]; intros r; [by rewrite !elem_of_nil|]. rewrite !elem_of_cons, IH. naive_solver. }
  pose proof (merge_all_spec results) as Hmerge. destruct (merge_all results) as [[r h]|]; [|done].
  destruct (bool_decide (r = [])) eqn:Ee; [done|]. injection Hp as <-. simpl. apply bool_decide_eq_false in Ee.
  destruct Hmerge as (M1 & M2 & M3 & _). split_and!; [done|done| |].
  - apply Forall_forall. intros x (part & ph & Hin & Hx)%M2. apply Hres, Hpoll in Hin. rewrite Forall_forall in Hin. by apply Hin.
  - intros n Hn ip He Hip. destruct (Hpl n Hn ip He Hip) as (a & b & Ha & Hb & Hk & Hpr).
    destruct Hst as [->|Hst]; [by apply not_elem_of_nil in Hb|].
    destruct (M3 bs ∅ b (proj2 (Hres _) (Hstat Hst)) Hb) as (e & He' & Hk' & Hp'). exists a, e. split_and!; [done|done|congruence|lia].
Qed.

End prepared.

(** ** A concrete upstream *)

Module ToyResolution.
Import ToySelection ToyEnv.

#[export] Instance resolution : Resolution := { parse_socket_addr s := Ok s; CertKey_new _ _ := () }.

Definition upstream : Upstream.t :=
  Upstream.Build_t "u1" None None None
    [{| host := "10.0.0.1"; port := Some 8080; weight := 1; Hosts.priority := 0 |};
     {| host := "backup.test"; port := None; weight := 2; Hosts.priority := -1 |};
     {| host := "10.0.0.2"; port := None; weight := 0; Hosts.priority := 0 |}]
    RoundRobin None VARS "uri" HTTP PASS None None None.
(** The lookup of the backup answers two addresses. *)
Definition ask (i : nat) : option (Result (list IpAddr) string * Instant) := Some (Ok [V4 [10; 0; 0; 9]; V4 [10; 0; 0; 8]], 5).

End ToyResolution.
Import ToySelection ToyEnv ToyResolution.

Lemma prepared_backends_sound_witness :
  exists p, prepare_upstream 5 ask upstream = Ok p /\ map addr (prepared_backends p) = ["10.0.0.1:8080"; "10.0.0.8:80"; "10.0.0.9:80"] /\
    btree_set (prepared_backends p) /\ Forall (made upstream) (prepared_backends p).
Proof.
  assert (match prepare_upstream 5 ask upstream with Ok p => map addr (prepared_backends p) | Err _ => [] end =
    ["10.0.0.1:8080"; "10.0.0.8:80"; "10.0.0.9:80"]) as Hshow by (vm_compute; reflexivity).
  destruct (prepare_upstream 5 ask upstream) as [p|e] eqn:E; [|discriminate]. exists p.
  destruct (prepared_backends_sound _ ask upstream p E) as (_ & Hs & Hm & _).
  split; [reflexivity|]. split; [exact Hshow|]. split; [exact Hs|exact Hm].
Defined.

(** A failed refresh serves the last answer, and fails once it is stale. *)
Example stale_answer_expires :
  let d := refreshed {| domain := "a.test"; dn_port := 80; dn_scheme := HTTP; dn_weight := 1; dn_priority := 0; dn_sni := "a.test" |}
             None [(Ok [V4 [10; 0; 0; 1]], 0); (Err "timeout", from_secs 200)] in
  is_ok (dns_discover d (Err "timeout") (from_secs 300)).1 = true /\
  is_ok (dns_discover d (Err "timeout") (from_secs 301)).1 = false.
Proof. vm_compute. done. Qed.
