(* ===== verification/Cache.v ===== *)
(** * Response cache policy ([src/src/plugins/cache.rs], [cache/http.rs])

    Configuration of the cache plugin, its request filter, the cache key and its
    consumer isolation, variance, and what a response may be stored for. *)

From Stdlib Require Import ZArith Lia Ascii.
From stdpp Require Import base tactics gmap strings pretty option sorting list.
From S2P Require Import Prelude Errors GraphStore Utf8 Hosts Config RequestVars Limiting Pipeline.

Open Scope Z_scope.

(** Hashes, expressions and validators of other crates: [sha256_hex] is the
    lower-case hexadecimal digest, [hash_policy] the standard hasher over the
    fields a policy writes to it. *)
Class CacheEnv `{HttpTypes} : Type := {
  uri_display : Uri -> string;
  sha256_hex : string -> string;
  hash_policy : list (list Z + list string) -> Z;
  method_valid : string -> bool;
  header_name_valid : string -> bool;
  Regex : Type;
  regex_new : string -> Result Regex string;
  regex_is_match : Regex -> string -> bool;
  variance : list (string * string) -> option string;
}.

(** ** Configuration *)

Inductive Scope : Type := Local | Cluster.
Inductive CacheStrategy : Type := Disk | Memory.

Record PluginConfig : Type := {
  ttl : Z;
  cache_ttl : option Z;
  cache_http_methods : list string;
  cache_method : option (list string);
  cache_http_statuses : list Z;
  cache_http_status : option (list Z);
  no_cache_str : list string;
  no_cache : option (list string);
  vary : list string;
  cache_strategy : option CacheStrategy;
  cache_key_templates : option (list string);
  cache_bypass : option (list string);
  hide_cache_headers : bool;
  cache_control : option bool;
  consumer_isolation : bool;
  cache_set_cookie : bool;
  enable_purge : bool;
  scope : Scope;
  max_file_size_bytes : option Z;
  max_resp_body_size : option Z;
  max_resp_body_size_explicit : bool;
  stale_while_revalidate_secs : option Z;
  respect_s_maxage : bool;
  cache_authenticated_requests : bool;
  cache_set_cookie_responses : bool;
}.
#[export] Instance eta_PluginConfig : Eta PluginConfig := fun c =>
  Build_PluginConfig (ttl c) (cache_ttl c) (cache_http_methods c) (cache_method c) (cache_http_statuses c) (cache_http_status c)
    (no_cache_str c) (no_cache c) (vary c) (cache_strategy c) (cache_key_templates c) (cache_bypass c) (hide_cache_headers c)
    (cache_control c) (consumer_isolation c) (cache_set_cookie c) (enable_purge c) (scope c) (max_file_size_bytes c)
    (max_resp_body_size c) (max_resp_body_size_explicit c) (stale_while_revalidate_secs c) (respect_s_maxage c)
    (cache_authenticated_requests c) (cache_set_cookie_responses c).

Definition effective_max_file_size_bytes (config : PluginConfig) : option Z :=
  match max_file_size_bytes config with
  | Some n => Some n
  | None => if max_resp_body_size_explicit config then max_resp_body_size config else None
  end.
Definition resolve_max_file_size (configured : option Z) (global_default : Z) : Z := default global_default configured.

(** Every element passes, else the validator's error. *)
Definition each {A} (ok : A -> bool) (error : string) (l : list A) : ProxyResult unit :=
  if forallb ok l then Ok () else Err (Validation error).

Definition validate_statuses (statuses : list Z) : ProxyResult unit := each (range 100 599) "invalid_http_status" statuses.

Definition validate_apisix_methods (methods : list string) : ProxyResult unit :=
  if bool_decide (methods = []) then Err (Validation "cache_method must have at least 1 item")
  else (fix go seen methods :=
          match methods with
          | [] => Ok ()
          | m :: methods =>
            if negb (bool_decide (m ∈ ["GET"; "POST"; "HEAD"])) then Err (Validation "cache_method entries must be GET, POST or HEAD")
            else if bool_decide (m ∈ seen) then Err (Validation "cache_method entries must be unique")
            else go (m :: seen) methods
          end) ([] : list string) methods.

Definition validate_apisix_statuses (statuses : list Z) : ProxyResult unit :=
  if bool_decide (statuses = []) then Err (Validation "cache_http_status must have at least 1 item")
  else (fix go seen statuses :=
          match statuses with
          | [] => Ok ()
          | s :: statuses =>
            if negb (range 200 599 s) then Err (Validation "cache_http_status entries must be between 200 and 599")
            else if bool_decide (s ∈ seen) then Err (Validation "cache_http_status entries must be unique")
            else go (s :: seen) statuses
          end) ([] : list Z) statuses.

Definition validate_optional_templates (templates : option (list string)) : ProxyResult unit :=
  match templates with
  | Some [] => Err (Validation "template list must have at least 1 item")
  | _ => Ok ()
  end.

(** Run [f] on the value that is present. *)
Definition on_some {A} (o : option A) (f : A -> ProxyResult unit) : ProxyResult unit := match o with Some a => f a | None => Ok () end.

(** The header list, normalised: trimmed, lower case, sorted, without repeats. *)
Fixpoint dedup (l : list string) : list string :=
  match l with
  | x :: ((y :: _) as l') => if bool_decide (x = y) then dedup l' else x :: dedup l'
  | _ => l
  end.
Definition str_le (a b : string) : Prop := Hosts.key_le str_cmp (fun s => s) a b.
#[export] Instance str_le_dec : RelDecision str_le.
Proof. intros a b. unfold str_le, Hosts.key_le. apply _. Defined.
Definition sort_names (l : list string) : list string := dedup (merge_sort str_le l).
Definition normal_names (l : list string) : list string :=
  List.filter (fun h => negb (bool_decide (h = ""))) ((fun h => to_ascii_lowercase (trim h)) <$> l).

Record CacheSettings : Type := {
  s_ttl : Duration;
  s_statuses : list Z;
  s_vary : list string;
  s_hide_cache_headers : bool;
  s_enable_purge : bool;
  s_max_file_size_bytes : Z;
  s_stale_while_revalidate : option Duration;
  s_respect_s_maxage : bool;
  s_cache_authenticated_requests : bool;
  s_cache_set_cookie_responses : bool;
  s_cache_key : option (list string);
  s_cache_bypass : list string;
  s_no_cache : list string;
  s_no_cache_flag_key : string;
  s_cache_control : option bool;
  s_consumer_isolation : bool;
  s_policy_fingerprint : Z;
}.

(** The request's context, as far as the cache reads it. *)
Record Context : Type := {
  route_fingerprint : option Z;
  override_key : option Z;
  resolved_key : option Z;
  original_request_had_credentials : bool;
  request_has_credentials : bool;
  original_credential_digest : option string;
  noted_credential_digest : option string;
  flags : gmap string bool;
  settings : option CacheSettings;
}.
#[export] Instance eta_Context : Eta Context := fun c =>
  Build_Context (route_fingerprint c) (override_key c) (resolved_key c) (original_request_had_credentials c)
    (request_has_credentials c) (original_credential_digest c) (noted_credential_digest c) (flags c) (settings c).

Definition should_bypass_authenticated_request (s : CacheSettings) (ctx : Context) : bool :=
  negb (s_cache_authenticated_requests s) && (original_request_had_credentials ctx || request_has_credentials ctx).

Definition mark_request_has_credentials (ctx : Context) : Context :=
  ctx <| request_has_credentials := true |> <| original_request_had_credentials := true |>.

Section cache.
Context `{CacheEnv}.

(** [#[validate]] of the derived fields, then the checks and aliases of
    [TryFrom]; the argument is the deserialised value. *)
Definition derived_checks (c : PluginConfig) : ProxyResult unit :=
  let? _ := if ttl c <? 1 then Err (Validation "range") else Ok () in
  let? _ := each method_valid "invalid_http_method" (cache_http_methods c) in
  let? _ := validate_statuses (cache_http_statuses c) in
  let? _ := each (fun p => is_ok (regex_new p)) "invalid_regex_pattern" (no_cache_str c) in
  each (fun h => negb (bool_decide (trim h = "*")) && header_name_valid (trim h)) "invalid_vary_header" (vary c).

Definition PluginConfig_try_from (config : PluginConfig) : ProxyResult PluginConfig :=
  let? _ := derived_checks config in
  let? _ := on_some (cache_ttl config) (fun t => if t <? 1 then Err (Validation "cache_ttl must be at least 1") else Ok ()) in
  let? _ := on_some (cache_method config) validate_apisix_methods in
  let? _ := on_some (cache_http_status config) validate_apisix_statuses in
  let? _ := validate_optional_templates (cache_key_templates config) in
  let? _ := validate_optional_templates (cache_bypass config) in
  let? _ := validate_optional_templates (no_cache config) in
  if existsb (fun t => bool_decide (t = "$request_method")) (default [] (cache_key_templates config))
  then Err (Validation "cache_key variable $request_method unsupported")
  else
    let? _ := on_some (max_resp_body_size config) (fun n => if n <? 1 then Err (Validation "max_resp_body_size must be at least 1") else Ok ()) in
    match cache_strategy config, scope config with
    | Some Disk, _ => Err (Validation "cache_strategy 'disk' requires a disk cache zone, only 'memory' is supported")
    | _, Cluster => Err (Validation "cache scope 'cluster' requires a distributed backend")
    | _, Local =>
      Ok (config <| ttl := default (ttl config) (cache_ttl config) |>
                 <| cache_http_methods := default (cache_http_methods config) (cache_method config) |>
                 <| cache_method := None |>
                 <| cache_http_statuses := default (cache_http_statuses config) (cache_http_status config) |>
                 <| cache_http_status := None |>
                 <| cache_set_cookie_responses := cache_set_cookie config || cache_set_cookie_responses config |>)
    end.

Record PluginCache : Type := { methods : list string; no_cache_regex : list Regex; cache_settings : CacheSettings }.

Fixpoint compile_regexes (patterns : list string) : ProxyResult (list Regex) :=
  match patterns with
  | [] => Ok []
  | s :: patterns =>
    match regex_new s with
    | Ok r => let? rest := compile_regexes patterns in Ok (r :: rest)
    | Err e => Err (Validation ("Invalid regex in no_cache_str '" +:+ s +:+ "': " +:+ e))
    end
  end.

(** What the policy fingerprint hashes, in order. *)
Definition bool_z (b : bool) : Z := if b then 1 else 0.
Definition opt_strings (o : option (list string)) : list (list Z + list string) :=
  match o with None => [inl [0]] | Some l => [inl [1]; inr l] end.
Definition policy_writes (config : PluginConfig) (size : Z) (vary_names : list string) : list (list Z + list string) :=
  ([inl [ttl config; size; bool_z (hide_cache_headers config); bool_z (respect_s_maxage config);
         bool_z (cache_authenticated_requests config); bool_z (cache_set_cookie_responses config)];
    inl (match cache_control config with None => [0] | Some b => [1; bool_z b] end);
    inl [bool_z (consumer_isolation config)];
    inl (match stale_while_revalidate_secs config with None => [0] | Some n => [1; n] end)]
   ++ opt_strings (cache_key_templates config) ++ opt_strings (cache_bypass config) ++ opt_strings (no_cache config)
   ++ [inl (remove_dups (merge_sort Z.le (cache_http_statuses config))); inr vary_names])%list.

Definition create_cache_plugin (flag_key : string) (default_max_object_bytes : Z) (cfg : PluginConfig) : ProxyResult PluginCache :=
  let? config := PluginConfig_try_from cfg in
  let methods := List.filter method_valid (cache_http_methods config) in
  let? no_cache_regex := compile_regexes (no_cache_str config) in
  let vary := sort_names (normal_names (vary config)) in
  let size := resolve_max_file_size (effective_max_file_size_bytes config) default_max_object_bytes in
  Ok {| methods := methods; no_cache_regex := no_cache_regex;
        cache_settings :=
          {| s_ttl := from_secs (ttl config); s_statuses := cache_http_statuses config; s_vary := vary;
             s_hide_cache_headers := hide_cache_headers config; s_enable_purge := enable_purge config;
             s_max_file_size_bytes := size; s_stale_while_revalidate := from_secs <$> stale_while_revalidate_secs config;
             s_respect_s_maxage := respect_s_maxage config;
             s_cache_authenticated_requests := cache_authenticated_requests config;
             s_cache_set_cookie_responses := cache_set_cookie_responses config;
             s_cache_key := cache_key_templates config; s_cache_bypass := default [] (cache_bypass config);
             s_no_cache := default [] (no_cache config); s_no_cache_flag_key := flag_key;
             s_cache_control := cache_control config; s_consumer_isolation := consumer_isolation config;
             s_policy_fingerprint := hash_policy (policy_writes config size vary) |} |}.

(** ** Templates *)

Definition resolve_cache_key_var (req : RequestHeader) (name : string) : string :=
  match strip_prefix "arg_" name with
  | Some arg => default "" (get_query_value req arg)
  | None =>
    match strip_prefix "http_" name with
    | Some header => default "" (get_req_header_value req (replace_char "_" "-" header))
    | None =>
      if bool_decide (name = "host") then default "" (get_request_host req)
      else if bool_decide (name = "request_uri") then default (uri_path (uri req)) (uri_path_and_query (uri req))
      else if bool_decide (name = "uri") then uri_path (uri req)
      else if bool_decide (name = "args") || bool_decide (name = "query_string") then default "" (uri_query (uri req))
      else if bool_decide (name = "request_method") then method req
      else ""
    end
  end.
Definition render_cache_key_template (req : RequestHeader) (template : string) : string :=
  render_apisix_template template (resolve_cache_key_var req).
Definition apisix_templates_truthy (templates : list string) (req : RequestHeader) : bool :=
  let rendered := String.concat "" (render_cache_key_template req <$> templates) in
  negb (bool_decide (rendered = "")) && negb (bool_decide (rendered = "0")).

(** ** Credentials *)

Definition contains_key (h : HeaderMap) (name : string) : bool := negb (bool_decide (headers_get_all h name = [])).
Definition headers_indicate_shared_cache_credentials (h : HeaderMap) : bool :=
  contains_key h "authorization" || contains_key h "proxy-authorization" || contains_key h "cookie".

Definition nul : string := String "000" EmptyString.
Definition soh : string := String "001" EmptyString.
Definition flag (vs : list string) : string := if bool_decide (vs = []) then nul else soh.
Definition values_bytes (vs : list string) : string := String.concat "" ((fun v => v +:+ nul) <$> vs).
Definition header_bytes (h : HeaderMap) (name : string) : string :=
  name +:+ flag (headers_get_all h name) +:+ values_bytes (headers_get_all h name).

(** What the digest hashes. *)
Definition isolation_tag : string := "pingsix-cache-consumer-isolation-v1" +:+ nul.
Definition credential_bytes (h : HeaderMap) : string :=
  isolation_tag +:+ header_bytes h "authorization" +:+ header_bytes h "proxy-authorization" +:+ header_bytes h "cookie".
Definition credential_cache_key_component (req : RequestHeader) : string := sha256_hex (credential_bytes (headers req)).

(** [early_request_filter]'s capture, before any plugin runs. *)
Definition capture_credentials (req : RequestHeader) (ctx : Context) : Context :=
  let had := headers_indicate_shared_cache_credentials (headers req) in
  let ctx := ctx <| original_request_had_credentials := had |> in
  if had then ctx <| request_has_credentials := true |> <| original_credential_digest := Some (credential_cache_key_component req) |>
  else ctx.

Definition noted_bytes (previous : option string) (credential : string) : string :=
  "pingsix-request-credential-v1" +:+ nul +:+ match previous with Some p => p +:+ nul | None => "" end +:+ credential.
Definition note_request_credential (ctx : Context) (credential : string) : Context :=
  ctx <| noted_credential_digest := Some (sha256_hex (noted_bytes (noted_credential_digest ctx) credential)) |>.

Definition isolation_bytes (ctx : Context) : string :=
  isolation_tag +:+ default "" (original_credential_digest ctx) +:+ nul +:+ default "" (noted_credential_digest ctx).
Definition consumer_isolation_component (ctx : Context) : string := sha256_hex (isolation_bytes ctx).

Definition IDENTITY_CACHE_KEY_VARS : list string := ["$http_authorization"].
Definition cache_key_has_identity (templates : list string) : bool :=
  existsb (fun t => bool_decide (t ∈ IDENTITY_CACHE_KEY_VARS)) templates.

(** ** Request side *)

Definition should_enable_purge (s : option CacheSettings) : bool := match s with Some s => s_enable_purge s | None => false end.

Definition contains_sub (pat s : string) : bool := bool_decide (is_Some (List.find (fun n => starts_with (String.substring n (String.length s - n) s) pat)
                                                                             (seq 0 (S (String.length s))))).

Definition should_enable_request_cache (h : HeaderMap) (s : option CacheSettings) (ctx : Context) : bool :=
  if contains_key h "x-bypass-cache" then false
  else if (match head (headers_get_all h "cache-control") ≫= to_str with
           | Some v => contains_sub "no-cache" v || contains_sub "no-store" v
           | None => false
           end)
          && (match s with Some s => negb (bool_decide (s_cache_control s = Some false)) | None => true end) then false
  else match s with
       | None => false
       | Some s => negb (should_bypass_authenticated_request s ctx)
       end.

(** The plugin's request filter; it never rejects. *)
Definition request_filter (self : PluginCache) (req : RequestHeader) (ctx : Context) : Context :=
  let s := cache_settings self in
  if bool_decide (method req = "PURGE") && s_enable_purge s then
    ctx <| flags := <[s_no_cache_flag_key s := false]> (flags ctx) |> <| settings := Some s |>
  else if negb (bool_decide (method req ∈ methods self)) then ctx
  else if negb (bool_decide (s_cache_bypass s = [])) && apisix_templates_truthy (s_cache_bypass s) req then ctx
  else
    let no_cache := negb (bool_decide (s_no_cache s = [])) && apisix_templates_truthy (s_no_cache s) req in
    let ctx := ctx <| flags := <[s_no_cache_flag_key s := no_cache]> (flags ctx) |> in
    if should_bypass_authenticated_request s ctx then ctx
    else if existsb (fun re => regex_is_match re (uri_path (uri req))) (no_cache_regex self) then ctx
    else ctx <| settings := Some s |>.

(** ** The key *)

Definition cache_key_method (method : string) : string := if bool_decide (method = "PURGE") then "GET" else method.

Definition primary_key (req : RequestHeader) (s : option CacheSettings) : string :=
  match s ≫= s_cache_key with
  | Some ((_ :: _) as templates) => String.concat (String "010" EmptyString) (render_cache_key_template req <$> templates)
  | _ =>
    let host := default "" (head (headers_get_all (headers req) "host") ≫= to_str) in
    cache_key_method (method req) +:+ " " +:+ host +:+ " " +:+ uri_display (uri req)
  end.

Definition hex64 (z : Z) : string := lower_hex 16 z.
Definition upstream_key (ctx : Context) : Z := match override_key ctx with Some k => k | None => default 0 (resolved_key ctx) end.
Definition isolates (s : option CacheSettings) : bool :=
  match s with
  | Some s => s_cache_authenticated_requests s && s_consumer_isolation s &&
      negb (match s_cache_key s with Some templates => cache_key_has_identity templates | None => false end)
  | None => false
  end.

Definition namespace (ctx : Context) (is_tls : bool) : string :=
  "rf=" +:+ hex64 (default 0 (route_fingerprint ctx)) +:+ "|c=" +:+
  hex64 (match settings ctx with Some s => s_policy_fingerprint s | None => 0 end) +:+ "|u=" +:+ hex64 (upstream_key ctx) +:+
  "|sch=" +:+ (if is_tls then "https" else "http") +:+
  (if isolates (settings ctx) then "|cc=" +:+ consumer_isolation_component ctx else "").

(** The bytes the cache key hashes. *)
Definition cache_key (session : Session) (ctx : Context) : string :=
  namespace ctx (ssl_digest session) +:+ primary_key (req_header session) (settings ctx).

(** ** Response side *)

Definition vary_tokens (h : HeaderMap) : list string := omap to_str (headers_get_all h "vary") ≫= split_char ",".
Definition response_has_vary_star (h : HeaderMap) : bool := existsb (fun token => eq_ignore_ascii_case (trim token) "*") (vary_tokens h).

Definition cache_vary (meta_headers : HeaderMap) (ctx : Context) (req : RequestHeader) : option string :=
  match settings ctx with
  | None => None
  | Some s =>
    if response_has_vary_star meta_headers then None
    else
      let from_response := normal_names (headers_get_all meta_headers "vary" ≫= fun v => split_char "," (default "" (to_str v))) in
      let names := sort_names (from_response ++ s_vary s)%list in
      match names with
      | [] => None
      | _ => variance ((fun name => (name, default "" (head (headers_get_all (headers req) name)))) <$> names)
      end
  end.

(** Pingora errors, as far as the source tells them apart. *)
Inductive ErrorSource : Type := SourceUpstream | SourceDownstream | SourceInternal | SourceUnset.
Inductive ErrorType : Type :=
| Custom (name : string) | HTTPStatus (code : Z)
| ConnectTimedout | ConnectRefused | ConnectNoRoute | ConnectError
| TLSHandshakeTimedout | TLSHandshakeFailure | HandshakeError
| ReadTimedout | WriteTimedout | ReadError | WriteError | ConnectionClosed
| OtherError (name : string).

Definition ERROR_PAYLOAD_TOO_LARGE : string := "PayloadTooLarge".

Definition error_status (etype : ErrorType) (esource : ErrorSource) : Z :=
  let by_source :=
    match esource with
    | SourceUpstream => 502
    | SourceDownstream => match etype with WriteError | ReadError | ConnectionClosed => 0 | _ => 400 end
    | SourceInternal | SourceUnset => 500
    end in
  match etype with
  | Custom name => if bool_decide (name = ERROR_PAYLOAD_TOO_LARGE) then 413 else by_source
  | HTTPStatus code => code
  | _ => by_source
  end.

End cache.

(** *** Directives

    Pingora's [DirectiveMap] is an [IndexMap]: insertion order, one entry per
    directive.  The readers of a parsed header are the class. *)

Class CacheControlLib : Type := {
  DirectiveKey : Type;
  directive_eq :: EqDecision DirectiveKey;
  MaxAge : DirectiveKey;
  SMaxAge : DirectiveKey;
  StaleWhileRevalidate : DirectiveKey;
  directives_distinct : MaxAge <> SMaxAge /\ MaxAge <> StaleWhileRevalidate /\ SMaxAge <> StaleWhileRevalidate;
  cc_no_store : list (DirectiveKey * option string) -> bool;
  cc_private : list (DirectiveKey * option string) -> bool;
  cc_no_cache : list (DirectiveKey * option string) -> bool;
  cc_no_cache_field_names : list (DirectiveKey * option string) -> bool;
}.
Abbreviation DirectiveMap := (list (DirectiveKey * option string)).

Section directives.
Context {L : CacheControlLib}.

Fixpoint dm_get (k : DirectiveKey) (m : DirectiveMap) : option (option string) :=
  match m with [] => None | (k', v) :: m => if decide (k' = k) then Some v else dm_get k m end.
Fixpoint dm_insert (k : DirectiveKey) (v : option string) (m : DirectiveMap) : DirectiveMap :=
  match m with
  | [] => [(k, v)]
  | (k', v') :: m => if decide (k' = k) then (k, v) :: m else (k', v') :: dm_insert k v m
  end.
Definition shift_remove (k : DirectiveKey) (m : DirectiveMap) : DirectiveMap :=
  List.filter (fun e => negb (bool_decide (e.1 = k))) m.
Definition contains (k : DirectiveKey) (m : DirectiveMap) : bool := bool_decide (is_Some (dm_get k m)).

Definition origin_response_uncacheable (control : option DirectiveMap) : bool :=
  match control with
  | Some cc => cc_no_store cc || cc_private cc || cc_no_cache cc || cc_no_cache_field_names cc
  | None => false
  end.

(** One directive of the origin, copied into the rebuilt map. *)
Definition copy_directive (respect : bool) (acc : DirectiveMap * bool) (e : DirectiveKey * option string) : DirectiveMap * bool :=
  if respect && bool_decide (e.1 = SMaxAge) then
    let acc := match e.2 with Some v => (dm_insert MaxAge (Some v) acc.1, true) | None => acc end in
    (dm_insert e.1 e.2 acc.1, acc.2)
  else (dm_insert e.1 e.2 acc.1, acc.2 || bool_decide (e.1 = MaxAge)).

Definition drop_freshness (settings : CacheSettings) (cc : option DirectiveMap) : option DirectiveMap :=
  if bool_decide (s_cache_control settings = Some false)
  then (fun m => shift_remove SMaxAge (shift_remove MaxAge m)) <$> cc else cc.

Definition seconds (d : Duration) : option string := Some (pretty (as_secs d)).
Definition add_swr_directive (settings : CacheSettings) (m : DirectiveMap) : DirectiveMap :=
  match s_stale_while_revalidate settings with
  | Some swr => if contains StaleWhileRevalidate m then m else dm_insert StaleWhileRevalidate (seconds swr) m
  | None => m
  end.

Definition ensure_max_age (cc : option DirectiveMap) (settings : CacheSettings) : option DirectiveMap :=
  match drop_freshness settings cc with
  | Some existing =>
    let has_max_age := contains MaxAge existing in
    let rewrite_smaxage := s_respect_s_maxage settings && contains SMaxAge existing in
    let add_swr := match s_stale_while_revalidate settings with
                   | Some _ => negb (contains StaleWhileRevalidate existing) | None => false end in
    if has_max_age && negb rewrite_smaxage && negb add_swr then Some existing
    else
      let '(directives, final_has_max_age) := fold_left (copy_directive (s_respect_s_maxage settings)) existing ([], false) in
      let directives := if final_has_max_age then directives else dm_insert MaxAge (seconds (s_ttl settings)) directives in
      Some (add_swr_directive settings directives)
  | None =>
    let directives := dm_insert MaxAge (seconds (s_ttl settings)) [] in
    Some (match s_stale_while_revalidate settings with
          | Some swr => dm_insert StaleWhileRevalidate (seconds swr) directives
          | None => directives
          end)
  end.

End directives.

(** *** Admission of a response *)

Inductive NoCacheReason : Type := NeverEnabled | OriginNotCache.
Inductive RespCacheable (Meta : Type) : Type := Cacheable (meta : Meta) | Uncacheable (reason : NoCacheReason).
Arguments Cacheable {Meta} _.
Arguments Uncacheable {Meta} _.

Section admission.
Context `{Env : CacheEnv} {L : CacheControlLib} {Meta : Type}.
Context (from_resp_headers : HeaderMap -> option DirectiveMap).
Context (resp_cacheable : option DirectiveMap -> Z -> HeaderMap -> bool -> RespCacheable Meta).

Definition response_cacheability (status : Z) (h : HeaderMap) (ctx : Context) : RespCacheable Meta :=
  match settings ctx with
  | None => Uncacheable NeverEnabled
  | Some s =>
    if default false (flags ctx !! s_no_cache_flag_key s) then Uncacheable OriginNotCache
    else if should_bypass_authenticated_request s ctx || negb (bool_decide (status ∈ s_statuses s))
            || (negb (s_cache_set_cookie_responses s) && contains_key h "set-cookie") || response_has_vary_star h
    then Uncacheable OriginNotCache
    else
      let control := from_resp_headers h in
      if origin_response_uncacheable control then Uncacheable OriginNotCache
      else resp_cacheable (ensure_max_age control s) status h (original_request_had_credentials ctx || request_has_credentials ctx)
  end.

End admission.

(** ** Credentials and their encoding *)

(** A [HeaderValue]'s bytes: visible ASCII, [0x80] and above, space and tab. *)
Definition value_byte (a : ascii) : bool := (byte_val a =? 9) || ((32 <=? byte_val a) && negb (byte_val a =? 127)).
Definition field_value (v : string) : Prop := str_forall value_byte v = true.
Definition mark (b : bool) : ascii := if b then "001"%char else "000"%char.

Lemma flag_mark vs : flag vs = String (mark (negb (bool_decide (vs = [])))) "".
Proof. unfold flag. by case_bool_decide. Qed.
Lemma values_bytes_cons v vs : values_bytes (v :: vs) = v +:+ String (mark false) (values_bytes vs).
Proof.
  unfold values_bytes. destruct vs as [|w vs]; [done|].
  change (String.concat "" ((fun v => v +:+ nul) <$> (v :: w :: vs)))
    with ((v +:+ nul) +:+ "" +:+ String.concat "" ((fun v => v +:+ nul) <$> (w :: vs))).
  rewrite str_app_assoc. done.
Qed.

(** A value ends at the first mark. *)
Lemma value_split v w x y r r' : field_value v -> field_value w ->
  v +:+ String (mark x) r = w +:+ String (mark y) r' -> v = w /\ x = y /\ r = r'.
Proof.
  unfold field_value. revert w; induction v as [|a v IH]; intros [|b w] Hv Hw E; cbn in *.
  - injection E as Em ->. split; [done|split; [|done]]. by destruct x, y.
  - injection E as <- _. by destruct x.
  - injection E as -> _. by destruct y.
  - apply andb_true_iff in Hv as [_ Hv], Hw as [_ Hw]. injection E as -> E.
    by destruct (IH w Hv Hw E) as (-> & -> & ->).
Qed.

(** Two value lists followed by further text: equal, or one overruns. *)
Lemma values_compare A B s t : Forall field_value A -> Forall field_value B ->
  values_bytes A +:+ s = values_bytes B +:+ t ->
  (A = B /\ s = t) \/ (exists v l, Forall field_value (v :: l) /\ s = values_bytes (v :: l) +:+ t) \/
  (exists v l, Forall field_value (v :: l) /\ t = values_bytes (v :: l) +:+ s).
Proof.
  revert B; induction A as [|a A IH]; intros [|b B] HA HB E.
  - left; done.
  - right; left. by exists b, B.
  - right; right. by exists a, A.
  - rewrite !values_bytes_cons, !str_app_assoc in E. inversion_clear HA; inversion_clear HB.
    apply value_split in E as (-> & _ & E); [|done..].
    destruct (IH B) as [[-> ->]|[?|?]]; [done..|left; done|right; by left|right; by right].
Qed.

Lemma cookie_no_overrun C v l x : Forall field_value (v :: l) -> Forall field_value C ->
  "cookie" +:+ flag C +:+ values_bytes C = values_bytes (v :: l) +:+ "cookie" +:+ x -> False.
Proof.
  intros Hv HC E. inversion_clear Hv. rewrite flag_mark, values_bytes_cons, str_app_assoc in E.
  apply value_split in E as (_ & Hm & E); [|done..]. apply negb_false_iff, bool_decide_eq_true in Hm as ->.
  by destruct l as [|w l]; [|rewrite values_bytes_cons, str_app_assoc in E; destruct w].
Qed.

Lemma proxy_no_overrun P C v l x : Forall field_value (v :: l) -> Forall field_value P -> Forall field_value C ->
  "proxy-authorization" +:+ flag P +:+ values_bytes P +:+ "cookie" +:+ flag C +:+ values_bytes C =
  values_bytes (v :: l) +:+ "proxy-authorization" +:+ x -> False.
Proof.
  intros Hv HP HC E. inversion_clear Hv. rewrite (flag_mark P), values_bytes_cons, str_app_assoc in E.
  apply value_split in E as (_ & Hm & E); [|done..]. apply negb_false_iff, bool_decide_eq_true in Hm as ->.
  destruct l as [|w l]; [done|]. inversion_clear H0.
  rewrite flag_mark, values_bytes_cons, str_app_assoc in E.
  apply (value_split "cookie") in E as (_ & Hm & E); [|done..]. apply negb_false_iff, bool_decide_eq_true in Hm as ->.
  by destruct l as [|u l]; [|rewrite values_bytes_cons, str_app_assoc in E; destruct u].
Qed.

Lemma flag_inj A B s t : flag A +:+ s = flag B +:+ t -> s = t.
Proof. rewrite !flag_mark. by intros [= _ ->]. Qed.

(** The three header lists are recovered from what is hashed. *)
Lemma credentials_inj A P C A' P' C' : Forall field_value A -> Forall field_value P -> Forall field_value C ->
  Forall field_value A' -> Forall field_value P' -> Forall field_value C' ->
  flag A +:+ values_bytes A +:+ "proxy-authorization" +:+ flag P +:+ values_bytes P +:+ "cookie" +:+ flag C +:+ values_bytes C =
  flag A' +:+ values_bytes A' +:+ "proxy-authorization" +:+ flag P' +:+ values_bytes P' +:+ "cookie" +:+ flag C' +:+ values_bytes C' ->
  A = A' /\ P = P' /\ C = C'.
Proof.
  intros HA HP HC HA' HP' HC' E. apply flag_inj in E.
  destruct (values_compare _ _ _ _ HA HA' E) as [[-> E1]|[(v & l & Hl & E1)|(v & l & Hl & E1)]];
    [|destruct (proxy_no_overrun _ _ _ _ _ Hl HP HC E1)|destruct (proxy_no_overrun _ _ _ _ _ Hl HP' HC' E1)].
  apply (inj (String.append "proxy-authorization")) in E1. apply flag_inj in E1.
  destruct (values_compare _ _ _ _ HP HP' E1) as [[-> E2]|[(v & l & Hl & E2)|(v & l & Hl & E2)]];
    [|destruct (cookie_no_overrun _ _ _ _ Hl HC E2)|destruct (cookie_no_overrun _ _ _ _ Hl HC' E2)].
  apply (inj (String.append "cookie")) in E2. apply flag_inj in E2.
  rewrite <-(str_app_nil_r (values_bytes C)), <-(str_app_nil_r (values_bytes C')) in E2.
  destruct (values_compare _ _ _ _ HC HC' E2) as [[-> _]|[(v & l & Hl & E3)|(v & l & Hl & E3)]]; [done| |];
    rewrite values_bytes_cons, str_app_assoc in E3; by destruct v.
Qed.

(** ** The cache key *)

(** [hex::encode] of a SHA-256: 64 hexadecimal digits. *)
Class DigestLaws `{CacheEnv} : Prop := {
  sha256_length x : String.length (sha256_hex x) = 64%nat;
  sha256_no_nul x : contains_char "000" (sha256_hex x) = false;
}.

Lemma cut_at (c : ascii) x y r r' : contains_char c x = false -> contains_char c y = false ->
  x +:+ String c r = y +:+ String c r' -> x = y /\ r = r'.
Proof.
  intros Hx Hy E. pose proof (split_once_app c x r Hx) as E1. rewrite E, (split_once_app c y r' Hy) in E1.
  by injection E1 as -> ->.
Qed.

Lemma str_app_length_inj x y r r' : String.length x = String.length y -> x +:+ r = y +:+ r' -> x = y /\ r = r'.
Proof.
  revert y; induction x as [|a x IH]; intros [|b y] Hl E; cbn in *; [done|done|done|].
  injection E as -> E. by destruct (IH y (eq_add_S _ _ Hl) E) as [-> ->].
Qed.
Definition u64 (z : Z) : Prop := 0 <= z <= u64_max.
Lemma hex64_inj y z r r' : u64 y -> u64 z -> hex64 y +:+ String "|" r = hex64 z +:+ String "|" r' -> y = z /\ r = r'.
Proof.
  intros Hy Hz E. apply cut_at in E as [E ->]; [|apply lower_hex_no_bar..]. unfold u64, u64_max in *.
  apply lower_hex_inj in E; [done| |]; change (16 ^ Z.of_nat 16) with (2 ^ 64); lia.
Qed.

Definition SHARED_CREDENTIALS : list string := ["authorization"; "proxy-authorization"; "cookie"].
Definition clean_headers `{HttpTypes} (h : HeaderMap) : Prop :=
  forall name, name ∈ SHARED_CREDENTIALS -> Forall field_value (headers_get_all h name).

Section isolation.
Context `{DigestLaws}.

Lemma digest_inj x y r r' : sha256_hex x +:+ r = sha256_hex y +:+ r' -> sha256_hex x = sha256_hex y /\ r = r'.
Proof. apply str_app_length_inj. by rewrite !sha256_length. Qed.

(** The namespace is read back field by field. *)
Lemma namespace_inj c c' tls tls' s s' p p' : settings c = Some s -> settings c' = Some s' ->
  isolates (Some s) = true -> isolates (Some s') = true ->
  Forall u64 [default 0 (route_fingerprint c); s_policy_fingerprint s; upstream_key c] ->
  Forall u64 [default 0 (route_fingerprint c'); s_policy_fingerprint s'; upstream_key c'] ->
  namespace c tls +:+ p = namespace c' tls' +:+ p' ->
  default 0 (route_fingerprint c) = default 0 (route_fingerprint c') /\ s_policy_fingerprint s = s_policy_fingerprint s' /\
  upstream_key c = upstream_key c' /\ tls = tls' /\
  consumer_isolation_component c = consumer_isolation_component c' /\ p = p'.
Proof.
  intros Es Es' Hi Hi' Hu Hu' E. unfold namespace in E. rewrite Es, Es', Hi, Hi', !str_app_assoc in E.
  rewrite !Forall_cons, Forall_nil in Hu, Hu'. destruct Hu as (Hr & Hp & Hk & _), Hu' as (Hr' & Hp' & Hk' & _).
  apply (inj (String.append "rf=")) in E. apply hex64_inj in E as [-> E]; [|done..].
  apply (inj (String.append "c=")) in E. apply hex64_inj in E as [-> E]; [|done..].
  apply (inj (String.append "u=")) in E. apply hex64_inj in E as [-> E]; [|done..].
  apply (inj (String.append "sch=")) in E.
  assert (Htls : tls = tls') by (by destruct tls, tls').
  subst tls'. apply (inj (String.append _)) in E. apply (inj (String.append "|cc=")) in E.
  apply digest_inj in E as [E ->]. done.
Qed.

(** What the early filter notes decides the three headers. *)
Lemma captured_inj r r' c c' : clean_headers (headers r) -> clean_headers (headers r') ->
  original_credential_digest c = None -> original_credential_digest c' = None ->
  (credential_cache_key_component r = credential_cache_key_component r' -> credential_bytes (headers r) = credential_bytes (headers r')) ->
  default "" (original_credential_digest (capture_credentials r c)) = default "" (original_credential_digest (capture_credentials r' c')) ->
  forall name, name ∈ SHARED_CREDENTIALS -> headers_get_all (headers r) name = headers_get_all (headers r') name.
Proof.
  intros Hc Hc' E0 E0' Hcf E. unfold capture_credentials in E.
  destruct (headers_indicate_shared_cache_credentials (headers r)) eqn:Hi,
    (headers_indicate_shared_cache_credentials (headers r')) eqn:Hi'; cbn in E; rewrite ?E0, ?E0' in E; cbn in E.
  - specialize (Hcf E). unfold credential_bytes, header_bytes in Hcf. rewrite !str_app_assoc in Hcf.
    apply (inj (String.append isolation_tag)) in Hcf. apply (inj (String.append "authorization")) in Hcf.
    unfold clean_headers, SHARED_CREDENTIALS in *.
    apply credentials_inj in Hcf as (E1 & E2 & E3); [|set_solver..].
    intros name. rewrite !elem_of_cons, elem_of_nil. naive_solver.
  - pose proof (sha256_length (credential_bytes (headers r))) as Hl. unfold credential_cache_key_component in E. by rewrite E in Hl.
  - pose proof (sha256_length (credential_bytes (headers r'))) as Hl. unfold credential_cache_key_component in E. by rewrite <-E in Hl.
  - unfold headers_indicate_shared_cache_credentials, contains_key in *. bool_to_prop. unfold SHARED_CREDENTIALS.
    intros name. rewrite !elem_of_cons, elem_of_nil. intuition (subst; congruence).
Qed.

(** A request context whose digest the early filter recorded from [r]. *)
Definition captured (r : RequestHeader) (c : Context) : Prop :=
  exists c0, original_credential_digest c0 = None /\ original_credential_digest c = original_credential_digest (capture_credentials r c0).

Lemma captured_no_nul r c : captured r c -> contains_char "000" (default "" (original_credential_digest c)) = false.
Proof.
  intros (c0 & E0 & ->). unfold capture_credentials. destruct (headers_indicate_shared_cache_credentials _); cbn; [apply sha256_no_nul|].
  by rewrite E0.
Qed.

Lemma isolation_bytes_inj r r' c c' : captured r c -> captured r' c' -> isolation_bytes c = isolation_bytes c' ->
  default "" (original_credential_digest c) = default "" (original_credential_digest c') /\
  default "" (noted_credential_digest c) = default "" (noted_credential_digest c').
Proof.
  intros Hc Hc' E. unfold isolation_bytes in E. apply (inj (String.append isolation_tag)) in E.
  apply cut_at in E; [done|by eapply captured_no_nul..].
Qed.

(** C16 (cached entries are never shared between consumers).
    Under consumer isolation, two requests whose cache keys are equal came
    over the same scheme to the same route, policy and upstream fingerprints,
    have the same primary key, carried the same [authorization],
    [proxy-authorization] and [cookie] headers, and the authentication plugins
    noted the same credential digest: no text a client puts into a header, the
    query or the path moves bytes between the fields of the key.  SHA-256 is
    assumed free of collisions on the two pairs of inputs only. *)
Theorem cache_key_isolates (x x' : Session) (r r' : RequestHeader) (c c' : Context) (s s' : CacheSettings) :
  settings c = Some s -> settings c' = Some s' -> isolates (Some s) = true -> isolates (Some s') = true ->
  Forall u64 [default 0 (route_fingerprint c); s_policy_fingerprint s; upstream_key c] ->
  Forall u64 [default 0 (route_fingerprint c'); s_policy_fingerprint s'; upstream_key c'] ->
  captured r c -> captured r' c' -> clean_headers (headers r) -> clean_headers (headers r') ->
  (consumer_isolation_component c = consumer_isolation_component c' -> isolation_bytes c = isolation_bytes c') ->
  (credential_cache_key_component r = credential_cache_key_component r' -> credential_bytes (headers r) = credential_bytes (headers r')) ->
  cache_key x c = cache_key x' c' ->
  ssl_digest x = ssl_digest x' /\ default 0 (route_fingerprint c) = default 0 (route_fingerprint c') /\
  s_policy_fingerprint s = s_policy_fingerprint s' /\ upstream_key c = upstream_key c' /\
  primary_key (req_header x) (Some s) = primary_key (req_header x') (Some s') /\
  (forall name, name ∈ SHARED_CREDENTIALS -> headers_get_all (headers r) name = headers_get_all (headers r') name) /\
  default "" (noted_credential_digest c) = default "" (noted_credential_digest c').
Proof.
  intros Es Es' Hi Hi' Hu Hu' Hc Hc' Hh Hh' Hcf1 Hcf2 E.
  destruct (namespace_inj _ _ _ _ _ _ _ _ Es Es' Hi Hi' Hu Hu' E) as (E1 & E2 & E3 & E4 & E5 & E6).
  destruct (isolation_bytes_inj _ _ _ _ Hc Hc' (Hcf1 E5)) as [Eo En]. rewrite Es, Es' in E6.
  destruct Hc as (c0 & E0 & Ec), Hc' as (c0' & E0' & Ec'). rewrite Ec, Ec' in Eo.
  pose proof (captured_inj _ _ _ _ Hh Hh' E0 E0' Hcf2 Eo). done.
Qed.

End isolation.

(** ** Credentials and the shared store *)

Section shared_store.
Context `{Env : CacheEnv} {L : CacheControlLib} {Meta : Type}.
Context (from_resp_headers : HeaderMap -> option DirectiveMap).
Context (resp_cacheable : option DirectiveMap -> Z -> HeaderMap -> bool -> RespCacheable Meta).

(** What runs on a request's context before the cache is consulted. *)
Inductive ContextStep : Type :=
| NoteCredential (credential : string)
| MarkCredentials
| CacheFilter (p : PluginCache) (req : RequestHeader).
Definition context_step (ctx : Context) (e : ContextStep) : Context :=
  match e with
  | NoteCredential credential => note_request_credential ctx credential
  | MarkCredentials => mark_request_has_credentials ctx
  | CacheFilter p req => request_filter p req ctx
  end.

Definition has_credentials (ctx : Context) : bool := original_request_had_credentials ctx || request_has_credentials ctx.
Definition opted_out (e : ContextStep) : Prop :=
  match e with CacheFilter p _ => s_cache_authenticated_requests (cache_settings p) = false | _ => True end.
Definition private_ctx (ctx : Context) : Prop :=
  forall s, settings ctx = Some s -> s_cache_authenticated_requests s = false.

Lemma request_filter_effect p req ctx :
  has_credentials (request_filter p req ctx) = has_credentials ctx /\
  (settings (request_filter p req ctx) = settings ctx \/ settings (request_filter p req ctx) = Some (cache_settings p)).
Proof. unfold request_filter. repeat case_match; cbn; auto. Qed.

Lemma context_step_private ctx e : private_ctx ctx -> opted_out e -> private_ctx (context_step ctx e).
Proof.
  intros Hc He. destruct e as [| |p req]; try done. intros s. cbn.
  destruct (request_filter_effect p req ctx) as [_ [->| ->]]; [apply Hc|]. by intros [= <-].
Qed.
Definition marks (e : ContextStep) : bool := match e with MarkCredentials => true | _ => false end.
Lemma context_step_credentials ctx e : has_credentials (context_step ctx e) = has_credentials ctx || marks e.
Proof.
  destruct e as [c| |p req]; cbn; rewrite ?orb_false_r; [done|by rewrite orb_true_r|]. apply request_filter_effect.
Qed.

Lemma context_steps_credentials es ctx :
  has_credentials (fold_left context_step es ctx) = has_credentials ctx || existsb marks es.
Proof.
  revert ctx; induction es as [|e es IH]; intros ctx; cbn; [by rewrite orb_false_r|].
  by rewrite IH, context_step_credentials, orb_assoc.
Qed.
Lemma context_steps_private es ctx : private_ctx ctx -> Forall opted_out es -> private_ctx (fold_left context_step es ctx).
Proof.
  revert ctx; induction es as [|e es IH]; intros ctx Hc Hes; [done|]. inversion_clear Hes. cbn. apply IH; [by apply context_step_private|done].
Qed.

Lemma capture_has_credentials req ctx : has_credentials ctx = false ->
  has_credentials (capture_credentials req ctx) = headers_indicate_shared_cache_credentials (headers req) /\
  settings (capture_credentials req ctx) = settings ctx.
Proof.
  unfold has_credentials, capture_credentials. intros [E1 E2]%orb_false_iff.
  destruct (headers_indicate_shared_cache_credentials (headers req)) eqn:Hi; cbn; rewrite ?Hi; [done|by rewrite E2].
Qed.

(** C17 (requests with credentials stay out of the shared cache).
    Take a request that carries a credential header when it arrives, or that an
    authentication plugin marks at any point of the chain, before or after the
    cache plugin ran; let other plugins note credentials in between, and let
    no cache plugin have opted in to authenticated caching.  Then the cache is
    not consulted for the request, whatever its headers are by then, and no
    response to it is stored, whatever the response and its directives say. *)
Theorem credentials_never_shared (req : RequestHeader) (es : list ContextStep) (c0 ctx : Context) (h h' : HeaderMap) (status : Z) :
  has_credentials c0 = false -> settings c0 = None -> Forall opted_out es ->
  headers_indicate_shared_cache_credentials (headers req) || existsb marks es = true ->
  ctx = fold_left context_step es (capture_credentials req c0) ->
  should_enable_request_cache h (settings ctx) ctx = false /\
  exists reason, response_cacheability from_resp_headers resp_cacheable status h' ctx = Uncacheable reason.
Proof.
  intros Hc0 Hs0 Hes Hcred ->. destruct (capture_has_credentials req c0 Hc0) as [Hh Hs].
  set (ctx := fold_left _ _ _).
  assert (Hp : private_ctx ctx) by (apply context_steps_private; [unfold private_ctx; by rewrite Hs, Hs0|done]).
  assert (Hb : has_credentials ctx = true) by (unfold ctx; by rewrite context_steps_credentials, Hh).
  unfold should_enable_request_cache, response_cacheability. destruct (settings ctx) as [s|] eqn:E.
  - assert (Hby : should_bypass_authenticated_request s ctx = true)
      by (unfold should_bypass_authenticated_request; by rewrite (Hp s E)).
    rewrite Hby. cbn. repeat case_match; eauto.
  - repeat case_match; eauto.
Qed.

End shared_store.

(** ** Freshness *)

Section freshness.
Context {L : CacheControlLib}.

Lemma dm_get_insert k k' v m : dm_get k (dm_insert k' v m) = if decide (k' = k) then Some v else dm_get k m.
Proof.
  induction m as [|[j w] m IH]; cbn; [done|]. repeat case_decide; subst; cbn; repeat case_decide; subst; done || congruence.
Qed.
Lemma dm_get_none k m : k ∉ m.*1 -> dm_get k m = None.
Proof. induction m as [|[j w] m IH]; cbn; [done|]. rewrite not_elem_of_cons. intros [Hk Hm]. rewrite decide_False by done. auto. Qed.
Lemma contains_get k m : contains k m = match dm_get k m with Some _ => true | None => false end.
Proof. unfold contains. destruct (dm_get k m); [by rewrite bool_decide_true|rewrite bool_decide_false; [done|by intros [? ?]]]. Qed.
Lemma shift_remove_NoDup k (m : DirectiveMap) : NoDup m.*1 -> NoDup (shift_remove k m).*1.
Proof.
  induction m as [|[j w] m IH]; cbn; [done|]. rewrite NoDup_cons. intros [Hj Hm]. case_bool_decide; cbn; [auto|].
  rewrite NoDup_cons. split; [|auto]. intros Hin. apply Hj. apply list_elem_of_fmap in Hin as ([j' w'] & -> & Hin).
  apply list_elem_of_In, filter_In in Hin as [Hin _]. apply list_elem_of_In in Hin. apply list_elem_of_fmap. by exists (j', w').
Qed.

(** The directives that decide the rebuilt [max-age], in order. *)
Definition max_age_sources (respect : bool) (m : DirectiveMap) : list (option string) :=
  omap (fun e => if decide (e.1 = MaxAge) then Some e.2
                 else if respect && bool_decide (e.1 = SMaxAge) then match e.2 with Some v => Some (Some v) | None => None end
                 else None) m.

Lemma copy_max_age respect ds acc :
  dm_get MaxAge (fold_left (copy_directive respect) ds acc).1 =
    match last (max_age_sources respect ds) with Some v => Some v | None => dm_get MaxAge acc.1 end /\
  (fold_left (copy_directive respect) ds acc).2 = acc.2 || negb (bool_decide (max_age_sources respect ds = [])).
Proof.
  pose proof directives_distinct as (D & _ & _).
  revert acc; induction ds as [|[k v] ds IH]; intros acc; cbn [fold_left max_age_sources omap list_omap]; [by rewrite orb_false_r|].
  destruct (IH (copy_directive respect acc (k, v))) as [-> ->]. fold (max_age_sources respect ds). unfold copy_directive; cbn [fst snd].
  destruct (decide (k = MaxAge)) as [->|Hk]; cbn [fst].
  { rewrite last_cons. rewrite (bool_decide_false (MaxAge = SMaxAge)), andb_false_r by done. cbn.
    rewrite dm_get_insert, decide_True, !bool_decide_true, !orb_true_r by done. cbn. by destruct (last _). }
  destruct (decide (k = SMaxAge)) as [->|Hs];
    [rewrite (bool_decide_true (SMaxAge = SMaxAge)), andb_true_r by done
    |rewrite (bool_decide_false (k = SMaxAge)), andb_false_r by done]; cbn [fst snd].
  - destruct respect; [destruct v as [v|]|]; cbn [fst snd]; rewrite !dm_get_insert, ?decide_False, ?(bool_decide_false (SMaxAge = MaxAge)), ?orb_false_r by congruence;
      [|done..].
    rewrite last_cons, decide_True, orb_true_r by done. by destruct (last _).
  - by rewrite dm_get_insert, decide_False, (bool_decide_false (k = MaxAge)), orb_false_r by congruence.
Qed.

Lemma copy_other respect k ds acc : k <> MaxAge -> NoDup ds.*1 ->
  dm_get k (fold_left (copy_directive respect) ds acc).1 = match dm_get k ds with Some v => Some v | None => dm_get k acc.1 end.
Proof.
  intros Hk. revert acc; induction ds as [|[j v] ds IH]; intros acc; cbn; [done|]. rewrite NoDup_cons. intros [Hj Hn].
  rewrite IH by done.
  assert (E : dm_get k (copy_directive respect acc (j, v)).1 = if decide (j = k) then Some v else dm_get k acc.1).
  { unfold copy_directive. cbn. destruct (respect && bool_decide (j = SMaxAge)); [destruct v|]; cbn; rewrite ?dm_get_insert; repeat case_decide; congruence. }
  rewrite E. case_decide as Ej; [|done]. subst. by rewrite dm_get_none.
Qed.

Lemma single_source respect (m : DirectiveMap) v : NoDup m.*1 -> dm_get MaxAge m = Some v -> respect && contains SMaxAge m = false ->
  last (max_age_sources respect m) = Some v.
Proof.
  intros Hn Hv Hs. destruct (copy_max_age respect m ([], false)) as [E _]. cbn in E.
  assert (Hr : max_age_sources respect m = max_age_sources false m).
  { clear -Hs. destruct respect; [|done]. cbn in Hs. rewrite contains_get in Hs. unfold max_age_sources.
    induction m as [|[k w] m IH]; [done|]. cbn in *. destruct (decide (k = SMaxAge)); [done|]. rewrite (bool_decide_false (k = SMaxAge)) by done.
    by rewrite IH. }
  rewrite Hr. clear -Hn Hv. unfold max_age_sources. induction m as [|[k w] m IH]; [done|]. cbn in *.
  apply NoDup_cons in Hn as [Hk Hn]. destruct (decide (k = MaxAge)) as [->|]; [|by apply IH]. injection Hv as ->.
  assert (Em : max_age_sources false m = []); [|unfold max_age_sources in Em; cbn in Em; by rewrite Em].
  clear -Hk. induction m as [|[j u] m IH]; [done|]. cbn in *. apply not_elem_of_cons in Hk as [Hj Hk].
  rewrite decide_False by done. by apply IH.
Qed.

Lemma add_swr_get settings k m : dm_get k (add_swr_directive settings m) =
  match dm_get k m with
  | Some v => Some v
  | None => if decide (k = StaleWhileRevalidate) then seconds <$> s_stale_while_revalidate settings else None
  end.
Proof.
  unfold add_swr_directive. destruct (s_stale_while_revalidate settings) as [d|]; [|by destruct (dm_get k m); [|case_decide]].
  rewrite contains_get. destruct (dm_get StaleWhileRevalidate m) as [v|] eqn:E.
  - destruct (dm_get k m) eqn:Ek; [done|]. rewrite decide_False; congruence.
  - rewrite dm_get_insert. destruct (decide (StaleWhileRevalidate = k)) as [<-|]; [by rewrite E, decide_True|].
    rewrite (decide_False (P := k = _)) by congruence. by destruct (dm_get k m).
Qed.

Lemma pinned_sources respect (m : DirectiveMap) : max_age_sources respect (shift_remove SMaxAge (shift_remove MaxAge m)) = [].
Proof.
  unfold max_age_sources. induction m as [|[k v] m IH]; [done|]. cbn. case_bool_decide as E; cbn; [done|].
  case_bool_decide as E'; cbn; [done|]. by rewrite decide_False, bool_decide_false, andb_false_r by done.
Qed.

Lemma ensure_max_age_lookups cc settings (origin := default [] (drop_freshness settings cc)) : NoDup origin.*1 ->
  exists r, ensure_max_age cc settings = Some r /\
    dm_get MaxAge r = Some (default (seconds (s_ttl settings)) (last (max_age_sources (s_respect_s_maxage settings) origin))) /\
    (forall k, k <> MaxAge -> dm_get k r = match dm_get k origin with Some v => Some v | None =>
       if decide (k = StaleWhileRevalidate) then seconds <$> s_stale_while_revalidate settings else None end).
Proof.
  intros Ho. pose proof directives_distinct as (_ & D & _). unfold ensure_max_age. fold origin in Ho.
  destruct (drop_freshness settings cc) as [ds|]; subst origin; cbn [from_option] in *; unfold Datatypes.id in *.
  - destruct (contains MaxAge ds && _ && _) eqn:Ek.
    + apply andb_true_iff in Ek as [[Hm Hs%negb_true_iff]%andb_true_iff Hw%negb_true_iff]. exists ds. split; [done|].
      rewrite contains_get in Hm. destruct (dm_get MaxAge ds) as [v|] eqn:Ev; [|done].
      split; [rewrite (single_source _ _ v Ho Ev Hs); reflexivity|]. intros k _. destruct (dm_get k ds) eqn:Ekd; [done|].
      case_decide as Es; [|done]. subst. destruct (s_stale_while_revalidate settings); [|done]. by rewrite contains_get, Ekd in Hw.
    + clear Ek. destruct (copy_max_age (s_respect_s_maxage settings) ds ([], false)) as [E1 E2].
      pose proof (fun k Hk => copy_other (s_respect_s_maxage settings) k ds ([], false) Hk Ho) as E3.
      destruct (fold_left _ ds _) as [m f]. cbn in *. subst f. eexists. split; [done|]. split.
      * rewrite add_swr_get, decide_False by done. case_bool_decide as Es; cbn.
        -- by rewrite dm_get_insert, decide_True, Es by done.
        -- rewrite E1. destruct (last (max_age_sources _ ds)) eqn:El; [done|]. by apply last_None in El.
      * intros k Hk. rewrite add_swr_get. assert (Ekd : dm_get k (if negb (bool_decide (max_age_sources (s_respect_s_maxage settings) ds = []))
          then m else dm_insert MaxAge (seconds (s_ttl settings)) m) = dm_get k ds).
        { destruct (negb _); [|rewrite dm_get_insert, decide_False by congruence]; rewrite (E3 k Hk); by destruct (dm_get k ds). }
        by rewrite Ekd.
  - destruct (s_stale_while_revalidate settings) as [d|] eqn:Es; eexists; (split; [done|]); cbn.
    + rewrite decide_False by done. cbn. rewrite decide_True by done. split; [done|]. intros k Hk.
      repeat case_decide; subst; cbn; repeat case_decide; done || congruence.
    + rewrite decide_True by done. split; [done|]. intros k Hk. repeat case_decide; done || congruence.
Qed.

(** Freshness of a stored response.  [ensure_max_age] always yields directives with a [max-age]: the last one
    among the origin's own [max-age] and, when [s-maxage] is respected, its
    value, else the configured time to live; with [cache_control: false] the
    origin's two directives are dropped first, so it is the configured one.
    [stale-while-revalidate] is the origin's, else the configured one, and every
    other directive of the origin is kept with its value. *)
Theorem ensure_max_age_spec (cc : option DirectiveMap) (settings : CacheSettings) :
  (forall m, cc = Some m -> NoDup m.*1) ->
  let origin := default [] (drop_freshness settings cc) in
  exists r, ensure_max_age cc settings = Some r /\
  dm_get MaxAge r = Some (default (seconds (s_ttl settings)) (last (max_age_sources (s_respect_s_maxage settings) origin))) /\
  dm_get StaleWhileRevalidate r = match dm_get StaleWhileRevalidate origin with
                                  | Some v => Some v | None => seconds <$> s_stale_while_revalidate settings end /\
  (forall k, k <> MaxAge -> k <> StaleWhileRevalidate -> dm_get k r = dm_get k origin) /\
  (s_cache_control settings = Some false -> dm_get MaxAge r = Some (seconds (s_ttl settings))).
Proof.
  intros Hn origin. pose proof directives_distinct as (_ & D & _).
  assert (Ho : NoDup origin.*1).
  { unfold origin, drop_freshness. destruct cc as [m|]; [|case_bool_decide; apply NoDup_nil_2].
    specialize (Hn m eq_refl). case_bool_decide; cbn; [|done]. by repeat apply shift_remove_NoDup. }
  assert (Hpin : s_cache_control settings = Some false -> max_age_sources (s_respect_s_maxage settings) origin = []).
  { intros E. unfold origin, drop_freshness. rewrite bool_decide_true by done. destruct cc as [m|]; [|done]. cbn.
    apply pinned_sources. }
  enough (exists r, ensure_max_age cc settings = Some r /\
    dm_get MaxAge r = Some (default (seconds (s_ttl settings)) (last (max_age_sources (s_respect_s_maxage settings) origin))) /\
    (forall k, k <> MaxAge -> dm_get k r = match dm_get k origin with Some v => Some v | None =>
       if decide (k = StaleWhileRevalidate) then seconds <$> s_stale_while_revalidate settings else None end))
    as (r & Er & Em & Ek).
  { exists r. split; [done|]. split; [done|]. split; [by rewrite Ek, decide_True by congruence|]. split.
    - intros k Hk Hs. rewrite Ek, decide_False by done. by destruct (dm_get k origin).
    - intros E. by rewrite Em, Hpin. }
  by apply ensure_max_age_lookups.
Qed.

End freshness.

(** ** Concrete runs *)

Module ToyCache.
Import ToyHttp.

(** A stand-in for the digest: 64 digits, decided by a sum over the bytes. *)
Fixpoint digest_digits (n : nat) (z : Z) : string :=
  match n with O => "" | S n => hex_digit (z mod 16) +:+ digest_digits n (z / 16) end.
Fixpoint toy_sum (s : string) (acc : Z) : Z :=
  match s with EmptyString => acc | String a s => toy_sum s ((acc * 257 + byte_val a + 1) mod (2 ^ 256)) end.

#[export] Instance env : CacheEnv := {
  uri_display u := u.2;
  sha256_hex s := digest_digits 64 (toy_sum s 0);
  hash_policy w := Z.of_nat (length w);
  method_valid m := negb (bool_decide (m = ""));
  header_name_valid h := negb (bool_decide (h = ""));
  Regex := string;
  regex_new p := Ok p;
  regex_is_match p s := contains_sub p s;
  variance l := Some (String.concat ";" (snd <$> l));
}.

Lemma hex_digit_shape d : 0 <= d < 16 -> String.length (hex_digit d) = 1%nat /\ contains_char "000" (hex_digit d) = false.
Proof.
  intros Hd. unfold hex_digit. assert (Hn : (Z.to_nat d < 16)%nat) by lia.
  destruct (Z.to_nat d) as [|[|[|[|[|[|[|[|[|[|[|[|[|[|[|[|n]]]]]]]]]]]]]]]]; [split; reflexivity..|lia].
Qed.
#[export] Instance digests : DigestLaws.
Proof.
  assert (Hd : forall n z, String.length (digest_digits n z) = n /\ contains_char "000" (digest_digits n z) = false).
  { induction n as [|n IH]; intros z; [done|]. cbn [digest_digits]. rewrite contains_char_app.
    destruct (hex_digit_shape (z mod 16) (Z.mod_pos_bound z 16 ltac:(lia))) as [Hl ->]. destruct (IH (z / 16)) as [Hn ->]. split; [|done].
    destruct (hex_digit (z mod 16)) as [|a [|b t]]; [done| |done]. cbn. by rewrite Hn. }
  split; intros x; apply Hd.
Qed.

#[export] Program Instance directives : CacheControlLib := {
  DirectiveKey := string;
  MaxAge := "max-age"; SMaxAge := "s-maxage"; StaleWhileRevalidate := "stale-while-revalidate";
  cc_no_store m := existsb (fun e => bool_decide (e.1 = "no-store")) m;
  cc_private m := existsb (fun e => bool_decide (e.1 = "private")) m;
  cc_no_cache m := existsb (fun e => bool_decide (e.1 = "no-cache")) m;
  cc_no_cache_field_names m := false;
}.
Next Obligation. done. Qed.

Definition config (auth : bool) (key : option (list string)) : PluginConfig :=
  {| ttl := 60; cache_ttl := None; cache_http_methods := ["GET"]; cache_method := None; cache_http_statuses := [200];
     cache_http_status := None; no_cache_str := []; no_cache := None; vary := [" Accept "]; cache_strategy := None;
     cache_key_templates := key; cache_bypass := None; hide_cache_headers := false; cache_control := None;
     consumer_isolation := true; cache_set_cookie := false; enable_purge := false; scope := Local; max_file_size_bytes := None;
     max_resp_body_size := None; max_resp_body_size_explicit := false; stale_while_revalidate_secs := None;
     respect_s_maxage := true; cache_authenticated_requests := auth; cache_set_cookie_responses := false |}.
Definition plugin (auth : bool) (key : option (list string)) : PluginCache :=
  match create_cache_plugin "flag" 1048576 (config auth key) with
  | Ok p => p
  | Err _ => {| methods := []; no_cache_regex := []; cache_settings :=
      {| s_ttl := 0; s_statuses := []; s_vary := []; s_hide_cache_headers := false; s_enable_purge := false; s_max_file_size_bytes := 0;
         s_stale_while_revalidate := None; s_respect_s_maxage := false; s_cache_authenticated_requests := false;
         s_cache_set_cookie_responses := false; s_cache_key := None; s_cache_bypass := []; s_no_cache := []; s_no_cache_flag_key := "";
         s_cache_control := None; s_consumer_isolation := false; s_policy_fingerprint := 0 |} |}
  end.
Definition fresh : Context :=
  {| route_fingerprint := Some 7; override_key := None; resolved_key := Some 9; original_request_had_credentials := false;
     request_has_credentials := false; original_credential_digest := None; noted_credential_digest := None; flags := ∅; settings := None |}.
Definition get (path : string) (h : list (string * string)) : RequestHeader := {| method := "GET"; uri := (None, path); headers := h |}.
Definition session (tls : bool) (r : RequestHeader) : Session :=
  {| req_header := r; ssl_digest := tls; client_ip := None; client_port := None; server_addr := None |}.
Definition served (p : PluginCache) (r : RequestHeader) : Context := request_filter p r (capture_credentials r fresh).

End ToyCache.
Import ToyHttp ToyCache.

Example plugin_created : is_ok (create_cache_plugin "flag" 1048576 (config true None)) = true /\
  s_vary (cache_settings (plugin true None)) = ["accept"].
Proof. split; vm_compute; reflexivity. Qed.

Lemma cache_key_isolates_witness :
  let r := get "/a" [("host", "h"); ("cookie", "sid=1"); ("accept", "*/*")] in
  let r' := get "/a" [("cookie", "sid=1"); ("host", "h")] in
  let p := plugin true None in
  cache_key (session true r) (served p r) = cache_key (session true r') (served p r') /\
  headers_get_all (headers r) "cookie" = headers_get_all (headers r') "cookie".
Proof.
  intros r r' p.
  assert (E : cache_key (session true r) (served p r) = cache_key (session true r') (served p r')) by (vm_compute; reflexivity).
  split; [exact E|].
  refine (proj1 (proj2 (proj2 (proj2 (proj2 (proj2 (cache_key_isolates (session true r) (session true r') r r' (served p r) (served p r')
    (cache_settings p) (cache_settings p) _ _ _ _ _ _ _ _ _ _ _ _ E)))))) "cookie" _).
  1, 2, 3, 4: vm_compute; reflexivity.
  1, 2: repeat constructor; vm_compute; congruence.
  1, 2: exists fresh; split; vm_compute; reflexivity.
  1, 2: intros name Hn; unfold SHARED_CREDENTIALS in Hn; rewrite !elem_of_cons, elem_of_nil in Hn;
    destruct Hn as [->|[->|[->|[]]]]; vm_compute; repeat constructor.
  1, 2: intros _; vm_compute; reflexivity.
  clear. unfold SHARED_CREDENTIALS. set_solver.
Defined.

(** Without isolation the scheme and the primary key are not separated: with
    [cache_key: ["$arg_k"]] plain-text and TLS requests share an entry. *)
Example scheme_runs_into_primary :
  let p := plugin false (Some ["$arg_k"]) in
  let plain := get "/a?k=s/x" [("host", "h")] in
  let tls := get "/a?k=/x" [("host", "h")] in
  isolates (settings (served p plain)) = false /\
  cache_key (session false plain) (served p plain) = cache_key (session true tls) (served p tls).
Proof. split; vm_compute; reflexivity. Qed.

Lemma credentials_never_shared_witness :
  let req := get "/a" [("host", "h")] in
  let es := [NoteCredential "key-a"; CacheFilter (plugin false None) req; MarkCredentials] in
  let ctx := fold_left context_step es (capture_credentials req fresh) in
  is_Some (settings ctx) /\ should_enable_request_cache (headers req) (settings ctx) ctx = false /\
  exists reason, response_cacheability (fun _ => None) (fun _ _ _ _ => Cacheable tt) 200 [] ctx = Uncacheable reason.
Proof.
  intros req es ctx. split; [vm_compute; eauto|].
  apply (credentials_never_shared (fun _ => None) (fun _ _ _ _ => Cacheable tt) req es fresh ctx (headers req) [] 200);
    [reflexivity|reflexivity|repeat constructor|reflexivity|reflexivity].
Defined.

(** Without credentials the same plugin stores the response. *)
Example anonymous_stored :
  let req := get "/a" [("host", "h")] in
  let ctx := served (plugin false None) req in
  should_enable_request_cache (headers req) (settings ctx) ctx = true /\
  response_cacheability (fun _ => None) (fun _ _ _ _ => Cacheable tt) 200 [] ctx = Cacheable tt.
Proof. split; vm_compute; reflexivity. Qed.

Lemma ensure_max_age_spec_witness :
  let settings := cache_settings (plugin false None) in
  let cc : option DirectiveMap := Some [("s-maxage", Some "60"); ("public", None); ("max-age", Some "10")] in
  exists r, ensure_max_age cc settings = Some r /\ dm_get MaxAge r = Some (Some "10") /\ dm_get "public" r = Some None.
Proof.
  intros settings cc.
  destruct (ensure_max_age_spec cc settings) as (r & Er & Em & _ & Ek & _).
  { intros m [= <-]. cbn. repeat (apply NoDup_cons; split; [set_solver|]). apply NoDup_nil_2. }
  exists r. split; [done|]. split; [rewrite Em; vm_compute; reflexivity|]. rewrite Ek by done. vm_compute. reflexivity.
Defined.
