(* ===== verification/ProxyService.v ===== *)
(** * The proxy service ([src/src/service/http.rs])

    The callbacks Pingora makes for a request: route lookup, the choice of a
    peer with its timeouts, the rewritten host, retries, passive observations,
    the cache switches and the status of failures.  The components of the data
    plane meet here: [RouteMatch], [Pipeline], [PassiveHealth] and [Cache]. *)

From Stdlib Require Import ZArith Lia Ascii.
From stdpp Require Import base tactics gmap strings pretty option functions list.
From S2P Require Import Prelude Errors GraphStore Utf8 Hosts Json Config ConfigSet RequestVars RouteBuild RouteMatch Limiting Pipeline Selection PassiveHealth Cache.

Open Scope Z_scope.

(** ** The handshake of a WebSocket *)

Section headers.
Context `{HttpTypes}.

Definition is_websocket_upgrade (h : HeaderMap) : bool :=
  let connection_has_upgrade :=
    existsb (fun token => eq_ignore_ascii_case (RequestVars.trim token) "upgrade")
      (omap to_str (headers_get_all h "connection") ≫= split_char ",") in
  let upgrade_is_websocket :=
    existsb (fun value => eq_ignore_ascii_case (RequestVars.trim value) "websocket") (omap to_str (headers_get_all h "upgrade")) in
  connection_has_upgrade && upgrade_is_websocket.

(** [insert_header]: the fields of the name are replaced by one. *)
Definition insert_field (h : HeaderMap) (name value : string) : Result HeaderMap string :=
  headers_append (headers_remove h name) name value.
Definition with_headers (req : RequestHeader) (h : HeaderMap) : RequestHeader :=
  {| method := method req; uri := uri req; headers := h |}.

End headers.

(** ** The context of a request *)

(** What the trait [RouteContext] gives the service; [rc_upstream] is the
    allocation of the resolved upstream. *)
Record RouteContext : Type := {
  rc_id : string;
  rc_enable_websocket : bool;
  rc_timeout : option Timeout.t;
  rc_upstream : option nat;
}.

Section service.
Context `{SA : SocketAddrs} `{LB : !LoadBalancers} `{HT : HttpTypes}.
Abbreviation Upstream := PassiveHealth.ProxyUpstream.

(** [into_peer]'s remainder: the selector, the backend, SNI and node label. *)
Record SelectedUpstream : Type := { sel_upstream : nat; sel_backend : Backend; sel_sni : string; sel_node : string }.

Record ProxyContext : Type := {
  route : option RouteContext;
  upstream_override : option nat;
  selected : option SelectedUpstream;
  tries : Z;
  request_start : Instant;
}.
#[export] Instance eta_ProxyContext : Eta ProxyContext := fun c =>
  Build_ProxyContext (route c) (upstream_override c) (selected c) (tries c) (request_start c).
Definition set_selected (c : ProxyContext) (s : option SelectedUpstream) : ProxyContext := c <| selected := s |>.
Definition set_tries (c : ProxyContext) (n : Z) : ProxyContext := c <| tries := n |>.

Definition elapsed_ms (c : ProxyContext) (now : Instant) : Z := duration_since now (request_start c) / 1000000.

(** The upstreams of the process, by allocation, with the balancers' state:
    every request shares them. *)
Record Pool : Type := { upstreams : nat -> Upstream; lb_state : LbState }.

Definition observe_on (pool : Pool) (i : nat) (backend : Backend) (outcome : PassiveOutcome) : Pool :=
  {| upstreams := <[i := observe_passive (upstreams pool i) backend outcome]> (upstreams pool); lb_state := lb_state pool |}.

Definition select_on (pool : Pool) (i : nat) (session : Session) (now : Instant) : option Backend * Pool :=
  let '(r, u, w) := select_for_session (upstreams pool i) session now (lb_state pool) in
  (r, {| upstreams := <[i := u]> (upstreams pool); lb_state := w |}).

(** ** The peer *)

(** [ProxyRoute::select_upstream]. *)
Definition select_upstream (r : RouteContext) (pool : Pool) (session : Session) (now : Instant) :
    Result (HttpPeer * nat * Backend) ProxyError * Pool :=
  match rc_upstream r with
  | None => (Err (UpstreamSelection "Failed to retrieve upstream configuration for route"), pool)
  | Some i =>
    match select_on pool i session now with
    | (None, pool) => (Err (UpstreamSelection ("No healthy backend available for route '" +:+ rc_id r +:+ "'")), pool)
    | (Some backend, pool) =>
      match ext_peer backend with
      | None => (Err (UpstreamSelection "Missing selected backend metadata for HttpPeer"), pool)
      | Some peer => (Ok (peer, i, backend), pool)
      end
    end
  end.

Definition select_override (i : nat) (pool : Pool) (session : Session) (now : Instant) :
    Result (HttpPeer * nat * Backend) ProxyError * Pool :=
  match select_on pool i session now with
  | (None, pool) => (Err (UpstreamSelection "Traffic-split selected no backend"), pool)
  | (Some backend, pool) =>
    match ext_peer backend with
    | None => (Err (Internal "Peer missing"), pool)
    | Some peer => (Ok (peer, i, backend), pool)
    end
  end.

Definition apply_route_timeout (route_timeout : option Timeout.t) (p : HttpPeer) : HttpPeer :=
  match route_timeout with
  | Some t => set_timeouts p (Some (from_secs (Timeout.connect t))) (Some (from_secs (Timeout.read t))) (Some (from_secs (Timeout.send t)))
  | None => p
  end.

Definition relax_websocket (r : option RouteContext) (session : Session) (p : HttpPeer) : HttpPeer :=
  if match r with Some r => rc_enable_websocket r | None => false end && is_websocket_upgrade (headers (req_header session))
  then set_timeouts p (connection_timeout p) None None else p.

(** [upstream_peer]; [plugin_policy] is the plugins' peer phase. *)
Definition upstream_peer (plugin_policy : HttpPeer -> Result HttpPeer ProxyError) (session : Session) (ctx : ProxyContext)
    (pool : Pool) (now : Instant) : Result HttpPeer ProxyError * ProxyContext * Pool :=
  let '(selection, pool) :=
    match upstream_override ctx with
    | Some i => select_override i pool session now
    | None =>
      match route ctx with
      | Some r => select_upstream r pool session now
      | None => (Err (Internal "Route not found"), pool)
      end
    end in
  match selection with
  | Err e => (Err e, ctx, pool)
  | Ok (peer, i, backend) =>
    let ctx := set_selected ctx (Some {| sel_upstream := i; sel_backend := backend; sel_sni := sni peer; sel_node := peer_address peer |}) in
    let peer := apply_route_timeout (route ctx ≫= rc_timeout) peer in
    let peer := relax_websocket (route ctx) session peer in
    (plugin_policy peer, ctx, pool)
  end.

(** ** The request sent upstream *)

Definition upstream_host_rewrite (u : Upstream) (req : RequestHeader) : RequestHeader :=
  match Upstream.pass_host (inner u), Upstream.upstream_host (inner u) with
  | REWRITE, Some host => match insert_field (headers req) "host" host with Ok h => with_headers req h | Err _ => req end
  | _, _ => req
  end.

Definition rewrite_host (pool : Pool) (ctx : ProxyContext) (req : RequestHeader) : RequestHeader :=
  match selected ctx with
  | None => req
  | Some s =>
    match Upstream.pass_host (inner (upstreams pool (sel_upstream s))) with
    | PASS => req
    | REWRITE => upstream_host_rewrite (upstreams pool (sel_upstream s)) req
    | NODE => match insert_field (headers req) "host" (sel_sni s) with Ok h => with_headers req h | Err _ => req end
    end
  end.

(** [upstream_request_filter]; [plugin_filter] is the plugins' phase. *)
Definition upstream_request_filter (plugin_filter : RequestHeader -> Result RequestHeader string) (pool : Pool) (ctx : ProxyContext)
    (req : RequestHeader) : Result RequestHeader string :=
  let? req := plugin_filter req in Ok (rewrite_host pool ctx req).

(** ** Failures *)

Record Error : Type := { etype : ErrorType; esource : ErrorSource; retry : bool }.

Definition proxy_outcome (e : ErrorType) : option PassiveOutcome :=
  match e with
  | ReadTimedout | WriteTimedout => Some PassiveHealth.Timeout
  | ReadError | WriteError | ConnectionClosed => Some TcpFailure
  | _ => None
  end.

Definition error_while_proxy (pool : Pool) (ctx : ProxyContext) (e : Error) : Pool :=
  match esource e with
  | SourceUpstream =>
    match selected ctx with
    | Some s => match proxy_outcome (etype e) with Some o => observe_on pool (sel_upstream s) (sel_backend s) o | None => pool end
    | None => pool
    end
  | _ => pool
  end.

Definition connect_outcome (e : ErrorType) : option PassiveOutcome :=
  match e with
  | ConnectTimedout | TLSHandshakeTimedout => Some PassiveHealth.Timeout
  | ConnectRefused | ConnectNoRoute | ConnectError | TLSHandshakeFailure | HandshakeError => Some TcpFailure
  | _ => None
  end.

(** [timeout * 1000] is a [u64] product. *)
Definition within_retry_window (u : Upstream) (ctx : ProxyContext) (now : Instant) : bool :=
  match Upstream.retry_timeout (inner u) with
  | Some timeout => elapsed_ms ctx now <=? wrap 64 (timeout * 1000)
  | None => true
  end.

Definition fail_to_connect (pool : Pool) (ctx : ProxyContext) (e : Error) (now : Instant) : Error * ProxyContext * Pool :=
  match selected ctx with
  | None => (e, ctx, pool)
  | Some s =>
    let pool := match connect_outcome (etype e) with Some o => observe_on pool (sel_upstream s) (sel_backend s) o | None => pool end in
    let u := upstreams pool (sel_upstream s) in
    match Upstream.retries (inner u) with
    | Some retries =>
      if (0 <? retries) && (tries ctx <? retries) && within_retry_window u ctx now
      then ({| etype := etype e; esource := esource e; retry := true |}, set_tries ctx (tries ctx + 1), pool)
      else (e, ctx, pool)
    | None => (e, ctx, pool)
    end
  end.

(** [fail_to_proxy]'s code and whether a response is written. *)
Definition fail_to_proxy (e : Error) : Z * bool := let code := error_status (etype e) (esource e) in (code, 0 <? code).

(** ** The response *)

Inductive CachePhase : Type := Hit | Miss | Stale | Expired | Revalidated | OtherPhase.
Definition cache_status (p : CachePhase) : string :=
  match p with
  | Hit => "HIT" | Miss => "MISS" | Stale => "STALE" | Expired => "EXPIRED" | Revalidated => "REVALIDATED" | OtherPhase => "BYPASS"
  end.

(** [response_filter] up to the plugins' phase; the failed inserts return
    before it. *)
Definition response_filter (pool : Pool) (ctx : ProxyContext) (settings : option CacheSettings) (phase : CachePhase) (status : Z)
    (h : HeaderMap) : Result HeaderMap string * Pool :=
  let pool := match selected ctx with Some s => observe_on pool (sel_upstream s) (sel_backend s) (Http status) | None => pool end in
  match settings with
  | Some s =>
    if s_hide_cache_headers s then (Ok h, pool)
    else (let? h := insert_field h "x-cache-status" (cache_status phase) in insert_field h "x-cache-scope" "local", pool)
  | None => (Ok h, pool)
  end.

(** ** The cache switches *)

Definition is_purge (session : Session) (settings : option CacheSettings) : bool :=
  bool_decide (method (req_header session) = "PURGE") && should_enable_purge settings.

(** The size limit the cache is enabled with, if it is. *)
Definition request_cache_filter (session : Session) (ctx : Context) : option (option Z) :=
  match settings ctx with
  | Some s =>
    if should_enable_request_cache (headers (req_header session)) (Some s) ctx
    then Some (if 0 <? s_max_file_size_bytes s then Some (s_max_file_size_bytes s) else None)
    else None
  | None => None
  end.

End service.

(** ** Routing *)

Section routing.
Context `{Compiler} `{PathRouter} `{HttpTypes} {W : Type} `{!Hooks (W := W)}.
Context (method_ok : string -> bool) (header_ok : string -> string -> Result unit string) (request_id : W -> option string)
  (drop_keepalive : W -> W) (write_response : Written -> W -> Result unit string * W).

(** The published snapshot, as far as the request path reads it, and what
    [early_request_filter] stores in the context. *)
Record Snapshot : Type := { route_matcher : MatchEntry; global_plugins : ProxyPluginExecutor }.
Record Routed : Type := {
  matched : option ProxyRoute;
  route_params : option (list (string * string));
  pipeline : CompiledPluginPipeline;
}.

Definition route_request (runtime : Snapshot) (session : Session) : Routed :=
  let route_match := match match_request (route_matcher runtime) session with
                     | Some m => Some m
                     | None => match_preflight method_ok (route_matcher runtime) session
                     end in
  match route_match with
  | Some (params, r) =>
    {| matched := Some r; route_params := Some params;
       pipeline := {| Pipeline.global := global_plugins runtime; Pipeline.route := from_sorted (pr_executor r) |} |}
  | None =>
    {| matched := None; route_params := None;
       pipeline := {| Pipeline.global := global_plugins runtime; Pipeline.route := executor_default |} |}
  end.

Definition early_request_filter (runtime : Snapshot) (session : Session) (w : W) : Routed * (Result unit string * W) :=
  let routed := route_request runtime session in (routed, pipeline_early_request (pipeline routed) w).

Definition request_filter (routed : Routed) (w : W) : Result bool string * W :=
  match matched routed with
  | None =>
    match render_exit_response header_ok
            (resolve_exit_response (pipeline_exit_transform (pipeline routed)) 404 None None [] (request_id w)) with
    | Ok written => match write_response written w with (Ok _, w) => (Ok true, w) | (Err e, w) => (Err e, w) end
    | Err e => (Err e, w)
    end
  | Some _ => pipeline_request_filter header_ok request_id drop_keepalive write_response (pipeline routed) w
  end.

(** What the service reads of a compiled route. *)
Definition route_context (r : ProxyRoute) : RouteContext :=
  {| rc_id := Route.id (pr_inner r); rc_enable_websocket := Route.enable_websocket (pr_inner r);
     rc_timeout := Route.timeout (pr_inner r); rc_upstream := pu_arc <$> pr_resolved r |}.

End routing.

(** ** Peers *)

Section peers.
Context `{SA : SocketAddrs} `{LB : !LoadBalancers} `{HT : HttpTypes}.

Lemma select_with_passive_keeps u key now w :
  exists p, (select_with_passive u key now w).1.2 = set_passive u p.
Proof. unfold select_with_passive. repeat case_match; simpl; eauto. Qed.

Lemma set_timeout_passive u p peer : set_timeout (set_passive u p) peer = set_timeout u peer.
Proof. done. Qed.

(** The peer of a selected backend carries the upstream's timeouts. *)
Lemma select_on_peer pool i session now backend pool' peer : select_on pool i session now = (Some backend, pool') ->
  ext_peer backend = Some peer -> exists p0, peer = set_timeout (upstreams pool i) p0.
Proof.
  unfold select_on, select_for_session. pose proof (fun key => select_with_passive_keeps (upstreams pool i) key now (lb_state pool)) as Hk.
  match goal with |- context [select_with_passive _ ?k _ _] => specialize (Hk k) as [p Hp]; destruct (select_with_passive _ k _ _) as [[r u] w] end.
  simpl in Hp. subst u. destruct r as [b|]; [|done]. simpl. intros [= <- _]. destruct (ext_peer b) as [p0|] eqn:E; simpl; [|congruence].
  intros [= <-]. exists p0. apply set_timeout_passive.
Qed.

Definition upstream_of (ctx : ProxyContext) : option nat :=
  match upstream_override ctx with Some i => Some i | None => route ctx ≫= rc_upstream end.

(** A peer comes from the request's upstream, and is recorded as selected. *)
Lemma upstream_peer_inv policy session ctx pool now peer ctx' pool' :
  upstream_peer policy session ctx pool now = (Ok peer, ctx', pool') ->
  exists i backend p0, upstream_of ctx = Some i /\ select_on pool i session now = (Some backend, pool') /\
    ext_peer backend = Some p0 /\
    ctx' = set_selected ctx (Some {| sel_upstream := i; sel_backend := backend; sel_sni := sni p0; sel_node := peer_address p0 |}) /\
    policy (relax_websocket (route ctx) session (apply_route_timeout (route ctx ≫= rc_timeout) p0)) = Ok peer.
Proof.
  unfold upstream_peer, upstream_of, select_override, select_upstream. intros E.
  destruct (upstream_override ctx) as [i|]; [|destruct (route ctx) as [r|] eqn:Er; [|done]; simpl; destruct (rc_upstream r) as [i|] eqn:Ei; [|done]].
  all: destruct (select_on pool i session now) as [[backend|] pool1] eqn:Es; [|done]; destruct (ext_peer backend) as [p0|] eqn:Ep; [|done].
  all: injection E as E <- <-; exists i, backend, p0; simpl in E; by rewrite ?Er in E.
Qed.

Definition websocket (ctx : ProxyContext) (session : Session) : bool :=
  match route ctx with Some r => rc_enable_websocket r | None => false end && is_websocket_upgrade (headers (req_header session)).
Definition effective_timeout (u : PassiveHealth.ProxyUpstream) (ctx : ProxyContext) : Timeout.t :=
  default (resolve_upstream_timeout (Upstream.timeout (inner u)) (default_timeout u)) (route ctx ≫= rc_timeout).

(** The peer of a request.  A peer comes from the traffic-split override when there is one, else from
    the route's upstream, is recorded with its backend for the later callbacks,
    and reaches the plugins' policy with the timeouts of the documented
    precedence: the route's, else the upstream's, else the instance default,
    else the built-in one; reads and writes are unlimited only for a route that
    allows WebSockets and a request with both handshake headers. *)
Theorem peer_precedence policy session ctx pool now peer ctx' pool' :
  upstream_peer policy session ctx pool now = (Ok peer, ctx', pool') ->
  exists i backend p, upstream_of ctx = Some i /\ select_on pool i session now = (Some backend, pool') /\
    policy p = Ok peer /\
    selected ctx' = Some {| sel_upstream := i; sel_backend := backend; sel_sni := sni p; sel_node := peer_address p |} /\
    tries ctx' = tries ctx /\
    let t := effective_timeout (upstreams pool i) ctx in
    connection_timeout p = Some (from_secs (Timeout.connect t)) /\
    read_timeout p = (if websocket ctx session then None else Some (from_secs (Timeout.read t))) /\
    write_timeout p = (if websocket ctx session then None else Some (from_secs (Timeout.send t))).
Proof.
  intros (i & backend & p0 & Hi & Hs & Hp & -> & Hpol)%upstream_peer_inv.
  destruct (select_on_peer _ _ _ _ _ _ _ Hs Hp) as [q ->]. exists i, backend. eexists. split; [done|]. split; [done|]. split; [exact Hpol|].
  unfold relax_websocket, apply_route_timeout, effective_timeout. fold (websocket ctx session).
  destruct (websocket ctx session), (route ctx ≫= rc_timeout); split_and!; done || (unfold set_timeout; by case_match).
Qed.

End peers.

(** ** Retries *)

Section retries.
Context `{SA : SocketAddrs} `{LB : !LoadBalancers} `{HT : HttpTypes}.
Context (policy : HttpPeer -> Result HttpPeer ProxyError) (session : Session).

Inductive Connected : Type := Established (peer : HttpPeer) | GaveUp (e : Error) | NoPeer (e : ProxyError).

(** Pingora's loop around the callbacks: a failed connection goes through
    [fail_to_connect], and another peer is asked for while the error it returns
    is marked for a retry.  [net] is what the network does with an attempt,
    [clock] the readings around it. *)
Context (net : nat -> HttpPeer -> option (ErrorType * ErrorSource)) (clock : nat -> Instant * Instant).

Fixpoint connect_loop (fuel k : nat) (ctx : ProxyContext) (pool : Pool) : option (Connected * ProxyContext * Pool) :=
  match fuel with
  | O => None
  | S fuel =>
    match upstream_peer policy session ctx pool (clock k).1 with
    | (Err e, ctx, pool) => Some (NoPeer e, ctx, pool)
    | (Ok peer, ctx, pool) =>
      match net k peer with
      | None => Some (Established peer, ctx, pool)
      | Some (t, src) =>
        let '(e, ctx, pool) := fail_to_connect pool ctx {| etype := t; esource := src; retry := false |} (clock k).2 in
        if retry e then connect_loop fuel (S k) ctx pool else Some (GaveUp e, ctx, pool)
      end
    end
  end.

(** Nothing the callbacks do changes an upstream's configuration. *)
Definition same_config (p q : Pool) : Prop := forall i, inner (upstreams p i) = inner (upstreams q i).

Lemma observe_on_config pool i b o : same_config (observe_on pool i b o) pool.
Proof.
  intros j. unfold observe_on. simpl. destruct (decide (j = i)) as [->|]; [|by rewrite fn_lookup_insert_ne].
  rewrite fn_lookup_insert. unfold observe_passive. by case_match.
Qed.
Lemma select_on_config pool i now r pool' : select_on pool i session now = (r, pool') -> same_config pool' pool.
Proof.
  unfold select_on, select_for_session. pose proof (fun key => select_with_passive_keeps (upstreams pool i) key now (lb_state pool)) as Hk.
  match goal with |- context [select_with_passive _ ?k _ _] => specialize (Hk k) as [p Hp]; destruct (select_with_passive _ k _ _) as [[r' u] w] end.
  simpl in Hp. subst u. intros [= _ <-] j. simpl. destruct (decide (j = i)) as [->|]; [by rewrite fn_lookup_insert|by rewrite fn_lookup_insert_ne].
Qed.

Lemma upstream_peer_err ctx pool now e ctx' pool' : upstream_peer policy session ctx pool now = (Err e, ctx', pool') ->
  tries ctx' = tries ctx.
Proof.
  unfold upstream_peer. destruct (match upstream_override ctx with Some i => _ | None => _ end) as [[[[peer i] b]|e'] pool1];
    by intros [= _ <- _].
Qed.

(** What a failed connection leaves behind. *)
Lemma fail_to_connect_inv pool ctx s e now e' ctx' pool' : selected ctx = Some s -> fail_to_connect pool ctx e now = (e', ctx', pool') ->
  let u := upstreams pool (sel_upstream s) in
  pool' = match connect_outcome (etype e) with Some o => observe_on pool (sel_upstream s) (sel_backend s) o | None => pool end /\
  ((ctx' = ctx /\ e' = e) \/
   (ctx' = set_tries ctx (tries ctx + 1) /\ retry e' = true /\ within_retry_window u ctx now = true /\
    exists n, Upstream.retries (inner u) = Some n /\ tries ctx < n)).
Proof.
  intros Hs. unfold fail_to_connect. rewrite Hs. set (pool1 := match connect_outcome _ with Some _ => _ | None => _ end).
  assert (Hc : same_config pool1 pool) by (unfold pool1; case_match; [apply observe_on_config|done]).
  unfold within_retry_window. rewrite (Hc (sel_upstream s)). cbv zeta.
  destruct (Upstream.retries _) as [n|] eqn:En; [|intros [= <- <- <-]; auto].
  destruct ((0 <? n) && _ && _) eqn:Eb; intros [= <- <- <-]; [|auto]. apply andb_true_iff in Eb as [Eb Hw]. bool_to_prop.
  split; [done|]. right. split_and!; [done|done|done|]. exists n. split; [done|lia].
Qed.

(** The window every retry was granted in. *)
Definition in_window (u : PassiveHealth.ProxyUpstream) (start now : Instant) : Prop :=
  match Upstream.retry_timeout (inner u) with
  | Some timeout => duration_since now start / 1000000 <= wrap 64 (timeout * 1000)
  | None => True
  end.

Lemma upstream_of_selected ctx s : upstream_of (set_selected ctx s) = upstream_of ctx.
Proof. done. Qed.

Lemma connect_loop_bounded fuel k ctx pool i n : upstream_of ctx = Some i ->
  default 0 (Upstream.retries (inner (upstreams pool i))) = n -> 0 <= n -> tries ctx <= n -> (Z.to_nat (n - tries ctx) < fuel)%nat ->
  exists r ctx' pool', connect_loop fuel k ctx pool = Some (r, ctx', pool') /\ tries ctx <= tries ctx' <= n /\
    (forall j, (k <= j < k + Z.to_nat (tries ctx' - tries ctx))%nat -> in_window (upstreams pool i) (request_start ctx) (clock j).2).
Proof.
  revert k ctx pool; induction fuel as [|fuel IH]; intros k ctx pool Hi Hn Hn0 Ht Hf; [lia|]. cbn [connect_loop].
  destruct (upstream_peer policy session ctx pool (clock k).1) as [[[peer|e] ctx1] pool1] eqn:Ep.
  - apply upstream_peer_inv in Ep as (i' & b & p0 & Hi' & Hsel & _ & -> & _). rewrite Hi in Hi'. injection Hi' as <-.
    pose proof (select_on_config _ _ _ _ _ Hsel) as Hc. set (ctx1 := set_selected ctx _).
    destruct (net k peer) as [[t src]|]; [|eexists _, _, _; split; [done|split; [simpl; lia|intros j; simpl; lia]]].
    destruct (fail_to_connect pool1 ctx1 _ _) as [[e2 ctx2] pool2] eqn:Ef.
    eapply fail_to_connect_inv in Ef as (Hp2 & [[-> ->]|(-> & Hr & Hw & m & Hm & Hlt)]); [| |done].
    { eexists _, _, _. split; [done|]. split; [simpl; lia|intros j; simpl; lia]. }
    rewrite Hr. simpl in Hw, Hm, Hlt. rewrite (Hc i) in Hm.
    assert (Hc2 : same_config pool2 pool) by (intros j; rewrite Hp2; case_match; [rewrite observe_on_config|]; apply Hc).
    rewrite Hm in Hn. simpl in Hn. subst m.
    destruct (IH (S k) (set_tries ctx1 (tries ctx1 + 1)) pool2) as (r & ctx' & pool' & E & Hb & Hwin);
      [exact Hi|rewrite Hc2, Hm; done|done|simpl; lia|simpl; lia|].
    rewrite E. exists r, ctx', pool'. split; [done|]. simpl in Hb, Hwin. split; [lia|]. intros j Hj.
    destruct (decide (j = k)) as [->|].
    + unfold in_window, within_retry_window, elapsed_ms in *. simpl in Hw. rewrite (Hc i) in Hw. destruct (Upstream.retry_timeout (inner (upstreams pool i))); [|exact I]. by apply Z.leb_le.
    + specialize (Hwin j ltac:(lia)). unfold in_window in *. by rewrite Hc2 in Hwin.
  - apply upstream_peer_err in Ep. eexists _, _, _. split; [done|]. rewrite Ep. split; [lia|intros j; lia].
Qed.

(** C22.  Retries end.  However the network behaves, connecting a fresh request ends after at most
    one attempt more than its upstream's configured retries, with a peer, an
    error, or no backend; the retries granted are counted in the context, and
    each was granted while the time since the request's start was inside the
    retry timeout. *)
Theorem retries_end ctx pool i : upstream_of ctx = Some i -> tries ctx = 0 ->
  let n := default 0 (Upstream.retries (inner (upstreams pool i))) in 0 <= n ->
  exists r ctx' pool', connect_loop (S (Z.to_nat n)) 0 ctx pool = Some (r, ctx', pool') /\ 0 <= tries ctx' <= n /\
    (forall j, (j < Z.to_nat (tries ctx'))%nat -> in_window (upstreams pool i) (request_start ctx) (clock j).2).
Proof.
  intros Hi Ht n Hn. destruct (connect_loop_bounded (S (Z.to_nat n)) 0 ctx pool i n) as (r & ctx' & pool' & E & Hb & Hw);
    [done|done|done|lia|lia|]. rewrite Ht in Hb, Hw. exists r, ctx', pool'. split; [done|]. split; [done|]. intros j Hj. apply Hw. lia.
Qed.

End retries.

(** ** Failover *)

Section failover.
Context `{SA : SocketAddrs} `{LB : !LoadBalancers} `{LL : !LoadBalancerLaws} `{HT : HttpTypes}.

(** A ready backend that is not tripped is preferred. *)
Lemma select_untripped u key now w : let b := with_lb (lb u) in
  (exists x, x ∈ candidates b key MAX_LB_ITERATIONS w /\ lb_ready b w x = true /\ is_tripped (passive u) x = false) ->
  exists x w', select_with_passive u key now w = (Some x, u, w') /\ is_tripped (passive u) x = false.
Proof.
  intros b (x & Hx & Hr & Ht). unfold select_with_passive. fold b. rewrite select_with_scans, scan_regular.
  destruct (List.find _ _) as [y|] eqn:Ef.
  - apply find_some in Ef as [_ Hy]. exists y. destruct u as [? ? ? p ?]. simpl in *. bool_to_prop. eauto.
  - apply list_elem_of_In in Hx. pose proof (find_none _ _ Ef x Hx) as Hn. simpl in Hn. by rewrite Hr, Ht in Hn.
Qed.

Definition selector_key (u : PassiveHealth.ProxyUpstream) (session : Session) : string :=
  match lb u with RoundRobinLB _ | RandomLB _ => "" | FnvLB _ | KetamaLB _ => hash_key u session end.

(** A failing backend is left.  When a connection failure completes the run that trips its backend, the
    next peer of the request is another backend, as long as the balancer then
    offers a ready one that is not tripped. *)
Theorem failover policy session pool ctx s e now e1 ctx1 pool1 p o peer ctx2 pool2 now2 :
  selected ctx = Some s -> upstream_of ctx = Some (sel_upstream s) ->
  passive (upstreams pool (sel_upstream s)) = Some p -> connect_outcome (etype e) = Some o ->
  tripped (observe_node (config p) (default PassiveCounters_default (counters p !! backend_id (sel_backend s))) o) = true ->
  fail_to_connect pool ctx e now = (e1, ctx1, pool1) ->
  (let u := upstreams pool1 (sel_upstream s) in
   exists x, x ∈ candidates (with_lb (lb u)) (selector_key u session) MAX_LB_ITERATIONS (lb_state pool1) /\
     lb_ready (with_lb (lb u)) (lb_state pool1) x = true /\ is_tripped (passive u) x = false) ->
  upstream_peer policy session ctx1 pool1 now2 = (Ok peer, ctx2, pool2) ->
  exists s2, selected ctx2 = Some s2 /\ sel_upstream s2 = sel_upstream s /\
    backend_id (sel_backend s2) <> backend_id (sel_backend s).
Proof.
  intros Hs Hi Hp Ho Htr Hf Hx Hpeer.
  assert (upstream_of ctx1 = Some (sel_upstream s) /\
    passive (upstreams pool1 (sel_upstream s)) = Some (observe p (sel_backend s) o)) as [Hi1 Hp1].
  { eapply fail_to_connect_inv in Hf as (-> & Hc); [|done]. rewrite Ho. split; [by destruct Hc as [[-> _]|(-> & _)]|].
    simpl. rewrite fn_lookup_insert. unfold observe_passive. by rewrite Hp. }
  apply upstream_peer_inv in Hpeer as (i & b & p0 & Hi2 & Hsel & _ & -> & _). rewrite Hi1 in Hi2. injection Hi2 as <-.
  eexists. split; [done|]. split; [done|]. simpl. cbv zeta in Hx.
  apply (select_untripped (upstreams pool1 (sel_upstream s)) _ now2) in Hx as (x & w' & Ex & Hnt).
  unfold select_on, select_for_session in Hsel. unfold selector_key in Ex. rewrite Ex in Hsel. simpl in Hsel. injection Hsel as <- _.
  intros Hid. rewrite Hp1 in Hnt. unfold is_tripped, observe in Hnt. simpl in Hnt.
  assert (Hx : backend_id x = backend_id (sel_backend s)) by (rewrite <-Hid; by destruct (ext_peer x)).
  rewrite Hx, lookup_insert_eq in Hnt. simpl in Hnt. by rewrite Htr in Hnt.
Qed.

End failover.

(** ** A concrete request *)

Module ToyService.
Import ToyHttp ToySelection ToyBalancer.

Definition peer_node (a : string) : Backend := set_ext_peer (node a 0) (HttpPeer_new a false "sni").
Definition retrying (n : Z) : Upstream.t :=
  Upstream.Build_t "u1" (Some n) (Some 5) (Some {| Timeout.connect := 1; Timeout.send := 2; Timeout.read := 3 |})
    (Upstream.nodes (demo_upstream "u1")) RoundRobin None VARS "uri" HTTP PASS None None None.
Definition up (n : Z) : PassiveHealth.ProxyUpstream :=
  {| inner := retrying n; lb := RoundRobinLB [(peer_node "a", true); (peer_node "b", true)]; cache_origin_fingerprint := 0;
     passive := Some fresh; default_timeout := None |}.
Definition pool : Pool := {| upstreams := fun _ => up 3; lb_state := 0%nat |}.
Definition ctx : ProxyContext :=
  {| route := Some {| rc_id := "r1"; rc_enable_websocket := true; rc_timeout := None; rc_upstream := Some 7%nat |};
     upstream_override := None; selected := None; tries := 0; request_start := 0 |}.
Definition session (h : list (string * string)) : Session :=
  {| req_header := {| method := "GET"; uri := (None, "/ws"); headers := h |}; ssl_digest := false; client_ip := None;
     client_port := None; server_addr := None |}.
Definition upgrade : list (string * string) := [("connection", "keep-alive, Upgrade"); ("upgrade", "websocket")].
Definition reset : Error := {| etype := ConnectRefused; esource := SourceUpstream; retry := false |}.

End ToyService.
Import ToyHttp ToySelection ToyBalancer ToyService.

Lemma peer_precedence_witness : exists peer ctx' pool', upstream_peer Ok (session upgrade) ctx pool 9 = (Ok peer, ctx', pool') /\
  connection_timeout peer = Some (10 ^ 9) /\ read_timeout peer = None.
Proof.
  destruct (upstream_peer Ok (session upgrade) ctx pool 9) as [[r ctx'] pool'] eqn:E.
  assert (Hr : is_ok r = true) by (transitivity (is_ok (upstream_peer Ok (session upgrade) ctx pool 9).1.1); [by rewrite E|vm_compute; reflexivity]).
  destruct r as [peer|]; [|discriminate]. exists peer, ctx', pool'. split; [reflexivity|].
  destruct (peer_precedence Ok (session upgrade) ctx pool 9 peer ctx' pool' E) as (i & b & p & Hi & _ & Hp & _ & _ & H1 & H2 & _).
  injection Hp as <-. injection Hi as <-. split; [rewrite H1|rewrite H2]; vm_compute; reflexivity.
Defined.

Lemma retries_end_witness : exists r ctx' pool',
  connect_loop Ok (session []) (fun k _ => if (k <? 2)%nat then Some (ConnectRefused, SourceUpstream) else None) (fun k => (0, 10 ^ 9))
    4 0 ctx pool = Some (r, ctx', pool') /\ 0 <= tries ctx' <= 3.
Proof.
  destruct (retries_end Ok (session []) (fun k _ => if (k <? 2)%nat then Some (ConnectRefused, SourceUpstream) else None)
    (fun k => (0, 10 ^ 9)) ctx pool 7%nat eq_refl eq_refl ltac:(vm_compute; discriminate)) as (r & ctx' & pool' & E & Hb & _).
  exists r, ctx', pool'. split; [exact E|exact Hb].
Defined.

(** Two refusals, the default threshold: the third attempt leaves the node. *)
Example third_attempt_moves :
  let net k (p : HttpPeer) := if bool_decide (peer_address p = "a") then Some (ConnectRefused, SourceUpstream) else None in
  match connect_loop Ok (session []) net (fun _ => (0, 10 ^ 9)) 4 0 ctx pool with
  | Some (Established p, ctx', _) => (peer_address p, tries ctx') = ("b", 2)
  | _ => False
  end.
Proof. vm_compute. reflexivity. Qed.

Lemma failover_witness :
  let pool1 := observe_on pool 7 (peer_node "a") TcpFailure in
  let s := {| sel_upstream := 7%nat; sel_backend := peer_node "a"; sel_sni := "sni"; sel_node := "a" |} in
  let c := set_selected ctx (Some s) in
  exists e1 ctx1 pool2 peer ctx2 pool3 s2,
    fail_to_connect pool1 c reset 1 = (e1, ctx1, pool2) /\ upstream_peer Ok (session []) ctx1 pool2 2 = (Ok peer, ctx2, pool3) /\
    selected ctx2 = Some s2 /\ backend_id (sel_backend s2) <> backend_id (peer_node "a").
Proof.
  intros pool1 s c.
  destruct (fail_to_connect pool1 c reset 1) as [[e1 ctx1] pool2] eqn:Ef.
  destruct (upstream_peer Ok (session []) ctx1 pool2 2) as [[r ctx2] pool3] eqn:Ep.
  assert (Hr : is_ok r = true).
  { transitivity (is_ok (let '(_, c1, p1) := fail_to_connect pool1 c reset 1 in (upstream_peer Ok (session []) c1 p1 2).1.1));
      [by rewrite Ef, Ep|vm_compute; reflexivity]. }
  destruct r as [peer|]; [|discriminate].
  assert (Hx : let u := upstreams pool2 (sel_upstream s) in
    exists x, x ∈ candidates (with_lb (lb u)) (selector_key u (session [])) MAX_LB_ITERATIONS (lb_state pool2) /\
     lb_ready (with_lb (lb u)) (lb_state pool2) x = true /\ is_tripped (passive u) x = false).
  { replace pool2 with (fail_to_connect pool1 c reset 1).2 by (by rewrite Ef).
    exists (peer_node "b"). split; [vm_compute; right; left|split; vm_compute; reflexivity]. }
  assert (Hp : passive (upstreams pool1 (sel_upstream s)) = Some (observe fresh (peer_node "a") TcpFailure))
    by (unfold pool1, observe_on; cbn [upstreams sel_upstream s]; rewrite fn_lookup_insert; reflexivity).
  assert (Ht : tripped (observe_node (config (observe fresh (peer_node "a") TcpFailure)) (default PassiveCounters_default
    (counters (observe fresh (peer_node "a") TcpFailure) !! backend_id (sel_backend s))) TcpFailure) = true) by (vm_compute; reflexivity).
  assert (Hs : selected c = Some s) by reflexivity. assert (Hu : upstream_of c = Some (sel_upstream s)) by reflexivity.
  assert (Ho : connect_outcome (etype reset) = Some TcpFailure) by reflexivity.
  destruct (failover _ _ _ _ _ _ _ _ _ _ _ _ _ _ _ _ Hs Hu Hp Ho Ht Ef Hx Ep) as (s2 & Hs2 & _ & Hne).
  exists e1, ctx1, pool2, peer, ctx2, pool3, s2. split; [reflexivity|]. split; [exact Ep|]. split; [exact Hs2|exact Hne].
Defined.
