(* ===== verification/IpRestriction.v ===== *)
(** * IP restriction ([src/src/plugins/ip_restriction.rs])

    The client address behind trusted proxies, the allow and deny lists, and the
    compilation of the configuration.  CIDR networks ([ipnetwork]) are a type
    class. *)

From Stdlib Require Import ZArith Lia Ascii.
From stdpp Require Import base tactics strings pretty option list.
From S2P Require Import Prelude Errors GraphStore Utf8 Hosts Json RequestVars Limiting Discovery.

Open Scope Z_scope.

Class IpNetworks : Type := {
  IpNetwork : Type;
  network_parse : string -> Result IpNetwork string;
  contains : IpNetwork -> IpAddr -> bool;
}.

(** [serde_json]'s text of an object with one string field. *)
Class JsonText : Type := { json_field : string -> string -> string }.

Definition char_count (s : string) : Z := Z.of_nat (length (utf8_chunks s)).

Section plugin.
Context `{IpNetworks} `{JsonText} `{HttpTypes}.

Record RawConfig : Type := {
  raw_whitelist : list string;
  raw_blacklist : list string;
  raw_message : string;
  raw_response_code : Z;
  raw_trusted_proxies : list string;
  raw_use_forwarded_headers : bool;
  raw_forwarded_header_error_policy : string;
}.

Inductive ForwardedHeaderErrorPolicy : Type := Direct | Deny.

Record PluginConfig : Type := {
  whitelist : list IpNetwork;
  blacklist : list IpNetwork;
  message : string;
  response_code : Z;
  trusted_proxies : list IpNetwork;
  use_forwarded_headers : bool;
  forwarded_header_error_policy : ForwardedHeaderErrorPolicy;
}.

(** The checks of [RawConfig::try_from]. *)
Definition RawConfig_try_from (config : RawConfig) : ProxyResult RawConfig :=
  if bool_decide (raw_whitelist config = []) && bool_decide (raw_blacklist config = [])
  then Err (Validation "At least one of 'whitelist' or 'blacklist' must be non-empty")
  else
    let message_len := char_count (raw_message config) in
    if negb ((1 <=? message_len) && (message_len <=? 1024))
    then Err (Validation ("message must be between 1 and 1024 characters, got " +:+ pretty message_len))
    else if negb ((raw_response_code config =? 403) || (raw_response_code config =? 404))
    then Err (Validation ("response_code must be 403 or 404, got " +:+ pretty (raw_response_code config)))
    else Ok config.

Fixpoint parse_networks (what : string) (l : list string) : ProxyResult (list IpNetwork) :=
  match l with
  | [] => Ok []
  | s :: l =>
    match network_parse s with
    | Ok n => let? rest := parse_networks what l in Ok (n :: rest)
    | Err e => Err (Validation ("Invalid " +:+ what +:+ " IP network '" +:+ s +:+ "': " +:+ e))
    end
  end.

Definition compile_config (cfg : RawConfig) : ProxyResult PluginConfig :=
  let? raw := RawConfig_try_from cfg in
  let? whitelist := parse_networks "whitelist" (raw_whitelist raw) in
  let? blacklist := parse_networks "blacklist" (raw_blacklist raw) in
  let? trusted_proxies := parse_networks "trusted proxy" (raw_trusted_proxies raw) in
  let other := raw_forwarded_header_error_policy raw in
  let? policy :=
    if bool_decide (other = "direct") then Ok Direct
    else if bool_decide (other = "deny") then Ok Deny
    else Err (Configuration ("Invalid forwarded_header_error_policy '" +:+ other +:+ "', expected 'direct' or 'deny'")) in
  Ok {| whitelist := whitelist; blacklist := blacklist; message := raw_message raw; response_code := raw_response_code raw;
        trusted_proxies := trusted_proxies; use_forwarded_headers := raw_use_forwarded_headers raw;
        forwarded_header_error_policy := policy |}.

(** ** The client address *)

Inductive ClientIpError : Type := InvalidForwardedHeader | Other (e : ProxyError).

Definition is_trusted_proxy (self : PluginConfig) (ip : IpAddr) : bool := existsb (fun n => contains n ip) (trusted_proxies self).

(** Every element parses, or nothing does. *)
Definition parse_hops (forwarded_header : string) : option (list IpAddr) :=
  mapM (fun hop => parse_ip (trim hop)) (split_char "," forwarded_header).

Definition client_from_proxy_chain (hops : list IpAddr) (is_trusted : IpAddr -> bool) : option IpAddr :=
  match List.find (fun ip => negb (is_trusted ip)) (rev hops) with Some ip => Some ip | None => head hops end.

Definition extract_forwarded_ip (self : PluginConfig) (req : RequestHeader) : Result (option IpAddr) unit :=
  match get_req_header_value req "x-forwarded-for" with
  | Some forwarded_header =>
    match parse_hops forwarded_header with
    | Some hops => Ok (client_from_proxy_chain hops (is_trusted_proxy self))
    | None => Err ()
    end
  | None => Ok (get_req_header_value req "x-real-ip" ≫= fun value => parse_ip (trim value))
  end.

(** [direct] is the session's peer address. *)
Definition get_real_client_ip (self : PluginConfig) (direct : option IpAddr) (req : RequestHeader) : Result IpAddr ClientIpError :=
  if use_forwarded_headers self then
    match direct with
    | None => Err (Other (Internal "Failed to determine immediate client IP"))
    | Some immediate_client =>
      if is_trusted_proxy self immediate_client then
        match extract_forwarded_ip self req with
        | Ok (Some real_ip) => Ok real_ip
        | Ok None => Ok immediate_client
        | Err _ =>
          match forwarded_header_error_policy self with
          | Direct => Ok immediate_client
          | Deny => Err InvalidForwardedHeader
          end
        end
      else Ok immediate_client
    end
  else match direct with
       | Some ip => Ok ip
       | None => Err (Other (Internal "Failed to determine client IP"))
       end.

Definition ip_rejection (self : PluginConfig) : Rejection :=
  let status := if (100 <=? response_code self) && (response_code self <=? 999) then response_code self else 403 in
  with_content_type "application/json" (with_body (json_field "message" (message self)) (Rejection_new status)).

Definition request_filter (self : PluginConfig) (direct : option IpAddr) (req : RequestHeader) : ProxyResult FilterVerdict :=
  match get_real_client_ip self direct req with
  | Err InvalidForwardedHeader => Ok (Reject (ip_rejection self))
  | Err (Other err) => Err err
  | Ok client_ip =>
    if negb (bool_decide (whitelist self = [])) && negb (existsb (fun n => contains n client_ip) (whitelist self))
    then Ok (Reject (ip_rejection self))
    else if existsb (fun n => contains n client_ip) (blacklist self) then Ok (Reject (ip_rejection self))
    else Ok Continue
  end.

End plugin.

(** ** Chains of proxies *)

Lemma split_char_some c a : split_char c a <> [].
Proof. destruct a as [|x a]; cbn; [done|]. case_bool_decide; [done|]. by destruct (split_char c a). Qed.
Lemma split_char_app_list c a b : split_char c (a +:+ String c b) = (split_char c a ++ split_char c b)%list.
Proof.
  induction a as [|x a IH]; cbn; [by rewrite bool_decide_true|]. rewrite IH. case_bool_decide; [done|].
  destruct (split_char c a) eqn:E; [by apply split_char_some in E|done].
Qed.

Lemma mapM_option_app {A B} (f : A -> option B) l k :
  mapM f (l ++ k)%list = match mapM f l, mapM f k with Some x, Some y => Some (x ++ y)%list | _, _ => None end.
Proof.
  induction l as [|a l IH]; [by cbn; destruct (mapM f k)|]. change ((a :: l) ++ k)%list with (a :: (l ++ k))%list.
  cbn [mapM]. rewrite IH. destruct (f a); cbn; [|done]. destruct (mapM f l); cbn; [|done]. by destruct (mapM f k).
Qed.

Lemma parse_hops_app a b : parse_hops (a +:+ "," +:+ b) =
  match parse_hops a, parse_hops b with Some x, Some y => Some (x ++ y)%list | _, _ => None end.
Proof. unfold parse_hops. change ("," +:+ b) with (String "," b). by rewrite split_char_app_list, mapM_option_app. Qed.

Section chain.
Context `{IpNetworks} `{JsonText} `{HttpTypes}.

Lemma chain_nearest_untrusted pre ip tail (t : IpAddr -> bool) : t ip = false -> Forall (fun x => t x = true) tail ->
  client_from_proxy_chain (pre ++ ip :: tail) t = Some ip.
Proof.
  intros Hip Ht. unfold client_from_proxy_chain. rewrite rev_app_distr. cbn. rewrite <-app_assoc.
  assert (Hf : forall l, List.find (fun x => negb (t x)) (rev tail ++ l) = List.find (fun x => negb (t x)) l).
  { intros l. assert (Hr : Forall (fun x => t x = true) (rev tail)) by (by apply List.Forall_rev).
    induction Hr as [|x r Hx Hr IH]; cbn; [done|]. by rewrite Hx. }
  rewrite Hf. cbn. by rewrite Hip.
Qed.

Lemma chain_all_trusted hops (t : IpAddr -> bool) : Forall (fun x => t x = true) hops -> client_from_proxy_chain hops t = head hops.
Proof.
  intros Ht. unfold client_from_proxy_chain. assert (Hr : Forall (fun x => t x = true) (rev hops)) by (by apply List.Forall_rev).
  assert (Hf : List.find (fun x => negb (t x)) (rev hops) = None) by (induction Hr as [|x r Hx _ IH]; cbn; [done|by rewrite Hx]). by rewrite Hf.
Qed.

(** The outcome when the forwarded header is not a list of addresses. *)
Definition by_policy (self : PluginConfig) (peer : IpAddr) : Result IpAddr ClientIpError :=
  match forwarded_header_error_policy self with Direct => Ok peer | Deny => Err InvalidForwardedHeader end.


(** Who is let through.  A request passes exactly when its client address is known and lies in a
    network of the whitelist, unless that is empty, and in none of the
    blacklist; every other outcome is the configured rejection, or an error
    when the connection has no peer address. *)
Theorem ip_verdict (self : PluginConfig) (direct : option IpAddr) (req : RequestHeader) :
  match request_filter self direct req with
  | Ok Continue => exists ip, get_real_client_ip self direct req = Ok ip /\
      (whitelist self = [] \/ exists n, n ∈ whitelist self /\ contains n ip = true) /\
      forall n, n ∈ blacklist self -> contains n ip = false
  | Ok (Reject r) => r = ip_rejection self /\
      forall ip, get_real_client_ip self direct req = Ok ip ->
        (exists n, n ∈ blacklist self /\ contains n ip = true) \/
        (whitelist self <> [] /\ forall n, n ∈ whitelist self -> contains n ip = false)
  | Err _ => direct = None
  end.
Proof.
  unfold request_filter. destruct (get_real_client_ip self direct req) as [ip|[|e]] eqn:Ec.
  - assert (Hall : forall l, existsb (fun n => contains n ip) l = false -> forall n, n ∈ l -> contains n ip = false).
    { intros l Hl n Hn. destruct (contains n ip) eqn:E; [|done]. rewrite <-Hl. symmetry. apply existsb_exists. exists n.
      by split; [apply list_elem_of_In|]. }
    assert (Hex : forall l, existsb (fun n => contains n ip) l = true -> exists n, n ∈ l /\ contains n ip = true).
    { intros l (n & Hn & E)%existsb_exists. exists n. by split; [apply list_elem_of_In|]. }
    case_bool_decide as Hw; cbn; [|destruct (existsb _ (whitelist self)) eqn:Ew; cbn].
    + destruct (existsb _ (blacklist self)) eqn:Eb; [split; [done|]; intros ? [= <-]; left; by apply Hex|]. exists ip. eauto 6.
    + destruct (existsb _ (blacklist self)) eqn:Eb; [split; [done|]; intros ? [= <-]; left; by apply Hex|]. exists ip. eauto 6.
    + split; [done|]. intros ? [= <-]. right. split; [done|by apply Hall].
  - done.
  - unfold get_real_client_ip in Ec. destruct direct; [|done]. repeat case_match; done.
Qed.

End chain.

(** ** Concrete networks *)

Module ToyNetworks.
#[export] Instance networks : IpNetworks := {
  IpNetwork := IpAddr * nat;
  network_parse s := match parse_ip s with Some ip => Ok (ip, 4%nat) | None => Err "invalid address" end;
  contains n ip := match n.1, ip with
                   | V4 a, V4 b => bool_decide (take n.2 a = take n.2 b)
                   | V6 a, V6 b => bool_decide (a = b)
                   | _, _ => false
                   end;
}.
#[export] Instance json : JsonText := { json_field k v := k +:+ "=" +:+ v }.

Definition config (policy : ForwardedHeaderErrorPolicy) : PluginConfig :=
  {| whitelist := []; blacklist := [(V4 [6; 6; 6; 6], 4%nat)]; message := "no"; response_code := 403;
     trusted_proxies := [(V4 [10; 0; 0; 0], 1%nat)]; use_forwarded_headers := true; forwarded_header_error_policy := policy |}.
Definition request (h : list (string * string)) : @RequestHeader ToyHttp.http :=
  {| method := "GET"; uri := (None, "/") : @Uri ToyHttp.http; headers := h : @HeaderMap ToyHttp.http |}.
End ToyNetworks.
Import ToyHttp ToyNetworks.


(** An unparsable claim under the default policy: the check sees the proxy. *)
Example garbage_claim_passes :
  let denied := [("x-forwarded-for", "6.6.6.6")] in
  let garbled := [("x-forwarded-for", "x, 6.6.6.6")] in
  request_filter (config Direct) (Some (V4 [10; 0; 0; 1])) (request denied) = Ok (Reject (ip_rejection (config Direct))) /\
  request_filter (config Direct) (Some (V4 [10; 0; 0; 1])) (request garbled) = Ok Continue.
Proof. split; vm_compute; reflexivity. Qed.

(** A proxy that appends a header line of its own leaves the client's line first. *)
Example second_line_ignored :
  get_real_client_ip (config Deny) (Some (V4 [10; 0; 0; 1])) (request [("x-forwarded-for", "1.2.3.4"); ("x-forwarded-for", "6.6.6.6")]) =
    Ok (V4 [1; 2; 3; 4]).
Proof. vm_compute. reflexivity. Qed.

(** An address on both lists is rejected. *)
Example blacklist_wins :
  request_filter {| whitelist := [(V4 [6; 6; 6; 6], 4%nat)]; blacklist := [(V4 [6; 6; 6; 6], 4%nat)]; message := "no"; response_code := 403;
     trusted_proxies := []; use_forwarded_headers := false; forwarded_header_error_policy := Direct |} (Some (V4 [6; 6; 6; 6])) (request [])
  <> Ok Continue.
Proof. vm_compute. discriminate. Qed.
