(* ===== verification/AuthPlugins.v ===== *)
(** * Credential plugins ([key_auth.rs], [basic_auth.rs], [jwt_auth.rs] of [src/src/plugins])

    Extraction, verification and hiding of API keys, Basic credentials and JSON
    web tokens, with what they record for the shared cache ([Cache]).  SHA-256,
    Base64 and the JWT library are type classes. *)

From Stdlib Require Import ZArith Lia Ascii.
From stdpp Require Import base tactics gmap strings pretty option list.
From S2P Require Import Prelude Errors GraphStore Utf8 Hosts RequestVars Limiting Pipeline Cache.

Open Scope Z_scope.

Class AuthLib : Type := {
  sha256 : string -> string;
  b64_decode : string -> Result string string;
}.

(** [constant_time_digest_eq], the equality of two digests. *)
Definition constant_time_digest_eq (a b : string) : bool := bool_decide (a = b).

Definition printable (a : ascii) : bool :=
  between 0x20 0x7e (byte_val a) && negb (bool_decide (a = "034"%char)) && negb (bool_decide (a = "092"%char)).
Definition validate_apisix_realm (realm : string) : ProxyResult unit :=
  if (1 <=? String.length realm)%nat && (String.length realm <=? 128)%nat && str_forall printable realm then Ok ()
  else Err (Validation "realm must be 1..=128 printable ASCII characters").

(** [s[..n].eq_ignore_ascii_case(p)] with the length check before it; a header
    value that is text is ASCII, so that the slice is on a character boundary. *)
Definition has_scheme (n : nat) (p s : string) : bool :=
  (n <=? String.length s)%nat && eq_ignore_ascii_case (String.substring 0 n s) p.
Definition after_scheme (n : nat) (s : string) : string := String.substring n (String.length s - n) s.

(** The rejection of all three plugins. *)
Definition unauthorized (body challenge : string) : Rejection :=
  Limiting.with_headers [("WWW-Authenticate", challenge)] (with_content_type "text/plain" (with_body body (Rejection_new 401))).
Definition quoted (s : string) : string := String "034" (s +:+ str1 "034").

Definition without_header `{HttpTypes} (req : RequestHeader) (name : string) : RequestHeader :=
  {| method := method req; uri := uri req; headers := headers_remove (headers req) name |}.

(** ** API keys *)

Module KeyAuth.

Record PluginConfig : Type := {
  header : string;
  query : string;
  key : option string;
  keys : list string;
  hide_credentials : bool;
  realm : option string;
}.
Definition get_valid_keys (self : PluginConfig) : list string :=
  match keys self with
  | [] => match key self with Some k => [k] | None => [] end
  | _ => keys self
  end.

Definition PluginConfig_try_from (config : PluginConfig) : ProxyResult PluginConfig :=
  let? _ := match realm config with Some r => validate_apisix_realm r | None => Ok () end in
  if bool_decide (get_valid_keys config = [])
  then Err (Validation "key-auth plugin requires at least one of 'key' or 'keys' to be non-empty")
  else Ok config.

End KeyAuth.

Section plugins.
Context `{Env : CacheEnv} `{AuthLib}.

Definition secret_digest (value : string) : string := sha256 value.

Record PluginKeyAuth : Type := { key_config : KeyAuth.PluginConfig; key_digests : list string }.
Definition create_key_auth_plugin (cfg : KeyAuth.PluginConfig) : ProxyResult PluginKeyAuth :=
  let? config := KeyAuth.PluginConfig_try_from cfg in
  Ok {| key_config := config; key_digests := secret_digest <$> KeyAuth.get_valid_keys config |}.

Inductive KeySource : Type := FromHeader | FromQuery | FromNone.

Definition present_key (config : KeyAuth.PluginConfig) (req : RequestHeader) : string * KeySource :=
  match get_req_header_value req (KeyAuth.header config) with
  | Some v => (v, FromHeader)
  | None =>
    if bool_decide (KeyAuth.query config = "") then ("", FromNone)
    else match get_query_value req (KeyAuth.query config) with
         | Some v => (v, FromQuery)
         | None => ("", FromNone)
         end
  end.

(** Every digest is compared; the results are or-ed into a byte. *)
Definition is_valid_key (self : PluginKeyAuth) (provided_key : string) : bool :=
  let provided_digest := secret_digest provided_key in
  negb (fold_left (fun matched d => Z.lor matched (if constant_time_digest_eq provided_digest d then 1 else 0)) (key_digests self) 0 =? 0).

Definition key_challenge (config : KeyAuth.PluginConfig) : string :=
  match KeyAuth.realm config with
  | Some realm => "apikey realm=" +:+ quoted realm
  | None => "ApiKey error=" +:+ quoted "invalid_key"
  end.

Definition key_request_filter (self : PluginKeyAuth) (req : RequestHeader) (ctx : Context) :
    ProxyResult FilterVerdict * RequestHeader * Context :=
  let config := key_config self in
  let '(value, source) := present_key config req in
  let ctx := match source with FromNone => ctx | _ => mark_request_has_credentials ctx end in
  if bool_decide (value = "") || negb (is_valid_key self value)
  then (Ok (Reject (unauthorized "Invalid user authorization" (key_challenge config))), req, ctx)
  else
    let ctx := note_request_credential ctx value in
    if KeyAuth.hide_credentials config then
      match source with
      | FromHeader => (Ok Continue, without_header req (KeyAuth.header config), ctx)
      | FromQuery =>
        match remove_query_from_header req (KeyAuth.query config) with
        | Ok req => (Ok Continue, req, ctx)
        | Err e => (Err (Validation ("Failed to hide API key query credential: " +:+ e)), req, ctx)
        end
      | FromNone => (Ok Continue, req, ctx)
      end
    else (Ok Continue, req, ctx).

(** ** Basic credentials *)

Record BasicConfig : Type := {
  username : string;
  password : string;
  basic_hide_credentials : bool;
  basic_realm : option string;
}.
Record PluginBasicAuth : Type := { basic_config : BasicConfig; username_digest : string; password_digest : string }.

(** [length(min = 1)] on both, then the realm. *)
Definition create_basic_auth_plugin (cfg : BasicConfig) : ProxyResult PluginBasicAuth :=
  let? _ := if bool_decide (username cfg = "") || bool_decide (password cfg = "") then Err (Validation "length") else Ok () in
  let? _ := match basic_realm cfg with Some r => validate_apisix_realm r | None => Ok () end in
  Ok {| basic_config := cfg; username_digest := secret_digest (username cfg); password_digest := secret_digest (password cfg) |}.

Definition validate_credentials (self : PluginBasicAuth) (auth_value : string) : bool :=
  if negb (has_scheme 6 "basic " auth_value) then false
  else match b64_decode (after_scheme 6 auth_value) with
       | Err _ => false
       | Ok decoded_bytes =>
         if negb (utf8_valid decoded_bytes) then false
         else match split_once ":" decoded_bytes with
              | None => false
              | Some (user, pass) =>
                constant_time_digest_eq (secret_digest user) (username_digest self) &&
                constant_time_digest_eq (secret_digest pass) (password_digest self)
              end
       end.

Definition basic_challenge (config : BasicConfig) : string :=
  "Basic realm=" +:+ quoted (default "pingsix" (basic_realm config)).

Definition basic_request_filter (self : PluginBasicAuth) (req : RequestHeader) (ctx : Context) :
    ProxyResult FilterVerdict * RequestHeader * Context :=
  let auth_header := get_req_header_value req "authorization" in
  let ctx := match auth_header with Some _ => mark_request_has_credentials ctx | None => ctx end in
  match auth_header with
  | Some credential =>
    if validate_credentials self credential then
      let ctx := note_request_credential ctx credential in
      if basic_hide_credentials (basic_config self) then (Ok Continue, without_header req "authorization", ctx)
      else (Ok Continue, req, ctx)
    else (Ok (Reject (unauthorized "Invalid user authorization" (basic_challenge (basic_config self)))), req, ctx)
  | None => (Ok (Reject (unauthorized "Invalid user authorization" (basic_challenge (basic_config self)))), req, ctx)
  end.

End plugins.

(** ** JSON web tokens *)

Inductive Algorithm : Type := HS256 | HS384 | HS512 | RS256 | RS384 | RS512 | PS256 | PS384 | PS512 | ES256 | ES384 | EdDSA.
Inductive JwtErrorKind : Type :=
| InvalidToken | InvalidSignature | ExpiredSignature | InvalidIssuer | InvalidAudience | InvalidSubject | ImmatureSignature | OtherKind.

(** The library's [Validation]: the accepted algorithm, the fields the source
    writes, and the check of [exp], which it leaves on. *)
Record Validation : Type := {
  v_algorithm : Algorithm;
  leeway : Z;
  v_iss : option (list string);
  v_aud : option (list string);
  required_spec_claims : gset string;
  validate_exp : bool;
  validate_nbf : bool;
}.
#[export] Instance eta_Validation : Eta Validation := fun v =>
  Build_Validation (v_algorithm v) (leeway v) (v_iss v) (v_aud v) (required_spec_claims v) (validate_exp v) (validate_nbf v).

Class JwtLib : Type := {
  DecodingKey : Type;
  from_secret : string -> DecodingKey;
  from_rsa_pem : string -> Result DecodingKey string;
  from_ec_pem : string -> Result DecodingKey string;
  from_ed_pem : string -> Result DecodingKey string;
  Validation_new : Algorithm -> Validation;
  Extra : Type;
  jwt_decode : string -> DecodingKey -> Validation -> Result Extra JwtErrorKind;
}.

(** [Validation::new(alg)], as documented: only [alg] is accepted, [exp] is
    required and checked with a minute's leeway, [nbf] is not checked, and any
    issuer and audience will do. *)
Class JwtLaws `{JwtLib} : Prop :=
  validation_new a : Validation_new a =
    {| v_algorithm := a; leeway := 60; v_iss := None; v_aud := None; required_spec_claims := {["exp"]}; validate_exp := true; validate_nbf := false |}.

Module JwtAuth.

Record PluginConfig : Type := {
  header : string;
  query : string;
  cookie : string;
  hide_credentials : bool;
  store_in_ctx : bool;
  realm : option string;
  claims_to_verify : option (list string);
  secret : option string;
  algorithm : Algorithm;
  base64_secret : bool;
  lifetime_grace_period : Z;
  public_key : option string;
  iss : option string;
  aud : option string;
  required_claims : list string;
}.

(** Each entry is one of the two claims, and new among those before it. *)
Fixpoint claims_ok (before : list string) (claims : list string) : ProxyResult unit :=
  match claims with
  | [] => Ok ()
  | claim :: claims =>
    if negb (bool_decide (claim = "exp") || bool_decide (claim = "nbf"))
    then Err (Errors.Validation "claims_to_verify entries must be exp or nbf")
    else if bool_decide (claim ∈ before) then Err (Errors.Validation "claims_to_verify entries must be unique")
    else claims_ok (claim :: before) claims
  end.
Definition validate_claims_to_verify (claims : list string) : ProxyResult unit := claims_ok [] claims.

Definition PluginConfig_try_from (config : PluginConfig) : ProxyResult PluginConfig :=
  let? _ := match claims_to_verify config with Some claims => validate_claims_to_verify claims | None => Ok () end in
  let? _ := match realm config with Some r => validate_apisix_realm r | None => Ok () end in
  Ok config.

Definition challenge_for (config : PluginConfig) (error_msg : string) : string :=
  match realm config with
  | Some realm => "Bearer realm=" +:+ quoted realm
  | None => "Bearer error=" +:+ quoted "invalid_token" +:+ ", error_description=" +:+ quoted error_msg
  end.

End JwtAuth.

Section jwt.
Context `{Env : CacheEnv} `{AuthLib} `{JwtLib}.

Definition get_decoding_key (self : JwtAuth.PluginConfig) : Result DecodingKey string :=
  match JwtAuth.algorithm self with
  | HS256 | HS384 | HS512 =>
    let? secret := ok_or "Secret is required for HMAC algorithms (HS256, HS384, HS512)" (JwtAuth.secret self) in
    let? key := if JwtAuth.base64_secret self
                then map_err (fun e => "Failed to decode base64 secret: " +:+ e) (b64_decode secret) else Ok secret in
    Ok (from_secret key)
  | RS256 | RS384 | RS512 | PS256 | PS384 | PS512 =>
    let? k := ok_or "Public key is required for RSA algorithms (RS256, RS384, RS512, PS256, PS384, PS512)" (JwtAuth.public_key self) in
    map_err (fun e => "Failed to parse RSA public key: " +:+ e) (from_rsa_pem k)
  | ES256 | ES384 =>
    let? k := ok_or "Public key is required for ECDSA algorithms (ES256, ES384)" (JwtAuth.public_key self) in
    map_err (fun e => "Failed to parse ECDSA public key: " +:+ e) (from_ec_pem k)
  | EdDSA =>
    let? k := ok_or "Public key is required for EdDSA" (JwtAuth.public_key self) in
    map_err (fun e => "Failed to parse EdDSA public key: " +:+ e) (from_ed_pem k)
  end.

(** Requiring a claim; [nbf] also turns its check on. *)
Definition verify_claim (v : Validation) (claim : string) : Validation :=
  let v := v <| required_spec_claims := {[claim]} ∪ required_spec_claims v |> in
  if bool_decide (claim = "nbf") then v <| validate_nbf := true |> else v.
Definition require_claim (v : Validation) (claim : string) : Validation :=
  v <| required_spec_claims := {[claim]} ∪ required_spec_claims v |>.

Definition build_validation (config : JwtAuth.PluginConfig) : Validation :=
  let v := (Validation_new (JwtAuth.algorithm config)) <| leeway := JwtAuth.lifetime_grace_period config |> in
  let v := match JwtAuth.iss config with Some iss => v <| v_iss := Some [iss] |> | None => v end in
  let v := match JwtAuth.aud config with Some aud => v <| v_aud := Some [aud] |> | None => v end in
  let v := fold_left require_claim (JwtAuth.required_claims config) v in
  match JwtAuth.claims_to_verify config with Some claims => fold_left verify_claim claims v | None => v end.

Record PluginJWTAuth : Type := { jwt_config : JwtAuth.PluginConfig; decoding_key : DecodingKey; validation : Validation }.
Definition create_jwt_auth_plugin (cfg : JwtAuth.PluginConfig) : ProxyResult PluginJWTAuth :=
  let? config := JwtAuth.PluginConfig_try_from cfg in
  let? key := map_err (fun e => Configuration ("Failed to create JWT decoding key: " +:+ e)) (get_decoding_key config) in
  Ok {| jwt_config := config; decoding_key := key; validation := build_validation config |}.

(** The context, with the two values the plugin sets in it. *)
Record JwtContext : Type := { cache_ctx : Context; payload : option Extra; clear_cookie : option string }.

(** A token found in a carrier, the request it leaves, and the cookie to clear. *)
Definition extract_from_header (config : JwtAuth.PluginConfig) (req : RequestHeader) : option string * RequestHeader :=
  match get_req_header_value req (JwtAuth.header config) with
  | Some v =>
    (Some (if has_scheme 7 "bearer " v then after_scheme 7 v else v),
     if JwtAuth.hide_credentials config then without_header req (JwtAuth.header config) else req)
  | None => (None, req)
  end.

Definition extract_token_from_query (config : JwtAuth.PluginConfig) (req : RequestHeader) : option string :=
  if bool_decide (JwtAuth.query config = "") then None else get_query_value req (JwtAuth.query config).

Definition extract_from_query (config : JwtAuth.PluginConfig) (req : RequestHeader) : ProxyResult (option string * RequestHeader) :=
  match extract_token_from_query config req with
  | Some t =>
    if JwtAuth.hide_credentials config then
      let? req := map_err (fun e => Errors.Validation ("Failed to hide JWT query credential: " +:+ e))
                    (remove_query_from_header req (JwtAuth.query config)) in
      Ok (Some t, req)
    else Ok (Some t, req)
  | None => Ok (None, req)
  end.

Definition extract_from_cookie (config : JwtAuth.PluginConfig) (req : RequestHeader) (ctx : JwtContext) :
    ProxyResult (option string * RequestHeader * JwtContext) :=
  match get_cookie_value req (JwtAuth.cookie config) with
  | Some t =>
    if JwtAuth.hide_credentials config then
      let? req := map_err (fun e => Errors.Validation ("Failed to hide JWT cookie credential: " +:+ ProxyError_to_string e))
                    (remove_cookie_from_header req (JwtAuth.cookie config)) in
      Ok (Some t, req, {| cache_ctx := cache_ctx ctx; payload := payload ctx; clear_cookie := Some (JwtAuth.cookie config) |})
    else Ok (Some t, req, ctx)
  | None => Ok (None, req, ctx)
  end.

Definition extract_token (config : JwtAuth.PluginConfig) (req : RequestHeader) (ctx : JwtContext) :
    ProxyResult (option string * RequestHeader * JwtContext) :=
  match extract_from_header config req with
  | (Some t, req) => Ok (Some t, req, ctx)
  | (None, req) =>
    match extract_from_query config req with
    | Err e => Err e
    | Ok (Some t, req) => Ok (Some t, req, ctx)
    | Ok (None, req) => extract_from_cookie config req ctx
    end
  end.

Definition jwt_error_msg (e : JwtErrorKind) : string :=
  match e with
  | InvalidToken => "Invalid token format" | InvalidSignature => "Invalid signature" | ExpiredSignature => "Token expired"
  | InvalidIssuer => "Invalid issuer" | InvalidAudience => "Invalid audience" | InvalidSubject => "Invalid subject"
  | ImmatureSignature => "Token not yet valid" | OtherKind => "Invalid token"
  end.

(** A failed extraction ends the request with its error. *)
Definition jwt_request_filter (self : PluginJWTAuth) (req : RequestHeader) (ctx : JwtContext) :
    ProxyResult FilterVerdict * RequestHeader * JwtContext :=
  let config := jwt_config self in
  match extract_token config req ctx with
  | Err e => (Err e, req, ctx)
  | Ok (None, req, ctx) => (Ok (Reject (unauthorized "Token not found" (JwtAuth.challenge_for config "Token not found"))), req, ctx)
  | Ok (Some token, req, ctx) =>
    let marked := mark_request_has_credentials (cache_ctx ctx) in
    match jwt_decode token (decoding_key self) (validation self) with
    | Err e =>
      (Ok (Reject (unauthorized (jwt_error_msg e) (JwtAuth.challenge_for config (jwt_error_msg e)))), req,
       {| cache_ctx := marked; payload := payload ctx; clear_cookie := clear_cookie ctx |})
    | Ok extra =>
      (Ok Continue, req,
       {| cache_ctx := note_request_credential marked token;
          payload := if JwtAuth.store_in_ctx config then Some extra else payload ctx; clear_cookie := clear_cookie ctx |})
    end
  end.

(** The Set-Cookie value that [response_filter] appends. *)
Definition jwt_clear_cookie_header (ctx : JwtContext) : option string :=
  (fun name => name +:+ "=; Max-Age=0; Path=/; HttpOnly") <$> clear_cookie ctx.

End jwt.

(** ** Only the configured credentials pass *)

Section gates.
Context `{Env : CacheEnv} `{AuthLib} `{!HttpLaws}.

Lemma lor_fold f (l : list string) m : m = 0 \/ m = 1 ->
  negb (fold_left (fun m d => Z.lor m (if f d : bool then 1 else 0)) l m =? 0) = negb (m =? 0) || existsb f l.
Proof.
  revert m; induction l as [|d l IH]; intros m Hm; cbn; [by rewrite orb_false_r|].
  rewrite IH by (destruct (f d), Hm as [-> | ->]; auto). destruct (f d), Hm as [-> | ->]; done.
Qed.

(** No two of the texts compared have the same digest. *)
Definition no_collision (provided : string) (l : list string) : Prop :=
  forall k, k ∈ l -> secret_digest provided = secret_digest k -> provided = k.

Lemma is_valid_key_spec cfg self provided : create_key_auth_plugin cfg = Ok self ->
  no_collision provided (KeyAuth.get_valid_keys cfg) ->
  key_config self = cfg /\ is_valid_key self provided = bool_decide (provided ∈ KeyAuth.get_valid_keys cfg).
Proof.
  unfold create_key_auth_plugin, KeyAuth.PluginConfig_try_from. intros Hc Hn.
  assert (self = {| key_config := cfg; key_digests := secret_digest <$> KeyAuth.get_valid_keys cfg |}) as ->.
  { destruct (match KeyAuth.realm cfg with Some r => _ | None => _ end); cbn in Hc; [|done]. case_bool_decide; cbn in Hc; congruence. }
  split; [done|]. unfold is_valid_key. rewrite lor_fold by auto. cbn [negb Z.eqb orb key_digests].
  apply eq_iff_eq_true. rewrite bool_decide_eq_true, existsb_exists. split.
  - intros (d & Hd & E). apply list_elem_of_In, list_elem_of_fmap in Hd as (k & -> & Hk). apply bool_decide_eq_true in E.
    by rewrite (Hn k Hk E).
  - intros Hk. exists (secret_digest provided). split; [apply list_elem_of_In, list_elem_of_fmap; eauto|by apply bool_decide_eq_true].
Qed.

Lemma note_marks ctx c : has_credentials (note_request_credential (mark_request_has_credentials ctx) c) = true.
Proof. done. Qed.

Lemma without_header_gone req name : get_req_header_value (without_header req name) name = None.
Proof. unfold get_req_header_value, without_header. cbn. by rewrite get_all_remove, bool_decide_true. Qed.

(** Only configured keys pass.  A request passes the key plugin exactly when the key it presents, in the
    configured header or else in the configured query parameter, is one of the
    configured keys and not empty; it is then marked and noted for the shared
    cache, and with [hide_credentials] the carrier cannot be read from the
    request any more while everything else of it is kept.  Otherwise it is
    answered 401 and left unchanged; the only error is a query that cannot be
    rebuilt.  SHA-256 is assumed free of collisions between the presented key
    and the configured ones. *)
Theorem key_auth_gate cfg self req ctx r req' ctx' :
  create_key_auth_plugin cfg = Ok self -> starts_with (uri_path (uri req)) "/" = true ->
  no_collision (present_key cfg req).1 (KeyAuth.get_valid_keys cfg) ->
  key_request_filter self req ctx = (r, req', ctx') ->
  let presented := (present_key cfg req).1 in
  match r with
  | Ok Continue =>
    presented <> "" /\ presented ∈ KeyAuth.get_valid_keys cfg /\ has_credentials ctx' = true /\
    noted_credential_digest ctx' = Some (sha256_hex (noted_bytes (noted_credential_digest ctx) presented)) /\
    (if KeyAuth.hide_credentials cfg then
       match (present_key cfg req).2 with
       | FromHeader => get_req_header_value req' (KeyAuth.header cfg) = None /\ uri req' = uri req /\
           forall m, header_name m <> header_name (KeyAuth.header cfg) -> headers_get_all (headers req') m = headers_get_all (headers req) m
       | _ => get_query_value req' (KeyAuth.query cfg) = None /\ headers req' = headers req
       end
     else req' = req)
  | Ok (Reject r) => (presented = "" \/ presented ∉ KeyAuth.get_valid_keys cfg) /\ status r = 401 /\ req' = req
  | Err _ => (present_key cfg req).2 = FromQuery /\ is_ok (remove_query_from_header req (KeyAuth.query cfg)) = false
  end.
Proof.
  intros Hc Hu Hn. destruct (is_valid_key_spec _ _ _ Hc Hn) as [Ecfg Hv]. unfold key_request_filter. rewrite Ecfg.
  destruct (present_key cfg req) as [v src] eqn:Ep. cbn [fst snd] in *. rewrite Hv. clear Hv Hn Hc.
  case_bool_decide as Hv0; cbn [orb]; [intros [= <- <- _]; auto|].
  case_bool_decide as Hk; cbn [negb]; [|intros [= <- <- _]; auto].
  assert (Hsrc : src <> FromNone).
  { intros ->. unfold present_key in Ep. repeat case_match; congruence. }
  destruct (KeyAuth.hide_credentials cfg); [|intros [= <- <- <-]; by destruct src].
  destruct src; [| |done].
  - intros [= <- <- <-]. split_and!; try done; [apply without_header_gone|]. intros m Hm. cbn.
    by rewrite get_all_remove, bool_decide_false.
  - destruct (remove_query_from_header req (KeyAuth.query cfg)) as [rq|e] eqn:Er; intros [= <- <- <-]; [|auto].
    destruct (remove_query_spec _ _ _ Hu Er) as (Hg & _ & _ & Hh & _). done.
Qed.

(** Only the configured user passes.  A request passes the Basic plugin exactly when its Authorization header is
    the scheme in any case followed by the Base64 text of the configured user
    name and password joined by a colon, the user name ending at the first
    colon; with [hide_credentials] the header is gone from the request. *)
Theorem basic_auth_gate cfg self req ctx r req' ctx' :
  create_basic_auth_plugin cfg = Ok self ->
  (forall s, secret_digest s = secret_digest (username cfg) -> s = username cfg) ->
  (forall s, secret_digest s = secret_digest (password cfg) -> s = password cfg) ->
  basic_request_filter self req ctx = (r, req', ctx') ->
  let valid := exists v bytes, get_req_header_value req "authorization" = Some v /\ has_scheme 6 "basic " v = true /\
    b64_decode (after_scheme 6 v) = Ok bytes /\ utf8_valid bytes = true /\ split_once ":" bytes = Some (username cfg, password cfg) in
  match r with
  | Ok Continue => valid /\ has_credentials ctx' = true /\
      (if basic_hide_credentials cfg then get_req_header_value req' "authorization" = None else req' = req)
  | Ok (Reject r) => ~ valid /\ status r = 401 /\ req' = req
  | Err _ => False
  end.
Proof.
  intros Hc Hun Hpw. assert (self = {| basic_config := cfg; username_digest := secret_digest (username cfg); password_digest := secret_digest (password cfg) |}) as ->.
  { unfold create_basic_auth_plugin in Hc. destruct (bool_decide _ || _); cbn in Hc; [done|].
    destruct (match basic_realm cfg with Some r => _ | None => _ end); cbn in Hc; congruence. }
  unfold basic_request_filter. destruct (get_req_header_value req "authorization") as [v|] eqn:Ev.
  2: { intros [= <- <- _]. cbn. split_and!; [|done|done]. by intros (? & ? & ? & _). }
  assert (Hval : validate_credentials {| basic_config := cfg; username_digest := secret_digest (username cfg);
      password_digest := secret_digest (password cfg) |} v = true <->
    exists bytes, has_scheme 6 "basic " v = true /\ b64_decode (after_scheme 6 v) = Ok bytes /\ utf8_valid bytes = true /\
      split_once ":" bytes = Some (username cfg, password cfg)).
  { unfold validate_credentials, constant_time_digest_eq. destruct (has_scheme _ _ _); cbn; [|naive_solver].
    destruct (b64_decode _) as [bytes|]; [|naive_solver]. destruct (utf8_valid bytes) eqn:Eu; cbn; [|naive_solver].
    destruct (split_once ":" bytes) as [[u p]|] eqn:Es; [|naive_solver].
    rewrite andb_true_iff, !bool_decide_eq_true. naive_solver. }
  destruct (validate_credentials _ v) eqn:Evc; cbn.
  - destruct (proj1 Hval eq_refl) as (bytes & Hb). destruct (basic_hide_credentials cfg); intros [= <- <- <-];
      (split; [by exists v, bytes|split; [done|]]); [apply without_header_gone|done].
  - intros [= <- <- _]. split_and!; [|done|done]. intros (v' & bytes & [= <-] & Hb). by assert (false = true) by (apply Hval; eauto).
Qed.

End gates.

Section jwt_gate.
Context `{Env : CacheEnv} `{AuthLib} `{JwtLib} `{!HttpLaws}.

Inductive Carrier : Type := InHeader | InQuery | InCookie.

(** Where the token of a request is, and its text. *)
Definition token_of (config : JwtAuth.PluginConfig) (req : RequestHeader) : option (Carrier * string) :=
  match get_req_header_value req (JwtAuth.header config) with
  | Some v => Some (InHeader, if has_scheme 7 "bearer " v then after_scheme 7 v else v)
  | None =>
    match extract_token_from_query config req with
    | Some t => Some (InQuery, t)
    | None => (fun t => (InCookie, t)) <$> get_cookie_value req (JwtAuth.cookie config)
    end
  end.

Definition carrier_empty (config : JwtAuth.PluginConfig) (c : Carrier) (req : RequestHeader) : Prop :=
  match c with
  | InHeader => get_req_header_value req (JwtAuth.header config) = None
  | InQuery => get_query_value req (JwtAuth.query config) = None
  | InCookie => get_cookie_value req (JwtAuth.cookie config) = None
  end.

Lemma extract_token_spec config req ctx : starts_with (uri_path (uri req)) "/" = true ->
  match extract_token config req ctx with
  | Ok (t, req', ctx') => snd <$> token_of config req = t /\ cache_ctx ctx' = cache_ctx ctx /\ payload ctx' = payload ctx /\
      (forall c tok, token_of config req = Some (c, tok) ->
         if JwtAuth.hide_credentials config then carrier_empty config c req' else req' = req)
  | Err _ => JwtAuth.hide_credentials config = true /\ exists c tok, token_of config req = Some (c, tok) /\ c <> InHeader
  end.
Proof.
  intros Hu. unfold extract_token, extract_from_header, extract_from_query, extract_from_cookie, token_of.
  destruct (get_req_header_value req (JwtAuth.header config)) as [v|] eqn:Eh.
  { cbn. split_and!; try done. intros c tok [= <- _]. destruct (JwtAuth.hide_credentials config); [apply without_header_gone|done]. }
  destruct (extract_token_from_query config req) as [t|] eqn:Eq.
  { destruct (JwtAuth.hide_credentials config).
    - destruct (remove_query_from_header _ _) as [rq|e] eqn:Er; cbn; [|split; [done|]; by exists InQuery, t].
      destruct (remove_query_spec _ _ _ Hu Er) as (Hg & _). split_and!; try done. by intros c tok [= <- _].
    - split_and!; try done. }
  destruct (get_cookie_value req (JwtAuth.cookie config)) as [t|] eqn:Ec; [|done].
  destruct (JwtAuth.hide_credentials config).
  - destruct (remove_cookie_from_header _ _) as [rq|e] eqn:Er; cbn; [|split; [done|]; by exists InCookie, t].
    destruct (remove_cookie_spec _ _ _ Er) as (Hg & _). split_and!; try done. by intros c tok [= <- _].
  - split_and!; try done.
Qed.

Lemma require_claims_spec l v : fold_left require_claim l v = v <| required_spec_claims := list_to_set l ∪ required_spec_claims v |>.
Proof.
  revert v; induction l as [|c l IH]; intros v; cbn.
  - destruct v. cbn. by rewrite (left_id_L ∅ (∪)).
  - rewrite IH. destruct v. unfold require_claim. cbn. f_equal. set_solver.
Qed.
Lemma verify_claims_spec l v : fold_left verify_claim l v =
  v <| required_spec_claims := list_to_set l ∪ required_spec_claims v |> <| validate_nbf := validate_nbf v || bool_decide ("nbf" ∈ l) |>.
Proof.
  revert v; induction l as [|c l IH]; intros v; cbn.
  - destruct v. cbn. rewrite (left_id_L ∅ (∪)). by rewrite orb_false_r.
  - rewrite IH. unfold verify_claim. destruct v. cbn. destruct (decide (c = "nbf")) as [->|Hc].
    + rewrite bool_decide_true by done. rewrite (bool_decide_true ("nbf" ∈ "nbf" :: l)), orb_true_r by set_solver. cbn. f_equal. set_solver.
    + rewrite bool_decide_false by done. cbn. f_equal; [set_solver|]. f_equal. apply bool_decide_ext. set_solver.
Qed.

(** The validation a configuration asks for. *)
Definition wanted_validation (cfg : JwtAuth.PluginConfig) : Validation := {|
  v_algorithm := JwtAuth.algorithm cfg;
  leeway := JwtAuth.lifetime_grace_period cfg;
  v_iss := (fun i => [i]) <$> JwtAuth.iss cfg;
  v_aud := (fun a => [a]) <$> JwtAuth.aud cfg;
  required_spec_claims := {["exp"]} ∪ list_to_set (JwtAuth.required_claims cfg) ∪ list_to_set (default [] (JwtAuth.claims_to_verify cfg));
  validate_exp := true;
  validate_nbf := bool_decide ("nbf" ∈ default [] (JwtAuth.claims_to_verify cfg));
|}.

(** The key a configuration names: the shared secret for the HMAC algorithms
    (decoded when it is in base 64), the public key for the others. *)
Definition configured_key (cfg : JwtAuth.PluginConfig) (key : DecodingKey) : Prop :=
  match JwtAuth.algorithm cfg with
  | HS256 | HS384 | HS512 => exists s, JwtAuth.secret cfg = Some s /\
      exists bytes, (if JwtAuth.base64_secret cfg then b64_decode s = Ok bytes else bytes = s) /\ key = from_secret bytes
  | ES256 | ES384 => exists pem, JwtAuth.public_key cfg = Some pem /\ from_ec_pem pem = Ok key
  | EdDSA => exists pem, JwtAuth.public_key cfg = Some pem /\ from_ed_pem pem = Ok key
  | _ => exists pem, JwtAuth.public_key cfg = Some pem /\ from_rsa_pem pem = Ok key
  end.

Lemma get_decoding_key_spec cfg key : get_decoding_key cfg = Ok key -> configured_key cfg key.
Proof.
  assert (Hpem : forall (parse : string -> Result DecodingKey string) err (msg : string -> string), (let? k := ok_or err (JwtAuth.public_key cfg) in map_err msg (parse k)) = Ok key ->
    exists pem, JwtAuth.public_key cfg = Some pem /\ parse pem = Ok key).
  { intros parse err msg. destruct (JwtAuth.public_key cfg) as [pem|]; [|done]. cbn. intros Hk. exists pem. split; [done|]. by destruct (parse pem); [injection Hk as ->|]. }
  unfold get_decoding_key, configured_key. destruct (JwtAuth.algorithm cfg); try (by apply Hpem).
  all: destruct (JwtAuth.secret cfg) as [s|]; cbn [ok_or and_then]; [|done]; intros (bytes & Hb & [= <-])%and_then_ok; exists s; split; [done|]; exists bytes.
  all: destruct (JwtAuth.base64_secret cfg); cbn in Hb; (split; [|done]); [by destruct (b64_decode s); [injection Hb as ->|]|by injection Hb as ->].
Qed.

Lemma build_validation_spec `{!JwtLaws} cfg : build_validation cfg = wanted_validation cfg.
Proof.
  unfold build_validation, wanted_validation. cbv zeta. rewrite validation_new, require_claims_spec.
  destruct (JwtAuth.claims_to_verify cfg) as [l|]; rewrite ?verify_claims_spec; destruct (JwtAuth.iss cfg), (JwtAuth.aud cfg); cbn; f_equal; set_solver.
Qed.

(** C25.  Only verified tokens pass.  A request passes the JWT plugin exactly
    when it carries a token, in the configured header (with or without the
    Bearer scheme), else the query, else the cookie, that the library verifies
    with the configured key and exactly the configured validation: the
    configured algorithm and no other, the configured issuer, audience and
    grace period, [exp] required and checked, every listed claim required, and
    [nbf] checked when it is to be verified.  The request is then marked and
    noted for the shared cache, and with [hide_credentials] the carrier is
    empty afterwards.  Otherwise it is answered 401, or ends with the error of
    rebuilding the query or cookie it hides. *)
Theorem jwt_gate `{!JwtLaws} cfg self req ctx r req' ctx' :
  create_jwt_auth_plugin cfg = Ok self -> starts_with (uri_path (uri req)) "/" = true ->
  jwt_request_filter self req ctx = (r, req', ctx') ->
  exists key, configured_key cfg key /\
  let v := {|
    v_algorithm := JwtAuth.algorithm cfg;
    leeway := JwtAuth.lifetime_grace_period cfg;
    v_iss := (fun i => [i]) <$> JwtAuth.iss cfg;
    v_aud := (fun a => [a]) <$> JwtAuth.aud cfg;
    required_spec_claims := {["exp"]} ∪ list_to_set (JwtAuth.required_claims cfg) ∪ list_to_set (default [] (JwtAuth.claims_to_verify cfg));
    validate_exp := true;
    validate_nbf := bool_decide ("nbf" ∈ default [] (JwtAuth.claims_to_verify cfg)) |} in
  match r with
  | Ok Continue => exists c t extra, token_of cfg req = Some (c, t) /\ jwt_decode t key v = Ok extra /\
      has_credentials (cache_ctx ctx') = true /\
      (if JwtAuth.hide_credentials cfg then carrier_empty cfg c req' else req' = req) /\
      payload ctx' = (if JwtAuth.store_in_ctx cfg then Some extra else payload ctx)
  | Ok (Reject r) => status r = 401 /\ forall c t, token_of cfg req = Some (c, t) -> is_ok (jwt_decode t key v) = false
  | Err _ => JwtAuth.hide_credentials cfg = true /\ exists c t, token_of cfg req = Some (c, t) /\ c <> InHeader
  end.
Proof.
  intros Hc Hu. assert (exists key, get_decoding_key cfg = Ok key /\ self = {| jwt_config := cfg; decoding_key := key; validation := build_validation cfg |})
    as (key & Hk & ->).
  { unfold create_jwt_auth_plugin, JwtAuth.PluginConfig_try_from in Hc.
    destruct (match JwtAuth.claims_to_verify cfg with Some _ => _ | None => _ end); cbn in Hc; [|done].
    destruct (match JwtAuth.realm cfg with Some _ => _ | None => _ end); cbn in Hc; [|done].
    destruct (get_decoding_key cfg) as [key|]; cbn in Hc; [|done]. injection Hc as <-. eauto. }
  intros Hf. exists key. split; [by apply get_decoding_key_spec|]. fold (wanted_validation cfg). rewrite <-build_validation_spec. cbv zeta.
  unfold jwt_request_filter in Hf. cbn [jwt_config decoding_key AuthPlugins.validation] in Hf.
  pose proof (extract_token_spec cfg req ctx Hu) as Ht. destruct (extract_token cfg req ctx) as [[[[t|] rq] cx]|e].
  - destruct Ht as (Et & Hcx & Hp & Hcar). destruct (token_of cfg req) as [[c t']|] eqn:Etok; [|done]. injection Et as ->.
    cbn in Hf. destruct (jwt_decode t key (build_validation cfg)) as [extra|e] eqn:Ed; injection Hf as <- <- <-.
    + exists c, t, extra. split_and!; try done; [by apply (Hcar c t)|cbn; by rewrite Hp].
    + split; [done|]. intros c' t' [= <- <-]. by rewrite Ed.
  - destruct Ht as (Et & _). injection Hf as <- <- <-. split; [done|]. intros c t Etok. by rewrite Etok in Et.
  - by injection Hf as <- _ _.
Qed.

End jwt_gate.

(** ** Concrete requests *)

Module ToyAuth.
Import ToyHttp.
#[export] Instance lib : AuthLib := { sha256 s := s; b64_decode s := Ok s }.
#[export] Instance jwt : JwtLib := {
  DecodingKey := string;
  from_secret k := k;
  from_rsa_pem k := Ok k; from_ec_pem k := Ok k; from_ed_pem k := Ok k;
  Validation_new a := {| v_algorithm := a; leeway := 60; v_iss := None; v_aud := None; required_spec_claims := {["exp"]}; validate_exp := true; validate_nbf := false |};
  Extra := string;
  jwt_decode t k v := if starts_with t k then Ok t else Err InvalidSignature;
}.
#[export] Instance jwt_laws : JwtLaws.
Proof. by intros a. Defined.
Definition keys : KeyAuth.PluginConfig :=
  {| KeyAuth.header := "apikey"; KeyAuth.query := "key"; KeyAuth.key := None; KeyAuth.keys := ["k1"; "k2"];
     KeyAuth.hide_credentials := true; KeyAuth.realm := None |}.
Definition basic : BasicConfig :=
  {| username := "ann"; password := "p:w"; basic_hide_credentials := true; basic_realm := None |}.
Definition tokens : JwtAuth.PluginConfig :=
  {| JwtAuth.header := "authorization"; JwtAuth.query := ""; JwtAuth.cookie := "jwt"; JwtAuth.hide_credentials := true;
     JwtAuth.store_in_ctx := true; JwtAuth.realm := None; JwtAuth.claims_to_verify := Some ["nbf"]; JwtAuth.secret := Some "key";
     JwtAuth.algorithm := HS256; JwtAuth.base64_secret := false; JwtAuth.lifetime_grace_period := 0; JwtAuth.public_key := None;
     JwtAuth.iss := Some "me"; JwtAuth.aud := None; JwtAuth.required_claims := ["sub"] |}.
Definition ctx : JwtContext := {| cache_ctx := ToyCache.fresh; payload := None; clear_cookie := None |}.
End ToyAuth.
Import ToyHttp ToyCache ToyAuth.

Lemma key_auth_gate_witness :
  let req := ToyCache.get "/a?key=k2&x=1" [("host", "h")] in
  exists self req' ctx', create_key_auth_plugin keys = Ok self /\ key_request_filter self req fresh = (Ok Continue, req', ctx') /\
    get_query_value req' "key" = None /\ has_credentials ctx' = true.
Proof.
  intros req. destruct (create_key_auth_plugin keys) as [self|] eqn:Ec; [|vm_compute in Ec; discriminate].
  destruct (key_request_filter self req fresh) as [[r req'] ctx'] eqn:Ef. exists self, req', ctx'.
  assert (Hr : match r with Ok Continue => True | _ => False end).
  { assert (Hr : match match create_key_auth_plugin keys with Ok s => (key_request_filter s req fresh).1.1 | Err e => Err e end with
      Ok Continue => True | _ => False end) by (vm_compute; exact I). rewrite Ec, Ef in Hr. exact Hr. }
  destruct r as [[|rj]|]; [|destruct Hr..].
  pose proof (key_auth_gate keys self req fresh (Ok Continue) req' ctx' Ec eq_refl (fun k _ H => H) Ef) as (_ & _ & Hc & _ & Hq).
  split; [reflexivity|]. split; [exact Ef|]. split; [exact (proj1 Hq)|exact Hc].
Defined.

Lemma basic_auth_gate_witness :
  let req := ToyCache.get "/a" [("authorization", "BASIC ann:p:w")] in
  exists self req' ctx', create_basic_auth_plugin basic = Ok self /\ basic_request_filter self req fresh = (Ok Continue, req', ctx') /\
    get_req_header_value req' "authorization" = None.
Proof.
  intros req. destruct (create_basic_auth_plugin basic) as [self|] eqn:Ec; [|vm_compute in Ec; discriminate].
  destruct (basic_request_filter self req fresh) as [[r req'] ctx'] eqn:Ef. exists self, req', ctx'.
  assert (Hr : match r with Ok Continue => True | _ => False end).
  { assert (Hr : match match create_basic_auth_plugin basic with Ok s => (basic_request_filter s req fresh).1.1 | Err e => Err e end with
      Ok Continue => True | _ => False end) by (vm_compute; exact I). rewrite Ec, Ef in Hr. exact Hr. }
  destruct r as [[|rj]|]; [|destruct Hr..].
  pose proof (basic_auth_gate basic self req fresh (Ok Continue) req' ctx' Ec (fun _ H => H) (fun _ H => H) Ef) as (_ & _ & Hh).
  split; [reflexivity|]. split; [exact Ef|exact Hh].
Defined.

Lemma jwt_gate_witness :
  let req := ToyCache.get "/a" [("authorization", "Bearer key.ok")] in
  exists self req' ctx', create_jwt_auth_plugin tokens = Ok self /\ jwt_request_filter self req ctx = (Ok Continue, req', ctx') /\
    get_req_header_value req' "authorization" = None.
Proof.
  intros req. destruct (create_jwt_auth_plugin tokens) as [self|] eqn:Ec; [|vm_compute in Ec; discriminate].
  destruct (jwt_request_filter self req ctx) as [[r req'] ctx'] eqn:Ef. exists self, req', ctx'.
  assert (Hr : match r with Ok Continue => True | _ => False end).
  { assert (Hr : match match create_jwt_auth_plugin tokens with Ok s => (jwt_request_filter s req ctx).1.1 | Err e => Err e end with
      Ok Continue => True | _ => False end) by (vm_compute; exact I). rewrite Ec, Ef in Hr. exact Hr. }
  destruct r as [[|rj]|]; [|destruct Hr..].
  pose proof (jwt_gate tokens self req ctx (Ok Continue) req' ctx' Ec eq_refl Ef) as (key & _ & c & t & e & Ht & _ & _ & Hh & _).
  assert (Hc : c = InHeader) by (vm_compute in Ht; congruence). subst c.
  split; [reflexivity|]. split; [exact Ef|exact Hh].
Defined.

(** The user name ends at the first colon: one that holds a colon is accepted
    as configuration and can never be presented. *)
Example colon_in_username :
  let cfg := {| username := "a:b"; password := "c"; basic_hide_credentials := false; basic_realm := None |} in
  match create_basic_auth_plugin cfg with
  | Ok self => validate_credentials self "Basic a:b:c" = false
  | Err _ => False
  end.
Proof. vm_compute. reflexivity. Qed.
