(* ===== verification/Csrf.v ===== *)
(** * CSRF tokens ([src/src/plugins/csrf.rs])

    Signed double-submit tokens: issuing one on every response, and checking
    header, cookie, signature and age on unsafe requests.  HMAC, Base64 and the
    token's JSON form are a type class; the clock and the random bytes are
    arguments. *)

From Stdlib Require Import ZArith Lia Ascii.
From stdpp Require Import base tactics gmap strings pretty option list.
From S2P Require Import Prelude Errors GraphStore Utf8 Hosts RequestVars Limiting AuthPlugins.

Open Scope Z_scope.

Record CsrfToken : Type := { random : string; expires : Z; sign : string }.

(** [hmac_hex] is the hexadecimal HMAC-SHA-256, if the key is accepted. *)
Class CsrfLib : Type := {
  hmac_hex : string -> string -> option string;
  csrf_b64_encode : string -> string;
  csrf_b64_decode : string -> option string;
  token_to_json : CsrfToken -> option string;
  token_from_json : string -> option CsrfToken;
}.

(** Documented round trips; HMAC takes keys of every length. *)
Class CsrfLaws `{CsrfLib} : Prop := {
  hmac_total k m : is_Some (hmac_hex k m);
  csrf_b64_roundtrip s : csrf_b64_decode (csrf_b64_encode s) = Some s;
  token_json_roundtrip t : exists j, token_to_json t = Some j /\ token_from_json j = Some t;
}.

Record PluginConfig : Type := { key : string; ttl : Z; name : string }.

(** [length(min = 1)] on the key. *)
Definition create_csrf_plugin (cfg : PluginConfig) : ProxyResult PluginConfig :=
  if bool_decide (key cfg = "") then Err (Errors.Validation "length") else Ok cfg.

Definition SAFE_METHODS : list string := ["GET"; "HEAD"; "OPTIONS"].
Definition hex_byte (b : Z) : string := hex_digit (b / 16) +:+ hex_digit (b mod 16).
Definition hex_bytes (bytes : list Z) : string := String.concat "" (hex_byte <$> bytes).
Definition build_cookie_value (name token : string) (expires : Z) : string :=
  name +:+ "=" +:+ token +:+ "; Path=/; SameSite=Lax; Max-Age=" +:+ pretty expires +:+ "; Secure".
Definition saturating_add64 (a b : Z) : Z := Z.min (a + b) u64_max.

Section csrf.
Context `{CsrfLib} `{AuthLib} `{HttpTypes}.

Definition constant_time_eq (a b : string) : bool := constant_time_digest_eq (secret_digest a) (secret_digest b).

(** The signature covers the random text followed by the decimal time. *)
Definition gen_sign (self : PluginConfig) (random : string) (expires : Z) : option string :=
  hmac_hex (key self) (random +:+ pretty expires).

(** [now] is [None] for a clock before the epoch. *)
Definition gen_token_string (self : PluginConfig) (random_bytes : list Z) (now : option Z) : option string :=
  let random := hex_bytes random_bytes in
  now ≫= fun now =>
  gen_sign self random now ≫= fun sign =>
  token_to_json {| random := random; expires := now; sign := sign |} ≫= fun json =>
  Some (csrf_b64_encode json).

(** The Set-Cookie value appended to a response. *)
Definition csrf_cookie (self : PluginConfig) (random_bytes : list Z) (now : option Z) : option string :=
  (fun token => build_cookie_value (name self) token (ttl self)) <$> gen_token_string self random_bytes now.

Definition check_token (self : PluginConfig) (token_b64 : string) (now : option Z) : bool :=
  match csrf_b64_decode token_b64 ≫= token_from_json with
  | None => false
  | Some token =>
    match now with
    | None => false
    | Some now =>
      if (0 <? ttl self) && (saturating_add64 (expires token) (ttl self) <? now) then false
      else match gen_sign self (random token) (expires token) with
           | None => false
           | Some expected_sign => constant_time_eq (sign token) expected_sign
           end
    end
  end.

Definition csrf_reject (message : string) : FilterVerdict :=
  Reject (with_content_type "text/plain" (with_body message (Rejection_new 401))).

Definition csrf_request_filter (self : PluginConfig) (req : RequestHeader) (now : option Z) : FilterVerdict :=
  if bool_decide (method req ∈ SAFE_METHODS) then Continue
  else match get_req_header_value req (name self) with
       | None => csrf_reject "no csrf token in headers"
       | Some h_token =>
         if bool_decide (h_token = "") then csrf_reject "no csrf token in headers"
         else match get_cookie_value req (name self) with
              | None => csrf_reject "no csrf cookie"
              | Some c_token =>
                if negb (bool_decide (h_token = c_token)) then csrf_reject "csrf token mismatch"
                else if negb (check_token self c_token now) then csrf_reject "Failed to verify the csrf token signature"
                else Continue
              end
       end.

(** ** Properties *)

(** Issued tokens verify.  A token the plugin issues verifies exactly while the clock has not passed
    its time of issue plus the configured lifetime, the sum saturating; with a
    lifetime of zero it does not expire. *)
Theorem csrf_token_roundtrip `{!CsrfLaws} self bytes issued :
  exists token, gen_token_string self bytes (Some issued) = Some token /\
    forall now, check_token self token (Some now) = (ttl self <=? 0) || (now <=? saturating_add64 issued (ttl self)).
Proof.
  destruct (hmac_total (key self) (hex_bytes bytes +:+ pretty issued)) as [s Hs].
  destruct (token_json_roundtrip {| random := hex_bytes bytes; expires := issued; sign := s |}) as (j & Hj & Hf).
  exists (csrf_b64_encode j). unfold gen_token_string, gen_sign. cbn. rewrite Hs. cbn. rewrite Hj. split; [done|]. intros now.
  unfold check_token. rewrite csrf_b64_roundtrip. cbn. rewrite Hf. cbn. unfold gen_sign. cbn. rewrite Hs.
  unfold constant_time_eq, constant_time_digest_eq. rewrite (bool_decide_true (secret_digest s = _)) by done.
  destruct (Z.ltb_spec 0 (ttl self)), (Z.leb_spec (ttl self) 0); try lia; cbn; [|done].
  destruct (Z.ltb_spec (saturating_add64 issued (ttl self)) now), (Z.leb_spec now (saturating_add64 issued (ttl self))); done || lia.
Qed.

(** C26.  What an unsafe request must present.  A request with an unsafe method passes exactly when its header and its
    cookie carry the same token, which decodes, is signed under the configured
    key for its own random text and time, and is not older than the configured
    lifetime; SHA-256 is assumed free of collisions between the two signatures
    compared. *)
Theorem csrf_gate self req now :
  (forall token t s, get_req_header_value req (name self) = Some token -> csrf_b64_decode token ≫= token_from_json = Some t ->
     hmac_hex (key self) (random t +:+ pretty (expires t)) = Some s -> secret_digest (sign t) = secret_digest s -> sign t = s) ->
  method req ∉ SAFE_METHODS ->
  csrf_request_filter self req now = Continue <->
  exists token t clock, get_req_header_value req (name self) = Some token /\ token <> "" /\ get_cookie_value req (name self) = Some token /\
    csrf_b64_decode token ≫= token_from_json = Some t /\ hmac_hex (key self) (random t +:+ pretty (expires t)) = Some (sign t) /\
    now = Some clock /\ (ttl self <= 0 \/ clock <= saturating_add64 (expires t) (ttl self)).
Proof.
  intros Hcf Hm. unfold csrf_request_filter, check_token, gen_sign. rewrite bool_decide_false by done.
  assert (Hno : forall m, csrf_reject m = Continue <-> False) by done.
  destruct (get_req_header_value req (name self)) as [h|] eqn:Ehd; [|rewrite Hno; naive_solver].
  case_bool_decide as Hh; [rewrite Hno; naive_solver|].
  destruct (get_cookie_value req (name self)) as [c|]; [|rewrite Hno; naive_solver].
  case_bool_decide as Hc; cbn [negb]; [|rewrite Hno; naive_solver]. subst c.
  destruct (csrf_b64_decode h ≫= token_from_json) as [t|] eqn:Et; [|cbn [negb]; rewrite Hno; naive_solver].
  destruct now as [clock|]; [|cbn [negb]; rewrite Hno; naive_solver].
  destruct ((0 <? ttl self) && _) eqn:El; cbn [negb].
  - rewrite Hno. bool_to_prop. split; [done|]. intros (? & t' & clock' & [= <-] & _ & _ & E & _ & [= <-] & Ho).
    rewrite Et in E. injection E as <-. lia.
  - assert (Ho : ttl self <= 0 \/ clock <= saturating_add64 (expires t) (ttl self)).
    { apply andb_false_iff in El as [?%Z.ltb_ge|?%Z.ltb_ge]; lia. }
    destruct (hmac_hex (key self) _) as [s|] eqn:Es; cbn [negb]; [|rewrite Hno; split; [done|]; intros (? & t' & ? & [= <-] & _ & _ & E & Eh & _);
      rewrite Et in E; injection E as <-; by rewrite Es in Eh].
    unfold constant_time_eq, constant_time_digest_eq. case_bool_decide as Hd; cbn [negb].
    + apply (Hcf _ _ _ eq_refl Et Es) in Hd. split; [|done]. intros _. exists h, t, clock. by rewrite Es, Hd.
    + rewrite Hno. split; [done|]. intros (? & t' & ? & [= <-] & _ & _ & E & Eh & _). rewrite Et in E. injection E as <-.
      rewrite Es in Eh. congruence.
Qed.

End csrf.

(** ** Concrete tokens *)

Module ToyCsrf.
(** A toy form of the token: the bits of its code. *)
Fixpoint bits (p : positive) : string :=
  match p with xH => "" | xO p => String "0" (bits p) | xI p => String "1" (bits p) end.
Fixpoint unbits (s : string) : positive :=
  match s with EmptyString => xH | String a s => if bool_decide (a = "0"%char) then xO (unbits s) else xI (unbits s) end.
Lemma unbits_bits p : unbits (bits p) = p.
Proof. induction p as [p IH|p IH|]; cbn; rewrite ?IH; done. Qed.

#[export] Instance lib : CsrfLib := {
  hmac_hex k m := Some (k +:+ "#" +:+ m);
  csrf_b64_encode s := s; csrf_b64_decode s := Some s;
  token_to_json t := Some (bits (encode (random t, expires t, sign t)));
  token_from_json s := (fun x : string * Z * string => Build_CsrfToken x.1.1 x.1.2 x.2) <$> decode (unbits s);
}.
#[export] Instance laws : CsrfLaws.
Proof.
  split; [by eexists|done|]. intros [r e g]. eexists. split; [done|]. cbn. by rewrite unbits_bits, decode_encode.
Qed.
Definition token_text (r : string) (e : Z) (g : string) : string := bits (encode (r, e, g)).
Definition config : PluginConfig := {| key := "secret"; ttl := 7200; name := "csrf" |}.
Definition token : string := token_text "a9" 1700000000 "secret#a91700000000".
Definition forged : string := token_text "a" 91700000000 "secret#a91700000000".
Definition post (t : string) : @RequestHeader ToyHttp.http :=
  {| method := "POST"; uri := (None, "/") : @Uri ToyHttp.http; headers := [("csrf", t); ("cookie", "csrf=" +:+ t)] : @HeaderMap ToyHttp.http |}.
End ToyCsrf.
Import ToyHttp ToyAuth ToyCsrf.

Lemma csrf_token_roundtrip_witness : exists token, gen_token_string config [171; 9] (Some 1700000000) = Some token /\
  check_token config token (Some 1700007200) = true /\ check_token config token (Some 1700007201) = false.
Proof.
  destruct (csrf_token_roundtrip config [171; 9] 1700000000) as (t & Ht & Hc). exists t. split; [exact Ht|].
  split; rewrite Hc; vm_compute; reflexivity.
Defined.

Lemma csrf_gate_witness : csrf_request_filter config (post token) (Some 1700000001) = Continue.
Proof.
  apply (csrf_gate config (post token) (Some 1700000001)); [intros tk t s _ _ _ Hab; exact Hab|vm_compute; set_solver|].
  exists token, {| random := "a9"; expires := 1700000000; sign := "secret#a91700000000" |}, 1700000001.
  split; [vm_compute; reflexivity|]. split; [discriminate|]. do 4 (split; [vm_compute; reflexivity|]). right. vm_compute. discriminate.
Defined.

(** The random text and the time are signed without a separator: a digit moved
    from one to the other keeps the signature and renews the token. *)
Example csrf_expiry_forgeable :
  csrf_request_filter config (post token) (Some 1800000000) = csrf_reject "Failed to verify the csrf token signature" /\
  csrf_request_filter config (post forged) (Some 1800000000) = Continue.
Proof. split; vm_compute; reflexivity. Qed.
