(* ===== verification/LimitReq.v ===== *)
(** * Leaky-bucket limiter ([src/src/plugins/limit_req.rs])

    The bucket transition, admission into the bounded shards ([Shards]) and the
    request filter.  The code's [f64] is a type class; the theorems hold of the
    exact rationals, the rounding of [f64] is not modelled. *)

From Stdlib Require Import ZArith Lia QArith Lqa Ascii.
From stdpp Require Import base tactics gmap strings pretty option list.
From S2P Require Import Prelude Errors GraphStore Utf8 Hosts RequestVars Shards Limiting.

Open Scope Z_scope.

Class Floats (F : Type) : Type := {
  f_zero : F;
  f_one : F;
  f_sub : F -> F -> F;
  f_add : F -> F -> F;
  f_mul : F -> F -> F;
  f_div : F -> F -> F;
  f_max : F -> F -> F;
  f_gt : F -> F -> bool;
  f_finite : F -> bool;
  as_secs_f64 : Duration -> F;
}.

Section limit_req.
Context {F : Type} `{Floats F} `{HttpTypes}.

Record Bucket : Type := { excess : F; last : Instant }.

(** [Ok (delay, excess)] admits; [nodelay] only skips the sleep. *)
Definition leaky_bucket_step (old_excess elapsed_secs rate burst : F) (nodelay : bool) : Result (F * F) unit :=
  let excess := f_max (f_add (f_sub old_excess (f_mul elapsed_secs rate)) f_one) f_zero in
  if f_gt excess burst then Err () else Ok (f_div excess rate, excess).

Definition bucket_incoming (bucket : Bucket) (now : Instant) (rate burst : F) (nodelay : bool) : Result F unit * Bucket :=
  let elapsed := as_secs_f64 (duration_since now (last bucket)) in
  match leaky_bucket_step (excess bucket) elapsed rate burst nodelay with
  | Ok (delay, new_excess) => (Ok delay, {| excess := new_excess; last := now |})
  | Err e => (Err e, bucket)
  end.

Record PluginConfig : Type := {
  rate : F;
  burst : F;
  key_type : KeyType;
  key : string;
  rejected_code : Z;
  rejected_msg : option string;
  nodelay : bool;
  policy : Policy;
}.

Definition validate_rate (value : F) : bool := f_finite value && f_gt value f_zero.
Definition validate_burst (value : F) : bool := f_finite value && negb (f_gt f_zero value).

Definition PluginConfig_try_from (config : PluginConfig) : ProxyResult PluginConfig :=
  if validate_rate (rate config) && validate_burst (burst config) && validate_key (key config) &&
     validate_rejected_code (rejected_code config) && validate_rejected_msg (rejected_msg config)
  then let? _ := ensure_local (policy config) "limit-req" in Ok config
  else Err (Validation "Invalid limit-req plugin config").

(** What the sweep takes for drained. *)
Definition drained (config : PluginConfig) (now : Instant) (b : Bucket) : bool :=
  negb (f_gt (excess b) (f_mul (as_secs_f64 (duration_since now (last b))) (rate config))).

(** The locked part of [request_filter]: the delay, unless rejected. *)
Definition admit_request (config : PluginConfig) (k : string) (now : Instant) (s : Shard Bucket) : option F * Shard Bucket :=
  let '(slot, s) := admit_key k LIMIT_REQ_OVERFLOW (sweep (drained config now) Restore) s in
  match entries s !! slot with
  | None => (Some f_zero, fill slot {| excess := f_zero; last := now |} s)
  | Some b =>
    match bucket_incoming b now (rate config) (burst config) (nodelay config) with
    | (Ok delay, b) => (Some delay, fill slot b s)
    | (Err _, b) => (None, fill slot b s)
    end
  end.

Context (hash : string -> Z).

(** The verdict, the time to sleep before it, and the shards. *)
Definition request_filter (config : PluginConfig) (session : Session) (now : Instant) (shards : list (Shard Bucket)) :
    FilterVerdict * option F * list (Shard Bucket) :=
  let k := apisix_key session (key config) (match key_type config with VarCombination => true | Var => false end) in
  let idx := shard_idx hash k in
  match shards !! idx with
  | None => (Continue, None, shards)
  | Some s =>
    let '(delay, s) := admit_request config k now s in
    let shards := <[idx := s]> shards in
    match delay with
    | None => (Reject (policy_rejection {| code := rejected_code config; msg := rejected_msg config |}), None, shards)
    | Some delay => (Continue, if f_gt delay f_zero && negb (nodelay config) then Some delay else None, shards)
    end
  end.

(** ** Requests of one key

    A shard serving requests of key [k] at the given times: the delay of each,
    [None] for a rejection.  The mutex of the shard makes each one a step. *)
Fixpoint run_key (config : PluginConfig) (k : string) (s : Shard Bucket) (times : list Instant) : list (option F) * Shard Bucket :=
  match times with
  | [] => ([], s)
  | t :: times => let '(d, s) := admit_request config k t s in let '(ds, s) := run_key config k s times in (d :: ds, s)
  end.
Definition admitted (ds : list (option F)) : nat := length (omap (fun d => d) ds).

(** A tracked key keeps its slot and is never swept by its own requests. *)
Lemma admit_tracked config k now s b : entries s !! k = Some b ->
  (admit_request config k now s).1 = match (bucket_incoming b now (rate config) (burst config) (nodelay config)).1 with Ok d => Some d | Err _ => None end /\
  entries (admit_request config k now s).2 !! k = Some (bucket_incoming b now (rate config) (burst config) (nodelay config)).2.
Proof.
  intros Hb. unfold admit_request, admit_key, contains_key. rewrite Hb, bool_decide_true by eauto. cbn. rewrite Hb.
  destruct (bucket_incoming b now _ _ _) as [[d|[]] b'] eqn:E; cbn; by rewrite lookup_insert_eq.
Qed.

(** A key not yet tracked gets a bucket of its own while its shard has room. *)
Lemma admit_new config k now s : entries s !! k = None -> (shard_len s < PER_SHARD_REGULAR_MAX)%nat ->
  (admit_request config k now s).1 = Some f_zero /\
  entries (admit_request config k now s).2 !! k = Some {| excess := f_zero; last := now |}.
Proof.
  intros Hb Hlen. unfold admit_request, admit_key, contains_key. rewrite Hb, bool_decide_false by by intros [? ?].
  destruct (PER_SHARD_REGULAR_MAX <=? shard_len s)%nat eqn:E1; [apply Nat.leb_le in E1; lia|].
  destruct (shard_len s <? PER_SHARD_REGULAR_MAX)%nat eqn:E2; [|apply Nat.ltb_ge in E2; lia].
  cbn [negb andb orb]. rewrite E2. cbn [shard_touch entries]. unfold update_field. cbn. rewrite Hb. cbn. by rewrite lookup_insert_eq.
Qed.

End limit_req.

(** ** Exact arithmetic *)

#[export] Instance exact : Floats Q := {
  f_zero := 0%Q; f_one := 1%Q;
  f_sub := Qminus; f_add := Qplus; f_mul := Qmult; f_div := Qdiv;
  f_max a b := if Qle_bool a b then b else a;
  f_gt a b := negb (Qle_bool a b);
  f_finite _ := true;
  as_secs_f64 d := (d # 1000000000)%Q;
}.

Open Scope Q_scope.

Lemma f_max_spec (a b : Q) : (a <= b /\ f_max a b = b) \/ (b <= a /\ f_max a b = a).
Proof.
  cbn. destruct (Qle_bool a b) eqn:E; [left; by apply Qle_bool_iff in E|right]. split; [|done].
  destruct (Qlt_le_dec b a) as [Hlt|Hle]; [by apply Qlt_le_weak|]. apply Qle_bool_iff in Hle. congruence.
Qed.

Lemma f_gt_spec (a b : Q) : f_gt a b = negb (Qle_bool a b). Proof. done. Qed.

Definition seconds (d : Duration) : Q := d # 1000000000.

Lemma seconds_sub a b : (b <= a)%Z -> seconds (duration_since a b) == seconds a - seconds b.
Proof. intros Hab. unfold seconds, duration_since. rewrite Z.max_r by lia. unfold Qminus, Qplus, Qopp, Qeq. cbn. lia. Qed.

Lemma seconds_le a b : (b <= a)%Z -> seconds b <= seconds a.
Proof. unfold seconds, Qle. cbn. lia. Qed.

(** The level a request arrives at. *)
Definition level (b : @Bucket Q) (now : Instant) (rate : Q) : Q := f_max (excess b - seconds (duration_since now (last b)) * rate + 1) 0.

Lemma level_spec b now rate : (last b <= now)%Z ->
  0 <= level b now rate /\ excess b - rate * (seconds now - seconds (last b)) + 1 <= level b now rate /\
  (level b now rate == excess b - rate * (seconds now - seconds (last b)) + 1 \/ level b now rate == 0).
Proof.
  intros Hle. unfold level. pose proof (seconds_sub now (last b) Hle) as Hs.
  assert (Hm : seconds (duration_since now (last b)) * rate == rate * (seconds now - seconds (last b))) by (rewrite Hs; ring).
  revert Hm. generalize (seconds (duration_since now (last b)) * rate). intros q Hq.
  destruct (f_max_spec (excess b - q + 1) 0) as [[H1 ->]|[H1 ->]]; rewrite <- Hq; split_and!; lra.
Qed.

(** The transition over exact numbers. *)
Lemma bucket_incoming_spec b now (rate burst : Q) nodelay :
  bucket_incoming b now rate burst nodelay =
  if Qle_bool (level b now rate) burst then (Ok (level b now rate / rate), {| excess := level b now rate; last := now |}) else (Err (), b).
Proof. unfold bucket_incoming, leaky_bucket_step. fold (seconds (duration_since now (last b))). fold (level b now rate). rewrite f_gt_spec. by destruct (Qle_bool _ burst). Qed.

(** ** The bound

    [paced]: every gap is at least a request's share of the rate. *)
Fixpoint monotone (t : Instant) (times : list Instant) : Prop :=
  match times with [] => True | t' :: times => (t <= t')%Z /\ monotone t' times end.
Fixpoint end_time (t : Instant) (times : list Instant) : Instant :=
  match times with [] => t | t' :: times => end_time t' times end.
Fixpoint paced (rate : Q) (t : Instant) (times : list Instant) : Prop :=
  match times with [] => True | t' :: times => 1 <= rate * (seconds t' - seconds t) /\ paced rate t' times end.
Definition count (n : nat) : Q := inject_Z (Z.of_nat n).

Lemma count_S n : count (S n) == count n + 1.
Proof. unfold count. rewrite Nat2Z.inj_succ, <-Z.add_1_r, inject_Z_plus. reflexivity. Qed.

Lemma monotone_end t times : monotone t times -> (t <= end_time t times)%Z.
Proof. revert t. induction times as [|t' times IH]; intros t; [reflexivity|]. intros [Hle Hm]. specialize (IH t' Hm). cbn. lia. Qed.

Section bound.
Context (config : @PluginConfig Q) (k : string).
Context (Hrate : 0 < rate config) (Hburst : 0 <= burst config).

Definition delay_ok (d : option Q) : Prop := match d with Some d => 0 <= d <= burst config / rate config | None => True end.

Lemma delay_bounds x : 0 <= x <= burst config -> delay_ok (Some (x / rate config)).
Proof.
  intros [H1 H2]. unfold delay_ok, Qdiv. pose proof (Qinv_lt_0_compat _ Hrate).
  split; [apply Qmult_le_0_compat; lra|apply Qmult_le_compat_r; lra].
Qed.

Lemma tracked_run times s b t : entries s !! k = Some b -> excess b <= burst config -> (last b <= t)%Z -> monotone t times ->
  let ds := (run_key config k s times).1 in
  count (admitted ds) <= burst config - excess b + rate config * (seconds (end_time t times) - seconds (last b)) /\
  Forall delay_ok ds /\ (0 <= excess b -> paced (rate config) (last b) times -> admitted ds = length times).
Proof.
  cbv zeta. revert s b t. induction times as [|t' times IH]; intros s b t Hb He Hl Hm.
  { cbn [run_key end_time fst]. split_and!; [|constructor|done]. change (count (admitted [])) with 0. pose proof (seconds_le t (last b) Hl).
    assert (0 <= rate config * (seconds t - seconds (last b))) by (apply Qmult_le_0_compat; lra). lra. }
  destruct Hm as [Hle Hm]. cbn [run_key end_time]. destruct (admit_tracked config k t' s b Hb) as [Hd Hb']. rewrite bucket_incoming_spec in Hd, Hb'.
  destruct (admit_request config k t' s) as [d s'] eqn:Ea. cbn [fst snd] in Hd, Hb'. assert (Hlt : (last b <= t')%Z) by lia.
  destruct (level_spec b t' (rate config) Hlt) as (Hl0 & Hlb & Hor).
  destruct (Qle_bool (level b t' (rate config)) (burst config)) eqn:El; cbn [fst snd] in Hd, Hb'.
  - apply Qle_bool_iff in El. destruct (IH _ _ t' Hb' El) as (Hc & Hf & Hp); [cbn; lia|done|]. cbn [excess last] in Hc, Hp.
    destruct (run_key config k s' times) as [ds s2]. cbn [fst] in *. rewrite Hd. split_and!.
    + cbn [admitted omap list_omap length]. fold (admitted ds). rewrite count_S.
      revert Hc Hlb. generalize (seconds (end_time t' times)) (seconds t') (seconds (last b)). intros x y z Hc Hlb.
      assert (rate config * (x - z) == rate config * (x - y) + rate config * (y - z)) by ring. lra.
    + constructor; [by apply delay_bounds|done].
    + intros _ [_ Hpt]. cbn. f_equal. by apply Hp.
  - destruct (IH _ _ t' Hb' He Hlt Hm) as (Hc & Hf & Hp).
    destruct (run_key config k s' times) as [ds s2]. cbn [fst] in *. rewrite Hd. split_and!; [exact Hc|by constructor|].
    intros Hnn [Hgap _]. exfalso. assert (Qle_bool (level b t' (rate config)) (burst config) = true) by (apply Qle_bool_iff; destruct Hor; lra). congruence.
Qed.
End bound.

(** What the shard knows of the key when its first request comes. *)
Definition before (config : @PluginConfig Q) (k : string) (s : Shard (@Bucket Q)) (t : Instant) : Prop :=
  match entries s !! k with
  | Some b => 0 <= excess b <= burst config /\ (last b <= t)%Z
  | None => (shard_len s < PER_SHARD_REGULAR_MAX)%nat
  end.
Definition rested (config : @PluginConfig Q) (k : string) (s : Shard (@Bucket Q)) (t : Instant) : Prop :=
  match entries s !! k with Some b => 1 <= rate config * (seconds t - seconds (last b)) | None => True end.

Lemma config_checked (raw config : @PluginConfig Q) : PluginConfig_try_from raw = Ok config -> 0 < rate config /\ 0 <= burst config.
Proof.
  unfold PluginConfig_try_from, validate_rate, validate_burst. cbn [f_finite exact andb]. rewrite !f_gt_spec, negb_involutive.
  destruct (negb (Qle_bool (rate raw) f_zero)) eqn:E1; [|discriminate]. destruct (Qle_bool f_zero (burst raw)) eqn:E2; [|discriminate].
  destruct (_ && validate_rejected_msg _); [|discriminate]. destruct (ensure_local _ _); [|discriminate]. intros [= <-]. apply negb_true_iff in E1. apply Qle_bool_iff in E2.
  split; [|exact E2]. apply Qnot_le_lt. intros Hle. apply Qle_bool_iff in Hle. cbn in E1. congruence.
Qed.

(** C38.  Requests of a key stay within the configured rate.  For an accepted
    configuration, over the exact rationals: of the requests of one key served
    by its shard at non-decreasing times, at most 1 + burst + rate * (length of
    the period) are admitted, none is delayed longer than burst / rate, and a
    client that leaves a request's share of the rate between its requests is
    never rejected.  The key is tracked already or its shard has room; eviction
    between the requests resets the bucket (see [drained_bucket_resets]). *)
Theorem leaky_bucket_bounded (raw config : @PluginConfig Q) (k : string) (s : Shard (@Bucket Q)) (t : Instant) (times : list Instant) :
  PluginConfig_try_from raw = Ok config -> before config k s t -> monotone t times ->
  let ds := (run_key config k s (t :: times)).1 in
  count (admitted ds) <= 1 + burst config + rate config * (seconds (end_time t times) - seconds t) /\
  Forall (delay_ok config) ds /\
  (rested config k s t -> paced (rate config) t times -> admitted ds = S (length times)).
Proof.
  intros [Hrate Hburst]%config_checked Hbf Hm. unfold before, rested in *. cbv zeta.
  destruct (entries s !! k) as [b|] eqn:Eb.
  - destruct Hbf as [[He0 He] Hl].
    destruct (tracked_run config k Hrate Hburst (t :: times) s b t Eb He Hl) as (Hc & Hf & Hp); [by split|].
    split_and!; [|exact Hf|]; [|intros ? ?; by apply Hp]. clear Hp. cbn [end_time] in Hc.
    destruct (level_spec b t (rate config) Hl) as (Hl0 & Hlb & [Hor|Hor]).
    { clear Hf. revert Hc Hlb Hor. generalize (count (admitted (run_key config k s (t :: times)).1)) (seconds (end_time t times)) (seconds t) (seconds (last b)).
      intros n x y z Hc Hlb Hor. assert (rate config * (x - z) == rate config * (x - y) + rate config * (y - z)) by ring. lra. }
    cbn [run_key]. destruct (admit_tracked config k t s b Eb) as [Hd Hb']. rewrite bucket_incoming_spec in Hd, Hb'.
    assert (El : level b t (rate config) <= burst config) by lra. apply Qle_bool_iff in El as El'. rewrite El' in Hd, Hb'.
    destruct (admit_request config k t s) as [d s']. cbn [fst snd] in Hd, Hb'.
    destruct (tracked_run config k Hrate Hburst times s' _ t Hb' El) as (Hc' & _); [cbn; lia|done|]. cbn [excess last] in Hc'.
    destruct (run_key config k s' times) as [ds s2]. cbn [fst] in *. subst d. cbn [admitted omap list_omap length]. fold (admitted ds). rewrite count_S. lra.
  - cbn [run_key]. destruct (admit_new config k t s Eb Hbf) as [Hd Hb'].
    destruct (admit_request config k t s) as [d s']. cbn [fst snd] in Hd, Hb'.
    destruct (tracked_run config k Hrate Hburst times s' _ t Hb') as (Hc & Hf & Hp); [exact Hburst|cbn; lia|done|]. cbn [excess last] in Hc, Hp.
    destruct (run_key config k s' times) as [ds s2]. cbn [fst] in *. subst d. change (@f_zero Q exact) with 0 in *. split_and!.
    + cbn [admitted omap list_omap length]. fold (admitted ds). rewrite count_S. lra.
    + constructor; [|done]. split; [lra|]. apply Qmult_le_0_compat; [done|]. by apply Qinv_le_0_compat, Qlt_le_weak.
    + intros _ Hpc. cbn. f_equal. by apply Hp.
Qed.

(** ** Witnesses *)

Definition demo_config (burst : Q) : @PluginConfig Q := {|
  rate := 2; burst := burst; key_type := Var; key := "remote_addr"; rejected_code := 503; rejected_msg := None; nodelay := false; policy := Local |}.

Lemma leaky_bucket_bounded_witness :
  let ds := (run_key (demo_config 1) "10.0.0.1" Shard_default [0; 0; 0; 500000000; 1000000000]%Z).1 in
  map (option_map Qred) ds = [Some 0; Some (1 # 2); None; Some (1 # 2); Some (1 # 2)] /\
  count (admitted ds) <= 1 + 1 + 2 * (seconds 1000000000 - seconds 0).
Proof.
  split; [vm_compute; reflexivity|].
  assert (Hc : PluginConfig_try_from (demo_config 1) = Ok (demo_config 1)) by (vm_compute; reflexivity).
  assert (Hb : before (demo_config 1) "10.0.0.1" Shard_default 0%Z) by (vm_compute; lia).
  assert (Hm : monotone 0%Z [0; 0; 500000000; 1000000000]%Z) by (repeat split; lia).
  exact (proj1 (leaky_bucket_bounded _ _ _ _ _ _ Hc Hb Hm)).
Defined.

(** With no burst the second of two simultaneous requests of a key is rejected;
    once the shard is full, a new key in between has the first bucket evicted
    as drained, and the same request is admitted. *)
Definition serve_keys (config : @PluginConfig Q) (ks : list string) (s : Shard (@Bucket Q)) : Shard (@Bucket Q) :=
  fold_left (fun s k => (admit_request config k 0%Z s).2) ks s.

Example drained_bucket_resets :
  let full := serve_keys (demo_config 0) (map pretty (seq 0 255)) Shard_default in
  (admit_request (demo_config 0) "0" 0 full).1 = None /\
  (admit_request (demo_config 0) "0" 0 (serve_keys (demo_config 0) ["new"] full)).1 = Some 0.
Proof. vm_compute. split; reflexivity. Qed.
