(* ===== verification/Settings.v ===== *)
(** * Process settings ([src/src/config/mod.rs], [src/src/config/defaults.rs])
    and the etcd connection built from them ([src/src/config/etcd/connect.rs])

    The [pingsix] section of the configuration file with its validation, the
    effective defaults, and the options of the etcd client.  The URL parser and
    the file system are type classes; YAML parsing is serde's. *)

From Stdlib Require Import ZArith Lia Ascii.
From stdpp Require Import base tactics gmap strings option list.
From S2P Require Import Prelude Errors GraphStore Utf8 Hosts Config RequestVars Discovery PassiveHealth.

Open Scope Z_scope.

(** [str::contains] *)
Fixpoint contains_str (pat s : string) : bool :=
  starts_with s pat || match s with EmptyString => false | String _ s => contains_str pat s end.

(** [SocketAddr] and [IpAddr::is_loopback]: an IPv4-mapped address is not one. *)
Record SocketAddr : Type := { sa_ip : IpAddr; sa_port : Z }.
Definition is_loopback (ip : IpAddr) : bool :=
  match ip with
  | V4 octets => bool_decide (head octets = Some 127)
  | V6 segments => bool_decide (segments = [0; 0; 0; 0; 0; 0; 0; 1])
  end.

(** ** The sections *)

Record Tls : Type := { cert_path : string; key_path : string }.

Module Listener.
Record t : Type := { address : SocketAddr; tls : option Tls; offer_h2 : bool; offer_h2c : bool }.
Definition validate (self : t) : bool := negb (offer_h2 self && bool_decide (tls self = None)).
End Listener.

Module EtcdTls.
Record t : Type := { ca_cert : string; client_cert : option string; client_key : option string; domain : option string }.
Definition validate_mtls_pair (self : t) : bool :=
  match client_cert self, client_key self with Some _, Some _ | None, None => true | _, _ => false end.
Definition validate (self : t) : bool := negb (bool_decide (ca_cert self = "")) && validate_mtls_pair self.
End EtcdTls.

Class UrlParser : Type := {
  Url : Type;
  Url_parse : string -> Result Url string;
  url_scheme : Url -> string;
  url_host_str : Url -> option string;
  url_username : Url -> string;
  url_password : Url -> option string;
  url_path : Url -> string;
  url_query : Url -> option string;
  url_fragment : Url -> option string;
}.

Section endpoints.
Context `{UrlParser}.

Definition is_some {A} (o : option A) : bool := match o with Some _ => true | None => false end.

Definition scheme_matches_tls (scheme : string) (use_tls : bool) : bool :=
  if bool_decide (scheme = "http") then negb use_tls else if bool_decide (scheme = "https") then use_tls else false.

Definition validate_etcd_endpoint (host : string) (use_tls : bool) : ProxyResult string :=
  let endpoint := if contains_str "://" host then host else (if use_tls then "https" else "http") +:+ "://" +:+ host in
  let? parsed := map_err (fun _ => Validation "Invalid etcd endpoint") (Url_parse endpoint) in
  if negb (scheme_matches_tls (url_scheme parsed) use_tls) || negb (is_some (url_host_str parsed)) ||
     negb (bool_decide (url_username parsed = "")) || is_some (url_password parsed) || negb (bool_decide (url_path parsed = "/")) ||
     is_some (url_query parsed) || is_some (url_fragment parsed)
  then Err (Validation "Invalid etcd endpoint") else Ok endpoint.

Fixpoint validate_etcd_endpoints (hosts : list string) (use_tls : bool) : ProxyResult (list string) :=
  match hosts with
  | [] => Ok []
  | host :: hosts =>
    let? endpoint := validate_etcd_endpoint host use_tls in
    let? endpoints := validate_etcd_endpoints hosts use_tls in
    Ok (endpoint :: endpoints)
  end.
End endpoints.

Module Etcd.
Record t : Type := {
  host : list string;
  prefix : string;
  timeout : option Z;
  connect_timeout : option Z;
  user : option string;
  password : option string;
  tls : option EtcdTls.t;
}.
Definition validate_connection `{UrlParser} (self : t) : bool :=
  match user self, password self with
  | None, None => true
  | Some user, Some password => negb (bool_decide (trim user = "")) && negb (bool_decide (trim password = ""))
  | _, _ => false
  end && is_ok (validate_etcd_endpoints (host self) (is_some (tls self))).
Definition validate `{UrlParser} (self : t) : bool :=
  negb (bool_decide (host self = [])) && negb (bool_decide (prefix self = "")) &&
  match tls self with Some tls => EtcdTls.validate tls | None => true end && validate_connection self.
End Etcd.

Module Admin.
Record t : Type := { address : SocketAddr; api_key : string; allow_insecure_remote : bool }.
Definition validate_api_key (api_key : string) : bool := negb (bool_decide (trim api_key = "")).
Definition validate (self : t) : bool := negb (bool_decide (api_key self = "")) && validate_api_key (api_key self).
(** The refusal's text names the address; only the verdict is kept. *)
Definition validate_bind_safety (self : t) : bool := is_loopback (sa_ip (address self)) || allow_insecure_remote self.
End Admin.

Module StatusSettings.
Record t : Type := {
  address : SocketAddr;
  config_stale_after : option Z;
  fail_readiness_when_stale : bool;
  diagnostics_api_key : option string;
  allow_insecure_remote : bool;
}.
Definition diagnostics_enabled (self : t) : bool :=
  is_loopback (sa_ip (address self)) ||
  allow_insecure_remote self && match diagnostics_api_key self with Some key => negb (bool_decide (trim key = "")) | None => false end.
End StatusSettings.

Module Log.
Inductive LogRotation : Type := Internal | External | Disabled.
Record t : Type := { path : string; max_size_bytes : Z; max_backups : Z; rotation : LogRotation; channel_capacity : Z }.
Definition validate_path (path : string) : bool := negb (contains_char "000"%char path) && negb (bool_decide (trim path = "")).
Definition validate (self : t) : bool :=
  negb (bool_decide (path self = "")) && validate_path (path self) && (1 <=? max_size_bytes self) && (64 <=? channel_capacity self).
End Log.

Module DataEncryption.
Record t : Type := { enable : bool; keyring : list string }.
Definition validate (self : t) : bool :=
  negb (enable self) || negb (bool_decide (keyring self = [])) && forallb (fun k => negb (bool_decide (k = ""))) (keyring self).
End DataEncryption.

(** ** Defaults *)

Module CacheDefaults.
Record t : Type := { max_memory_bytes : Z; default_max_object_bytes : Z }.
Definition default : t := {| max_memory_bytes := 512 * 1024 * 1024; default_max_object_bytes := 1024 * 1024 |}.
End CacheDefaults.

Module Defaults.
Record t : Type := {
  upstream_timeout : option Timeout.t;
  dns_resolution_timeout : Z;
  dns_refresh_interval : option Z;
  cache : option CacheDefaults.t;
}.
Definition default_dns_resolution_timeout : Z := 5.
Definition validate (self : t) : bool :=
  match upstream_timeout self with Some t => Timeout.validate t | None => true end &&
  range 1 60 (dns_resolution_timeout self) &&
  match dns_refresh_interval self with Some i => range 1 3600 i | None => true end.
End Defaults.

Module Pingsix.
Record t : Type := {
  listeners : list Listener.t;
  etcd : option Etcd.t;
  admin : option Admin.t;
  status : option StatusSettings.t;
  prometheus : option SocketAddr;
  sentry : option string;
  log : option Log.t;
  defaults : option Defaults.t;
  data_encryption : option DataEncryption.t;
}.
Definition nested {A} (validate : A -> bool) (o : option A) : bool := match o with Some a => validate a | None => true end.
Definition validate `{UrlParser} (self : t) : bool :=
  negb (bool_decide (length (listeners self) = 0%nat)) && forallb Listener.validate (listeners self) &&
  nested Etcd.validate (etcd self) && nested Admin.validate (admin self) && nested Log.validate (log self) &&
  nested Defaults.validate (defaults self) && nested DataEncryption.validate (data_encryption self).
End Pingsix.

Module EffectiveDefaults.
Record t : Type := {
  upstream_timeout : option Timeout.t;
  dns_resolution_timeout : Z;
  dns_refresh_interval : option Z;
  cache : CacheDefaults.t;
}.
Definition from_pingsix (cfg : Pingsix.t) : t :=
  let defaults := Pingsix.defaults cfg in
  {| upstream_timeout := defaults ≫= Defaults.upstream_timeout;
     dns_resolution_timeout := default Defaults.default_dns_resolution_timeout (Defaults.dns_resolution_timeout <$> defaults);
     dns_refresh_interval := defaults ≫= Defaults.dns_refresh_interval;
     cache := default CacheDefaults.default (defaults ≫= Defaults.cache) |}.
Definition default : t :=
  {| upstream_timeout := None; dns_resolution_timeout := Defaults.default_dns_resolution_timeout; dns_refresh_interval := None;
     cache := CacheDefaults.default |}.
End EffectiveDefaults.

(** ** The etcd client's options *)

Record TlsOptions : Type := { ca_pem : string; identity : option (string * string); domain_name : option string }.
Record ConnectOptions : Type := {
  opt_timeout : Duration;
  opt_connect_timeout : Duration;
  opt_user : option (string * string);
  opt_tls : option TlsOptions;
}.

Class FileSystem : Type := { fs_read : string -> Result string string }.

Section connect.
Context `{UrlParser} `{FileSystem}.

Definition read_pem (path label : string) : ProxyResult string :=
  map_err (etcd_error_with_cause ("Failed to read etcd " +:+ label +:+ " '" +:+ path +:+ "'")) (fs_read path).

Definition build_tls_options (tls_cfg : EtcdTls.t) : ProxyResult TlsOptions :=
  let? ca := read_pem (EtcdTls.ca_cert tls_cfg) "CA cert" in
  let? identity :=
    match EtcdTls.client_cert tls_cfg, EtcdTls.client_key tls_cfg with
    | Some cert_path, Some key_path =>
      let? cert_pem := read_pem cert_path "client cert" in
      let? key_pem := read_pem key_path "client key" in
      Ok (Some (cert_pem, key_pem))
    | _, _ => Ok None
    end in
  Ok {| ca_pem := ca; identity := identity; domain_name := EtcdTls.domain tls_cfg |}.

Definition build_connect_options (cfg : Etcd.t) : ProxyResult ConnectOptions :=
  let timeout := default 5 (Etcd.timeout cfg) in
  let connect_timeout := default 3 (Etcd.connect_timeout cfg) in
  let? tls := match Etcd.tls cfg with Some tls_cfg => let? t := build_tls_options tls_cfg in Ok (Some t) | None => Ok None end in
  Ok {| opt_timeout := from_secs timeout; opt_connect_timeout := from_secs connect_timeout;
        opt_user := match Etcd.user cfg, Etcd.password cfg with Some user, Some password => Some (user, password) | _, _ => None end;
        opt_tls := tls |}.

(** [connect] is the client library's. *)
Definition create_client {St} (connect : list string -> ConnectOptions -> St -> Result unit string) (cfg : Etcd.t) (st : St) : ProxyResult unit :=
  let? options := build_connect_options cfg in
  let? endpoints := validate_etcd_endpoints (Etcd.host cfg) (is_some (Etcd.tls cfg)) in
  map_err (etcd_error_with_cause "Failed to connect to host") (connect endpoints options st).

(** ** Properties *)

Definition clean_endpoint (use_tls : bool) (endpoint : string) : Prop :=
  exists u, Url_parse endpoint = Ok u /\ url_scheme u = (if use_tls then "https" else "http") /\ is_Some (url_host_str u) /\
    url_username u = "" /\ url_password u = None /\ url_path u = "/" /\ url_query u = None /\ url_fragment u = None.
Definition endpoint_of (use_tls : bool) (host endpoint : string) : Prop :=
  endpoint = host \/ (contains_str "://" host = false /\ endpoint = (if use_tls then "https://" else "http://") +:+ host).

Lemma scheme_matches_spec s use_tls : scheme_matches_tls s use_tls = true -> s = (if use_tls then "https" else "http").
Proof. unfold scheme_matches_tls. repeat case_bool_decide; destruct use_tls; naive_solver. Qed.

Lemma endpoint_checked host use_tls endpoint : validate_etcd_endpoint host use_tls = Ok endpoint ->
  clean_endpoint use_tls endpoint /\ endpoint_of use_tls host endpoint.
Proof.
  unfold validate_etcd_endpoint. set (e := if contains_str "://" host then host else _).
  intros (u & Hu & Hc)%and_then_ok. destruct (Url_parse e) as [u0|] eqn:Eu; [|done]. injection Hu as ->.
  destruct (_ || _) eqn:E; [done|]. injection Hc as <-. apply orb_false_iff in E as [E E7]. apply orb_false_iff in E as [E E6].
  apply orb_false_iff in E as [E E5]. apply orb_false_iff in E as [E E4]. apply orb_false_iff in E as [E E3]. apply orb_false_iff in E as [E1 E2].
  apply negb_false_iff in E1, E2, E3, E5. bool_to_prop. split.
  - exists u. split_and!; [done|by apply scheme_matches_spec| | | | | |].
    + by destruct (url_host_str u).
    + done.
    + by destruct (url_password u).
    + done.
    + by destruct (url_query u).
    + by destruct (url_fragment u).
  - subst e. unfold endpoint_of. destruct (contains_str "://" host) eqn:Ec; [by left|right]. by destruct use_tls.
Qed.

Lemma endpoints_checked hosts use_tls endpoints : validate_etcd_endpoints hosts use_tls = Ok endpoints ->
  Forall (clean_endpoint use_tls) endpoints /\ Forall2 (endpoint_of use_tls) hosts endpoints.
Proof.
  revert endpoints. induction hosts as [|h hs IH]; intros endpoints; cbn; [intros [= <-]; by split; constructor|].
  intros (e & [Hc Ho]%endpoint_checked & (es & [Hcs Hos]%IH & [= <-])%and_then_ok)%and_then_ok. by split; constructor.
Qed.

(** Etcd connections match their settings.  For an accepted [etcd] section
    the connection is made to the configured endpoints and no others, each a
    URL of the scheme TLS calls for (a bare host gets it, an explicit one is
    never rewritten), without credentials, path, query or fragment; it
    authenticates exactly when user and password are configured, and presents a
    client certificate exactly when one is; only reading a PEM file can fail
    before the connection. *)
Theorem etcd_connection_sound (cfg : Etcd.t) : Etcd.validate cfg = true ->
  let use_tls := is_some (Etcd.tls cfg) in
  (exists endpoints, validate_etcd_endpoints (Etcd.host cfg) use_tls = Ok endpoints /\ endpoints <> [] /\
     Forall (clean_endpoint use_tls) endpoints /\ Forall2 (endpoint_of use_tls) (Etcd.host cfg) endpoints) /\
  match build_connect_options cfg with
  | Ok options =>
    is_some (opt_tls options) = use_tls /\
    (is_Some (opt_user options) <-> is_Some (Etcd.user cfg)) /\ (is_Some (opt_user options) <-> is_Some (Etcd.password cfg)) /\
    (forall t o, Etcd.tls cfg = Some t -> opt_tls options = Some o ->
       (is_Some (identity o) <-> is_Some (EtcdTls.client_cert t)) /\ (is_Some (identity o) <-> is_Some (EtcdTls.client_key t)))
  | Err _ => use_tls = true /\ exists path e, fs_read path = Err e
  end.
Proof.
  unfold Etcd.validate, Etcd.validate_connection. intros Hv. cbv zeta. rewrite !andb_true_iff in Hv. destruct Hv as (((Hh & _) & Ht) & Hu & Hep). split.
  - destruct (validate_etcd_endpoints _ _) as [es|] eqn:E; [|done]. exists es. destruct (endpoints_checked _ _ _ E) as [Hc Ho].
    split_and!; [done| |done|done]. intros ->. inversion Ho as [Hnil|]. rewrite <-Hnil in Hh. done.
  - unfold build_connect_options.
    assert (Hpair : forall (a b : option string), (match a, b with None, None => true | Some u, Some w => negb (bool_decide (trim u = "")) && negb (bool_decide (trim w = "")) | _, _ => false end) = true ->
      let o := match a, b with Some u, Some w => Some (u, w) | _, _ => None end in (is_Some o <-> is_Some a) /\ (is_Some o <-> is_Some b)).
    { intros [u|] [w|]; cbn; rewrite ?is_Some_alt; naive_solver. }
    destruct (Hpair _ _ Hu) as [H1 H2]. clear Hpair. destruct (Etcd.tls cfg) as [t|]; cbn [and_then].
    2: { cbn. split_and!; [done|exact H1|exact H2|done]. }
    apply andb_true_iff in Ht as [_ Hm]. unfold build_tls_options, read_pem, EtcdTls.validate_mtls_pair in *.
    destruct (fs_read (EtcdTls.ca_cert t)) eqn:E1; cbn; [|by eauto].
    destruct (EtcdTls.client_cert t) as [c|] eqn:Ec, (EtcdTls.client_key t) as [k|] eqn:Ek; try done; cbn.
    + destruct (fs_read c) eqn:E2; cbn; [|by eauto]. destruct (fs_read k) eqn:E3; cbn; [|by eauto].
      split_and!; [done|exact H1|exact H2|]. intros ? ? [= <-] [= <-]. cbn. rewrite Ec, Ek. by rewrite !is_Some_alt.
    + split_and!; [done|exact H1|exact H2|]. intros ? ? [= <-] [= <-]. cbn. rewrite Ec, Ek. by rewrite !is_Some_alt.
Qed.
End connect.

(** ** Witness *)

(** A parser good enough for [scheme://authority]. *)
Fixpoint split_scheme (s : string) : option (string * string) :=
  match s with
  | EmptyString => None
  | String a s' =>
    if starts_with s "://" then Some ("", String.substring 3 (String.length s) s)
    else '(scheme, rest) ← split_scheme s'; Some (String a scheme, rest)
  end.
#[export] Instance urls : UrlParser := {
  Url := string * string;
  Url_parse s := match split_scheme s with Some u => Ok u | None => Err "relative URL without a base" end;
  url_scheme := fst;
  url_host_str u := if bool_decide (snd u = "") then None else Some (snd u);
  url_username _ := "";
  url_password _ := None;
  url_path _ := "/";
  url_query _ := None;
  url_fragment _ := None;
}.
#[export] Instance files : FileSystem := { fs_read path := if bool_decide (path = "missing.pem") then Err "not found" else Ok ("PEM of " +:+ path) }.

Module Demo.
Definition etcd : Etcd.t := {|
  Etcd.host := ["10.0.0.1:2379"; "https://etcd.internal:2379"]; Etcd.prefix := "/pingsix"; Etcd.timeout := None; Etcd.connect_timeout := Some 9;
  Etcd.user := Some "root"; Etcd.password := Some "pw";
  Etcd.tls := Some {| EtcdTls.ca_cert := "ca.pem"; EtcdTls.client_cert := Some "c.pem"; EtcdTls.client_key := Some "k.pem"; EtcdTls.domain := None |} |}.
Definition plain : Etcd.t := {|
  Etcd.host := ["127.0.0.1:2379"]; Etcd.prefix := "/p"; Etcd.timeout := None; Etcd.connect_timeout := None;
  Etcd.user := None; Etcd.password := None; Etcd.tls := None |}.
End Demo.

Lemma etcd_connection_sound_witness :
  Etcd.validate Demo.etcd = true /\
  exists endpoints, validate_etcd_endpoints (Etcd.host Demo.etcd) true = Ok endpoints /\
    endpoints = ["https://10.0.0.1:2379"; "https://etcd.internal:2379"] /\ Forall (clean_endpoint true) endpoints.
Proof.
  assert (Hv : Etcd.validate Demo.etcd = true) by (vm_compute; reflexivity). split; [exact Hv|].
  destruct (etcd_connection_sound Demo.etcd Hv) as [(es & He & _ & Hc & _) _]. exists es. split; [exact He|]. split; [|exact Hc].
  vm_compute in He. congruence.
Defined.

(** A plaintext endpoint under TLS is refused, not rewritten. *)
Example no_downgrade : validate_etcd_endpoints ["http://etcd:2379"] true = Err (Validation "Invalid etcd endpoint").
Proof. reflexivity. Qed.
