(* ===== verification/EtcdStore.v ===== *)
(** * The etcd graph store ([src/src/config/etcd/store.rs])

    The production [GraphStore] adapter over the etcd client.  The client is
    the class [EtcdClient]; [EtcdLaws] is etcd's documented behaviour (a
    multi-version key space, transactions that compare and write atomically,
    calls that may fail with the transaction applied or not).  The theorems
    relate the adapter to the store contract of [GraphStore]. *)

From Stdlib Require Import ZArith Lia Ascii.
From stdpp Require Import base tactics gmap strings option list.
From S2P Require Import Prelude Errors GraphStore Utf8 EtcdKeys EtcdSync Settings.

Open Scope Z_scope.

(** ** The client *)

Inductive Compare : Type :=
| CreateRevisionEqual (key : string) (revision : Z)
| ModRevisionEqual (key : string) (revision : Z).
Inductive TxnOp : Type := OpPut (key value : string) | OpDelete (key : string).
Record GetResponse : Type := { get_header : option Z; get_kvs : list ListKv }.
Record TxnResponse : Type := { succeeded : bool; txn_header : option Z }.

Class EtcdClient (St : Type) : Type := {
  client_connect : list string -> ConnectOptions -> St -> Result unit string;
  client_get : string -> bool -> St -> Result GetResponse string;
  client_txn : list Compare -> list TxnOp -> St -> Result TxnResponse string * St;
}.

(** A missing key has revision zero; one transaction has one revision. *)
Definition compare_holds (m : gmap string ListKv) (c : Compare) : bool :=
  match c with
  | CreateRevisionEqual k r => default 0 (kv_create_revision <$> m !! k) =? r
  | ModRevisionEqual k r => default 0 (kv_mod_revision <$> m !! k) =? r
  end.
Definition apply_op (revision : Z) (m : gmap string ListKv) (op : TxnOp) : gmap string ListKv :=
  match op with
  | OpPut k v =>
    <[k := {| kv_key := k; kv_value := v; kv_create_revision := default revision (kv_create_revision <$> m !! k); kv_mod_revision := revision |}]> m
  | OpDelete k => delete k m
  end.
Definition apply_ops (revision : Z) (ops : list TxnOp) (m : gmap string ListKv) : gmap string ListKv := fold_left (apply_op revision) ops m.

Class EtcdLaws (St : Type) `{EtcdClient St} : Type := {
  key_space : St -> gmap string ListKv;
  revision : St -> Z;
  key_space_wf st k kv : key_space st !! k = Some kv -> kv_key kv = k /\ 0 < kv_create_revision kv /\ 0 < kv_mod_revision kv <= revision st;
  get_one k st r : client_get k false st = Ok r -> get_kvs r = option_list (key_space st !! k);
  get_range p st r : client_get p true st = Ok r ->
    (forall kv, kv ∈ get_kvs r <-> key_space st !! kv_key kv = Some kv /\ starts_with (kv_key kv) p = true) /\
    (forall h, get_header r = Some h -> h = revision st);
  txn_answered cmps ops st r st' : client_txn cmps ops st = (Ok r, st') ->
    succeeded r = forallb (compare_holds (key_space st)) cmps /\
    (if succeeded r then key_space st' = apply_ops (revision st + 1) ops (key_space st) /\ revision st' = revision st + 1
     else key_space st' = key_space st /\ revision st' = revision st) /\
    (forall h, txn_header r = Some h -> h = revision st');
  txn_failed cmps ops st e st' : client_txn cmps ops st = (Err e, st') ->
    (key_space st' = key_space st /\ revision st' = revision st) \/
    (forallb (compare_holds (key_space st)) cmps = true /\
     key_space st' = apply_ops (revision st + 1) ops (key_space st) /\ revision st' = revision st + 1);
}.

(** ** The adapter *)

Record EtcdGraphStore : Type := { config : Etcd.t; canonical_prefix : string }.
Definition EtcdGraphStore_new (cfg : Etcd.t) : EtcdGraphStore := {| config := cfg; canonical_prefix := canonicalize_prefix (Etcd.prefix cfg) |}.

Section store.
Context {St : Type} `{EtcdClient St} `{UrlParser} `{FileSystem}.
Context (self : EtcdGraphStore).

(** The client is created on first use and shared afterwards; a cached client
    is a connection that succeeds. *)
Definition ensure_connected (st : St) : ProxyResult unit := create_client client_connect (config self) st.

Definition prefixed_key (key : string) : string := with_prefix (canonical_prefix self) key.

Definition list_keys (key : string) (st : St) : ProxyResult GetResponse :=
  let? _ := ensure_connected st in
  let prefixed_key := with_prefix (canonical_prefix self) key in
  map_err (etcd_error_with_cause ("List operation for key '" +:+ prefixed_key +:+ "' failed")) (client_get prefixed_key true st).

Definition graph_txn (key : string) (value : option Bytes) (expected_mod_revision guard_mod_revision : option Z) (st : St) : ProxyResult Z * St :=
  match ensure_connected st with
  | Err e => (Err e, st)
  | Ok _ =>
    let target := match expected_mod_revision with None => CreateRevisionEqual key 0 | Some revision => ModRevisionEqual key revision end in
    let guard_key := prefixed_key GRAPH_REVISION_KEY in
    let guard := match guard_mod_revision with None => CreateRevisionEqual guard_key 0 | Some revision => ModRevisionEqual guard_key revision end in
    let mutation := match value with Some value => OpPut key value | None => OpDelete key end in
    match client_txn [target; guard] [mutation; OpPut guard_key GRAPH_PROTOCOL_VERSION] st with
    | (Err e, st) => (Err (etcd_error_with_cause "graph transaction failed" e), st)
    | (Ok response, st) =>
      if negb (succeeded response) then (Err (CasConflictError "configuration graph changed concurrently"), st)
      else (ok_or (EtcdError "graph transaction: missing response header") (txn_header response), st)
    end
  end.

Definition etcd_get_exact (key : ResourceKey) (st : St) : Result (option StoredResource) StoreError :=
  let? _ := map_err Unavailable (ensure_connected st) in
  let physical_key := with_prefix (canonical_prefix self) (logical_path key) in
  let? response := map_err (fun e => Unavailable (etcd_error_with_cause ("Failed to read resource '" +:+ physical_key +:+ "'") e))
                     (client_get physical_key false st) in
  Ok (kv_resource <$> head (get_kvs response)).

Definition list_kind_entry (k : ResourceKind) (kv : ListKv) : Result (ResourceKey * StoredResource) StoreError :=
  let? key := map_err InvalidResponse (physical_key_to_resource_key (kv_key kv) (canonical_prefix self)) in
  if negb (bool_decide (kind key = k)) then
    Err (InvalidResponse ("resource '" +:+ logical_path key +:+ "' is outside requested kind '" +:+ kind_as_str k +:+ "'"))
  else Ok (key, kv_resource kv).

Definition etcd_list_kind (k : ResourceKind) (st : St) : Result (list (ResourceKey * StoredResource)) StoreError :=
  let? _ := map_err Unavailable (ensure_connected st) in
  let physical_prefix := with_prefix (canonical_prefix self) (kind_as_str k +:+ "/") in
  let? response := map_err (fun e => Unavailable (etcd_error_with_cause ("Failed to list resources under '" +:+ physical_prefix +:+ "'") e))
                     (client_get physical_prefix true st) in
  try_fold (fun (acc : list (ResourceKey * StoredResource)) kv => let? entry := list_kind_entry k kv in Ok (acc ++ [entry])%list) [] (get_kvs response).

Definition etcd_snapshot (st : St) : Result StoredGraph StoreError :=
  let? _ := map_err Unavailable (ensure_connected st) in
  let? response := map_err (fun e => Unavailable (etcd_error_with_cause ("Failed to read full graph for prefix '" +:+ canonical_prefix self +:+ "'") e))
                     (client_get (canonical_prefix self) true st) in
  let? header := ok_or (InvalidResponse "snapshot: missing response header") (get_header response) in
  graph_snapshot_from_list (get_kvs response) header (canonical_prefix self).

Definition etcd_compare_and_swap (commit : GraphCommit) (st : St) : Result Z StoreError * St :=
  let '(key, value) :=
    match mutation commit with
    | MutationPut key value => (with_prefix (canonical_prefix self) (logical_path key), Some value)
    | MutationDelete key => (with_prefix (canonical_prefix self) (logical_path key), None)
    end in
  let '(r, st) := graph_txn key value (expected_target_mod_revision commit) (expected_guard_mod_revision commit) st in
  (map_err (fun e => match e with CasConflictError _ => Conflict | other => Unavailable other end) r, st).

Definition etcd_graph_store : GraphStore St := {|
  get_exact := etcd_get_exact;
  list_kind := etcd_list_kind;
  snapshot := etcd_snapshot;
  compare_and_swap := etcd_compare_and_swap;
|}.

End store.

(** ** The graph a key space holds *)

Section graph_of.
Context (p : string).

(** The listing a range read may return, in any order. *)
Definition listing (m : gmap string ListKv) (l : list ListKv) : Prop :=
  forall kv, kv ∈ l <-> m !! kv_key kv = Some kv /\ starts_with (kv_key kv) p = true.

(** What pingsix itself writes: keys of the namespace are UTF-8. *)
Definition space_ok (m : gmap string ListKv) : Prop :=
  (forall k kv, m !! k = Some kv -> kv_key kv = k) /\
  (forall k, is_Some (m !! k) -> starts_with k p = true -> utf8_valid k = true).

Definition visible (rk : ResourceKey) : bool :=
  bool_decide (key_wf rk) && utf8_valid (with_prefix p (logical_path rk)) && negb (starts_with (id rk) ".").

Definition acceptable (kv : ListKv) : bool := is_ok (list_step p (∅, None) kv).

(** A graph and the key space it is read from. *)
Record represents (m : gmap string ListKv) (rev : Z) (g : StoredGraph) : Prop := {
  rp_ok k kv : m !! k = Some kv -> starts_with k p = true -> acceptable kv = true;
  rp_revision : graph_revision g = rev;
  rp_guard : guard_mod_revision g = kv_mod_revision <$> m !! guard_key p;
  rp_resources rk : resources g !! rk = if visible rk then kv_resource <$> m !! with_prefix p (logical_path rk) else None;
}.

Lemma list_step_ok kv acc : is_ok (list_step p acc kv) = acceptable kv.
Proof.
  unfold acceptable, list_step. destruct acc as [rs gd].
  destruct (negb _); [done|]. destruct (bool_decide _); [by destruct (validate_guard_value _)|].
  destruct (is_metadata_key _); [done|]. by destruct (physical_key_to_resource_key _ _).
Qed.

Lemma try_fold_acceptable l acc : is_ok (try_fold (list_step p) acc l) = forallb acceptable l.
Proof.
  revert acc. induction l as [|kv l IH]; intros acc; [done|]. cbn [try_fold forallb]. rewrite <-(list_step_ok kv acc).
  destruct (list_step p acc kv) as [acc'|]; [apply IH|done].
Qed.

Lemma last_filter_listing m l k (P : ListKv -> Prop) `{!forall kv, Decision (P kv)} :
  listing m l -> (forall kv, kv ∈ l -> P kv <-> kv_key kv = k) -> (forall kv, m !! k = Some kv -> kv_key kv = k) ->
  starts_with k p = true -> list.last (filter P l) = m !! k.
Proof.
  intros Hl HP Hm Hs. destruct (list.last (filter P l)) as [kv|] eqn:E.
  - apply last_Some_elem_of, list_elem_of_filter in E as [Hkv Hin]. apply HP in Hkv; [|done]. apply Hl in Hin as [Hin _]. by rewrite Hkv in Hin.
  - apply last_None in E. destruct (m !! k) as [kv|] eqn:Ek; [|done]. specialize (Hm kv eq_refl).
    assert (Hin : kv ∈ l) by (apply Hl; by rewrite Hm). assert (Hf : kv ∈ filter P l) by (apply list_elem_of_filter; split; [by apply HP|done]).
    rewrite E in Hf. by apply elem_of_nil in Hf.
Qed.

(** Only well-formed resource keys of the namespace are read. *)
Lemma list_step_keys rs gd kv rs' gd' rk : list_step p (rs, gd) kv = Ok (rs', gd') ->
  is_Some (rs' !! rk) -> is_Some (rs !! rk) \/ (key_wf rk /\ utf8_valid (with_prefix p (logical_path rk)) = true).
Proof.
  unfold list_step. destruct (negb _); [intros [= <- <-]; by left|].
  destruct (bool_decide _). { intros ([] & _ & [= <- <-])%and_then_ok. by left. }
  destruct (is_metadata_key _); [intros [= <- <-]; by left|].
  intros (rk' & Hrk & [= <- <-])%and_then_ok. destruct (physical_key_to_resource_key _ _) as [rk0|] eqn:E; [|done]. injection Hrk as ->.
  apply physical_key_roundtrip in E as (Hu & E & Hwf). destruct (decide (rk = rk')) as [->|Hne]; [right; split; congruence|].
  rewrite lookup_insert_ne by done. by left.
Qed.

Lemma snapshot_keys l acc rs gd rk : try_fold (list_step p) acc l = Ok (rs, gd) ->
  is_Some (rs !! rk) -> is_Some (acc.1 !! rk) \/ (key_wf rk /\ utf8_valid (with_prefix p (logical_path rk)) = true).
Proof.
  revert acc. induction l as [|kv l IH]; intros [rs0 gd0]; [intros [= <- <-]; by left|].
  cbn [try_fold]. intros ([rs1 gd1] & Hs & Hf)%and_then_ok Hrk. destruct (IH _ Hf Hrk) as [H1|]; [|by right].
  by eapply list_step_keys.
Qed.

Lemma snapshot_keys_wf l rs gd rk : try_fold (list_step p) (∅, None) l = Ok (rs, gd) ->
  rs !! rk = None \/ (key_wf rk /\ utf8_valid (with_prefix p (logical_path rk)) = true).
Proof.
  intros Hf. destruct (rs !! rk) eqn:E; [right|by left].
  destruct (snapshot_keys _ _ _ _ rk Hf) as [[? Hx]|]; [by eexists| |done]. cbn [fst] in Hx. by rewrite lookup_empty in Hx.
Qed.

Lemma snapshot_represents m l rev g : space_ok m -> utf8_valid (guard_key p) = true -> listing m l ->
  graph_snapshot_from_list l rev p = Ok g -> represents m rev g.
Proof.
  intros [Hk Hu] Hgu Hl Hg. pose proof Hg as (Hrev & Hguard & Hres)%snapshot_from_list_lookup.
  unfold graph_snapshot_from_list in Hg. apply and_then_ok in Hg as ([rs gd] & Hf & [= <-]). cbn [fst snd] in *. split; [|done|..].
  - intros k kv Hm Hs. assert (Hin : kv ∈ l) by (apply Hl; by rewrite (Hk _ _ Hm)).
    pose proof (try_fold_acceptable l (∅, None)) as Ha. rewrite Hf in Ha. symmetry in Ha. cbn in Ha.
    rewrite forallb_forall in Ha. apply Ha. by apply list_elem_of_In.
  - rewrite Hguard. f_equal. apply (last_filter_listing m); [done| |by intros kv ?; apply Hk|apply starts_with_app].
    intros kv Hin. apply Hl in Hin as [Hm Hs]. rewrite utf8_chunks_lossy; [done|]. by apply Hu.
  - intros rk. unfold visible. cbn [resources] in *. destruct (decide (key_wf rk)) as [Hwf|Hwf]; [rewrite bool_decide_true by done|rewrite bool_decide_false by done]; cbn [andb].
    2: by destruct (snapshot_keys_wf _ _ _ rk Hf) as [|[? _]].
    destruct (utf8_valid (with_prefix p (logical_path rk))) eqn:Hv; cbn [andb].
    2: destruct (snapshot_keys_wf _ _ _ rk Hf) as [|[_ ?]]; [done|congruence].
    rewrite (Hres rk) by done. destruct (starts_with (id rk) "."); [done|]. cbn [negb]. f_equal.
    apply (last_filter_listing m); [done|done|by intros kv ?; apply Hk|apply physical_starts].
Qed.

Lemma represents_unique m rev g g' : represents m rev g -> represents m rev g' -> g = g'.
Proof.
  intros [_ H1 H2 H3] [_ H1' H2' H3']. destruct g, g'; cbn in *. f_equal; [|congruence..]. apply map_eq. intros rk. by rewrite H3, H3'.
Qed.

Lemma represents_snapshot m l rev g : space_ok m -> utf8_valid (guard_key p) = true -> listing m l ->
  represents m rev g -> graph_snapshot_from_list l rev p = Ok g.
Proof.
  intros Hok Hgu Hl Hg. pose proof (try_fold_acceptable l (∅, None)) as Ha.
  assert (Hall : forallb acceptable l = true).
  { apply forallb_forall. intros kv Hin%list_elem_of_In. apply Hl in Hin as [Hm Hs]. by apply (rp_ok _ _ _ Hg _ _ Hm). }
  rewrite Hall in Ha. destruct (try_fold (list_step p) (∅, None) l) as [acc|] eqn:Hf; [|done].
  assert (Hr : graph_snapshot_from_list l rev p = Ok {| resources := acc.1; guard_mod_revision := acc.2; graph_revision := rev |}).
  { unfold graph_snapshot_from_list. by rewrite Hf. }
  rewrite Hr. f_equal. eapply represents_unique; [|exact Hg]. by eapply snapshot_represents.
Qed.

(** ** Transactions on a represented graph *)

Definition commit_key (commit : GraphCommit) : string := with_prefix p (logical_path (mutation_key (mutation commit))).

(** Revisions come from reads, so they are positive. *)
Definition commit_ok (commit : GraphCommit) : Prop :=
  visible (mutation_key (mutation commit)) = true /\ expects_positive commit.

Definition compares (commit : GraphCommit) : list Compare :=
  [match expected_target_mod_revision commit with None => CreateRevisionEqual (commit_key commit) 0 | Some r => ModRevisionEqual (commit_key commit) r end;
   match expected_guard_mod_revision commit with None => CreateRevisionEqual (guard_key p) 0 | Some r => ModRevisionEqual (guard_key p) r end].
Definition ops (commit : GraphCommit) : list TxnOp :=
  [match mutation commit with MutationPut _ v => OpPut (commit_key commit) v | MutationDelete _ => OpDelete (commit_key commit) end;
   OpPut (guard_key p) GRAPH_PROTOCOL_VERSION].

Definition positive (m : gmap string ListKv) : Prop := forall k kv, m !! k = Some kv -> 0 < kv_create_revision kv /\ 0 < kv_mod_revision kv.

Lemma compare_one m k expected : positive m -> (forall r, expected = Some r -> 0 < r) ->
  compare_holds m (match expected with None => CreateRevisionEqual k 0 | Some r => ModRevisionEqual k r end) =
  match expected with None => bool_decide (m !! k = None) | Some r => bool_decide (kv_mod_revision <$> m !! k = Some r) end.
Proof.
  intros Hp He. apply eq_true_iff_eq. destruct expected as [r|]; cbn; rewrite bool_decide_eq_true, Z.eqb_eq; destruct (m !! k) as [kv|] eqn:E; cbn.
  - split; [by intros ->|by intros [= ->]].
  - specialize (He r eq_refl). split; [lia|done].
  - destruct (Hp k kv E). split; [lia|done].
  - done.
Qed.

Lemma compares_match m rev g commit : represents m rev g -> positive m -> commit_ok commit ->
  forallb (compare_holds m) (compares commit) = target_matches g commit && guard_matches g commit.
Proof.
  intros Hg Hp (Hv & Ht & Hgd). unfold compares. cbn [forallb]. rewrite andb_true_r, !compare_one by done. f_equal.
  - unfold target_matches. rewrite (rp_resources _ _ _ Hg), Hv. fold (commit_key commit). cbv zeta.
    destruct (expected_target_mod_revision commit), (m !! commit_key commit); cbn; repeat case_bool_decide; naive_solver.
  - unfold guard_matches. rewrite (rp_guard _ _ _ Hg).
    destruct (expected_guard_mod_revision commit), (m !! guard_key p); cbn; repeat case_bool_decide; naive_solver.
Qed.

Lemma commit_not_guard commit : commit_key commit <> guard_key p.
Proof. apply physical_not_guard. Qed.

Lemma ops_lookup rev commit m k : apply_ops rev (ops commit) m !! k =
  if decide (k = guard_key p) then
    Some {| kv_key := k; kv_value := GRAPH_PROTOCOL_VERSION; kv_create_revision := default rev (kv_create_revision <$> m !! k); kv_mod_revision := rev |}
  else if decide (k = commit_key commit) then
    match mutation commit with
    | MutationPut _ v => Some {| kv_key := k; kv_value := v; kv_create_revision := default rev (kv_create_revision <$> m !! k); kv_mod_revision := rev |}
    | MutationDelete _ => None
    end
  else m !! k.
Proof.
  pose proof (commit_not_guard commit) as Hne. unfold apply_ops, ops. cbn [fold_left apply_op]. destruct (decide (k = guard_key p)) as [->|Hg].
  - rewrite lookup_insert_eq. destruct (mutation commit); cbn [apply_op]; [by rewrite lookup_insert_ne|by rewrite lookup_delete_ne].
  - rewrite lookup_insert_ne by done. destruct (decide (k = commit_key commit)) as [->|Hc].
    + destruct (mutation commit); cbn [apply_op]; [by rewrite lookup_insert_eq|by rewrite lookup_delete_eq].
    + destruct (mutation commit); cbn [apply_op]; [by rewrite lookup_insert_ne|by rewrite lookup_delete_ne].
Qed.

Lemma visible_spec rk : visible rk = true <-> key_wf rk /\ utf8_valid (with_prefix p (logical_path rk)) = true /\ starts_with (id rk) "." = false.
Proof. unfold visible. rewrite !andb_true_iff, bool_decide_eq_true, negb_true_iff. tauto. Qed.

Lemma visible_inj rk rk' : visible rk = true -> visible rk' = true ->
  with_prefix p (logical_path rk) = with_prefix p (logical_path rk') -> rk = rk'.
Proof.
  intros (H1 & H2 & _)%visible_spec (H1' & H2' & _)%visible_spec E.
  pose proof (proj2 (physical_key_roundtrip (with_prefix p (logical_path rk)) p rk) (conj H2 (conj eq_refl H1))) as Hr.
  pose proof (proj2 (physical_key_roundtrip (with_prefix p (logical_path rk')) p rk') (conj H2' (conj eq_refl H1'))) as Hr'. congruence.
Qed.

Lemma guard_acceptable kv : utf8_valid (guard_key p) = true -> kv_key kv = guard_key p -> kv_value kv = GRAPH_PROTOCOL_VERSION -> acceptable kv = true.
Proof.
  intros Hu Hk Hv. unfold acceptable, list_step. rewrite Hk, Hv, utf8_chunks_lossy by done.
  replace (starts_with (guard_key p) p) with true by (symmetry; apply starts_with_app). by rewrite bool_decide_true.
Qed.

Lemma resource_acceptable kv rk : visible rk = true -> kv_key kv = with_prefix p (logical_path rk) -> acceptable kv = true.
Proof.
  intros (Hwf & Hu & Hd)%visible_spec Hk. unfold acceptable, list_step. rewrite Hk, utf8_chunks_lossy, physical_starts by done. cbn [negb].
  rewrite bool_decide_false by apply physical_not_guard. rewrite metadata_key_physical, Hd by done.
  by rewrite (proj2 (physical_key_roundtrip _ _ rk)) by done.
Qed.

Lemma ops_space_ok m rev commit : utf8_valid (guard_key p) = true -> visible (mutation_key (mutation commit)) = true ->
  space_ok m -> space_ok (apply_ops rev (ops commit) m).
Proof.
  intros Hgu (_ & Hu & _)%visible_spec [Hk Hm]. split.
  - intros k kv. rewrite ops_lookup. repeat case_decide; [by intros [= <-]| |by apply Hk]. destruct (mutation commit); [by intros [= <-]|done].
  - intros k. rewrite ops_lookup. repeat case_decide; [by subst|by subst|by apply Hm].
Qed.

Lemma ops_represent m rev rev' g commit : utf8_valid (guard_key p) = true -> visible (mutation_key (mutation commit)) = true ->
  space_ok m -> represents m rev g -> represents (apply_ops rev' (ops commit) m) rev' (committed commit rev' g).
Proof.
  intros Hgu Hv [Hk Hm] Hg. split; [| done | |].
  - intros k kv. rewrite ops_lookup. repeat case_decide; subst.
    + intros [= <-] _. by apply guard_acceptable.
    + destruct (mutation commit) as [rk v|] eqn:E; [|done]. intros [= <-] _. apply (resource_acceptable _ rk); [done|]. unfold commit_key. cbn. by rewrite E.
    + apply (rp_ok _ _ _ Hg).
  - rewrite ops_lookup, decide_True by done. done.
  - intros rk. rewrite ops_lookup, decide_False by apply physical_not_guard. unfold committed. cbn [resources].
    pose proof (rp_resources _ _ _ Hg) as Hr. unfold commit_key. destruct (decide (rk = mutation_key (mutation commit))) as [->|Hne].
    + specialize (Hr (mutation_key (mutation commit))). rewrite Hv in *. rewrite decide_True by done. fold (commit_key commit) in *.
      destruct (mutation commit) as [rk v|rk]; cbn [apply_mutation mutation_key] in *; [|by rewrite lookup_delete_eq].
      rewrite lookup_insert_eq, Hr. cbn. unfold kv_resource. cbn. by destruct (m !! commit_key commit).
    + assert (Ha : apply_mutation rev' (mutation commit) (resources g) !! rk = resources g !! rk).
      { destruct (mutation commit); cbn in *; [by rewrite lookup_insert_ne|by rewrite lookup_delete_ne]. }
      rewrite Ha, Hr. destruct (visible rk) eqn:Ev; [|done]. rewrite decide_False; [done|]. intros E. by apply Hne, visible_inj.
Qed.

End graph_of.

(** ** The adapter over etcd *)

Section refinement.
Context {St : Type} `{EtcdLaws St} `{UrlParser} `{FileSystem} (self : EtcdGraphStore).
Abbreviation p := (canonical_prefix self).

Definition store_ok (st : St) : Prop := space_ok p (key_space st) /\ utf8_valid (guard_key p) = true.

(** The namespace of [st] holds the graph [g]. *)
Definition holds (st : St) (g : StoredGraph) : Prop := represents p (key_space st) (revision st) g.

Lemma key_space_positive st : positive (key_space st).
Proof. intros k kv Hk. destruct (key_space_wf st k kv Hk) as (_ & ? & ? & _). lia. Qed.

Lemma snapshot_holds st g : store_ok st -> etcd_snapshot self st = Ok g -> holds st g.
Proof.
  intros [Hs Hu]. unfold etcd_snapshot. intros ([] & _ & (r & Hr & (h & Hh & Hg)%and_then_ok)%and_then_ok)%and_then_ok.
  destruct (client_get p true st) as [r0|] eqn:E; [|done]. injection Hr as ->. destruct (get_range p st r E) as [Hl Hrev].
  destruct (get_header r) as [h0|] eqn:Eh; [|done]. injection Hh as ->. rewrite (Hrev h eq_refl) in Hg. by eapply snapshot_represents.
Qed.

(** Connecting never reports a conflict. *)
Definition no_conflict {A} (r : ProxyResult A) : Prop := forall m, r <> Err (CasConflictError m).

Lemma no_conflict_then {A B} (r : ProxyResult A) (f : A -> ProxyResult B) :
  no_conflict r -> (forall a, no_conflict (f a)) -> no_conflict (let? a := r in f a).
Proof. intros Hr Hf m. destruct r as [a|e]; cbn; [apply Hf|]. intros [= ->]. by apply (Hr m). Qed.

Lemma no_conflict_ok {A} (a : A) : no_conflict (Ok a).
Proof. done. Qed.

Lemma no_conflict_map_err {A E} (f : E -> ProxyError) (r : Result A E) : (forall e m, f e <> CasConflictError m) -> no_conflict (map_err f r).
Proof. intros Hf m. destruct r; cbn; [done|]. intros [= He]. by apply Hf in He. Qed.

Lemma create_client_no_conflict connect cfg (st : St) : no_conflict (create_client connect cfg st).
Proof.
  assert (Hp : forall path label, no_conflict (read_pem path label)) by (intros; by apply no_conflict_map_err).
  unfold create_client, build_connect_options, build_tls_options.
  apply no_conflict_then; [apply no_conflict_then; [|intros; apply no_conflict_ok]|intros; apply no_conflict_then].
  - destruct (Etcd.tls cfg) as [t|]; [|apply no_conflict_ok]. apply no_conflict_then; [|intros; apply no_conflict_ok].
    apply no_conflict_then; [done|intros]. apply no_conflict_then; [|intros; apply no_conflict_ok].
    destruct (EtcdTls.client_cert t), (EtcdTls.client_key t); try apply no_conflict_ok.
    apply no_conflict_then; [done|intros]. apply no_conflict_then; [done|intros; apply no_conflict_ok].
  - induction (Etcd.host cfg) as [|h hs IH]; cbn; [apply no_conflict_ok|]. apply no_conflict_then; [|intros; apply no_conflict_then; [done|intros; apply no_conflict_ok]].
    apply no_conflict_then; [by apply no_conflict_map_err|]. intros u. by destruct (_ || _).
  - intros. by apply no_conflict_map_err.
Qed.

(** One commit, by the answer of the transaction. *)
Lemma txn_step commit st g r st' : store_ok st -> commit_ok p commit -> holds st g ->
  client_txn (compares p commit) (ops p commit) st = (r, st') ->
  let matches := target_matches g commit && guard_matches g commit in
  let applied := matches = true /\ revision st' = revision st + 1 /\ holds st' (committed commit (revision st + 1) g) in
  store_ok st' /\
  match r with
  | Ok response => succeeded response = matches /\ (forall h, txn_header response = Some h -> h = revision st') /\ if matches then applied else holds st' g
  | Err _ => holds st' g \/ applied
  end.
Proof.
  intros [Hs Hu] Hc Hg Ht. cbv zeta. pose proof (compares_match p _ _ _ _ Hg (key_space_positive st) Hc) as Hm.
  pose proof (ops_represent p _ _ (revision st + 1) _ commit Hu (proj1 Hc) Hs Hg) as Hrep.
  pose proof (ops_space_ok p _ (revision st + 1) commit Hu (proj1 Hc) Hs) as Hsp. unfold holds, store_ok in *.
  destruct r as [response|e].
  - destruct (txn_answered _ _ _ _ _ Ht) as (Hsu & Hst & Hh). rewrite Hm in Hsu. rewrite Hsu in *.
    destruct (_ && _); destruct Hst as [-> Hrev]; rewrite Hrev in *; done.
  - destruct (txn_failed _ _ _ _ _ Ht) as [[-> ->]|(Hmt & -> & ->)]; [split; [done|by left]|].
    rewrite Hm in Hmt. split; [done|right; done].
Qed.

Lemma cas_unfold commit st : etcd_compare_and_swap self commit st =
  match ensure_connected self st with
  | Err e => (Err (match e with CasConflictError _ => Conflict | other => Unavailable other end), st)
  | Ok _ =>
    match client_txn (compares p commit) (ops p commit) st with
    | (Err e, st') => (Err (Unavailable (etcd_error_with_cause "graph transaction failed" e)), st')
    | (Ok response, st') =>
      (if negb (succeeded response) then Err Conflict
       else match txn_header response with Some h => Ok h | None => Err (Unavailable (EtcdError "graph transaction: missing response header")) end, st')
    end
  end.
Proof.
  unfold etcd_compare_and_swap, graph_txn, compares, ops, commit_key, prefixed_key.
  replace (with_prefix p GRAPH_REVISION_KEY) with (guard_key p) by done.
  destruct (mutation commit); cbn [mutation_key]; destruct (ensure_connected self st); try done;
    destruct (client_txn _ _ st) as [[response|e] st']; try done; destruct (succeeded response); try done; by destruct (txn_header response).
Qed.

(** C8.  The etcd store refines the store contract.  On a namespace whose
    snapshot reads as a graph, a commit through the etcd adapter acknowledges
    only a commit both of whose expectations held, at the revision of the graph
    it produced; reports a conflict exactly when an expectation did not hold,
    and then changes nothing; and when it reports the store unavailable the
    commit is either applied whole or not at all.  In every case the namespace
    still reads as a graph. *)
Theorem etcd_cas_refines commit st g r st' : store_ok st -> commit_ok p commit ->
  etcd_snapshot self st = Ok g -> etcd_compare_and_swap self commit st = (r, st') ->
  let matches := target_matches g commit && guard_matches g commit in
  let rev := graph_revision g + 1 in
  store_ok st' /\
  match r with
  | Ok revision => matches = true /\ revision = rev /\ holds st' (committed commit rev g)
  | Err Conflict => matches = false /\ holds st' g
  | Err (Unavailable _) => holds st' g \/ (matches = true /\ holds st' (committed commit rev g))
  | Err _ => False
  end.
Proof.
  intros Hs Hc Hsn. apply snapshot_holds in Hsn as Hg; [|done]. cbv zeta. rewrite (rp_revision _ _ _ _ Hg), cas_unfold. unfold ensure_connected.
  destruct (create_client _ _ st) as [[]|e] eqn:Ec.
  2: { intros [= <- <-]. split; [done|]. destruct e; try (by left). by apply create_client_no_conflict in Ec. }
  destruct (client_txn _ _ st) as [r0 st1] eqn:Et. destruct (txn_step _ _ _ _ _ Hs Hc Hg Et) as [Hs' Hr].
  destruct r0 as [response|e]; intros [= <- <-]; (split; [done|]).
  - destruct Hr as (-> & Hh & Hr). destruct (_ && _); cbn [negb]; [|done]. destruct Hr as (_ & Hrev & Hr).
    destruct (txn_header response) as [h|]; [|by right]. split_and!; [done| |done]. rewrite (Hh h eq_refl). exact Hrev.
  - destruct Hr as [?|(? & _ & ?)]; [by left|by right].
Qed.

(** ** Reads *)

Definition kind_prefix (k : ResourceKind) : string := with_prefix p (kind_as_str k +:+ "/").

Lemma kind_prefix_eq k : kind_prefix k = p +:+ kind_as_str k +:+ "/".
Proof. unfold kind_prefix, with_prefix. by destruct k. Qed.

Lemma logical_kind k rk rest : logical_path rk = kind_as_str k +:+ "/" +:+ rest -> kind rk = k.
Proof.
  intros E. pose proof (logical_path_split rk) as Hs. rewrite E in Hs. change ("/" +:+ rest) with (String slash rest) in Hs.
  rewrite (split_once_app slash) in Hs by apply kind_no_slash. injection Hs as Hk _. pose proof (kind_parse_as_str k) as Hkp. rewrite Hk, kind_parse_as_str in Hkp. by injection Hkp.
Qed.

(** A listed key of one kind is a resource of that kind. *)
Lemma kind_entry st g k kv : store_ok st -> holds st g -> key_space st !! kv_key kv = Some kv ->
  starts_with (kv_key kv) (kind_prefix k) = true -> is_metadata_key (kv_key kv) = false ->
  exists rk, list_kind_entry self k kv = Ok (rk, kv_resource kv) /\ kind rk = k /\ kv_key kv = with_prefix p (logical_path rk) /\ visible p rk = true.
Proof.
  intros [[Hk Hu] _] Hg Hm Hs Hd. apply starts_with_spec in Hs as [rest Hkey]. rewrite kind_prefix_eq, !str_app_assoc in Hkey.
  assert (Hp : starts_with (kv_key kv) p = true) by (rewrite Hkey; apply starts_with_app).
  assert (Hv : utf8_valid (kv_key kv) = true) by (by apply Hu).
  pose proof (rp_ok _ _ _ _ Hg _ _ Hm Hp) as Ha. unfold acceptable, list_step in Ha. rewrite utf8_chunks_lossy, Hp, Hd in Ha by done. cbn [negb] in Ha.
  rewrite bool_decide_false in Ha.
  2: { rewrite Hkey. unfold guard_key. intros E%app_cancel_l. apply (f_equal (contains_char slash)) in E. rewrite !contains_char_app in E. cbn in E. by rewrite orb_true_r in E. }
  destruct (physical_key_to_resource_key (kv_key kv) p) as [rk|] eqn:Er; [|done]. apply physical_key_roundtrip in Er as Hr. destruct Hr as (_ & Hpath & Hwf).
  assert (Hkind : kind rk = k).
  { apply (logical_kind _ _ rest). rewrite Hpath in Hkey. unfold with_prefix in Hkey. rewrite trim_start_logical_path in Hkey. by apply app_cancel_l in Hkey. }
  exists rk. unfold list_kind_entry. rewrite Er. cbn [map_err and_then]. rewrite bool_decide_true by done. split_and!; [done|done|done|].
  apply visible_spec. split_and!; [done|congruence|]. rewrite Hpath in Hd. rewrite metadata_key_physical in Hd by congruence. done.
Qed.

Lemma list_entries k l acc out :
  (forall kv, kv ∈ l -> exists rk, list_kind_entry self k kv = Ok (rk, kv_resource kv) /\ kind rk = k /\ kv_key kv = with_prefix p (logical_path rk) /\ visible p rk = true) ->
  try_fold (fun (acc : list (ResourceKey * StoredResource)) kv => let? entry := list_kind_entry self k kv in Ok (acc ++ [entry])%list) acc l = out ->
  exists es, out = Ok (acc ++ es)%list /\ forall rk res, (rk, res) ∈ es <->
    exists kv, kv ∈ l /\ res = kv_resource kv /\ kind rk = k /\ kv_key kv = with_prefix p (logical_path rk) /\ visible p rk = true.
Proof.
  revert acc out. induction l as [|kv l IH]; intros acc out Hl.
  { intros <-. exists []. split; [by rewrite app_nil_r|]. intros rk res. split; [by intros ?%elem_of_nil|]. intros (kv & ?%elem_of_nil & _). done. }
  destruct (Hl kv) as (rk0 & He & Hk0 & Hp0 & Hv0); [by left|]. cbn [try_fold]. rewrite He. cbn [and_then]. intros Hout.
  destruct (IH _ _ (fun kv' Hin => Hl kv' (list_elem_of_further _ _ _ Hin)) Hout) as (es & Hes & Hspec).
  exists ((rk0, kv_resource kv) :: es). split; [by rewrite Hes, <-app_assoc|]. intros rk res. rewrite elem_of_cons, Hspec. split.
  - intros [[= -> ->]|(kv' & Hin & Hr)]; [exists kv; split; [by left|done]|exists kv'; split; [by right|done]].
  - intros (kv' & [->|Hin]%elem_of_cons & Hres & Hkd & Hpath & Hv); [left|right; by exists kv'].
    f_equal; [|done]. apply (visible_inj p); [done|done|congruence].
Qed.

(** The reads of the etcd store agree.  On a namespace that holds the
    graph [g], a snapshot that is read is exactly [g]; reading one resource
    gives its entry in [g]; and listing a kind gives exactly the resources of
    that kind in [g], in whatever order etcd answers, as long as no metadata
    key (an id that starts with a dot) is stored under it. *)
Theorem etcd_reads_agree st g : store_ok st -> holds st g ->
  match etcd_snapshot self st with
  | Ok g' => g' = g
  | Err (InvalidResponse m) => m = "snapshot: missing response header"
  | Err e => exists cause, e = Unavailable cause
  end /\
  (forall rk, visible p rk = true ->
     match etcd_get_exact self rk st with Ok r => r = resources g !! rk | Err e => exists cause, e = Unavailable cause end) /\
  (forall k, (forall key, is_Some (key_space st !! key) -> starts_with key (kind_prefix k) = true -> is_metadata_key key = false) ->
     match etcd_list_kind self k st with
     | Ok l => forall rk res, (rk, res) ∈ l <-> kind rk = k /\ resources g !! rk = Some res
     | Err e => exists cause, e = Unavailable cause
     end).
Proof.
  intros Hok Hg. pose proof Hok as [[Hks Hku] Hgu]. split_and!.
  - unfold etcd_snapshot. destruct (ensure_connected self st) as [[]|e]; cbn; [|by eexists]. destruct (client_get p true st) as [r|] eqn:E; cbn; [|by eexists].
    destruct (get_range p st r E) as [Hl Hrev]. destruct (get_header r) as [h|] eqn:Eh; cbn; [|done]. rewrite (Hrev h eq_refl).
    by rewrite (represents_snapshot p _ _ _ _ (proj1 Hok) Hgu Hl Hg).
  - intros rk Hv. unfold etcd_get_exact. destruct (ensure_connected self st) as [[]|e]; cbn; [|by eexists].
    destruct (client_get _ false st) as [r|] eqn:E; cbn; [|by eexists]. rewrite (get_one _ _ _ E), (rp_resources _ _ _ _ Hg), Hv.
    by destruct (key_space st !! with_prefix p (logical_path rk)).
  - intros k Hd. unfold etcd_list_kind. destruct (ensure_connected self st) as [[]|e]; cbn [map_err and_then]; [|by eexists]. fold (kind_prefix k).
    destruct (client_get (kind_prefix k) true st) as [r|] eqn:E; cbn [map_err and_then]; [|by eexists]. destruct (get_range _ st r E) as [Hl _].
    edestruct (list_entries k (get_kvs r) []) as (es & -> & Hes); [|reflexivity|].
    { intros kv [Hm Hs]%Hl. eapply kind_entry; [done|done|done|done|]. apply Hd; [by eexists|done]. }
    intros rk res. cbn [app]. rewrite Hes, (rp_resources _ _ _ _ Hg). split.
    + intros (kv & [Hm _]%Hl & -> & Hk & Hpath & Hv). rewrite Hv, <-Hpath, Hm. done.
    + intros [Hk Hr]. destruct (visible p rk) eqn:Hv; [|done]. destruct (key_space st !! _) as [kv|] eqn:Em; [|done]. injection Hr as <-.
      pose proof (Hks _ _ Em) as Hkey. exists kv. split_and!; try done. apply Hl. rewrite Hkey. split; [done|].
      rewrite kind_prefix_eq. apply starts_with_spec. exists (id rk). unfold with_prefix. rewrite trim_start_logical_path. unfold logical_path. by rewrite Hk, !str_app_assoc.
Qed.

(** ** The laws of the store seam, over etcd

    The contents of a namespace are what its full listing decodes to; the ids
    that the store can hold are those that do not read as control-plane
    metadata. *)

Definition namespace_listing (st : St) : list ListKv :=
  filter (fun kv => starts_with (kv_key kv) p = true) (map_to_list (key_space st)).*2.

Definition etcd_contents (st : St) : StoredGraph :=
  match graph_snapshot_from_list (namespace_listing st) (revision st) p with Ok g => g | Err _ => StoredGraph_default end.

Definition etcd_wf (st : St) : Prop := store_ok st /\ exists g, holds st g.

Lemma namespace_listing_ok st : listing p (key_space st) (namespace_listing st).
Proof.
  intros kv. unfold namespace_listing. rewrite list_elem_of_filter, list_elem_of_fmap. split.
  - intros [Hs ([k kv'] & -> & Hin%elem_of_map_to_list)]. cbn in *. destruct (key_space_wf _ _ _ Hin) as [Hk _]. rewrite Hk in *. done.
  - intros [Hm Hs]. split; [done|]. exists (kv_key kv, kv). split; [done|]. by apply elem_of_map_to_list.
Qed.

Lemma holds_contents st g : store_ok st -> holds st g -> etcd_contents st = g.
Proof.
  intros [Hs Hu] Hg. unfold etcd_contents.
  by rewrite (represents_snapshot p _ _ _ _ Hs Hu (namespace_listing_ok st) Hg).
Qed.

Lemma wf_holds st : etcd_wf st -> holds st (etcd_contents st).
Proof. intros [Hok [g Hg]]. by rewrite (holds_contents st g). Qed.

Lemma get_exact_holds rk st g r : holds st g -> visible p rk = true -> etcd_get_exact self rk st = Ok r -> r = resources g !! rk.
Proof.
  intros Hg Hv. unfold etcd_get_exact. destruct (ensure_connected self st) as [[]|e]; cbn; [|done].
  destruct (client_get _ false st) as [r0|] eqn:E; cbn; [|done]. rewrite (get_one _ _ _ E), (rp_resources _ _ _ _ Hg), Hv.
  intros [= <-]. by destruct (key_space st !! with_prefix p (logical_path rk)).
Qed.

(** The guard a namespace holds is not newer than etcd's revision. *)
Lemma holds_guard st g r : holds st g -> guard_mod_revision g = Some r -> 0 < r <= revision st.
Proof.
  intros Hg. rewrite (rp_guard _ _ _ _ Hg). destruct (key_space st !! guard_key p) as [kv|] eqn:E; cbn; [|done].
  intros [= <-]. by destruct (key_space_wf _ _ _ E) as (_ & _ & ?).
Qed.

Lemma cas_effect commit st r st' : etcd_wf st -> commit_ok p commit -> etcd_compare_and_swap self commit st = (r, st') ->
  etcd_wf st' /\
  let applied rev := commits commit rev (etcd_contents st) (etcd_contents st') in
  match r with
  | Ok rev => applied rev
  | Err e => etcd_contents st' = etcd_contents st \/ (e <> Conflict /\ exists rev, applied rev)
  end.
Proof.
  intros Hwf Hc. pose proof (wf_holds _ Hwf) as Hg. destruct Hwf as [Hok _].
  assert (Hsame : forall st1, store_ok st1 -> holds st1 (etcd_contents st) -> etcd_contents st1 = etcd_contents st) by (intros; by apply holds_contents).
  assert (Happ : forall st1, store_ok st1 -> target_matches (etcd_contents st) commit && guard_matches (etcd_contents st) commit = true ->
    holds st1 (committed commit (revision st + 1) (etcd_contents st)) -> commits commit (revision st + 1) (etcd_contents st) (etcd_contents st1)).
  { intros st1 Hok1 [Ht Hgm]%andb_true_iff Hh. split_and!; [done|done|by apply holds_contents|].
    intros r0 Hr0%(holds_guard _ _ _ Hg). lia. }
  rewrite cas_unfold. destruct (ensure_connected self st) as [[]|e].
  2: { intros [= <- <-]. split; [split; [done|by eexists]|by left]. }
  destruct (client_txn _ _ st) as [r0 st1] eqn:Et. destruct (txn_step _ _ _ _ _ Hok Hc Hg Et) as [Hok1 Hr].
  destruct r0 as [response|e]; cbv zeta in Hr.
  - destruct Hr as (-> & Hh & Hr). destruct (_ && _) eqn:Em; cbn [negb].
    + destruct Hr as (_ & Hrev & Hr). intros [= <- <-]. split; [split; [done|by eexists]|].
      destruct (txn_header response) as [h|]; [|right; split; [done|by eexists; apply Happ]].
      rewrite (Hh h eq_refl), Hrev. by apply Happ.
    + intros [= <- <-]. split; [split; [done|by eexists]|left; by apply Hsame].
  - intros [= <- <-]. destruct Hr as [Hr|(Em & _ & Hr)]; (split; [split; [done|by eexists]|]); [left; by apply Hsame|].
    right. split; [done|]. eexists. by apply Happ.
Qed.

#[refine] Instance etcd_store_laws : @GraphStoreLaws St (etcd_graph_store self) := {
  store_wf := etcd_wf;
  contents := etcd_contents;
  key_stored rk := visible p rk = true;
}.
Proof.
  - intros st Hwf%wf_holds. split; [intros r Hr; by apply (holds_guard _ _ _ Hwf) in Hr as [? _]|].
    intros rk res. rewrite (rp_resources _ _ _ _ Hwf). destruct (visible p rk); [|done].
    destruct (key_space st !! _) as [kv|] eqn:E; [|done]. intros [= <-]. split; [done|].
    destruct (key_space_wf _ _ _ E) as (_ & _ & ? & _). done.
  - intros st g [Hok _] Hg. symmetry. apply holds_contents; [done|]. by apply snapshot_holds.
  - intros rk st r Hwf%wf_holds. by apply get_exact_holds.
  - intros commit st e st' Hwf Hk Hp Hc. by destruct (cas_effect commit st _ st' Hwf (conj Hk Hp) Hc) as [? ?].
  - intros commit st rev st' Hwf Hk Hp Hc. by destruct (cas_effect commit st _ st' Hwf (conj Hk Hp) Hc) as [? ?].
Defined.

End refinement.

(** ** A simulated etcd

    The laws can hold: a key space with a revision counter, whose replies to
    transactions may be lost. *)

Record SimEtcd : Type := { sim_kvs : gmap string ListKv; sim_rev : Z; sim_lossy : bool }.

Definition sim_entry_ok (rev : Z) (e : string * ListKv) : Prop :=
  kv_key e.2 = e.1 /\ 0 < kv_create_revision e.2 /\ 0 < kv_mod_revision e.2 <= rev.
#[export] Instance sim_entry_ok_dec rev e : Decision (sim_entry_ok rev e).
Proof. unfold sim_entry_ok. apply _. Defined.
Definition sim_space (st : SimEtcd) : gmap string ListKv := filter (sim_entry_ok (Z.max 0 (sim_rev st))) (sim_kvs st).

#[export] Instance sim_client : EtcdClient SimEtcd := {
  client_connect endpoints _ st := if bool_decide (endpoints = []) then Err "no endpoint" else Ok ();
  client_get k ranged st :=
    Ok {| get_header := Some (Z.max 0 (sim_rev st));
          get_kvs := if ranged then filter (fun kv => starts_with (kv_key kv) k = true) (map_to_list (sim_space st)).*2
                     else option_list (sim_space st !! k) |};
  client_txn cmps ops st :=
    if forallb (compare_holds (sim_space st)) cmps then
      let rev := Z.max 0 (sim_rev st) + 1 in
      let st' := {| sim_kvs := apply_ops rev ops (sim_space st); sim_rev := rev; sim_lossy := sim_lossy st |} in
      (if sim_lossy st then Err "timeout" else Ok {| succeeded := true; txn_header := Some rev |}, st')
    else (Ok {| succeeded := false; txn_header := Some (Z.max 0 (sim_rev st)) |}, st);
}.

Lemma apply_ops_wf rev ops m : 0 <= rev -> (forall k kv, m !! k = Some kv -> sim_entry_ok rev (k, kv)) ->
  forall k kv, apply_ops (rev + 1) ops m !! k = Some kv -> sim_entry_ok (rev + 1) (k, kv).
Proof.
  intros Hr Hm. assert (Hm' : forall k kv, m !! k = Some kv -> sim_entry_ok (rev + 1) (k, kv)).
  { intros k kv Hk. destruct (Hm k kv Hk) as (? & ? & ?). split_and!; cbn in *; done || lia. }
  clear Hm. revert m Hm'. induction ops as [|op ops IH]; intros m Hm; [done|]. cbn. apply IH. intros k kv. destruct op as [k0 v|k0]; cbn.
  - rewrite lookup_insert_Some. intros [[<- <-]|[_ Hk]]; [|by apply Hm]. split_and!; cbn; [done| |lia..].
    destruct (m !! k0) as [kv0|] eqn:E; cbn; [|lia]. destruct (Hm _ _ E) as (_ & ? & _). cbn in *. lia.
  - rewrite lookup_delete_Some. intros [_ Hk]. by apply Hm.
Qed.

Lemma sim_space_lookup st k kv : sim_space st !! k = Some kv <-> sim_kvs st !! k = Some kv /\ sim_entry_ok (Z.max 0 (sim_rev st)) (k, kv).
Proof. unfold sim_space. by rewrite map_lookup_filter_Some. Qed.

Lemma sim_space_ops st ops lossy : let rev := Z.max 0 (sim_rev st) + 1 in
  sim_space {| sim_kvs := apply_ops rev ops (sim_space st); sim_rev := rev; sim_lossy := lossy |} = apply_ops rev ops (sim_space st).
Proof.
  cbv zeta. unfold sim_space at 1. cbn [sim_rev sim_kvs]. apply map_filter_id. intros k kv Hk. rewrite Z.max_r by lia.
  eapply apply_ops_wf; [lia| |exact Hk]. intros k' kv' Hk'. by apply sim_space_lookup in Hk' as [_ ?].
Qed.

#[export, refine] Instance sim_laws : EtcdLaws SimEtcd := { key_space := sim_space; revision st := Z.max 0 (sim_rev st) }.
Proof.
  - intros st k kv [_ Hok]%sim_space_lookup. exact Hok.
  - intros k st r [= <-]. done.
  - intros p st r [= <-]. split; [|by intros h [= <-]]. intros kv. cbn [get_kvs]. rewrite list_elem_of_filter, list_elem_of_fmap. split.
    + intros [Hs ([k kv'] & -> & Hin)]. apply elem_of_map_to_list in Hin. cbn in *. apply sim_space_lookup in Hin as Hl. destruct Hl as [_ [Hk _]]. cbn in Hk. split; [by rewrite Hk|done].
    + intros [Hm Hs]. split; [done|]. exists (kv_key kv, kv). split; [done|]. by apply elem_of_map_to_list.
  - intros cmps ops st r st'. cbn [client_txn sim_client]. cbv zeta. destruct (forallb _ cmps) eqn:E.
    + destruct (sim_lossy st) eqn:El; intros [= <- <-]. cbn [succeeded txn_header]. rewrite sim_space_ops. cbn [sim_rev]. split_and!; [done|done|lia|].
      intros h [= <-]. lia.
    + intros [= <- <-]. cbn [succeeded txn_header]. split_and!; [done|done|done|]. by intros h [= <-].
  - intros cmps ops st e st'. cbn [client_txn sim_client]. cbv zeta. destruct (forallb _ cmps) eqn:E; [|done].
    destruct (sim_lossy st) eqn:El; [|done]. intros [= <- <-]. right. rewrite sim_space_ops. cbn [sim_rev]. split_and!; [done|done|lia].
Defined.

(** ** Witnesses *)

Definition demo_store : EtcdGraphStore := EtcdGraphStore_new Demo.plain.
Definition demo_guard : ListKv := {| kv_key := "/p/.pingsix_graph_revision"; kv_value := "pingsix-graph-v1"; kv_create_revision := 1; kv_mod_revision := 2 |}.
Definition demo_route : ListKv := {| kv_key := "/p/routes/r1"; kv_value := "{}"; kv_create_revision := 2; kv_mod_revision := 2 |}.
Definition demo_space : gmap string ListKv := {[ "/p/.pingsix_graph_revision" := demo_guard; "/p/routes/r1" := demo_route ]}.
Definition demo_etcd (lossy : bool) : SimEtcd := {| sim_kvs := demo_space; sim_rev := 5; sim_lossy := lossy |}.
Definition demo_commit : GraphCommit := {| mutation := MutationDelete {| kind := Route; id := "r1" |};
  expected_target_mod_revision := Some 2; expected_guard_mod_revision := Some 2 |}.

Lemma demo_space_cases k kv lossy : key_space (demo_etcd lossy) !! k = Some kv ->
  (k = "/p/.pingsix_graph_revision" /\ kv = demo_guard) \/ (k = "/p/routes/r1" /\ kv = demo_route).
Proof.
  intros Hk. change (sim_space (demo_etcd lossy) !! k = Some kv) in Hk. apply sim_space_lookup in Hk as [Hk _]. cbn [sim_kvs demo_etcd] in Hk. unfold demo_space in Hk.
  apply lookup_insert_Some in Hk as [[<- <-]|[_ Hk]]; [by left|]. apply lookup_singleton_Some in Hk as [<- <-]. by right.
Qed.

Lemma demo_store_ok lossy : store_ok demo_store (demo_etcd lossy).
Proof.
  split; [split|reflexivity].
  - by intros k kv [[-> ->]|[-> ->]]%demo_space_cases.
  - by intros k [kv [[-> ->]|[-> ->]]%demo_space_cases].
Qed.

Lemma demo_commit_ok : commit_ok (canonical_prefix demo_store) demo_commit.
Proof. split; [vm_compute; reflexivity|]. split; intros r [= <-]; lia. Qed.

Lemma etcd_cas_refines_witness :
  exists g st', etcd_snapshot demo_store (demo_etcd false) = Ok g /\
    etcd_compare_and_swap demo_store demo_commit (demo_etcd false) = (Ok 6, st') /\
    holds demo_store st' (committed demo_commit 6 g).
Proof.
  destruct (etcd_snapshot demo_store (demo_etcd false)) as [g|] eqn:Eg; [|vm_compute in Eg; discriminate].
  destruct (etcd_compare_and_swap demo_store demo_commit (demo_etcd false)) as [r st'] eqn:Ec.
  pose proof (etcd_cas_refines demo_store demo_commit _ _ _ _ (demo_store_ok false) demo_commit_ok Eg Ec) as [_ Hr].
  assert (Hg : graph_revision g = 5) by (apply (f_equal (fun r => match r with Ok g => graph_revision g | Err _ => 0 end)) in Eg; vm_compute in Eg; done).
  assert (r = Ok 6) as -> by (apply (f_equal fst) in Ec; vm_compute in Ec; done).
  exists g, st'. destruct Hr as (_ & _ & Hr). rewrite Hg in Hr. split; [exact eq_refl|]. split; [exact eq_refl|exact Hr].
Defined.

Lemma etcd_reads_agree_witness :
  exists g l, holds demo_store (demo_etcd false) g /\ etcd_list_kind demo_store Route (demo_etcd false) = Ok l /\
    ({| kind := Route; id := "r1" |}, kv_resource demo_route) ∈ l.
Proof.
  destruct (etcd_snapshot demo_store (demo_etcd false)) as [g|] eqn:Eg; [|vm_compute in Eg; discriminate].
  assert (Hg : holds demo_store (demo_etcd false) g) by (apply snapshot_holds; [apply demo_store_ok|exact Eg]).
  destruct (etcd_list_kind demo_store Route (demo_etcd false)) as [l|] eqn:El; [|vm_compute in El; discriminate].
  exists g, l. split; [exact Hg|]. split; [exact eq_refl|].
  pose proof (etcd_reads_agree demo_store _ _ (demo_store_ok false) Hg) as (_ & _ & Hl).
  specialize (Hl Route). rewrite El in Hl. apply Hl; [|split; [reflexivity|]].
  - by intros key [kv [[-> ->]|[-> ->]]%demo_space_cases] Hs.
  - rewrite (rp_resources _ _ _ _ Hg). vm_compute. reflexivity.
Defined.

(** A lost reply leaves the commit applied although the store is reported unavailable. *)
Example lost_reply_applied :
  exists e st', etcd_compare_and_swap demo_store demo_commit (demo_etcd true) = (Err (Unavailable e), st') /\
    key_space st' !! "/p/routes/r1" = None.
Proof.
  destruct (etcd_compare_and_swap demo_store demo_commit (demo_etcd true)) as [r st'] eqn:Ec.
  assert (Hr : r = Err (Unavailable (etcd_error_with_cause "graph transaction failed" "timeout"))).
  { apply (f_equal fst) in Ec. cbn [fst] in Ec. rewrite <-Ec. vm_compute. reflexivity. }
  exists (etcd_error_with_cause "graph transaction failed" "timeout"), st'. split; [by rewrite Hr|]. apply (f_equal snd) in Ec. cbn in Ec. subst st'. vm_compute. reflexivity.
Qed.
