(* ===== verification/AdminWriters.v ===== *)
(** * Concurrent Admin writers ([src/src/proxy/graph_mutation/authority.rs], [decode.rs], [store.rs])

    Several gateways, or several requests of one, plan PUTs and DELETEs from
    snapshots and commit them later, in any interleaving.  The guard expectation
    of the compare-and-swap makes the outcome a serial history of valid graphs. *)

From Stdlib Require Import ZArith Lia Sorted.
From stdpp Require Import base tactics gmap fin_maps strings option relations sorting list.
From S2P Require Import Prelude Errors GraphStore Json Config ConfigSet Encryption Secrets.
From S2P Require Import GraphDecode Publication AdminOps.
From S2P Require Import Settings EtcdStore.

Open Scope Z_scope.

Section writers.
Context {St : Type} `{GraphStoreLaws St} `{CipherSuite} `{Serde} `{OpenSsl}.
Context (PLUGIN_META : list PluginMeta) (kr : KeyringService).

(** The shared store; the commits planned and not yet attempted; the
    acknowledged mutations with their revisions, oldest first; and the
    mutations whose attempt ended in an error other than a conflict, oldest
    first: a lost reply, say, of a commit that may have been applied. *)
Record System : Type := {
  shared : St;
  inflight : list GraphCommit;
  acked : list (Z * StoredMutation);
  unknown : list StoredMutation;
}.

(** What a request computes between its snapshot and its compare-and-swap. *)
Inductive plans (g : StoredGraph) (commit : GraphCommit) : Prop :=
| plans_put key value n n' : key_stored key -> prepare_put PLUGIN_META kr g key value n = Ok (commit, n') -> plans g commit
| plans_delete key : plan_delete_mutation PLUGIN_META g key kr = Ok commit -> plans g commit.

Definition failed_attempt (e : StoreError) (m : StoredMutation) : list StoredMutation :=
  match e with Conflict => [] | _ => [m] end.

Inductive step : System -> System -> Prop :=
| step_plan s g commit :
    snapshot (shared s) = Ok g -> plans g commit ->
    step s {| shared := shared s; inflight := commit :: inflight s; acked := acked s; unknown := unknown s |}
| step_commit s l1 commit l2 rev st :
    inflight s = (l1 ++ commit :: l2)%list -> compare_and_swap commit (shared s) = (Ok rev, st) ->
    step s {| shared := st; inflight := (l1 ++ l2)%list; acked := (acked s ++ [(rev, mutation commit)])%list; unknown := unknown s |}
| step_failed s l1 commit l2 e st :
    inflight s = (l1 ++ commit :: l2)%list -> compare_and_swap commit (shared s) = (Err e, st) ->
    step s {| shared := st; inflight := (l1 ++ l2)%list; acked := acked s; unknown := (unknown s ++ failed_attempt e (mutation commit))%list |}
| step_abandon s l1 commit l2 :
    inflight s = (l1 ++ commit :: l2)%list ->
    step s {| shared := shared s; inflight := (l1 ++ l2)%list; acked := acked s; unknown := unknown s |}.

Definition start_system (st : St) : System := {| shared := st; inflight := []; acked := []; unknown := [] |}.

Definition values_of (g : StoredGraph) : gmap ResourceKey string := value <$> resources g.

(** A history of the store: each mutation with its revision, and whether the
    writer was told ([true]) or only got an error ([false]). *)
Abbreviation History := (list (bool * (Z * StoredMutation))).
Definition told (h : History) : list (Z * StoredMutation) := (filter (fun e => e.1 = true) h).*2.
Definition untold (h : History) : list StoredMutation := (filter (fun e => e.1 = false) h).*2.*2.
Definition replay (h : History) (init : gmap ResourceKey string) : gmap ResourceKey string :=
  foldl (fun rs e => mutated e.2.2 rs) init h.

(** [h] explains the system: it replays to the stored graph, in revision
    order; the told part is the acknowledged mutations, and the rest are
    attempts of unknown outcome, each at most once and in order. *)
Record explains (init : gmap ResourceKey string) (h : History) (s : System) : Prop := {
  ex_contents : values_of (contents (shared s)) = replay h init;
  ex_sorted : StronglySorted Z.lt h.*2.*1;
  ex_told : told h = acked s;
  ex_untold : untold h `sublist_of` unknown s;
}.

(** A commit in flight was planned from a graph the store held: the current
    one, or one whose guard every later commit has passed. *)
Definition fresh_or_fenced (now : StoredGraph) (commit : GraphCommit) : Prop :=
  admissible commit /\
  exists g, planned PLUGIN_META kr g commit /\ guard_le (guard_mod_revision g) (guard_mod_revision now) /\
    (guard_mod_revision g = guard_mod_revision now -> values_of g = values_of now).

Record inv (init : gmap ResourceKey string) (h : History) (s : System) : Prop := {
  inv_wf : store_wf (shared s);
  inv_valid : stored_valid PLUGIN_META kr (contents (shared s));
  inv_inflight : Forall (fresh_or_fenced (contents (shared s))) (inflight s);
  inv_explains : explains init h s;
  inv_guard : Forall (fun rev => guard_le (Some rev) (guard_mod_revision (contents (shared s)))) h.*2.*1;
}.

Lemma plans_planned st commit : store_wf st -> plans (contents st) commit ->
  planned PLUGIN_META kr (contents st) commit /\ admissible commit.
Proof.
  intros Hwf [key v n n' Hk Hp|key Hp].
  - pose proof (planned_put_admissible _ _ _ _ _ _ _ _ Hwf Hk Hp) as [_ ?]. split; [|done].
    apply prepare_put_ok in Hp as (? & ? & _ & _ & _ & Hp). by eapply plan_put_planned.
  - pose proof (planned_delete_admissible _ _ _ _ _ Hwf Hp) as [_ ?]. split; [|done]. by eapply plan_delete_planned.
Qed.

Lemma sorted_snoc l (x : Z) : StronglySorted Z.lt l -> Forall (fun y => y < x) l -> StronglySorted Z.lt (l ++ [x])%list.
Proof.
  induction 1 as [|y l Hs IH Hall]; intros Hx; simpl; [repeat constructor|].
  apply Forall_cons in Hx as [Hy Hx]. constructor; [by apply IH|].
  apply Forall_app. split; [done|by repeat constructor].
Qed.

Lemma told_snoc h b x : told (h ++ [(b, x)]) = (told h ++ if b then [x] else [])%list.
Proof. unfold told. rewrite filter_app, fmap_app. f_equal. by destruct b. Qed.
Lemma untold_snoc h b x : untold (h ++ [(b, x)]) = (untold h ++ if b then [] else [x.2])%list.
Proof. unfold untold. rewrite filter_app, !fmap_app. f_equal. by destruct b. Qed.

(** Every commit that is applied, acknowledged or not, extends the history
    by its mutation and leaves a valid graph. *)
Lemma commits_extend init h s l1 commit l2 rev st b acked' unknown' :
  inv init h s -> inflight s = (l1 ++ commit :: l2)%list -> store_wf st ->
  commits commit rev (contents (shared s)) (contents st) ->
  told (h ++ [(b, (rev, mutation commit))]) = acked' ->
  untold (h ++ [(b, (rev, mutation commit))]) `sublist_of` unknown' ->
  inv init (h ++ [(b, (rev, mutation commit))]) {| shared := st; inflight := (l1 ++ l2)%list; acked := acked'; unknown := unknown' |}.
Proof.
  intros [Hwf Hval Hfl [Hc Hsort Ht Hun] Hguard] Hin Hwf' Hcm Ht' Hun'.
  pose proof (commits_guard _ _ _ _ Hcm) as Hmet. pose proof (commits_advances _ _ _ _ Hcm) as [Hadv Hne].
  rewrite Hin in Hfl. apply Forall_app in Hfl as [Hf1 [Hfc Hf2]%Forall_cons].
  destruct Hcm as (_ & _ & Hcont & Hlt). destruct Hfc as (_ & g & [Hvalid Hexp] & _ & Heq).
  specialize (Heq ltac:(congruence)).
  assert (values_of (contents st) = mutated (mutation commit) (values_of (contents (shared s)))) as Hv.
  { rewrite Hcont. apply apply_mutation_values. }
  assert (forall c, fresh_or_fenced (contents (shared s)) c -> fresh_or_fenced (contents st) c) as Hold.
  { intros c (Ha & g0 & Hp & Hle & _). split; [done|]. exists g0. split; [done|]. split; [by eapply guard_le_trans|].
    intros E. rewrite E in Hle. exfalso. apply Hne. clear -Hle Hadv.
    destruct (guard_mod_revision (contents st)), (guard_mod_revision (contents (shared s))); simpl in *; try done.
    f_equal. lia. }
  split; cbn [shared inflight]; [done| | | |].
  - unfold stored_valid. fold (values_of (contents st)). rewrite Hv, <- Heq. done.
  - apply Forall_app. split; eapply Forall_impl; eauto.
  - split; cbn [shared acked unknown]; [|  |done|done].
    + unfold replay. rewrite foldl_app. fold (replay h init). by rewrite <- Hc.
    + rewrite !fmap_app. apply sorted_snoc; [done|]. eapply Forall_impl; [exact Hguard|].
      intros y Hy. simpl in *. destruct (guard_mod_revision (contents (shared s))) as [z|]; simpl in Hy; [|done].
      specialize (Hlt z eq_refl). lia.
  - rewrite !fmap_app. apply Forall_app. split.
    + eapply Forall_impl; [exact Hguard|]. intros y Hy. exact (guard_le_trans (Some y) _ _ Hy Hadv).
    + rewrite Hcont. repeat constructor. simpl. lia.
Qed.

(** Steps that leave the contents as they are. *)
Lemma unchanged_inv init h s s' l :
  inv init h s -> store_wf (shared s') -> contents (shared s') = contents (shared s) -> acked s' = acked s ->
  unknown s' = (unknown s ++ l)%list -> Forall (fresh_or_fenced (contents (shared s))) (inflight s') -> inv init h s'.
Proof.
  intros [Hwf Hval Hfl [Hc Hsort Ht Hun] Hguard] Hwf' Hs Ha Hu Hf. split; rewrite ?Hs; try done.
  split; rewrite ?Hs, ?Ha, ?Hu; try done. by apply sublist_inserts_r.
Qed.

Lemma writer_step_inv init h s s' : inv init h s -> step s s' -> exists h', inv init h' s'.
Proof.
  intros Hi. pose proof Hi as [Hwf _ Hfl [_ _ Ht Hun] _].
  destruct 1 as [s g commit Hg Hp|s l1 commit l2 rev st Hin Hc|s l1 commit l2 e st Hin Hc|s l1 commit l2 Hin].
  - exists h. eapply (unchanged_inv _ _ _ _ []); cbn; rewrite ?app_nil_r; try done. apply Forall_cons. split; [|done].
    apply (snapshot_contents _ _ Hwf) in Hg as ->. apply plans_planned in Hp as [Hp Ha]; [|done].
    split; [done|]. exists (contents (shared s)). split; [done|]. split; [apply guard_le_refl|done].
  - pose proof Hfl as Hfl'. rewrite Hin in Hfl'. apply Forall_app in Hfl' as [_ [[[Hk Hp] _] _]%Forall_cons].
    apply (cas_ok _ _ _ _ Hwf Hk Hp) in Hc as [Hwf' Hcm]. eexists. eapply (commits_extend _ _ _ _ _ _ _ _ true); try done.
    + by rewrite told_snoc, Ht.
    + by rewrite untold_snoc, app_nil_r.
  - pose proof Hfl as Hfl'. rewrite Hin in Hfl'. apply Forall_app in Hfl' as [Hf1 [[[Hk Hp] _] Hf2]%Forall_cons].
    apply (cas_err _ _ _ _ Hwf Hk Hp) in Hc as (Hwf' & [Hs|(He & rev & Hcm)]).
    + exists h. eapply unchanged_inv; try done. by apply Forall_app.
    + eexists. eapply (commits_extend _ _ _ _ _ _ _ _ false); try done.
      * by rewrite told_snoc, app_nil_r.
      * rewrite untold_snoc. replace (failed_attempt e (mutation commit)) with [mutation commit] by (by destruct e). by apply sublist_app.
  - exists h. rewrite Hin in Hfl. apply Forall_app in Hfl as [Hf1 [_ Hf2]%Forall_cons].
    eapply (unchanged_inv _ _ _ _ []); cbn; rewrite ?app_nil_r; try done. by apply Forall_app.
Qed.

Lemma rtc_inv init h s s' : rtc step s s' -> inv init h s -> exists h', inv init h' s'.
Proof. intros Hs. revert h. induction Hs as [|s s1 s' Hs _ IH]; intros h Hi; [by exists h|]. apply (writer_step_inv _ _ _ _ Hi) in Hs as [h1 Hi1]. by apply (IH h1). Qed.

Lemma start_inv st :
  store_wf st -> stored_valid PLUGIN_META kr (contents st) ->
  inv (values_of (contents st)) [] (start_system st).
Proof. intros. split; simpl; try done. split; simpl; try done; constructor. Qed.

(** ** Properties *)

(** C3 (interleaved writers).  However many writers plan and commit in whatever
    order, the stored graph is always valid (it decodes, every resource passes
    its schema and every reference resolves), and it is the initial graph with
    a history of mutations applied, at revisions that only grow.  The history
    holds every acknowledged mutation once, at the revision it was
    acknowledged with and in that order; besides them it holds only mutations
    whose attempt ended in an error other than a conflict (a lost reply of the
    store), each at most once.  A conflict, or a commit nobody attempted, is
    never in it. *)
Theorem writers_serialise st s :
  store_wf st -> stored_valid PLUGIN_META kr (contents st) ->
  rtc step (start_system st) s ->
  stored_valid PLUGIN_META kr (contents (shared s)) /\
  exists history : History,
    values_of (contents (shared s)) = replay history (values_of (contents st)) /\
    StronglySorted Z.lt history.*2.*1 /\
    told history = acked s /\
    untold history `sublist_of` unknown s.
Proof.
  intros Hwf Hv Hs. destruct (rtc_inv _ _ _ _ Hs (start_inv st Hwf Hv)) as [h [_ ? _ [? ? ? ?] _]].
  split; [done|]. by exists h.
Qed.

(** A racing plan is refused.  A commit planned before another writer's
    acknowledged commit never applies: the store is left as it was. *)
Theorem stale_plan_refused st g commit winner rev st' :
  store_wf st -> snapshot st = Ok g -> plans g commit -> admissible winner ->
  compare_and_swap winner st = (Ok rev, st') ->
  exists e st'', compare_and_swap commit st' = (Err e, st'') /\ contents st'' = contents st'.
Proof.
  intros Hwf Hg Hp [Hk Hpos] Hw. apply (snapshot_contents _ _ Hwf) in Hg as ->.
  apply plans_planned in Hp as [[_ Hexp] [Hk' Hpos']]; [|done].
  apply (cas_ok _ _ _ _ Hwf Hk Hpos) in Hw as [Hwf' Hcm]. apply commits_advances in Hcm as [_ Hne].
  destruct (compare_and_swap commit st') as [[r|e] st''] eqn:Hc.
  - apply (cas_ok _ _ _ _ Hwf' Hk' Hpos') in Hc as [_ Hg]. apply commits_guard in Hg. congruence.
  - exists e, st''. split; [done|]. apply (cas_err _ _ _ _ Hwf' Hk' Hpos') in Hc as (_ & [?|(_ & r & Hg)]); [done|].
    apply commits_guard in Hg. congruence.
Qed.

(** The other half on the shipped store: a plan nobody overtook commits. *)
Lemma fresh_plan_commits (st : InMemoryState) g commit :
  snapshot st = Ok g -> plans g commit ->
  exists st', compare_and_swap commit st = (Ok (next_revision st), st').
Proof.
  intros [= <-] Hp. unfold compare_and_swap; simpl. rewrite InMemoryGraphStore.compare_and_swap_spec.
  assert (target_matches (mem_graph st) commit = true /\ guard_matches (mem_graph st) commit = true) as [-> ->]; [|by eexists].
  unfold target_matches, guard_matches.
  destruct Hp as [key v n n' _ Hp|key Hp].
  - apply prepare_put_ok in Hp as (? & ? & _ & _ & _ & [_ ->]%plan_put_ok). simpl.
    destruct (resources (mem_graph st) !! key), (guard_mod_revision (mem_graph st)); simpl; by rewrite ?bool_decide_true.
  - apply plan_delete_ok in Hp as (_ & r & Hr & ->). simpl. rewrite Hr. simpl.
    destruct (guard_mod_revision (mem_graph st)); by rewrite !bool_decide_true.
Qed.

End writers.
Arguments System : clear implicits.

(** ** Witnesses: two writers race on the empty store *)

Import Toy ToySerde ToyEnv.

Definition put_commit (key : ResourceKey) (g : StoredGraph) : GraphCommit :=
  {| mutation := MutationPut key (id key); expected_target_mod_revision := mod_revision <$> resources g !! key;
     expected_guard_mod_revision := guard_mod_revision g |}.

Lemma toy_plan `{GraphStoreLaws St} i g :
  key_stored {| kind := Upstream; id := i |} ->
  prepare_put [] disabled g {| kind := Upstream; id := i |} (doc i) 0
    = Ok (put_commit {| kind := Upstream; id := i |} g, 0%nat) ->
  plans [] disabled g (put_commit {| kind := Upstream; id := i |} g).
Proof. intros Hk Hp. by eapply plans_put. Qed.

Definition commit_u1 : GraphCommit := put_commit key_u1 StoredGraph_default.
Definition commit_u2 : GraphCommit := put_commit {| kind := Upstream; id := "u2" |} StoredGraph_default.
Definition after_u1 : InMemoryState := (compare_and_swap commit_u1 InMemoryGraphStore.new).2.

Lemma empty_valid g : resources g = ∅ -> stored_valid [] disabled g.
Proof.
  intros Hg. exists ResourceConfigSet_default. split.
  - intros [kd i]. unfold set_lookup. rewrite lookup_fmap, Hg. simpl. by destruct kd.
  - apply validate_config_set_spec. reflexivity.
Qed.

Lemma stale_plan_refused_witness :
  exists e st'', compare_and_swap commit_u2 after_u1 = (Err e, st'') /\ contents st'' = contents after_u1.
Proof.
  refine (stale_plan_refused [] disabled InMemoryGraphStore.new StoredGraph_default commit_u2 commit_u1 1 after_u1 _ eq_refl _ _ _).
  - exact InMemoryGraphStore.new_wf.
  - apply (toy_plan "u2" StoredGraph_default); [done|]. vm_compute. reflexivity.
  - split; [done|]. by split.
  - vm_compute. reflexivity.
Defined.

(** *** The race over etcd

    The same two writers over a simulated etcd whose replies get lost: the
    first writer's commit is applied although it is told the store is
    unavailable, and the second, which planned from the same snapshot, meets
    a conflict. *)

Module EtcdRace.

#[export] Instance store : GraphStore SimEtcd := etcd_graph_store demo_store.
#[export] Instance laws : GraphStoreLaws SimEtcd := etcd_store_laws demo_store.

Definition empty_etcd : SimEtcd := {| sim_kvs := ∅; sim_rev := 0; sim_lossy := true |}.
Definition after_u1 : SimEtcd := (compare_and_swap commit_u1 empty_etcd).2.
Definition race_end : System SimEtcd :=
  {| shared := after_u1; inflight := []; acked := []; unknown := [MutationPut key_u1 "u1"] |}.

Lemma empty_wf : store_wf empty_etcd.
Proof.
  assert (Hok : store_ok demo_store empty_etcd).
  { split; [split|reflexivity]; [by intros k kv|by intros k [kv ?]]. }
  split; [exact Hok|]. exists (contents empty_etcd). apply (snapshot_holds demo_store _ _ Hok). vm_compute. reflexivity.
Qed.

Definition lost : StoreError := Unavailable (etcd_error_with_cause "graph transaction failed" "timeout").
Lemma first_lost : compare_and_swap commit_u1 empty_etcd = (Err lost, after_u1).
Proof. unfold after_u1. rewrite (surjective_pairing (compare_and_swap commit_u1 empty_etcd)). by f_equal. Qed.
Lemma second_conflicts : compare_and_swap commit_u2 after_u1 = (Err Conflict, after_u1).
Proof. vm_compute. reflexivity. Qed.

Lemma race : rtc (step [] disabled) (start_system empty_etcd) race_end.
Proof.
  eapply rtc_l.
  { eapply step_plan; [vm_compute; reflexivity|]. apply (toy_plan "u1" StoredGraph_default); [vm_compute; reflexivity|]. vm_compute. reflexivity. }
  eapply rtc_l.
  { eapply step_plan; [vm_compute; reflexivity|]. apply (toy_plan "u2" StoredGraph_default); [vm_compute; reflexivity|]. vm_compute. reflexivity. }
  eapply rtc_l; [eapply (step_failed _ _ _ [_] _ [] _ after_u1); [reflexivity | exact first_lost]|].
  eapply rtc_l; [eapply (step_failed _ _ _ [] _ [] _ after_u1); [reflexivity | exact second_conflicts]|].
  apply rtc_refl.
Qed.
End EtcdRace.

(** Over etcd the lost reply's mutation is the whole history, and the store
    does hold the upstream. *)
Lemma writers_serialise_witness :
  exists history : list (bool * (Z * StoredMutation)),
    told history = [] /\ untold history `sublist_of` [MutationPut key_u1 "u1"] /\
    values_of (@contents _ _ EtcdRace.laws EtcdRace.after_u1) = replay history ∅ /\
    values_of (@contents _ _ EtcdRace.laws EtcdRace.after_u1) !! key_u1 = Some "u1".
Proof.
  destruct (@writers_serialise _ _ EtcdRace.laws _ _ _ [] disabled EtcdRace.empty_etcd EtcdRace.race_end) as (_ & h & Hv & _ & Ht & Hu).
  - exact EtcdRace.empty_wf.
  - apply empty_valid. vm_compute. reflexivity.
  - exact EtcdRace.race.
  - exists h. split; [exact Ht|]. split; [exact Hu|]. cbn [shared EtcdRace.race_end] in Hv.
    assert (He : values_of (@contents _ _ EtcdRace.laws EtcdRace.empty_etcd) = ∅) by (vm_compute; reflexivity).
    rewrite He in Hv. split; [exact Hv|]. vm_compute. reflexivity.
Defined.
