(* ===== verification/SyncLoop.v ===== *)
(** * The etcd list/watch loop ([src/src/config/etcd/sync.rs])

    The service that keeps the graph authority on etcd's configuration: connect,
    list, watch, and start over after every failure.  An event is one awaited
    answer of etcd, a timer, the shutdown signal, or an event of the authority's
    worker, which runs concurrently; the answers themselves are arguments.  The
    theorems relate the authority to the history of the namespace. *)

From Stdlib Require Import ZArith Lia.
From stdpp Require Import base tactics gmap fin_maps strings option list.
From S2P Require Import Prelude Errors Status GraphStore Utf8 EtcdKeys EtcdSync Json Config ConfigSet Encryption GraphDecode Publication Authority.

Open Scope Z_scope.

Definition LIST_RETRY_DELAY : Duration := from_secs 3.
Definition WATCH_RETRY_DELAY : Duration := from_secs 1.

Record ListResponse : Type := { list_header : option Z; list_kvs : list ListKv }.
Record WatchResponse : Type := { canceled : bool; events : list EtcdSync.Event; watch_header : option Z }.

(** Where the task is: about to list; listed, about to open the watch;
    receiving; sleeping after a failure; returned. *)
Inductive Phase : Type := Listing | Opening | Streaming | Sleeping (delay : Duration) | Ended.

(** [client]: whether one is kept.  The status store is the authority's. *)
Record EtcdConfigSync : Type := {
  canonical_prefix : string;
  client : bool;
  sync_revision : Z;
  graph : Inner;
  phase : Phase;
}.
#[export] Instance eta_EtcdConfigSync : Eta EtcdConfigSync := fun s =>
  Build_EtcdConfigSync (canonical_prefix s) (client s) (sync_revision s) (graph s) (phase s).

Definition EtcdConfigSync_new (prefix : string) (graph : Inner) : EtcdConfigSync :=
  {| canonical_prefix := canonicalize_prefix prefix; client := false; sync_revision := 0; graph := graph; phase := Listing |}.

(** One call of the status store. *)
Definition on_status (op : StatusOp) (s : EtcdConfigSync) : EtcdConfigSync :=
  let g := graph s in s <| graph := (g <| status := apply_op (status g) op |>) |>.

(** [start_service], up to its loop. *)
Definition start_service (s : EtcdConfigSync) : EtcdConfigSync := on_status OpBeginEtcdSync s.

Definition get_client (created : ProxyResult unit) (s : EtcdConfigSync) : ProxyResult unit * EtcdConfigSync :=
  if client s then (Ok (), s) else match created with Ok _ => (Ok (), s <| client := true |>) | Err e => (Err e, s) end.

Definition reset_client (now : Instant) (s : EtcdConfigSync) : EtcdConfigSync :=
  on_status (OpMarkEtcdConnected now false) (s <| client := false |>).

Definition SyncError_to_string (e : SyncError) : string := match e with Transport err | Data err => ProxyError_to_string err end.

Inductive SyncEvent : Type :=
| SyncShutdown (closed requested : bool)
| SyncList (created : ProxyResult unit) (answer : Result ListResponse string) (now : Instant)
| SyncOpen (created : ProxyResult unit) (answer : Result unit string) (now : Instant)
| SyncMessage (message : Result (option WatchResponse) string) (now : Instant)
| SyncProgress (answer : Result unit string) (now : Instant)
| SyncWake
| SyncAuthority (ev : Authority.Event).

Section sync.
Context `{CipherSuite} `{Serde}.
Context (PLUGIN_META : list PluginMeta) (kr : KeyringService).
(** The renderings of graph and store errors. *)
Context (GraphError_display : GraphError -> string) (StoreError_debug : StoreError -> string).

(** The authority's answer, classified; a panic ends the task. *)
Definition classified (r : Result unit (Stop GraphError)) : Result unit (Stop SyncError) :=
  match r with
  | Ok _ => Ok ()
  | Err (Raise e) => Err (Raise (classify_rejection GraphError_display e))
  | Err (Panic what) => Err (Panic what)
  end.

Definition list_ok (response : ListResponse) (now : Instant) (s : EtcdConfigSync) : Result unit (Stop SyncError) * EtcdConfigSync :=
  match list_header response with
  | None => (Err (Raise (Transport (EtcdError "Failed to get header from list response"))), s)
  | Some revision =>
    let s := on_status (OpRecordSyncSuccess now revision) s in
    match graph_snapshot_from_list (list_kvs response) revision (canonical_prefix s) with
    | Err e => (Err (Raise (Transport (Configuration ("Failed to map etcd list response: " +:+ StoreError_debug e)))), s)
    | Ok snapshot =>
      let r := replace_all PLUGIN_META kr snapshot (graph s) in
      let s := s <| graph := r.2 |> in
      match classified r.1 with
      | Ok _ => (Ok (), on_status (OpSetRevision (Some revision)) (s <| sync_revision := revision |>))
      | Err e => (Err e, s)
      end
    end
  end.

Definition list_step (created : ProxyResult unit) (answer : Result ListResponse string) (now : Instant) (s : EtcdConfigSync)
    : Result unit (Stop SyncError) * EtcdConfigSync :=
  match get_client created s with
  | (Err e, s) => (Err (Raise (Transport e)), s)
  | (Ok _, s) =>
    match answer with
    | Err e => (Err (Raise (Transport (etcd_error_with_cause ("Failed to list key '" +:+ canonical_prefix s +:+ "'") e))), s)
    | Ok response => list_ok response now s
    end
  end.

Definition open_step (created : ProxyResult unit) (answer : Result unit string) (now : Instant) (s : EtcdConfigSync)
    : Result unit (Stop SyncError) * EtcdConfigSync :=
  match get_client created s with
  | (Err e, s) => (Err (Raise (Transport e)), s)
  | (Ok _, s) =>
    match answer with
    | Err e => (Err (Raise (Transport (etcd_error_with_cause ("Failed to watch key '" +:+ canonical_prefix s +:+ "'") e))), s)
    | Ok _ => (Ok (), on_status (OpMarkEtcdConnected now true) s)
    end
  end.

(** The revision the watch is opened from. *)
Definition start_revision (s : EtcdConfigSync) : Z := sync_revision s + 1.

Definition message_ok (response : WatchResponse) (now : Instant) (s : EtcdConfigSync) : Result unit (Stop SyncError) * EtcdConfigSync :=
  match graph_changes_from_events (events response) (canonical_prefix s) with
  | Err e => (Err (Raise (Transport e)), s)
  | Ok changes =>
    let r := apply_watch PLUGIN_META kr {| batch_revision := batch_revision_of (events response); changes := changes |} (graph s) in
    let s := s <| graph := r.2 |> in
    match classified r.1 with
    | Err e => (Err e, s)
    | Ok _ =>
      match watch_header response with
      | Some revision => (Ok (), on_status (OpRecordSyncSuccess now revision) (s <| sync_revision := revision |>))
      | None => (Ok (), s)
      end
    end
  end.

(** [Ok false] when the loop over the stream is left. *)
Definition message_step (message : Result (option WatchResponse) string) (now : Instant) (s : EtcdConfigSync)
    : Result bool (Stop SyncError) * EtcdConfigSync :=
  match message with
  | Err e => (Err (Raise (Transport (etcd_error_with_cause "Failed to receive watch message" e))), s)
  | Ok None => (Ok false, s)
  | Ok (Some response) =>
    if canceled response then (Ok false, s)
    else let r := message_ok response now s in (match r.1 with Ok _ => Ok true | Err e => Err e end, r.2)
  end.

(** The error arms of the loop. *)
Definition after_failure (delay : Duration) (e : Stop SyncError) (now : Instant) (s : EtcdConfigSync) : EtcdConfigSync :=
  match e with
  | Raise (Transport err) =>
    (reset_client now (on_status (OpRecordSyncError now (SyncError_to_string (Transport err))) s)) <| phase := Sleeping delay |>
  | Raise (Data err) => (on_status (OpRecordPreparationError (SyncError_to_string (Data err))) s) <| phase := Sleeping delay |>
  | Panic _ => s <| phase := Ended |>
  end.

Definition finish (next : Phase) (delay : Duration) (now : Instant) (r : Result unit (Stop SyncError) * EtcdConfigSync) : EtcdConfigSync :=
  match r.1 with Ok _ => r.2 <| phase := next |> | Err e => after_failure delay e now r.2 end.

(** A shutdown watch that changes without asking for shutdown makes each
    [select] end and the next one start. *)
Definition on_shutdown (closed requested : bool) (s : EtcdConfigSync) : option EtcdConfigSync :=
  match phase s with
  | Listing => Some (s <| phase := if requested then Ended else Opening |>)
  | Opening | Streaming => Some (s <| phase := if requested then Ended else Listing |>)
  | Sleeping _ => Some (s <| phase := if closed || requested then Ended else Listing |>)
  | Ended => None
  end.

(** One event of [run_sync_loop]; [None] when it is not awaited. *)
Definition sync_step (s : EtcdConfigSync) (ev : SyncEvent) : option EtcdConfigSync :=
  match ev, phase s with
  | SyncShutdown closed requested, _ => on_shutdown closed requested s
  | SyncList created answer now, Listing => Some (finish Opening LIST_RETRY_DELAY now (list_step created answer now s))
  | SyncOpen created answer now, Opening => Some (finish Streaming WATCH_RETRY_DELAY now (open_step created answer now s))
  | SyncMessage message now, Streaming =>
    let r := message_step message now s in
    Some (match r.1 with
          | Ok true => r.2
          | Ok false => r.2 <| phase := Listing |>
          | Err e => after_failure WATCH_RETRY_DELAY e now r.2
          end)
  | SyncProgress answer now, Streaming =>
    Some (match answer with
          | Ok _ => s
          | Err e => after_failure WATCH_RETRY_DELAY (Raise (Transport (etcd_error_with_cause "Failed to request etcd watch progress" e))) now s
          end)
  | SyncWake, Sleeping _ => Some (s <| phase := Listing |>)
  | SyncAuthority ev, _ =>
    match ev with
    | EvReplace _ | EvWatch _ => None
    | _ => (fun g => s <| graph := g |>) <$> Authority.step PLUGIN_META kr (graph s) ev
    end
  | _, _ => None
  end.

(** ** The history of the namespace *)

Definition event_revision (e : EtcdSync.Event) : Z := match event_kv e with Some kv => kv_mod_revision kv | None => 0 end.
Definition event_key (e : EtcdSync.Event) : Bytes := match event_kv e with Some kv => kv_key kv | None => "" end.

Fixpoint ordered (h : list EtcdSync.Event) : Prop :=
  match h with
  | [] => True
  | e :: h => Forall (fun e' => event_revision e <= event_revision e') h /\ ordered h
  end.

Definition upto (r : Z) (h : list EtcdSync.Event) : list EtcdSync.Event := filter (fun e => event_revision e <= r) h.
Definition between (d r : Z) (h : list EtcdSync.Event) : list EtcdSync.Event := filter (fun e => d < event_revision e <= r) h.

(** The resources of the namespace at a revision: every event up to it, in
    order, of a key that denotes one. *)
Definition resources_at (prefix : string) (h : list EtcdSync.Event) (r : Z) : gmap ResourceKey StoredResource :=
  fold_left apply_change (event_sequence prefix (upto r h)) ∅.

(** A list at a revision returns the pairs that are there. *)
Definition lists (h : list EtcdSync.Event) (r : Z) (kvs : list ListKv) : Prop :=
  NoDup (kv_key <$> kvs) /\
  forall kv, kv ∈ kvs <-> exists e, list.last (filter (fun e => event_key e = kv_key kv) (upto r h)) = Some e /\
                            event_type e = EventPut /\ event_kv e = Some kv.

(** Runs in which etcd answers from the history: a list at the revision of its
    header, a watch with every event from its start, in order and without gaps.
    [d] is the revision up to which the open watch has delivered. *)
Inductive follows (h : list EtcdSync.Event) (prefix : string) : EtcdConfigSync -> Z -> Prop :=
| follows_start : follows h prefix (start_service (EtcdConfigSync_new prefix Inner_new)) 0
| follows_list s d s' created answer now :
    follows h prefix s d -> (forall resp r, answer = Ok resp -> list_header resp = Some r -> lists h r (list_kvs resp)) ->
    sync_step s (SyncList created answer now) = Some s' -> follows h prefix s' d
| follows_open s d s' created answer now :
    follows h prefix s d -> sync_step s (SyncOpen created answer now) = Some s' -> follows h prefix s' (start_revision s - 1)
| follows_message s d s' d' message now :
    follows h prefix s d -> d <= d' -> (forall resp, message = Ok (Some resp) -> events resp = between d d' h) ->
    sync_step s (SyncMessage message now) = Some s' -> follows h prefix s' d'
| follows_other s d s' ev :
    follows h prefix s d ->
    match ev with SyncProgress _ _ | SyncWake | SyncAuthority _ => True | SyncShutdown _ requested => requested = true | _ => False end ->
    sync_step s ev = Some s' -> follows h prefix s' d.
End sync.

(** ** Histories *)

Lemma filter_forall {A} (P Q : A -> Prop) `{!forall x, Decision (Q x)} l : Forall P l -> Forall P (filter Q l).
Proof. rewrite !Forall_forall. intros Hl x [_ Hx]%list_elem_of_filter. auto. Qed.

Lemma upto_split h d r : ordered h -> d <= r -> upto r h = (upto d h ++ between d r h)%list.
Proof.
  intros Ho Hd. induction h as [|e h IH]; [done|]. destruct Ho as [He Ho]. specialize (IH Ho).
  unfold upto, between in *. rewrite !filter_cons. repeat case_decide; try lia; cbn [app]; rewrite IH; try done.
  assert (filter (fun e => event_revision e <= d) h = []) as ->; [|done].
  clear IH. induction h as [|x h IHh]; [done|]. inversion He as [|? ? Hx Hh]; subst.
  rewrite filter_cons, decide_False by lia. by apply IHh; destruct Ho.
Qed.

Lemma event_sequence_app prefix a b : event_sequence prefix (a ++ b) = (event_sequence prefix a ++ event_sequence prefix b)%list.
Proof. apply omap_app. Qed.

Lemma resources_step prefix h d r : ordered h -> d <= r ->
  resources_at prefix h r = fold_left apply_change (event_sequence prefix (between d r h)) (resources_at prefix h d).
Proof. intros Ho Hd. unfold resources_at. by rewrite (upto_split h d r), event_sequence_app, fold_left_app. Qed.

Lemma resources_same prefix h d r : ordered h -> d <= r -> between d r h = [] -> resources_at prefix h r = resources_at prefix h d.
Proof. intros Ho Hd Hb. by rewrite (resources_step prefix h d r), Hb. Qed.

(** The revision of a batch is the newest of its events. *)
Lemma batch_revision_max l : Forall (fun e => is_Some (event_kv e)) l -> l <> [] ->
  (exists e, e ∈ l /\ event_revision e = batch_revision_of l) /\ Forall (fun e => event_revision e <= batch_revision_of l) l.
Proof.
  intros Hl Hne. unfold batch_revision_of.
  set (f := fun (e : EtcdSync.Event) (acc : option Z) => match event_kv e with Some kv => Some (match acc with Some m => Z.max (kv_mod_revision kv) m | None => kv_mod_revision kv end) | None => acc end).
  assert (Hf : exists m, foldr f None l = Some m /\ (exists e, e ∈ l /\ event_revision e = m) /\ Forall (fun e => event_revision e <= m) l).
  { induction Hl as [|e l [kv He] Hl IH]; [done|]. cbn [foldr]. unfold f at 1. rewrite He.
    assert (Hev : event_revision e = kv_mod_revision kv) by (unfold event_revision; by rewrite He).
    destruct l as [|e' l]; [exists (kv_mod_revision kv); split; [done|]; split; [exists e; split; [by left|done]|by constructor; [lia|constructor]]|].
    destruct IH as (m & -> & (x & Hx & Hm) & Hall); [done|]. eexists. split; [done|]. split.
    - destruct (Z.max_spec (kv_mod_revision kv) m) as [[_ ->]|[_ ->]]; [exists x; split; [by right|done]|exists e; split; [by left|done]].
    - constructor; [lia|]. apply (Forall_impl _ _ _ Hall). intros; lia. }
  destruct Hf as (m & -> & Hx & Hall). done.
Qed.

Definition accepted (prefix : string) (rk : ResourceKey) : Prop :=
  key_wf rk /\ utf8_valid (with_prefix prefix (logical_path rk)) = true /\ starts_with (id rk) "." = false.

Definition event_value (e : EtcdSync.Event) : option StoredResource :=
  match event_type e with EventPut => kv_resource <$> event_kv e | EventDelete => None end.

(** What an event changes, read off its physical key. *)
Lemma event_change_iff prefix e c : event_change prefix e = Ok (Some c) <->
  is_Some (event_kv e) /\ accepted prefix (change_key c) /\ event_key e = with_prefix prefix (logical_path (change_key c)) /\
  c = match event_value e with Some r => ChangePut (change_key c) r | None => ChangeDelete (change_key c) end.
Proof.
  unfold event_change, event_key, event_value. destruct (event_kv e) as [kv|]; cbn [ok_or and_then fmap option_fmap option_map].
  2: { split; [done|]. by intros [[? ?] _]. }
  split.
  - destruct (is_metadata_key (kv_key kv)) eqn:Em; [done|]. destruct (negb _); [done|].
    destruct (physical_key_to_resource_key (kv_key kv) prefix) as [rk|] eqn:Ek; [|done]. cbn [map_err and_then].
    apply physical_key_roundtrip in Ek as (Hu & Hk & Hwf). intros [= <-].
    assert (Ha : accepted prefix rk).
    { rewrite Hk in Hu, Em. split; [done|]. split; [done|]. by rewrite metadata_key_physical in Em. }
    split; [by eexists|]. destruct (event_type e); cbn; done.
  - intros (_ & (Hwf & Hu & Hd) & Hk & Hc). rewrite Hk.
    rewrite metadata_key_physical, Hd, utf8_chunks_lossy, physical_starts by done. cbn [negb].
    rewrite (proj2 (physical_key_roundtrip _ _ (change_key c))) by done. cbn [map_err and_then].
    destruct (event_type e); by rewrite <-Hc.
Qed.

#[export] Instance accepted_dec prefix rk : Decision (accepted prefix rk).
Proof. unfold accepted. apply _. Defined.

Lemma with_prefix_inj prefix a b : key_wf a -> key_wf b -> utf8_valid (with_prefix prefix (logical_path a)) = true ->
  with_prefix prefix (logical_path a) = with_prefix prefix (logical_path b) -> a = b.
Proof.
  intros Ha Hb Hu E. assert (Pa : physical_key_to_resource_key (with_prefix prefix (logical_path a)) prefix = Ok a) by (by apply physical_key_roundtrip).
  assert (Pb : physical_key_to_resource_key (with_prefix prefix (logical_path a)) prefix = Ok b) by (by apply physical_key_roundtrip). congruence.
Qed.

Lemma sequence_snoc prefix es e : event_sequence prefix (es ++ [e]) =
  (event_sequence prefix es ++ match event_change prefix e with Ok (Some c) => [c] | _ => [] end)%list.
Proof. rewrite event_sequence_app. f_equal. unfold event_sequence. cbn. by destruct (event_change prefix e) as [[c|]|]. Qed.

Lemma sequence_lookup prefix es rk : Forall (fun e => is_Some (event_kv e)) es ->
  fold_left apply_change (event_sequence prefix es) ∅ !! rk =
    if decide (accepted prefix rk)
    then list.last (filter (fun e => event_key e = with_prefix prefix (logical_path rk)) es) ≫= event_value else None.
Proof.
  induction es as [|e es IH] using rev_ind; intros Hes; [by case_decide|].
  apply Forall_app in Hes as [Hes [Hkv _]%Forall_cons]. specialize (IH Hes).
  rewrite sequence_snoc, fold_left_app, filter_app, filter_cons, filter_nil.
  destruct (event_change prefix e) as [[c|]|err] eqn:Ec; cbn [fold_left].
  - apply event_change_iff in Ec as (_ & Ha & Hk & Hc). rewrite apply_change_lookup, IH. destruct (decide (change_key c = rk)) as [<-|Hne].
    + rewrite (decide_True _ _ Ha), (decide_True _ _ Hk), last_snoc. cbn. rewrite Hc. by destruct (event_value e).
    + case_decide; [|done]. rewrite decide_False; [by rewrite app_nil_r|]. intros Hk'. apply Hne. rewrite Hk in Hk'.
      apply (with_prefix_inj prefix); [apply Ha|apply H|apply Ha|done].
  - rewrite IH. case_decide as Ha; [|done]. rewrite decide_False; [by rewrite app_nil_r|]. intros Hk.
    assert (event_change prefix e = Ok (Some (match event_value e with Some r => ChangePut rk r | None => ChangeDelete rk end))) as E; [|congruence].
    apply event_change_iff. destruct (event_value e); done.
  - rewrite IH. case_decide as Ha; [|done]. rewrite decide_False; [by rewrite app_nil_r|]. intros Hk.
    assert (event_change prefix e = Ok (Some (match event_value e with Some r => ChangePut rk r | None => ChangeDelete rk end))) as E; [|congruence].
    apply event_change_iff. destruct (event_value e); done.
Qed.

(** Only accepted keys are in a snapshot. *)
Lemma snapshot_accepted_keys kvs rev prefix g rk x : graph_snapshot_from_list kvs rev prefix = Ok g -> resources g !! rk = Some x -> accepted prefix rk.
Proof.
  intros Hg Hx. assert (Hwf : key_wf rk /\ utf8_valid (with_prefix prefix (logical_path rk)) = true).
  { unfold graph_snapshot_from_list in Hg. apply and_then_ok in Hg as ([rs gd] & Hf & [= <-]). cbn in Hx.
    revert rs gd x Hf Hx. induction kvs as [|kv kvs IH] using rev_ind; intros rs gd x Hf Hx; [by injection Hf as <- <-|].
    apply try_fold_snoc in Hf as ([rs1 gd1] & Hf & Hstep). unfold EtcdSync.list_step in Hstep.
    destruct (negb _); [injection Hstep as <- <-; by eapply IH|].
    destruct (bool_decide _); [apply and_then_ok in Hstep as (? & _ & [= <- <-]); by eapply IH|].
    destruct (is_metadata_key _); [injection Hstep as <- <-; by eapply IH|].
    apply and_then_ok in Hstep as (rk' & Hrk & [= <- <-]).
    destruct (physical_key_to_resource_key (kv_key kv) prefix) as [rk0|] eqn:E; [|done]. injection Hrk as ->.
    apply physical_key_roundtrip in E as (Hu & Hk & Hw). destruct (decide (rk' = rk)) as [<-|Hne]; [by rewrite <-Hk|].
    rewrite lookup_insert_ne in Hx by done. by eapply IH. }
  split; [tauto|]. split; [tauto|]. destruct (snapshot_from_list_lookup _ _ _ _ Hg) as (_ & _ & Hl). rewrite Hl in Hx by tauto.
  by destruct (starts_with (id rk) ".").
Qed.

Lemma unique_key (kvs : list ListKv) kv k : NoDup (kv_key <$> kvs) -> kv ∈ kvs -> kv_key kv = k ->
  list.last (filter (fun x => kv_key x = k) kvs) = Some kv.
Proof.
  intros Hnd Hin Hk. destruct (list.last (filter (fun x => kv_key x = k) kvs)) as [x|] eqn:E.
  - apply last_Some_elem_of, list_elem_of_filter in E as [Hx Hxin]. f_equal.
    apply list_elem_of_lookup in Hin as [i Hi]. apply list_elem_of_lookup in Hxin as [j Hj].
    assert (i = j) as -> by (apply (NoDup_lookup (kv_key <$> kvs) i j k); [done|rewrite list_lookup_fmap, Hi; cbn; congruence|rewrite list_lookup_fmap, Hj; cbn; congruence]). congruence.
  - apply last_None in E. assert (Hf : kv ∈ filter (fun x => kv_key x = k) kvs) by (apply list_elem_of_filter; done).
    rewrite E in Hf. by apply not_elem_of_nil in Hf.
Qed.

(** A lawful list is mapped to the resources of its revision. *)
Lemma list_history prefix h r kvs g : Forall (fun e => is_Some (event_kv e)) h -> lists h r kvs ->
  graph_snapshot_from_list kvs r prefix = Ok g -> resources g = resources_at prefix h r /\ graph_revision g = r.
Proof.
  intros Hh [Hnd Hl] Hg. destruct (snapshot_from_list_lookup _ _ _ _ Hg) as (Hrev & _ & Hlook). split; [|done].
  apply map_eq. intros rk. unfold resources_at. rewrite sequence_lookup by (by apply filter_forall).
  case_decide as Ha.
  2: { destruct (resources g !! rk) eqn:E; [|done]. by apply snapshot_accepted_keys with (1 := Hg) in E. }
  destruct Ha as (Hwf & Hu & Hd). rewrite Hlook, Hd by done. set (k := with_prefix prefix (logical_path rk)).
  destruct (list.last (filter (fun e => event_key e = k) (upto r h))) as [e|] eqn:Ee; cbn [mbind option_bind].
  - assert (Hek : event_key e = k) by (apply last_Some_elem_of, list_elem_of_filter in Ee; tauto).
    assert (Hkv : is_Some (event_kv e)).
    { apply last_Some_elem_of, list_elem_of_filter in Ee as [_ Ein]. apply list_elem_of_filter in Ein as [_ Ein]. rewrite Forall_forall in Hh. auto. }
    destruct Hkv as [kv Hkv]. assert (Hkk : kv_key kv = k) by (unfold event_key in Hek; by rewrite Hkv in Hek).
    unfold event_value. rewrite Hkv. destruct (event_type e) eqn:Et.
    + assert (Hin : kv ∈ kvs) by (apply Hl; exists e; by rewrite Hkk).
      by rewrite (unique_key kvs kv k).
    + destruct (list.last (filter (fun kv0 => kv_key kv0 = k) kvs)) as [kv'|] eqn:El; [|done].
      apply last_Some_elem_of, list_elem_of_filter in El as [Hk' Hin]. apply Hl in Hin as (e' & He' & Ht' & _). rewrite Hk', Ee in He'. congruence.
  - destruct (list.last (filter (fun kv0 => kv_key kv0 = k) kvs)) as [kv'|] eqn:El; [|done].
    apply last_Some_elem_of, list_elem_of_filter in El as [Hk' Hin]. apply Hl in Hin as (e' & He' & _). rewrite Hk', Ee in He'. congruence.
Qed.

(** ** What each step does to the authority *)

Section sync_props.
Context `{CipherSuite} `{Serde}.
Context (PLUGIN_META : list PluginMeta) (kr : KeyringService).
Context (GraphError_display : GraphError -> string) (StoreError_debug : StoreError -> string).

Lemma submit_cases g set a : submit g set a = (Err WorkerStopped, a) \/
  exists a' t, submit g set a = (Ok (), a') /\ target a' = Some t /\ stored t = g /\ committed a' = committed a.
Proof.
  destruct (lifecycle a) eqn:El; [right|left; by apply submit_stopped]. rewrite submit_running by done.
  by eexists _, _.
Qed.

Lemma replace_all_cases g a : (exists e, replace_all PLUGIN_META kr g a = (Err e, a)) \/
  exists a' t, replace_all PLUGIN_META kr g a = (Ok (), a') /\ target a' = Some t /\ stored t = g /\ committed a' = committed a.
Proof.
  unfold replace_all. destruct (admit_runtime _ _ _) as [set|e]; [|left; by eexists]. unfold lift_result.
  destruct (submit_cases g set a) as [->|(a' & t & -> & ? & ? & ?)]; [left; by eexists|right; by exists a', t].
Qed.

Lemma apply_watch_cases b a : (exists e, apply_watch PLUGIN_META kr b a = (Err e, a)) \/
  (changes b = [] /\ apply_watch PLUGIN_META kr b a = (Ok (), a)) \/
  (changes b <> [] /\ exists a' t, apply_watch PLUGIN_META kr b a = (Ok (), a') /\ target a' = Some t /\ committed a' = committed a /\
    apply_watch_batch (watch_base a) b = Ok (stored t)).
Proof.
  unfold apply_watch. destruct (changes b) as [|c cs] eqn:Ec; [by right; left|].
  destruct (_ <? _); [left; by eexists|]. destruct (apply_watch_batch _ _) as [g|e] eqn:Eg; [|left; by eexists].
  destruct (admit_runtime _ _ _) as [set|e]; [|left; by eexists]. unfold lift_result.
  destruct (submit_cases g set a) as [->|(a' & t & -> & Ht & Hs & Hc)]; [left; by eexists|right; right].
  split; [done|]. exists a', t. by rewrite Hs.
Qed.

(** The worker leaves the target alone. *)
Lemma worker_target a ev a' : Authority.step PLUGIN_META kr a ev = Some a' ->
  match ev with EvReplace _ | EvWatch _ => False | _ => True end -> target a' = target a.
Proof.
  assert (Ho : forall at' d o b, target (handle_outcome at' d o b) = target b).
  { intros at' d o b. destruct o as [|e|e]; [done|..]; cbn [handle_outcome].
    - destruct at'; [destruct (bool_decide _)|]; done.
    - destruct at' as [gen|]; [|done]. unfold reject_publication. cbn. by destruct (target b) eqn:E; [destruct (bool_decide _)|]; cbn; rewrite ?E. }
  assert (Hf : forall now p b, target (finish_publish now p b).2 = target b).
  { intros now p b. unfold finish_publish. destruct (_ || _); [done|]. by destruct (_ <? _). }
  intros Hs Hev. destruct ev; try done; cbn [Authority.step] in Hs;
    try (destruct (worker a); cbn [Authority.step] in Hs; try done);
    repeat case_match; simplify_eq; rewrite ?Ho, ?Hf; try done.
  all: unfold shutdown; by destruct (bool_decide _).
Qed.

Section history.
Context (h : list EtcdSync.Event) (prefix : string).
Abbreviation P := (canonicalize_prefix prefix).
Hypothesis h_ordered : ordered h.
Hypothesis h_pairs : Forall (fun e => is_Some (event_kv e)) h.

(** A graph of the history, at its own revision. *)
Definition of_history (g : StoredGraph) : Prop := resources g = resources_at P h (graph_revision g).

Record auth_ok (a : Inner) : Prop := {
  ok_inv : inv PLUGIN_META kr a;
  ok_target t : target a = Some t -> of_history (stored t);
  ok_committed g : committed a = Some g -> of_history g;
}.

Lemma auth_ok_status a st : auth_ok a -> auth_ok (a <| status := st |>).
Proof. intros [Hi Ht Hc]. split; [|done|done]. eapply inv_ext; [exact Hi|done..|by left]. Qed.

(** The authority holds the namespace as it is at [r]. *)
Definition holds_at (a : Inner) (r : Z) : Prop := is_Some (target a) /\ resources (watch_base a) = resources_at P h r.

Lemma holds_status a st r : holds_at a r -> holds_at (a <| status := st |>) r.
Proof. done. Qed.

Lemma auth_ok_replace g a : auth_ok a -> of_history g -> auth_ok (replace_all PLUGIN_META kr g a).2.
Proof.
  intros [Hi Ht Hc] Hg. pose proof (replace_all_inv PLUGIN_META kr g a Hi) as Hi'.
  destruct (replace_all_cases g a) as [[e E]|(a' & t & E & Et & Es & Eco)]; rewrite E in *; cbn [snd] in *; [done|].
  split; [done| |by rewrite Eco]. intros t'. rewrite Et. intros [= <-]. by rewrite Es.
Qed.

(** A lawful answer of the watch moves the authority along the history. *)
Lemma message_history d d' es cs a : auth_ok a -> holds_at a d -> d <= d' -> es = between d d' h ->
  graph_changes_from_events es P = Ok cs ->
  let r := apply_watch PLUGIN_META kr {| batch_revision := batch_revision_of es; changes := cs |} a in
  auth_ok r.2 /\ (r.1 = Ok () -> holds_at r.2 d').
Proof.
  intros [Hi Ht Hc] [Hsome Hb] Hd Hes Hcs. cbv zeta. set (b := {| batch_revision := batch_revision_of es; changes := cs |}).
  pose proof (apply_watch_inv PLUGIN_META kr b a Hi) as Hi'.
  assert (Hnext : fold_left apply_change cs (resources (watch_base a)) = resources_at P h d').
  { rewrite (coalesced_resources es P cs cs _ Hcs) by done. rewrite Hb, Hes. symmetry. by apply resources_step. }
  destruct (apply_watch_cases b a) as [[e E]|[[Hnil E]|(Hne & a' & t & E & Et & Eco & Eb)]]; rewrite E in *; cbn [fst snd] in *; [done|..].
  - split; [done|]. intros _. split; [done|]. cbn in Hnil. rewrite Hnil in Hnext. exact Hnext.
  - cbn [changes] in Hne. unfold apply_watch_batch in Eb. cbn [changes b] in Eb.
    assert (Hst : resources (stored t) = resources_at P h d' /\ graph_revision (stored t) = batch_revision_of es).
    { unfold b in Eb. cbn in Eb. destruct cs as [|c cs']; [done|]. injection Eb as <-. cbn. split; [exact Hnext|done]. }
    destruct Hst as [Hr Hrev]. split; [|intros _; split; [by eexists|unfold watch_base; by rewrite Et]].
    split; [done| |by rewrite Eco]. intros t'. rewrite Et. intros [= <-]. unfold of_history. rewrite Hr, Hrev.
    assert (Hesne : es <> []) by (intros ->; by injection Hcs as <-).
    destruct (batch_revision_max es) as [(e & He & Hmax) Hall]; [rewrite Hes; by apply filter_forall|done|].
    rewrite Hes in He. apply list_elem_of_filter in He as [He _]. rewrite Hmax in He.
    apply resources_same; [done|lia|]. unfold between. destruct (filter _ h) as [|x l] eqn:Ef; [done|exfalso].
    assert (Hx : x ∈ filter (fun e => batch_revision_of es < event_revision e <= d') h) by (rewrite Ef; by left).
    apply list_elem_of_filter in Hx as [Hx Hin]. rewrite Forall_forall in Hall.
    specialize (Hall x). rewrite Hes in Hall at 1. unfold between in Hall. rewrite list_elem_of_filter in Hall. specialize (Hall ltac:(split; [lia|done])). lia.
Qed.

(** ** The loop *)

Record sync_ok (s : EtcdConfigSync) (d : Z) : Prop := {
  sy_prefix : canonical_prefix s = P;
  sy_auth : auth_ok (graph s);
  sy_phase : match phase s with
             | Opening => holds_at (graph s) (sync_revision s)
             | Streaming => holds_at (graph s) d
             | _ => True
             end;
}.

Abbreviation step := (sync_step PLUGIN_META kr GraphError_display StoreError_debug).

Lemma get_client_keeps created s : let s' := (get_client created s).2 in
  canonical_prefix s' = canonical_prefix s /\ graph s' = graph s /\ sync_revision s' = sync_revision s.
Proof. unfold get_client. destruct (client s); [done|]. by destruct created. Qed.

Lemma failure_ok delay e now s d : canonical_prefix s = P -> auth_ok (graph s) -> sync_ok (after_failure delay e now s) d.
Proof. intros Hp Ha. destruct e as [[err|err]|what]; split; try done; unfold reset_client, on_status; cbn; by repeat apply auth_ok_status. Qed.

Lemma finish_ok next delay now r d : canonical_prefix r.2 = P -> auth_ok (graph r.2) ->
  (r.1 = Ok () -> match next with Opening => holds_at (graph r.2) (sync_revision r.2) | Streaming => holds_at (graph r.2) d | _ => True end) ->
  sync_ok (finish next delay now r) d.
Proof. intros Hp Ha Hn. unfold finish. destruct r as [[[]|e] s]; cbn in *; [split; [done|done|exact (Hn eq_refl)]|by apply failure_ok]. Qed.

Lemma list_ok_history resp now s : canonical_prefix s = P -> auth_ok (graph s) ->
  (forall r, list_header resp = Some r -> lists h r (list_kvs resp)) ->
  let r := list_ok PLUGIN_META kr GraphError_display StoreError_debug resp now s in
  canonical_prefix r.2 = P /\ auth_ok (graph r.2) /\ (r.1 = Ok () -> holds_at (graph r.2) (sync_revision r.2)).
Proof.
  intros Hp Ha Hl. unfold list_ok. destruct (list_header resp) as [rev|]; [|done].
  set (s1 := on_status _ s). assert (Ha1 : auth_ok (graph s1)) by (by apply auth_ok_status). change (canonical_prefix s1) with (canonical_prefix s).
  rewrite Hp. destruct (graph_snapshot_from_list (list_kvs resp) rev P) as [g|e] eqn:Eg; [|done].
  destruct (list_history P h rev (list_kvs resp) g h_pairs (Hl rev eq_refl) Eg) as [Hg Hrev].
  assert (Hof : of_history g) by (unfold of_history; by rewrite Hrev).
  pose proof (auth_ok_replace g (graph s1) Ha1 Hof) as Ha2.
  destruct (replace_all_cases g (graph s1)) as [[e E]|(a' & t & E & Et & Es & _)]; rewrite E in *; cbn [fst snd classified] in *.
  - by destruct e.
  - cbn. split_and!; [done|by apply auth_ok_status|]. intros _. split; [by eexists|]. unfold watch_base. cbn. by rewrite Et, Es.
Qed.

Lemma list_step_history created answer now s d : canonical_prefix s = P -> auth_ok (graph s) ->
  (forall resp r, answer = Ok resp -> list_header resp = Some r -> lists h r (list_kvs resp)) ->
  sync_ok (finish Opening LIST_RETRY_DELAY now (list_step PLUGIN_META kr GraphError_display StoreError_debug created answer now s)) d.
Proof.
  intros Hp Ha Hl. unfold list_step. destruct (get_client_keeps created s) as (Kp & Kg & Kr).
  destruct (get_client created s) as [[[]|e] s1]; cbn in Kp, Kg, Kr.
  2: { apply finish_ok; cbn; [congruence|by rewrite Kg|done]. }
  destruct answer as [resp|e]; [|apply finish_ok; cbn; [congruence|by rewrite Kg|done]].
  destruct (list_ok_history resp now s1) as (? & ? & ?); [congruence|by rewrite Kg|intros r; by apply Hl|]. by apply finish_ok.
Qed.

Lemma open_step_history created answer now s : canonical_prefix s = P -> auth_ok (graph s) -> holds_at (graph s) (sync_revision s) ->
  sync_ok (finish Streaming WATCH_RETRY_DELAY now (open_step created answer now s)) (start_revision s - 1).
Proof.
  intros Hp Ha Hh. unfold open_step. destruct (get_client_keeps created s) as (Kp & Kg & Kr).
  assert (Hst : start_revision s - 1 = sync_revision s) by (unfold start_revision; lia).
  destruct (get_client created s) as [[[]|e] s1]; cbn in Kp, Kg, Kr.
  2: { apply finish_ok; cbn; [congruence|by rewrite Kg|done]. }
  destruct answer as [[]|e]; [|apply finish_ok; cbn; [congruence|by rewrite Kg|done]].
  apply finish_ok; cbn; [congruence|rewrite Kg; by apply auth_ok_status|]. intros _. by rewrite Kg, Hst.
Qed.

Lemma message_step_history message now s d d' : sync_ok s d -> phase s = Streaming -> d <= d' ->
  (forall resp, message = Ok (Some resp) -> events resp = between d d' h) ->
  let r := message_step PLUGIN_META kr GraphError_display message now s in
  canonical_prefix r.2 = P /\ auth_ok (graph r.2) /\ phase r.2 = phase s /\ (r.1 = Ok true -> holds_at (graph r.2) d').
Proof.
  intros [Hp Ha Hs] Hph Hd Hm. rewrite Hph in Hs. destruct message as [[resp|]|e]; cbn [message_step]; [|done..].
  specialize (Hm resp eq_refl). destruct (canceled resp); [done|]. unfold message_ok. rewrite Hp.
  destruct (graph_changes_from_events (events resp) P) as [cs|e] eqn:Ec; [|done].
  destruct (message_history d d' (events resp) cs (graph s) Ha Hs Hd Hm Ec) as [Ha' Hh].
  destruct (apply_watch PLUGIN_META kr _ (graph s)) as [r a']. cbn [fst snd] in *.
  destruct r as [[]|[e|what]]; cbn [classified fst snd]; [|done..].
  destruct (watch_header resp) as [rev|]; cbn; (split_and!; [done| |done|]); try done; try by apply auth_ok_status. 
  all: intros _; by apply Hh.
Qed.


Lemma other_step s d ev s' : sync_ok s d ->
  match ev with SyncProgress _ _ | SyncWake | SyncAuthority _ => True | SyncShutdown _ requested => requested = true | _ => False end ->
  step s ev = Some s' -> sync_ok s' d.
Proof.
  intros [Hp Ha Hs] Hev Hst. destruct ev as [closed requested|created answer now|created answer now|message now|answer now| |ev]; try done; cbn [sync_step] in Hst.
  - subst requested. unfold on_shutdown in Hst. rewrite orb_true_r in Hst. destruct (phase s); try done; apply (inj Some) in Hst as <-; split; done.
  - destruct (phase s) eqn:Ep; try done. apply (inj Some) in Hst as <-. destruct answer as [[]|e]; [split; [done..|by rewrite Ep]|]. by apply failure_ok.
  - destruct (phase s); try done. apply (inj Some) in Hst as <-. split; done.
  - assert (Hw : match ev with EvReplace _ | EvWatch _ => False | _ => True end) by (by destruct ev).
    assert (Hstep : exists a', Authority.step PLUGIN_META kr (graph s) ev = Some a' /\ s' = s <| graph := a' |>).
    { destruct ev; try done; destruct (Authority.step _ _ _ _) as [a'|]; try done; apply (inj Some) in Hst as <-; by eexists. }
    destruct Hstep as (a' & Ea & ->). pose proof (worker_target _ _ _ Ea Hw) as Ht. destruct Ha as [Hi Htg Hco].
    assert (Ha' : auth_ok a').
    { split; [by eapply step_inv|by rewrite Ht|]. destruct (step_published PLUGIN_META kr _ _ _ Hi Ea) as [E|(_ & t & Et & _ & E)];
        injection E as _ _ ->; [exact Hco|]. intros g [= <-]. by apply Htg. }
    split; [done|done|]. cbn. destruct (phase s); try done; (destruct Hs as [[t Et] Hb]; split; [rewrite Ht; by eexists|]);
      unfold watch_base in *; by rewrite Ht, Et in *.
Qed.

Lemma follows_ok s d : follows PLUGIN_META kr GraphError_display StoreError_debug h prefix s d -> sync_ok s d.
Proof.
  induction 1 as [|s d s' created answer now _ IH Hl Hs|s d s' created answer now _ IH Hs|s d s' d' message now _ IH Hd Hm Hs|s d s' ev _ IH Hev Hs].
  - split; [done| |done]. apply auth_ok_status. split; [apply inv_new|done|done].
  - cbn [sync_step] in Hs. destruct IH as [Hp Ha _]. destruct (phase s); try done. apply (inj Some) in Hs as <-. by apply list_step_history.
  - cbn [sync_step] in Hs. destruct IH as [Hp Ha Hph]. destruct (phase s); try done. apply (inj Some) in Hs as <-. by apply open_step_history.
  - cbn [sync_step] in Hs. destruct (phase s) eqn:Ep; try done.
    destruct (message_step_history message now s d d' IH Ep Hd Hm) as (Hp' & Ha' & Hph' & Hh').
    destruct (message_step _ _ _ _ _ _) as [[[]|e] s1]; cbn [fst snd] in *; apply (inj Some) in Hs as <-.
    + split; [done..|]. rewrite Hph', Ep. by apply Hh'.
    + split; done.
    + by apply failure_ok.
  - by apply (other_step s d ev).
Qed.

(** C1 (the gateway follows etcd).  Let etcd answer from one ordered history of
    the namespace: lists as of the revision of their header, watches with every
    event from their start.  Through all failures, reconnections, rejections and
    interleavings with the worker, until shutdown, the runtime serves at every
    moment exactly what the namespace was at the revision the runtime reports,
    decoded and valid; and while a watch is open the authority's base is the
    namespace as of the last event delivered. *)
Theorem runtime_follows_etcd s d : follows PLUGIN_META kr GraphError_display StoreError_debug h prefix s d ->
  (forall g, committed (graph s) = Some g ->
     runtime_revision (graph s) = graph_revision g /\ resources g = resources_at (canonicalize_prefix prefix) h (runtime_revision (graph s)) /\
     graph_valid PLUGIN_META (runtime_logical (graph s)) /\ decode_graph g DecryptForRuntime kr = Ok (runtime_logical (graph s))) /\
  (phase s = Streaming -> resources (watch_base (graph s)) = resources_at (canonicalize_prefix prefix) h d).
Proof.
  intros [_ [Hi _ Hco] Hph]%follows_ok. split; [|intros E; rewrite E in Hph; apply Hph].
  intros g Hg. pose proof (inv_serves _ _ _ Hi) as Hs. unfold serves_committed in Hs. rewrite Hg in Hs. destruct Hs as [Hr Ha].
  split; [done|]. rewrite Hr. split; [by apply Hco|]. by apply admitted_valid.
Qed.
End history.
End sync_props.

(** ** Failures *)

Section failures.
Context `{CipherSuite} `{Serde}.
Context (PLUGIN_META : list PluginMeta) (kr : KeyringService).
Context (GraphError_display : GraphError -> string) (StoreError_debug : StoreError -> string).

(** The same authority, up to what the probes report. *)
Definition same_graphs (s s' : EtcdConfigSync) : Prop := exists st, graph s' = (graph s) <| status := st |>.

(** What a failure leaves behind: everything is torn down, or everything is
    kept and only the error is noted. *)
Definition torn_down (s s' : EtcdConfigSync) : Prop :=
  client s' = false /\ connected (status (graph s')) = false /\ error_kind (status (graph s')) = Some EtcdUnavailable /\
  is_Some (disconnected_since (status (graph s'))).
Definition kept (s s' : EtcdConfigSync) : Prop :=
  let before := status (graph s) in let after := status (graph s') in
  (client s = true -> client s' = true) /\ error_kind after = Some CandidateInvalid /\
  match phase s with
  | Listing => connected after = true /\ disconnected_since after = None /\
      forall now, is_ready now after = connected before && is_ready now before
  | _ => connected after = connected before /\ disconnected_since after = disconnected_since before /\
      forall now, is_ready now after = is_ready now before
  end.

Lemma after_transport delay err now s : torn_down s (after_failure delay (Raise (Transport err)) now s) /\
  same_graphs s (after_failure delay (Raise (Transport err)) now s).
Proof.
  unfold torn_down, same_graphs, after_failure, reset_client, on_status. cbn [apply_op graph client status].
  split; [|by eexists]. cbn. split_and!; [done..| |].
  all: unfold mark_etcd_connected, record_sync_error, note_disconnected; cbn; repeat case_match; cbn in *; try done; try (by eexists);
    apply not_eq_None_Some; by bool_to_prop.
Qed.

(** The readiness a list leaves: it finds etcd again, and after an outage
    raises the fence that only a publication lowers. *)
Lemma success_ready now revision t st :
  connected (record_sync_success now revision st) = true /\ disconnected_since (record_sync_success now revision st) = None /\
  is_ready t (record_sync_success now revision st) = connected st && is_ready t st.
Proof.
  unfold record_sync_success, is_ready, compute_ready, is_stale. repeat case_bool_decide; cbn -[bool_decide];
    repeat case_bool_decide; destruct (connected st), (initialized st), (awaiting_publish_after_reconnect st); cbn; split_and!; try done;
    by rewrite ?andb_false_r.
Qed.

Lemma list_fails created answer now s e s1 :
  list_step PLUGIN_META kr GraphError_display StoreError_debug created answer now s = (Err (Raise e), s1) ->
  same_graphs s s1 /\ (client s = true -> client s1 = true) /\
  forall err, e = Data err -> exists revision, status (graph s1) = record_sync_success now revision (status (graph s)).
Proof.
  unfold list_step, get_client. assert (Hsame : forall c, same_graphs s (s <| client := c |>)) by (intros c; exists (status (graph s)); by destruct s as [? ? ? [] ?]).
  assert (Hs0 : forall s0, (exists c, s0 = s <| client := c |> /\ (client s = true -> c = true)) -> forall resp, answer = Ok resp ->
    list_ok PLUGIN_META kr GraphError_display StoreError_debug resp now s0 = (Err (Raise e), s1) ->
    same_graphs s s1 /\ (client s = true -> client s1 = true) /\ forall err, e = Data err -> exists revision, status (graph s1) = record_sync_success now revision (status (graph s))).
  { intros s0 (c & -> & Hc) resp -> . unfold list_ok. destruct (list_header resp) as [rev|]; [|intros [= <- <-]; split_and!; [apply Hsame|done|done]].
    destruct (graph_snapshot_from_list _ _ _) as [g|e0]; [|intros [= <- <-]; split_and!; [by eexists|done|done]].
    destruct (replace_all_cases PLUGIN_META kr g (graph (on_status (OpRecordSyncSuccess now rev) (s <| client := c |>)))) as [[e0 E]|(a' & t & E & _)]; rewrite E; cbn [fst snd classified].
    - destruct e0 as [e0|w]; [|done]. intros [= <- <-]. split_and!; [by eexists|done|by intros; exists rev].
    - done. }
  destruct (client s) eqn:Ec.
  - destruct answer as [resp|e0]; [|intros [= <- <-]; split_and!; [|done|done]; exists (status (graph s)); by destruct s as [? ? ? [] ?]].
    apply (Hs0 s); [|done]. exists true. split; [destruct s; cbn in *; by subst|done].
  - destruct created as [[]|e0]; [|intros [= <- <-]; split_and!; [|done|done]; exists (status (graph s)); by destruct s as [? ? ? [] ?]].
    destruct answer as [resp|e0]; [|intros [= <- <-]; split_and!; [apply Hsame|done|done]]. apply (Hs0 (s <| client := true |>)); [|done]. by exists true.
Qed.

Lemma message_fails message now s e s1 : message_step PLUGIN_META kr GraphError_display message now s = (Err (Raise e), s1) -> s1 = s.
Proof.
  unfold message_step, message_ok. destruct message as [[resp|]|e0]; [|done|by intros [= _ <-]]. destruct (canceled resp); [done|].
  destruct (graph_changes_from_events _ _) as [cs|e0]; [|by intros [= _ <-]].
  destruct (apply_watch_cases PLUGIN_META kr {| batch_revision := batch_revision_of (events resp); changes := cs |} (graph s)) as [[e0 E]|[[_ E]|(_ & a' & t & E & _)]];
    rewrite E; cbn [fst snd classified].
  - destruct e0 as [e0|w]; cbn; [|done]. intros [= _ <-]. by destruct s.
  - by destruct (watch_header resp).
  - by destruct (watch_header resp).
Qed.

Lemma open_fails created answer now s e s1 : open_step created answer now s = (Err (Raise e), s1) ->
  same_graphs s s1 /\ exists err, e = Transport err.
Proof.
  unfold open_step, get_client. assert (Hsame : same_graphs s s) by (exists (status (graph s)); by destruct s as [? ? ? [] ?]).
  destruct (client s); [|destruct created as [[]|e0]; [|by intros [= <- <-]; split; [|eexists]]];
    (destruct answer as [[]|e0]; [done|]; intros [= <- <-]; split; [|by eexists]); [done|exact Hsame].
Qed.

Lemma same_graphs_trans s s1 s2 : same_graphs s s1 -> same_graphs s1 s2 -> same_graphs s s2.
Proof. intros [st1 E1] [st2 E2]. exists st2. rewrite E2, E1. by destruct (graph s). Qed.

(** The status [st] the step left, against the one it met. *)
Definition noted (s : EtcdConfigSync) (st : RuntimeStatusInner) : Prop :=
  match phase s with Listing => exists now revision, st = record_sync_success now revision (status (graph s)) | _ => st = status (graph s) end.

Lemma failure_summary delay e now s s1 : same_graphs s s1 -> (client s = true -> client s1 = true) ->
  (forall err, e = Data err -> noted s (status (graph s1))) ->
  let s' := after_failure delay (Raise e) now s1 in same_graphs s s' /\ phase s' = Sleeping delay /\ (torn_down s s' \/ kept s s').
Proof.
  intros Hsame Hc Hd. cbv zeta. destruct e as [err|err].
  - destruct (after_transport delay err now s1) as [Ht Hg]. split_and!; [by apply same_graphs_trans with s1|done|by left].
  - specialize (Hd err eq_refl). split_and!; [apply same_graphs_trans with s1; [done|by eexists]|done|right].
    unfold kept, noted in *. cbv zeta. cbn. split_and!; [by auto|done|]. destruct (phase s); [|by rewrite Hd..].
    destruct Hd as (t & revision & ->). split_and!; [apply (success_ready t revision 0)..|]. intros t'.
    exact (proj2 (proj2 (success_ready t revision t' (status (graph s))))).
Qed.

Lemma open_client created answer now s : client s = true -> client (open_step created answer now s).2 = true.
Proof. unfold open_step, get_client. intros Hc. rewrite Hc. by destruct answer as [[]|]. Qed.

Lemma message_phase message now s : phase (message_step PLUGIN_META kr GraphError_display message now s).2 = phase s.
Proof.
  unfold message_step, message_ok. destruct message as [[resp|]|e0]; [|done..]. destruct (canceled resp); [done|].
  destruct (graph_changes_from_events _ _) as [cs|e0]; [|done]. cbn [snd]. destruct (classified _ _); [|done]. by destruct (watch_header resp).
Qed.

End failures.

(** ** Witnesses *)

Import Secrets.Toy.
#[local] Existing Instance ToySerde.serde.

Definition stored_pair (k v : string) (r : Z) : ListKv := {| kv_key := k; kv_value := v; kv_create_revision := r; kv_mod_revision := r |}.
Definition put_event (k v : string) (r : Z) : EtcdSync.Event := {| event_type := EventPut; event_kv := Some (stored_pair k v r) |}.
Definition delete_event (k : string) (r : Z) : EtcdSync.Event := {| event_type := EventDelete; event_kv := Some (stored_pair k "" r) |}.

(** An upstream and a route that uses it, then both deleted, the route last. *)
Definition demo_history : list EtcdSync.Event :=
  [put_event "/p/upstreams/u1" "u1" 1; put_event "/p/routes/r1" "r1" 2; delete_event "/p/upstreams/u1" 3; delete_event "/p/routes/r1" 4].
Definition no_display (e : GraphError) : string := "".
Definition no_debug (e : StoreError) : string := "".
Abbreviation demo_step := (sync_step [] disabled no_display no_debug).
Definition demo_run (evs : list SyncEvent) : EtcdConfigSync :=
  fold_left (fun s ev => default s (demo_step s ev)) evs (start_service (EtcdConfigSync_new "/p" Inner_new)).

Definition listed : ListResponse := {| list_header := Some 2; list_kvs := [stored_pair "/p/routes/r1" "r1" 2; stored_pair "/p/upstreams/u1" "u1" 1] |}.
Definition ev_list : SyncEvent := SyncList (Ok ()) (Ok listed) 10.
Definition ev_open : SyncEvent := SyncOpen (Ok ()) (Ok ()) 11.
Definition message (es : list EtcdSync.Event) (r : Z) : SyncEvent :=
  SyncMessage (Ok (Some {| canceled := false; events := es; watch_header := Some r |})) 12.
Definition ev_deleted : SyncEvent := message [delete_event "/p/upstreams/u1" 3; delete_event "/p/routes/r1" 4] 4.
Definition publish : list SyncEvent := [SyncAuthority EvRecv; SyncAuthority EvRead; SyncAuthority (EvCompiled 13)].

Lemma listed_lawful : lists demo_history 2 (list_kvs listed).
Proof.
  split; [apply NoDup_cons; split; [intros Hin%list_elem_of_singleton; discriminate Hin|apply NoDup_singleton]|]. intros kv. split.
  - intros [->|[->|[]%not_elem_of_nil]%elem_of_cons]%elem_of_cons; eexists; (split; [vm_compute; reflexivity|done]).
  - intros (e & He & Ht & Hk). apply last_Some_elem_of, list_elem_of_filter in He as [_ He].
    assert (E : upto 2 demo_history = [put_event "/p/upstreams/u1" "u1" 1; put_event "/p/routes/r1" "r1" 2]) by (vm_compute; reflexivity).
    rewrite E in He. apply elem_of_cons in He as [->|[->|[]%not_elem_of_nil]%elem_of_cons]; injection Hk as <-; [right; by left|by left].
Qed.

Definition watching : EtcdConfigSync := demo_run [ev_list; ev_open; ev_deleted].
Definition published_deletes : EtcdConfigSync := fold_left (fun s ev => default s (demo_step s ev)) publish watching.

Abbreviation demo_follows_at := (follows [] disabled no_display no_debug demo_history "/p").

Lemma watching_follows : demo_follows_at watching 4.
Proof.
  assert (F0 : demo_follows_at (demo_run []) 0) by constructor.
  assert (F1 : demo_follows_at (demo_run [ev_list]) 0).
  { apply (follows_list _ _ _ _ _ _ (demo_run []) 0 _ (Ok ()) (Ok listed) 10);
      [exact F0|intros resp r [= <-] [= <-]; exact listed_lawful|vm_compute; reflexivity]. }
  assert (F2 : demo_follows_at (demo_run [ev_list; ev_open]) 2).
  { apply (follows_open _ _ _ _ _ _ (demo_run [ev_list]) 0 _ (Ok ()) (Ok ()) 11); [exact F1|vm_compute; reflexivity]. }
  apply (follows_message _ _ _ _ _ _ (demo_run [ev_list; ev_open]) 2 _ 4
    (Ok (Some {| canceled := false; events := [delete_event "/p/upstreams/u1" 3; delete_event "/p/routes/r1" 4]; watch_header := Some 4 |})) 12);
    [exact F2|lia|intros resp [= <-]; vm_compute; reflexivity|vm_compute; reflexivity].
Qed.

Definition next (s : EtcdConfigSync) (ev : SyncEvent) : EtcdConfigSync := default s (demo_step s ev).

Lemma deletes_followed : demo_follows_at published_deletes 4.
Proof.
  pose proof watching_follows as F. set (s1 := next watching (SyncAuthority EvRecv)). set (s2 := next s1 (SyncAuthority EvRead)).
  apply (follows_other _ _ _ _ _ _ s2 4 _ (SyncAuthority (EvCompiled 13))); [|exact I|vm_compute; reflexivity].
  apply (follows_other _ _ _ _ _ _ s1 4 _ (SyncAuthority EvRead)); [|exact I|vm_compute; reflexivity].
  apply (follows_other _ _ _ _ _ _ watching 4 _ (SyncAuthority EvRecv)); [exact F|exact I|vm_compute; reflexivity].
Qed.

Lemma runtime_follows_etcd_witness : exists g, committed (graph published_deletes) = Some g /\
  runtime_revision (graph published_deletes) = 4 /\ resources g = ∅ /\ phase published_deletes = Streaming.
Proof.
  assert (Ho : ordered demo_history) by (repeat split; repeat constructor; discriminate).
  assert (Hp : Forall (fun e => is_Some (event_kv e)) demo_history) by (repeat constructor; by eexists).
  destruct (runtime_follows_etcd [] disabled no_display no_debug demo_history "/p" Ho Hp _ _ deletes_followed) as [Hg _].
  destruct (committed (graph published_deletes)) as [g|] eqn:Ec; [|vm_compute in Ec; discriminate].
  destruct (Hg g eq_refl) as (_ & Hr & _). exists g. split; [exact eq_refl|].
  assert (Er : runtime_revision (graph published_deletes) = 4) by (vm_compute; reflexivity).
  split; [exact Er|]. rewrite Er in Hr. split; [rewrite Hr; vm_compute; reflexivity|vm_compute; reflexivity].
Defined.

(** A deletion that leaves a dangling reference is rejected as data: the
    connection stays and the loop relists. *)
Definition ev_dangling : SyncEvent := message [delete_event "/p/upstreams/u1" 3] 3.


(** After an outage the list that finds etcd again raises the reconnection
    fence before the authority sees its data: rejected data then leaves the
    gateway not ready, although it serves the last good graph. *)
Definition ev_lost : SyncEvent := SyncMessage (Err "connection reset") 20.
Definition ev_bad_list : SyncEvent :=
  SyncList (Ok ()) (Ok {| list_header := Some 3; list_kvs := [stored_pair "/p/routes/r1" "r1" 2] |}) 30.

Example data_rejection_after_outage :
  let serving := fold_left next publish (demo_run [ev_list; ev_open]) in
  let s := fold_left next [ev_lost; SyncWake; ev_bad_list] serving in
  is_ready 14 (status (graph serving)) = true /\ phase s = Sleeping LIST_RETRY_DELAY /\ connected (status (graph s)) = true /\
  error_kind (status (graph s)) = Some CandidateInvalid /\ runtime_revision (graph s) = 2 /\ is_ready 31 (status (graph s)) = false.
Proof. vm_compute. repeat split. Qed.
