(* ===== verification/AdminHttp.v ===== *)
(** * The Admin HTTP API ([src/src/admin/mod.rs])

    Route registration, authentication, body and content-type checks, the five
    handlers over the authority's operations ([AdminOps]) and the mapping of
    errors to responses.  The [matchit] router, SHA-256 and JSON printing are
    type classes. *)

From Stdlib Require Import ZArith Lia Ascii.
From stdpp Require Import base tactics gmap strings pretty option list.
From S2P Require Import AdminWriters.
From S2P Require Import Prelude Errors GraphStore Utf8 EtcdKeys Hosts Json Config ConfigSet Encryption Secrets GraphDecode Publication AdminOps RequestVars Pipeline SniMatch RouteMatch Discovery AuthPlugins Csrf Settings.

Open Scope Z_scope.

(** ** Errors and responses *)

Inductive ApiError : Type :=
| ApiValidationError (msg : string)
| MissingParameter (msg : string)
| InvalidRequest (msg : string)
| RequestBodyReadError (msg : string)
| ApiNotFound (msg : string)
| ApiProxyError (err : ProxyError)
| ApiGraph (status : Z) (code message : string) (source : GraphError).

(** [Display]; the graph errors are only logged with it. *)
Definition ApiError_to_string (self : ApiError) : string :=
  match self with
  | ApiValidationError msg => "Validation error: " +:+ msg
  | MissingParameter msg => "Missing parameter: " +:+ msg
  | InvalidRequest msg => "Invalid request: " +:+ msg
  | RequestBodyReadError msg => "Request body read error: " +:+ msg
  | ApiNotFound msg => "Not found: " +:+ msg
  | ApiProxyError err => ProxyError_to_string err
  | ApiGraph _ code message _ => "graph " +:+ code +:+ ": " +:+ message
  end.

Definition ApiError_from_graph (err : GraphError) : ApiError :=
  let '(status, code, message) :=
    match err with
    | NotFound _ => (404, "not_found", "Resource not found")
    | CasConflict => (409, "cas_conflict", "Configuration changed concurrently")
    | ReferentialConflict _ => (409, "referential_conflict", "Resource is still referenced")
    | InvalidKey _ _ | InvalidResource _ _ | InvalidCandidate _ | Secret _ _ _ =>
      (400, "validation_failed", "Configuration validation failed")
    | Store _ => (503, "store_unavailable", "Backend configuration store unavailable")
    | StaleRevision _ _ | WorkerStopped => (500, "internal_error", "Internal server error")
    end in
  ApiGraph status code message err.

Record ApiResponse : Type := { status : Z; content_type : option string; body : string }.

(** Printing JSON text ([Value::to_string], which cannot fail), and the field
    errors of a validation report. *)
Class JsonText : Type := { json_to_string : Json -> string; field_errors : string -> Json }.

Definition success_http (body : string) (content_type : option string) : ApiResponse :=
  {| status := 200; content_type := content_type; body := body |}.
Definition error_http (status : Z) (message : string) : ApiResponse :=
  {| status := status; content_type := Some "text/plain"; body := message |}.
Definition bad_request (message : string) : ApiResponse := error_http 400 message.
Definition forbidden (message : string) : ApiResponse := error_http 403 message.
Definition internal_server_error (message : string) : ApiResponse := error_http 500 message.

Section responses.
Context `{JsonText} `{Serde}.

Definition success_json (data : Json) : ApiResponse :=
  match to_vec data with
  | Ok json_body => success_http json_body (Some "application/json")
  | Err _ => error_http 500 "JSON serialization failed"
  end.

Definition proxy_error_response (proxy_err : ProxyError) : ApiResponse :=
  match proxy_err with
  | ValidationStructured errors =>
    {| status := 400; content_type := Some "application/json";
       body := json_to_string (JObject [("details", field_errors errors); ("error", JString "Validation failed")]) |}
  | Errors.Validation _ | Configuration _ => bad_request (ProxyError_to_string proxy_err)
  | EtcdError _ => internal_server_error "Backend configuration store unavailable"
  | CasConflictError _ => error_http 409 (ProxyError_to_string proxy_err)
  | _ => internal_server_error "Internal server error"
  end.

Definition into_response (self : ApiError) : ApiResponse :=
  match self with
  | RequestBodyReadError _ => bad_request "Failed to read request body"
  | ApiNotFound _ => error_http 404 (ApiError_to_string self)
  | ApiValidationError _ | MissingParameter _ | InvalidRequest _ => bad_request (ApiError_to_string self)
  | ApiProxyError proxy_err => proxy_error_response proxy_err
  | ApiGraph status code message _ =>
    {| status := status; content_type := Some "application/json";
       body := json_to_string (JObject [("code", JString code); ("error", JString message)]) |}
  end.
End responses.

(** ** Requests *)

Definition MAX_BODY_SIZE : Z := 1048576.

(** [body] yields the chunks of the stream, or the error reading one. *)
Record AdminSession `{HttpTypes} : Type := { admin_header : RequestHeader; chunks : list (Result string string) }.

Definition is_json_content_type (ct_str : string) : bool :=
  match head (split_char ";"%char ct_str) with
  | Some media_type => eq_ignore_ascii_case (trim media_type) "application/json"
  | None => false
  end.

(** [str::parse::<i64>] *)
Fixpoint all_digits (s : string) : bool :=
  match s with EmptyString => true | String a s => (48 <=? byte_val a) && (byte_val a <=? 57) && all_digits s end.
Definition parse_magnitude (s : string) : option Z :=
  if bool_decide (s = "") || negb (all_digits s) then None else Some (digits_val 0 s).
Definition parse_i64 (s : string) : option Z :=
  let v := match s with
           | String "-" s => Z.opp <$> parse_magnitude s
           | String "+" s => parse_magnitude s
           | _ => parse_magnitude s
           end in
  v ≫= fun v => if (- 2 ^ 63 <=? v) && (v <? 2 ^ 63) then Some v else None.

Section session.
Context `{HttpTypes} `{AuthLib}.

Definition validate_api_key (session : AdminSession) (api_key : string) : Result unit ApiError :=
  if bool_decide (trim api_key = "") then Err (InvalidRequest "Must provide valid API key")
  else
    let provided_key := default "" (get_req_header_value (admin_header session) "x-api-key") in
    if negb (bool_decide (provided_key = "")) && constant_time_eq provided_key api_key then Ok ()
    else Err (InvalidRequest "Must provide valid API key").

Definition validate_content_type (session : AdminSession) : Result unit ApiError :=
  match head (headers_get_all (headers (admin_header session)) "content-type") with
  | Some content_type =>
    if is_json_content_type (default "" (to_str content_type)) then Ok ()
    else Err (InvalidRequest "Content-Type must be application/json")
  | None => Err (InvalidRequest "Content-Type header is required")
  end.

(** The loop over the stream; the text of the rewrapped error. *)
Fixpoint read_chunks (body_data : string) (chunks : list (Result string string)) : Result string ApiError :=
  match chunks with
  | [] => Ok body_data
  | Err e :: _ => Err (RequestBodyReadError e)
  | Ok bytes :: chunks =>
    if MAX_BODY_SIZE <? Z.of_nat (String.length body_data) + Z.of_nat (String.length bytes) then Err (InvalidRequest "Request body too large")
    else read_chunks (body_data +:+ bytes) chunks
  end.
Definition read_request_body (session : AdminSession) : Result string ApiError := read_chunks "" (chunks session).
End session.

Abbreviation RequestParams := (gmap string string).

(** ** Handlers *)

Inductive HttpHandler : Type :=
| PublicationHandler
| ResourceHandler (kind : ResourceKind)
| GetHandler (kind : ResourceKind)
| DeleteHandler (kind : ResourceKind)
| ListHandler (kind : ResourceKind).

Definition state_name (s : PublicationState) : string :=
  match s with Pending => "pending" | Published => "published" | Rejected => "rejected" | Superseded => "superseded" end.
Definition json_opt {A} (f : A -> Json) (o : option A) : Json := match o with Some a => f a | None => JNull end.
Definition json_int (z : Z) : Json := JNumber (NInt z).

Definition extract_key (kd : ResourceKind) (params : RequestParams) : Result ResourceKey ApiError :=
  let? id := ok_or (MissingParameter "id") (params !! "id") in
  map_err ApiError_from_graph (ResourceKey_new kd id).

Section handlers.
Context {St : Type} `{GraphStore St} `{CipherSuite} `{Serde} `{OpenSsl} `{HttpTypes} `{AuthLib} `{JsonText}.
Context (PLUGIN_META : list PluginMeta) (kr : KeyringService).

Abbreviation Outcome := (Result ApiResponse (Stop ApiError) * Gateway St)%type.

Definition graph_error {A} (r : Result A (Stop GraphError)) : Result A (Stop ApiError) := map_err (map_stop ApiError_from_graph) r.

Definition publication_handle (gw : Gateway St) (params : RequestParams) : Result ApiResponse ApiError :=
  let? text := ok_or (MissingParameter "revision") (params !! "revision") in
  let? revision := ok_or (InvalidRequest "revision must be a positive integer")
                     (parse_i64 text ≫= fun revision => if revision >? 0 then Some revision else None) in
  let? publication := ok_or (ApiNotFound "Publication revision not found") (view revision (publications gw)) in
  Ok (success_json (JObject [("error", json_opt JString (view_error publication));
                             ("published_revision", json_opt json_int (view_published_revision publication));
                             ("state", JString (state_name (view_state publication)))])).

(** The answer to an acknowledged commit. *)
Definition committed_response (committed : Z) (gw : Gateway St) : Result ApiResponse (Stop ApiError) :=
  match view committed (publications gw) with
  | Some publication =>
    Ok (success_json (JObject [("committed_revision", json_int committed);
                               ("error", json_opt JString (view_error publication));
                               ("published_revision", json_opt json_int (view_published_revision publication));
                               ("revision", json_int committed);
                               ("state", JString (state_name (view_state publication)))]))
  | None => Err (Panic "committed revisions are registered before returning")
  end.

Definition mutation_response (r : Result Z (Stop GraphError) * Gateway St) : Outcome :=
  match graph_error r.1 with
  | Ok committed => (committed_response committed r.2, r.2)
  | Err e => (Err e, r.2)
  end.

(** The checks of a PUT before the authority is called. *)
Definition put_request (kd : ResourceKind) (session : AdminSession) (params : RequestParams) : Result (ResourceKey * Json) ApiError :=
  let? _ := validate_content_type session in
  let? body_data := map_err (fun e => RequestBodyReadError (ApiError_to_string e)) (read_request_body session) in
  let? key := extract_key kd params in
  let? value := map_err (fun e => ApiValidationError ("Invalid JSON: " +:+ e)) (from_slice body_data) in
  Ok (key, value).

Definition put_handle (kd : ResourceKind) (session : AdminSession) (gw : Gateway St) (params : RequestParams) : Outcome :=
  match put_request kd session params with
  | Err e => (Err (Raise e), gw)
  | Ok (key, value) => mutation_response (put PLUGIN_META kr key value gw)
  end.

Definition delete_handle (kd : ResourceKind) (gw : Gateway St) (params : RequestParams) : Outcome :=
  match extract_key kd params with
  | Err e => (Err (Raise e), gw)
  | Ok key => mutation_response (delete PLUGIN_META kr key gw)
  end.

Definition get_handle (kd : ResourceKind) (gw : Gateway St) (params : RequestParams) : Result ApiResponse (Stop ApiError) :=
  let? key := lift_err (extract_key kd params) in
  let? resource := graph_error (get kr key gw) in
  match resource with
  | Some view => Ok (success_json (JObject [("value", rv_value view)]))
  | None => Err (Raise (ApiNotFound "Resource not found"))
  end.

Definition list_item (prefix : string) (view : ResourceView) : Json :=
  JObject [("createdIndex", json_int (rv_create_revision view)); ("key", JString (prefix +:+ logical_path (rv_key view)));
           ("modifiedIndex", json_int (rv_mod_revision view)); ("value", rv_value view)].

Definition list_handle (prefix : string) (kd : ResourceKind) (gw : Gateway St) : Result ApiResponse (Stop ApiError) :=
  let? views := graph_error (list_views kr kd gw) in
  let list_items := list_item prefix <$> views in
  Ok (success_json (JObject [("list", JArray list_items); ("total", json_int (Z.of_nat (length list_items)))])).

Definition handle (handler : HttpHandler) (prefix : string) (session : AdminSession) (gw : Gateway St) (params : RequestParams) : Outcome :=
  match handler with
  | PublicationHandler => (lift_err (publication_handle gw params), gw)
  | ResourceHandler kd => put_handle kd session gw params
  | GetHandler kd => (get_handle kd gw params, gw)
  | DeleteHandler kd => delete_handle kd gw params
  | ListHandler kd => (list_handle prefix kd gw, gw)
  end.

(** ** The application *)

Context `{PathRouter}.

Record AdminHttpApp : Type := { admin_config : Admin.t; prefix : string; router : PRouter (gmap string HttpHandler) }.

(** A failed registration is logged and dropped. *)
Definition route (path method : string) (handler : HttpHandler) (router : PRouter (gmap string HttpHandler)) : PRouter (gmap string HttpHandler) :=
  match path_at path router with
  | None => match path_insert path {[ method := handler ]} router with Ok router => router | Err _ => router end
  | Some _ => default router (path_update path (fun routes => <[method := handler]> routes) router)
  end.

Definition register_resource_routes (kd : ResourceKind) (router : PRouter (gmap string HttpHandler)) : PRouter (gmap string HttpHandler) :=
  let path := "/apisix/admin/" +:+ kind_as_str kd +:+ "/{id}" in
  let list_path := "/apisix/admin/" +:+ kind_as_str kd in
  let router := route path "PUT" (ResourceHandler kd) router in
  let router := route path "GET" (GetHandler kd) router in
  let router := route path "DELETE" (DeleteHandler kd) router in
  route list_path "GET" (ListHandler kd) router.

Definition AdminHttpApp_new (admin : Admin.t) (prefix : string) : AdminHttpApp :=
  let router := route "/apisix/admin/publications/{revision}" "GET" PublicationHandler path_new in
  {| admin_config := admin; prefix := prefix;
     router := fold_left (fun router kd => register_resource_routes kd router) [Route; Upstream; Service; GlobalRule; Ssl] router |}.

(** [None] when the Admin API is not configured. *)
Definition admin_http_service (cfg : Pingsix.t) : option AdminHttpApp :=
  admin ← Pingsix.admin cfg;
  Some (AdminHttpApp_new admin (default "" ((fun e => canonicalize_prefix (Etcd.prefix e)) <$> Pingsix.etcd cfg))).

Definition response (self : AdminHttpApp) (session : AdminSession) (gw : Gateway St) : Result ApiResponse (Stop ApiError) * Gateway St :=
  if negb (is_ok (validate_api_key session (Admin.api_key (admin_config self)))) then (Ok (forbidden "Invalid API key"), gw)
  else
    match path_at (uri_path (uri (admin_header session))) (router self) with
    | Some (value, params) =>
      match value !! method (admin_header session) with
      | Some handler =>
        match handle handler (prefix self) session gw (list_to_map params) with
        | (Err (Raise e), gw) => (Ok (into_response e), gw)
        | r => r
        end
      | None => (Ok (error_http 405 "Method not allowed"), gw)
      end
    | None => (Ok (error_http 404 "Not Found"), gw)
    end.

End handlers.

(** ** The route table

    [matchit]'s documented behaviour on literal routes and routes that end in
    one parameter: a parameter takes a non-empty segment.  A path is looked up
    as such, so a route's own text finds the route. *)

Record Pattern : Type := { pat_prefix : string; pat_param : option string }.
Definition pattern_text (p : Pattern) : string :=
  match pat_param p with Some name => pat_prefix p +:+ "/{" +:+ name +:+ "}" | None => pat_prefix p end.
Definition pattern_match (p : Pattern) (path : string) : option (list (string * string)) :=
  match pat_param p with
  | None => if bool_decide (path = pat_prefix p) then Some [] else None
  | Some name =>
    match strip_prefix (pat_prefix p +:+ "/") path with
    | Some x => if bool_decide (x = "") || contains_char slash x then None else Some [(name, x)]
    | None => None
    end
  end.
Definition disjoint_patterns (p q : Pattern) : bool :=
  match pat_param p, pat_param q with
  | None, None | Some _, Some _ => negb (bool_decide (pat_prefix p = pat_prefix q))
  | None, Some _ => bool_decide (pattern_match q (pat_prefix p) = None)
  | Some _, None => bool_decide (pattern_match p (pat_prefix q) = None)
  end.

Definition pattern_wf (p : Pattern) : bool :=
  literal_route (pat_prefix p) && match pat_param p with Some name => literal_route name | None => true end.

Fixpoint lookup_pattern {A} (l : list (Pattern * A)) (path : string) : option (A * list (string * string)) :=
  match l with
  | [] => None
  | (p, a) :: l => match pattern_match p path with Some params => Some (a, params) | None => lookup_pattern l path end
  end.
Fixpoint update_pattern {A} (l : list (Pattern * A)) (path : string) (f : A -> A) : list (Pattern * A) :=
  match l with
  | [] => []
  | (p, a) :: l => match pattern_match p path with Some _ => (p, f a) :: l | None => (p, a) :: update_pattern l path f end
  end.

Class PatternRoutes `{PathRouter} : Type := {
  table {A} : PRouter A -> list (Pattern * A) -> Prop;
  table_new {A} : table (A := A) path_new [];
  table_insert {A} (r : PRouter A) l p (a : A) : table r l -> pattern_wf p = true -> forallb (fun e => disjoint_patterns p e.1) l = true ->
    exists r', path_insert (pattern_text p) a r = Ok r' /\ table r' (l ++ [(p, a)])%list;
  table_at {A} (r : PRouter A) l path : table (A := A) r l -> path_at path r = lookup_pattern l path;
  table_update {A} (r : PRouter A) l path f : table (A := A) r l -> is_Some (lookup_pattern l path) ->
    exists r', path_update path f r = Some r' /\ table r' (update_pattern l path f);
}.

(** The requests the application serves. *)
Inductive endpoint : string -> string -> HttpHandler -> list (string * string) -> Prop :=
| EndpointPublication x : x <> "" -> contains_char slash x = false ->
    endpoint "GET" ("/apisix/admin/publications/" +:+ x) PublicationHandler [("revision", x)]
| EndpointPut kd x : x <> "" -> contains_char slash x = false ->
    endpoint "PUT" ("/apisix/admin/" +:+ kind_as_str kd +:+ "/" +:+ x) (ResourceHandler kd) [("id", x)]
| EndpointGet kd x : x <> "" -> contains_char slash x = false ->
    endpoint "GET" ("/apisix/admin/" +:+ kind_as_str kd +:+ "/" +:+ x) (GetHandler kd) [("id", x)]
| EndpointDelete kd x : x <> "" -> contains_char slash x = false ->
    endpoint "DELETE" ("/apisix/admin/" +:+ kind_as_str kd +:+ "/" +:+ x) (DeleteHandler kd) [("id", x)]
| EndpointList kd : endpoint "GET" ("/apisix/admin/" +:+ kind_as_str kd) (ListHandler kd) [].

Definition kinds : list ResourceKind := [Route; Upstream; Service; GlobalRule; Ssl].
Definition resource_methods (kd : ResourceKind) : gmap string HttpHandler :=
  {[ "DELETE" := DeleteHandler kd; "GET" := GetHandler kd; "PUT" := ResourceHandler kd ]}.
Definition kind_table (kd : ResourceKind) : list (Pattern * gmap string HttpHandler) :=
  [({| pat_prefix := "/apisix/admin/" +:+ kind_as_str kd; pat_param := Some "id" |}, resource_methods kd);
   ({| pat_prefix := "/apisix/admin/" +:+ kind_as_str kd; pat_param := None |}, {[ "GET" := ListHandler kd ]})].
Definition admin_table : list (Pattern * gmap string HttpHandler) :=
  ({| pat_prefix := "/apisix/admin/publications"; pat_param := Some "revision" |}, {[ "GET" := PublicationHandler ]}) :: (kinds ≫= kind_table).

Section routes.
Context `{PatternRoutes}.

(** A first registration under a new pattern. *)
Lemma route_new r l p m h : table r l -> pattern_wf p = true -> lookup_pattern l (pattern_text p) = None -> forallb (fun e => disjoint_patterns p e.1) l = true ->
  table (route (pattern_text p) m h r) (l ++ [(p, {[ m := h ]})])%list.
Proof.
  intros Hr Hwf Hl Hd. unfold route. rewrite (table_at _ _ _ Hr), Hl. by destruct (table_insert r l p {[ m := h ]} Hr Hwf Hd) as (r' & -> & ?).
Qed.

(** A further method of a registered pattern. *)
Lemma route_more r l path m h : table r l -> is_Some (lookup_pattern l path) ->
  table (route path m h r) (update_pattern l path (fun hs => <[m := h]> hs)).
Proof.
  intros Hr Hl. unfold route. rewrite (table_at _ _ _ Hr). pose proof Hl as [x ->].
  by destruct (table_update r l path (fun hs => <[m := h]> hs) Hr Hl) as (r' & -> & ?).
Qed.

Lemma lookup_pattern_app {A} (l l' : list (Pattern * A)) path :
  lookup_pattern (l ++ l')%list path = match lookup_pattern l path with Some x => Some x | None => lookup_pattern l' path end.
Proof. induction l as [|[p a] l IH]; [done|]. cbn. by destruct (pattern_match p path). Qed.

Lemma update_pattern_last {A} (l : list (Pattern * A)) p a path f : lookup_pattern l path = None -> is_Some (pattern_match p path) ->
  update_pattern (l ++ [(p, a)])%list path f = (l ++ [(p, f a)])%list.
Proof. induction l as [|[q b] l IH]; cbn; [by intros _ [? ->]|]. destruct (pattern_match q path); [done|]. intros Hl Hp. by rewrite IH. Qed.

Lemma forallb_app {A} (f : A -> bool) l l' : forallb f (l ++ l')%list = forallb f l && forallb f l'.
Proof. induction l; cbn; [done|]. by rewrite IHl, andb_assoc. Qed.

Lemma register_table r l kd :
  let p := {| pat_prefix := "/apisix/admin/" +:+ kind_as_str kd; pat_param := Some "id" |} in
  let q := {| pat_prefix := "/apisix/admin/" +:+ kind_as_str kd; pat_param := None |} in
  table r l -> lookup_pattern l (pattern_text p) = None -> lookup_pattern l (pattern_text q) = None ->
  forallb (fun e => disjoint_patterns p e.1) l = true -> forallb (fun e => disjoint_patterns q e.1) l = true ->
  table (register_resource_routes kd r) (l ++ kind_table kd)%list.
Proof.
  cbv zeta. set (p := {| pat_prefix := _; pat_param := Some _ |}). set (q := {| pat_prefix := _; pat_param := None |}). intros Hr Hp Hq Hdp Hdq.
  unfold register_resource_routes. change ("/apisix/admin/" +:+ kind_as_str kd +:+ "/{id}") with ("/apisix/admin/" +:+ (kind_as_str kd +:+ "/{id}")).
  replace ("/apisix/admin/" +:+ (kind_as_str kd +:+ "/{id}")) with (pattern_text p) by (by destruct kd). change ("/apisix/admin/" +:+ kind_as_str kd) with (pattern_text q).
  assert (Hself : is_Some (pattern_match p (pattern_text p))) by (destruct kd; vm_compute; eauto).
  assert (Hfind : forall a, is_Some (lookup_pattern (l ++ [(p, a)])%list (pattern_text p))).
  { intros a. rewrite lookup_pattern_app, Hp. cbn [lookup_pattern]. destruct Hself as [? ->]. by eexists. }
  pose proof (route_new r l p "PUT" (ResourceHandler kd) Hr ltac:(by destruct kd) Hp Hdp) as H1.
  pose proof (route_more _ _ (pattern_text p) "GET" (GetHandler kd) H1 (Hfind _)) as H2. rewrite update_pattern_last in H2 by done.
  pose proof (route_more _ _ (pattern_text p) "DELETE" (DeleteHandler kd) H2 (Hfind _)) as H3. rewrite update_pattern_last in H3 by done.
  pose proof (route_new _ _ q "GET" (ListHandler kd) H3 ltac:(by destruct kd)) as H4. rewrite <-app_assoc in H4. apply H4.
  - rewrite lookup_pattern_app, Hq. by destruct kd.
  - rewrite forallb_app, Hdq. by destruct kd.
Qed.

Lemma admin_table_built admin pfx : table (router (AdminHttpApp_new admin pfx)) admin_table.
Proof.
  unfold AdminHttpApp_new, admin_table, kinds. cbn [router fold_left].
  pose proof (route_new path_new [] {| pat_prefix := "/apisix/admin/publications"; pat_param := Some "revision" |} "GET" PublicationHandler table_new eq_refl eq_refl eq_refl) as H1.
  pose proof (register_table _ _ Route H1 eq_refl eq_refl eq_refl eq_refl) as H2.
  pose proof (register_table _ _ Upstream H2 eq_refl eq_refl eq_refl eq_refl) as H3.
  pose proof (register_table _ _ Service H3 eq_refl eq_refl eq_refl eq_refl) as H4.
  pose proof (register_table _ _ GlobalRule H4 eq_refl eq_refl eq_refl eq_refl) as H5.
  exact (register_table _ _ Ssl H5 eq_refl eq_refl eq_refl eq_refl).
Qed.

Lemma split_tail_inj c p q x y : contains_char c x = false -> contains_char c y = false ->
  p +:+ str1 c +:+ x = q +:+ str1 c +:+ y -> p = q.
Proof.
  intros Hx Hy. revert q. induction p as [|a p IH]; intros [|b q]; cbn; [done| | |].
  - intros [= -> Hxy]. exfalso. rewrite Hxy, contains_char_app in Hx. cbn in Hx. by rewrite bool_decide_true, orb_true_r in Hx.
  - intros [= -> Hxy]. exfalso. rewrite <-Hxy, contains_char_app in Hy. cbn in Hy. by rewrite bool_decide_true, orb_true_r in Hy.
  - intros [= -> H1]. f_equal. by apply IH.
Qed.

(** What the table answers: one pattern per path. *)
Lemma pattern_match_param pfx name path ps : pattern_match {| pat_prefix := pfx; pat_param := Some name |} path = Some ps <->
  exists x, path = pfx +:+ "/" +:+ x /\ x <> "" /\ contains_char slash x = false /\ ps = [(name, x)].
Proof.
  unfold pattern_match. cbn [pat_param pat_prefix]. destruct (strip_prefix (pfx +:+ "/") path) as [x|] eqn:E.
  - apply strip_prefix_spec in E. rewrite str_app_assoc in E. split.
    + case_bool_decide; [done|]. destruct (contains_char slash x) eqn:Ec; [done|]. cbn. intros [= <-]. by exists x.
    + intros (y & Hy & Hne & Hc & ->). assert (x = y) as -> by (rewrite E in Hy; by do 2 apply app_cancel_l in Hy). by rewrite bool_decide_false, Hc.
  - split; [done|]. intros (y & -> & _). rewrite <-str_app_assoc, strip_prefix_app in E. done.
Qed.

Lemma lookup_pattern_elem {A} (l : list (Pattern * A)) path a ps : lookup_pattern l path = Some (a, ps) ->
  exists p, (p, a) ∈ l /\ pattern_match p path = Some ps.
Proof.
  induction l as [|[p b] l IH]; [done|]. cbn. destruct (pattern_match p path) as [ps'|] eqn:E.
  - intros [= <- <-]. exists p. split; [by left|done].
  - intros (q & Hq & Hm)%IH. exists q. split; [by right|done].
Qed.

Lemma disjoint_no_match p q path : disjoint_patterns p q = true -> is_Some (pattern_match p path) -> is_Some (pattern_match q path) -> False.
Proof.
  destruct p as [p [n|]], q as [q [m|]]; unfold disjoint_patterns; cbn [pat_param pat_prefix].
  - intros Hne [ps (x & Hx & _ & Hcx & _)%pattern_match_param] [qs (y & Hy & _ & Hcy & _)%pattern_match_param].
    rewrite Hx in Hy. apply negb_true_iff, bool_decide_eq_false in Hne. apply Hne. clear -Hy Hcx Hcy.
    apply (split_tail_inj slash p q x y Hcx Hcy). exact Hy.
  - intros Hd Hp [qs Hq]. unfold pattern_match in Hq at 1. cbn in Hq. case_bool_decide; [|done]. subst. apply bool_decide_eq_true in Hd. rewrite Hd in Hp. by destruct Hp.
  - intros Hd [ps Hp] Hq. unfold pattern_match in Hp at 1. cbn in Hp. case_bool_decide; [|done]. subst. apply bool_decide_eq_true in Hd. rewrite Hd in Hq. by destruct Hq.
  - unfold pattern_match. cbn. intros Hne%negb_true_iff%bool_decide_eq_false [ps Hp] [qs Hq]. repeat case_bool_decide; congruence.
Qed.

Lemma lookup_pattern_in {A} (l : list (Pattern * A)) p a path ps :
  (forall i j e e', l !! i = Some e -> l !! j = Some e' -> i <> j -> disjoint_patterns e.1 e'.1 = true) ->
  (p, a) ∈ l -> pattern_match p path = Some ps -> lookup_pattern l path = Some (a, ps).
Proof.
  intros Hd (j & Hj)%list_elem_of_lookup Hm. revert j Hj Hd. induction l as [|[q b] l IH]; [done|]. intros j Hj Hd. cbn. destruct j as [|j].
  { cbn in Hj. injection Hj as -> ->. by rewrite Hm. }
  destruct (pattern_match q path) as [qs|] eqn:Eq.
  { exfalso. eapply (disjoint_no_match q p path); [|by rewrite Eq|by rewrite Hm]. apply (Hd 0%nat (S j) (q, b) (p, a)); done. }
  apply (IH j Hj). intros i k e e' Hi Hk Hne. apply (Hd (S i) (S k) e e'); [done|done|lia].
Qed.

Lemma kinds_all kd : kd ∈ kinds.
Proof. apply list_elem_of_In. destruct kd; cbn; tauto. Qed.

(** Entries of the table do not overlap. *)
Lemma admin_table_disjoint i j (e e' : Pattern * gmap string HttpHandler) :
  admin_table !! i = Some e -> admin_table !! j = Some e' -> i <> j -> disjoint_patterns e.1 e'.1 = true.
Proof.
  assert (Hall : forallb (fun i => forallb (fun j => Nat.eqb i j || match admin_table !! i, admin_table !! j with Some e, Some e' => disjoint_patterns e.1 e'.1 | _, _ => true end) (seq 0 11)) (seq 0 11) = true) by (vm_compute; reflexivity).
  intros Hi Hj Hne. rewrite forallb_forall in Hall.
  assert (Hii : In i (seq 0 11)) by (apply in_seq; apply lookup_lt_Some in Hi; cbn in Hi; lia).
  assert (Hjj : In j (seq 0 11)) by (apply in_seq; apply lookup_lt_Some in Hj; cbn in Hj; lia).
  specialize (Hall i Hii). rewrite forallb_forall in Hall. specialize (Hall j Hjj). rewrite Hi, Hj in Hall.
  apply orb_true_iff in Hall as [Heq%Nat.eqb_eq|Hd]; [done|exact Hd].
Qed.

Lemma endpoint_of_lookup admin pfx path method handler params :
  (exists value, path_at path (router (AdminHttpApp_new admin pfx)) = Some (value, params) /\ value !! method = Some handler) ->
  endpoint method path handler params.
Proof.
  rewrite (table_at _ _ _ (admin_table_built admin pfx)).
  intros (value & (p & Hin & Hm)%lookup_pattern_elem & Hv).
  assert (Hcases : (p, value) = ({| pat_prefix := "/apisix/admin/publications"; pat_param := Some "revision" |}, {[ "GET" := PublicationHandler ]}) \/
                   exists kd, (p, value) ∈ kind_table kd).
  { unfold admin_table in Hin. apply elem_of_cons in Hin as [->|Hin]; [by left|right]. apply list_elem_of_bind in Hin as (kd & Hk & _). by exists kd. }
  destruct Hcases as [[= -> ->]|[kd Hk]].
  + apply pattern_match_param in Hm as (x & -> & Hne & Hc & ->). apply lookup_singleton_Some in Hv as [<- <-]. rewrite <-str_app_assoc. by apply EndpointPublication.
  + apply elem_of_cons in Hk as [[= -> ->]|[= -> ->]%list_elem_of_singleton].
    * apply pattern_match_param in Hm as (x & Hp & Hne & Hc & ->).
      replace path with ("/apisix/admin/" +:+ kind_as_str kd +:+ "/" +:+ x) by (rewrite Hp; by destruct kd).
      unfold resource_methods in Hv. apply lookup_insert_Some in Hv as [[<- <-]|[_ Hv]]; [by apply EndpointDelete|].
      apply lookup_insert_Some in Hv as [[<- <-]|[_ [<- <-]%lookup_singleton_Some]]; [by apply EndpointGet|by apply EndpointPut].
    * unfold pattern_match in Hm. cbn in Hm. case_bool_decide; [|done]. injection Hm as <-. subst. apply lookup_singleton_Some in Hv as [<- <-]. apply EndpointList.
Qed.

(** The Admin routes.  The application built at start-up serves exactly
    the documented endpoints: a path and a method reach a handler, with the
    path's segment as its parameter, exactly when they are one of GET, PUT and
    DELETE of /apisix/admin/<kind>/<id>, GET of /apisix/admin/<kind>, and GET
    of /apisix/admin/publications/<revision>. *)
Theorem admin_routes_dispatch admin pfx path method handler params :
  (exists value, path_at path (router (AdminHttpApp_new admin pfx)) = Some (value, params) /\ value !! method = Some handler) <->
  endpoint method path handler params.
Proof.
  split; [apply endpoint_of_lookup|]. rewrite (table_at _ _ _ (admin_table_built admin pfx)).
  assert (Hparam : forall kd x, x <> "" -> contains_char slash x = false ->
      lookup_pattern admin_table ("/apisix/admin/" +:+ kind_as_str kd +:+ "/" +:+ x) = Some (resource_methods kd, [("id", x)])).
    { intros kd x Hne Hc. eapply (lookup_pattern_in _ {| pat_prefix := "/apisix/admin/" +:+ kind_as_str kd; pat_param := Some "id" |}); [exact admin_table_disjoint| |].
      - right. apply list_elem_of_bind. exists kd. split; [by left|]. apply kinds_all.
      - apply pattern_match_param. exists x. split; [by destruct kd|done]. }
    intros Hep. destruct Hep as [x Hne Hc|kd x Hne Hc|kd x Hne Hc|kd x Hne Hc|kd].
    + exists {[ "GET" := PublicationHandler ]}. split; [|by rewrite lookup_singleton_eq].
      eapply (lookup_pattern_in _ {| pat_prefix := "/apisix/admin/publications"; pat_param := Some "revision" |}); [exact admin_table_disjoint|by left|].
      apply pattern_match_param. exists x. by rewrite <-str_app_assoc.
    + exists (resource_methods kd). split; [by apply Hparam|reflexivity].
    + exists (resource_methods kd). split; [by apply Hparam|reflexivity].
    + exists (resource_methods kd). split; [by apply Hparam|reflexivity].
    + exists {[ "GET" := ListHandler kd ]}. split; [|by rewrite lookup_singleton_eq].
      eapply (lookup_pattern_in _ {| pat_prefix := "/apisix/admin/" +:+ kind_as_str kd; pat_param := None |}); [exact admin_table_disjoint| |by unfold pattern_match; cbn; rewrite bool_decide_true].
      right. apply list_elem_of_bind. exists kd. split; [right; by left|]. apply kinds_all.
Qed.
End routes.

(** ** What a request can change *)

Section safety.
Context {St : Type} `{GraphStoreLaws St} `{CipherSuite} `{Serde} `{OpenSsl} `{HttpTypes} `{AuthLib} `{JsonText} `{PatternRoutes}.
Context (PLUGIN_META : list PluginMeta) (kr : KeyringService).
(** The registry never holds more than its capacity unless all is waiting. *)
Definition bounded (s : PublicationRegistry) : Prop := (size (records s) <= PUBLICATION_REGISTRY_CAPACITY)%nat \/ all_pending (records s).

Lemma trim_loop_bounded fuel m : (size m <= PUBLICATION_REGISTRY_CAPACITY)%nat \/ all_pending m -> trim_loop fuel m = m.
Proof.
  intros Hb. destruct fuel; [done|]. cbn [trim_loop]. destruct (PUBLICATION_REGISTRY_CAPACITY <? size m)%nat eqn:E; [apply Nat.ltb_lt in E|done].
  destruct Hb as [?|Hp]; [lia|]. destruct (victim m) as [v|] eqn:Ev; [|done]. apply victim_some in Ev as [(x & Hx & Hs) _]. by rewrite (Hp _ _ Hx) in Hs.
Qed.

(** A revision just registered can be looked up. *)
Lemma pending_visible rev s : 0 < rev -> bounded s -> is_Some (view rev (pending rev s)).
Proof.
  intros Hr Hb. unfold view, pending. rewrite (proj2 (Z.gtb_lt rev 0) Hr). destruct (records s !! rev) as [x|] eqn:E.
  - cbn. rewrite trim_loop_bounded by done. rewrite E. by eexists.
  - match goal with |- context [Publication.trim ?s1] => set (s2 := s1) end.
    rewrite (trimmed_pending _ _ (trim_spec s2) rev {| state := Pending; error := None |}); [by eexists|by apply lookup_insert_eq|done].
Qed.

(** A PUT or DELETE that changes nothing, and one that is applied: with the
    publication registered when it is acknowledged, without when its outcome
    is unknown to the gateway. *)
Definition mutates (key : ResourceKey) (m : StoredMutation) : Prop := mutation_key m = key.
Definition unchanged (gw gw' : Gateway St) : Prop :=
  contents (gw_store gw') = contents (gw_store gw) /\ publications gw' = publications gw.
Definition stored (key : ResourceKey) (rev : Z) (gw gw' : Gateway St) : Prop :=
  0 < rev /\ exists m, mutates key m /\
    contents (gw_store gw') = {| resources := apply_mutation rev m (resources (contents (gw_store gw)));
                                 guard_mod_revision := Some rev; graph_revision := rev |}.
Definition applied (key : ResourceKey) (rev : Z) (gw gw' : Gateway St) : Prop :=
  stored key rev gw gw' /\ publications gw' = pending rev (publications gw).
Definition lost (key : ResourceKey) (gw gw' : Gateway St) : Prop :=
  (exists rev, stored key rev gw gw') /\ publications gw' = publications gw.

(** What an operation of the authority did, by its result. *)
Definition effect (key : ResourceKey) (r : Result Z (Stop GraphError)) (gw gw' : Gateway St) : Prop :=
  match r with
  | Ok rev => applied key rev gw gw'
  | Err e => unchanged gw gw' \/ ((exists cause, e = Raise (Store cause)) /\ lost key gw gw')
  end.

Lemma commits_stored commit rev (gw gw' : Gateway St) : store_wf (gw_store gw') ->
  commits commit rev (contents (gw_store gw)) (contents (gw_store gw')) -> stored (mutation_key (mutation commit)) rev gw gw'.
Proof.
  intros Hwf (_ & _ & Hc & _). split; [|by exists (mutation commit)].
  destruct (contents_positive _ Hwf) as [Hg _]. apply Hg. by rewrite Hc.
Qed.

Lemma commit_mutation_effect commit (gw gw' : Gateway St) r : store_wf (gw_store gw) -> admissible commit ->
  commit_mutation commit gw = (r, gw') -> effect (mutation_key (mutation commit)) r gw gw'.
Proof.
  intros Hwf Hadm Hc. destruct r as [rev|e].
  - apply commit_mutation_ok in Hc as (Hwf' & Hcm & Hp); [|done|done]. split; [|done]. by apply commits_stored.
  - unfold commit_mutation in Hc. destruct Hadm as [Hk Hpos]. destruct (compare_and_swap commit (gw_store gw)) as [[rev|e0] s'] eqn:E; cbn in Hc; [done|].
    injection Hc as <- <-. apply (cas_err _ _ _ _ Hwf Hk Hpos) in E as (Hwf' & [Hs|(He & rev & Hcm)]); [by left|right].
    split; [destruct e0; [by eexists..|done]|]. split; [|done]. exists rev. by apply commits_stored.
Qed.

Lemma put_effect key value (gw gw' : Gateway St) r : store_wf (gw_store gw) -> key_stored key ->
  put PLUGIN_META kr key value gw = (r, gw') -> effect key r gw gw'.
Proof.
  unfold put. intros Hwf Hk. destruct (snapshot (gw_store gw)) as [g|e] eqn:Hg; [|by intros [= <- <-]; left].
  apply (snapshot_contents _ _ Hwf) in Hg as ->.
  destruct (prepare_put _ _ _ _ _ _) as [[commit n]|e] eqn:Ep; [|by intros [= <- <-]; left].
  apply (planned_put_admissible _ _ _ _ _ _ _ _ Hwf Hk) in Ep as [<- Hadm]. intros Hc. by apply commit_mutation_effect in Hc.
Qed.

Lemma delete_effect key (gw gw' : Gateway St) r : store_wf (gw_store gw) ->
  delete PLUGIN_META kr key gw = (r, gw') -> effect key r gw gw'.
Proof.
  unfold delete. intros Hwf. destruct (snapshot (gw_store gw)) as [g|e] eqn:Hg; [|by intros [= <- <-]; left].
  apply (snapshot_contents _ _ Hwf) in Hg as ->.
  destruct (plan_delete_mutation _ _ _ _) as [commit|e] eqn:Ep; [|by intros [= <- <-]; left].
  apply (planned_delete_admissible _ _ _ _ _ Hwf) in Ep as [<- Hadm]. intros Hc. by apply commit_mutation_effect in Hc.
Qed.

Definition authenticated (app : AdminHttpApp) (session : AdminSession) : Prop :=
  validate_api_key session (Admin.api_key (admin_config app)) = Ok ().

(** The reply to an acknowledged commit names its revision and state. *)
Definition acknowledges (rev : Z) (gw' : Gateway St) (r : Result ApiResponse (Stop ApiError)) : Prop :=
  exists v, view rev (publications gw') = Some v /\
    r = Ok (success_json (JObject [("committed_revision", json_int rev); ("error", json_opt JString (view_error v));
      ("published_revision", json_opt json_int (view_published_revision v)); ("revision", json_int rev); ("state", JString (state_name (view_state v)))])).

(** Errors are never answered with status 200. *)
Definition failing (e : Stop ApiError) : Prop := match e with Raise e => status (into_response e) <> 200 | Panic _ => True end.

Lemma graph_failing g : status (into_response (ApiError_from_graph g)) <> 200.
Proof. by destruct g. Qed.

(** The answer to an error of the store. *)
Definition unavailable (e : Stop ApiError) : Prop := match e with Raise e => status (into_response e) = 503 | Panic _ => False end.

Lemma mutation_response_effect key (x : Result Z (Stop GraphError) * Gateway St) gw r gw' :
  bounded (publications gw) -> effect key x.1 gw x.2 -> mutation_response x = (r, gw') ->
  (exists e, r = Err e /\ failing e /\ (unchanged gw gw' \/ (unavailable e /\ lost key gw gw'))) \/
  (exists rev, applied key rev gw gw' /\ acknowledges rev gw' r).
Proof.
  intros Hb He. unfold mutation_response, graph_error. destruct x as [[rev|e] gw1]; cbn in *; intros [= <- <-]; [right|left].
  2: { exists (map_stop ApiError_from_graph e). split; [done|]. split; [destruct e; [apply graph_failing|done]|].
       destruct He as [Hu|[[cause ->] Hl]]; [by left|by right]. }
  exists rev. split; [done|]. pose proof He as [[Hr _] Hp]. unfold acknowledges, committed_response. rewrite Hp.
  destruct (pending_visible rev (publications gw) Hr Hb) as [v ->]. by exists v.
Qed.

(** Handlers reached at an endpoint. *)
Lemma extract_key_id kd x key : extract_key kd (list_to_map [("id", x)]) = Ok key -> key = {| kind := kd; id := x |} /\ key_wf key.
Proof.
  unfold extract_key. cbn [list_to_map foldr uncurry]. rewrite lookup_insert_eq. cbn. intros Hk.
  destruct (ResourceKey_new kd x) as [k|] eqn:E; [|done]. injection Hk as ->. by apply ResourceKey_new_ok in E as [-> ?].
Qed.

Definition writes (method path : string) (key : ResourceKey) : Prop :=
  endpoint method path (ResourceHandler (kind key)) [("id", id key)] \/ endpoint method path (DeleteHandler (kind key)) [("id", id key)].

Definition refused (method : string) (r : Result ApiResponse (Stop ApiError)) : Prop :=
  method = "PUT" \/ method = "DELETE" -> exists e, r = Err e /\ failing e.

Lemma extract_key_failing kd params e : extract_key kd params = Err e -> status (into_response e) <> 200.
Proof.
  unfold extract_key. destruct (params !! "id") as [x|]; cbn; [|by intros [= <-]].
  destruct (ResourceKey_new kd x); [done|]. intros [= <-]. apply graph_failing.
Qed.

Lemma put_request_failing kd session params e : put_request kd session params = Err e -> status (into_response e) <> 200.
Proof.
  unfold put_request, validate_content_type. destruct (head _) as [ct|]; cbn; [|by intros [= <-]].
  destruct (is_json_content_type _); cbn; [|by intros [= <-]]. destruct (read_request_body session); cbn; [|by intros [= <-]].
  destruct (extract_key kd params) as [k|e'] eqn:Ek; cbn; [|intros [= <-]; by eapply extract_key_failing].
  destruct (from_slice _); cbn; [done|]. by intros [= <-].
Qed.

Lemma handle_effect method path handler params pfx session (gw gw' : Gateway St) r :
  store_wf (gw_store gw) -> bounded (publications gw) -> endpoint method path handler params ->
  (forall key, writes method path key -> key_wf key -> key_stored key) ->
  handle PLUGIN_META kr handler pfx session gw (list_to_map params) = (r, gw') ->
  (unchanged gw gw' /\ refused method r) \/
  (exists key, writes method path key /\ lost key gw gw' /\ exists e, r = Err e /\ unavailable e) \/
  (exists key rev, writes method path key /\ applied key rev gw gw' /\ acknowledges rev gw' r).
Proof.
  intros Hwf Hb Hep Hids. destruct Hep as [x Hne Hc|kd x Hne Hc|kd x Hne Hc|kd x Hne Hc|kd]; cbn [handle].
  - intros [= <- <-]. left. split; [done|]. by intros [?|?].
  - assert (Hw : writes "PUT" (("/apisix/admin/" +:+ kind_as_str kd) +:+ "/" +:+ x) {| kind := kd; id := x |}) by (left; by apply EndpointPut).
    unfold put_handle. destruct (put_request _ _ _) as [[key value]|e] eqn:Ep.
    2: { intros [= <- <-]. left. split; [done|]. exists (Raise e). split; [done|]. by eapply put_request_failing. }
    unfold put_request in Ep. apply and_then_ok in Ep as ([] & _ & (body & _ & (k & Hk & (v & _ & [= <- <-])%and_then_ok)%and_then_ok)%and_then_ok).
    apply extract_key_id in Hk as [-> Hkw]. destruct (put PLUGIN_META kr _ v gw) as [r0 gw0] eqn:Eput. apply put_effect in Eput as He; [|done|by apply Hids].
    intros [(e & -> & Hf & [Hu|[Hv Hl]])|(rev & Ha & Hack)]%(mutation_response_effect {| kind := kd; id := x |} (r0, gw0) gw); [left|right; left|right; right|done|done].
    + split; [done|by eexists].
    + exists {| kind := kd; id := x |}. split; [done|]. split; [done|by eexists].
    + by exists {| kind := kd; id := x |}, rev.
  - intros [= <- <-]. left. split; [done|]. by intros [?|?].
  - unfold delete_handle. destruct (extract_key _ _) as [key|e] eqn:Ek.
    2: { intros [= <- <-]. left. split; [done|]. exists (Raise e). split; [done|]. by eapply extract_key_failing. }
    apply extract_key_id in Ek as [-> _]. destruct (delete PLUGIN_META kr _ gw) as [r0 gw0] eqn:Edel. apply delete_effect in Edel as He; [|done].
    assert (Hw : writes "DELETE" (("/apisix/admin/" +:+ kind_as_str kd) +:+ "/" +:+ x) {| kind := kd; id := x |}) by (right; by apply EndpointDelete).
    intros [(e & -> & Hf & [Hu|[Hv Hl]])|(rev & Ha & Hack)]%(mutation_response_effect {| kind := kd; id := x |} (r0, gw0) gw); [left|right; left|right; right|done|done].
    + split; [done|by eexists].
    + exists {| kind := kd; id := x |}. split; [done|]. split; [done|by eexists].
    + by exists {| kind := kd; id := x |}, rev.
  - intros [= <- <-]. left. split; [done|]. by intros [?|?].
Qed.

End safety.

(** ** Witnesses *)

Module ToyAdmin.

Fixpoint drop_last (s : string) : string :=
  match s with EmptyString => "" | String a EmptyString => "" | String a s => String a (drop_last s) end.
Definition parse_pattern (s : string) : Pattern :=
  match split_once "{" s with
  | Some (pre, rest) => {| pat_prefix := drop_last pre; pat_param := Some (drop_last rest) |}
  | None => {| pat_prefix := s; pat_param := None |}
  end.

Lemma drop_last_app s c : drop_last (s +:+ str1 c) = s.
Proof. induction s as [|a s IH]; [done|]. cbn. destruct (s +:+ str1 c) eqn:E; [by destruct s|]. by rewrite IH. Qed.

Lemma parse_pattern_text p : pattern_wf p = true -> parse_pattern (pattern_text p) = p.
Proof.
  destruct p as [pfx [name|]]; unfold pattern_wf, literal_route, parse_pattern, pattern_text; cbn [pat_prefix pat_param]; rewrite !andb_true_iff, !negb_true_iff.
  - intros [[H1 _] _]. change (pfx +:+ "/{" +:+ name +:+ "}") with (pfx +:+ "/" +:+ String "{" (name +:+ "}")). rewrite <-str_app_assoc.
    rewrite (split_once_app "{"%char) by (by rewrite contains_char_app, H1). change "/" with (str1 "/"%char). change "}" with (str1 "}"%char). by rewrite !drop_last_app.
  - intros [[H1 _] _]. by apply split_once_none in H1 as ->.
Qed.

#[export] Instance patterns : PathRouter := {
  PRouter A := list (Pattern * A);
  path_new A := [];
  path_insert A text a r :=
    let p := parse_pattern text in
    if forallb (fun e => disjoint_patterns p e.1) r then Ok (r ++ [(p, a)])%list else Err "conflict";
  path_at A path r := lookup_pattern r path;
  path_update A path f r := match lookup_pattern r path with Some _ => Some (update_pattern r path f) | None => None end;
}.

#[export, refine] Instance pattern_routes : PatternRoutes := { table A r l := r = l }.
Proof.
  - done.
  - intros A r l p a -> Hwf Hd. exists (l ++ [(p, a)])%list. cbn. by rewrite parse_pattern_text, Hd.
  - by intros A r l path ->.
  - intros A r l path f -> [x Hx]. exists (update_pattern l path f). cbn. by rewrite Hx.
Defined.

(** Documents print as their id, anything else as a constant. *)
#[export] Instance total_serde : Serde := {
  from_slice := @from_slice ToySerde.serde;
  upstream_from_value := @upstream_from_value ToySerde.serde;
  service_from_value := @service_from_value ToySerde.serde;
  global_rule_from_value := @global_rule_from_value ToySerde.serde;
  route_from_value := @route_from_value ToySerde.serde;
  ssl_from_value := @ssl_from_value ToySerde.serde;
  to_vec v := match ToySerde.doc_id v with Ok i => Ok i | Err _ => Ok "{}" end;
}.
#[export] Instance json_text : JsonText := { json_to_string _ := "{}"; field_errors _ := JNull }.

Definition demo_admin : Admin.t :=
  {| Admin.address := {| sa_ip := V4 [127; 0; 0; 1]; sa_port := 9181 |}; Admin.api_key := "secret"; Admin.allow_insecure_remote := false |}.
End ToyAdmin.

Import Toy ToyEnv ToyHttp ToyAuth ToyAdmin.

Definition demo_request (key method path : string) : AdminSession :=
  {| admin_header := {| method := method; uri := (None, path); headers := [("x-api-key", key); ("content-type", "application/json; charset=utf-8")] |};
     chunks := [Ok "u1"] |}.
Definition demo_gateway : Gateway InMemoryState :=
  {| gw_store := InMemoryGraphStore.new; publications := PublicationRegistry_default; nonces := 0 |}.

Lemma admin_routes_dispatch_witness :
  endpoint "DELETE" "/apisix/admin/ssls/edge" (DeleteHandler Ssl) [("id", "edge")] /\
  ~ (exists h ps, endpoint "POST" "/apisix/admin/routes/r1" h ps).
Proof.
  split.
  - apply (admin_routes_dispatch demo_admin "/p/"). eexists. split; vm_compute; reflexivity.
  - intros (h & ps & He). inversion He.
Defined.


(** Without the key nothing is reached. *)
Example wrong_key_refused :
  response [] disabled (AdminHttpApp_new demo_admin "/p/") (demo_request "guess" "DELETE" "/apisix/admin/upstreams/u1") demo_gateway =
    (Ok (forbidden "Invalid API key"), demo_gateway).
Proof. vm_compute. reflexivity. Qed.

#[local] Existing Instances AdminWriters.EtcdRace.store AdminWriters.EtcdRace.laws.

(** A reply that etcd loses: the PUT is answered 503 and is stored. *)
Example lost_put_is_stored :
  let gw := {| gw_store := AdminWriters.EtcdRace.empty_etcd; publications := PublicationRegistry_default; nonces := 0%nat |} in
  let '(r, gw') := response [] disabled (AdminHttpApp_new demo_admin "/p/")
    (demo_request "secret" "PUT" "/apisix/admin/upstreams/u1") gw in
  match r with Ok resp => status resp | Err _ => 0 end = 503 /\ publications gw' = publications gw /\
  value <$> resources (contents (gw_store gw')) !! {| kind := Upstream; id := "u1" |} = Some "u1".
Proof. vm_compute. split_and!; reflexivity. Qed.
