(* ===== verification/Rewrite.v ===== *)
(** * Redirects and request rewriting ([src/src/core/plugin/rewrite.rs],
    [src/src/plugins/redirect.rs], [src/src/plugins/proxy_rewrite.rs])

    Regex URI templates, percent-encoding of redirect paths, the HTTPS
    redirect, and the edits a proxied request goes through.  Regular
    expressions and the construction of URIs are type classes. *)

From Stdlib Require Import ZArith Lia Ascii.
From stdpp Require Import base tactics gmap strings pretty option list.
From S2P Require Import Prelude Errors GraphStore Utf8 Hosts Json RequestVars Pipeline Limiting Discovery IpRestriction.

Open Scope Z_scope.

(** [re_captures]: the groups of the first match, the whole match first. *)
Class RegexLib : Type := {
  Regex : Type;
  regex_new : string -> Result Regex string;
  re_captures : Regex -> string -> option (list (option string));
}.

(** ** URI templates *)

Definition is_digit (a : ascii) : bool := between 48 57 (byte_val a).

(** The digits at the head of the text. *)
Fixpoint take_digits (s : string) : string * string :=
  match s with
  | String a s' => if is_digit a then let r := take_digits s' in (String a r.1, r.2) else ("", s)
  | EmptyString => ("", "")
  end.

(** [parse::<usize>] of a run of digits. *)
Definition parse_usize (s : string) : option Z :=
  if bool_decide (s = "") then None else let v := digits_val 0 s in if v <=? u64_max then Some v else None.

(** One placeholder [$ddd]: group zero and numbers out of range stay as they
    are written.  Templates are taken to use ASCII digits. *)
Definition placeholder (captures : list (option string)) (digits : string) : string :=
  match parse_usize digits with
  | Some idx => if idx =? 0 then String "$" digits else default "" (default None (captures !! Z.to_nat idx))
  | None => String "$" digits
  end.

(** [replace_all] over the template; its length is fuel enough. *)
Fixpoint expand_loop (fuel : nat) (captures : list (option string)) (s : string) : string :=
  match fuel with
  | O => ""
  | S fuel =>
    match s with
    | EmptyString => ""
    | String a s' =>
      if bool_decide (a = "$"%char) then
        let '(digits, rest) := take_digits s' in
        if bool_decide (digits = "") then String a (expand_loop fuel captures s')
        else placeholder captures digits +:+ expand_loop fuel captures rest
      else String a (expand_loop fuel captures s')
    end
  end.
Definition expand_template (captures : list (option string)) (template : string) : string :=
  expand_loop (S (String.length template)) captures template.

Section templates.
Context `{RegexLib}.

Fixpoint apply_regex_uri_template (uri : string) (regex_patterns : list (Regex * string)) : string :=
  match regex_patterns with
  | [] => uri
  | (re, template) :: rest =>
    match re_captures re uri with
    | Some captures => expand_template captures template
    | None => apply_regex_uri_template uri rest
    end
  end.

(** The pairs of a [regex_uri] list, compiled ([step_by(2)]). *)
Fixpoint compile_pairs (what : string) (regex_uri : list string) : ProxyResult (list (Regex * string)) :=
  match regex_uri with
  | pattern :: template :: rest =>
    let? re := map_err (fun e => PluginError ("Invalid " +:+ what +:+ " regex pattern '" +:+ pattern +:+ "': " +:+ e)) (regex_new pattern) in
    let? pairs := compile_pairs what rest in
    Ok ((re, template) :: pairs)
  | _ => Ok []
  end.

(** The patterns are the entries at even positions. *)
Fixpoint patterns_compile (regex_uri : list string) : bool :=
  match regex_uri with
  | pattern :: _ :: rest => is_ok (regex_new pattern) && patterns_compile rest
  | [pattern] => is_ok (regex_new pattern)
  | [] => true
  end.
End templates.

(** ** Percent-encoding *)

Definition is_unreserved (b : Z) : bool :=
  between 48 57 b || between 65 90 b || between 97 122 b || (b =? 45) || (b =? 46) || (b =? 95) || (b =? 126) || (b =? 47).
Definition is_hex_byte (b : Z) : bool := between 48 57 b || between 65 70 b || between 97 102 b.

Definition upper_hex (d : Z) : ascii := ascii_of_N (Z.to_N (if d <? 10 then 48 + d else 55 + d)).
Definition percent_byte (b : Z) : string := String "%" (String (upper_hex (b / 16)) (str1 (upper_hex (b mod 16)))).

(** The loop of [encode_uri_safe_path], by what the index stands at. *)
Fixpoint encode_uri_safe_path (path : string) : string :=
  match path with
  | EmptyString => ""
  | String a rest =>
    let byte := byte_val a in
    if is_unreserved byte then String a (encode_uri_safe_path rest)
    else
      match rest with
      | String h (String l rest') =>
        if (byte =? 37) && is_hex_byte (byte_val h) && is_hex_byte (byte_val l)
        then String "%" (String h (String l (encode_uri_safe_path rest')))
        else percent_byte byte +:+ encode_uri_safe_path rest
      | _ => percent_byte byte +:+ encode_uri_safe_path rest
      end
  end.

(** What a client reads: a percent sign followed by two hexadecimal digits is
    the byte they denote. *)
Definition hex_val (b : Z) : Z := if b <=? 57 then b - 48 else if b <=? 70 then b - 55 else b - 87.
Fixpoint percent_decode (s : string) : list Z :=
  match s with
  | EmptyString => []
  | String a rest =>
    match rest with
    | String h (String l rest') =>
      if (byte_val a =? 37) && is_hex_byte (byte_val h) && is_hex_byte (byte_val l)
      then (hex_val (byte_val h) * 16 + hex_val (byte_val l)) :: percent_decode rest'
      else byte_val a :: percent_decode rest
    | _ => byte_val a :: percent_decode rest
    end
  end.

(** The texts the encoder produces: unreserved bytes and escapes. *)
Fixpoint encoded (s : string) : bool :=
  match s with
  | EmptyString => true
  | String a rest =>
    if is_unreserved (byte_val a) then encoded rest
    else match rest with
         | String h (String l rest') => (byte_val a =? 37) && is_hex_byte (byte_val h) && is_hex_byte (byte_val l) && encoded rest'
         | _ => false
         end
  end.

Lemma byte_range a : 0 <= byte_val a < 256.
Proof. unfold byte_val. pose proof (N_ascii_bounded a). lia. Qed.

Lemma upper_hex_spec d : 0 <= d < 16 -> is_hex_byte (byte_val (upper_hex d)) = true /\ hex_val (byte_val (upper_hex d)) = d.
Proof.
  intros Hd. unfold upper_hex, byte_val. assert (Hn : (Z.to_N (if d <? 10 then 48 + d else 55 + d)%Z < 256)%N) by (case_match; lia).
  rewrite N_ascii_embedding by exact Hn. unfold is_hex_byte, hex_val, between. destruct (d <? 10) eqn:E; [apply Z.ltb_lt in E|apply Z.ltb_ge in E]; rewrite Z2N.id by lia.
  - split; [lia|]. destruct (48 + d <=? 57) eqn:E1; lia.
  - split; [lia|]. destruct (55 + d <=? 57) eqn:E1; [lia|]. destruct (55 + d <=? 70) eqn:E2; lia.
Qed.

Lemma hex_not_reserved b : is_unreserved b = true -> b <> 37.
Proof. unfold is_unreserved, between. lia. Qed.

(** Induction in steps of one or three bytes. *)
Lemma string_ind3 (P : string -> Prop) : P "" -> (forall a s, P s -> (forall h l s', s = String h (String l s') -> P s') -> P (String a s)) -> forall s, P s.
Proof.
  intros H0 Hs. assert (Hall : forall n s, (String.length s <= n)%nat -> P s).
  { induction n as [|n IH]; intros [|a s]; cbn; intros Hn; [done|lia|done|]. apply Hs; [apply IH; lia|]. intros h l s' ->. cbn in Hn. apply IH. lia. }
  intros s. by apply (Hall (String.length s)).
Qed.

Lemma decode_percent_byte b s : 0 <= b < 256 -> percent_decode (percent_byte b +:+ s) = b :: percent_decode s.
Proof.
  intros Hb. unfold percent_byte. cbn [String.append str1 percent_decode].
  destruct (upper_hex_spec (b / 16)) as [H1 H2]; [split; [apply Z.div_pos|apply Z.div_lt_upper_bound]; lia|].
  destruct (upper_hex_spec (b mod 16)) as [H3 H4]; [apply Z.mod_pos_bound; lia|].
  rewrite H1, H3, H2, H4. cbn [byte_val N_of_ascii]. replace (byte_val "%" =? 37) with true by done. cbn [andb]. f_equal. pose proof (Z.div_mod b 16). lia.
Qed.

Lemma encoded_percent_byte b s : 0 <= b < 256 -> encoded (percent_byte b +:+ s) = encoded s.
Proof.
  intros Hb. unfold percent_byte. cbn [String.append str1 encoded]. replace (is_unreserved (byte_val "%")) with false by done.
  destruct (upper_hex_spec (b / 16)) as [H1 _]; [split; [apply Z.div_pos|apply Z.div_lt_upper_bound]; lia|].
  destruct (upper_hex_spec (b mod 16)) as [H3 _]; [apply Z.mod_pos_bound; lia|]. rewrite H1, H3. by replace (byte_val "%" =? 37) with true by done.
Qed.

Lemma decode_plain a s : byte_val a <> 37 -> percent_decode (String a s) = byte_val a :: percent_decode s.
Proof. intros Ha. cbn. rewrite (proj2 (Z.eqb_neq _ _) Ha). cbn. by destruct s as [|? [|? ?]]. Qed.

Lemma encode_step a s :
  encode_uri_safe_path (String a s) =
  if is_unreserved (byte_val a) then String a (encode_uri_safe_path s)
  else match s with
       | String h (String l s') =>
         if (byte_val a =? 37) && is_hex_byte (byte_val h) && is_hex_byte (byte_val l)
         then String "%" (String h (String l (encode_uri_safe_path s'))) else percent_byte (byte_val a) +:+ encode_uri_safe_path s
       | _ => percent_byte (byte_val a) +:+ encode_uri_safe_path s
       end.
Proof. by destruct s as [|? [|? ?]]. Qed.

Lemma encode_encoded s : encoded (encode_uri_safe_path s) = true.
Proof.
  induction s as [|a s IH IH3] using string_ind3; [done|]. rewrite encode_step. destruct (is_unreserved (byte_val a)) eqn:Eu; [cbn; by rewrite Eu|].
  destruct s as [|h [|l s]]; try (by rewrite encoded_percent_byte by apply byte_range).
  destruct (_ && _ && _) eqn:E; [|by rewrite encoded_percent_byte by apply byte_range].
  apply andb_true_iff in E as [[_ Hh]%andb_true_iff Hl]. cbn [encoded]. replace (is_unreserved (byte_val "%")) with false by done.
  rewrite Hh, Hl. cbn. by apply (IH3 h l).
Qed.

Lemma encoded_fixed s : encoded s = true -> encode_uri_safe_path s = s.
Proof.
  induction s as [|a s IH IH3] using string_ind3; [done|]. rewrite encode_step. cbn [encoded]. destruct (is_unreserved (byte_val a)); [intros; f_equal; by apply IH|].
  destruct s as [|h [|l s]]; try done. intros [Hc Hs]%andb_true_iff. rewrite Hc. apply andb_true_iff in Hc as [[Ha _]%andb_true_iff _].
  assert (a = "%"%char) as ->. { apply Z.eqb_eq in Ha. unfold byte_val in Ha. rewrite <-(ascii_N_embedding a). by replace (N_of_ascii a) with 37%N by lia. }
  do 3 f_equal. by apply (IH3 h l).
Qed.

Lemma encode_decode s : percent_decode (encode_uri_safe_path s) = percent_decode s.
Proof.
  induction s as [|a s IH IH3] using string_ind3; [done|]. rewrite encode_step. destruct (is_unreserved (byte_val a)) eqn:Eu.
  { apply hex_not_reserved in Eu. by rewrite !decode_plain, IH. }
  assert (Hpb : forall s0, percent_decode (percent_byte (byte_val a) +:+ encode_uri_safe_path s0) = byte_val a :: percent_decode (encode_uri_safe_path s0)) by (intros; apply decode_percent_byte, byte_range).
  destruct s as [|h [|l s]]; [by rewrite Hpb, IH|by rewrite Hpb, IH|].
  destruct (_ && _ && _) eqn:E.
  - cbn [percent_decode]. apply andb_true_iff in E as E'. destruct E' as [[Ha Hh]%andb_true_iff Hl]. rewrite Ha, Hh, Hl. cbn. f_equal. by apply (IH3 h l).
  - rewrite Hpb, IH. cbn [percent_decode] in *. by rewrite E.
Qed.

(** Percent-encoding of redirect paths.  The encoded path consists of
    unreserved bytes, slashes and escapes; it denotes the same bytes as the
    original, whose valid escapes are kept; and encoding again changes
    nothing. *)
Theorem encode_path_sound path :
  encoded (encode_uri_safe_path path) = true /\
  percent_decode (encode_uri_safe_path path) = percent_decode path /\
  encode_uri_safe_path (encode_uri_safe_path path) = encode_uri_safe_path path.
Proof. split_and!; [apply encode_encoded|apply encode_decode|apply encoded_fixed, encode_encoded]. Qed.

(** ** Redirects *)

(** URIs taken apart and put together: a new path and query for a URI, and an
    HTTPS URI from an authority and a path. *)
Class UriBuild `{HttpTypes} : Type := {
  uri_with_path_and_query : Uri -> string -> option Uri;
  uri_https : string -> string -> Result Uri string;
  uri_display : Uri -> string;
}.

Module Redirect.
Section redirect.
Context `{RegexLib} `{IpNetworks} `{UriBuild}.

Record PluginConfig : Type := {
  http_to_https : bool;
  redirect_uri : option string;
  regex_uri : list string;
  ret_code : Z;
  append_query_string : bool;
  encode_uri : bool;
  redirect_host : option string;
  trusted_proxies : list string;
}.

Definition validate_regex_uri (regex_uri : list string) : bool := Nat.even (length regex_uri) && patterns_compile regex_uri.

Definition PluginConfig_try_from (config : PluginConfig) : ProxyResult PluginConfig :=
  if negb (validate_regex_uri (regex_uri config)) then Err (ValidationStructured "")
  else
    let has_action := http_to_https config || bool_decide (is_Some (redirect_uri config)) || negb (bool_decide (regex_uri config = [])) in
    if negb has_action then Err (Validation "redirect plugin requires one of 'http_to_https', 'uri', or 'regex_uri'")
    else if http_to_https config && bool_decide (default "" (trim <$> redirect_host config) = "")
    then Err (Configuration "redirect plugin: http_to_https requires redirect_host (do not fall back to the request Host header)")
    else if match redirect_uri config with Some uri => (String.length uri <? 2)%nat | None => false end
    then Err (Validation "redirect uri must be at least 2 characters")
    else Ok config.

Record PluginRedirect : Type := { config : PluginConfig; regex_patterns : list (Regex * string); trusted : list IpNetwork }.

Fixpoint parse_trusted (l : list string) : ProxyResult (list IpNetwork) :=
  match l with
  | [] => Ok []
  | s :: l =>
    let? n := map_err (fun e => Validation ("Invalid trusted_proxies network '" +:+ s +:+ "': " +:+ e)) (network_parse s) in
    let? rest := parse_trusted l in
    Ok (n :: rest)
  end.

Definition create_redirect_plugin (cfg : PluginConfig) : ProxyResult PluginRedirect :=
  let? config := PluginConfig_try_from cfg in
  let? regex_patterns := compile_pairs "redirect" (regex_uri config) in
  let? trusted := parse_trusted (trusted_proxies config) in
  Ok {| config := config; regex_patterns := regex_patterns; trusted := trusted |}.

Definition merge_query_string (target_query original_query : string) (append_query_string : bool) : string :=
  if append_query_string then
    if bool_decide (target_query = "") then original_query
    else if bool_decide (original_query = "") || bool_decide (target_query = original_query) then target_query
    else target_query +:+ "&" +:+ original_query
  else target_query.

(** [direct_ip] is the address of the immediate peer. *)
Definition is_trusted_proxy_peer (self : PluginRedirect) (direct_ip : option IpAddr) : bool :=
  match trusted self with
  | [] => false
  | _ => match direct_ip with Some ip => existsb (fun net => contains net ip) (trusted self) | None => false end
  end.

Definition req_header_needs_https_redirect (req : RequestHeader) (trust_xff : bool) : bool :=
  let by_header :=
    if negb trust_xff then true
    else negb match head (headers_get_all (headers req) "x-forwarded-proto") ≫= to_str with
              | Some v => eq_ignore_ascii_case v "https"
              | None => false
              end in
  match uri_scheme (uri req) with
  | Some s => if bool_decide (s = "https") then false else if bool_decide (s = "http") then true else by_header
  | None => by_header
  end.

Definition needs_https_redirect (self : PluginRedirect) (session : Session) (direct_ip : option IpAddr) : bool :=
  if ssl_digest session then false
  else req_header_needs_https_redirect (req_header session) (is_trusted_proxy_peer self direct_ip).

(** An invalid status code falls back to 302. *)
Definition redirect_response (self : PluginRedirect) (new_uri : Uri) : FilterVerdict :=
  let status_code := if between 100 999 (ret_code (config self)) then ret_code (config self) else 302 in
  Reject (with_headers [("content-type", "text/plain")] (with_headers [("location", uri_display new_uri)] (Rejection_new status_code))).

Definition redirect_https (self : PluginRedirect) (req : RequestHeader) : Result FilterVerdict ProxyError :=
  let? authority := ok_or (Internal "redirect_host missing for http_to_https (should have been rejected at load)")
                      ((trim <$> redirect_host (config self)) ≫= fun h => if bool_decide (h = "") then None else Some h) in
  let? path_and_query := ok_or (Internal "Missing path and query in URI") (uri_path_and_query (uri req)) in
  let? new_uri := map_err (fun e => Internal ("Failed to build HTTPS URI: " +:+ e)) (uri_https authority path_and_query) in
  Ok (redirect_response self new_uri).

(** The new path with its query, and the URI carrying both. *)
Definition rebuild (self : PluginRedirect) (u : Uri) (new_path target_query original_query : string) : option Uri :=
  let new_path := if encode_uri (config self) then encode_uri_safe_path new_path else new_path in
  let new_query := merge_query_string target_query original_query (append_query_string (config self)) in
  uri_with_path_and_query u (if bool_decide (new_query = "") then new_path else new_path +:+ "?" +:+ new_query).

Definition build_uri_from_path (self : PluginRedirect) (path : string) (u : Uri) (original_query : string) : option Uri :=
  let target_query := match uri_parse path with Ok uri => default "" (uri_query uri) | Err _ => "" end in
  rebuild self u (default path (head (split_char "?"%char path))) target_query original_query.

Definition build_uri_from_regex (self : PluginRedirect) (u : Uri) (original_query : string) : option Uri :=
  match uri_path_and_query u with
  | Some _ =>
    let rewritten := apply_regex_uri_template (uri_path u) (regex_patterns self) in
    let '(new_path, target_query) := match split_once "?" rewritten with Some pq => pq | None => (rewritten, "") end in
    rebuild self u new_path target_query original_query
  | None => None
  end.

Definition construct_uri (self : PluginRedirect) (session : Session) : option Uri :=
  let u := uri (req_header session) in
  let original_query := default "" (uri_query u) in
  match redirect_uri (config self) with
  | Some path => build_uri_from_path self (render_template true (resolve_var session) path) u original_query
  | None => match regex_patterns self with [] => None | _ => build_uri_from_regex self u original_query end
  end.

Definition request_filter (self : PluginRedirect) (session : Session) (direct_ip : option IpAddr) : Result FilterVerdict ProxyError :=
  if http_to_https (config self) && needs_https_redirect self session direct_ip then redirect_https self (req_header session)
  else match construct_uri self session with Some new_uri => Ok (redirect_response self new_uri) | None => Ok Continue end.
End redirect.
End Redirect.

Section redirect_props.
Context `{RegexLib} `{IpNetworks} `{UriBuild}.
Import Redirect.

Lemma create_redirect_ok cfg self : create_redirect_plugin cfg = Ok self ->
  config self = cfg /\ (http_to_https cfg = true -> exists host, trim <$> redirect_host cfg = Some host /\ host <> "").
Proof.
  unfold create_redirect_plugin. intros (c & Hc & (ps & _ & (ts & _ & [= <-])%and_then_ok)%and_then_ok)%and_then_ok. cbn [config].
  unfold PluginConfig_try_from in Hc. destruct (negb (validate_regex_uri _)); [done|]. destruct (negb (_ || _)); [done|].
  destruct (http_to_https cfg && _) eqn:E; [done|]. destruct (match redirect_uri cfg with Some _ => _ | None => _ end); [done|]. injection Hc as <-.
  split; [done|]. intros Hh. rewrite Hh in E. cbn in E. bool_to_prop. destruct (trim <$> redirect_host cfg) as [host|] eqn:Eh; [by exists host|done].
Qed.

Lemma parse_trusted_in l ts n : parse_trusted l = Ok ts -> In n ts -> exists s, In s l /\ network_parse s = Ok n.
Proof.
  revert ts. induction l as [|s l IH]; intros ts; [by intros [= <-]|]. cbn [parse_trusted].
  intros (m & Hm & (rest & Hr & [= <-])%and_then_ok)%and_then_ok [<-|Hin].
  - exists s. split; [by left|]. by destruct (network_parse s) as [?|?]; cbn in Hm; simplify_eq.
  - destruct (IH _ Hr Hin) as (s' & ? & ?). exists s'. split; [by right|done].
Qed.

Lemma untrusted_peer cfg self ip : create_redirect_plugin cfg = Ok self ->
  (forall a s n, ip = Some a -> In s (trusted_proxies cfg) -> network_parse s = Ok n -> contains n a = false) ->
  is_trusted_proxy_peer self ip = false.
Proof.
  intros Hcr Hun. destruct (create_redirect_ok _ _ Hcr) as [Hc _]. revert Hcr. unfold create_redirect_plugin.
  intros (c & Hok & (ps & _ & (ts & Hts & [= <-])%and_then_ok)%and_then_ok)%and_then_ok. cbn in Hc. subst c.
  unfold is_trusted_proxy_peer. cbn [trusted]. destruct ts as [|t ts]; [done|]. destruct ip as [a|]; [|done].
  apply Bool.not_true_iff_false. intros (n & Hn & Hcon)%existsb_exists.
  destruct (parse_trusted_in _ _ _ Hts Hn) as (s & Hs & Hp). by rewrite (Hun a s n eq_refl Hs Hp) in Hcon.
Qed.

Definition with_request_headers (session : Session) (h : HeaderMap) : Session :=
  {| req_header := {| method := method (req_header session); uri := uri (req_header session); headers := h |};
     ssl_digest := ssl_digest session; client_ip := client_ip session; client_port := client_port session; server_addr := server_addr session |}.

(** HTTPS redirects cannot be steered.  For an accepted configuration with
    [http_to_https], a request over plain text from a peer outside every
    configured trusted network is redirected unless its URI says https: to the path and
    query it asked for, at the configured host, with the configured status.
    No header it carries changes the verdict. *)
Theorem https_redirect_unforgeable cfg self session direct_ip : create_redirect_plugin cfg = Ok self -> http_to_https cfg = true ->
  ssl_digest session = false ->
  (forall a s n, direct_ip = Some a -> In s (trusted_proxies cfg) -> network_parse s = Ok n -> contains n a = false) ->
  uri_scheme (uri (req_header session)) <> Some "https" ->
  (forall h, request_filter self (with_request_headers session h) direct_ip = request_filter self session direct_ip) /\
  (forall verdict, request_filter self session direct_ip = Ok verdict ->
     exists host path_and_query u, trim <$> redirect_host cfg = Some host /\ host <> "" /\
       uri_path_and_query (uri (req_header session)) = Some path_and_query /\ uri_https host path_and_query = Ok u /\
       verdict = redirect_response self u).
Proof.
  intros Hcr Hon Htls Htr%(untrusted_peer _ _ _ Hcr) Hsch. destruct (create_redirect_ok _ _ Hcr) as [Hcfg Hhost]. destruct (Hhost Hon) as (host & Hh & Hne).
  assert (Hneeds : forall h, needs_https_redirect self (with_request_headers session h) direct_ip = true).
  { intros h. unfold needs_https_redirect, req_header_needs_https_redirect. cbn. rewrite Htls, Htr. cbn.
    destruct (uri_scheme _) as [s|]; [|done]. rewrite bool_decide_false by congruence. by case_bool_decide. }
  assert (Hrf : forall h, request_filter self (with_request_headers session h) direct_ip = redirect_https self (req_header session)).
  { intros h. unfold request_filter. by rewrite Hneeds, Hcfg, Hon. }
  assert (Hself : with_request_headers session (headers (req_header session)) = session) by (by destruct session as [[] ? ? ? ?]).
  pose proof (Hrf (headers (req_header session))) as Hs. rewrite Hself in Hs. split; [intros h; by rewrite Hrf, Hs|].
  intros verdict. rewrite Hs. unfold redirect_https. rewrite Hcfg, Hh. cbn [mbind option_bind ok_or and_then]. rewrite bool_decide_false by done. cbn.
  destruct (uri_path_and_query _) as [pq|] eqn:Ep; [|done]. cbn. destruct (uri_https host pq) as [u|] eqn:Eu; [|done]. cbn. intros [= <-]. by exists host, pq, u.
Qed.
End redirect_props.

(** ** Rewriting proxied requests *)

Class HeaderNames : Type := {
  header_name_valid : string -> bool;
  header_value_valid : string -> bool;
  method_valid : string -> bool;
}.

Module ProxyRewrite.
Section rewrite.
Context `{RegexLib} `{HttpTypes} `{HeaderNames}.

Inductive HeaderValues : Type := Many (values : list string) | One (value : string).
Record HeaderEntry : Type := { entry_name : string; entry_value : HeaderValues }.
Definition values (self : HeaderEntry) : list string := match entry_value self with Many vs => vs | One v => [v] end.

Record Headers : Type := { add : list HeaderEntry; set : list HeaderEntry; remove : list string }.

(** *** The forms of [headers]: serde's arms read lists and maps of entries. *)
Class SerdeHeaders : Type := {
  raw_entries : Json -> Result (list HeaderEntry) string;
  raw_map : Json -> Result (list (string * HeaderValues)) string;
  raw_names : Json -> Result (list string) string;
}.

Definition json_keys (v : Json) : list string := match v with JObject o => o.*1 | _ => [] end.
Definition structured_key (k : string) : bool := bool_decide (k ∈ ["add"; "set"; "remove"]).

Definition headers_deserialize `{SerdeHeaders} (value : Json) : Result Headers string :=
  if existsb structured_key (json_keys value) then
    let unknown := List.filter (fun k => negb (structured_key k)) (json_keys value) in
    if negb (bool_decide (unknown = [])) then
      Err ("headers: unknown key(s) " +:+ String.concat ", " ((fun k => "'" +:+ k +:+ "'") <$> unknown)
           +:+ " — plain header entries cannot be mixed with add/set/remove; list them under 'set'")
    else
      let field {A} (k : string) (read : Json -> Result (list A) string) := match json_get k value with Some v => read v | None => Ok [] end in
      let? add := field "add" raw_entries in
      let? set := field "set" raw_entries in
      let? remove := field "remove" raw_names in
      Ok {| add := add; set := set; remove := remove |}
  else
    let? map := raw_map value in
    Ok {| add := []; set := (fun nv => {| entry_name := nv.1; entry_value := nv.2 |}) <$> map; remove := [] |}.

(** [validate_configured_header_entries] *)
Definition check_entry (entry : HeaderEntry) : bool :=
  header_name_valid (entry_name entry) && forallb header_value_valid (values entry).
Definition validate_configured_header_entries (headers : option Headers) : bool :=
  match headers with
  | None => true
  | Some h => forallb check_entry (add h) && forallb check_entry (set h) && forallb header_name_valid (remove h)
  end.

Record PluginConfig : Type := {
  rewrite_uri : option string;
  rewrite_method : option string;
  regex_uri : option (list string);
  host : option string;
  rewrite_headers : option Headers;
}.

Definition APISIX_REWRITE_METHODS : list string := ["GET"; "POST"; "PUT"; "DELETE"; "PATCH"; "HEAD"; "OPTIONS"; "CONNECT"; "TRACE"].

Definition validate_regex_uri (regex_uri : list string) : bool :=
  (2 <=? length regex_uri)%nat && Nat.even (length regex_uri) && patterns_compile regex_uri.

Definition validate (self : PluginConfig) : bool :=
  match regex_uri self with Some r => validate_regex_uri r | None => true end &&
  match rewrite_uri self with Some uri => starts_with uri "/" && (char_count uri <=? 4096) | None => true end &&
  match rewrite_method self with Some m => bool_decide (m ∈ APISIX_REWRITE_METHODS) | None => true end.

Record PluginProxyRewrite : Type := { config : PluginConfig; regex_patterns : list (Regex * string) }.

Definition create_proxy_rewrite_plugin (cfg : PluginConfig) : ProxyResult PluginProxyRewrite :=
  if negb (validate cfg) then Err (ValidationStructured "")
  else if negb (validate_configured_header_entries (rewrite_headers cfg)) then Err (Validation "proxy-rewrite: invalid header")
  else
    let? regex_patterns := compile_pairs "proxy-rewrite" (default [] (regex_uri cfg)) in
    Ok {| config := cfg; regex_patterns := regex_patterns |}.

(** The client's query is carried over; an unparsable result is dropped. *)
Definition with_query (path query : string) : option Uri :=
  match uri_parse (if bool_decide (query = "") then path else path +:+ "?" +:+ query) with Ok u => Some u | Err _ => None end.

Definition construct_path_and_query (self : PluginProxyRewrite) (u : Uri) : option Uri :=
  let query := default "" (uri_query u) in
  match rewrite_uri (config self) with
  | Some path => with_query path query
  | None => match regex_patterns self with [] => None | _ => with_query (apply_regex_uri_template (uri_path u) (regex_patterns self)) query end
  end.

Definition append_all (name : string) (vs : list string) (h : HeaderMap) : Result HeaderMap string :=
  try_fold (fun h v => headers_append h name v) h vs.

Definition apply_headers (headers : Headers) (h : HeaderMap) : Result HeaderMap string :=
  let? h := try_fold (fun h entry => append_all (entry_name entry) (values entry) h) h (add headers) in
  let? h := try_fold (fun h entry => append_all (entry_name entry) (values entry) (headers_remove h (entry_name entry))) h (set headers) in
  Ok (fold_left headers_remove (remove headers) h).

(** [original] is the downstream request, [upstream_request] the one to send. *)
Definition upstream_request_filter (self : PluginProxyRewrite) (original upstream_request : RequestHeader) : Result RequestHeader string :=
  let upstream_request :=
    match uri_path_and_query (uri original) with
    | Some _ => match construct_path_and_query self (uri original) with
                | Some u => {| method := method upstream_request; uri := u; headers := headers upstream_request |}
                | None => upstream_request
                end
    | None => upstream_request
    end in
  let? m := match rewrite_method (config self) with
            | Some m => if method_valid m then Ok m else Err "Invalid method"
            | None => Ok (method upstream_request)
            end in
  let? h := match host (config self) with
            | Some host => headers_append (headers_remove (headers upstream_request) "host") "host" host
            | None => Ok (headers upstream_request)
            end in
  let? h := match rewrite_headers (config self) with Some hs => apply_headers hs h | None => Ok h end in
  Ok {| method := m; uri := uri upstream_request; headers := h |}.
End rewrite.
End ProxyRewrite.

Section rewrite_props.
Context `{RegexLib} `{HttpLaws} `{HeaderNames}.
Import ProxyRewrite.

Definition same_header (n m : string) : bool := bool_decide (header_name m = header_name n).

Lemma append_all_values name vs h h' m : append_all name vs h = Ok h' ->
  headers_get_all h' m = if same_header name m then (headers_get_all h m ++ vs)%list else headers_get_all h m.
Proof.
  unfold append_all. revert h. induction vs as [|v vs IH]; intros h; cbn [try_fold].
  { intros [= <-]. destruct (same_header _ _); [by rewrite app_nil_r|done]. }
  destruct (headers_append h name v) as [h1|] eqn:E; [|done]. cbn [and_then]. intros Hf. rewrite (IH _ Hf), (get_all_append _ _ _ _ m E).
  unfold same_header. case_bool_decide; [by rewrite <-app_assoc|done].
Qed.

Definition entries_of (l : list HeaderEntry) (m : string) : list HeaderEntry := List.filter (fun e => same_header (entry_name e) m) l.

Lemma adds_values l h h' m : try_fold (fun h entry => append_all (entry_name entry) (values entry) h) h l = Ok h' ->
  headers_get_all h' m = (headers_get_all h m ++ (entries_of l m ≫= values))%list.
Proof.
  revert h. induction l as [|e l IH]; intros h; cbn [try_fold]; [intros [= <-]; by rewrite app_nil_r|].
  destruct (append_all _ _ h) as [h1|] eqn:E; [|done]. cbn [and_then]. intros Hf. rewrite (IH _ Hf), (append_all_values _ _ _ _ m E).
  unfold entries_of. cbn [List.filter]. destruct (same_header (entry_name e) m); cbn; [by rewrite <-app_assoc|done].
Qed.

Lemma sets_values l h h' m :
  try_fold (fun h entry => append_all (entry_name entry) (values entry) (headers_remove h (entry_name entry))) h l = Ok h' ->
  headers_get_all h' m = match list.last (entries_of l m) with Some e => values e | None => headers_get_all h m end.
Proof.
  revert h. induction l as [|e l IH]; intros h; cbn [try_fold]; [by intros [= <-]|].
  destruct (append_all _ _ _) as [h1|] eqn:E; [|done]. cbn [and_then]. intros Hf. rewrite (IH _ Hf), (append_all_values _ _ _ _ m E), get_all_remove.
  unfold entries_of, same_header. cbn [List.filter]. case_bool_decide; [|done]. cbn [app].
  destruct (List.filter _ l) as [|e' l'] eqn:El; [done|]. rewrite last_cons_cons.
  destruct (list.last (e' :: l')) eqn:Elast; [done|]. by apply last_None in Elast.
Qed.

Lemma removes_values l h m : headers_get_all (fold_left headers_remove l h) m = if existsb (fun n => same_header n m) l then [] else headers_get_all h m.
Proof.
  revert h. induction l as [|n l IH]; intros h; [done|]. cbn [fold_left existsb]. rewrite IH, get_all_remove. unfold same_header.
  case_bool_decide; cbn; [by destruct (existsb _ l)|done].
Qed.

(** The fields of one name after the edits of [headers]. *)
Definition edited (hs : Headers) (before : list string) (m : string) : list string :=
  if existsb (fun n => same_header n m) (remove hs) then []
  else match list.last (entries_of (set hs) m) with
       | Some e => values e
       | None => (before ++ (entries_of (add hs) m ≫= values))%list
       end.

Lemma apply_headers_values hs h h' m : apply_headers hs h = Ok h' -> headers_get_all h' m = edited hs (headers_get_all h m) m.
Proof.
  unfold apply_headers, edited. intros (h1 & Ha & (h2 & Hs & [= <-])%and_then_ok)%and_then_ok. rewrite removes_values, (sets_values _ _ _ m Hs), (adds_values _ _ _ m Ha). done.
Qed.

(** The pairs of a [regex_uri] list, each pattern compiled. *)
Inductive pairs_of : list string -> list (Regex * string) -> Prop :=
| pairs_nil : pairs_of [] []
| pairs_cons pattern template l re ps : regex_new pattern = Ok re -> pairs_of l ps -> pairs_of (pattern :: template :: l) ((re, template) :: ps).

(** The first pair whose pattern matches rewrites the path; when none does the
    path stays. *)
Inductive rewritten_path (ps : list (Regex * string)) (path : string) : string -> Prop :=
| rewritten_first before re template after captures : ps = (before ++ (re, template) :: after)%list ->
    Forall (fun p => re_captures p.1 path = None) before -> re_captures re path = Some captures ->
    rewritten_path ps path (expand_template captures template)
| rewritten_none : Forall (fun p => re_captures p.1 path = None) ps -> rewritten_path ps path path.

(** What the upstream's URI is, for a new path: the path with the client's
    query behind it, or the old URI when that does not parse. *)
Definition carries (old client : Uri) (path : string) (new : Uri) : Prop :=
  let target := match uri_query client with Some q => if bool_decide (q = "") then path else path +:+ "?" +:+ q | None => path end in
  match uri_parse target with Ok u => new = u | Err _ => new = old end.

Lemma compile_pairs_of what l ps : Nat.even (length l) = true -> compile_pairs what l = Ok ps -> pairs_of l ps.
Proof.
  revert l ps. fix IH 1. intros [|x [|y l]] ps; cbn; [intros _ [= <-]; constructor|done|].
  intros He (re & Hre & (ps' & Hps & [= <-])%and_then_ok)%and_then_ok. constructor; [|by apply IH].
  by destruct (regex_new x); [injection Hre as ->|].
Qed.

Lemma apply_template_path ps path : rewritten_path ps path (apply_regex_uri_template path ps).
Proof.
  assert (Hgo : forall before after, Forall (fun p => re_captures p.1 path = None) before ->
    rewritten_path (before ++ after) path (apply_regex_uri_template path after)).
  { intros before after. revert before. induction after as [|[re t] after IH]; intros before Hb; cbn.
    - rewrite app_nil_r. by constructor.
    - destruct (re_captures re path) as [caps|] eqn:E; [by eapply rewritten_first|].
      rewrite (cons_middle (re, t) before after), app_assoc. apply IH. apply Forall_app. split; [done|]. by repeat constructor. }
  by apply (Hgo [] ps).
Qed.

Lemma with_query_carries old client path : carries old client path (default old (with_query path (default "" (uri_query client)))).
Proof.
  unfold carries, with_query. destruct (uri_query client) as [q|]; cbn; [case_bool_decide|]; by destruct (uri_parse _).
Qed.

(** C29 (what a rewritten request carries).  The request sent upstream has the
    configured method.  A configured [uri] replaces the path of the client's
    URI, whatever [regex_uri] says; otherwise the first pattern of [regex_uri]
    that matches the client's path does, and the client's path is sent when
    none matches; the client's query is carried along in all three cases, and
    a result that does not parse leaves the URI as it was, as does a
    configuration with neither.  For every header name, with the configured
    host in place: no field if it is removed; else the values of the last
    entry that sets it; else the fields it had followed by the values of the
    entries that add it, in order. *)
Theorem proxy_rewrite_spec cfg self original up up' : create_proxy_rewrite_plugin cfg = Ok self ->
  upstream_request_filter self original up = Ok up' ->
  method up' = default (method up) (rewrite_method cfg) /\
  match uri_path_and_query (uri original), rewrite_uri cfg, regex_uri cfg with
  | None, _, _ | Some _, None, None => uri up' = uri up
  | Some _, Some path, _ => carries (uri up) (uri original) path (uri up')
  | Some _, None, Some l => exists ps path, pairs_of l ps /\ rewritten_path ps (uri_path (uri original)) path /\
      carries (uri up) (uri original) path (uri up')
  end /\
  forall m,
    let before := match host cfg with Some host => if same_header "host" m then [host] else headers_get_all (headers up) m | None => headers_get_all (headers up) m end in
    headers_get_all (headers up') m = match rewrite_headers cfg with Some hs => edited hs before m | None => before end.
Proof.
  intros Hcr Hf. assert (Hcfg : config self = cfg /\ compile_pairs "proxy-rewrite" (default [] (regex_uri cfg)) = Ok (regex_patterns self) /\ validate cfg = true).
  { unfold create_proxy_rewrite_plugin in Hcr. destruct (validate cfg); [|done]. cbn [negb] in Hcr. destruct (negb _); [done|]. by apply and_then_ok in Hcr as (? & ? & [= <-]). }
  destruct Hcfg as (Hcfg & Hps & Hval). unfold upstream_request_filter in Hf. rewrite Hcfg in Hf.
  set (up1 := match uri_path_and_query (uri original) with Some _ => _ | None => up end) in Hf.
  assert (Hup1 : method up1 = method up /\ headers up1 = headers up /\
    uri up1 = default (uri up) (uri_path_and_query (uri original) ≫= fun _ => construct_path_and_query self (uri original))).
  { subst up1. destruct (uri_path_and_query _); [|done]. cbn. by destruct (construct_path_and_query self (uri original)). }
  clearbody up1. destruct Hup1 as (Hm1 & Hh1 & Hu1). rewrite Hm1, Hh1 in Hf.
  apply and_then_ok in Hf as (mt & Hm & (h & Hh & (h' & He & [= <-])%and_then_ok)%and_then_ok). cbn [method uri headers].
  split_and!.
  - destruct (rewrite_method cfg) as [m0|]; [|by injection Hm as <-]. destruct (method_valid m0); [|done]. by injection Hm as <-.
  - rewrite Hu1. destruct (uri_path_and_query (uri original)); [|done]. cbn. unfold construct_path_and_query. rewrite Hcfg. cbv zeta.
    destruct (rewrite_uri cfg) as [path|]; [apply with_query_carries|].
    destruct (regex_uri cfg) as [l|] eqn:El; cbn in Hps; [|by injection Hps as <-].
    apply andb_true_iff in Hval as [[Hval _]%andb_true_iff _]. rewrite El in Hval. apply andb_true_iff in Hval as [[Hlen Heven]%andb_true_iff _].
    apply compile_pairs_of in Hps; [|done]. exists (regex_patterns self), (apply_regex_uri_template (uri_path (uri original)) (regex_patterns self)).
    split; [done|]. split; [apply apply_template_path|]. destruct (regex_patterns self); [inversion Hps; by subst l|apply with_query_carries].
  - intros m. cbv zeta.
    assert (Hb : headers_get_all h m = match host cfg with Some host => if same_header "host" m then [host] else headers_get_all (headers up) m | None => headers_get_all (headers up) m end).
    { destruct (host cfg) as [hv|]; [|by injection Hh as ->]. rewrite (get_all_append _ _ _ _ m Hh), get_all_remove. unfold same_header. by case_bool_decide. }
    rewrite <-Hb. destruct (rewrite_headers cfg) as [hs|]; [by apply apply_headers_values|by injection He as ->].
Qed.
End rewrite_props.

(** ** Witnesses *)

Module ToyRewrite.
(** Patterns are prefixes; the groups are the match and what follows it. *)
#[export] Instance regexes : RegexLib := {
  Regex := string;
  regex_new p := if bool_decide (p = "(") then Err "unclosed group" else Ok p;
  re_captures p s := match strip_prefix p s with Some rest => Some [Some p; Some rest] | None => None end;
}.
#[export] Instance builder : @UriBuild ToyHttp.http := {
  uri_with_path_and_query (u : @Uri ToyHttp.http) pq := if starts_with pq "/" then Some (u.1, pq) else None;
  uri_https authority pq := Ok (Some authority, pq);
  uri_display (u : @Uri ToyHttp.http) := match u.1 with Some a => "https://" +:+ a +:+ u.2 | None => u.2 end;
}.
#[export] Instance names : HeaderNames := {
  header_name_valid n := negb (bool_decide (n = ""));
  header_value_valid _ := true;
  method_valid m := negb (bool_decide (m = ""));
}.
End ToyRewrite.
Import ToyHttp ToyNetworks ToyRewrite.

Definition https_config : Redirect.PluginConfig := {|
  Redirect.http_to_https := true; Redirect.redirect_uri := None; Redirect.regex_uri := []; Redirect.ret_code := 301;
  Redirect.append_query_string := false; Redirect.encode_uri := false; Redirect.redirect_host := Some "shop.example.com"; Redirect.trusted_proxies := ["10.0.0.0"] |}.
Definition plain_session (h : list (string * string)) : Session :=
  {| req_header := {| method := "GET"; uri := (None, "/cart?id=7") : @Uri ToyHttp.http; headers := h : @HeaderMap ToyHttp.http |};
     ssl_digest := false; client_ip := Some "6.6.6.6"; client_port := None; server_addr := None |}.

Definition https_plugin : Redirect.PluginRedirect := {| Redirect.config := https_config; Redirect.regex_patterns := []; Redirect.trusted := [(V4 [10; 0; 0; 0], 4%nat)] |}.

Lemma https_redirect_unforgeable_witness :
  Redirect.create_redirect_plugin https_config = Ok https_plugin /\
  Redirect.request_filter https_plugin (plain_session [("host", "evil.test"); ("x-forwarded-proto", "https")]) (Some (V4 [6; 6; 6; 6])) =
  Redirect.request_filter https_plugin (plain_session []) (Some (V4 [6; 6; 6; 6])).
Proof.
  assert (E : Redirect.create_redirect_plugin https_config = Ok https_plugin) by reflexivity. split; [exact E|].
  assert (Htr : forall a s n, Some (V4 [6; 6; 6; 6]) = Some a -> In s (Redirect.trusted_proxies https_config) ->
    network_parse s = Ok n -> contains n a = false).
  { intros a s n [= <-] [<-|[]]. vm_compute. by intros [= <-]. }
  assert (Hs : uri_scheme (uri (req_header (plain_session []))) <> Some "https") by discriminate.
  exact (proj1 (https_redirect_unforgeable https_config https_plugin (plain_session []) (Some (V4 [6; 6; 6; 6])) E eq_refl eq_refl Htr Hs) [("host", "evil.test"); ("x-forwarded-proto", "https")]).
Defined.

Definition rewrite_config : ProxyRewrite.PluginConfig := {|
  ProxyRewrite.rewrite_uri := None; ProxyRewrite.rewrite_method := Some "POST"; ProxyRewrite.regex_uri := Some ["/api"; "/v2$1"]; ProxyRewrite.host := Some "internal";
  ProxyRewrite.rewrite_headers := Some {|
    ProxyRewrite.add := [{| ProxyRewrite.entry_name := "x-tag"; ProxyRewrite.entry_value := ProxyRewrite.One "b" |}];
    ProxyRewrite.set := [{| ProxyRewrite.entry_name := "x-set"; ProxyRewrite.entry_value := ProxyRewrite.Many ["1"; "2"] |}];
    ProxyRewrite.remove := ["cookie"] |} |}.
Definition rewrite_request : RequestHeader :=
  {| method := "GET"; uri := (None, "/api/users?page=2") : @Uri ToyHttp.http;
     headers := [("host", "shop"); ("cookie", "s=1"); ("x-tag", "a"); ("x-set", "0")] : @HeaderMap ToyHttp.http |}.

Definition rewrite_plugin : ProxyRewrite.PluginProxyRewrite := {| ProxyRewrite.config := rewrite_config; ProxyRewrite.regex_patterns := [("/api", "/v2$1")] |}.

Lemma proxy_rewrite_spec_witness :
  exists up', ProxyRewrite.upstream_request_filter rewrite_plugin rewrite_request rewrite_request = Ok up' /\
    method up' = "POST" /\ uri_path (uri up') = "/v2/users" /\
    headers_get_all (headers up') "host" = ["internal"] /\ headers_get_all (headers up') "cookie" = [] /\
    headers_get_all (headers up') "x-tag" = ["a"; "b"] /\ headers_get_all (headers up') "x-set" = ["1"; "2"].
Proof.
  assert (E : ProxyRewrite.create_proxy_rewrite_plugin rewrite_config = Ok rewrite_plugin) by reflexivity.
  destruct (ProxyRewrite.upstream_request_filter rewrite_plugin rewrite_request rewrite_request) as [up'|] eqn:Ef; [|vm_compute in Ef; discriminate].
  exists up'. split; [exact eq_refl|].
  destruct (proxy_rewrite_spec rewrite_config rewrite_plugin rewrite_request rewrite_request up' E Ef) as (Hm & (ps & path & Hps & Hp & Hu) & Hh).
  split; [exact Hm|]. split.
  { inversion Hps as [|? ? ? re ps' Hre Hps' E1 E2]. subst. inversion Hps'. subst. vm_compute in Hre. injection Hre as <-.
    inversion Hp as [before re t after caps El Hb Hc|Hn]; subst.
    - destruct before as [|? [|? ?]]; [|discriminate El..]. injection El as <- <- <-. vm_compute in Hc. injection Hc as <-.
      assert (Hup : uri up' = ((None, "/v2/users?page=2") : @Uri ToyHttp.http)) by exact Hu. rewrite Hup. reflexivity.
    - apply Forall_inv in Hn. vm_compute in Hn. discriminate Hn. }
  rewrite !Hh. vm_compute. repeat split.
Defined.

(** A configured [uri] with a query of its own gets the client's behind a
    second question mark. *)
Example two_question_marks : let cfg := {| ProxyRewrite.rewrite_uri := Some "/v2?a=1"; ProxyRewrite.rewrite_method := None; ProxyRewrite.regex_uri := None;
    ProxyRewrite.host := None; ProxyRewrite.rewrite_headers := None |} in
  match ProxyRewrite.create_proxy_rewrite_plugin cfg with
  | Ok self => match ProxyRewrite.upstream_request_filter self rewrite_request rewrite_request with Ok up => uri_query (uri up) = Some "a=1?page=2" | Err _ => False end
  | Err _ => False
  end.
Proof. vm_compute. reflexivity. Qed.

(** Group zero is not substituted, and a longer number is one placeholder. *)
Example template_groups : expand_template [Some "all"; Some "x"; None] "/$1/$2/$0/$10/a$" = "/x//$0//a$".
Proof. vm_compute. reflexivity. Qed.
