(* ===== verification/Cors.v ===== *)
(** * Cross-origin resource sharing ([src/src/plugins/cors.rs])

    Configuration checks, the origin, method and header decisions, preflight
    answers and the headers of ordinary responses.  Regular expressions are
    [Rewrite.RegexLib]; response headers are the fields in order, as in
    [Pipeline]. *)

From Stdlib Require Import ZArith Lia Ascii.
From stdpp Require Import base tactics gmap strings pretty option list.
From S2P Require Import Prelude Errors GraphStore Utf8 Hosts RequestVars Pipeline Limiting Cache IpRestriction Rewrite.

Open Scope Z_scope.

Record PluginConfig : Type := {
  allow_origins : string;
  allow_methods : string;
  allow_headers : string;
  expose_headers : option string;
  max_age : Z;
  allow_credential : bool;
  allow_origins_by_regex : option (list string);
  timing_allow_origins : option string;
  timing_allow_origins_by_regex : option (list string);
  allow_origins_by_metadata : option (list string);
}.

Definition is_star (s : string) : bool := bool_decide (s = "*") || bool_decide (s = "**").

(** The trimmed entries of a comma-separated list. *)
Definition entries (s : string) : list string := trim <$> split_char ","%char s.

Definition validate_origin_list (value : string) : bool :=
  negb (bool_decide (value = "")) && (is_star value || forallb (fun o => negb (bool_decide (o = ""))) (entries value)).

Definition METHODS : list string := ["GET"; "POST"; "PUT"; "DELETE"; "PATCH"; "OPTIONS"; "HEAD"].

(** [to_uppercase], on the text that can yield ASCII letters of the names:
    the dotless i, the long s and the two ligatures of s and t. *)
Fixpoint upper_letters (s : string) : string :=
  match s with
  | String "196" (String "177" s) => String "I" (upper_letters s)
  | String "197" (String "191" s) => String "S" (upper_letters s)
  | String "239" (String "172" (String "133" s)) | String "239" (String "172" (String "134" s)) => "ST" +:+ upper_letters s
  | String a s => String a (upper_letters s)
  | EmptyString => ""
  end.

Definition validate_methods (methods : string) : bool :=
  is_star methods || forallb (fun m => existsb (fun name => eq_ignore_ascii_case name (upper_letters m)) METHODS) (entries methods).

Definition is_some_star (o : option string) : bool := match o with Some s => bool_decide (s = "*") | None => false end.
Definition is_nonempty {A} (o : option (list A)) : bool := match o with Some (_ :: _) => true | _ => false end.

Fixpoint distinct (l : list string) : bool := match l with [] => true | x :: l => negb (bool_decide (x ∈ l)) && distinct l end.

Definition validate (self : PluginConfig) : bool :=
  negb (allow_credential self && is_star (allow_origins self)) &&
  negb (allow_credential self && bool_decide (allow_headers self = "*")) &&
  negb (allow_credential self && bool_decide (allow_methods self = "*")) &&
  negb (allow_credential self && is_some_star (expose_headers self)) &&
  negb (allow_credential self && is_some_star (timing_allow_origins self)) &&
  match timing_allow_origins self with Some o => validate_origin_list o | None => true end &&
  match timing_allow_origins_by_regex self with
  | Some regexes => negb (bool_decide (regexes = [])) && forallb (fun r => negb (bool_decide (r = "")) && (char_count r <=? 4096)) regexes && distinct regexes
  | None => true
  end &&
  negb (is_nonempty (allow_origins_by_metadata self)).

(** [None] for a wildcard: there is nothing to look up. *)
Definition compile_origins_set (origins : string) : option (list string) :=
  if bool_decide (origins = "") || is_star origins then None
  else Some (List.filter (fun o => negb (bool_decide (o = ""))) (entries origins)).

Abbreviation Fields := (list (string * string)).

Section cors.
Context `{RegexLib} `{HttpTypes}.
(** [char::is_alphanumeric] is Unicode's; [pingora_display] prints the
    framework's errors. *)
Context (alphanumeric_or_dash : string -> bool) (header_ok : string -> string -> Result unit string) (pingora_display : PingoraError -> string).

Definition validate_headers (headers : string) : bool := is_star headers || forallb alphanumeric_or_dash (entries headers).

Record OptimizedPluginConfig : Type := {
  settings : PluginConfig;
  origin_regexes : option (list Regex);
  allow_origins_set : option (list string);
  timing_regexes : option (list Regex);
  timing_allow_origins_set : option (list string);
}.

Fixpoint compile_regexes (what : string) (l : list string) : ProxyResult (list Regex) :=
  match l with
  | [] => Ok []
  | re :: l =>
    let? r := map_err (fun e => Pingora (pingora_display (into_pingora_error (Validation ("Invalid " +:+ what +:+ "regex pattern '" +:+ re +:+ "': " +:+ e)))))
                (regex_new re) in
    let? rest := compile_regexes what l in
    Ok (r :: rest)
  end.
Definition compile_list (what : string) (o : option (list string)) : ProxyResult (option (list Regex)) :=
  match o with Some l => let? rs := compile_regexes what l in Ok (Some rs) | None => Ok None end.

Definition compile_and_optimize (self : PluginConfig) : ProxyResult OptimizedPluginConfig :=
  if is_nonempty (allow_origins_by_metadata self) then Err (Validation "plugin metadata is not supported")
  else
    let? regexes := compile_list "" (allow_origins_by_regex self) in
    let? timing := compile_list "timing " (timing_allow_origins_by_regex self) in
    Ok {| settings := self; origin_regexes := regexes; allow_origins_set := compile_origins_set (allow_origins self);
          timing_regexes := timing; timing_allow_origins_set := timing_allow_origins self ≫= compile_origins_set |}.

Definition create_cors_plugin (cfg : PluginConfig) : ProxyResult OptimizedPluginConfig :=
  if validate_origin_list (allow_origins cfg) && validate_methods (allow_methods cfg) && validate_headers (allow_headers cfg) && validate cfg
  then compile_and_optimize cfg else Err (ValidationStructured "").

Definition is_match (re : Regex) (s : string) : bool := bool_decide (is_Some (re_captures re s)).

Definition is_origin_allowed (self : OptimizedPluginConfig) (origin : string) : bool :=
  if bool_decide (allow_origins (settings self) = "") then false
  else if is_star (allow_origins (settings self)) then true
  else
    match allow_origins_set self with Some set => bool_decide (origin ∈ set) | None => false end ||
    match origin_regexes self with Some regex_list => existsb (fun re => is_match re origin) regex_list | None => false end.

(** The regex list takes precedence over the plain list. *)
Definition timing_allow_origin_value (self : OptimizedPluginConfig) (origin : option string) : option string :=
  match timing_regexes self with
  | Some regex_list => origin ≫= fun o => if existsb (fun re => is_match re o) regex_list then Some o else None
  | None =>
    configured ← timing_allow_origins (settings self);
    if bool_decide (configured = "*") then Some "*"
    else
      o ← origin;
      if bool_decide (configured = "**") then Some o
      else set ← timing_allow_origins_set self; if bool_decide (o ∈ set) then Some o else None
  end.

Definition method_is_allowed (allowed requested : string) : bool :=
  existsb (fun m => eq_ignore_ascii_case m requested) METHODS &&
  (is_star allowed || existsb (fun m => eq_ignore_ascii_case m requested) (entries allowed)).

Definition headers_are_allowed (allowed requested : string) : bool :=
  is_star allowed ||
  forallb (fun r => negb (bool_decide (r = "")) && existsb (fun h => eq_ignore_ascii_case h r) (entries allowed)) (entries requested).

(** ** Response headers *)

(** Keeps the first of each spelling. *)
Fixpoint dedup_fold (seen : list string) (values : list string) : list string :=
  match values with
  | [] => []
  | v :: values =>
    if bool_decide (to_ascii_lowercase v ∈ seen) then dedup_fold seen values
    else v :: dedup_fold (to_ascii_lowercase v :: seen) values
  end.

Definition vary_values (resp : Fields) : list string :=
  List.filter (fun s => negb (bool_decide (s = ""))) (header_values "vary" resp ≫= fun v => entries (default "" (to_str v))).

Definition merge_vary (resp : Fields) (name : string) : Result Fields string :=
  let values := vary_values resp in
  let values := if existsb (fun v => eq_ignore_ascii_case v name) values then values else (values ++ [name])%list in
  insert_header header_ok "vary" (String.concat ", " (dedup_fold [] values)) resp.

Definition apply_timing_allow_origin (self : OptimizedPluginConfig) (resp : Fields) (origin : option string) : Result Fields string :=
  match timing_allow_origin_value self origin with
  | Some timing_origin => insert_header header_ok "timing-allow-origin" timing_origin resp
  | None => Ok resp
  end.

Definition apply_cors_headers_with_origin (self : OptimizedPluginConfig) (req : RequestHeader) (resp : Fields) (origin : string) : Result Fields string :=
  let cfg := settings self in
  let reflecting_origin := negb (negb (allow_credential cfg) && is_star (allow_origins cfg)) in
  let? resp := insert_header header_ok "access-control-allow-origin" (if reflecting_origin then origin else "*") resp in
  let? resp := if allow_credential cfg then insert_header header_ok "access-control-allow-credentials" "true" resp else Ok resp in
  let methods := if bool_decide (allow_methods cfg = "**") then "GET,POST,PUT,DELETE,PATCH,OPTIONS,HEAD" else allow_methods cfg in
  let? resp := insert_header header_ok "access-control-allow-methods" methods resp in
  let dynamic_allow_headers := bool_decide (allow_headers cfg = "**") in
  let headers := if dynamic_allow_headers then default "" (get_req_header_value req "access-control-request-headers") else allow_headers cfg in
  let? resp := insert_header header_ok "access-control-allow-headers" headers resp in
  let? resp := insert_header header_ok "access-control-max-age" (pretty (max_age cfg)) resp in
  let? resp := match expose_headers cfg with Some expose => insert_header header_ok "access-control-expose-headers" expose resp | None => Ok resp end in
  let? resp := if reflecting_origin then merge_vary resp "Origin" else Ok resp in
  if dynamic_allow_headers then merge_vary resp "Access-Control-Request-Headers" else Ok resp.

Definition apply_cors_headers (self : OptimizedPluginConfig) (req : RequestHeader) (resp : Fields) : Result Fields string :=
  let origin := get_req_header_value req "origin" in
  let? resp := match origin with
               | Some origin => if is_origin_allowed self origin then apply_cors_headers_with_origin self req resp origin else Ok resp
               | None => Ok resp
               end in
  apply_timing_allow_origin self resp origin.

(** [None]: an OPTIONS request that is not a preflight. *)
Definition handle_options_request (self : OptimizedPluginConfig) (req : RequestHeader) : Result (option (Z * Fields)) string :=
  match get_req_header_value req "access-control-request-method" with
  | None => Ok None
  | Some requested_method =>
    let headers_ok := match get_req_header_value req "access-control-request-headers" with
                      | Some headers => headers_are_allowed (allow_headers (settings self)) headers
                      | None => true
                      end in
    match get_req_header_value req "origin" with
    | Some origin =>
      if is_origin_allowed self origin && method_is_allowed (allow_methods (settings self)) requested_method && headers_ok then
        let? resp := apply_cors_headers_with_origin self req [] origin in
        let? resp := apply_timing_allow_origin self resp (Some origin) in
        Ok (Some (204, resp))
      else Ok (Some (403, []))
    | None => Ok (Some (403, []))
    end
  end.

Definition request_filter (self : OptimizedPluginConfig) (req : RequestHeader) : Result FilterVerdict string :=
  if bool_decide (method req = "OPTIONS") then
    let? answer := handle_options_request self req in
    match answer with
    | Some (status, fields) => Ok (Reject (with_headers ((fun nv => (nv.1, from_utf8_lossy nv.2)) <$> fields) (Rejection_new status)))
    | None => Ok Continue
    end
  else Ok Continue.

Definition response_filter (self : OptimizedPluginConfig) (req : RequestHeader) (upstream_response : Fields) : Result Fields string :=
  apply_cors_headers self req upstream_response.
End cors.

(** ** Vary lists read back what they join *)

Definition token (s : string) : Prop := s <> "" /\ trim s = s /\ contains_char ","%char s = false.

Lemma entries_space s : entries (String " " s) = entries s.
Proof.
  unfold entries. cbn [split_char]. rewrite bool_decide_false by done. pose proof (split_char_some ","%char s).
  destruct (split_char _ s) as [|h t]; [done|]. cbn [fmap list_fmap]. by rewrite trim_space.
Qed.

Lemma entries_join l : l <> [] -> Forall token l -> entries (String.concat ", " l) = l.
Proof.
  intros Hne Hl. induction Hl as [|p l (_ & Ht & Hc) Hl IH]; [done|]. destruct l as [|q l]; cbn [String.concat].
  { unfold entries. rewrite (split_char_last _ _ Hc). cbn [fmap list_fmap]. by rewrite Ht. }
  change (", " +:+ ?s) with (String "," (String " " s)). unfold entries at 1. rewrite (RequestVars.split_char_app _ _ _ Hc). cbn [fmap list_fmap].
  rewrite Ht. f_equal. etransitivity; [|exact (IH ltac:(done))]. exact (entries_space _).
Qed.

Lemma dedup_fold_sub seen l v : v ∈ dedup_fold seen l -> v ∈ l.
Proof.
  revert seen. induction l as [|x l IH]; intros seen; cbn [dedup_fold]; [done|].
  case_bool_decide; rewrite ?elem_of_cons; [naive_solver|]. intros [->|Hv]; [by left|right; eauto].
Qed.

Lemma dedup_fold_has seen l v : v ∈ l -> to_ascii_lowercase v ∈ seen \/ exists w, w ∈ dedup_fold seen l /\ eq_ignore_ascii_case w v = true.
Proof.
  unfold eq_ignore_ascii_case. revert seen. induction l as [|x l IH]; intros seen; [by intros ?%not_elem_of_nil|].
  cbn [dedup_fold]. intros [->|Hv]%elem_of_cons.
  - case_bool_decide; [by left|right]. exists x. split; [by left|by apply bool_decide_true].
  - case_bool_decide as Hx; [by apply IH|]. destruct (IH (to_ascii_lowercase x :: seen) Hv) as [[Heq|?]%elem_of_cons|(w & ? & ?)]; [|by left|].
    + right. exists x. split; [by left|by apply bool_decide_true].
    + right. exists w. split; [by right|done].
Qed.

Lemma filter_keeps {A} (f : A -> bool) l : Forall (fun x => f x = true) l -> List.filter f l = l.
Proof. induction 1 as [|x l Hx _ IH]; [done|]. cbn [List.filter]. by rewrite Hx, IH. Qed.

(** ** What browsers may read *)

Section cors_props.
Context `{RegexLib} `{HttpLaws}.
Context (alphanumeric_or_dash : string -> bool) (header_ok : string -> string -> Result unit string) (pingora_display : PingoraError -> string).
(** Header text may hold commas, spaces and the names the plugin adds. *)
Hypothesis visible_text : str_forall visible "Origin, Access-Control-Request-Headers" = true.

Lemma create_settings cfg self : create_cors_plugin alphanumeric_or_dash pingora_display cfg = Ok self ->
  settings self = cfg /\ validate cfg = true /\ allow_origins cfg <> "" /\ allow_origins_set self = compile_origins_set (allow_origins cfg) /\
  compile_list pingora_display "" (allow_origins_by_regex cfg) = Ok (origin_regexes self).
Proof.
  unfold create_cors_plugin. destruct (_ && _) eqn:E; [|done]. apply andb_true_iff in E as [[[Ho _]%andb_true_iff _]%andb_true_iff Hv].
  unfold compile_and_optimize. destruct (is_nonempty _); [done|].
  intros (rs & Hr & (ts & _ & [= <-])%and_then_ok)%and_then_ok. split_and!; [done..| |done|done].
  unfold validate_origin_list in Ho. apply andb_true_iff in Ho as [Ho _]. by bool_to_prop.
Qed.

(** The response varies on a request header. *)
Definition varies_on (resp : Fields) (name : string) : Prop := exists v, v ∈ vary_values resp /\ eq_ignore_ascii_case v name = true.

Lemma vary_values_tokens resp : Forall (fun v => token v /\ str_forall visible v = true) (vary_values resp).
Proof.
  apply Forall_forall. intros v Hv. unfold vary_values in Hv. apply list_elem_of_In, filter_In in Hv as [Hv Hne]. apply list_elem_of_In in Hv.
  apply list_elem_of_bind in Hv as (f & Hv & _). unfold entries in Hv. apply list_elem_of_fmap in Hv as (p & -> & Hp).
  apply split_char_pieces in Hp as (Hc & u & w & Hf). repeat split; [by bool_to_prop|apply trim_trimmed|by apply contains_trim|].
  apply str_forall_trim. apply (str_forall_infix _ u p w). rewrite <-Hf, to_str_spec. destruct (str_forall visible f) eqn:E; done.
Qed.

Lemma merge_vary_ok resp name resp' : token name -> str_forall visible name = true -> merge_vary header_ok resp name = Ok resp' ->
  varies_on resp' name /\ (forall m, varies_on resp m -> varies_on resp' m) /\
  forall m, eq_ignore_ascii_case "vary" m = false -> header_values m resp' = header_values m resp.
Proof.
  intros Hn Hvis. unfold merge_vary. set (vs := if existsb _ _ then _ else _). intros Hi.
  assert (Hvs : Forall (fun v => token v /\ str_forall visible v = true) vs).
  { subst vs. destruct (existsb _ _); [|apply Forall_app; split; [|by apply Forall_singleton]]; apply vary_values_tokens. }
  assert (Hname : exists v, v ∈ vs /\ eq_ignore_ascii_case v name = true).
  { subst vs. destruct (existsb _ _) eqn:E.
    - apply existsb_exists in E as (v & Hv & Heq). exists v. split; [by apply list_elem_of_In|done].
    - exists name. split; [apply elem_of_app; right; by left|by apply bool_decide_true]. }
  assert (Hold : forall v, v ∈ vary_values resp -> v ∈ vs) by (intros; subst vs; destruct (existsb _ _); [done|apply elem_of_app; by left]).
  assert (Hde : Forall (fun v => token v /\ str_forall visible v = true) (dedup_fold [] vs)).
  { rewrite Forall_forall in *. intros v Hv. by apply dedup_fold_sub, Hvs in Hv. }
  assert (Hhas : forall v, v ∈ vs -> exists w, w ∈ dedup_fold [] vs /\ eq_ignore_ascii_case w v = true).
  { intros v Hv. by destruct (dedup_fold_has [] vs v Hv) as [?%not_elem_of_nil|]. }
  assert (Hread : vary_values resp' = dedup_fold [] vs).
  { unfold vary_values. rewrite (insert_header_values _ _ _ _ _ "vary" Hi). rewrite (bool_decide_true _ eq_refl : eq_ignore_ascii_case "vary" "vary" = true).
    cbn [mbind list_bind]. rewrite app_nil_r, to_str_spec, str_forall_concat.
    - cbn [default Datatypes.id]. rewrite entries_join; [|destruct Hname as (v & Hv & _); destruct (Hhas v Hv) as (w & Hw & _); intros Hnil; rewrite Hnil in Hw; by apply not_elem_of_nil in Hw|
        by apply (Forall_impl _ _ _ Hde); intros ? []].
      apply filter_keeps. apply (Forall_impl _ _ _ Hde). intros v [[Hv _] _]. by apply negb_true_iff, bool_decide_eq_false.
    - by apply (str_forall_infix _ "Origin" ", " "Access-Control-Request-Headers").
    - apply (Forall_impl _ _ _ Hde). by intros ? []. }
  assert (Htr : forall m, (exists v, v ∈ vs /\ eq_ignore_ascii_case v m = true) -> varies_on resp' m).
  { intros m (v & Hv & Hm). destruct (Hhas v Hv) as (w & Hw & Heq). exists w. rewrite Hread. split; [done|].
    unfold eq_ignore_ascii_case in *. bool_to_prop. congruence. }
  split; [by apply Htr|]. split; [intros m (v & Hv & Hm); apply Htr; eauto|].
  intros m Hm. by rewrite (insert_header_values _ _ _ _ _ m Hi), Hm.
Qed.

Lemma merge_if (b : bool) (resp : Fields) name resp' : token name -> str_forall visible name = true -> (if b then merge_vary header_ok resp name else Ok resp) = Ok resp' ->
  (b = true -> varies_on resp' name) /\ (forall m, varies_on resp m -> varies_on resp' m) /\
  forall m, eq_ignore_ascii_case "vary" m = false -> header_values m resp' = header_values m resp.
Proof.
  intros Hn Hv. destruct b; [|by intros [= <-]]. intros Hm. destruct (merge_vary_ok _ _ _ Hn Hv Hm) as (? & ? & ?). done.
Qed.

Lemma insert_if (b : bool) n v (hs hs' : Fields) m : (if b then insert_header header_ok n v hs else Ok hs) = Ok hs' ->
  header_values m hs' = if b && eq_ignore_ascii_case n m then [v] else header_values m hs.
Proof. destruct b; [apply insert_header_values|by intros [= <-]]. Qed.

Lemma varies_same a b m : header_values "vary" a = header_values "vary" b -> varies_on a m -> varies_on b m.
Proof. unfold varies_on, vary_values. by intros ->. Qed.

Definition reflecting (cfg : PluginConfig) : bool := negb (negb (allow_credential cfg) && is_star (allow_origins cfg)).

Lemma granted_headers self req resp origin resp' : apply_cors_headers_with_origin header_ok self req resp origin = Ok resp' ->
  header_values "access-control-allow-origin" resp' = [if reflecting (settings self) then origin else "*"] /\
  header_values "access-control-allow-credentials" resp' =
    (if allow_credential (settings self) then ["true"] else header_values "access-control-allow-credentials" resp) /\
  (forall m, varies_on resp m -> varies_on resp' m) /\
  (reflecting (settings self) = true -> varies_on resp' "Origin") /\
  (allow_headers (settings self) = "**" -> varies_on resp' "Access-Control-Request-Headers") /\
  header_values "timing-allow-origin" resp' = header_values "timing-allow-origin" resp.
Proof.
  unfold apply_cors_headers_with_origin. fold (reflecting (settings self)).
  intros (r1 & H_1 & (r2 & H_2 & (r3 & H_3 & (r4 & H_4 & (r5 & H_5 & (r6 & H_6 & (r7 & H_7 & H_8)%and_then_ok)%and_then_ok)%and_then_ok)%and_then_ok)%and_then_ok)%and_then_ok)%and_then_ok.
  assert (Hex : forall m, eq_ignore_ascii_case "access-control-expose-headers" m = false -> header_values m r6 = header_values m r5).
  { intros m Hm. destruct (expose_headers _); [by rewrite (insert_header_values _ _ _ _ _ m H_6), Hm|by injection H_6 as <-]. }
  apply merge_if in H_7 as (Ho & Hk7 & Hs7); [|done|by apply (str_forall_infix _ "" "Origin" ", Access-Control-Request-Headers")].
  apply merge_if in H_8 as (Hh & Hk8 & Hs8); [|done|by apply (str_forall_infix _ "Origin, " "Access-Control-Request-Headers" ""); rewrite str_app_nil_r].
  pose proof (fun m => insert_header_values _ _ _ _ _ m H_1) as V1. pose proof (fun m => insert_if _ _ _ _ _ m H_2) as V2.
  pose proof (fun m => insert_header_values _ _ _ _ _ m H_3) as V3. pose proof (fun m => insert_header_values _ _ _ _ _ m H_4) as V4.
  pose proof (fun m => insert_header_values _ _ _ _ _ m H_5) as V5.
  split_and!.
  - rewrite Hs8, Hs7, Hex, V5, V4, V3, V2, V1 by done. cbn. by rewrite andb_false_r.
  - rewrite Hs8, Hs7, Hex, V5, V4, V3, V2, V1 by done. cbn. by rewrite andb_true_r.
  - intros m Hm. apply Hk8, Hk7. apply (varies_same resp); [|done]. rewrite Hex, V5, V4, V3, V2, V1 by done. cbn. by rewrite andb_false_r.
  - intros Hr. by apply Hk8, Ho.
  - intros Hd. apply Hh. by apply bool_decide_true.
  - rewrite Hs8, Hs7, Hex, V5, V4, V3, V2, V1 by done. cbn. by rewrite andb_false_r.
Qed.

Lemma compile_regexes_elem what l rs re : compile_regexes pingora_display what l = Ok rs -> re ∈ rs -> exists p, p ∈ l /\ regex_new p = Ok re.
Proof.
  revert rs. induction l as [|p l IH]; intros rs; cbn [compile_regexes]; [intros [= <-]; by intros ?%not_elem_of_nil|].
  destruct (regex_new p) as [r|] eqn:E; [|done]. cbn [map_err and_then].
  intros (rest & Hr & [= <-])%and_then_ok [->|Hin]%elem_of_cons; [exists p; split; [by left|done]|].
  destruct (IH _ Hr Hin) as (q & Hq & Heq). exists q. split; [by right|done].
Qed.

(** An origin of the configured list, or one a configured expression matches. *)
Definition origin_configured (cfg : PluginConfig) (origin : string) : Prop :=
  origin ∈ entries (allow_origins cfg) \/
  exists patterns p re, allow_origins_by_regex cfg = Some patterns /\ p ∈ patterns /\ regex_new p = Ok re /\ is_match re origin = true.

Lemma allowed_configured cfg self origin : create_cors_plugin alphanumeric_or_dash pingora_display cfg = Ok self ->
  is_origin_allowed self origin = true -> is_star (allow_origins cfg) = false -> origin_configured cfg origin.
Proof.
  intros (Hs & _ & Hne & Hset & Hre)%create_settings. unfold is_origin_allowed. rewrite Hs, bool_decide_false by done. intros Ha Hstar.
  rewrite Hstar, Hset in Ha. unfold compile_origins_set in Ha. rewrite Hstar, bool_decide_false in Ha by done. cbn [orb] in Ha.
  apply orb_true_iff in Ha as [Ha|Ha].
  - left. bool_to_prop. apply list_elem_of_In, filter_In in Ha as [Ha _]. by apply list_elem_of_In.
  - right. unfold compile_list in Hre. destruct (allow_origins_by_regex cfg) as [patterns|]; [|injection Hre as Hre; by rewrite <-Hre in Ha].
    apply and_then_ok in Hre as (rs & Hrs & [= Hre]). rewrite <-Hre in Ha. apply existsb_exists in Ha as (re & Hin & Hm). apply list_elem_of_In in Hin.
    destruct (compile_regexes_elem _ _ _ _ Hrs Hin) as (p & Hp & Hn). by exists patterns, p, re.
Qed.

Lemma timing_value self origin v : timing_allow_origin_value self origin = Some v -> v = "*" \/ origin = Some v.
Proof.
  unfold timing_allow_origin_value. destruct (timing_regexes self).
  - destruct origin as [o|]; [|done]. cbn. case_match; [|done]. intros [= <-]. by right.
  - destruct (timing_allow_origins (settings self)) as [c|]; [|done]. cbn. case_bool_decide; [intros [= <-]; by left|].
    destruct origin as [o|]; [|done]. cbn. case_bool_decide; [intros [= <-]; by right|]. destruct (timing_allow_origins_set self); [|done]. cbn.
    case_bool_decide; [|done]. intros [= <-]. by right.
Qed.

(** C28 (what a cross-origin response grants).  Whatever the configuration that
    was accepted and whatever the upstream answered: when the request has no
    allowed origin the plugin adds no grant, and the upstream's own are left;
    when it has one, the upstream's grants of origins are replaced by one, the
    wildcard, which the plugin itself never joins with credentials, or the
    request's origin, which the list names or an expression matches, and then
    caches are told that the response varies on it.  The credentials header is
    the plugin's [true] if it is configured, else the upstream's.  Nothing the
    upstream varied on is lost, and [Timing-Allow-Origin] is the upstream's,
    the wildcard or the request's origin (for that one no [Vary] is added). *)
Theorem cors_sound cfg self req up resp : create_cors_plugin alphanumeric_or_dash pingora_display cfg = Ok self ->
  response_filter header_ok self req up = Ok resp ->
  (forall m, varies_on up m -> varies_on resp m) /\
  let granted := header_values "access-control-allow-origin" in
  let credentials := header_values "access-control-allow-credentials" in
  let timing := header_values "timing-allow-origin" in
  (timing resp = timing up \/ timing resp = ["*"] \/ exists origin, get_req_header_value req "origin" = Some origin /\ timing resp = [origin]) /\
  ((granted resp = granted up /\ credentials resp = credentials up /\
      forall origin, get_req_header_value req "origin" = Some origin -> is_origin_allowed self origin = false) \/
   exists origin, get_req_header_value req "origin" = Some origin /\ is_origin_allowed self origin = true /\
     ((granted resp = ["*"] /\ is_star (allow_origins cfg) = true /\ allow_credential cfg = false /\ credentials resp = credentials up) \/
      (granted resp = [origin] /\ credentials resp = (if allow_credential cfg then ["true"] else credentials up) /\
       origin_configured cfg origin /\ varies_on resp "Origin"))).
Proof.
  intros Hcr (r & Hr & Ht)%and_then_ok.
  destruct (create_settings _ _ Hcr) as (Hs & Hv & _).
  assert (Hkeep : forall m, eq_ignore_ascii_case "timing-allow-origin" m = false -> header_values m resp = header_values m r).
  { intros m Hm. unfold apply_timing_allow_origin in Ht. destruct (timing_allow_origin_value _ _); [|by injection Ht as <-].
    by rewrite (insert_header_values _ _ _ _ _ m Ht), Hm. }
  assert (Hvk : forall m, varies_on r m -> varies_on resp m) by (intros m; apply varies_same; symmetry; by apply Hkeep).
  assert (Htime : header_values "timing-allow-origin" r = header_values "timing-allow-origin" up ->
    header_values "timing-allow-origin" resp = header_values "timing-allow-origin" up \/ header_values "timing-allow-origin" resp = ["*"] \/
    exists origin, get_req_header_value req "origin" = Some origin /\ header_values "timing-allow-origin" resp = [origin]).
  { intros <-. unfold apply_timing_allow_origin in Ht. destruct (timing_allow_origin_value _ _) as [v|] eqn:Ev; [|injection Ht as <-; by left]. right.
    rewrite (insert_header_values _ _ _ _ _ "timing-allow-origin" Ht). apply timing_value in Ev as [->|Ev]; [by left|right; by exists v]. }
  cbv zeta. rewrite !(Hkeep "access-control-allow-origin"), !(Hkeep "access-control-allow-credentials") by done.
  destruct (get_req_header_value req "origin") as [origin|]; [|injection Hr as <-; split; [done|split; [by apply Htime|by left]]].
  destruct (is_origin_allowed self origin) eqn:Ha; [|injection Hr as <-; split; [done|split; [by apply Htime|left; split_and!; [done..|by intros ? [= <-]]]]].
  destruct (granted_headers _ _ _ _ _ Hr) as (Hg & Hc & Hk & Ho & _ & Htr). rewrite Hs in Hg, Hc, Ho. split; [auto|]. split; [by apply Htime|]. right. exists origin. split_and!; [done..|].
  rewrite Hg, Hc. unfold reflecting in *. destruct (is_star (allow_origins cfg)) eqn:Est.
  - left. unfold validate in Hv. rewrite Est in Hv. by destruct (allow_credential cfg).
  - right. rewrite andb_false_r in *. cbn [negb] in *. split_and!; [done..|by apply (allowed_configured _ self)|auto].
Qed.

(** A preflight is answered 204 exactly when its origin, its method and its
    headers are allowed, and 403 otherwise; other requests go on. *)
Theorem preflight_verdict self req v : request_filter header_ok self req = Ok v ->
  match v with
  | Continue => method req <> "OPTIONS" \/ get_req_header_value req "access-control-request-method" = None
  | Reject r =>
    exists m, get_req_header_value req "access-control-request-method" = Some m /\
    let allowed := (exists o, get_req_header_value req "origin" = Some o /\ is_origin_allowed self o = true) /\
      method_is_allowed (allow_methods (settings self)) m = true /\
      forall h, get_req_header_value req "access-control-request-headers" = Some h -> headers_are_allowed (allow_headers (settings self)) h = true in
    (Limiting.status r = 204 /\ allowed) \/ (Limiting.status r = 403 /\ ~ allowed)
  end.
Proof.
  unfold request_filter. case_bool_decide as Hm; [|intros [= <-]; by left]. unfold handle_options_request.
  destruct (get_req_header_value req "access-control-request-method") as [m|]; [|intros [= <-]; by right].
  destruct (get_req_header_value req "origin") as [o|]; [|intros [= <-]; exists m; split; [done|right; split; [done|by intros ((? & ? & _) & _)]]].
  set (hok := match get_req_header_value req "access-control-request-headers" with Some _ => _ | None => true end).
  assert (Hh : hok = true <-> forall h, get_req_header_value req "access-control-request-headers" = Some h -> headers_are_allowed (allow_headers (settings self)) h = true).
  { subst hok. destruct (get_req_header_value req _); naive_solver. }
  destruct (is_origin_allowed self o && _ && hok) eqn:E; cbn [and_then].
  - intros (a & (r1 & _ & (r2 & _ & [= <-])%and_then_ok)%and_then_ok & [= <-])%and_then_ok. exists m. split; [done|left]. split; [done|].
    apply andb_true_iff in E as [[Ho Hma]%andb_true_iff Hk]. split_and!; [eauto|done|by apply Hh].
  - intros [= <-]. exists m. split; [done|right]. split; [done|]. intros ((o' & [= <-] & Ho) & Hma & Hk%Hh). by rewrite Ho, Hma, Hk in E.
Qed.
End cors_props.

(** ** Witnesses *)

Import ToyHttp ToyRewrite.

Definition shop_config : PluginConfig := {|
  allow_origins := "https://shop.test, https://pay.test"; allow_methods := "GET,POST"; allow_headers := "**"; expose_headers := None; max_age := 5;
  allow_credential := true; allow_origins_by_regex := Some ["https://dev."]; timing_allow_origins := Some "**";
  timing_allow_origins_by_regex := None; allow_origins_by_metadata := None |}.
Definition any_header (n v : string) : Result unit string := Ok ().
Definition dashed (s : string) : bool := true.
Definition no_text (e : PingoraError) : string := "".
Definition cors_request (m : string) (h : list (string * string)) : RequestHeader :=
  {| method := m; uri := (None, "/cart") : @Uri ToyHttp.http; headers := h : @HeaderMap ToyHttp.http |}.
Definition shop_plugin : OptimizedPluginConfig := {|
  settings := shop_config; origin_regexes := Some ["https://dev."]; allow_origins_set := Some ["https://shop.test"; "https://pay.test"];
  timing_regexes := None; timing_allow_origins_set := None |}.
Definition answered : Fields :=
  [("etag", "1"); ("access-control-allow-origin", "https://pay.test"); ("access-control-allow-credentials", "true");
   ("access-control-allow-methods", "GET,POST"); ("access-control-allow-headers", ""); ("access-control-max-age", "5");
   ("vary", "Accept, Origin, Access-Control-Request-Headers"); ("timing-allow-origin", "https://pay.test")].

Lemma cors_sound_witness :
  response_filter any_header shop_plugin (cors_request "GET" [("origin", "https://pay.test")]) [("vary", "Accept, accept"); ("etag", "1")] = Ok answered /\
  header_values "access-control-allow-origin" answered = ["https://pay.test"] /\ varies_on answered "Origin" /\ varies_on answered "accept".
Proof.
  assert (E : create_cors_plugin dashed no_text shop_config = Ok shop_plugin) by (vm_compute; reflexivity).
  assert (Ef : response_filter any_header shop_plugin (cors_request "GET" [("origin", "https://pay.test")]) [("vary", "Accept, accept"); ("etag", "1")] = Ok answered)
    by (vm_compute; reflexivity).
  assert (Hvis : str_forall visible "Origin, Access-Control-Request-Headers" = true) by (vm_compute; reflexivity).
  split; [exact Ef|].
  destruct (cors_sound dashed any_header no_text Hvis shop_config shop_plugin (cors_request "GET" [("origin", "https://pay.test")]) [("vary", "Accept, accept"); ("etag", "1")] answered E Ef) as [Hk [_ [(Hg & _)|(o & _ & _ & [(Hg & _)|(_ & _ & _ & Hv)])]]];
    [vm_compute in Hg; discriminate|vm_compute in Hg; discriminate|].
  split; [vm_compute; reflexivity|]. split; [exact Hv|].
  apply Hk. exists "accept". split; [|vm_compute; reflexivity]. right. left.
Defined.

(** The upstream's own credentials grant stands beside the wildcard. *)
Example upstream_credentials_kept :
  let any := {| settings := {| allow_origins := "*"; allow_methods := "*"; allow_headers := "*"; expose_headers := None; max_age := 5;
    allow_credential := false; allow_origins_by_regex := None; timing_allow_origins := None; timing_allow_origins_by_regex := None; allow_origins_by_metadata := None |};
    origin_regexes := None; allow_origins_set := None; timing_regexes := None; timing_allow_origins_set := None |} in
  match response_filter any_header any (cors_request "GET" [("origin", "https://evil.test")]) [("access-control-allow-credentials", "true")] with
  | Ok resp => header_values "access-control-allow-origin" resp = ["*"] /\ header_values "access-control-allow-credentials" resp = ["true"]
  | Err _ => False
  end.
Proof. vm_compute. split; reflexivity. Qed.

(** [Timing-Allow-Origin] reflects the origin of a request that is granted
    nothing, and caches are not told. *)
Example timing_without_vary :
  response_filter any_header shop_plugin (cors_request "GET" [("origin", "https://evil.test")]) [] = Ok [("timing-allow-origin", "https://evil.test")].
Proof. vm_compute. reflexivity. Qed.

Example preflight_examples :
  let preflight o m := request_filter any_header shop_plugin (cors_request "OPTIONS" [("origin", o); ("access-control-request-method", m)]) in
  preflight "https://evil.test" "GET" = Ok (Reject (Rejection_new 403)) /\ preflight "https://shop.test" "DELETE" = Ok (Reject (Rejection_new 403)) /\
  exists r, preflight "https://dev.test" "post" = Ok (Reject r) /\ Limiting.status r = 204.
Proof. split; [|split]; [vm_compute; reflexivity..|]. eexists. split; [vm_compute; reflexivity|reflexivity]. Qed.
