(* ===== verification/ResponseRewrite.v ===== *)
(** * Response rewriting ([src/src/plugins/response_rewrite.rs])

    Configuration checks, the edits of status and headers, the framing of a
    rewritten body, and the body filter as it sees the chunks of a stream.
    Byte regular expressions and base64 decoding are a type class; response
    headers are the fields in order, as in [Pipeline]. *)

From Stdlib Require Import ZArith Lia Ascii.
From stdpp Require Import base tactics gmap strings pretty option list.
From S2P Require Import Prelude Errors GraphStore Utf8 Hosts Config RequestVars Pipeline Limiting Cache.

Open Scope Z_scope.

(** [regex_build pattern case_insensitive]; the replacements interpret their
    group references themselves. *)
Class BodyLib : Type := {
  BytesRegex : Type;
  regex_build : string -> bool -> Result BytesRegex string;
  replace_all : BytesRegex -> string -> string -> string;
  replace_first : BytesRegex -> string -> string -> string;
  standard_decode : string -> Result string string;
  standard_no_pad_decode : string -> Result string string;
}.

(** A number is the text it displays. *)
Inductive HeaderValue : Type := Text (value : string) | Number (display : string).
Definition render (self : HeaderValue) : string := match self with Text value => value | Number display => display end.

(** Maps are lists of entries in the order of iteration. *)
Inductive HeadersConfig : Type :=
| Simple (map : list (string * HeaderValue))
| Structured (add : list string) (set : list (string * HeaderValue)) (remove : list string).

Inductive RegexScope : Type := Once | Global.
#[export] Instance RegexScope_eq_dec : EqDecision RegexScope.
Proof. solve_decision. Defined.

Record FilterConfig : Type := { regex : string; scope : RegexScope; replace : string; options : string }.

Record PluginConfig : Type := {
  status_code : option Z;
  headers_config : option HeadersConfig;
  vars : option (list (list string));
  max_resp_body_size : Z;
  replacement : option string;
  body_base64 : bool;
  filters : option (list FilterConfig);
}.

Definition DEFAULT_MAX_RESP_BODY_SIZE : Z := 64 * 1024 * 1024.

(** [#[validate]]: the derived range checks. *)
Definition derived_validate (self : PluginConfig) : bool :=
  match status_code self with Some code => (200 <=? code) && (code <=? 598) | None => true end && (1 <=? max_resp_body_size self).

Definition check_name (name : string) : ProxyResult unit :=
  if is_framing_header name then Err (Validation ("response-rewrite must not modify framing header '" +:+ name +:+ "'")) else Ok ().

Definition try_each {A} (f : A -> ProxyResult unit) (l : list A) : ProxyResult unit := try_fold (fun _ x => f x) () l.

Definition validate_no_framing_headers (headers : HeadersConfig) : ProxyResult unit :=
  match headers with
  | Simple map => try_each (fun nv => check_name nv.1) map
  | Structured add set remove =>
    let? _ := try_each (fun entry => match split_once ":" entry with Some (name, _) => check_name (trim name) | None => Ok () end) add in
    let? _ := try_each (fun nv => check_name nv.1) set in
    try_each check_name remove
  end.

(** ** Templates of header values *)

(** One token per turn; the length of the text is fuel enough. *)
Fixpoint expand_loop (fuel : nat) (remote_addr : string) (upstream_addr request_id : option string) (rest : string) : string :=
  match fuel, rest with
  | S fuel, String a after =>
    if bool_decide (a = "$"%char) then
      let '(name, tail) := take_name after in
      if bool_decide (name = "") then String "$" (expand_loop fuel remote_addr upstream_addr request_id after)
      else
        (if bool_decide (name = "remote_addr") then remote_addr
         else if bool_decide (name = "upstream_addr") then default "" upstream_addr
         else if bool_decide (name = "request_id") then default "" request_id
         else String "$" name) +:+ expand_loop fuel remote_addr upstream_addr request_id tail
    else String a (expand_loop fuel remote_addr upstream_addr request_id after)
  | _, _ => ""
  end.
Definition expand_template (val remote_addr : string) (upstream_addr request_id : option string) : string :=
  if contains_char "$" val then expand_loop (S (String.length val)) remote_addr upstream_addr request_id val else val.

Abbreviation Fields := (list (string * string)).

Record ResponseHeader : Type := { resp_status : Z; http_11 : bool; resp_headers : Fields }.
#[export] Instance eta_ResponseHeader : Eta ResponseHeader := fun r => Build_ResponseHeader (resp_status r) (http_11 r) (resp_headers r).

Definition remove_header (name : string) (hs : Fields) : Fields := List.filter (fun e => negb (eq_ignore_ascii_case e.1 name)) hs.

Definition is_informational_response (response : ResponseHeader) : bool := (100 <=? resp_status response) && (resp_status response <? 200).

(** What the plugin keeps of one request, under the keys of the instance. *)
Record BodyState : Type := { matched : bool; body_buffer : option string; body_too_large : bool; skip_body_rewrite : bool }.
#[export] Instance eta_BodyState : Eta BodyState := fun s =>
  Build_BodyState (matched s) (body_buffer s) (body_too_large s) (skip_body_rewrite s).
Definition BodyState_new : BodyState := {| matched := false; body_buffer := None; body_too_large := false; skip_body_rewrite := false |}.

Section rewrite.
Context `{BodyLib}.

Record Compiled : Type := {
  replacement_body : option string;
  compiled_filters : list (BytesRegex * string * bool);
  body_limit : Z;
}.

(** ** Compilation *)

Definition decode_body_base64 (encoded : string) : Result string string :=
  if bool_decide (encoded = "") then Err "Invalid input length: 0"
  else match standard_decode encoded with
       | Ok bytes => Ok bytes
       | Err padded_error => map_err (fun _ => padded_error) (standard_no_pad_decode encoded)
       end.

(** [case_insensitive], or the first option that is not supported. *)
Fixpoint scan_options (case_insensitive : bool) (options : string) : ProxyResult bool :=
  match options with
  | EmptyString => Ok case_insensitive
  | String option rest =>
    if bool_decide (option = "j"%char) || bool_decide (option = "o"%char) then scan_options case_insensitive rest
    else if bool_decide (option = "i"%char) then scan_options true rest
    else Err (Validation ("response-rewrite: unsupported regex option '" +:+ str1 option +:+ "'"))
  end.

Definition compile_filter (filter : FilterConfig) : ProxyResult (BytesRegex * string * bool) :=
  let? ci := scan_options false (options filter) in
  let? re := map_err (fun error => Validation ("response-rewrite filter regex " +:+ String "034" (regex filter +:+ str1 "034") +:+ " does not compile: " +:+ error)) (regex_build (regex filter) ci) in
  Ok (re, replace filter, bool_decide (scope filter = Global)).

Fixpoint compile_filters (l : list FilterConfig) : ProxyResult (list (BytesRegex * string * bool)) :=
  match l with
  | [] => Ok []
  | f :: l => let? c := compile_filter f in let? rest := compile_filters l in Ok (c :: rest)
  end.

Definition compile (self : PluginConfig) : ProxyResult Compiled :=
  let? body :=
    match replacement self with
    | Some body =>
      if body_base64 self then
        map_err (fun error => Validation ("response-rewrite body is not valid base64: " +:+ error)) (let? b := decode_body_base64 body in Ok (Some b))
      else Ok (Some body)
    | None => if body_base64 self then Err (Validation "response-rewrite body_base64 requires a body") else Ok None
    end in
  let? fs := compile_filters (default [] (filters self)) in
  Ok {| replacement_body := body; compiled_filters := fs; body_limit := max_resp_body_size self |}.

Definition build (config : PluginConfig) : ProxyResult Compiled :=
  if negb (derived_validate config) then Err (ValidationStructured "")
  else
    let? _ := match headers_config config with Some headers => validate_no_framing_headers headers | None => Ok () end in
    if bool_decide (is_Some (replacement config)) && bool_decide (is_Some (filters config))
    then Err (Validation "response-rewrite body and filters are mutually exclusive")
    else if match filters config with Some [] => true | _ => false end
    then Err (Validation "response-rewrite filters must contain at least one filter")
    else if existsb (fun f => bool_decide (regex f = "")) (default [] (filters config))
    then Err (Validation "response-rewrite filter regex must not be empty")
    else compile config.

(** ** The body *)

Definition rewrites_body (self : Compiled) : bool :=
  bool_decide (is_Some (replacement_body self)) || match compiled_filters self with [] => false | _ => true end.

Definition apply_filter (current : string) (f : BytesRegex * string * bool) : string :=
  if f.2 then replace_all f.1.1 current f.1.2 else replace_first f.1.1 current f.1.2.
Definition apply_filters_bytes (self : Compiled) (body : string) : string := fold_left apply_filter (compiled_filters self) body.

Definition process_replacement (replacement : string) (end_of_stream : bool) : option string :=
  Some (if end_of_stream then replacement else "").

Definition buffered (st : BodyState) : string := default "" (body_buffer st).

(** What is left in [body], and the state. *)
Definition process_filters (self : Compiled) (body : option string) (end_of_stream : bool) (st : BodyState) : option string * BodyState :=
  if body_too_large st then (body, st)
  else
    match body with
    | None =>
      if end_of_stream then (Some (apply_filters_bytes self (buffered st)), st <| body_buffer := None |>) else (Some "", st)
    | Some chunk =>
      if body_limit self <=? Z.of_nat (String.length (buffered st)) + Z.of_nat (String.length chunk) then
        (Some (apply_filters_bytes self (String.substring 0 (Z.to_nat (body_limit self)) (buffered st +:+ chunk))),
         st <| body_buffer := None |> <| body_too_large := true |>)
      else
        let st := st <| body_buffer := Some (buffered st +:+ chunk) |> in
        if end_of_stream then (Some (apply_filters_bytes self (buffered st)), st <| body_buffer := None |>) else (Some "", st)
    end.

Definition process_body_chunk (self : Compiled) (body : option string) (end_of_stream : bool) (st : BodyState) : option string * BodyState :=
  if negb (matched st) || negb (rewrites_body self) then (body, st)
  else if skip_body_rewrite st then (body, st)
  else match replacement_body self with
       | Some replacement => (process_replacement replacement end_of_stream, st)
       | None => process_filters self body end_of_stream st
       end.

Definition response_body_filter (self : Compiled) (was_upgraded : bool) (body : option string) (end_of_stream : bool) (st : BodyState)
    : option string * BodyState :=
  if was_upgraded then (body, st) else process_body_chunk self body end_of_stream st.

(** ** The header *)

Section header.
Context `{HttpTypes} (header_ok : string -> string -> Result unit string).

Definition append_header (name value : string) (hs : Fields) : Result Fields string :=
  let? _ := header_ok name value in Ok (hs ++ [(name, value)])%list.

Definition clear_body_modified_headers (is_http2 : bool) (resp : ResponseHeader) : Result ResponseHeader string :=
  let hs := remove_header "last-modified" (remove_header "etag" (remove_header "content-encoding" (remove_header "content-length" (resp_headers resp)))) in
  if is_http2 then Ok (resp <| resp_headers := hs |>)
  else let? hs := insert_header header_ok "transfer-encoding" "chunked" hs in Ok (resp <| http_11 := true |> <| resp_headers := hs |>).

Definition insert_entry (expand_vars : string -> string) (hs : Fields) (nv : string * HeaderValue) : Result Fields string :=
  insert_header header_ok nv.1 (expand_vars (render nv.2)) hs.

Definition add_entry (expand_vars : string -> string) (hs : Fields) (entry : string) : Result Fields string :=
  match split_once ":" entry with Some (k, v) => append_header (trim k) (expand_vars (trim v)) hs | None => Ok hs end.

Definition apply_headers (expand_vars : string -> string) (cfg : option HeadersConfig) (hs : Fields) : Result Fields string :=
  match cfg with
  | None => Ok hs
  | Some (Simple headers) => try_fold (insert_entry expand_vars) hs headers
  | Some (Structured add set remove) =>
    let? hs := try_fold (add_entry expand_vars) hs add in
    let? hs := try_fold (insert_entry expand_vars) hs set in
    Ok (fold_left (fun hs k => remove_header k hs) remove hs)
  end.

(** An encoding other than [identity], read from the first field. *)
Definition is_compressed (resp : ResponseHeader) : bool :=
  match head (header_values "content-encoding" (resp_headers resp)) ≫= to_str with
  | Some encoding => negb (eq_ignore_ascii_case (trim encoding) "identity")
  | None => false
  end.

Definition is_bodyless (session : Session) (resp : ResponseHeader) : bool :=
  bool_decide (resp_status resp = 204) || bool_decide (resp_status resp = 304) || bool_decide (method (req_header session) = "HEAD").

Definition expand_vars (session : Session) (upstream_addr request_id : option string) (val : string) : string :=
  expand_template val (request_selector_key session VARS "remote_addr") upstream_addr request_id.

Definition response_filter (config : PluginConfig) (self : Compiled) (session : Session) (is_http2 : bool) (upstream_addr request_id : option string)
    (resp : ResponseHeader) (st : BodyState) : Result (ResponseHeader * BodyState) string :=
  if is_informational_response resp then Ok (resp, st)
  else if negb (match_apisix_vars session (default [] (vars config))) then Ok (resp, st)
  else
    let st := st <| matched := true |> in
    let resp := match status_code config with Some code => resp <| resp_status := code |> | None => resp end in
    let? out :=
      (if rewrites_body self then
         if is_compressed resp || is_bodyless session resp then Ok (resp, st <| skip_body_rewrite := true |>)
         else let? resp := clear_body_modified_headers is_http2 resp in Ok (resp, st)
       else Ok (resp, st)) in
    let? hs := apply_headers (expand_vars session upstream_addr request_id) (headers_config config) (resp_headers out.1) in
    Ok (out.1 <| resp_headers := hs |>, out.2).
End header.
End rewrite.

(** ** The body of a stream *)

Section stream.
Context `{BodyLib}.

(** The chunks of one response, the last at the end of the stream. *)
Fixpoint body_stream (self : Compiled) (st : BodyState) (chunks : list (option string)) : list (option string) :=
  match chunks with
  | [] => []
  | c :: rest =>
    let r := response_body_filter self false c (match rest with [] => true | _ => false end) st in
    r.1 :: body_stream self r.2 rest
  end.

Definition joined (chunks : list (option string)) : string := String.concat "" (default "" <$> chunks).
Definition blen (s : string) : Z := Z.of_nat (String.length s).

(** The body phase rewrites. *)
Definition active (self : Compiled) (st : BodyState) : bool := matched st && negb (skip_body_rewrite st) && rewrites_body self.

Lemma blen_app a b : blen (a +:+ b) = blen a + blen b.
Proof. unfold blen. induction a as [|x a IH]; cbn; [done|]. fold (a +:+ b). lia. Qed.

Lemma concat_cons x l : String.concat "" (x :: l) = x +:+ String.concat "" l.
Proof. destruct l; [by rewrite str_app_nil_r|done]. Qed.

Lemma joined_cons c l : joined (c :: l) = default "" c +:+ joined l.
Proof. unfold joined. cbn [fmap list_fmap]. apply concat_cons. Qed.

Lemma joined_app a b : joined (a ++ b) = joined a +:+ joined b.
Proof. induction a as [|c a IH]; [done|]. cbn [app]. by rewrite !joined_cons, IH, str_app_assoc. Qed.

Lemma stream_passes self st chunks : active self st = false \/ replacement_body self = None /\ body_too_large st = true ->
  body_stream self st chunks = chunks.
Proof.
  intros Ha. induction chunks as [|c l IH]; [done|]. cbn [body_stream].
  assert (Hs : forall eos, response_body_filter self false c eos st = (c, st)).
  { intros eos. unfold response_body_filter, process_body_chunk. destruct Ha as [Ha|[Hr Ht]].
    - unfold active in Ha. destruct (matched st), (rewrites_body self), (skip_body_rewrite st); try done.
    - rewrite Hr. unfold process_filters. rewrite Ht. by repeat case_match. }
  rewrite Hs. cbn [fst snd]. by rewrite IH.
Qed.

Lemma stream_replaced self st chunks body : active self st = true -> replacement_body self = Some body -> chunks <> [] ->
  joined (body_stream self st chunks) = body.
Proof.
  intros Ha Hr. unfold active in Ha. apply andb_true_iff in Ha as [[Hm Hs%negb_true_iff]%andb_true_iff Hb].
  induction chunks as [|c l IH]; [done|]. intros _. cbn [body_stream]. unfold response_body_filter, process_body_chunk.
  rewrite Hm, Hb, Hs, Hr. cbn [negb orb fst snd process_replacement]. rewrite joined_cons.
  destruct l as [|d l]; [cbn; apply str_app_nil_r|]. by rewrite IH.
Qed.

Section filtering.
Context (self : Compiled) (unreplaced : replacement_body self = None).

Lemma step_filters st c eos : active self st = true -> response_body_filter self false c eos st = process_filters self c eos st.
Proof.
  unfold active. intros [[Hm Hs%negb_true_iff]%andb_true_iff Hb]%andb_true_iff.
  unfold response_body_filter, process_body_chunk. by rewrite Hm, Hb, Hs, unreplaced.
Qed.

(** A chunk that neither fills the buffer nor ends the stream is held. *)
Lemma step_holds st c : active self st = true -> body_too_large st = false -> blen (buffered st) + blen (default "" c) < body_limit self ->
  exists st', response_body_filter self false c false st = (Some "", st') /\ buffered st' = buffered st +:+ default "" c /\
    active self st' = true /\ body_too_large st' = false.
Proof.
  intros Ha Ht Hl. rewrite step_filters by done. unfold process_filters. rewrite Ht. destruct c as [c|]; cbn [default Datatypes.id] in *.
  - unfold blen in Hl. rewrite (proj2 (Z.leb_gt _ _)) by lia. eexists. split; [reflexivity|]. done.
  - eexists. split; [reflexivity|]. rewrite str_app_nil_r. done.
Qed.

Lemma step_ends st c : active self st = true -> body_too_large st = false -> blen (buffered st) + blen (default "" c) < body_limit self ->
  (response_body_filter self false c true st).1 = Some (apply_filters_bytes self (buffered st +:+ default "" c)).
Proof.
  intros Ha Ht Hl. rewrite step_filters by done. unfold process_filters. rewrite Ht. destruct c as [c|]; cbn [default Datatypes.id] in *; [|by rewrite str_app_nil_r].
  unfold blen in Hl. by rewrite (proj2 (Z.leb_gt _ _)) by lia.
Qed.

Lemma stream_filtered st chunks : active self st = true -> body_too_large st = false -> chunks <> [] ->
  blen (buffered st) + blen (joined chunks) < body_limit self ->
  joined (body_stream self st chunks) = apply_filters_bytes self (buffered st +:+ joined chunks).
Proof.
  revert st. induction chunks as [|c l IH]; intros st Ha Ht; [done|]. intros _. rewrite joined_cons, blen_app. intros Hl.
  cbn [body_stream]. rewrite joined_cons. assert (Hb : 0 <= blen (joined l)) by (unfold blen; lia). destruct l as [|d l].
  - rewrite step_ends by (done || lia). cbn. by rewrite !str_app_nil_r.
  - destruct (step_holds st c Ha Ht ltac:(lia)) as (st' & Hs & Hbuf & Ha' & Ht'). rewrite Hs. cbn [fst snd default Datatypes.id String.append].
    rewrite IH; [by rewrite Hbuf, str_app_assoc|done..|]. rewrite Hbuf, blen_app. lia.
Qed.

Lemma stream_overflow st pre c post : active self st = true -> body_too_large st = false ->
  blen (buffered st) + blen (joined pre) < body_limit self <= blen (buffered st) + blen (joined pre) + blen c ->
  joined (body_stream self st (pre ++ Some c :: post)) =
    apply_filters_bytes self (String.substring 0 (Z.to_nat (body_limit self)) (buffered st +:+ joined pre +:+ c)) +:+ joined post.
Proof.
  revert st. induction pre as [|x pre IH]; intros st Ha Ht.
  - change (joined []) with "". change (blen "") with 0. intros Hl. cbn [app body_stream]. rewrite step_filters by done. unfold process_filters. rewrite Ht.
    unfold blen in Hl. rewrite (proj2 (Z.leb_le _ _)) by lia. cbn [fst snd]. rewrite joined_cons. cbn [default Datatypes.id].
    rewrite stream_passes by (right; done). done.
  - rewrite joined_cons, blen_app. intros Hl. assert (Hb : 0 <= blen (joined pre)) by (unfold blen; lia).
    cbn [app body_stream]. destruct (pre ++ Some c :: post)%list as [|y l] eqn:El; [by destruct pre|]. rewrite <-El in *.
    destruct (step_holds st x Ha Ht ltac:(lia)) as (st' & Hs & Hbuf & Ha' & Ht'). rewrite Hs. cbn [fst snd].
    rewrite joined_cons, IH; [|done..|rewrite Hbuf, blen_app; lia]. cbn [default Datatypes.id String.append]. by rewrite Hbuf, !str_app_assoc.
Qed.
End filtering.

Lemma substring_split n s : (n <= String.length s)%nat ->
  exists kept lost, s = kept +:+ lost /\ String.length kept = n /\ String.substring 0 n s = kept.
Proof.
  revert n. induction s as [|a s IH]; intros [|n] Hn; cbn in Hn; try lia; [by exists "", ""|by exists "", (String a s)|].
  destruct (IH n ltac:(lia)) as (k & l & E & Hk & Hs). exists (String a k), l. cbn. by rewrite E at 1; rewrite Hk, Hs.
Qed.

(** The chunk that reaches the limit is cut at it. *)
Lemma cut_at_limit limit pre c : blen pre < limit <= blen pre + blen c ->
  exists kept lost, c = kept +:+ lost /\ blen (pre +:+ kept) = limit /\ String.substring 0 (Z.to_nat limit) (pre +:+ c) = pre +:+ kept.
Proof.
  unfold blen. intros Hl. pose proof (blen_app pre c) as Hb. unfold blen in Hb. destruct (substring_split (Z.to_nat limit) (pre +:+ c)) as (k & lost & E & Hk & Hs); [lia|].
  assert (Hp : forall p k c, p +:+ c = k +:+ lost -> (String.length p <= String.length k)%nat -> exists kept, k = p +:+ kept /\ c = kept +:+ lost).
  { clear. induction p as [|a p IH]; intros k c; cbn; [intros -> _; by exists k|]. destruct k as [|b k]; cbn; [lia|].
    intros [= -> E] Hle. destruct (IH k c E ltac:(lia)) as (kept & -> & ->). by exists kept. }
  destruct (Hp _ _ _ E ltac:(lia)) as (kept & -> & ->). exists kept, lost. split_and!; [done|lia|done].
Qed.

(** C31 (what becomes of a response body).  However the upstream cuts its body
    into chunks: if the request did not match, the rewrite was skipped or there
    is nothing to rewrite, the chunks pass as they are; a replacement is sent
    once and in place of everything; and with filters, a body below the limit
    is filtered as a whole.  A body that reaches the limit is cut there: what
    it holds up to the limit is filtered and sent, the rest of the chunk that
    reached it is lost, and the chunks after that one follow unchanged.  The
    source has two comments on this case: the one inside [process_filters]
    says the body is truncated at the limit, as the code does, and the one
    above it that the chunk passes unchanged and no filter is applied, which
    it does not. *)
Theorem rewritten_body self st chunks : chunks <> [] -> body_buffer st = None -> body_too_large st = false ->
  let out := body_stream self st chunks in
  if active self st then
    match replacement_body self with
    | Some body => joined out = body
    | None =>
      (blen (joined chunks) < body_limit self -> joined out = apply_filters_bytes self (joined chunks)) /\
      forall pre c post, chunks = (pre ++ Some c :: post)%list -> blen (joined pre) < body_limit self <= blen (joined pre) + blen c ->
        exists kept lost, c = kept +:+ lost /\ blen (joined pre +:+ kept) = body_limit self /\
          joined out = apply_filters_bytes self (joined pre +:+ kept) +:+ joined post
    end
  else out = chunks.
Proof.
  intros Hne Hb Ht. cbv zeta. assert (Hbuf : buffered st = "") by (unfold buffered; by rewrite Hb).
  destruct (active self st) eqn:Ha; [|apply stream_passes; by left].
  destruct (replacement_body self) as [body|] eqn:Er; [by apply stream_replaced|]. split.
  - intros Hl. rewrite stream_filtered by (rewrite ?Hbuf; done). by rewrite Hbuf.
  - intros pre c post -> Hl. destruct (cut_at_limit _ _ _ Hl) as (kept & lost & Ec & Hk & Hs). exists kept, lost. split_and!; [done..|].
    rewrite stream_overflow by (rewrite ?Hbuf; done). by rewrite Hbuf, <-Hs.
Qed.
End stream.

(** ** Framing *)

Section framing.
Context `{BodyLib} `{HttpTypes} (header_ok : string -> string -> Result unit string).

Definition framing (name : string) : Prop := name = "content-length" \/ name = "transfer-encoding".

Lemma try_each_forall {A} (f : A -> ProxyResult unit) l : try_each f l = Ok () -> Forall (fun x => f x = Ok ()) l.
Proof.
  induction l as [|x l IH]; [done|]. unfold try_each. cbn [try_fold]. destruct (f x) as [[]|] eqn:E; [|done]. cbn [and_then]. intros Hf.
  constructor; [done|by apply IH].
Qed.

Lemma check_name_plain n name : check_name n = Ok () -> framing name -> eq_ignore_ascii_case n name = false.
Proof.
  unfold check_name, is_framing_header. destruct (_ || _) eqn:E; [done|]. apply orb_false_iff in E as [? ?]. by intros _ [->| ->].
Qed.

Lemma try_fold_keeps {A} (f : Fields -> A -> Result Fields string) l hs hs' name :
  Forall (fun x => forall h h', f h x = Ok h' -> header_values name h' = header_values name h) l ->
  try_fold f hs l = Ok hs' -> header_values name hs' = header_values name hs.
Proof.
  intros Hl. revert hs. induction Hl as [|x l Hx _ IH]; intros hs; cbn [try_fold]; [by intros [= <-]|].
  destruct (f hs x) as [h|] eqn:E; [|done]. cbn [and_then]. intros Hf. by rewrite (IH _ Hf), (Hx _ _ E).
Qed.

Lemma remove_values n name hs : header_values name (remove_header n hs) = if eq_ignore_ascii_case n name then [] else header_values name hs.
Proof. apply header_values_without. Qed.

Lemma append_values k v hs hs' name : eq_ignore_ascii_case k name = false -> append_header header_ok k v hs = Ok hs' ->
  header_values name hs' = header_values name hs.
Proof.
  unfold append_header. intros Hk (? & _ & [= <-])%and_then_ok. rewrite header_values_app, header_values_cons. cbn [fst]. rewrite Hk. apply app_nil_r.
Qed.

(** Headers that were accepted leave the framing alone. *)
Lemma apply_headers_framing ev cfg hs hs' name : framing name ->
  match cfg with Some headers => validate_no_framing_headers headers | None => Ok () end = Ok () ->
  apply_headers header_ok ev cfg hs = Ok hs' -> header_values name hs' = header_values name hs.
Proof.
  intros Hn Hv. destruct cfg as [[map|add set remove]|]; cbn [validate_no_framing_headers apply_headers] in *; [| |by intros [= <-]].
  - apply try_fold_keeps. apply try_each_forall in Hv. apply (Forall_impl _ _ _ Hv). intros [k v] Hk h h' Hi. unfold insert_entry in Hi.
    by rewrite (insert_header_values _ _ _ _ _ name Hi), (check_name_plain _ _ Hk Hn).
  - apply and_then_ok in Hv as ([] & Hadd%try_each_forall & ([] & Hset%try_each_forall & Hrem%try_each_forall)%and_then_ok).
    intros (h1 & H_1 & (h2 & H_2 & [= <-])%and_then_ok)%and_then_ok.
    assert (E1 : header_values name h1 = header_values name hs).
    { refine (try_fold_keeps _ add _ _ _ _ H_1). apply (Forall_impl _ _ _ Hadd). intros entry He h h'. unfold add_entry.
      destruct (split_once ":" entry) as [[k v]|]; [|by intros [= <-]]. apply append_values. by apply check_name_plain. }
    assert (E2 : header_values name h2 = header_values name h1).
    { refine (try_fold_keeps _ set _ _ _ _ H_2). apply (Forall_impl _ _ _ Hset). intros [k v] Hk h h' Hi. unfold insert_entry in Hi.
      by rewrite (insert_header_values _ _ _ _ _ name Hi), (check_name_plain _ _ Hk Hn). }
    rewrite <-E1, <-E2. clear -Hrem Hn. revert h2. induction Hrem as [|k l Hk _ IH]; intros h; [done|]. cbn [fold_left].
    rewrite IH. cbn beta. by rewrite remove_values, (check_name_plain _ _ Hk Hn).
Qed.

Lemma build_headers config self : build config = Ok self ->
  match headers_config config with Some headers => validate_no_framing_headers headers | None => Ok () end = Ok ().
Proof. unfold build. destruct (negb _); [done|]. by intros ([] & Hv & _)%and_then_ok. Qed.

Lemma clear_values h2 resp resp' : clear_body_modified_headers header_ok h2 resp = Ok resp' ->
  resp_status resp' = resp_status resp /\ header_values "content-length" (resp_headers resp') = [] /\
  header_values "transfer-encoding" (resp_headers resp') = if h2 then header_values "transfer-encoding" (resp_headers resp) else ["chunked"].
Proof.
  unfold clear_body_modified_headers. destruct h2.
  - intros [= <-]. cbn -[header_values remove_header]. by rewrite !remove_values.
  - intros (hs & Hi & [= <-])%and_then_ok. cbn -[header_values remove_header]. rewrite !(insert_header_values _ _ _ _ _ _ Hi).
    by rewrite !remove_values.
Qed.

(** A rewritten response is framed correctly.  Informational and
    unmatched responses are forwarded as they are.  Otherwise the response has
    the configured status, and: when its body is going to be rewritten it has no
    length, is chunked on HTTP/1, is not one that may not have a body and was
    not compressed; when it is not, the framing fields are those of the
    upstream.  No accepted configuration changes them. *)
Theorem response_framing config self session h2 up rid resp st resp' st' : build config = Ok self -> matched st = false -> skip_body_rewrite st = false ->
  response_filter header_ok config self session h2 up rid resp st = Ok (resp', st') ->
  if is_informational_response resp || negb (match_apisix_vars session (default [] (vars config))) then resp' = resp /\ st' = st
  else
    resp_status resp' = default (resp_status resp) (status_code config) /\
    matched st' = true /\
    let cl := header_values "content-length" (resp_headers resp') in
    let te := header_values "transfer-encoding" (resp_headers resp') in
    if active self st' then
      cl = [] /\ te = (if h2 then header_values "transfer-encoding" (resp_headers resp) else ["chunked"]) /\
      is_bodyless session resp' = false /\ is_compressed resp = false
    else cl = header_values "content-length" (resp_headers resp) /\ te = header_values "transfer-encoding" (resp_headers resp).
Proof.
  intros Hb Hm Hsk. pose proof (build_headers _ _ Hb) as Hv. unfold response_filter.
  destruct (is_informational_response resp); [by intros [= <- <-]|]. destruct (negb (match_apisix_vars _ _)); [by intros [= <- <-]|].
  set (r0 := match status_code config with Some _ => _ | None => resp end).
  assert (Hr0 : resp_status r0 = default (resp_status resp) (status_code config) /\ resp_headers r0 = resp_headers resp)
    by (subst r0; by destruct (status_code config)). clearbody r0. destruct Hr0 as [Hst Hh].
  intros ([r1 s1] & Hr & (hs & Ha & [= <- <-])%and_then_ok)%and_then_ok. cbn [fst snd resp_status resp_headers] in *.
  pose proof (apply_headers_framing _ _ _ _ "content-length" ltac:(by left) Hv Ha) as Hcl.
  pose proof (apply_headers_framing _ _ _ _ "transfer-encoding" ltac:(by right) Hv Ha) as Hte. cbv zeta. cbn in Hcl, Hte |- *. rewrite Hcl, Hte. clear Ha Hcl Hte.
  unfold active. destruct (rewrites_body self) eqn:Erw; [|injection Hr as <- <-; cbn; rewrite Hh; by rewrite andb_false_r].
  assert (Hcomp : is_compressed r0 = is_compressed resp) by (unfold is_compressed; by rewrite Hh).
  destruct (is_compressed r0 || is_bodyless session r0) eqn:Ec; [injection Hr as <- <-; cbn; by rewrite Hh|].
  apply and_then_ok in Hr as (r2 & Hc & [= <- <-]). destruct (clear_values _ _ _ Hc) as (Hs2 & Hcl & Hte).
  apply orb_false_iff in Ec as [Ec Ebl]. cbn. rewrite Hs2, Hcl, Hte, Hh, Hsk. cbn. split_and!; [done..| |by rewrite <-Hcomp].
  unfold is_bodyless in *. cbn. by rewrite ?Hs2.
Qed.
End framing.

(** ** Witnesses *)

Module ToyBody.
(** A pattern is one byte; [replace_all] maps it, [replace_first] its first. *)
Fixpoint map_byte (all : bool) (c s r : string) : string :=
  match s with
  | EmptyString => ""
  | String a s' => if bool_decide (str1 a = c) then r +:+ (if all then map_byte all c s' r else s') else String a (map_byte all c s' r)
  end.
#[export] Instance lib : BodyLib := {
  BytesRegex := string;
  regex_build p _ := if bool_decide (p = "(") then Err "unclosed group" else Ok p;
  replace_all := map_byte true;
  replace_first := map_byte false;
  standard_decode s := Ok s;
  standard_no_pad_decode s := Ok s;
}.
End ToyBody.
Import ToyHttp ToyBody.

Definition filter_config : PluginConfig := {|
  status_code := Some 203; headers_config := Some (Structured ["x-a: $request_id"] [("x-b", Text "$remote_address")] ["server"]);
  vars := None; max_resp_body_size := 6; replacement := None; body_base64 := false;
  filters := Some [{| regex := "l"; scope := Global; replace := "L"; options := "jo" |}] |}.
Definition filter_plugin : Compiled := {| replacement_body := None; compiled_filters := [("l", "L", true)]; body_limit := 6 |}.
Definition upstream_ok : ResponseHeader :=
  {| resp_status := 200; http_11 := true; resp_headers := [("content-length", "5"); ("server", "up"); ("x-b", "0")] |}.
Definition filtering : BodyState := {| matched := true; body_buffer := None; body_too_large := false; skip_body_rewrite := false |}.
Definition get_session : Session :=
  {| req_header := {| method := "GET"; uri := (None, "/") : @Uri ToyHttp.http; headers := [] : @HeaderMap ToyHttp.http |};
     ssl_digest := false; client_ip := Some "10.0.0.9"; client_port := None; server_addr := None |}.
Definition any_field (n v : string) : Result unit string := Ok ().
Definition filtered_ok : ResponseHeader :=
  {| resp_status := 203; http_11 := true; resp_headers := [("transfer-encoding", "chunked"); ("x-a", "r7"); ("x-b", "$remote_address")] |}.

Lemma response_framing_witness :
  response_filter any_field filter_config filter_plugin get_session false None (Some "r7") upstream_ok BodyState_new = Ok (filtered_ok, filtering) /\
  header_values "content-length" (resp_headers filtered_ok) = [].
Proof.
  assert (E : build filter_config = Ok filter_plugin) by (vm_compute; reflexivity).
  assert (Ef : response_filter any_field filter_config filter_plugin get_session false None (Some "r7") upstream_ok BodyState_new = Ok (filtered_ok, filtering))
    by (vm_compute; reflexivity).
  split; [exact Ef|].
  exact (proj1 (proj2 (proj2 (response_framing any_field filter_config filter_plugin get_session false None (Some "r7") upstream_ok BodyState_new
    filtered_ok filtering E eq_refl eq_refl Ef)))).
Defined.

Lemma rewritten_body_witness :
  joined (body_stream filter_plugin filtering [Some "he"; None; Some "ll"; None]) = "heLL" /\
  joined (body_stream filter_plugin filtering [Some "hel"; Some "lo, "; Some "all"]) = "heLLo,all".
Proof.
  split.
  - rewrite (proj1 (rewritten_body filter_plugin filtering [Some "he"; None; Some "ll"; None] ltac:(discriminate) eq_refl eq_refl) ltac:(vm_compute; reflexivity)).
    vm_compute. reflexivity.
  - destruct (proj2 (rewritten_body filter_plugin filtering [Some "hel"; Some "lo, "; Some "all"] ltac:(discriminate) eq_refl eq_refl)
      [Some "hel"] "lo, " [Some "all"] eq_refl ltac:(vm_compute; split; [reflexivity|discriminate])) as (kept & lost & Ec & Hk & Ho).
    rewrite Ho. assert (Hlen : String.length kept = 3%nat) by (unfold blen in Hk; cbn in Hk; lia).
    destruct kept as [|x [|y [|z [|w kept]]]]; try discriminate Hlen. injection Ec as <- <- <- _. vm_compute. reflexivity.
Defined.

(** The end of the chunk that reaches the limit is lost, although the chunks
    after it are sent. *)
Example overflow_leaves_a_hole : joined (body_stream filter_plugin filtering [Some "abcde"; Some "fghij"; Some "klm"]) = "abcdefklm".
Proof. vm_compute. reflexivity. Qed.

Example expand_boundaries :
  expand_template "$remote_addr:$upstream_addr-$remote_address$ $x" "10.0.0.9" None None = "10.0.0.9:-$remote_address$ $x".
Proof. vm_compute. reflexivity. Qed.
