(* ===== verification/RequestBodies.v ===== *)
(** * Plugins that watch request bodies ([src/src/plugins])

    The size limits of [client_control.rs] and [grpc_web.rs], and the buffered
    validation of [request_validation.rs], each as the filter of one chunk and
    as the stream of chunks Pingora feeds it.  JSON Schema, the JSON and form
    readers and the iteration of a header map are a type class. *)

From Stdlib Require Import ZArith Lia Ascii.
From stdpp Require Import base tactics gmap strings pretty option list.
From S2P Require Import Prelude Errors GraphStore Utf8 Json Hosts SniMatch RequestVars Limiting Pipeline Cache Settings ResponseRewrite IpRestriction.

Open Scope Z_scope.

(** The error a body filter ends the stream with: its type and its reason. *)
Record BodyError : Type := { error_type : Cache.ErrorType; reason : string }.
Definition explain (error_type : Cache.ErrorType) (reason : string) : BodyError := {| error_type := error_type; reason := reason |}.

(** [u64::saturating_add] *)
Definition saturating_add (a b : Z) : Z := Z.min (a + b) u64_max.

(** [str::parse::<u64>] accepts a leading plus sign. *)
Definition parse_u64 (s : string) : option Z :=
  let digits := match s with String "+" ds => ds | _ => s end in
  if bool_decide (digits = "") then None
  else if str_forall (between 48 57 ∘ byte_val) digits then
    let v := digits_val 0 digits in if v <=? u64_max then Some v else None
  else None.

(** ** Streams

    Pingora calls the filter of a body once per chunk; the last call carries
    the end of the stream.  An error ends the request: what was let through
    before it is all the upstream ever gets. *)
Section stream.
Context {St : Type} (filter : option string -> bool -> St -> Result (option string * St) BodyError).

Fixpoint run_stream (st : St) (chunks : list (option string)) : list (option string) * Result St BodyError :=
  match chunks with
  | [] => ([], Ok st)
  | c :: rest =>
    match filter c (match rest with [] => true | _ => false end) st with
    | Ok (out, st) => let r := run_stream st rest in (out :: r.1, r.2)
    | Err e => ([], Err e)
    end
  end.
End stream.

(** A counter that stops the stream once it exceeds a limit. *)
Definition meter (limit : Z) (err : Z -> BodyError) (count : Z) (chunk : string) : Result Z BodyError :=
  let count := saturating_add count (blen chunk) in
  if limit <? count then Err (err count) else Ok count.

(** ** [client_control.rs] *)

Module ClientControl.

Record PluginConfig : Type := { max_body_size : Z }.

Section filters.
Context `{HttpTypes}.

Definition request_filter (config : PluginConfig) (headers : HeaderMap) : FilterVerdict :=
  let limit := max_body_size config in
  if limit =? 0 then Continue
  else match (head (headers_get_all headers "content-length") ≫= to_str) ≫= parse_u64 with
       | Some len => if limit <? len then Reject (Rejection_new 413) else Continue
       | None => Continue
       end.
End filters.

(** The state is the context's [request_body_bytes]. *)
Definition request_body_filter (config : PluginConfig) (body : option string) (end_of_stream : bool) (request_body_bytes : Z)
    : Result (option string * Z) BodyError :=
  let limit := max_body_size config in
  if limit =? 0 then Ok (body, request_body_bytes)
  else match body with
       | Some bytes =>
         let? request_body_bytes := meter limit (fun _ => explain (Cache.Custom ERROR_PAYLOAD_TOO_LARGE) ("request body exceeded max_body_size " +:+ pretty limit))
                                      request_body_bytes bytes in
         Ok (body, request_body_bytes)
       | None => Ok (body, request_body_bytes)
       end.
End ClientControl.

(** ** [grpc_web.rs] *)

Module GrpcWeb.

Record PluginConfig : Type := { max_req_body_size : Z; cors_allow_headers : string }.

(** [range(min = 1)] and [length(min = 1)] *)
Definition PluginConfig_try_from (config : PluginConfig) : ProxyResult PluginConfig :=
  if (1 <=? max_req_body_size config) && negb (bool_decide (cors_allow_headers config = "")) then Ok config
  else Err (ValidationStructured "").

(** What the plugin keeps of one request. *)
Record State : Type := { request_marker : bool; request_marker_text : bool; body_bytes : Z }.
#[export] Instance eta_State : Eta State := fun s => Build_State (request_marker s) (request_marker_text s) (body_bytes s).

Definition GRPC_WEB_EXPOSE_HEADERS : string := "grpc-message,grpc-status".
Definition GRPC_WEB_ALLOW_METHODS : string := "POST".

Section filters.
Context `{HttpTypes}.

Definition grpc_web_content_type_prefix (headers : HeaderMap) : option string :=
  (fun value => to_ascii_lowercase (trim_start value)) <$> (head (headers_get_all headers "content-type") ≫= to_str).
Definition has_grpc_web_content_type (headers : HeaderMap) : bool :=
  match grpc_web_content_type_prefix headers with Some value => starts_with value "application/grpc-web" | None => false end.
Definition has_grpc_web_text_content_type (headers : HeaderMap) : bool :=
  match grpc_web_content_type_prefix headers with Some value => starts_with value "application/grpc-web-text" | None => false end.

Definition early_request_filter (req : RequestHeader) (st : State) : State :=
  st <| request_marker := has_grpc_web_content_type (headers req) |>
     <| request_marker_text := has_grpc_web_text_content_type (headers req) |>.

Definition cors_headers (r : Rejection) : Rejection :=
  with_headers [("Access-Control-Allow-Origin", "*"); ("Access-Control-Expose-Headers", GRPC_WEB_EXPOSE_HEADERS)] r.

Definition request_filter (config : PluginConfig) (req : RequestHeader) (st : State) : FilterVerdict :=
  if bool_decide (method req = "OPTIONS") then
    Reject (cors_headers (with_headers [("Access-Control-Allow-Methods", GRPC_WEB_ALLOW_METHODS);
                                        ("Access-Control-Allow-Headers", cors_allow_headers config)] (Rejection_new 204)))
  else if negb (bool_decide (method req = "POST")) then Reject (cors_headers (Rejection_new 405))
  else if request_marker_text st then
    Reject (cors_headers (with_content_type "text/plain" (with_body "grpc-web-text (base64) content type is not supported" (Rejection_new 400))))
  else if negb (request_marker st) then Reject (cors_headers (Rejection_new 400))
  else Continue.
End filters.

Definition exceeds_after_chunk (limit accumulated chunk_len : Z) : bool := limit <? saturating_add accumulated chunk_len.

(** Past the limit the total is recorded before the error is raised, which
    nothing reads any more. *)
Definition request_body_filter (config : PluginConfig) (body : option string) (end_of_stream : bool) (st : State)
    : Result (option string * State) BodyError :=
  if negb (request_marker st) then Ok (body, st)
  else match body with
       | Some bytes =>
         if exceeds_after_chunk (max_req_body_size config) (body_bytes st) (blen bytes)
         then Err (explain (Cache.HTTPStatus 413) ("request body exceeded max_req_body_size " +:+ pretty (max_req_body_size config)))
         else Ok (body, st <| body_bytes := saturating_add (body_bytes st) (blen bytes) |>)
       | None => Ok (body, st)
       end.

(** Response headers, as in [Pipeline]. *)
Section response.
Context (header_ok : string -> string -> Result unit string).

Definition apply_grpc_web_cors_headers (hs : ResponseRewrite.Fields) (allow_headers : string) : Result ResponseRewrite.Fields string :=
  let? hs := insert_header header_ok "access-control-allow-headers" allow_headers hs in
  let? hs := insert_header header_ok "access-control-expose-headers" GRPC_WEB_EXPOSE_HEADERS hs in
  match header_values "access-control-allow-origin" hs with
  | [] => insert_header header_ok "access-control-allow-origin" "*" hs
  | _ => Ok hs
  end.

Definition response_filter (config : PluginConfig) (hs : ResponseRewrite.Fields) (st : State) : Result ResponseRewrite.Fields string :=
  if request_marker st then apply_grpc_web_cors_headers hs (cors_allow_headers config) else Ok hs.
End response.
End GrpcWeb.

(** ** [request_validation.rs] *)

Module RequestValidation.

(** [jsonschema], [serde_json::from_slice], [form_urlencoded::parse] and the
    fields of a header map in the order of iteration. *)
Class SchemaLib `{HttpTypes} : Type := {
  Validator : Type;
  validator_for : Json -> Result Validator string;
  is_valid : Validator -> Json -> bool;
  first_error : Validator -> Json -> option string;
  from_slice : string -> option Json;
  form_parse : string -> list (string * string);
  headers_iter : HeaderMap -> list (string * string);
}.

Record PluginConfig : Type := {
  header_schema : option Json;
  body_schema : option Json;
  max_req_body_size : Z;
  rejected_code : Z;
  rejected_msg : option string;
}.

(** A [null] schema reads as no schema. *)
Definition PluginConfig_try_from (config : PluginConfig) : ProxyResult PluginConfig :=
  if negb (bool_decide (is_Some (header_schema config))) && negb (bool_decide (is_Some (body_schema config))) then
    Err (Validation "request-validation requires at least one of header_schema or body_schema")
  else if (1 <=? max_req_body_size config) && between 200 599 (rejected_code config) &&
          match rejected_msg config with Some m => between 1 256 (char_count m) | None => true end
  then Ok config
  else Err (ValidationStructured "").

(** Title case; header names are ASCII. *)
Definition ascii_upper (a : ascii) : ascii :=
  if between 97 122 (byte_val a) then Ascii.ascii_of_nat (Ascii.nat_of_ascii a - 32) else a.
Definition ascii_lower (a : ascii) : ascii :=
  if between 65 90 (byte_val a) then Ascii.ascii_of_nat (Ascii.nat_of_ascii a + 32) else a.
Fixpoint titled (uppercase_next : bool) (name : string) : string :=
  match name with
  | EmptyString => ""
  | String ch rest => String (if uppercase_next then ascii_upper ch else ascii_lower ch) (titled (bool_decide (ch = "-"%char)) rest)
  end.
Definition titled_header_name (name : string) : string := titled true name.

(** One more value of a key: the first stays alone, later ones make an array.
    [None] is the arm for a value that is neither. *)
Definition add_value (map : Json.Fields) (kv : string * string) : option Json.Fields :=
  match obj_get kv.1 map with
  | None => Some (obj_insert kv.1 (JString kv.2) map)
  | Some (JString existing) => Some (obj_insert kv.1 (JArray [JString existing; JString kv.2]) map)
  | Some (JArray values) => Some (obj_set kv.1 (JArray (values ++ [JString kv.2])) map)
  | Some _ => None
  end.
Fixpoint add_values (map : Json.Fields) (kvs : list (string * string)) : option Json.Fields :=
  match kvs with
  | [] => Some map
  | kv :: kvs => add_value map kv ≫= fun map => add_values map kvs
  end.

Section validation.
Context `{SchemaLib}.

Definition header_pair (nv : string * string) : string * string := (titled_header_name nv.1, default "" (to_str nv.2)).

(** The last arm of the match is [unreachable!]. *)
Definition headers_to_json (headers : HeaderMap) : Result Json (Stop unit) :=
  match add_values [] (header_pair <$> headers_iter headers) with
  | Some map => Ok (JObject map)
  | None => Err (Panic "headers_to_json only inserts strings and arrays")
  end.

Definition form_body_to_json (body : string) : option Json := JObject <$> add_values [] (form_parse body).

Definition decode_body (body : string) (content_type : option string) : option Json :=
  let is_form :=
    match content_type with Some ct => starts_with (to_ascii_lowercase (trim_start ct)) "application/x-www-form-urlencoded" | None => false end in
  if is_form then form_body_to_json body else from_slice body.

Record Compiled : Type := {
  header_validator : option Validator;
  body_validator : option Validator;
  limit : Z;
  reject_code : Z;
  reject_msg : option string;
}.

Definition compile_schema (schema : option Json) (field : string) : ProxyResult (option Validator) :=
  match schema with
  | Some schema =>
    let? v := map_err (fun e => Validation ("request-validation " +:+ field +:+ " is not a valid JSON Schema: " +:+ e)) (validator_for schema) in
    Ok (Some v)
  | None => Ok None
  end.

Definition compile (self : PluginConfig) : ProxyResult Compiled :=
  let? hv := compile_schema (header_schema self) "header_schema" in
  let? bv := compile_schema (body_schema self) "body_schema" in
  Ok {| header_validator := hv; body_validator := bv; limit := max_req_body_size self; reject_code := rejected_code self;
        reject_msg := rejected_msg self |}.

Definition create_request_validation_plugin (cfg : PluginConfig) : ProxyResult Compiled :=
  let? config := PluginConfig_try_from cfg in compile config.

Definition request_declares_body (headers : HeaderMap) : bool :=
  let chunked :=
    match head (headers_get_all headers "transfer-encoding") ≫= to_str with
    | Some v => contains_str "chunked" (to_ascii_lowercase v)
    | None => false
    end in
  let content_length := default 0 ((head (headers_get_all headers "content-length") ≫= to_str) ≫= parse_u64) in
  chunked || (0 <? content_length).

(** A code outside 100..=999 falls back to 400. *)
Definition rejection (self : Compiled) (detail : option string) : Rejection :=
  let body := default (default "" detail) (reject_msg self) in
  with_body body (Rejection_new (if between 100 999 (reject_code self) then reject_code self else 400)).

Definition reject_streaming (self : Compiled) (reason : string) : BodyError := explain (Cache.HTTPStatus (reject_code self)) reason.

Definition request_filter (self : Compiled) (req : RequestHeader) (request_body_replaced : bool) : Result FilterVerdict (Stop unit) :=
  let body_checks :=
    if bool_decide (is_Some (body_validator self)) && negb request_body_replaced then
      if 1 <? Z.of_nat (length (headers_get_all (headers req) "content-type")) then Reject (rejection self None)
      else if negb (request_declares_body (headers req)) then Reject (rejection self None)
      else Continue
    else Continue in
  match header_validator self with
  | Some validator =>
    let? instance := headers_to_json (headers req) in
    Ok (if negb (is_valid validator instance) then Reject (rejection self (first_error validator instance)) else body_checks)
  | None => Ok body_checks
  end.

(** The state is the buffer kept in the context. *)
Definition request_body_filter (self : Compiled) (req : RequestHeader) (request_body_replaced : bool)
    (body : option string) (end_of_stream : bool) (st : option string) : Result (option string * option string) BodyError :=
  match body_validator self with
  | None => Ok (body, st)
  | Some validator =>
    if request_body_replaced then Ok (body, st)
    else
      let? st :=
        match body with
        | Some chunk =>
          let buffer := default "" st +:+ chunk in
          if limit self <? blen buffer then Err (reject_streaming self "request body too large") else Ok (Some buffer)
        | None => Ok st
        end in
      if negb end_of_stream then Ok (Some "", st)
      else
        let buffer := default "" st in
        let? instance := ok_or (reject_streaming self "request body failed to decode")
                           (decode_body buffer (head (headers_get_all (headers req) "content-type") ≫= to_str)) in
        if negb (is_valid validator instance) then Err (reject_streaming self "request body failed schema validation")
        else Ok (if bool_decide (buffer = "") then None else Some buffer, None)
  end.
End validation.
End RequestValidation.

(** ** Limits on streams *)

Section metered.
Context {St : Type} (filter : option string -> bool -> St -> Result (option string * St) BodyError) (counting : St -> Prop) (count : St -> Z) (limit : Z).
Context (limit_fits : 0 < limit < u64_max).
Context (passes_none : forall eos st, filter None eos st = Ok (None, st)).
Context (metered : forall c eos st, counting st ->
  if limit <? saturating_add (count st) (blen c) then exists e, filter (Some c) eos st = Err e /\ error_status (error_type e) SourceUnset = 413
  else exists st', filter (Some c) eos st = Ok (Some c, st') /\ counting st' /\ count st' = saturating_add (count st) (blen c)).

(** What passes is a prefix of the stream within the limit: all of it, or the
    longest one, and then the request ends with 413. *)
Lemma metered_stream st chunks : counting st -> 0 <= count st <= limit ->
  let r := run_stream filter st chunks in
  count st + blen (joined r.1) <= limit /\
  match r.2 with
  | Ok _ => r.1 = chunks
  | Err e => error_status (error_type e) SourceUnset = 413 /\
             exists next rest, chunks = (r.1 ++ Some next :: rest)%list /\ limit < count st + blen (joined r.1) + blen next
  end.
Proof.
  revert st. induction chunks as [|c l IH]; intros st Hin Hc; cbv zeta.
  { cbn. split; [change (blen "") with 0; lia|done]. }
  cbn [run_stream]. set (eos := match l with [] => true | _ => false end). destruct c as [c|].
  - pose proof (metered c eos st Hin) as Hm. assert (Hb : 0 <= blen c) by (unfold blen; lia). unfold saturating_add in Hm. destruct (Z.ltb_spec limit (Z.min (count st + blen c) u64_max)).
    + destruct Hm as (e & -> & He). cbn [fst snd]. change (blen (joined [])) with 0. split; [lia|]. split; [done|]. exists c, l. split; [done|lia].
    + destruct Hm as (st' & -> & Hin' & Hc'). destruct (IH st' Hin' ltac:(lia)) as [Hle Hres]. cbn [fst snd]. rewrite joined_cons, blen_app. cbn [default Datatypes.id].
      split; [lia|]. destruct (run_stream filter st' l) as [out [st''|e]]; cbn [fst snd] in *.
      * by rewrite Hres.
      * destruct Hres as (He & next & rest & -> & Hl). split; [done|]. exists next, rest. split; [done|]. lia.
  - rewrite passes_none. destruct (IH st Hin Hc) as [Hle Hres]. cbn [fst snd]. rewrite joined_cons. cbn [default Datatypes.id String.append].
    split; [done|]. destruct (run_stream filter st l) as [out [st''|e]]; cbn [fst snd] in *.
    * by rewrite Hres.
    * destruct Hres as (He & next & rest & -> & Hl). split; [done|]. by exists next, rest.
Qed.
End metered.

(** The body a client may send under [client-control]. *)
Theorem client_control_caps cfg chunks : 0 < ClientControl.max_body_size cfg < u64_max ->
  let r := run_stream (ClientControl.request_body_filter cfg) 0 chunks in
  blen (joined r.1) <= ClientControl.max_body_size cfg /\
  match r.2 with
  | Ok _ => r.1 = chunks
  | Err e => error_status (error_type e) SourceUnset = 413 /\
             exists next rest, chunks = (r.1 ++ Some next :: rest)%list /\ ClientControl.max_body_size cfg < blen (joined r.1) + blen next
  end.
Proof.
  intros Hl. refine (metered_stream (ClientControl.request_body_filter cfg) (fun _ => True) (fun n => n) _ Hl _ _ 0 chunks I _); [..|lia].
  - intros eos st. unfold ClientControl.request_body_filter. by case_match.
  - intros c eos st _. unfold ClientControl.request_body_filter, meter. rewrite (proj2 (Z.eqb_neq _ _)) by lia.
    destruct (_ <? _); cbn [and_then]; by eexists.
Qed.

(** The counter belongs to the request and not to the plugin: attached to the
    global layer and to the route, the plugin counts every chunk twice, and 60
    bytes exceed a limit of 100. *)
Example two_layers_count_twice : let cfg := {| ClientControl.max_body_size := 100 |} in
  let chunk := String.concat "" (repeat "0123456789" 6) in
  exists st, ClientControl.request_body_filter cfg (Some chunk) true 0 = Ok (Some chunk, st) /\
    is_ok (ClientControl.request_body_filter cfg (Some chunk) true st) = false.
Proof. eexists. split; reflexivity. Qed.

(** The body of a gRPC-Web call, whose counter starts at zero. *)
Theorem grpc_web_caps cfg st chunks : 0 < GrpcWeb.max_req_body_size cfg < u64_max -> GrpcWeb.request_marker st = true -> GrpcWeb.body_bytes st = 0 ->
  let r := run_stream (GrpcWeb.request_body_filter cfg) st chunks in
  blen (joined r.1) <= GrpcWeb.max_req_body_size cfg /\
  match r.2 with
  | Ok _ => r.1 = chunks
  | Err e => error_status (error_type e) SourceUnset = 413 /\
             exists next rest, chunks = (r.1 ++ Some next :: rest)%list /\ GrpcWeb.max_req_body_size cfg < blen (joined r.1) + blen next
  end.
Proof.
  intros Hl Hm H0. pose proof (metered_stream (GrpcWeb.request_body_filter cfg) (fun st => GrpcWeb.request_marker st = true) GrpcWeb.body_bytes _ Hl) as Hs.
  specialize (Hs ltac:(intros eos s; unfold GrpcWeb.request_body_filter; by case_match)).
  rewrite H0 in Hs || idtac. cbv zeta in *. specialize (Hs ltac:(intros c eos s Hs'; unfold GrpcWeb.request_body_filter, GrpcWeb.exceeds_after_chunk; rewrite Hs'; cbn [negb]; destruct (_ <? _); by eexists) st chunks Hm ltac:(lia)).
  by rewrite H0 in Hs.
Qed.

(** ** JSON views of headers and forms *)

Section views.
Import RequestValidation.

Lemma obj_get_insert k k' x o : obj_get k' (obj_insert k x o) = if decide (k = k') then Some x else obj_get k' o.
Proof.
  induction o as [|[a v] o IH]; cbn [obj_insert].
  { cbn. by case_decide. }
  destruct (decide (a = k)) as [->|Ha]; [cbn [obj_get]; repeat case_decide; congruence|].
  destruct (str_ltb k a); cbn [obj_get]; [repeat case_decide; congruence|]. rewrite IH. repeat case_decide; congruence.
Qed.

(** The values a key has, as the schema sees them. *)
Definition view (values : list string) : option Json :=
  match values with [] => None | [v] => Some (JString v) | vs => Some (JArray (JString <$> vs)) end.
Definition values_of (k : string) (kvs : list (string * string)) : list string := snd <$> List.filter (fun kv => bool_decide (kv.1 = k)) kvs.

Lemma values_of_app k a b : values_of k (a ++ b) = (values_of k a ++ values_of k b)%list.
Proof. unfold values_of. by rewrite List.filter_app, fmap_app. Qed.

Lemma add_value_view map done kv : (forall k, obj_get k map = view (values_of k done)) ->
  exists map', add_value map kv = Some map' /\ forall k, obj_get k map' = view (values_of k (done ++ [kv])).
Proof.
  destruct kv as [key x]. intros Hv. unfold add_value. cbn [fst snd]. rewrite (Hv key).
  assert (Hother : forall k, k <> key -> values_of k (done ++ [(key, x)]) = values_of k done).
  { intros k Hk. rewrite values_of_app. unfold values_of at 2. cbn. rewrite bool_decide_false by congruence. by rewrite app_nil_r. }
  assert (Hown : values_of key (done ++ [(key, x)]) = (values_of key done ++ [x])%list).
  { rewrite values_of_app. unfold values_of at 2. cbn. by rewrite bool_decide_true by done. }
  destruct (values_of key done) as [|v [|w vs]] eqn:E; cbn [view]; eexists; (split; [reflexivity|]); intros k.
  1,2: rewrite obj_get_insert; case_decide as Hk; [subst k; by rewrite Hown|rewrite Hother by congruence; apply Hv].
  rewrite obj_get_set. case_decide as Hk; [subst k; rewrite (Hv key), E, Hown|rewrite Hother by congruence; apply Hv].
  cbn [view app]. by rewrite !fmap_cons, fmap_app.
Qed.

(** No input reaches the last arm; a key's value is the text it has once, or
    the array of its texts in order. *)
Lemma add_values_view kvs : exists map, add_values [] kvs = Some map /\ forall k, obj_get k map = view (values_of k kvs).
Proof.
  assert (Hgen : forall kvs map done, (forall k, obj_get k map = view (values_of k done)) ->
    exists map', add_values map kvs = Some map' /\ forall k, obj_get k map' = view (values_of k (done ++ kvs))).
  { clear. induction kvs as [|kv kvs IH]; intros map seen Hv; cbn [add_values].
    - exists map. split; [done|]. by rewrite app_nil_r.
    - destruct (add_value_view map seen kv Hv) as (map' & -> & Hv'). cbn [mbind option_bind].
      destruct (IH map' (seen ++ [kv])%list Hv') as (map'' & -> & Hv''). exists map''. split; [done|]. intros k. by rewrite Hv'', <-app_assoc. }
  by apply (Hgen kvs [] []).
Qed.

Context `{SchemaLib}.

Lemma headers_to_json_total headers : exists map, headers_to_json headers = Ok (JObject map) /\
  forall k, obj_get k map = view (values_of k (header_pair <$> headers_iter headers)).
Proof. unfold headers_to_json. destruct (add_values_view (header_pair <$> headers_iter headers)) as (map & -> & Hv). by exists map. Qed.

Lemma form_body_to_json_total body : exists map, form_body_to_json body = Some (JObject map) /\
  forall k, obj_get k map = view (values_of k (form_parse body)).
Proof. unfold form_body_to_json. destruct (add_values_view (form_parse body)) as (map & -> & Hv). by exists map. Qed.
End views.

(** ** Validated bodies *)

Section gate.
Import RequestValidation.
Context `{SchemaLib}.

Lemma create_compiled cfg self schema : create_request_validation_plugin cfg = Ok self -> body_schema cfg = Some schema ->
  exists v, validator_for schema = Ok v /\ body_validator self = Some v /\ limit self = max_req_body_size cfg /\
            reject_code self = rejected_code cfg /\ 1 <= limit self /\ 200 <= reject_code self <= 599.
Proof.
  unfold create_request_validation_plugin, compile. intros (c & Hc & (hv & _ & (bv & Hbv & [= <-])%and_then_ok)%and_then_ok)%and_then_ok Hs.
  unfold PluginConfig_try_from in Hc. destruct (negb _ && negb _); [done|]. destruct (_ && _) eqn:E; [|done]. injection Hc as <-.
  apply andb_true_iff in E as [[Hmax%Z.leb_le Hcode]%andb_true_iff _]. unfold between in Hcode. apply andb_true_iff in Hcode as [?%Z.leb_le ?%Z.leb_le].
  unfold compile_schema in Hbv. rewrite Hs in Hbv. apply and_then_ok in Hbv as (v & Hv & [= <-]).
  exists v. destruct (validator_for schema) as [v'|]; cbn in Hv; [|done]. by injection Hv as ->.
Qed.

Context (self : Compiled) (v : Validator) (req : RequestHeader) (validates : body_validator self = Some v).

Definition content_type_of (req : RequestHeader) : option string := head (headers_get_all (headers req) "content-type") ≫= to_str.
Definition admissible (max : Z) (v : Validator) (req : RequestHeader) (body : string) : Prop :=
  blen body <= max /\ exists instance, decode_body body (content_type_of req) = Some instance /\ is_valid v instance = true.

Abbreviation filter := (request_body_filter self req false).

(** One chunk grows the buffer, or ends the request. *)
Lemma step_chunk c st : blen (default "" st) <= limit self ->
  (exists e, limit self < blen (default "" st +:+ default "" c) /\ (forall eos, filter c eos st = Err e) /\ error_type e = Cache.HTTPStatus (reject_code self)) \/
  blen (default "" st +:+ default "" c) <= limit self /\ exists st', default "" st' = default "" st +:+ default "" c /\
    filter c false st = Ok (Some "", st') /\
    (forall instance, decode_body (default "" st') (content_type_of req) = Some instance -> is_valid v instance = true ->
       exists out, filter c true st = Ok (out, None) /\ default "" out = default "" st') /\
    ((forall instance, decode_body (default "" st') (content_type_of req) = Some instance -> is_valid v instance = false) ->
       exists e, filter c true st = Err e /\ error_type e = Cache.HTTPStatus (reject_code self)).
Proof.
  intros Hst.
  assert (Hend : forall st', default "" st' = default "" st +:+ default "" c ->
    (forall eos, filter c eos st = if negb eos then Ok (Some "", st') else
       let? instance := ok_or (reject_streaming self "request body failed to decode") (decode_body (default "" st') (content_type_of req)) in
       if negb (is_valid v instance) then Err (reject_streaming self "request body failed schema validation")
       else Ok (if bool_decide (default "" st' = "") then None else Some (default "" st'), None)) ->
    blen (default "" st +:+ default "" c) <= limit self ->
    blen (default "" st +:+ default "" c) <= limit self /\ exists st', default "" st' = default "" st +:+ default "" c /\
    filter c false st = Ok (Some "", st') /\
    (forall instance, decode_body (default "" st') (content_type_of req) = Some instance -> is_valid v instance = true ->
       exists out, filter c true st = Ok (out, None) /\ default "" out = default "" st') /\
    ((forall instance, decode_body (default "" st') (content_type_of req) = Some instance -> is_valid v instance = false) ->
       exists e, filter c true st = Err e /\ error_type e = Cache.HTTPStatus (reject_code self))).
  { intros st' Hb Hf Hle. split; [done|]. exists st'. split; [done|]. rewrite !Hf. cbn [negb]. split; [done|]. split.
    - intros j -> Hj. cbn [ok_or and_then]. rewrite Hj. cbn [negb]. eexists. split; [done|]. by case_bool_decide.
    - intros Hj. destruct (decode_body _ _) as [j|]; cbn [ok_or and_then]; [rewrite (Hj j) by done|]; by eexists. }
  unfold request_body_filter in *. rewrite validates in *. destruct c as [c|]; cbn [default Datatypes.id] in *.
  - destruct (Z.ltb_spec (limit self) (blen (default "" st +:+ c))).
    + left. eexists. split; [done|]. split; [done|done].
    + right. apply (Hend (Some (default "" st +:+ c))); [done|done|lia].
  - right. rewrite str_app_nil_r in *. by apply (Hend st).
Qed.

Lemma blen_nonneg s : 0 <= blen s.
Proof. unfold blen. lia. Qed.

(** Chunks are held back behind empty ones until the last. *)
Lemma gate_stream chunks st : chunks <> [] -> blen (default "" st) <= limit self ->
  let r := run_stream filter st chunks in
  (admissible (limit self) v req (default "" st +:+ joined chunks) ->
     r.2 = Ok None /\ exists out, r.1 = (repeat (Some "") (length chunks - 1) ++ [out])%list /\ default "" out = default "" st +:+ joined chunks) /\
  (~ admissible (limit self) v req (default "" st +:+ joined chunks) ->
     exists e n, r.2 = Err e /\ error_type e = Cache.HTTPStatus (reject_code self) /\ r.1 = repeat (Some "") n /\ (n < length chunks)%nat).
Proof.
  revert st. induction chunks as [|c l IH]; intros st; [done|]. intros _ Hst. cbv zeta. rewrite joined_cons, <-str_app_assoc.
  destruct (step_chunk c st Hst) as [(e & Hover & Hf & He)|(Hle & st' & Hb & Hf & Hgood & Hbad)].
  - cbn [run_stream]. rewrite Hf. cbn [fst snd]. split.
    + intros [Hlen _]. rewrite blen_app in Hlen. pose proof (blen_nonneg (joined l)). lia.
    + intros _. exists e, 0%nat. cbn. split; [done|]. split; [done|]. split; [done|lia].
  - rewrite <-Hb in *. cbn [run_stream]. destruct l as [|d l].
    + change (joined []) with "" in *. rewrite str_app_nil_r in *. split.
      * intros [_ (j & Hj & Hv)]. destruct (Hgood j Hj Hv) as (out & -> & Hout). cbn [fst snd length repeat Nat.sub app]. split; [done|]. by exists out.
      * intros Hno. destruct Hbad as (e & -> & He); [|exists e, 0%nat; cbn; by split_and!; try lia].
        intros j Hj. destruct (is_valid v j) eqn:Ev; [|done]. destruct Hno. split; [done|]. by exists j.
    + rewrite Hf. destruct (IH st' ltac:(done) ltac:(lia)) as [Hok Hno]. cbn [fst snd]. split.
      * intros Ha. destruct (Hok Ha) as (-> & out & -> & Hout). split; [done|]. exists out. cbn [length Nat.sub repeat app]. rewrite Nat.sub_0_r. done.
      * intros Ha. destruct (Hno Ha) as (e & n & -> & He & -> & Hn). exists e, (S n). cbn [repeat length] in *. by split_and!; try lia.
Qed.
End gate.

(** C30 (only validated bodies are released).  For an accepted configuration
    with a body schema, and however a body is cut into chunks: a body that fits
    the limit, decodes and satisfies the schema reaches the upstream whole and
    only with the last chunk, behind empty placeholders; for any other the
    request ends with the configured status and not one byte has been let
    through. *)
Theorem validated_release `{RequestValidation.SchemaLib} cfg self schema req chunks :
  RequestValidation.create_request_validation_plugin cfg = Ok self -> RequestValidation.body_schema cfg = Some schema -> chunks <> [] ->
  exists v, RequestValidation.validator_for schema = Ok v /\
  let r := run_stream (RequestValidation.request_body_filter self req false) None chunks in
  (admissible (RequestValidation.max_req_body_size cfg) v req (joined chunks) ->
     r.2 = Ok None /\ exists out, r.1 = (repeat (Some "") (length chunks - 1) ++ [out])%list /\ default "" out = joined chunks) /\
  (~ admissible (RequestValidation.max_req_body_size cfg) v req (joined chunks) ->
     exists e, r.2 = Err e /\ error_status (error_type e) SourceUnset = RequestValidation.rejected_code cfg /\ joined r.1 = "").
Proof.
  intros Hc Hs Hne. destruct (create_compiled _ _ _ Hc Hs) as (v & Hv & Hbv & Hl & Hcode & Hpos & _). exists v. split; [done|]. cbv zeta.
  destruct (gate_stream self v req Hbv chunks None Hne ltac:(change (blen "" <= RequestValidation.limit self); change (blen "") with 0; lia)) as [Hok Hno].
  cbn [default] in *. change ("" +:+ joined chunks) with (joined chunks) in *. rewrite Hl in *. split; [done|].
  intros Ha. destruct (Hno Ha) as (e & n & He & Het & -> & _). exists e. split; [done|]. split; [by rewrite Het, Hcode|].
  clear. induction n as [|n IH]; [done|]. cbn [repeat]. by rewrite joined_cons, IH.
Qed.

(** A toy schema names a field the document must have, and a toy document is
    one field. *)
Module ToySchema.
#[export] Instance schema : @RequestValidation.SchemaLib ToyHttp.http := {
  Validator := string;
  validator_for s := match s with JString k => Ok k | _ => Err "not a schema" end;
  is_valid k j := match json_get k j with Some _ => true | None => false end;
  first_error k j := Some (k +:+ " is a required property");
  from_slice s := (fun kv => JObject [(kv.1, JString kv.2)]) <$> split_once ":" s;
  form_parse s := split_pairs s "&";
  headers_iter h := h;
}.
End ToySchema.
Import ToyHttp ToySchema.

Definition validation_config : RequestValidation.PluginConfig := {|
  RequestValidation.header_schema := None; RequestValidation.body_schema := Some (JString "name"); RequestValidation.max_req_body_size := 16;
  RequestValidation.rejected_code := 422; RequestValidation.rejected_msg := None |}.
Definition json_request : RequestHeader :=
  {| method := "POST"; uri := (None, "/users") : @Uri ToyHttp.http;
     headers := [("content-type", "application/json"); ("content-length", "8")] : @HeaderMap ToyHttp.http |}.
Definition validation_plugin : RequestValidation.Compiled := {|
  RequestValidation.header_validator := None; RequestValidation.body_validator := Some ("name" : @RequestValidation.Validator _ schema);
  RequestValidation.limit := 16; RequestValidation.reject_code := 422; RequestValidation.reject_msg := None |}.

Lemma validated_release_witness :
  RequestValidation.create_request_validation_plugin validation_config = Ok validation_plugin /\
  (exists out, (run_stream (RequestValidation.request_body_filter validation_plugin json_request false) None [Some "na"; Some "me:"; Some "ada"]).1 =
     [Some ""; Some ""; out] /\ default "" out = "name:ada") /\
  joined (run_stream (RequestValidation.request_body_filter validation_plugin json_request false) None [Some "age:"; Some "7"]).1 = "".
Proof.
  assert (E : RequestValidation.create_request_validation_plugin validation_config = Ok validation_plugin) by reflexivity.
  split; [exact E|]. split.
  - destruct (validated_release validation_config validation_plugin (JString "name") json_request [Some "na"; Some "me:"; Some "ada"] E eq_refl ltac:(discriminate)) as (v & Hv & Hok & _).
    injection Hv as <-. destruct Hok as (_ & out & Hout & Hb).
    { split; [vm_compute; discriminate|]. eexists. split; vm_compute; reflexivity. }
    exists out. split; [exact Hout|exact Hb].
  - destruct (validated_release validation_config validation_plugin (JString "name") json_request [Some "age:"; Some "7"] E eq_refl ltac:(discriminate)) as (v & Hv & _ & Hno).
    injection Hv as <-. destruct Hno as (e & _ & _ & Hj); [|exact Hj].
    intros [_ (j & Hj & Hv)]. vm_compute in Hj. injection Hj as <-. vm_compute in Hv. discriminate.
Defined.
