(* ===== verification/RequestId.v ===== *)
(** * Request identifiers ([src/src/plugins/request_id.rs])

    Generation of identifiers from random bytes and the clock, which are
    arguments, and the header filters.  The base-62 conversion is the source's
    long division over [u8] digits and a [u16] carry. *)

From Stdlib Require Import ZArith Lia Ascii.
From stdpp Require Import base tactics gmap strings pretty option list.
From S2P Require Import Prelude Errors GraphStore Utf8 Json Hosts RequestVars Limiting Pipeline ResponseRewrite IpRestriction.

Open Scope Z_scope.

Definition DEFAULT_CHAR_SET : string := "abcdefghijklmnopqrstuvwxyzABCDEFGHIGKLMNOPQRSTUVWXYZ0123456789".
Definition NANOID_ALPHABET : string := "-_0123456789abcdefghijklmnopqrstuvwxyzABCDEFGHIJKLMNOPQRSTUVWXYZ".
Definition NANOID_LENGTH : nat := 21.
Definition KSUID_ALPHABET : string := "0123456789ABCDEFGHIJKLMNOPQRSTUVWXYZabcdefghijklmnopqrstuvwxyz".
Definition KSUID_ENCODED_LENGTH : nat := 27.
Definition KSUID_EPOCH_SECS : Z := 1400000000.

Definition ALGORITHMS : list string := ["uuid"; "range_id"; "nanoid"; "uuidv7"; "ksuid"].

Record RangeID : Type := { char_set : string; range_length : Z }.
Record PluginConfig : Type := { header_name : string; include_in_response : bool; algorithm : string; range_id : option RangeID }.

Definition validate_range (r : RangeID) : bool := (6 <=? char_count (char_set r)) && (6 <=? range_length r).

Definition PluginConfig_try_from (config : PluginConfig) : ProxyResult PluginConfig :=
  if bool_decide (algorithm config ∈ ALGORITHMS) && match range_id config with Some r => validate_range r | None => true end
  then Ok config else Err (ValidationStructured "").

(** ** Nano IDs *)

(** [& 63], and the default of [get] that is never taken. *)
Definition nanoid_char (byte : Z) : ascii := default "_"%char (String.get (Z.to_nat (Z.land byte 63)) NANOID_ALPHABET).
Definition get_nanoid (random : list Z) : string := String.concat "" ((fun b => str1 (nanoid_char b)) <$> random).

(** ** KSUIDs *)

(** [value as u16 * 256 + carry], [% 62] and [/ 62] at the digits' widths. *)
Definition digit_step (digit carry : Z) : Z * Z :=
  let value := wrapping_add 16 (wrap 16 (digit * 256)) carry in
  (wrap 8 (value mod 62), value / 62).

(** The digits from the least significant one, which is the last. *)
Fixpoint push_byte (digits : list Z) (byte : Z) : list Z * Z :=
  match digits with
  | [] => ([], byte)
  | d :: ds =>
    let r := push_byte ds byte in
    let s := digit_step d r.2 in
    (s.1 :: r.1, s.2)
  end.

(** The carry out of the most significant digit is dropped. *)
Definition base62_digits (payload : list Z) : list Z :=
  fold_left (fun digits byte => (push_byte digits byte).1) payload (repeat 0 KSUID_ENCODED_LENGTH).

(** [u32::to_be_bytes] *)
Definition be_bytes (timestamp : Z) : list Z :=
  [wrap 8 (Z.shiftr timestamp 24); wrap 8 (Z.shiftr timestamp 16); wrap 8 (Z.shiftr timestamp 8); wrap 8 timestamp].

(** The indexing of the alphabet panics out of range. *)
Fixpoint render_digits (digits : list Z) : Result string (Stop unit) :=
  match digits with
  | [] => Ok ""
  | d :: ds =>
    match String.get (Z.to_nat d) KSUID_ALPHABET with
    | Some c => let? rest := render_digits ds in Ok (String c rest)
    | None => Err (Panic "index out of bounds")
    end
  end.

Definition encode_ksuid (timestamp : Z) (random : list Z) : Result string (Stop unit) :=
  render_digits (base62_digits (be_bytes timestamp ++ random)).

(** [duration_since(UNIX_EPOCH)] defaults to zero. *)
Definition ksuid_timestamp (unix_secs : option Z) : Z := Z.min (Z.max 0 (default 0 unix_secs - KSUID_EPOCH_SECS)) u32_max.

(** ** Range IDs *)

Definition chars (s : string) : list string := snd <$> utf8_chunks s.

(** [choose] picks the element at a random index; [indices] are the draws, one
    per character. *)
Definition get_range_id (range : option RangeID) (uuid : string) (indices : list nat) : string :=
  let cs := match range with
            | Some r => if bool_decide (char_set r = "") then DEFAULT_CHAR_SET else char_set r
            | None => DEFAULT_CHAR_SET
            end in
  match chars cs with
  | [] => uuid
  | cs => String.concat "" ((fun i => default "?" (cs !! i)) <$> indices)
  end.
Definition range_id_length (range : option RangeID) : Z := match range with Some r => range_length r | None => 16 end.

(** What a call draws: an identifier of each UUID version, random bytes, random
    indices and the clock. *)
Record Entropy : Type := {
  uuid_v4 : string; uuid_v7 : string;
  nanoid_bytes : list Z; ksuid_bytes : list Z; range_indices : list nat;
  unix_time : option Z;
}.

Definition get_request_id (config : PluginConfig) (rng : Entropy) : Result string (Stop unit) :=
  if bool_decide (algorithm config = "range_id") then Ok (get_range_id (range_id config) (uuid_v4 rng) (range_indices rng))
  else if bool_decide (algorithm config = "nanoid") then Ok (get_nanoid (nanoid_bytes rng))
  else if bool_decide (algorithm config = "uuidv7") then Ok (uuid_v7 rng)
  else if bool_decide (algorithm config = "ksuid") then encode_ksuid (ksuid_timestamp (unix_time rng)) (ksuid_bytes rng)
  else Ok (uuid_v4 rng).

(** ** Filters *)

Section filters.
Context `{HttpTypes} (header_ok : string -> string -> Result unit string).

(** The request and the identifier the context keeps. *)
Definition request_filter (config : PluginConfig) (rng : Entropy) (req : RequestHeader) : Result (RequestHeader * string) (Stop ProxyError) :=
  match get_req_header_value req (header_name config) with
  | Some s => Ok (req, s)
  | None =>
    let? request_id := map_raise (fun _ => Internal "") (get_request_id config rng) in
    let? h := map_err (fun e => Raise (Internal ("Session insert header fail: " +:+ e)))
                (headers_append (headers_remove (headers req) (header_name config)) (header_name config) request_id) in
    Ok ({| method := method req; uri := uri req; headers := h |}, request_id)
  end.

Definition response_filter (config : PluginConfig) (request_id : option string) (resp : ResponseRewrite.Fields) : ProxyResult ResponseRewrite.Fields :=
  if include_in_response config then
    match request_id with
    | Some id => map_err (fun e => Internal ("Upstream response insert header fail: " +:+ e)) (insert_header header_ok (header_name config) id resp)
    | None => Ok resp
    end
  else Ok resp.
End filters.

(** ** The base-62 conversion *)

Definition digits_value (base : Z) (ds : list Z) : Z := fold_left (fun v d => v * base + d) ds 0.
Definition digits_below (base : Z) (ds : list Z) : Prop := Forall (fun d => 0 <= d < base) ds.

Lemma digits_value_from base v ds : fold_left (fun v d => v * base + d) ds v = v * base ^ Z.of_nat (length ds) + digits_value base ds.
Proof.
  unfold digits_value. revert v. induction ds as [|d ds IH]; intros v; cbn [fold_left length]; [cbn; lia|].
  rewrite IH, (IH (0 * base + d)), Nat2Z.inj_succ, Z.pow_succ_r by lia. lia.
Qed.

Lemma digits_value_cons base d ds : digits_value base (d :: ds) = d * base ^ Z.of_nat (length ds) + digits_value base ds.
Proof. unfold digits_value at 1. cbn [fold_left]. by rewrite digits_value_from. Qed.

Lemma digits_value_app base a b : digits_value base (a ++ b) = digits_value base a * base ^ Z.of_nat (length b) + digits_value base b.
Proof. unfold digits_value at 1. rewrite fold_left_app. fold (digits_value base a). apply digits_value_from. Qed.

Lemma digits_value_range base ds : 0 < base -> digits_below base ds -> 0 <= digits_value base ds < base ^ Z.of_nat (length ds).
Proof.
  intros Hb. induction 1 as [|d ds Hd _ IH]; [cbn; lia|]. rewrite digits_value_cons. cbn [length]. rewrite Nat2Z.inj_succ, Z.pow_succ_r by lia. nia.
Qed.

(** The widths of the source lose nothing. *)
Lemma digit_step_spec d carry : 0 <= d < 62 -> 0 <= carry < 256 ->
  0 <= (digit_step d carry).1 < 62 /\ 0 <= (digit_step d carry).2 < 256 /\ (digit_step d carry).2 * 62 + (digit_step d carry).1 = d * 256 + carry.
Proof.
  intros Hd Hc. unfold digit_step, wrapping_add. cbn [fst snd]. rewrite (wrap_small 16 (d * 256)) by lia. rewrite (wrap_small 16) by lia.
  pose proof (Z.mod_pos_bound (d * 256 + carry) 62 ltac:(lia)). rewrite wrap_small by lia.
  pose proof (Z.div_mod (d * 256 + carry) 62 ltac:(lia)). pose proof (Z.div_pos (d * 256 + carry) 62 ltac:(lia) ltac:(lia)).
  split_and!; lia.
Qed.

Lemma push_byte_spec ds byte : digits_below 62 ds -> 0 <= byte < 256 ->
  digits_below 62 (push_byte ds byte).1 /\ length (push_byte ds byte).1 = length ds /\ 0 <= (push_byte ds byte).2 < 256 /\
  (push_byte ds byte).2 * 62 ^ Z.of_nat (length ds) + digits_value 62 (push_byte ds byte).1 = digits_value 62 ds * 256 + byte.
Proof.
  intros Hds Hb. induction Hds as [|d ds Hd Hds IH]; cbn [push_byte].
  - cbn [fst snd length]. split_and!; [constructor|done|lia..|]. cbn. lia.
  - destruct IH as (Hr & Hlen & Hc & Hv). destruct (digit_step_spec d (push_byte ds byte).2 Hd Hc) as (H1 & H2 & H3). cbn [fst snd].
    split; [by constructor|]. split; [cbn; by rewrite Hlen|]. split; [done|]. rewrite !digits_value_cons. cbn [length].
    rewrite Hlen, Nat2Z.inj_succ, Z.pow_succ_r by lia. nia.
Qed.

Lemma base62_digits_spec payload : digits_below 256 payload -> (length payload <= 20)%nat ->
  digits_below 62 (base62_digits payload) /\ length (base62_digits payload) = KSUID_ENCODED_LENGTH /\
  digits_value 62 (base62_digits payload) = digits_value 256 payload.
Proof.
  unfold base62_digits. induction payload as [|b payload IH] using rev_ind; intros Hp Hl.
  - split_and!; [|done..]. by repeat constructor.
  - apply Forall_app in Hp as [Hp Hb]. inversion Hb as [|? ? Hb' _]; subst. rewrite length_app in Hl. cbn in Hl.
    destruct (IH Hp ltac:(lia)) as (Hd & Hlen & Hv). rewrite fold_left_app. cbn [fold_left].
    set (ds := fold_left _ payload _) in *. destruct (push_byte_spec ds b Hd Hb') as (Hd' & Hlen' & Hc & Hv').
    split; [done|]. split; [by rewrite Hlen'|]. rewrite digits_value_app. cbn [length]. change (digits_value 256 [b]) with b.
    rewrite Hv, Hlen in Hv'. pose proof (digits_value_range 256 payload ltac:(lia) Hp) as Hr.
    pose proof (digits_value_range 62 _ ltac:(lia) Hd') as Hr'. rewrite Hlen', Hlen in Hr'.
    assert (H19 : 256 ^ Z.of_nat (length payload) <= 256 ^ 19) by (apply Z.pow_le_mono_r; lia).
    change (256 ^ Z.of_nat 1) with 256. change (62 ^ Z.of_nat KSUID_ENCODED_LENGTH) with (62 ^ 27) in *.
    assert (Hfit : 256 ^ 19 * 256 < 62 ^ 27) by (vm_compute; reflexivity).
    assert ((push_byte ds b).2 = 0) by nia. lia.
Qed.

(** ** KSUIDs as numbers and as texts *)

(** The value of a text over the alphabet. *)
Fixpoint index_of (c : ascii) (s : string) : option Z :=
  match s with
  | EmptyString => None
  | String a s => if bool_decide (a = c) then Some 0 else (fun i => i + 1) <$> index_of c s
  end.
Fixpoint text_value (v : Z) (s : string) : option Z :=
  match s with
  | EmptyString => Some v
  | String c s => index_of c KSUID_ALPHABET ≫= fun d => text_value (v * 62 + d) s
  end.

Definition ksuid_char (d : Z) : ascii := default "0"%char (String.get (Z.to_nat d) KSUID_ALPHABET).

(** Every digit has a character, the characters read back, and they are in the
    order of the digits. *)
Definition alphabet_ok : bool :=
  forallb (fun i => let d := Z.of_nat i in
    bool_decide (String.get i KSUID_ALPHABET = Some (ksuid_char d)) && bool_decide (index_of (ksuid_char d) KSUID_ALPHABET = Some d) &&
    forallb (fun j => Bool.eqb (N.ltb (Ascii.N_of_ascii (ksuid_char d)) (Ascii.N_of_ascii (ksuid_char (Z.of_nat j)))) (Nat.ltb i j)) (seq 0 62)) (seq 0 62).
Lemma alphabet_checked : alphabet_ok = true.
Proof. vm_compute. reflexivity. Qed.

Lemma alphabet_digit d : 0 <= d < 62 ->
  String.get (Z.to_nat d) KSUID_ALPHABET = Some (ksuid_char d) /\ index_of (ksuid_char d) KSUID_ALPHABET = Some d /\
  forall e, 0 <= e < 62 -> N.ltb (Ascii.N_of_ascii (ksuid_char d)) (Ascii.N_of_ascii (ksuid_char e)) = (d <? e).
Proof.
  intros Hd. pose proof alphabet_checked as Ha. unfold alphabet_ok in Ha. rewrite forallb_forall in Ha.
  specialize (Ha (Z.to_nat d) (proj2 (in_seq 62 0 (Z.to_nat d)) ltac:(lia))). cbv zeta in Ha. rewrite Z2Nat.id in Ha by lia.
  apply andb_true_iff in Ha as [[?%bool_decide_eq_true ?%bool_decide_eq_true]%andb_true_iff Ho]. split; [done|]. split; [done|].
  intros e He. rewrite forallb_forall in Ho. specialize (Ho (Z.to_nat e) (proj2 (in_seq 62 0 (Z.to_nat e)) ltac:(lia))).
  rewrite Z2Nat.id in Ho by lia. apply Bool.eqb_prop in Ho. rewrite Ho.
  destruct (Z.ltb_spec d e); [apply Nat.ltb_lt|apply Nat.ltb_ge]; lia.
Qed.

Lemma render_digits_spec ds : digits_below 62 ds ->
  exists s, render_digits ds = Ok s /\ String.length s = length ds /\ forall v, text_value v s = Some (v * 62 ^ Z.of_nat (length ds) + digits_value 62 ds).
Proof.
  induction 1 as [|d ds Hd _ (s & Hs & Hl & Hv)]; [exists ""; split_and!; [done..|]; intros v; cbn; f_equal; lia|].
  destruct (alphabet_digit d Hd) as (Hg & Hi & _). cbn [render_digits]. rewrite Hg, Hs. cbn [and_then]. eexists. split; [done|]. split; [cbn; by rewrite Hl|].
  intros v. cbn [text_value]. rewrite Hi. cbn [mbind option_bind]. rewrite Hv, digits_value_cons. cbn [length]. rewrite Nat2Z.inj_succ, Z.pow_succ_r by lia. f_equal. lia.
Qed.

(** Texts of equal length compare like the numbers they write. *)
Lemma render_order ds es s t : digits_below 62 ds -> digits_below 62 es -> length ds = length es ->
  render_digits ds = Ok s -> render_digits es = Ok t -> str_ltb s t = (digits_value 62 ds <? digits_value 62 es).
Proof.
  intros Hds. revert es s t. induction Hds as [|d ds Hd Hds IH]; intros es s t Hes Hl; destruct Hes as [|e es He Hes]; try done.
  - by intros [= <-] [= <-].
  - injection Hl as Hl. destruct (alphabet_digit d Hd) as (Hg & Hi & Ho). destruct (alphabet_digit e He) as (Hg' & Hi' & _).
    destruct (render_digits_spec ds Hds) as (s' & Hs' & _). destruct (render_digits_spec es Hes) as (t' & Ht' & _).
    cbn [render_digits]. rewrite Hg, Hg', Hs', Ht'. cbn [and_then]. intros [= <-] [= <-]. cbn [str_ltb]. rewrite (Ho e He).
    rewrite (IH es s' t' Hes Hl Hs' Ht'), !digits_value_cons, <-Hl.
    pose proof (digits_value_range 62 ds ltac:(lia) Hds). pose proof (digits_value_range 62 es ltac:(lia) Hes) as Hr. rewrite <-Hl in Hr.
    set (p := 62 ^ Z.of_nat (length ds)) in *.
    destruct (Z.ltb_spec d e); cbn [orb]; [symmetry; apply Z.ltb_lt; nia|].
    case_bool_decide as Hc; cbn [andb].
    + assert (d = e) as ->. { apply (f_equal Ascii.ascii_of_N) in Hc. rewrite !Ascii.ascii_N_embedding in Hc. congruence. }
      destruct (Z.ltb_spec (digits_value 62 ds) (digits_value 62 es)); symmetry; [apply Z.ltb_lt|apply Z.ltb_ge]; lia.
    + symmetry. apply Z.ltb_ge. assert (d <> e) by congruence. nia.
Qed.

Lemma be_bytes_spec ts : 0 <= ts <= u32_max -> digits_below 256 (be_bytes ts) /\ digits_value 256 (be_bytes ts) = ts.
Proof.
  intros Ht. unfold be_bytes, u32_max, wrap in *. rewrite !Z.shiftr_div_pow2 by lia. change (2 ^ 8) with 256. split.
  - repeat constructor; apply Z.mod_pos_bound; lia.
  - unfold digits_value. cbn [fold_left]. change (2 ^ 24) with (256 * (256 * 256)). change (2 ^ 16) with (256 * 256).
    rewrite <-!Z.div_div by lia. rewrite (Z.mod_small (ts / 256 / 256 / 256)) by (split; [|repeat (apply Z.div_lt_upper_bound; [lia|])]; repeat (apply Z.div_pos; [|lia]); lia).
    pose proof (Z.div_mod ts 256 ltac:(lia)). pose proof (Z.div_mod (ts / 256) 256 ltac:(lia)). pose proof (Z.div_mod (ts / 256 / 256) 256 ltac:(lia)). lia.
Qed.

(** KSUIDs are lossless and sorted by time.  For every 32-bit timestamp and
    16 random bytes the encoder yields 27 characters, no index or integer
    conversion fails, the text reads back to the timestamp followed by the
    bytes, and two texts compare byte by byte as their timestamps and then
    their random parts do. *)
Theorem ksuid_sorted_roundtrip ts random : 0 <= ts <= u32_max -> digits_below 256 random -> length random = 16%nat ->
  exists s, encode_ksuid ts random = Ok s /\ String.length s = 27%nat /\
    text_value 0 s = Some (ts * 2 ^ 128 + digits_value 256 random) /\
    forall ts' random' s', 0 <= ts' <= u32_max -> digits_below 256 random' -> length random' = 16%nat -> encode_ksuid ts' random' = Ok s' ->
      str_ltb s s' = (ts <? ts') || ((ts =? ts') && (digits_value 256 random <? digits_value 256 random')).
Proof.
  assert (Hpay : forall ts random, 0 <= ts <= u32_max -> digits_below 256 random -> length random = 16%nat ->
    digits_below 256 (be_bytes ts ++ random) /\ length (be_bytes ts ++ random) = 20%nat /\
    digits_value 256 (be_bytes ts ++ random) = ts * 2 ^ 128 + digits_value 256 random).
  { intros t r Ht Hr Hl. destruct (be_bytes_spec t Ht) as [Hb Hv]. split; [by apply Forall_app|]. split; [by rewrite length_app, Hl|].
    rewrite digits_value_app, Hv, Hl. done. }
  intros Ht Hr Hl. destruct (Hpay ts random Ht Hr Hl) as (Hp & Hpl & Hpv). unfold encode_ksuid.
  destruct (base62_digits_spec (be_bytes ts ++ random) Hp ltac:(lia)) as (Hd & Hdl & Hdv).
  destruct (render_digits_spec _ Hd) as (s & Hs & Hsl & Hsv). exists s. split; [done|]. split; [by rewrite Hsl, Hdl|].
  split; [by rewrite Hsv, Hdv, Hpv|].
  intros ts' random' s' Ht' Hr' Hl' Hs'. destruct (Hpay ts' random' Ht' Hr' Hl') as (Hp' & Hpl' & Hpv').
  destruct (base62_digits_spec (be_bytes ts' ++ random') Hp' ltac:(lia)) as (Hd' & Hdl' & Hdv').
  rewrite (render_order _ _ s s' Hd Hd' ltac:(by rewrite Hdl, Hdl') Hs Hs'), Hdv, Hdv', Hpv, Hpv'.
  pose proof (digits_value_range 256 random ltac:(lia) Hr) as Hb. pose proof (digits_value_range 256 random' ltac:(lia) Hr') as Hb'.
  rewrite Hl in Hb. rewrite Hl' in Hb'. change (256 ^ Z.of_nat 16) with (2 ^ 128) in *.
  set (p := 2 ^ 128) in *. set (a := digits_value 256 random) in *. set (b := digits_value 256 random') in *.
  destruct (Z.ltb_spec ts ts'); cbn [orb]; [apply Z.ltb_lt; nia|].
  destruct (Z.eqb_spec ts ts') as [->|]; cbn [andb]; [|apply Z.ltb_ge; nia].
  destruct (Z.ltb_spec a b); [apply Z.ltb_lt|apply Z.ltb_ge]; lia.
Qed.

Lemma ksuid_sorted_roundtrip_witness :
  exists s, encode_ksuid 95004740 (repeat 171 16) = Ok s /\ String.length s = 27%nat /\
    text_value 0 s = Some (95004740 * 2 ^ 128 + digits_value 256 (repeat 171 16)) /\
    (forall s', encode_ksuid 95004741 (repeat 0 16) = Ok s' -> str_ltb s s' = true).
Proof.
  assert (Hb : forall x n, 0 <= x < 256 -> digits_below 256 (repeat x n)) by (intros x n Hx; induction n; by constructor).
  destruct (ksuid_sorted_roundtrip 95004740 (repeat 171 16) ltac:(by vm_compute) ltac:(apply Hb; lia) eq_refl) as (s & Hs & Hl & Hv & Ho).
  exists s. split; [exact Hs|]. split; [exact Hl|]. split; [exact Hv|].
  assert (Ht : 0 <= 95004741 <= u32_max) by (split; vm_compute; discriminate).
  intros s' Hs'. exact (Ho 95004741 (repeat 0 16) s' Ht (Hb 0 16%nat ltac:(lia)) eq_refl Hs').
Defined.

(** The payload of all zero bytes pads to 27 zeros. *)
Example ksuid_zero : encode_ksuid 0 (repeat 0 16) = Ok "000000000000000000000000000".
Proof. vm_compute. reflexivity. Qed.

(** ** Nano IDs and the header *)

(** Every character of the alphabet answers to four of the 256 bytes. *)
Lemma nanoid_char_uniform c : In c (String.list_ascii_of_string NANOID_ALPHABET) ->
  length (List.filter (fun b => bool_decide (nanoid_char b = c)) (Z.of_nat <$> seq 0 256)) = 4%nat.
Proof.
  assert (Hall : forallb (fun c => Nat.eqb (length (List.filter (fun b => bool_decide (nanoid_char b = c)) (Z.of_nat <$> seq 0 256))) 4)
    (String.list_ascii_of_string NANOID_ALPHABET) = true) by (vm_compute; reflexivity).
  intros Hc. rewrite forallb_forall in Hall. by apply Nat.eqb_eq, Hall.
Qed.

Lemma get_nanoid_length random : String.length (get_nanoid random) = length random.
Proof. unfold get_nanoid. induction random as [|b l IH]; [done|]. rewrite fmap_cons, concat_cons. cbn [length]. rewrite <-IH. done. Qed.

(** An identifier the client sent is kept; otherwise the request carries the
    new one alone, and it is the one the context remembers. *)
Lemma request_filter_id `{HttpLaws} config rng req req' id : request_filter config rng req = Ok (req', id) ->
  (get_req_header_value req (header_name config) = Some id /\ req' = req) \/
  (get_req_header_value req (header_name config) = None /\ get_request_id config rng = Ok id /\
   headers_get_all (headers req') (header_name config) = [id] /\ method req' = method req /\ uri req' = uri req).
Proof.
  unfold request_filter. destruct (get_req_header_value _ _) as [s|]; [intros [= <- <-]; by left|].
  intros (i & Hi & (h & Hh & [= <- <-])%and_then_ok)%and_then_ok. right. split; [done|].
  destruct (get_request_id config rng) as [i'|e]; cbn in Hi; [|done]. injection Hi as ->. split; [done|]. cbn [headers method uri]. split; [|done].
  destruct (headers_append _ _ _) as [h'|] eqn:E; cbn in Hh; [|done]. injection Hh as ->.
  rewrite (get_all_append _ _ _ _ _ E), bool_decide_true by done. by rewrite get_all_remove, bool_decide_true by done.
Qed.

(** The default set of range identifiers has no J, and G twice. *)
Example default_char_set_uneven : contains_char "J" DEFAULT_CHAR_SET = false /\
  length (List.filter (fun c => bool_decide (c = "G")) (chars DEFAULT_CHAR_SET)) = 2%nat.
Proof. vm_compute. done. Qed.
