(* ===== verification/ProxyMirror.v ===== *)
(** * Request mirroring ([src/src/plugins/proxy_mirror.rs])

    The mirror target and its request, the bounded channel to the mirror task,
    and the shared resolver: concurrent callers that elect one lookup, wait for
    it and share its outcome, as a step function over their positions in
    [resolve_with].  Addresses and URIs are type classes, lookups and the clock
    are events. *)

From Stdlib Require Import ZArith Lia Ascii.
From stdpp Require Import base tactics gmap strings pretty option list.
From S2P Require Import Prelude Errors GraphStore Utf8 Hosts RequestVars AdminOps.

Open Scope Z_scope.

Definition MIRROR_QUEUE_CAPACITY : nat := 32.
Definition MAX_CONCURRENT_MIRRORS : Z := 64.
Definition MIRROR_DNS_CACHE_TTL : Duration := from_secs 60.
Definition MIRROR_DNS_STALE_GRACE : Duration := from_secs 300.

(** ** Configuration and the mirrored request *)

Inductive PathConcatMode : Type := Replace | Prefix.
#[export] Instance PathConcatMode_eq_dec : EqDecision PathConcatMode.
Proof. solve_decision. Defined.

Record PluginConfig : Type := { host : string; path : option string; path_concat_mode : PathConcatMode }.

Definition validate_path (path : option string) : ProxyResult unit :=
  match path with
  | Some p =>
    if negb (starts_with p "/") || bool_decide (String.length p = 1%nat) || contains_char "?" p || contains_char "&" p
    then Err (Validation "mirror path must match ^/[^?&]+$") else Ok ()
  | None => Ok ()
  end.

Record MirrorTarget : Type := { target_host : string; target_port : Z; tls : bool; sni : string }.

(** Accessors of [http::Uri] the target needs besides those of [HttpTypes]. *)
Class UriParts `{HttpTypes} : Type := {
  uri_has_authority : Uri -> bool;
  uri_port : Uri -> option Z;
}.

Section target.
Context `{UriParts}.

Definition parse_mirror_target (host : string) : ProxyResult MirrorTarget :=
  let? uri := map_err (fun e => Validation ("invalid mirror host '" +:+ host +:+ "': " +:+ e)) (uri_parse host) in
  if negb (uri_has_authority uri) || negb (bool_decide (uri_path uri = "/")) || bool_decide (is_Some (uri_query uri))
     || contains_char "#" host || ends_with_char "/"%char host
  then Err (Validation "mirror host must contain only scheme and authority (no path or query)")
  else
    let? scheme :=
      match uri_scheme uri with
      | Some other =>
        if bool_decide (other = "http") then Ok (false, 80)
        else if bool_decide (other = "https") then Ok (true, 443)
        else Err (Validation ("unsupported mirror scheme '" +:+ other +:+ "'; only http/https are supported"))
      | None => Err (Validation "mirror host must include a scheme (http:// or https://)")
      end in
    let? host_str := ok_or (Validation "mirror host is missing a hostname") (uri_host uri) in
    Ok {| target_host := host_str; target_port := default scheme.2 (uri_port uri); tls := scheme.1; sni := host_str |}.

(** The ratio's range check is over floats and is left out. *)
Definition PluginConfig_try_from (config : PluginConfig) : ProxyResult PluginConfig :=
  match parse_mirror_target (host config) with
  | Err _ => Err (ValidationStructured "")
  | Ok _ => let? _ := validate_path (path config) in Ok config
  end.

Definition create_proxy_mirror_plugin (cfg : PluginConfig) : ProxyResult (PluginConfig * MirrorTarget) :=
  let? config := PluginConfig_try_from cfg in
  let? target := parse_mirror_target (host config) in
  Ok (config, target).

Definition build_mirror_request (config : PluginConfig) (original : RequestHeader) : ProxyResult RequestHeader :=
  match path config with
  | None => Ok original
  | Some conf_path =>
    let query := match uri_query (uri original) with Some q => "?" +:+ q | None => "" end in
    let new_path :=
      match path_concat_mode config with
      | Replace => conf_path +:+ query
      | Prefix => conf_path +:+ uri_path (uri original) +:+ query
      end in
    let? new_uri := map_err (fun e => Validation ("failed to build mirror URI: " +:+ e)) (uri_parse new_path) in
    Ok {| method := method original; uri := new_uri; headers := headers original |}
  end.
End target.

(** ** The body channel

    The request's side of the bounded channel, its flag, and what the mirror
    task has taken out of it. *)

Inductive MirrorBody : Type := Chunk (bytes : string) (end_of_stream : bool) | Finish.

Record Channel : Type := { queue : list MirrorBody; open : bool; active : bool; received : list MirrorBody }.
#[export] Instance eta_Channel : Eta Channel := fun c => Build_Channel (queue c) (open c) (active c) (received c).
Definition channel_new : Channel := {| queue := []; open := true; active := true; received := [] |}.

Definition try_send (body : MirrorBody) (c : Channel) : Channel :=
  if negb (active c) then c
  else if negb (open c) || (MIRROR_QUEUE_CAPACITY <=? length (queue c))%nat then c <| active := false |>
  else c <| queue := (queue c ++ [body])%list |>.

(** What the body phase hands to the sender; the body itself is only read. *)
Definition mirrored (body : option string) (end_of_stream : bool) : option MirrorBody :=
  match body with
  | Some bytes => Some (Chunk bytes end_of_stream)
  | None => if end_of_stream then Some Finish else None
  end.
Definition request_body_filter (body : option string) (end_of_stream : bool) (c : option Channel) : option string * option Channel :=
  match c with
  | None => (body, None)
  | Some c => (body, Some match mirrored body end_of_stream with Some m => try_send m c | None => c end)
  end.

(** The task takes the next body, clears the flag when it stops, and drops its
    end of the channel. *)
Inductive ChannelEvent : Type := BodyPhase (body : option string) (end_of_stream : bool) | Receive | Deactivate | Close.

Definition channel_step (c : Channel) (e : ChannelEvent) : Channel :=
  match e with
  | BodyPhase body eos => default c (request_body_filter body eos (Some c)).2
  | Receive => match queue c with m :: q => if open c then c <| queue := q |> <| received := (received c ++ [m])%list |> else c | [] => c end
  | Deactivate => c <| active := false |>
  | Close => c <| open := false |> <| queue := [] |>
  end.

Definition sent (es : list ChannelEvent) : list MirrorBody :=
  omap (fun e => match e with BodyPhase body eos => mirrored body eos | _ => None end) es.

(** ** The shared resolver *)

Section resolver.
Context {Addr : Type} (target : MirrorTarget).

Record HttpPeer : Type := { peer_addr : Addr; peer_tls : bool; peer_sni : string }.
Definition HttpPeer_new (addr : Addr) : HttpPeer := {| peer_addr := addr; peer_tls := tls target; peer_sni := sni target |}.

Record MirrorDnsState : Type := { addr : option Addr; resolved_at : option Instant; last_error : option string }.

Definition cached_fresh (now : Instant) (state : MirrorDnsState) : option HttpPeer :=
  let fresh := match resolved_at state with Some t => duration_since now t <? MIRROR_DNS_CACHE_TTL | None => false end in
  if fresh then HttpPeer_new <$> addr state else None.

Definition stale_reuse (now : Instant) (state : MirrorDnsState) : option HttpPeer :=
  let within_grace :=
    match resolved_at state with Some t => duration_since now t <? MIRROR_DNS_CACHE_TTL + MIRROR_DNS_STALE_GRACE | None => false end in
  if negb within_grace then None else HttpPeer_new <$> addr state.

Abbreviation Outcome := (Result HttpPeer string).

(** Where a caller of [resolve_with] is.  A caller gives up control at the two
    awaits, [Looking] and [Parked]; every other position is followed by one
    access to shared state.  [Leaving] and [Waking] are the two halves of the
    flight's destructor, with the outcome, unless the future was dropped. *)
Inductive Position : Type :=
| Top                                     (* [cached_fresh] *)
| Electing                                (* [compare_exchange] *)
| Looking                                 (* leader: awaits the lookup *)
| Storing (answer : Result Addr string)   (* leader: writes the outcome *)
| Falling (error : string)                (* leader: [stale_reuse] *)
| Leaving (out : option Outcome)          (* leader: clears the flag *)
| Waking (out : option Outcome)           (* [notify_waiters] *)
| Registering                             (* follower: creates its [Notified] *)
| Registered (count : nat)                (* follower: reads the flag *)
| Parked (count : nat)                    (* follower: awaits the notification *)
| Woken                                   (* follower: [stale_reuse] *)
| Erring                                  (* follower: [last_error] *)
| Done (out : Outcome)
| Dropped
| Panicked.                               (* the lookup was taken twice *)

(** [has_lookup] is the [Option] around the one-shot lookup. *)
Record Caller : Type := { at_ : Position; has_lookup : bool }.

(** [notifications] counts the calls of [notify_waiters]: a [Notified] is ready
    once the count has moved since it was created.  [answers] and [errors]
    record what the lookups returned and when. *)
Record Resolver : Type := {
  state : MirrorDnsState; lookup_in_flight : bool; notifications : nat;
  clock : Instant; callers : list Caller;
  answers : list (Addr * Instant); errors : list string;
}.
#[export] Instance eta_Resolver : Eta Resolver := fun r =>
  Build_Resolver (state r) (lookup_in_flight r) (notifications r) (clock r) (callers r) (answers r) (errors r).
#[export] Instance eta_Caller : Eta Caller := fun c => Build_Caller (at_ c) (has_lookup c).

Definition MirrorResolver_new (now : Instant) : Resolver :=
  {| state := {| addr := None; resolved_at := None; last_error := None |}; lookup_in_flight := false; notifications := 0;
     clock := now; callers := []; answers := []; errors := [] |}.

Definition with_callers (l : list Caller) (r : Resolver) : Resolver := r <| callers := l |>.

(** One access to shared state, and where it leaves the caller. *)
Definition advance (c : Caller) (r : Resolver) : Caller * Resolver :=
  let goto p := (c <| at_ := p |>, r) in
  match at_ c with
  | Top => goto match cached_fresh (clock r) (state r) with Some peer => Done (Ok peer) | None => Electing end
  | Electing =>
    if lookup_in_flight r then goto Registering
    else if has_lookup c then ({| at_ := Looking; has_lookup := false |}, r <| lookup_in_flight := true |>)
    else (c <| at_ := Panicked |>, r <| lookup_in_flight := true |>)
  | Storing (Ok a) =>
    (c <| at_ := Leaving (Some (Ok (HttpPeer_new a))) |>,
     r <| state := {| addr := Some a; resolved_at := Some (clock r); last_error := None |} |> <| answers := (a, clock r) :: answers r |>)
  | Storing (Err e) =>
    (c <| at_ := Falling e |>,
     r <| state := {| addr := addr (state r); resolved_at := resolved_at (state r); last_error := Some e |} |> <| errors := e :: errors r |>)
  | Falling e => goto (Leaving (Some (ok_or e (stale_reuse (clock r) (state r)))))
  | Leaving out => (c <| at_ := Waking out |>, r <| lookup_in_flight := false |>)
  | Waking out => (c <| at_ := match out with Some out => Done out | None => Dropped end |>, r <| notifications := S (notifications r) |>)
  | Registering => goto (Registered (notifications r))
  | Registered n => goto (if lookup_in_flight r then Parked n else Top)
  | Parked n => goto (if (n <? notifications r)%nat then Woken else Parked n)
  | Woken => goto match stale_reuse (clock r) (state r) with Some peer => Done (Ok peer) | None => Erring end
  | Erring => goto match last_error (state r) with Some e => Done (Err e) | None => Top end
  | Looking | Done _ | Dropped | Panicked => (c, r)
  end.

(** A caller arrives, takes a step, gets the answer of its lookup, or is
    dropped while it awaits; time passes. *)
Inductive Event : Type := Call | Run (i : nat) | Answer (i : nat) (answer : Result Addr string) | DropCaller (i : nat) | Tick (d : Duration).

Definition with_caller (i : nat) (f : Caller -> Resolver -> Caller * Resolver) (r : Resolver) : Resolver :=
  match callers r !! i with
  | Some c => let s := f c r in with_callers (<[i := s.1]> (callers r)) s.2
  | None => r
  end.

Definition resolver_step (r : Resolver) (e : Event) : Resolver :=
  match e with
  | Call => with_callers (callers r ++ [{| at_ := Top; has_lookup := true |}])%list r
  | Run i => with_caller i advance r
  | Answer i answer => with_caller i (fun c r => (match at_ c with Looking => c <| at_ := Storing answer |> | _ => c end, r)) r
  | DropCaller i =>
    with_caller i (fun c r => (match at_ c with Looking => c <| at_ := Leaving None |> | Parked _ => c <| at_ := Dropped |> | _ => c end, r)) r
  | Tick d => r <| clock := clock r + Z.max 0 d |>
  end.
Definition resolver_run (now : Instant) (es : list Event) : Resolver := fold_left resolver_step es (MirrorResolver_new now).
End resolver.

(** ** The resolver's invariant *)

Section resolver_props.
Context {Addr : Type} (target : MirrorTarget).
Abbreviation Resolver := (@Resolver Addr).
Abbreviation Caller := (@Caller Addr).
Abbreviation step := (resolver_step target).

Definition holder (c : Caller) : bool := match at_ c with Looking | Storing _ | Falling _ | Leaving _ => true | _ => false end.
Definition waking (c : Caller) : bool := match at_ c with Waking _ => true | _ => false end.
Definition outcome_of (c : Caller) : option (Result HttpPeer string) :=
  match at_ c with Leaving out | Waking out => out | Done out => Some out | _ => None end.
Definition finished (c : Caller) : bool := match at_ c with Done _ | Dropped => true | _ => false end.

(** Positions after a caller's only turn as a leader. *)
Definition led (c : Caller) : bool := holder c || waking c || finished c.

Definition out_ok (r : Resolver) (out : Result HttpPeer string) : Prop :=
  match out with
  | Ok peer => exists a t, In (a, t) (answers r) /\ peer = HttpPeer_new target a
  | Err e => In e (errors r)
  end.

(** A parked caller is ready, or someone is going to wake it. *)
Definition wakes (r : Resolver) (n : nat) : Prop :=
  (n <= notifications r)%nat /\
  (n = notifications r -> lookup_in_flight r = true \/ exists j c, callers r !! j = Some c /\ waking c = true).

Definition caller_ok (r : Resolver) (c : Caller) : Prop :=
  at_ c <> Panicked /\ (has_lookup c = false -> led c = true) /\ (forall out, outcome_of c = Some out -> out_ok r out) /\
  match at_ c with
  | Registered n => (n <= notifications r)%nat
  | Parked n => wakes r n
  | Falling e => In e (errors r)
  | _ => True
  end.

Definition dns_ok (r : Resolver) : Prop :=
  (forall t, resolved_at (state r) = Some t -> t <= clock r) /\
  (forall a, addr (state r) = Some a -> exists t, resolved_at (state r) = Some t /\ In (a, t) (answers r)) /\
  (forall e, last_error (state r) = Some e -> In e (errors r)).

Definition holders (l : list Caller) : nat := length (List.filter holder l).
Definition flight (r : Resolver) : nat := if lookup_in_flight r then 1 else 0.

Record inv (r : Resolver) : Prop := {
  inv_flight : holders (callers r) = flight r;
  inv_callers : forall i c, callers r !! i = Some c -> caller_ok r c;
  inv_dns : dns_ok r;
}.

Lemma holders_insert l i c c' : l !! i = Some c ->
  (holders (<[i := c']> l) + (if holder c then 1 else 0) = holders l + (if holder c' then 1 else 0))%nat.
Proof.
  unfold holders. revert i. induction l as [|x l IH]; intros [|i]; cbn; try done.
  - intros [= ->]. destruct (holder c), (holder c'); cbn; lia.
  - intros Hi. specialize (IH i Hi). change (list_insert i c' l) with (<[i := c']> l). destruct (holder x); cbn [length]; [exact (f_equal S IH)|exact IH].
Qed.

Lemma holders_unique l i j c d : (holders l <= 1)%nat -> l !! i = Some c -> l !! j = Some d -> holder c = true -> holder d = true -> i = j.
Proof.
  assert (Hpos : forall l i c, l !! i = Some c -> holder c = true -> (1 <= holders l)%nat).
  { clear. unfold holders. induction l as [|x l IH]; intros [|i] c; cbn; try done.
    - intros [= ->] ->. cbn. lia.
    - intros Hi Hc. specialize (IH i c Hi Hc). destruct (holder x); cbn; lia. }
  revert i j. induction l as [|x l IH]; intros [|i] [|j]; cbn; try done; intros Hle Hi Hj Hc Hd.
  - injection Hi as ->. specialize (Hpos _ _ _ Hj Hd). unfold holders in *. cbn in Hle. rewrite Hc in Hle. cbn in Hle. lia.
  - injection Hj as ->. specialize (Hpos _ _ _ Hi Hc). unfold holders in *. cbn in Hle. rewrite Hd in Hle. cbn in Hle. lia.
  - f_equal. apply (IH i j); try done. unfold holders in *. cbn in Hle. destruct (holder x); cbn in Hle; lia.
Qed.

(** What a change of the shared state must keep for the other callers. *)
Record evolves (r r' : Resolver) : Prop := {
  ev_answers : incl (answers r) (answers r');
  ev_errors : incl (errors r) (errors r');
  ev_count : (notifications r <= notifications r')%nat;
}.

Lemma out_ok_evolves r r' out : evolves r r' -> out_ok r out -> out_ok r' out.
Proof. intros [Ha He _]. destruct out as [p|e]; cbn; [|apply He]. intros (a & t & Hin & ->). exists a, t. split; [by apply Ha|done]. Qed.

(** One caller moves, and the shared state with it. *)
Lemma replace_inv r r1 (i : nat) c c' : inv r -> callers r !! i = Some c -> evolves r r1 -> dns_ok r1 ->
  (flight r1 + (if holder c then 1 else 0) = flight r + (if holder c' then 1 else 0))%nat ->
  (notifications r1 = notifications r -> lookup_in_flight r = true \/ waking c = true -> lookup_in_flight r1 = true \/ waking c' = true) ->
  caller_ok (with_callers (<[i := c']> (callers r)) r1) c' ->
  inv (with_callers (<[i := c']> (callers r)) r1).
Proof.
  intros [Hf Hc Hd] Hi Hev Hd1 Hfl Hw Hc'. constructor.
  - change (holders (<[i := c']> (callers r)) = flight r1). pose proof (holders_insert (callers r) i c c' Hi) as Hh. lia.
  - intros j d Hj. change (<[i := c']> (callers r) !! j = Some d) in Hj. destruct (decide (i = j)) as [<-|Hne].
    { rewrite list_lookup_insert_eq in Hj by (by eapply lookup_lt_Some). injection Hj as <-. exact Hc'. }
    rewrite list_lookup_insert_ne in Hj by done. destruct (Hc j d Hj) as (Hp & Hl & Ho & Hat). split; [done|]. split; [done|].
    split; [intros out Hout; apply (out_ok_evolves r); [destruct Hev; by constructor|by apply Ho]|].
    destruct Hev as [Ha He Hn]. destruct (at_ d) eqn:E; try done.
    + by apply He.
    + change (count <= notifications r1)%nat. lia.
    + destruct Hat as [Hle Hwk].
      change ((count <= notifications r1)%nat /\
        (count = notifications r1 -> lookup_in_flight r1 = true \/ exists j c, <[i := c']> (callers r) !! j = Some c /\ waking c = true)).
      split; [lia|]. intros ->. destruct (decide (notifications r1 = notifications r)) as [Heq|]; [|lia]. 
      destruct (Hwk Heq) as [Hfg|(k & b & Hk & Hb)].
      * destruct (Hw Heq (or_introl Hfg)) as [?|Hw']; [by left|]. right. exists i, c'.
        rewrite list_lookup_insert_eq by (by eapply lookup_lt_Some). done.
      * destruct (decide (i = k)) as [<-|Hik].
        -- assert (b = c) as -> by congruence. destruct (Hw Heq (or_intror Hb)) as [?|Hw']; [by left|]. right. exists i, c'.
           rewrite list_lookup_insert_eq by (by eapply lookup_lt_Some). done.
        -- right. exists k, b. by rewrite list_lookup_insert_ne.
  - exact Hd1.
Qed.

Lemma evolves_refl (r : Resolver) : evolves r r.
Proof. constructor; [apply incl_refl..|lia]. Qed.

Lemma with_callers_same (r : Resolver) : with_callers (callers r) r = r.
Proof. by destruct r. Qed.

(** A caller moves and nothing shared changes. *)
Lemma goto_inv r (i : nat) c c' : inv r -> callers r !! i = Some c -> holder c = holder c' -> waking c = false ->
  caller_ok (with_callers (<[i := c']> (callers r)) r) c' -> inv (with_callers (<[i := c']> (callers r)) r).
Proof.
  intros Hr Hi Hh Hw Hc'. apply (replace_inv r r i c c'); try done.
  - apply evolves_refl.
  - apply Hr.
  - by rewrite Hh.
  - intros _ [?|?]; [by left|congruence].
Qed.

Lemma fresh_addr r peer : dns_ok r -> cached_fresh target (clock r) (state r) = Some peer ->
  exists a t, In (a, t) (answers r) /\ peer = HttpPeer_new target a /\ 0 <= clock r - t < MIRROR_DNS_CACHE_TTL.
Proof.
  intros (Ht & Ha & _). unfold cached_fresh. destruct (resolved_at (state r)) as [t|] eqn:Et; [|done].
  destruct (Z.ltb_spec (duration_since (clock r) t) MIRROR_DNS_CACHE_TTL) as [Hl|]; [|done]. unfold duration_since in Hl. specialize (Ht _ eq_refl).
  destruct (addr (state r)) as [a|] eqn:Ea; [|done]. cbn. intros [= <-]. destruct (Ha a eq_refl) as (t' & [= <-] & Hin).
  exists a, t. split; [done|]. split; [done|lia].
Qed.

Lemma stale_addr r peer : dns_ok r -> stale_reuse target (clock r) (state r) = Some peer ->
  exists a t, In (a, t) (answers r) /\ peer = HttpPeer_new target a /\ 0 <= clock r - t < MIRROR_DNS_CACHE_TTL + MIRROR_DNS_STALE_GRACE.
Proof.
  intros (Ht & Ha & _). unfold stale_reuse. destruct (resolved_at (state r)) as [t|] eqn:Et; [|done].
  destruct (Z.ltb_spec (duration_since (clock r) t) (MIRROR_DNS_CACHE_TTL + MIRROR_DNS_STALE_GRACE)) as [Hl|]; [|done]. unfold duration_since in Hl. specialize (Ht _ eq_refl).
  destruct (addr (state r)) as [a|] eqn:Ea; [|done]. cbn. intros [= <-]. destruct (Ha a eq_refl) as (t' & [= <-] & Hin).
  exists a, t. split; [done|]. split; [done|lia].
Qed.

Lemma advance_inv r (i : nat) c : inv r -> callers r !! i = Some c ->
  inv (with_callers (<[i := (advance target c r).1]> (callers r)) (advance target c r).2).
Proof.
  intros Hr Hi. pose proof (inv_callers r Hr i c Hi) as (Hp & Hl & Ho & Hat). pose proof (inv_dns r Hr) as Hd.
  assert (Hin : (i < length (callers r))%nat) by (by eapply lookup_lt_Some).
  destruct c as [p b]. cbn [at_ has_lookup] in *.
  assert (Hkeep : advance target {| at_ := p; has_lookup := b |} r = ({| at_ := p; has_lookup := b |}, r) ->
    inv (with_callers (<[i := (advance target {| at_ := p; has_lookup := b |} r).1]> (callers r)) (advance target {| at_ := p; has_lookup := b |} r).2)).
  { intros ->. cbn [fst snd]. rewrite list_insert_id by done. by rewrite with_callers_same. }
  destruct p as [| | |[a|e]|e|out|out| |n|n| | |out| |]; try (apply Hkeep; reflexivity); try done.
  all: try (assert (b = true) as -> by (destruct b; [done|]; specialize (Hl eq_refl); discriminate)).
  - (* Top *)
    cbn [advance at_ has_lookup fst snd]. eapply goto_inv; [done|exact Hi|by destruct (cached_fresh _ _ _)|done|].
    destruct (cached_fresh _ _ _) as [peer|] eqn:E; [|done]. split; [done|]. split; [done|]. split; [|done].
    intros out [= <-]. destruct (fresh_addr r peer Hd E) as (a & t & Ha & -> & _). by exists a, t.
  - (* Electing *)
    cbn [advance at_ has_lookup]. destruct (lookup_in_flight r) eqn:Ef; cbn [fst snd].
    + eapply goto_inv; [done|exact Hi|done..].
    + eapply replace_inv; [done|exact Hi|by constructor; [apply incl_refl..|]|exact Hd|unfold flight; rewrite Ef; done|by intros _ _; left|].
      split; [done|]. split; [done|]. split; [done|exact I].
  - (* Storing an address *)
    cbn [advance at_ has_lookup fst snd]. eapply replace_inv; [done|exact Hi|..].
    + constructor; [apply incl_tl, incl_refl|apply incl_refl|done].
    + destruct Hd as (H1 & H2 & H3). split; [intros t [= <-]; cbn; lia|]. split; [|done].
      intros a' [= <-]. exists (clock r). split; [done|by left].
    + done.
    + by intros _ [?|?]; [left|].
    + split; [done|]. split; [done|]. split; [|done]. intros out [= <-]. exists a, (clock r). split; [by left|done].
  - (* Storing an error *)
    cbn [advance at_ has_lookup fst snd]. eapply replace_inv; [done|exact Hi|..].
    + constructor; [apply incl_refl|apply incl_tl, incl_refl|done].
    + destruct Hd as (H1 & H2 & H3). split; [done|]. split; [done|]. intros e' [= <-]. by left.
    + done.
    + by intros _ [?|?]; [left|].
    + split; [done|]. split; [done|]. split; [done|by left].
  - (* Falling *)
    cbn [advance at_ has_lookup fst snd]. eapply goto_inv; [done|exact Hi|done|done|]. split; [done|]. split; [done|]. split; [|done].
    intros out [= <-]. destruct (stale_reuse _ _ _) as [peer|] eqn:E; [|exact Hat].
    destruct (stale_addr r peer Hd E) as (a & t & Ha & -> & _). by exists a, t.
  - (* Leaving *)
    cbn [advance at_ has_lookup fst snd]. eapply replace_inv; [done|exact Hi|by constructor; [apply incl_refl..|]|exact Hd| |by intros _ _; right|].
    + pose proof (inv_flight r Hr) as Hf. assert (Hone : (1 <= holders (callers r))%nat).
      { pose proof (holders_insert (callers r) i _ {| at_ := Top; has_lookup := b |} Hi) as Hh. cbn [holder at_] in Hh. lia. }
      unfold flight in *. destruct (lookup_in_flight r); [done|lia].
    + split; [done|]. split; [done|]. split; [|done]. intros o Hout. by apply Ho.
  - (* Waking *)
    cbn [advance at_ has_lookup fst snd]. eapply replace_inv; [done|exact Hi|by constructor; [apply incl_refl..|cbn; lia]|exact Hd|by destruct out|cbn; lia|].
    split; [by destruct out|]. split; [by destruct out|]. split; [|by destruct out]. intros o Hout. destruct out as [out|]; [|done]. by apply Ho.
  - (* Registering *)
    cbn [advance at_ has_lookup fst snd]. eapply goto_inv; [done|exact Hi|done|done|]. split; [done|]. split; [done|]. split; [done|]. cbn. lia.
  - (* Registered *)
    cbn [advance at_ has_lookup fst snd]. eapply goto_inv; [done|exact Hi|by destruct (lookup_in_flight r)|done|].
    destruct (lookup_in_flight r) eqn:Ef; [|done]. split; [done|]. split; [done|]. split; [done|]. split; [exact Hat|]. intros _. by left.
  - (* Parked *)
    cbn [advance at_ has_lookup fst snd]. destruct (Nat.ltb_spec n (notifications r)).
    + eapply goto_inv; [done|exact Hi|done..].
    + rewrite list_insert_id by done. by rewrite with_callers_same.
  - (* Woken *)
    cbn [advance at_ has_lookup fst snd]. eapply goto_inv; [done|exact Hi|by destruct (stale_reuse _ _ _)|done|].
    destruct (stale_reuse _ _ _) as [peer|] eqn:E; [|done]. split; [done|]. split; [done|]. split; [|done].
    intros out [= <-]. destruct (stale_addr r peer Hd E) as (a & t & Ha & -> & _). by exists a, t.
  - (* Erring *)
    cbn [advance at_ has_lookup fst snd]. eapply goto_inv; [done|exact Hi|by destruct (last_error _)|done|].
    destruct (last_error (state r)) as [e|] eqn:E; [|done]. split; [done|]. split; [done|]. split; [|done].
    intros out [= <-]. by apply (proj2 (proj2 Hd)).
Qed.

Lemma holders_app (l k : list Caller) : holders (l ++ k) = (holders l + holders k)%nat.
Proof. unfold holders. by rewrite List.filter_app, length_app. Qed.

Lemma call_inv (r : Resolver) : inv r -> inv (step r Call).
Proof.
  intros [Hf Hc Hd]. constructor; [|intros i c Hi|exact Hd].
  - change (holders (callers r ++ [{| at_ := Top; has_lookup := true |}]) = flight r). rewrite holders_app, Hf. cbn. lia.
  - change ((callers r ++ [{| at_ := Top; has_lookup := true |}]) !! i = Some c)%list in Hi.
    apply lookup_app_Some in Hi as [Hi|[_ Hi]].
    + destruct (Hc i c Hi) as (Hp & Hl & Ho & Hat). split; [done|]. split; [done|]. split; [exact Ho|].
      destruct (at_ c); try exact Hat. destruct Hat as [Hn Hw]. split; [exact Hn|]. intros Heq. destruct (Hw Heq) as [?|(j & d & Hj & Hdw)]; [by left|].
      right. exists j, d. split; [|done]. by apply lookup_app_l_Some.
    + apply list_lookup_singleton_Some in Hi as [_ <-]. by split_and!.
Qed.

Lemma tick_inv r (d : Duration) : inv r -> inv (step r (Tick d)).
Proof.
  intros [Hf Hc (H1 & H2 & H3)]. constructor; [exact Hf| |].
  - intros i c Hi. exact (Hc i c Hi).
  - split; [|done]. intros t Ht. cbn. specialize (H1 t Ht). lia.
Qed.

Lemma resolver_step_inv (r : Resolver) e : inv r -> inv (step r e).
Proof.
  intros Hr. destruct e as [|i|i answer|i|d]; [by apply call_inv| | | |by apply tick_inv].
  all: cbn [resolver_step]; unfold with_caller; destruct (callers r !! i) as [c|] eqn:Hi; [|done]; cbn [fst snd].
  - by apply advance_inv.
  - pose proof (inv_callers r Hr i c Hi) as (Hp & Hl & Ho & Hat). destruct c as [p b]. cbn [at_ has_lookup] in *.
    destruct p; try (rewrite list_insert_id by done; by rewrite with_callers_same).
    eapply goto_inv; [done|exact Hi|done..].
  - pose proof (inv_callers r Hr i c Hi) as (Hp & Hl & Ho & Hat). destruct c as [p b]. cbn [at_ has_lookup] in *.
    destruct p; try (rewrite list_insert_id by done; by rewrite with_callers_same); (eapply goto_inv; [done|exact Hi|done..]).
Qed.

Lemma resolver_run_inv now es : inv (resolver_run target now es).
Proof.
  unfold resolver_run. assert (H0 : inv (MirrorResolver_new now)) by (constructor; [done|done|by split_and!]).
  revert H0. generalize (MirrorResolver_new now : Resolver). induction es as [|e es IH]; intros r Hr; [done|]. cbn [fold_left]. by apply IH, resolver_step_inv.
Qed.

(** A caller that a step leaves where it is has nothing to do. *)
Lemma advance_moves (r : Resolver) (c : Caller) : at_ (advance target c r).1 = at_ c ->
  match at_ c with Looking | Done _ | Dropped | Panicked => True | Parked n => (notifications r <= n)%nat | _ => False end.
Proof.
  destruct c as [p b]. destruct p as [| | |[a|e]|e|out|out| |n|n| | |out| |]; cbn [advance at_ fst]; try done.
  - by destruct (cached_fresh _ _ _).
  - destruct (lookup_in_flight r); [done|]. by destruct b.
  - by destruct out.
  - by destruct (lookup_in_flight r).
  - by destruct (Nat.ltb_spec n (notifications r)).
  - by destruct (stale_reuse _ _ _).
  - by destruct (last_error _).
Qed.

Lemma stuck_caller (r : Resolver) (i : nat) (c : Caller) : step r (Run i) = r -> callers r !! i = Some c -> at_ (advance target c r).1 = at_ c.
Proof.
  cbn [resolver_step]. unfold with_caller. intros Hs Hi. rewrite Hi in Hs. apply (f_equal callers) in Hs.
  change (<[i := (advance target c r).1]> (callers r) = callers r) in Hs. apply (f_equal (fun l => l !! i)) in Hs.
  rewrite list_lookup_insert_eq, Hi in Hs by (by eapply lookup_lt_Some). congruence.
Qed.

Lemma holder_exists (l : list Caller) : (1 <= holders l)%nat -> exists (i : nat) c, l !! i = Some c /\ holder c = true.
Proof.
  induction l as [|x l IH]; unfold holders; cbn; [lia|]. destruct (holder x) eqn:E; [intros _; by exists 0%nat, x|].
  intros H1. destruct (IH H1) as (i & c & Hi & Hc). by exists (S i), c.
Qed.

(** No one is stranded: when no step changes anything and no lookup is under
    way, every caller has finished. *)
Lemma no_deadlock (r : Resolver) : inv r -> (forall i, step r (Run i) = r) -> (forall i c, callers r !! i = Some c -> at_ c <> Looking) ->
  forall (i : nat) c, callers r !! i = Some c -> finished c = true.
Proof.
  intros Hr Hstuck Hlook i c Hi.
  assert (Hquiet : forall (j : nat) d, callers r !! j = Some d -> holder d || waking d = false).
  { intros j d Hj. pose proof (advance_moves r d (stuck_caller r j d (Hstuck j) Hj)) as Hm. specialize (Hlook j d Hj).
    unfold holder, waking. by destruct (at_ d). }
  pose proof (advance_moves r c (stuck_caller r i c (Hstuck i) Hi)) as Hm. pose proof (inv_callers r Hr i c Hi) as (Hp & _ & _ & Hat).
  specialize (Hlook i c Hi). unfold finished. destruct (at_ c) as [| | |a|e|out|out| |n|n| | |out| |]; try done.
  destruct Hat as [Hn Hw]. destruct (Hw ltac:(lia)) as [Hf|(j & d & Hj & Hd)].
  - pose proof (inv_flight r Hr) as Hh. unfold flight in Hh. rewrite Hf in Hh. destruct (holder_exists (callers r) ltac:(lia)) as (j & d & Hj & Hd).
    specialize (Hquiet j d Hj). by rewrite Hd in Hquiet.
  - specialize (Hquiet j d Hj). rewrite Hd in Hquiet. by destruct (holder d).
Qed.

Lemma chosen_fresh (r : Resolver) (i : nat) (c : Caller) peer : inv r -> callers r !! i = Some c -> outcome_of c = None -> outcome_of (advance target c r).1 = Some (Ok peer) ->
  exists a t, In (a, t) (answers (advance target c r).2) /\ peer = HttpPeer_new target a /\ 0 <= clock r - t < MIRROR_DNS_CACHE_TTL + MIRROR_DNS_STALE_GRACE.
Proof.
  intros Hr Hi. pose proof (inv_dns r Hr) as Hd. destruct c as [p b]. unfold outcome_of.
  assert (Hgrace : 0 < MIRROR_DNS_STALE_GRACE /\ 0 < MIRROR_DNS_CACHE_TTL) by (split; vm_compute; reflexivity).
  destruct p as [| | |[a|e]|e|out|out| |n|n| | |out| |]; cbn [advance at_ fst snd]; try done.
  - destruct (cached_fresh _ _ _) as [p|] eqn:E; [|done]. intros _ [= <-]. destruct (fresh_addr r p Hd E) as (a & t & ? & ? & ?). exists a, t. split_and!; try done; lia.
  - destruct (lookup_in_flight r); [done|]. by destruct b.
  - intros _ [= <-]. exists a, (clock r). split; [by left|]. split; [done|lia].
  - intros _. destruct (stale_reuse _ _ _) as [p|] eqn:E; [|done]. intros [= <-]. by apply stale_addr.
  - intros ->. done.
  - intros ->. done.
  - by destruct (lookup_in_flight r).
  - by destruct (Nat.ltb_spec n (notifications r)).
  - intros _. destruct (stale_reuse _ _ _) as [p|] eqn:E; [|done]. intros [= <-]. by apply stale_addr.
  - by destruct (last_error _).
Qed.

(** One lookup, and no one stranded.  Whatever callers of the shared
    resolver do, in whatever order they are scheduled, answered or dropped: at
    most one of them leads a lookup, and the one-shot lookup is never taken
    twice; an outcome is an address some lookup returned, no older than the
    cache time and the grace together when it was chosen, or an error some
    lookup reported; and once no lookup is under way every caller can go on
    until it has finished: no notification is lost. *)
Theorem resolver_single_flight now es : let r := resolver_run target now es in
  (forall (i j : nat) c d, callers r !! i = Some c -> callers r !! j = Some d -> holder c = true -> holder d = true -> i = j) /\
  (forall (i : nat) c, callers r !! i = Some c -> at_ c <> Panicked /\
     (forall out, outcome_of c = Some out -> out_ok r out) /\
     (forall peer, outcome_of c = None -> outcome_of (advance target c r).1 = Some (Ok peer) ->
        exists a t, In (a, t) (answers (advance target c r).2) /\ peer = HttpPeer_new target a /\
          0 <= clock r - t < MIRROR_DNS_CACHE_TTL + MIRROR_DNS_STALE_GRACE)) /\
  ((forall i, step r (Run i) = r) -> (forall (i : nat) c, callers r !! i = Some c -> at_ c <> Looking) ->
     forall (i : nat) c, callers r !! i = Some c -> finished c = true).
Proof.
  intros r. pose proof (resolver_run_inv now es : inv r) as Hr. clearbody r. split_and!.
  - intros i j c d. apply holders_unique. rewrite (inv_flight r Hr). unfold flight. destruct (lookup_in_flight r); lia.
  - intros i c Hi. destruct (inv_callers r Hr i c Hi) as (Hp & _ & Ho & _). split; [done|]. split; [exact Ho|]. intros peer. by apply (chosen_fresh r i).
  - by apply no_deadlock.
Qed.
End resolver_props.

(** A toy target for runs of the resolver. *)
Definition demo_target : MirrorTarget := {| target_host := "mirror.internal"; target_port := 9797; tls := false; sni := "mirror.internal" |}.
Definition two_callers : list (@Event string) := [Call; Call; Run 0; Run 0; Run 1; Run 1; Run 1; Run 1].

Lemma resolver_single_flight_witness :
  callers (resolver_run demo_target 0 two_callers) !! 1%nat = Some {| at_ := Parked 0; has_lookup := true |} /\
  holder (Addr := string) {| at_ := Parked 0; has_lookup := true |} = false.
Proof.
  destruct (resolver_single_flight demo_target 0 two_callers) as [Hone _]. split; [reflexivity|].
  destruct (holder _) eqn:E; [|reflexivity].
  discriminate (Hone 0%nat 1%nat {| at_ := Looking; has_lookup := false |} {| at_ := Parked 0; has_lookup := true |} eq_refl eq_refl eq_refl E).
Defined.

(** The follower parks, and shares the answer the leader got. *)
Example followers_share :
  @at_ string <$> callers (resolver_run demo_target 0 (two_callers ++ [Answer 0 (Ok "10.0.0.9"); Run 0; Run 0; Run 0; Run 1; Run 1])) =
  repeat (Done (Ok (HttpPeer_new demo_target "10.0.0.9"))) 2.
Proof. reflexivity. Qed.

(** After a lookup failed, a second flight is cancelled: its follower is told
    the first flight's error, though no lookup of its own flight failed. *)
Example cancelled_flight_reports_old_error :
  @at_ string <$> callers (resolver_run demo_target 0 ([Call; Run 0; Run 0; Answer 0 (Err "mirror target DNS lookup failed"); Run 0; Run 0; Run 0; Run 0] ++
     [Call; Call; Run 1; Run 1; Run 2; Run 2; Run 2; Run 2; DropCaller 1; Run 1; Run 1; Run 2; Run 2; Run 2])) =
  [Done (Err "mirror target DNS lookup failed"); Dropped; Done (Err "mirror target DNS lookup failed")] /\
  @errors string (resolver_run demo_target 0 ([Call; Run 0; Run 0; Answer 0 (Err "mirror target DNS lookup failed"); Run 0; Run 0; Run 0; Run 0] ++
     [Call; Call; Run 1; Run 1; Run 2; Run 2; Run 2; Run 2; DropCaller 1; Run 1; Run 1; Run 2; Run 2; Run 2])) =
  (["mirror target DNS lookup failed"] : list string).
Proof. split; reflexivity. Qed.

(** ** The mirrored body and request *)

Definition channel_run (es : list ChannelEvent) : Channel := fold_left channel_step es channel_new.

Lemma sent_snoc es e : sent (es ++ [e]) = (sent es ++ match e with BodyPhase body eos => option_list (mirrored body eos) | _ => [] end)%list.
Proof. unfold sent. rewrite omap_app. f_equal. destruct e as [body eos| | |]; [|done..]. cbn. by destruct (mirrored body eos). Qed.

(** The mirror never receives a body with a hole: what it took and what still
    waits are the first bodies sent, all of them while nothing was refused, and
    no more than the queue holds wait. *)
Theorem mirror_no_holes es : let c := channel_run es in
  (exists lost, sent es = received c ++ queue c ++ lost)%list /\ (length (queue c) <= MIRROR_QUEUE_CAPACITY)%nat /\
  (active c = true -> open c = true -> sent es = (received c ++ queue c)%list).
Proof.
  cbv zeta. enough (Hgen : (exists lost, sent es = received (channel_run es) ++ queue (channel_run es) ++ lost /\
      (active (channel_run es) = true -> open (channel_run es) = true -> lost = []) /\ (open (channel_run es) = false -> queue (channel_run es) = []))%list /\
    (length (queue (channel_run es)) <= MIRROR_QUEUE_CAPACITY)%nat).
  { destruct Hgen as [(lost & Hs & Hl & _) Hq]. split; [by exists lost|]. split; [done|]. intros Ha Ho. rewrite Hs, (Hl Ha Ho), app_nil_r. done. }
  induction es as [|e es IH] using rev_ind; [split; [by exists []|cbn; lia]|].
  unfold channel_run in *. rewrite fold_left_app, sent_snoc. cbn [fold_left]. destruct IH as [(lost & Hs & Hl & Hc) Hq].
  set (c := fold_left channel_step es channel_new) in *. clearbody c. rewrite Hs. destruct e as [body eos| | |].
  - cbn [channel_step request_body_filter snd default Datatypes.id]. destruct (mirrored body eos) as [m|]; cbn [option_list]; [|rewrite app_nil_r; split; [by exists lost|done]].
    unfold try_send. destruct (active c) eqn:Ha; cbn [negb].
    + destruct (open c) eqn:Ho; cbn [negb orb].
      * rewrite (Hl eq_refl eq_refl). destruct (Nat.leb_spec MIRROR_QUEUE_CAPACITY (length (queue c))); cbn.
        -- split; [|done]. exists [m]. rewrite app_nil_r, <-app_assoc. split; [done|]. split; [done|]. by rewrite Ho.
        -- split; [|rewrite length_app; cbn; lia]. exists []. rewrite !app_nil_r, <-app_assoc. split; [done|]. split; [done|]. by rewrite Ho.
      * cbn. split; [|done]. exists (lost ++ [m])%list. rewrite <-!app_assoc. split; [done|]. split; [done|]. intros _. by apply Hc.
    + split; [|done]. exists (lost ++ [m])%list. rewrite <-!app_assoc. split; [done|]. split; [congruence|done].
  - rewrite app_nil_r. cbn [channel_step]. destruct (queue c) as [|m q] eqn:Eq; [rewrite Eq; split; [by exists lost|cbn; lia]|].
    destruct (open c) eqn:Ho; [|by specialize (Hc eq_refl)]. cbn [received queue open active update_field]. cbn. split; [|cbn in Hq; lia].
    exists lost. rewrite <-!app_assoc. split; [done|]. split; [intros Ha _; by apply Hl|]. by rewrite Ho.
  - rewrite app_nil_r. cbn. split; [|done]. by exists lost.
  - rewrite app_nil_r. cbn. split; [|lia]. exists (queue c ++ lost)%list. by split_and!.
Qed.

Lemma primary_body_untouched body eos c : (request_body_filter body eos c).1 = body.
Proof. by destruct c. Qed.

Section request.
Context `{UriParts} `{!HttpLaws}.

Lemma validated_path p : validate_path (Some p) = Ok () -> starts_with p "/" = true /\ contains_char "?" p = false.
Proof.
  unfold validate_path. destruct (starts_with p "/"); [|done]. destruct (contains_char "?" p); [|done]. by rewrite !orb_true_r.
Qed.

Lemma contains_app_false c a b : contains_char c a = false -> contains_char c b = false -> contains_char c (a +:+ b) = false.
Proof. intros Ha Hb. by rewrite contains_char_app, Ha, Hb. Qed.

(** The mirrored request differs in its path alone. *)
Lemma mirror_request_spec cfg original m p : validate_path (path cfg) = Ok () -> path cfg = Some p -> contains_char "#" p = false ->
  build_mirror_request cfg original = Ok m ->
  method m = method original /\ headers m = headers original /\ uri_query (uri m) = uri_query (uri original) /\
  uri_path (uri m) = match path_concat_mode cfg with Replace => p | Prefix => p +:+ uri_path (uri original) end.
Proof.
  intros Hv Hp Hh. rewrite Hp in Hv. destruct (validated_path p Hv) as [Hs Hq]. unfold build_mirror_request. rewrite Hp.
  intros (u & Hu & [= <-])%and_then_ok. cbn [method headers uri]. split; [done|]. split; [done|].
  destruct (uri_path_chars (uri original)) as [Hoq Hoh].
  set (np := match path_concat_mode cfg with Replace => p | Prefix => p +:+ uri_path (uri original) end).
  assert (Hnp : starts_with np "/" = true /\ contains_char "?" np = false /\ contains_char "#" np = false).
  { unfold np. destruct (path_concat_mode cfg); [done|]. split; [|split; by apply contains_app_false].
    apply starts_with_spec in Hs as [r ->]. by rewrite str_app_assoc, starts_with_app. }
  destruct Hnp as (Hn1 & Hn2 & Hn3).
  assert (Hparse : uri_parse (np +:+ match uri_query (uri original) with Some q => "?" +:+ q | None => "" end) = Ok u).
  { unfold np. destruct (path_concat_mode cfg); rewrite ?str_app_assoc; by destruct (uri_parse _) as [?|?]; cbn in Hu; [injection Hu as ->|]. }
  destruct (uri_query (uri original)) as [q|] eqn:Eq.
  - destruct (uri_parse_query np q u Hn1 Hn2 Hn3 (uri_query_chars _ _ Eq) Hparse) as [-> ->]. done.
  - rewrite str_app_nil_r in Hparse. destruct (uri_parse_path np u Hn1 Hn2 Hn3 Hparse) as [-> ->]. done.
Qed.
End request.
