(* ===== verification/LocalPlugins.v ===== *)
(** * Small plugins ([src/src/plugins])

    Blocking by URI ([uri_blocker.rs]), injected faults ([fault_injection.rs]),
    the configuration of the exit transformer ([exit_transformer.rs]), response
    wrapping ([echo.rs]) and the compression settings ([compression.rs],
    [gzip.rs], [brotli.rs]).  Regular expressions, JSON text and floating-point
    seconds are type classes; random draws are arguments. *)

From Stdlib Require Import ZArith Lia Ascii.
From stdpp Require Import base tactics gmap strings pretty option list.
From S2P Require Import Prelude Errors GraphStore Utf8 Json Hosts RequestVars Limiting Pipeline Cache ResponseRewrite IpRestriction Rewrite.

Open Scope Z_scope.

(** ** [uri_blocker.rs] *)

Module UriBlocker.

(** A pattern with its case flag, and the unanchored search. *)
Class SearchRegex : Type := {
  Matcher : Type;
  matcher_build : string -> bool -> Result Matcher string;
  is_match : Matcher -> string -> bool;
}.

Record PluginConfig : Type := {
  block_rules : list string;
  rejected_code : Z;
  rejected_msg : option string;
  case_insensitive : bool;
}.

Fixpoint first_duplicate (seen : list string) (rules : list string) : option string :=
  match rules with
  | [] => None
  | rule :: rules => if bool_decide (rule ∈ seen) then Some rule else first_duplicate (rule :: seen) rules
  end.

Definition bad_length (rule : string) : bool := negb (between 1 4096 (char_count rule)).

Definition PluginConfig_try_from (config : PluginConfig) : ProxyResult PluginConfig :=
  if negb (negb (bool_decide (block_rules config = [])) && between 200 599 (rejected_code config) &&
           match rejected_msg config with Some m => negb (bool_decide (m = "")) | None => true end)
  then Err (ValidationStructured "")
  else match List.find bad_length (block_rules config) with
  | Some rule => Err (Validation ("uri-blocker block_rules entries must be between 1 and 4096 characters, got " +:+ pretty (char_count rule)))
  | None =>
    match first_duplicate [] (block_rules config) with
    | Some rule => Err (Validation ("uri-blocker block_rules contains duplicate rule '" +:+ rule +:+ "'"))
    | None => Ok config
    end
  end.

Section blocker.
Context `{SearchRegex} `{JsonText} `{HttpTypes}.

Definition compile_matcher (self : PluginConfig) : ProxyResult Matcher :=
  let alternation := String.concat "|" ((fun rule => "(?:" +:+ rule +:+ ")") <$> block_rules self) in
  map_err (fun e => Validation ("Invalid uri-blocker block_rules regex: " +:+ e)) (matcher_build alternation (case_insensitive self)).

Definition create_uri_blocker_plugin (cfg : PluginConfig) : ProxyResult (PluginConfig * Matcher) :=
  let? config := PluginConfig_try_from cfg in
  let? matcher := compile_matcher config in
  Ok (config, matcher).

Definition request_uri (req : RequestHeader) : string := default "" (uri_path_and_query (uri req)).

Definition request_filter (self : PluginConfig * Matcher) (req : RequestHeader) : FilterVerdict :=
  if is_match self.2 (request_uri req) then
    let rejection := Rejection_new (if between 100 999 (rejected_code self.1) then rejected_code self.1 else 403) in
    Reject match rejected_msg self.1 with
           | Some msg => with_content_type "application/json" (with_body (json_field "error_msg" msg) rejection)
           | None => rejection
           end
  else Continue.
End blocker.

Lemma first_duplicate_none seen rules : first_duplicate seen rules = None -> NoDup rules /\ forall r, r ∈ rules -> r ∉ seen.
Proof.
  revert seen. induction rules as [|r l IH]; intros seen; cbn [first_duplicate]; [split; [constructor|set_solver]|].
  case_bool_decide as Hin; [done|]. intros Hd. destruct (IH _ Hd) as [Hn Hs]. split; [|set_solver].
  constructor; [|done]. intros Hr. specialize (Hs r Hr). set_solver.
Qed.

(** The rules of an accepted configuration are distinct, not empty and at most
    4096 characters long. *)
Lemma accepted_block_rules cfg c : PluginConfig_try_from cfg = Ok c ->
  c = cfg /\ block_rules cfg <> [] /\ NoDup (block_rules cfg) /\ Forall (fun r => 1 <= char_count r <= 4096) (block_rules cfg).
Proof.
  unfold PluginConfig_try_from. destruct (negb _) eqn:E; [done|]. destruct (List.find bad_length _) eqn:Ef; [done|].
  destruct (first_duplicate [] _) eqn:Ed; [done|]. intros [= <-]. split; [done|]. split.
  { intros Hb. by rewrite Hb in E. }
  split; [by apply (first_duplicate_none [])|]. apply Forall_forall. intros r Hr. pose proof (List.find_none _ _ Ef r (proj1 (list_elem_of_In _ _) Hr)) as Hb.
  unfold bad_length, between in Hb. apply negb_false_iff, andb_true_iff in Hb as [?%Z.leb_le ?%Z.leb_le]. lia.
Qed.
End UriBlocker.

(** ** [fault_injection.rs] *)

Module FaultInjection.

(** Seconds as the [f64] of the configuration, and
    [Duration::from_secs_f64], which panics on what it cannot hold. *)
Class Seconds : Type := {
  F64 : Type;
  non_negative : F64 -> bool;
  from_secs_f64 : F64 -> option Duration;
  json_display : Json -> string;
}.

Section faults.
Context `{Seconds} `{HeaderNames}.

Record DelayConfig : Type := { duration : F64; delay_percentage : option Z; delay_vars : option (list (list Json)) }.
(** The headers are the entries of a hash map in the order of iteration. *)
Record AbortConfig : Type := {
  http_status : Z; abort_body : option string; abort_headers : option (list (string * Json));
  abort_percentage : option Z; abort_vars : option (list (list Json));
}.
Record PluginConfig : Type := { delay : option DelayConfig; abort : option AbortConfig }.

Definition percentage_ok (p : option Z) : bool := match p with Some p => p <=? 100 | None => true end.
Definition derived_validate (config : PluginConfig) : bool :=
  match delay config with Some d => non_negative (duration d) && percentage_ok (delay_percentage d) | None => true end &&
  match abort config with Some a => (200 <=? http_status a) && percentage_ok (abort_percentage a) | None => true end.

Definition rendered (value : Json) : string := match value with JString s => s | other => json_display other end.

Definition check_header (nv : string * Json) : ProxyResult unit :=
  match nv.2 with
  | JString _ | JNumber _ =>
    if negb (header_name_valid nv.1) then Err (Validation ("fault injection abort header name '" +:+ nv.1 +:+ "' is invalid"))
    else if negb (header_value_valid (rendered nv.2)) then Err (Validation ("fault injection abort header value for '" +:+ nv.1 +:+ "' is invalid"))
    else Ok ()
  | _ => Err (Validation ("fault injection abort header '" +:+ nv.1 +:+ "' must be a JSON string or number"))
  end.

Definition has_vars (vars : option (list (list Json))) : bool := match vars with Some (_ :: _) => true | _ => false end.

Definition PluginConfig_try_from (config : PluginConfig) : ProxyResult PluginConfig :=
  if negb (derived_validate config) then Err (ValidationStructured "")
  else if negb (bool_decide (is_Some (delay config))) && negb (bool_decide (is_Some (abort config)))
  then Err (PluginError "At least one of 'delay' or 'abort' must be configured")
  else
    let? _ := match abort config ≫= abort_headers with
              | Some [] => Err (Validation "fault injection abort.headers must not be empty")
              | Some headers => try_each check_header headers
              | None => Ok ()
              end in
    if has_vars (delay config ≫= delay_vars) then Err (Validation "fault-injection delay.vars uses var expressions, which are not supported")
    else if has_vars (abort config ≫= abort_vars) then Err (Validation "fault-injection abort.vars uses var expressions, which are not supported")
    else Ok config.

(** [draw] is uniform in 1..=100. *)
Definition sample_hit (percentage : option Z) (draw : Z) : bool := match percentage with None => true | Some pct => draw <=? pct end.

(** The time slept, if any. *)
Definition apply_delay (self : PluginConfig) (draw : Z) : Result (option Duration) (Stop unit) :=
  match delay self with
  | Some d =>
    if sample_hit (delay_percentage d) draw then
      match from_secs_f64 (duration d) with
      | Some t => Ok (Some t)
      | None => Err (Panic "can not convert float seconds to Duration: value is either too big or NaN")
      end
    else Ok None
  | None => Ok None
  end.

Definition add_header (r : Rejection) (nv : string * Json) : Rejection :=
  match nv.2 with
  | JString _ | JNumber _ | JBool _ => with_headers [(nv.1, rendered nv.2)] r
  | _ => r
  end.

Definition abort_rejection (a : AbortConfig) : Rejection :=
  let status := if between 100 999 (http_status a) then http_status a else 500 in
  let rejection := with_content_type "text/plain" (with_body (default "" (abort_body a)) (Rejection_new status)) in
  match abort_headers a with Some headers => fold_left add_header headers rejection | None => rejection end.

Definition check_and_abort (self : PluginConfig) (draw : Z) : option FilterVerdict :=
  match abort self with
  | Some a => if sample_hit (abort_percentage a) draw then Some (Reject (abort_rejection a)) else None
  | None => None
  end.

Definition request_filter (self : PluginConfig) (delay_draw abort_draw : Z) : Result (option Duration * FilterVerdict) (Stop unit) :=
  let? slept := apply_delay self delay_draw in
  Ok (slept, default Continue (check_and_abort self abort_draw)).

(** A percentage is the number of draws, out of the hundred, that hit. *)
Lemma sample_hit_rate pct : 0 <= pct <= 100 ->
  Z.of_nat (length (List.filter (fun d => sample_hit (Some pct) (Z.of_nat d)) (seq 1 100))) = pct.
Proof.
  intros Hp. cbn [sample_hit].
  assert (Hgen : forall n, (n <= 100)%nat -> Z.of_nat (length (List.filter (fun d => Z.of_nat d <=? pct) (seq 1 n))) = Z.min (Z.of_nat n) pct).
  { induction n as [|n IH]; intros Hn; [cbn; lia|]. rewrite seq_S, List.filter_app, length_app, Nat2Z.inj_add, IH by lia. cbn [List.filter].
    destruct (Z.leb_spec (Z.of_nat (1 + n)) pct); cbn [length]; lia. }
  rewrite Hgen by lia. lia.
Qed.

Lemma check_header_ok nv : check_header nv = Ok () ->
  header_name_valid nv.1 = true /\ header_value_valid (rendered nv.2) = true /\ (exists r', forall r, add_header r nv = with_headers [(nv.1, r')] r).
Proof.
  unfold check_header, add_header. destruct nv as [n [| | | | |]]; cbn [fst snd]; try done;
    destruct (header_name_valid n), (header_value_valid _); cbn [negb]; try done; intros _; split_and!; try done; by eexists.
Qed.

Lemma fold_headers headers r : Forall (fun nv => check_header nv = Ok ()) headers ->
  let r' := fold_left add_header headers r in
  rejection_headers r' = (rejection_headers r ++ ((fun nv => (nv.1, rendered nv.2)) <$> headers))%list /\
  status r' = status r /\ body r' = body r /\ content_type r' = content_type r.
Proof.
  revert r. induction headers as [|nv l IH]; intros r Hf; cbn [fold_left]; [cbn; by rewrite app_nil_r|].
  inversion Hf as [|? ? Hnv Hl]; subst. destruct (IH (add_header r nv) Hl) as (-> & -> & -> & ->).
  unfold add_header. unfold check_header in Hnv. destruct nv as [n [| | | | |]]; cbn [fst snd] in *; try done; (split; [cbn; by rewrite <-app_assoc|done]).
Qed.

(** An accepted configuration aborts with its status and body, and with exactly
    the headers it lists, none of which the response writer can refuse. *)
Theorem accepted_abort config a : PluginConfig_try_from config = Ok config -> abort config = Some a -> http_status a <= 999 ->
  let r := abort_rejection a in
  status r = http_status a /\ body r = Some (default "" (abort_body a)) /\
  rejection_headers r = ((fun nv => (nv.1, rendered nv.2)) <$> default [] (abort_headers a)) /\
  Forall (fun nv => header_name_valid nv.1 = true /\ header_value_valid nv.2 = true) (rejection_headers r).
Proof.
  intros Hc Ha Hs. unfold PluginConfig_try_from in Hc. destruct (derived_validate config) eqn:Ed; [|done]. cbn [negb] in Hc.
  destruct (negb _ && negb _); [done|]. unfold derived_validate in Ed. rewrite Ha in *.
  assert (H200 : 200 <= http_status a).
  { apply andb_true_iff in Ed as [_ [?%Z.leb_le _]%andb_true_iff]. done. }
  cbn [mbind option_bind] in Hc. apply and_then_ok in Hc as ([] & Hh & _).
  assert (Hstatus : between 100 999 (http_status a) = true) by (unfold between; apply andb_true_iff; split; apply Z.leb_le; lia).
  unfold abort_rejection. rewrite Hstatus. destruct (abort_headers a) as [headers|]; cbn [default Datatypes.id]; [|by split_and!; try constructor].
  assert (Hf : Forall (fun nv => check_header nv = Ok ()) headers) by (destruct headers; [done|by apply try_each_forall]).
  destruct (fold_headers headers (with_content_type "text/plain" (with_body (default "" (abort_body a)) (Rejection_new (http_status a)))) Hf) as (-> & -> & -> & _).
  split; [done|]. split; [done|]. split; [done|]. cbn [app rejection_headers]. apply Forall_fmap. eapply Forall_impl; [exact Hf|].
  intros nv Hnv. cbn. by destruct (check_header_ok nv Hnv) as (? & ? & _).
Qed.
End faults.
End FaultInjection.

(** ** [exit_transformer.rs] *)

Module ExitTransformer.

(** Header maps are ordered by name. *)
Record RuleConfig : Type := { rule_codes : list Z; rule_status : option Z; rule_body_text : option string; rule_header_map : list (string * string) }.
Record PluginConfig : Type := { rules : list RuleConfig }.

Definition rule_ok (rule : RuleConfig) : bool :=
  negb (bool_decide (rule_codes rule = [])) && match rule_status rule with Some s => between 100 599 s | None => true end.

Definition check_name (name : string) : ProxyResult unit :=
  if eq_ignore_ascii_case name "content-length" then Err (Validation "exit-transformer must not set Content-Length; the gateway owns framing")
  else if eq_ignore_ascii_case name "transfer-encoding" then Err (Validation "exit-transformer must not set Transfer-Encoding; the gateway owns framing")
  else Ok ().

Definition PluginConfig_try_from (config : PluginConfig) : ProxyResult PluginConfig :=
  if bool_decide (rules config = []) || negb (forallb rule_ok (rules config)) then Err (ValidationStructured "")
  else
    let? _ := try_each (fun rule => try_each check_name (rule_header_map rule).*1) (rules config) in
    Ok config.

Definition compile (self : PluginConfig) : ExitTransform :=
  {| exit_rules := (fun rule => {| Pipeline.codes := rule_codes rule; Pipeline.status_code := rule_status rule; Pipeline.rule_body := rule_body_text rule;
                                   Pipeline.rule_headers := rule_header_map rule |}) <$> rules self |}.

Definition create_exit_transformer_plugin (cfg : PluginConfig) : ProxyResult ExitTransform :=
  let? config := PluginConfig_try_from cfg in Ok (compile config).

Lemma accepted_rules cfg t rule : create_exit_transformer_plugin cfg = Ok t -> rule ∈ exit_rules t ->
  codes rule <> [] /\ match Pipeline.status_code rule with Some s => 100 <= s <= 599 | None => True end /\
  Forall (fun nv => is_framing_header nv.1 = false) (rule_headers rule).
Proof.
  unfold create_exit_transformer_plugin, PluginConfig_try_from. intros (c & Hc & [= <-])%and_then_ok.
  destruct (_ || _) eqn:E; [done|]. apply orb_false_iff in E as [_ Hok%negb_false_iff].
  apply and_then_ok in Hc as ([] & Hn & [= <-]). cbn [exit_rules compile]. intros (rc & -> & Hin)%list_elem_of_fmap. cbn [codes Pipeline.status_code rule_headers].
  rewrite forallb_forall in Hok. specialize (Hok rc (proj1 (list_elem_of_In _ _) Hin)). unfold rule_ok in Hok. apply andb_true_iff in Hok as [Hcodes Hst].
  split; [by bool_to_prop|]. split.
  { destruct (rule_status rc); [|done]. unfold between in Hst. apply andb_true_iff in Hst as [?%Z.leb_le ?%Z.leb_le]. lia. }
  apply try_each_forall in Hn. rewrite Forall_forall in Hn. specialize (Hn rc Hin). cbn in Hn. apply try_each_forall in Hn.
  apply Forall_fmap in Hn. eapply Forall_impl; [exact Hn|]. intros nv Hnv. cbn in Hnv. unfold check_name in Hnv. unfold is_framing_header.
  destruct (eq_ignore_ascii_case nv.1 "content-length"); [done|]. by destruct (eq_ignore_ascii_case nv.1 "transfer-encoding").
Qed.

(** Every header an accepted rule lists is on the transformed response: the
    writer's own check for framing headers drops none of them. *)
Lemma rule_header_kept cfg t rule body request_id resolved nv : create_exit_transformer_plugin cfg = Ok t -> rule ∈ exit_rules t -> In nv (rule_headers rule) ->
  eq_ignore_ascii_case nv.1 "content-type" = false ->
  In (nv.1, substitute_exit_vars nv.2 (r_status resolved) body request_id) (r_headers (apply_rule_header body request_id resolved nv)).
Proof.
  intros Hc Hr Hin Hct. destruct (accepted_rules _ _ _ Hc Hr) as (_ & _ & Hf). rewrite Forall_forall in Hf. specialize (Hf nv (proj2 (list_elem_of_In _ _) Hin)).
  unfold apply_rule_header. rewrite Hct, Hf. cbn. apply in_or_app. right. by left.
Qed.
End ExitTransformer.

(** ** [echo.rs] *)

Module Echo.

Record PluginConfig : Type := {
  before_body : option string;
  replace_body : option string;
  after_body : option string;
  headers_map : list (string * HeaderValue);
}.

Definition modifies_body (self : PluginConfig) : bool :=
  bool_decide (is_Some (before_body self)) || bool_decide (is_Some (replace_body self)) || bool_decide (is_Some (after_body self)).

Definition replacement_body (self : PluginConfig) : string :=
  default "" (before_body self) +:+ default "" (replace_body self) +:+ default "" (after_body self).

Definition PluginConfig_try_from (config : PluginConfig) : ProxyResult PluginConfig :=
  if modifies_body config then Ok config
  else Err (Validation "at least one of 'before_body', 'body', or 'after_body' must be configured").

(** What the plugin keeps of one request, under the keys of the instance. *)
Record State : Type := { skip_body : bool; before_emitted : bool }.
#[export] Instance eta_State : Eta State := fun s => Build_State (skip_body s) (before_emitted s).

Definition process_body_chunk (self : PluginConfig) (body : option string) (end_of_stream : bool) (st : State) : option string * State :=
  if skip_body st then (body, st)
  else if bool_decide (is_Some (replace_body self)) then (Some (if end_of_stream then replacement_body self else ""), st)
  else
    match body with
    | Some chunk =>
      let '(chunk, st) :=
        match before_body self with
        | Some prefix => if negb (before_emitted st) then (prefix +:+ chunk, st <| before_emitted := true |>) else (chunk, st)
        | None => (chunk, st)
        end in
      let chunk := match after_body self with Some suffix => if end_of_stream then chunk +:+ suffix else chunk | None => chunk end in
      (Some chunk, st)
    | None =>
      if end_of_stream then
        let '(out, st) :=
          match before_body self with
          | Some prefix => if negb (before_emitted st) then (prefix, st <| before_emitted := true |>) else ("", st)
          | None => ("", st)
          end in
        (Some (out +:+ default "" (after_body self)), st)
      else (Some "", st)
    end.

Definition response_body_filter (self : PluginConfig) (was_upgraded : bool) (body : option string) (end_of_stream : bool) (st : State) : option string * State :=
  if was_upgraded then (body, st) else process_body_chunk self body end_of_stream st.

Section header.
Context `{HttpTypes} (header_ok : string -> string -> Result unit string).

Definition response_filter (self : PluginConfig) (session : Session) (is_http2 : bool) (resp : ResponseHeader) (st : State)
    : Result (ResponseHeader * State) string :=
  if is_informational_response resp then Ok (resp, st)
  else
    let? out :=
      (if modifies_body self then
         if is_compressed resp || is_bodyless session resp then Ok (resp, st <| skip_body := true |>)
         else let? resp := clear_body_modified_headers header_ok is_http2 resp in Ok (resp, st)
       else Ok (resp, st)) in
    let? hs := try_fold (fun hs nv => insert_header header_ok nv.1 (render nv.2) hs) (resp_headers out.1) (headers_map self) in
    Ok (out.1 <| resp_headers := hs |>, out.2).
End header.

Fixpoint body_stream (self : PluginConfig) (st : State) (chunks : list (option string)) : list (option string) :=
  match chunks with
  | [] => []
  | c :: rest =>
    let r := response_body_filter self false c (match rest with [] => true | _ => false end) st in
    r.1 :: body_stream self r.2 rest
  end.

(** What is still to be written before the rest of the body. *)
Definition pending (self : PluginConfig) (st : State) : string := if before_emitted st then "" else default "" (before_body self).

Lemma wrapped_stream self st chunks : skip_body st = false -> replace_body self = None -> chunks <> [] ->
  joined (body_stream self st chunks) = pending self st +:+ joined chunks +:+ default "" (after_body self).
Proof.
  intros Hs Hr. revert st Hs. induction chunks as [|c l IH]; intros st Hs; [done|]. intros _. cbn [body_stream]. rewrite !joined_cons.
  unfold response_body_filter, process_body_chunk at 1 2. rewrite Hs, Hr. cbn [bool_decide].
  rewrite (bool_decide_false (is_Some None)) by (by intros [? ?]).
  destruct l as [|d l].
  - cbn [body_stream]. change (joined []) with "". unfold pending. destruct c as [c|], (before_body self) as [p|], (after_body self) as [a|], (before_emitted st);
      cbn [negb fst snd default Datatypes.id String.append]; by rewrite ?str_app_nil_r, ?str_app_assoc.
  - assert (Hne : d :: l <> []) by done. destruct c as [c|].
    + destruct (before_body self) as [p|] eqn:Eb.
      * destruct (before_emitted st) eqn:Ee; cbn [negb fst snd].
        -- destruct (after_body self) as [a|] eqn:Ea; cbn [fst snd default Datatypes.id]; rewrite (IH st Hs Hne); unfold pending; rewrite Ee; by rewrite ?str_app_assoc.
        -- destruct (after_body self) as [a|] eqn:Ea; cbn [fst snd default Datatypes.id]; match goal with |- context [body_stream self ?s (d :: l)] => rewrite (IH s Hs Hne) end; unfold pending; cbn [before_emitted];
             rewrite Ee, Eb; cbn; by rewrite ?str_app_assoc.
      * destruct (after_body self) as [a|] eqn:Ea; cbn [fst snd default Datatypes.id]; rewrite (IH st Hs Hne); unfold pending; rewrite Eb; cbn; destruct (before_emitted st); by rewrite ?str_app_assoc.
    + cbn [fst snd default Datatypes.id String.append]. by rewrite (IH st Hs Hne).
Qed.

(** A body is wrapped once, whatever its chunks, or replaced as a whole. *)
Theorem echoed_body self chunks : chunks <> [] -> let out := body_stream self {| skip_body := false; before_emitted := false |} chunks in
  joined out = match replace_body self with
               | Some _ => replacement_body self
               | None => default "" (before_body self) +:+ joined chunks +:+ default "" (after_body self)
               end.
Proof.
  intros Hne. cbv zeta. destruct (replace_body self) as [b|] eqn:Er; [|by rewrite wrapped_stream].
  assert (Hstep : forall c eos st, skip_body st = false -> response_body_filter self false c eos st = (Some (if eos then replacement_body self else ""), st)).
  { intros c eos st Hs. unfold response_body_filter, process_body_chunk. by rewrite Hs, Er, bool_decide_true by done. }
  induction chunks as [|c l IH]; [done|]. cbn [body_stream]. rewrite Hstep by done. cbn [fst snd]. rewrite joined_cons.
  destruct l as [|d l]; [cbn; apply str_app_nil_r|]. by rewrite IH.
Qed.
End Echo.

(** ** [compression.rs], [gzip.rs], [brotli.rs] *)

Module Compression.

Inductive Algorithm : Type := Gzip | Brotli.

(** [RawConfig] as serde reads it, and the setters of Pingora's response
    compression module. *)
Class CompressionLib : Type := {
  read_raw : Json -> Result (option Z * bool) string;
  Module_ : Type;
  adjust_algorithm_level : Module_ -> Algorithm -> Z -> Module_;
  adjust_decompression : Module_ -> bool -> Module_;
}.

Record ParsedConfig : Type := { comp_level : Z; decompression : bool }.

Definition UNSUPPORTED : list string := ["types"; "min_length"; "http_version"; "buffers"; "vary"; "mode"; "lgwin"; "lgblock"].

Section compression.
Context `{CompressionLib}.

Definition parse_config (cfg : Json) (plugin_label : string) (min_level max_level : Z) : ProxyResult ParsedConfig :=
  match List.find (fun field => bool_decide (is_Some (json_get field cfg))) UNSUPPORTED with
  | Some field => Err (Validation (plugin_label +:+ " field '" +:+ field +:+ "' is not supported by Pingora 0.8 response compression"))
  | None =>
    let? raw := map_err (fun e => serialization_error ("Invalid " +:+ plugin_label +:+ " plugin config") e) (read_raw cfg) in
    let comp_level := default 1 raw.1 in
    if negb (between min_level max_level comp_level)
    then Err (Configuration (plugin_label +:+ " comp_level must be in " +:+ pretty min_level +:+ "..=" +:+ pretty max_level +:+ ", got " +:+ pretty comp_level))
    else Ok {| comp_level := comp_level; decompression := raw.2 |}
  end.

Record CompressionPlugin : Type := { name : string; priority : Z; algorithm : Algorithm; level : Z; inflate : bool }.

Definition build (name : string) (priority : Z) (algorithm : Algorithm) (cfg : Json) (plugin_label : string) (min_level max_level : Z) : ProxyResult CompressionPlugin :=
  let? parsed := parse_config cfg plugin_label min_level max_level in
  Ok {| name := name; priority := priority; algorithm := algorithm; level := comp_level parsed; inflate := decompression parsed |}.

Definition create_gzip_plugin (cfg : Json) : ProxyResult CompressionPlugin := build "gzip" 995 Gzip cfg "gzip" 0 9.
Definition create_brotli_plugin (cfg : Json) : ProxyResult CompressionPlugin := build "brotli" 996 Brotli cfg "brotli" 0 11.

Definition early_request_filter (self : CompressionPlugin) (resp_compression : option Module_) : option Module_ :=
  (fun m => adjust_decompression (adjust_algorithm_level m (algorithm self) (level self)) (inflate self)) <$> resp_compression.

(** The accepted levels are those of the algorithm. *)
Lemma compression_levels cfg p : (create_gzip_plugin cfg = Ok p -> 0 <= level p <= 9 /\ algorithm p = Gzip) /\
  (create_brotli_plugin cfg = Ok p -> 0 <= level p <= 11 /\ algorithm p = Brotli).
Proof.
  assert (Hb : forall n pr a label lo hi, build n pr a cfg label lo hi = Ok p -> lo <= level p <= hi /\ algorithm p = a).
  { intros n pr a label lo hi. unfold build, parse_config. intros (c & Hc & [= <-])%and_then_ok. cbn [level algorithm].
    destruct (List.find _ _); [done|]. apply and_then_ok in Hc as (raw & _ & Hc). destruct (between lo hi _) eqn:E; cbn [negb] in Hc; [|done].
    injection Hc as <-. unfold between in E. apply andb_true_iff in E as [?%Z.leb_le ?%Z.leb_le]. cbn. split; [lia|done]. }
  split; apply Hb.
Qed.
End compression.
End Compression.

(** ** Examples *)

(** Whole seconds, of which a [Duration] holds up to [u64::MAX]. *)
Module ToySeconds.
#[export] Instance seconds : FaultInjection.Seconds := {
  F64 := Z;
  non_negative s := 0 <=? s;
  from_secs_f64 s := if between 0 u64_max s then Some (from_secs s) else None;
  json_display j := match j with JNumber (NInt z) => pretty z | _ => "" end;
}.
#[export] Instance names : HeaderNames := {
  header_name_valid n := negb (bool_decide (n = ""));
  header_value_valid _ := true;
  method_valid m := negb (bool_decide (m = ""));
}.
End ToySeconds.
Import ToySeconds.

Definition teapot : FaultInjection.AbortConfig := {|
  FaultInjection.http_status := 418; FaultInjection.abort_body := Some "short and stout";
  FaultInjection.abort_headers := Some [("x-retry", JNumber (NInt 3))]; FaultInjection.abort_percentage := Some 25; FaultInjection.abort_vars := None |}.
Definition faults : FaultInjection.PluginConfig := {| FaultInjection.delay := None; FaultInjection.abort := Some teapot |}.

Lemma accepted_abort_witness :
  FaultInjection.PluginConfig_try_from faults = Ok faults /\ rejection_headers (FaultInjection.abort_rejection teapot) = [("x-retry", "3")].
Proof.
  assert (E : FaultInjection.PluginConfig_try_from faults = Ok faults) by reflexivity. split; [exact E|].
  exact (proj1 (proj2 (proj2 (FaultInjection.accepted_abort faults teapot E eq_refl ltac:(vm_compute; discriminate))))).
Defined.

(** A delay of 10^20 seconds is accepted, and panics on every request. *)
Example accepted_delay_panics :
  let config := {| FaultInjection.delay := Some {| FaultInjection.duration := 10 ^ 20 : @FaultInjection.F64 seconds;
                     FaultInjection.delay_percentage := None; FaultInjection.delay_vars := None |}; FaultInjection.abort := None |} in
  FaultInjection.PluginConfig_try_from config = Ok config /\
  forall d a, FaultInjection.request_filter config d a = Err (Panic "can not convert float seconds to Duration: value is either too big or NaN").
Proof. split; [reflexivity|]. intros d a. vm_compute. reflexivity. Qed.

(** A status of four digits is accepted and answers 500. *)
Example accepted_status_replaced :
  let a := {| FaultInjection.http_status := 1000; FaultInjection.abort_body := None; FaultInjection.abort_headers := None;
              FaultInjection.abort_percentage := None; FaultInjection.abort_vars := None |} in
  let config := {| FaultInjection.delay := None; FaultInjection.abort := Some a |} in
  FaultInjection.PluginConfig_try_from config = Ok config /\ status (FaultInjection.abort_rejection a) = 500.
Proof. split; reflexivity. Qed.
