(* ===== verification/AiTransform.v ===== *)
(** * Request bodies of language models ([src/src/plugins/ai_proxy])

    The provider table ([provider.rs]) and the pure body transformation
    ([transform.rs]): validation of the chat shape, the deep merge of options,
    the forced token limit and the conversion to Anthropic's messages.  Reading
    and printing JSON is a type class. *)

From Stdlib Require Import ZArith Lia Ascii.
From stdpp Require Import base tactics gmap strings pretty option list.
From S2P Require Import Prelude Errors GraphStore Utf8 Json Hosts Config RequestBodies.

Open Scope Z_scope.

(** ** Providers *)

Inductive Provider : Type := Openai | OpenaiCompatible | Deepseek | Anthropic.
#[export] Instance Provider_eq_dec : EqDecision Provider.
Proof. solve_decision. Defined.

Definition provider_as_str (self : Provider) : string :=
  match self with Openai => "openai" | OpenaiCompatible => "openai-compatible" | Deepseek => "deepseek" | Anthropic => "anthropic" end.

Inductive MaxTokensField : Type := MaxCompletionTokens | MaxTokens.

Record ProviderSpec : Type := {
  default_endpoint : option string;
  chat_path : string;
  max_tokens_field : MaxTokensField;
  content_type : string;
}.

Definition provider_spec (provider : Provider) : ProviderSpec :=
  match provider with
  | Openai => {| default_endpoint := Some "https://api.openai.com/v1/chat/completions"; chat_path := "/v1/chat/completions";
                 max_tokens_field := MaxCompletionTokens; content_type := "application/json" |}
  | OpenaiCompatible => {| default_endpoint := None; chat_path := "/v1/chat/completions"; max_tokens_field := MaxTokens; content_type := "application/json" |}
  | Deepseek => {| default_endpoint := Some "https://api.deepseek.com/chat/completions"; chat_path := "/chat/completions";
                   max_tokens_field := MaxTokens; content_type := "application/json" |}
  | Anthropic => {| default_endpoint := Some "https://api.anthropic.com/v1/messages"; chat_path := "/v1/messages";
                    max_tokens_field := MaxTokens; content_type := "application/json" |}
  end.

(** ** Errors *)

Inductive TransformError : Type :=
| InvalidJson (message : string)
| MissingField (field : string)
| BadMessagesShape (message : string)
| InvalidField (message : string).

Definition detail (self : TransformError) : string :=
  match self with
  | InvalidJson message => message
  | MissingField field => "request body is missing required field '" +:+ field +:+ "'"
  | BadMessagesShape message => message
  | InvalidField message => message
  end.

(** ** Validation *)

Definition is_object (v : Json) : bool := match v with JObject _ => true | _ => false end.
Definition is_string (v : Json) : bool := match v with JString _ => true | _ => false end.
Definition is_boolean (v : Json) : bool := match v with JBool _ => true | _ => false end.
Definition is_null (v : Json) : bool := match v with JNull => true | _ => false end.
Definition as_array (v : Json) : option (list Json) := match v with JArray l => Some l | _ => None end.
Definition as_u64 (v : Json) : option Z := match v with JNumber (NInt z) => if between 0 u64_max z then Some z else None | _ => None end.

Definition message_at (index : nat) : string := "messages[" +:+ pretty (Z.of_nat index) +:+ "]".

Definition validate_message (index : nat) (message : Json) : Result unit TransformError :=
  match message with
  | JObject object =>
    match obj_get "role" object ≫= as_str with
    | None => Err (BadMessagesShape (message_at index +:+ ".role must be a string"))
    | Some role =>
      if bool_decide (role = "") then Err (BadMessagesShape (message_at index +:+ ".role must not be empty"))
      else match obj_get "content" object ≫= as_str with
           | None => Err (BadMessagesShape (message_at index +:+ ".content must be a string"))
           | Some _ => Ok ()
           end
    end
  | _ => Err (BadMessagesShape (message_at index +:+ " must be an object"))
  end.

Fixpoint validate_messages (index : nat) (array : list Json) : Result unit TransformError :=
  match array with
  | [] => Ok ()
  | message :: array => let? _ := validate_message index message in validate_messages (S index) array
  end.

Definition validate_messages_shape (body : Json) : Result unit TransformError :=
  match json_get "messages" body with
  | None => Err (MissingField "messages")
  | Some messages =>
    match as_array messages with
    | None => Err (BadMessagesShape "messages must be an array")
    | Some [] => Err (BadMessagesShape "messages must contain at least one message")
    | Some array => validate_messages 0 array
    end
  end.

(** An integer of at least one. *)
Definition positive_u64 (v : Json) : bool := match as_u64 v with Some tokens => 1 <=? tokens | None => false end.

Definition validate_limit (body : Json) (field : string) : Result unit TransformError :=
  match json_get field body with
  | Some value => if positive_u64 value then Ok () else Err (InvalidField ("'" +:+ field +:+ "' must be an integer >= 1"))
  | None => Ok ()
  end.

Definition validate_field_types (body : Json) : Result unit TransformError :=
  let? _ := match json_get "stream" body with
            | Some stream => if is_boolean stream then Ok () else Err (InvalidField "'stream' must be a boolean")
            | None => Ok ()
            end in
  let? _ := validate_limit body "max_tokens" in
  validate_limit body "max_completion_tokens".

Definition validate_anthropic_requirements (body : Fields) : Result unit TransformError :=
  let? _ := match obj_get "model" body with
            | Some model => if is_string model then Ok () else Err (InvalidField "'model' must be a string")
            | None => Err (MissingField "model")
            end in
  let? _ := match obj_get "max_tokens" body with
            | Some max_tokens => if positive_u64 max_tokens then Ok () else Err (InvalidField "'max_tokens' must be an integer >= 1")
            | None => Err (MissingField "max_tokens")
            end in
  match obj_get "messages" body ≫= as_array with
  | Some (_ :: _) => Ok ()
  | _ => Err (BadMessagesShape "messages must contain at least one non-system message")
  end.

(** ** The merge *)

(** Patch entries in key order: objects recurse, everything else replaces. *)
Fixpoint deep_merge (target patch : Json) {struct patch} : Json :=
  match target, patch with
  | JObject target_map, JObject patch_map =>
    JObject ((fix go (m : Fields) (l : list (string * Json)) : Fields :=
      match l with
      | [] => m
      | (key, patch_value) :: l =>
        go match obj_get key m with
           | Some target_value =>
             if is_object target_value && is_object patch_value then obj_set key (deep_merge target_value patch_value) m
             else obj_insert key patch_value m
           | None => obj_insert key patch_value m
           end l
      end) target_map patch_map)
  | _, patch_value => patch_value
  end.

Definition apply_max_tokens (body : Json) (max_tokens : Z) (provider : Provider) : Json :=
  match body with
  | JObject object =>
    JObject match max_tokens_field (provider_spec provider) with
            | MaxCompletionTokens => obj_remove "max_tokens" (obj_insert "max_completion_tokens" (JNumber (NInt max_tokens)) object)
            | MaxTokens => obj_insert "max_tokens" (JNumber (NInt max_tokens)) object
            end
  | _ => body
  end.

(** ** Anthropic *)

(** System texts and the other messages, in order. *)
Fixpoint split_messages (index : nat) (array : list Json) : Result (list string * list Json) TransformError :=
  match array with
  | [] => Ok ([], [])
  | message :: array =>
    match json_get "role" message ≫= as_str, json_get "content" message ≫= as_str with
    | Some role, Some content =>
      if bool_decide (role = "system") then
        let? r := split_messages (S index) array in Ok (content :: r.1, r.2)
      else if bool_decide (role = "user") || bool_decide (role = "assistant") then
        let? r := split_messages (S index) array in
        Ok (r.1, JObject (obj_insert "content" (JString content) [("role", JString role)]) :: r.2)
      else Err (BadMessagesShape (message_at index +:+ ".role '" +:+ role +:+ "' is not supported by provider anthropic (supported: system, user, assistant)"))
    | Some _, None => Err (BadMessagesShape (message_at index +:+ ".content must be a string"))
    | None, _ => Err (BadMessagesShape (message_at index +:+ ".role must be a string"))
    end
  end.

(** [filter(|value| !value.is_null())] *)
Definition present (field : string) (body : Json) : option Json :=
  match json_get field body with Some v => if is_null v then None else Some v | None => None end.
Definition copy_field (body : Json) (out : Fields) (field : string) : Fields :=
  match present field body with Some v => obj_insert field v out | None => out end.

Definition convert_to_anthropic (body : Json) : Result Fields TransformError :=
  let? parts := match json_get "messages" body ≫= as_array with Some array => split_messages 0 array | None => Ok ([], []) end in
  let out := copy_field body [] "model" in
  let out := match parts.1 with [] => out | system_parts => obj_insert "system" (JString (String.concat (str2 "010" "010") system_parts)) out end in
  let out := obj_insert "messages" (JArray parts.2) out in
  let out := match (match present "max_tokens" body with Some v => Some v | None => present "max_completion_tokens" body end) with
             | Some v => obj_insert "max_tokens" v out
             | None => out
             end in
  let out := fold_left (copy_field body) ["stream"; "temperature"; "top_p"; "top_k"] out in
  Ok match present "stop" body with Some v => obj_insert "stop_sequences" v out | None => out end.

(** ** The transformation *)

Class JsonBytes : Type := {
  json_from_slice : string -> Result Json string;
  json_to_vec : Json -> Result string string;
}.

Record TransformedRequest : Type := { out_body : string; streaming : bool }.

(** The client's body with the options merged and the limit forced. *)
Definition merged_body (client : Json) (options : option Json) (max_tokens : option Z) (provider : Provider) : Json :=
  let body := match options with Some o => if is_object o then deep_merge client o else client | None => client end in
  match max_tokens with Some n => apply_max_tokens body n provider | None => body end.

(** The value that is printed. *)
Definition transform_value (client : Json) (options : option Json) (max_tokens : option Z) (provider : Provider) : Result Json TransformError :=
  if negb (is_object client) then Err (InvalidJson "request body must be a JSON object")
  else
    let? _ := validate_messages_shape client in
    let body := merged_body client options max_tokens provider in
    let? _ := validate_messages_shape body in
    let? _ := validate_field_types body in
    if bool_decide (provider = Anthropic) then
      let? converted := convert_to_anthropic body in
      let? _ := validate_anthropic_requirements converted in
      Ok (JObject converted)
    else Ok body.

Definition is_streaming (body : Json) : bool := match json_get "stream" body with Some (JBool true) => true | _ => false end.

Definition transform_request `{JsonBytes} (client_body : string) (options : option Json) (max_tokens : option Z) (provider : Provider)
    : Result TransformedRequest TransformError :=
  let? client := map_err (fun error => InvalidJson ("request body is not valid JSON: " +:+ error)) (json_from_slice client_body) in
  let? body := transform_value client options max_tokens provider in
  let? serialized := map_err (fun error => InvalidJson ("failed to serialize transformed body: " +:+ error)) (json_to_vec body) in
  Ok {| out_body := serialized; streaming := is_streaming body |}.

(** ** The merge, path by path *)

Fixpoint get_path (path : list string) (v : Json) : option Json :=
  match path with
  | [] => Some v
  | k :: path => json_get k v ≫= get_path path
  end.

(** No prefix of the path has a value in the patch that replaces the target's. *)
Fixpoint untouched (path : list string) (patch : Json) : Prop :=
  match path, patch with
  | k :: path, JObject o => match obj_get k o with None => True | Some v => untouched path v end
  | _, _ => False
  end.

Definition merged_field (target : option Json) (patch : Json) : Json :=
  match target with Some tv => if is_object tv && is_object patch then deep_merge tv patch else patch | None => patch end.

Lemma obj_get_remove k k' o : obj_get k' (obj_remove k o) = if decide (k = k') then None else obj_get k' o.
Proof.
  unfold obj_remove. induction o as [|[a v] o IH]; [by case_decide|]. rewrite filter_cons. cbn [fst].
  destruct (decide (a = k)) as [->|Ha].
  - rewrite decide_False by (by intros []). rewrite IH. cbn [obj_get]. by destruct (decide (k = k')).
  - rewrite decide_True by done. cbn [obj_get]. rewrite IH. destruct (decide (a = k')) as [->|]; [by rewrite decide_False by congruence|done].
Qed.

Lemma merge_get t p k : NoDup p.*1 -> exists m, deep_merge (JObject t) (JObject p) = JObject m /\
  obj_get k m = match obj_get k p with None => obj_get k t | Some pv => Some (merged_field (obj_get k t) pv) end.
Proof.
  intros Hnd. cbn [deep_merge]. eexists. split; [reflexivity|]. revert t. induction p as [|[a pv] p IH]; intros t; [done|].
  cbn [fmap list_fmap] in Hnd. apply NoDup_cons in Hnd as [Hni Hnd]. specialize (IH Hnd). rewrite IH. clear IH. cbn [obj_get].
  assert (Hnone : a = k -> obj_get k p = None).
  { intros ->. destruct (obj_get k p) as [v|] eqn:E; [|done]. destruct Hni. apply list_elem_of_fmap. exists (k, v). split; [done|]. by apply obj_get_elem. }
  assert (Hset : obj_get k match obj_get a t with
      | Some target_value => if is_object target_value && is_object pv then obj_set a (deep_merge target_value pv) t else obj_insert a pv t
      | None => obj_insert a pv t end = if decide (a = k) then Some (merged_field (obj_get a t) pv) else obj_get k t).
  { unfold merged_field. destruct (obj_get a t) as [tv|] eqn:E; [destruct (is_object tv && is_object pv)|]; rewrite ?obj_get_insert, ?obj_get_set, ?E; done. }
  rewrite Hset. destruct (decide (a = k)) as [->|Hne]; [by rewrite Hnone|done].
Qed.

(** What the options say wins, at any depth. *)
Lemma merge_wins path t p v : json_wf p -> get_path path p = Some v -> is_object v = false -> get_path path (deep_merge t p) = Some v.
Proof.
  revert t p. induction path as [|k path IH]; intros t p Hwf.
  - cbn. intros [= ->] Hv. by destruct t, v.
  - cbn [get_path]. destruct p as [| | | | |o]; try done. cbn [json_get]. intros Hp Hv.
    destruct (obj_get k o) as [pv|] eqn:Ep; [|done]. cbn [mbind option_bind] in Hp.
    assert (Hpv : json_wf pv) by (by eapply json_wf_get).
    destruct t as [| | | | |t]; try (cbn [deep_merge]; cbn [json_get]; by rewrite Ep).
    destruct (merge_get t o k ltac:(by apply json_wf_object in Hwf as [? _])) as (m & -> & Hm). cbn [json_get]. rewrite Hm, Ep. cbn [mbind option_bind].
    unfold merged_field. destruct (obj_get k t) as [tv|]; [|done]. destruct (is_object tv && is_object pv); [by apply IH|done].
Qed.

(** What the options do not mention stays. *)
Lemma merge_keeps path t p : json_wf p -> is_object t = true -> untouched path p -> get_path path (deep_merge t p) = get_path path t.
Proof.
  revert t p. induction path as [|k path IH]; intros t p Hwf Ht; [done|]. cbn [get_path untouched]. destruct p as [| | | | |o]; try done. destruct t as [| | | | |t]; try done.
  intros Hu. destruct (merge_get t o k ltac:(by apply json_wf_object in Hwf as [? _])) as (m & -> & Hm). cbn [json_get]. rewrite Hm.
  destruct (obj_get k o) as [pv|] eqn:Ep; [|done]. cbn [mbind option_bind]. assert (Hpv : json_wf pv) by (by eapply json_wf_get).
  assert (Hnone : get_path path pv = None).
  { clear -Hu. revert pv Hu. induction path as [|k path IH]; intros pv; [done|]. cbn [untouched get_path]. destruct pv as [| | | | |o]; try done. cbn [json_get].
    destruct (obj_get k o) as [v|]; [|done]. apply IH. }
  unfold merged_field. destruct (obj_get k t) as [tv|] eqn:Et; cbn [mbind option_bind].
  - destruct (is_object tv) eqn:Eo; cbn [andb].
    + destruct (is_object pv) eqn:Eop; [by apply IH|]. destruct path as [|k' path]; [done|]. destruct pv; done.
    + rewrite Hnone. destruct path as [|k' path]; [done|]. by destruct tv.
  - exact Hnone.
Qed.

(** ** What is sent *)

Definition role_of (m : Json) : option string := json_get "role" m ≫= as_str.
Definition content_of (m : Json) : option string := json_get "content" m ≫= as_str.

Definition message_ok (m : Json) : Prop := (exists role, role_of m = Some role /\ role <> "") /\ is_Some (content_of m).
Definition chat_ok (body : Json) : Prop :=
  exists msgs, json_get "messages" body = Some (JArray msgs) /\ msgs <> [] /\ Forall message_ok msgs.

(** Anthropic's form of a conversation: the system texts on their own, and the
    other messages reduced to their role and content, all in order. *)
Definition is_system (m : Json) : bool := bool_decide (role_of m = Some "system").
Definition system_texts (msgs : list Json) : list string := omap content_of (List.filter is_system msgs).
Definition plain_message (m : Json) : Json :=
  JObject [("content", JString (default "" (content_of m))); ("role", JString (default "" (role_of m)))].
Definition conversation (msgs : list Json) : list Json := plain_message <$> List.filter (fun m => negb (is_system m)) msgs.

Lemma as_str_some v s : as_str v = Some s -> v = JString s.
Proof. destruct v; cbn; congruence. Qed.

Lemma validate_message_ok i m : validate_message i m = Ok () -> message_ok m.
Proof.
  unfold validate_message, message_ok, role_of, content_of. destruct m as [| | | | |o]; try done. cbn [json_get].
  destruct (obj_get "role" o ≫= as_str) as [role|]; [|done]. case_bool_decide; [done|].
  destruct (obj_get "content" o ≫= as_str) as [c|]; [|done]. intros _. split; [by exists role|done].
Qed.

Lemma validate_messages_ok i l : validate_messages i l = Ok () -> Forall message_ok l.
Proof.
  revert i. induction l as [|m l IH]; intros i; cbn [validate_messages]; [constructor|]. intros ([] & Hm & Hl)%and_then_ok.
  constructor; [by eapply validate_message_ok|by eapply IH].
Qed.

Lemma shape_ok body : validate_messages_shape body = Ok () -> chat_ok body.
Proof.
  unfold validate_messages_shape, chat_ok. destruct (json_get "messages" body) as [v|]; [|done]. destruct v as [| | | |l|]; try done. cbn [as_array].
  destruct l as [|m l]; [done|]. intros H. exists (m :: l). split; [done|]. split; [done|]. by eapply validate_messages_ok.
Qed.

Lemma system_texts_cons m l : system_texts (m :: l) = if is_system m then (option_list (content_of m) ++ system_texts l)%list else system_texts l.
Proof. unfold system_texts. cbn [List.filter]. destruct (is_system m); [|done]. simpl. by destruct (content_of m). Qed.
Lemma conversation_cons m l : conversation (m :: l) = if is_system m then conversation l else plain_message m :: conversation l.
Proof. unfold conversation. cbn [List.filter]. by destruct (is_system m). Qed.

Lemma split_messages_spec i l r : split_messages i l = Ok r ->
  r = (system_texts l, conversation l) /\ Forall (fun m => role_of m = Some "system" \/ role_of m = Some "user" \/ role_of m = Some "assistant") l.
Proof.
  revert i r. induction l as [|m l IH]; intros i r; cbn [split_messages]; [intros [= <-]; by split|].
  fold (role_of m) (content_of m). destruct (role_of m) as [role|] eqn:Er; [|done]. destruct (content_of m) as [c|] eqn:Ec; [|done].
  rewrite system_texts_cons, conversation_cons. unfold is_system. rewrite Er, Ec. case_bool_decide as Hs.
  - subst role. intros ([sys rest] & Hr & [= <-])%and_then_ok. destruct (IH _ _ Hr) as [[= -> ->] Hf].
    rewrite (bool_decide_true (Some "system" = Some "system")) by done. split; [done|]. constructor; [by left|done].
  - rewrite (bool_decide_false (Some role = Some "system")) by congruence.
    destruct (bool_decide (role = "user") || bool_decide (role = "assistant")) eqn:Eu; [|done].
    intros ([sys rest] & Hr & [= <-])%and_then_ok. destruct (IH _ _ Hr) as [[= -> ->] Hf]. unfold plain_message at 1. rewrite Er, Ec.
    split; [done|]. constructor; [|done]. right. rewrite Er. apply orb_true_iff in Eu as [->%bool_decide_eq_true| ->%bool_decide_eq_true]; [by left|by right].
Qed.

Definition anthropic_fields : list string :=
  ["model"; "system"; "messages"; "max_tokens"; "stream"; "temperature"; "top_p"; "top_k"; "stop_sequences"].

(** Fields of the converted body come from this list, and each step sets its own. *)
Lemma copy_field_get body out field k :
  obj_get k (copy_field body out field) = if decide (field = k) then match present field body with Some v => Some v | None => obj_get k out end else obj_get k out.
Proof. unfold copy_field. destruct (present field body); [rewrite obj_get_insert|]; by case_decide. Qed.

Lemma convert_spec body out msgs : json_get "messages" body = Some (JArray msgs) -> convert_to_anthropic body = Ok out ->
  (forall k, is_Some (obj_get k out) -> k ∈ anthropic_fields) /\
  obj_get "messages" out = Some (JArray (conversation msgs)) /\
  obj_get "system" out = match system_texts msgs with [] => None | l => Some (JString (String.concat (str2 "010" "010") l)) end /\
  obj_get "model" out = present "model" body /\
  obj_get "max_tokens" out = match present "max_tokens" body with Some v => Some v | None => present "max_completion_tokens" body end /\
  obj_get "stop_sequences" out = present "stop" body /\
  (forall f, f ∈ ["stream"; "temperature"; "top_p"; "top_k"] -> obj_get f out = present f body) /\
  Forall (fun m => role_of m = Some "system" \/ role_of m = Some "user" \/ role_of m = Some "assistant") msgs.
Proof.
  intros Hm. unfold convert_to_anthropic. rewrite Hm. cbn [mbind option_bind as_array]. intros (r & Hr & [= <-])%and_then_ok.
  destruct (split_messages_spec _ _ _ Hr) as [-> Hroles]. cbn [fst snd].
  set (lim := match present "max_tokens" body with Some v => Some v | None => present "max_completion_tokens" body end).
  set (o1 := match system_texts msgs with [] => _ | _ :: _ => _ end).
  assert (H1 : forall k, obj_get k o1 = if decide (k = "system") then match system_texts msgs with [] => None | l => Some (JString (String.concat (str2 "010" "010") l)) end
      else if decide (k = "model") then present "model" body else None).
  { intros k. subst o1. destruct (system_texts msgs) as [|x l]; rewrite ?obj_get_insert, copy_field_get; repeat case_decide; subst; try done; try congruence; by destruct (present "model" body). }
  clearbody o1. set (o2 := match lim with Some v => _ | None => _ end).
  assert (H2 : forall k, obj_get k o2 = if decide (k = "max_tokens") then lim else if decide (k = "messages") then Some (JArray (conversation msgs)) else obj_get k o1).
  { intros k. subst o2. destruct lim; rewrite ?obj_get_insert; repeat case_decide; subst; try done; try congruence. }
  clearbody o2. cbn [fold_left].
  set (o3 := copy_field body _ "top_k").
  assert (H3 : forall k, obj_get k o3 = if decide (k ∈ ["stream"; "temperature"; "top_p"; "top_k"]) then present k body else obj_get k o2).
  { intros k. subst o3. rewrite !copy_field_get, H2, H1.
    destruct (decide (k ∈ _)) as [Hin|Hni].
    - repeat (apply elem_of_cons in Hin as [->|Hin]); [..|by apply elem_of_nil in Hin]; repeat (case_decide; try congruence); match goal with |- context [present ?f body] => destruct (present f body) end; done.
    - repeat match goal with |- context [decide (?f = k)] => destruct (decide (f = k)) as [<-|]; [exfalso; apply Hni; set_solver|] end. done. }
  clearbody o3.
  assert (H4 : forall k, obj_get k match present "stop" body with Some v => obj_insert "stop_sequences" v o3 | None => o3 end =
    if decide (k = "stop_sequences") then present "stop" body else obj_get k o3).
  { intros k. destruct (present "stop" body); rewrite ?obj_get_insert; repeat case_decide; subst; try done; try congruence. by rewrite H3, H2, H1. }
  split_and!; try done.
  - intros k. rewrite H4, H3, H2, H1. unfold anthropic_fields. repeat case_decide; try (intros _; rewrite !elem_of_cons in *; tauto). by intros [? ?].
  - by rewrite H4, H3, H2.
  - by rewrite H4, H3, H2, H1.
  - by rewrite H4, H3, H2, H1.
  - by rewrite H4, H3, H2.
  - intros f Hf. rewrite H4, H3. destruct (decide (f = _)) as [->|]; [set_solver|]. by destruct (decide (f ∈ _)).
Qed.

(** ** The outcome *)

Lemma limit_ok body field v : validate_limit body field = Ok () -> json_get field body = Some v -> positive_u64 v = true.
Proof. unfold validate_limit. intros Hl Hv. rewrite Hv in Hl. by destruct (positive_u64 v). Qed.

Lemma apply_max_tokens_get body n provider k : is_object body = true ->
  json_get k (apply_max_tokens body n provider) =
  match max_tokens_field (provider_spec provider) with
  | MaxCompletionTokens => if decide (k = "max_tokens") then None else if decide (k = "max_completion_tokens") then Some (JNumber (NInt n)) else json_get k body
  | MaxTokens => if decide (k = "max_tokens") then Some (JNumber (NInt n)) else json_get k body
  end.
Proof.
  destruct body as [| | | | |o]; try done. intros _. unfold apply_max_tokens. destruct (max_tokens_field _); cbn [json_get];
    rewrite ?obj_get_remove, obj_get_insert; repeat case_decide; congruence.
Qed.

(** C34 (what a language model is sent).  For every body, options, forced limit
    and provider: what is sent is a chat whose messages are objects with a
    non-empty role and a text content; the forced limit is the one it carries,
    under the provider's name for it alone; without options and limit an OpenAI
    body passes unchanged; and Anthropic gets only fields it knows, a model, a
    positive limit, the system texts apart, and the user's and the assistant's
    messages in their order, at least one of them. *)
Theorem ai_body_sound client options max_tokens provider out : transform_value client options max_tokens provider = Ok out ->
  chat_ok client /\
  chat_ok out /\
  (forall n, max_tokens = Some n -> 
     json_get (match provider with Openai => "max_completion_tokens" | _ => "max_tokens" end) out = Some (JNumber (NInt n)) /\
     (provider = Openai -> json_get "max_tokens" out = None)) /\
  (options = None -> max_tokens = None -> provider <> Anthropic -> out = client) /\
  (provider = Anthropic -> exists msgs model limit,
     json_get "messages" (merged_body client options max_tokens provider) = Some (JArray msgs) /\
     (forall k, is_Some (json_get k out) -> k ∈ anthropic_fields) /\
     json_get "model" out = Some (JString model) /\
     json_get "max_tokens" out = Some limit /\ positive_u64 limit = true /\
     json_get "system" out = match system_texts msgs with [] => None | l => Some (JString (String.concat (str2 "010" "010") l)) end /\
     json_get "messages" out = Some (JArray (conversation msgs)) /\ conversation msgs <> []).
Proof.
  unfold transform_value. destruct (is_object client) eqn:Eo; [|done]. cbn [negb].
  intros ([] & Hc%shape_ok & ([] & Hb%shape_ok & ([] & Ht & Hout)%and_then_ok)%and_then_ok)%and_then_ok. split; [done|].
  set (body := merged_body client options max_tokens provider) in *.
  assert (Hlimit : forall n, max_tokens = Some n -> forall k, json_get k body = match max_tokens_field (provider_spec provider) with
     | MaxCompletionTokens => if decide (k = "max_tokens") then None else if decide (k = "max_completion_tokens") then Some (JNumber (NInt n)) else json_get k (merged_body client options None provider)
     | MaxTokens => if decide (k = "max_tokens") then Some (JNumber (NInt n)) else json_get k (merged_body client options None provider) end).
  { intros n -> k. subst body. unfold merged_body. apply apply_max_tokens_get. destruct options as [o|]; [|done]. destruct (is_object o) eqn:E; [|done].
    destruct client; try done. by destruct o. }
  assert (Hplain : options = None -> max_tokens = None -> body = client) by (by intros -> ->).
  destruct (decide (provider = Anthropic)) as [->|Hp].
  - rewrite bool_decide_true in Hout by done. apply and_then_ok in Hout as (converted & Hcv & ([] & Hreq & [= <-])%and_then_ok).
    destruct Hb as (msgs & Hm & Hne & Hmsgs). destruct (convert_spec _ _ _ Hm Hcv) as (Hf & Hms & Hsys & Hmodel & Hmax & _ & _ & Hroles). cbn [json_get] in *.
    unfold validate_anthropic_requirements in Hreq. apply and_then_ok in Hreq as ([] & Hr1 & ([] & Hr2 & Hr3)%and_then_ok).
    destruct (obj_get "model" converted) as [mv|] eqn:Emv; [|done]. destruct mv as [| | |model| |]; try done.
    destruct (obj_get "max_tokens" converted) as [lim|] eqn:Elim; [|done]. destruct (positive_u64 lim) eqn:Epos; [|done].
    rewrite Hms in *. cbn [mbind option_bind as_array] in Hr3. destruct (conversation msgs) as [|c cs] eqn:Ec; [done|].
    split_and!.
    + exists (c :: cs). split; [done|]. split; [done|]. rewrite <-Ec. unfold conversation. apply Forall_fmap, Forall_forall. intros m Hmin. 
      apply list_elem_of_In, filter_In in Hmin as [Hmin Hns]. rewrite Forall_forall in Hmsgs, Hroles. 
      pose proof (Hmsgs m ltac:(by apply list_elem_of_In)) as [(role & Hrole & Hrne) [ct Hct]].
      split; [exists role|exists ct]; [split; [|done]; change (Some (default "" (role_of m)) = Some role); by rewrite Hrole|].
      change (Some (default "" (content_of m)) = Some ct). by rewrite Hct.
    + intros n Hn. split; [|done]. assert (Hl : json_get "max_tokens" body = Some (JNumber (NInt n))) by exact (Hlimit n Hn "max_tokens").
      unfold present in Hmax. rewrite Hl in Hmax. cbn [is_null] in Hmax. congruence.
    + done.
    + intros _. exists msgs, model, lim. split_and!; try done. all: by rewrite Ec.
  - rewrite bool_decide_false in Hout by done. injection Hout as <-. split_and!; [done| |intros; by apply Hplain|intros ?; congruence].
    intros n Hn. pose proof (Hlimit n Hn "max_tokens") as H1. pose proof (Hlimit n Hn "max_completion_tokens") as H2. by destruct provider.
Qed.

Definition json_message (role content : string) : Json := JObject [("content", JString content); ("role", JString role)].
Definition chat_client : Json := JObject [("logit_bias", JNull); ("messages", JArray [json_message "system" "Be brief."; json_message "user" "Hi"; json_message "assistant" "Hello"; json_message "user" "Why?"]);
  ("stream", JBool true)].
Definition chat_options : Json := JObject [("model", JString "claude-sonnet")].

Lemma ai_body_sound_witness : exists out,
  transform_value chat_client (Some chat_options) (Some 512) Anthropic = Ok out /\
  json_get "max_tokens" out = Some (JNumber (NInt 512)) /\ json_get "logit_bias" out = None /\
  json_get "system" out = Some (JString "Be brief.") /\
  json_get "messages" out = Some (JArray [json_message "user" "Hi"; json_message "assistant" "Hello"; json_message "user" "Why?"]).
Proof.
  destruct (transform_value chat_client (Some chat_options) (Some 512) Anthropic) as [out|e] eqn:E; [|vm_compute in E; discriminate].
  exists out. split; [reflexivity|].
  destruct (ai_body_sound _ _ _ _ _ E) as (_ & _ & Hl & _ & Ha). destruct (Ha eq_refl) as (msgs & model & limit & Hm & Hf & _ & _ & _ & Hs & Hms & _).
  vm_compute in Hm. injection Hm as <-. split; [exact (proj1 (Hl 512 eq_refl))|].
  split; [|split; [exact Hs|exact Hms]].
  destruct (json_get "logit_bias" out) eqn:El; [|reflexivity]. exfalso.
  specialize (Hf "logit_bias" ltac:(rewrite El; by eexists)). 
  assert (Hb : bool_decide ("logit_bias" ∈ anthropic_fields) = false) by (vm_compute; reflexivity). exact (bool_decide_eq_false_1 _ Hb Hf).
Defined.

(** An option set to null is sent as null: it does not delete the client's field. *)
Example null_option_overwrites :
  json_get "temperature" (deep_merge (JObject [("temperature", JNumber (NInt 1))]) (JObject [("temperature", JNull)])) = Some JNull.
Proof. reflexivity. Qed.
