(* ===== verification/AiProxy.v ===== *)
(** * The AI proxy plugin ([src/src/plugins/ai_proxy])

    Its configuration ([config.rs]), the provider's endpoint and upstream
    ([upstream.rs]) and the hooks of a request ([mod.rs]): which of several
    instances owns it, what the provider is sent, and the limits on the peer.
    The URL and form readers and serde are type classes. *)

From Stdlib Require Import ZArith Lia Ascii.
From stdpp Require Import base tactics gmap strings pretty option list.
From S2P Require Import Prelude Errors GraphStore Utf8 Hosts Json Config ConfigSet RequestVars RouteBuild Limiting Pipeline Settings Selection PassiveHealth Cache ProxyService IpRestriction ResponseRewrite RequestBodies Rewrite AiTransform.

Open Scope Z_scope.

(** ** Configuration *)

(** The maps are [BTreeMap]s: entries in key order. *)
Record AuthConfig : Type := { auth_header : list (string * string); auth_query : list (string * string) }.
Record OverrideConfig : Type := { override_endpoint : option string; llm_max_tokens : option Z }.
Record AiProxyConfig : Type := {
  provider : Provider;
  auth : AuthConfig;
  options : option Json;
  override_ : OverrideConfig;
  timeout : Z;
  max_req_body_size : Z;
  keepalive : bool;
  keepalive_timeout : Z;
  ssl_verify : bool;
}.

Definition DEFAULT_TIMEOUT_MS : Z := 30000.
Definition DEFAULT_MAX_REQ_BODY_SIZE : Z := 67108864.
Definition DEFAULT_KEEPALIVE_TIMEOUT_MS : Z := 60000.

Definition FORBIDDEN_AUTH_HEADERS : list string :=
  ["host"; "content-length"; "transfer-encoding"; "content-type"; "connection"; "keep-alive"; "proxy-connection"; "te"; "trailer";
   "upgrade"; "proxy-authenticate"; "proxy-authorization"].

(** The derived [Deserialize] and the [Debug] form of a string. *)
Class AiSerde : Type := {
  ai_from_value : Json -> Result AiProxyConfig string;
  debug_str : string -> string;
}.

(** [Url::port_or_known_default], and the pairs of a form-encoded query. *)
Class UrlForms `{UrlParser} : Type := {
  url_port_or_known_default : Url -> option Z;
  form_parse : string -> list (string * string);
  form_serialize : list (string * string) -> string;
}.

(** The derived validation. *)
Definition derived_validate (self : AiProxyConfig) : bool :=
  between 1 600000 (timeout self) && (1 <=? max_req_body_size self) && (1000 <=? keepalive_timeout self) &&
  match override_endpoint (override_ self) with Some e => 1 <=? char_count e | None => true end &&
  match llm_max_tokens (override_ self) with Some n => 1 <=? n | None => true end.

(** ** The endpoint *)

Record ResolvedEndpoint : Type := {
  ep_scheme : UpstreamScheme;
  ep_host : string;
  ep_port : Z;
  ep_path : string;
  ep_query : list (string * string);
}.

Definition node_host (host : string) : string :=
  if contains_char ":" host && negb (starts_with host "[") then "[" +:+ host +:+ "]" else host.

Definition milliseconds_to_seconds (ms : Z) : Z := Z.max 1 (Z.min 86400 ((ms + 999) / 1000)).

Definition build_provider_upstream_config (cfg : AiProxyConfig) (endpoint : ResolvedEndpoint) : Upstream.t :=
  let seconds := milliseconds_to_seconds (timeout cfg) in
  {| Upstream.id := "ai-proxy-" +:+ provider_as_str (provider cfg);
     Upstream.retries := None;
     Upstream.retry_timeout := None;
     Upstream.timeout := Some {| Timeout.connect := seconds; Timeout.send := seconds; Timeout.read := seconds |};
     Upstream.nodes := [{| Hosts.host := node_host (ep_host endpoint); Hosts.port := Some (ep_port endpoint); Hosts.weight := 1; Hosts.priority := 0 |}];
     Upstream.type := RoundRobin;
     Upstream.checks := None;
     Upstream.hash_on := VARS;
     Upstream.key := "uri";
     Upstream.scheme := ep_scheme endpoint;
     Upstream.pass_host := NODE;
     Upstream.upstream_host := None;
     Upstream.tls := None;
     Upstream.keepalive_pool := Some {| KeepalivePool.idle_timeout_ms := if keepalive cfg then keepalive_timeout cfg else 0 |} |}.

Section config.
Context `{UrlForms} `{AiSerde} `{HeaderNames}.

Definition resolve_endpoint (cfg : AiProxyConfig) : ProxyResult ResolvedEndpoint :=
  let spec := provider_spec (provider cfg) in
  let? raw := ok_or (Configuration ("provider '" +:+ provider_as_str (provider cfg) +:+ "' has no default endpoint; override.endpoint is required"))
                match override_endpoint (override_ cfg) with Some e => Some e | None => default_endpoint spec end in
  let? url := map_err (fun e => Configuration ("invalid endpoint URL '" +:+ raw +:+ "': " +:+ e)) (Url_parse raw) in
  let? scheme := if bool_decide (url_scheme url = "https") then Ok HTTPS
                 else if bool_decide (url_scheme url = "http") then Ok HTTP
                 else Err (Configuration ("endpoint URL scheme must be http or https, got '" +:+ url_scheme url +:+ "'")) in
  let? host := match url_host_str url with
               | Some host => if bool_decide (host = "") then Err (Configuration ("endpoint URL '" +:+ raw +:+ "' is missing a host")) else Ok host
               | None => Err (Configuration ("endpoint URL '" +:+ raw +:+ "' is missing a host"))
               end in
  let? port := ok_or (Configuration ("endpoint URL '" +:+ raw +:+ "' is missing a port")) (url_port_or_known_default url) in
  let raw_path := url_path url in
  let path := if bool_decide (raw_path = "") || bool_decide (raw_path = "/") then chat_path spec else raw_path in
  let query := match url_query url with Some query => form_parse query | None => [] end in
  Ok {| ep_scheme := scheme; ep_host := host; ep_port := port; ep_path := path; ep_query := query |}.

(** *** The checks the derived validation cannot express *)

Definition must_be_non_empty (section name : string) : ProxyError :=
  Validation ("ai-proxy: " +:+ section +:+ "[" +:+ debug_str name +:+ "] must be a non-empty string").

Definition check_present (section : string) (nv : string * string) : ProxyResult unit :=
  if bool_decide (trim nv.1 = "") || bool_decide (nv.2 = "") then Err (must_be_non_empty section nv.1) else Ok ().

(** The [http] crate's own texts are left out of the messages. *)
Definition check_auth_header (nv : string * string) : ProxyResult unit :=
  if existsb (eq_ignore_ascii_case nv.1) FORBIDDEN_AUTH_HEADERS
  then Err (Validation ("ai-proxy: auth.header[" +:+ debug_str nv.1 +:+ "] is managed by the gateway and cannot be overridden"))
  else if negb (header_name_valid nv.1)
  then Err (Validation ("ai-proxy: auth.header name " +:+ debug_str nv.1 +:+ " is not a valid HTTP header name"))
  else if negb (header_value_valid nv.2)
  then Err (Validation ("ai-proxy: auth.header[" +:+ debug_str nv.1 +:+ "] is not a valid HTTP header value"))
  else Ok ().

Definition check_auth_query (nv : string * string) : ProxyResult unit :=
  if bool_decide (trim nv.1 = "") || bool_decide (trim nv.2 = "") then Err (must_be_non_empty "auth.query" nv.1) else Ok ().

Definition check_options (options : option Json) : ProxyResult unit :=
  match options with
  | Some options =>
    if negb (is_object options) then Err (Validation "ai-proxy: options must be a JSON object")
    else match json_get "model" options with
         | Some model => if is_string model then Ok () else Err (Validation "ai-proxy: options.model must be a string")
         | None => Ok ()
         end
  | None => Ok ()
  end.

Definition post_validate (self : AiProxyConfig) : ProxyResult unit :=
  let header := auth_header (auth self) in
  let query := auth_query (auth self) in
  if bool_decide (header = []) && bool_decide (query = [])
  then Err (Validation "ai-proxy: auth must configure at least one of auth.header or auth.query")
  else
    let? _ := try_for_each (check_present "auth.header") header in
    let? _ := try_for_each (check_present "auth.query") query in
    let? _ := try_for_each check_auth_header header in
    let? _ := try_for_each check_auth_query query in
    let? _ := check_options (options self) in
    if bool_decide (provider self = OpenaiCompatible) && bool_decide (override_endpoint (override_ self) = None)
    then Err (Validation "ai-proxy: provider 'openai-compatible' requires override.endpoint")
    else
      let? _ := map_err (fun e => Validation ("ai-proxy: override.endpoint: " +:+ ProxyError_to_string e)) (resolve_endpoint self) in
      Ok ().

Definition parse (value : Json) : ProxyResult AiProxyConfig :=
  let? config := map_err (serialization_error "Invalid ai-proxy plugin config") (ai_from_value value) in
  if negb (derived_validate config) then Err (ValidationStructured "")
  else
    let? _ := post_validate config in
    Ok config.

Definition validate_ai_proxy_config (cfg : Json) : ProxyResult unit :=
  let? _ := parse cfg in Ok ().

Definition inline_upstream_jobs (owner : TrafficSplitOwner) (cfg : Json) : ProxyResult (list (UpstreamOccurrence * Upstream.t)) :=
  let? config := parse cfg in
  let? endpoint := resolve_endpoint config in
  Ok [(ConfigSet.AiProxy owner, build_provider_upstream_config config endpoint)].
End config.

(** ** Instances *)

Definition PLUGIN_NAME : string := "ai-proxy".
Definition PRIORITY : Z := 2900.

Inductive PluginScope : Type := Global | Route.
#[export] Instance PluginScope_eq_dec : EqDecision PluginScope.
Proof. solve_decision. Defined.

(** [fetch_add] on the counter of tokens: the token and the next count. *)
Definition next_instance_token (tokens : Z) : Z * Z := (tokens, (tokens + 1) mod 2 ^ 64).

Section instances.
Context `{Compiler}.

Record PluginAiProxy : Type := {
  config : AiProxyConfig;
  endpoint : ResolvedEndpoint;
  upstream : RouteBuild.ProxyUpstream;
  scope : PluginScope;
  token : Z;
}.

Definition PluginAiProxy_new (config : AiProxyConfig) (endpoint : ResolvedEndpoint) (upstream : RouteBuild.ProxyUpstream) (scope : PluginScope)
    (tokens : Z) : PluginAiProxy * Z :=
  let '(token, tokens) := next_instance_token tokens in
  ({| config := config; endpoint := endpoint; upstream := upstream; scope := scope; token := token |}, tokens).

Definition owner_id (owner : TrafficSplitOwner) : string :=
  match owner with
  | OwnerRoute id => "route '" +:+ id +:+ "'"
  | OwnerService id => "service '" +:+ id +:+ "'"
  | OwnerGlobalRule id => "global-rule '" +:+ id +:+ "'"
  end.

Definition scope_of (owner : TrafficSplitOwner) : PluginScope :=
  match owner with OwnerGlobalRule _ => Global | OwnerRoute _ | OwnerService _ => Route end.

Definition create_ai_proxy_plugin_with_upstreams `{UrlForms} `{AiSerde} `{HeaderNames} (cfg : Json) (prepared : UpstreamOccurrence -> option Prep)
    (owner : TrafficSplitOwner) (tokens : Z) : B (PluginAiProxy * Z) :=
  let! config := from_result (parse cfg) in
  let! endpoint := from_result (resolve_endpoint config) in
  let! material := from_result (ok_or (Configuration ("ai-proxy provider upstream for " +:+ owner_id owner +:+ " was not prepared (DNS preparation missing)"))
                                  (prepared (ConfigSet.AiProxy owner))) in
  let! upstream := ProxyUpstream_build (build_provider_upstream_config config endpoint) material in
  pure (PluginAiProxy_new config endpoint upstream (scope_of owner) tokens).
End instances.

(** ** The request's state *)

Definition PROVIDER_READ_TIMEOUT_FLOOR_SECS : Z := 600.
Definition ANTHROPIC_VERSION : string := "2023-06-01".

(** Under [CTX_KEY_STATE] in the request's context. *)
Record AiProxyRequestState : Type := { st_token : Z; insecure_tls : bool; st_streaming : bool; st_body : string }.
#[export] Instance eta_AiProxyRequestState : Eta AiProxyRequestState := fun s =>
  Build_AiProxyRequestState (st_token s) (insecure_tls s) (st_streaming s) (st_body s).

(** ** The query *)

(** One pair of the loop: the positions of the keys seen, and the pairs kept. *)
Definition dedup_step (acc : gmap string nat * list (string * string)) (kv : string * string) : gmap string nat * list (string * string) :=
  match acc.1 !! kv.1 with
  | Some position => (acc.1, alter (fun e => (e.1, kv.2)) position acc.2)
  | None => (<[kv.1 := length acc.2]> acc.1, (acc.2 ++ [kv])%list)
  end.
Definition deduped (pairs : list (string * string)) : list (string * string) := (fold_left dedup_step pairs (∅, [])).2.

Definition merged_query `{UrlForms} (existing : option string) (endpoint_query auth_query : list (string * string)) : option string :=
  let pairs := (match existing with Some query => form_parse query | None => [] end ++ endpoint_query ++ auth_query)%list in
  match pairs with [] => None | _ => Some (form_serialize (deduped pairs)) end.

(** ** The hooks *)

Section hooks.
Context `{Compiler} `{HttpTypes} `{UrlForms} `{IpRestriction.JsonText} `{JsonBytes} `{SocketAddrs}.

Record RequestCtx : Type := {
  ai_state : option AiProxyRequestState;
  ctx_upstream_override : option RouteBuild.ProxyUpstream;
  ctx_route : option ProxyPluginExecutor;
  body_replaced : bool;
}.
#[export] Instance eta_RequestCtx : Eta RequestCtx := fun c =>
  Build_RequestCtx (ai_state c) (ctx_upstream_override c) (ctx_route c) (body_replaced c).

Definition set_ai_state (ctx : RequestCtx) (state : AiProxyRequestState) : RequestCtx := ctx <| ai_state := Some state |>.
Definition set_upstream_override (ctx : RequestCtx) (u : option RouteBuild.ProxyUpstream) : RequestCtx := ctx <| ctx_upstream_override := u |>.
Definition mark_request_body_replaced (ctx : RequestCtx) : RequestCtx := ctx <| body_replaced := true |>.

Definition owns_request (self : PluginAiProxy) (ctx : RequestCtx) : bool :=
  match ai_state ctx with Some state => st_token state =? token self | None => false end.

Definition reject (status : Z) (message : string) : Rejection :=
  with_content_type "application/json" (with_body (IpRestriction.json_field "error" message) (Rejection_new status)).

(** The function of [request_validation.rs], repeated. *)
Definition request_declares_body (headers : HeaderMap) : bool :=
  let chunked :=
    match head (headers_get_all headers "transfer-encoding") ≫= to_str with
    | Some value => contains_str "chunked" (to_ascii_lowercase value)
    | None => false
    end in
  let content_length := default 0 ((head (headers_get_all headers "content-length") ≫= to_str) ≫= parse_u64) in
  chunked || (0 <? content_length).

Definition content_type_error (headers : HeaderMap) : option string :=
  match headers_get_all headers "content-type" with
  | [] => None
  | _ :: _ :: _ => Some "ambiguous content-type: exactly one application/json value is required"
  | [first] =>
    let is_json :=
      match to_str first with
      | Some value => eq_ignore_ascii_case (trim (default "" (head (split_char ";" value)))) "application/json"
      | None => false
      end in
    if is_json then None else Some "unsupported content-type: only application/json is supported"
  end.

Definition claim (self : PluginAiProxy) : AiProxyRequestState :=
  {| st_token := token self; insecure_tls := negb (ssl_verify (config self)); st_streaming := false; st_body := "" |}.

(** A global instance leaves the request to an instance of the route. *)
Definition yields (self : PluginAiProxy) (ctx : RequestCtx) : bool :=
  bool_decide (scope self = Global) && match ctx_route ctx with Some route => has_plugin route PLUGIN_NAME | None => false end.

Definition request_filter (self : PluginAiProxy) (req : RequestHeader) (ctx : RequestCtx) : FilterVerdict * RequestCtx :=
  if bool_decide (is_Some (ai_state ctx)) then (Continue, ctx)
  else if yields self ctx then (Continue, ctx)
  else
    match content_type_error (headers req) with
    | Some message => (Reject (reject 400 message), ctx)
    | None =>
      if negb (request_declares_body (headers req)) then (Reject (reject 400 "request body required"), ctx)
      else (Continue, set_upstream_override (set_ai_state ctx (claim self)) (Some (upstream self)))
    end.

Definition upstream_request_filter (self : PluginAiProxy) (upstream_request : RequestHeader) (ctx : RequestCtx) : Result RequestHeader string :=
  if negb (owns_request self ctx) then Ok upstream_request
  else
    let auth_headers := auth_header (auth (config self)) in
    let path := ep_path (endpoint self) in
    let path_query :=
      match merged_query (uri_query (uri upstream_request)) (ep_query (endpoint self)) (auth_query (auth (config self))) with
      | Some query => path +:+ "?" +:+ query
      | None => path
      end in
    let? u := map_err (fun e => ProxyError_to_string (Configuration ("ai-proxy: invalid target URI '" +:+ path_query +:+ "': " +:+ e))) (uri_parse path_query) in
    let h := headers_remove (headers_remove (headers upstream_request) "content-length") "transfer-encoding" in
    let? h := insert_field h "Transfer-Encoding" "chunked" in
    let? h := insert_field h "Content-Type" (AiTransform.content_type (provider_spec (provider (config self)))) in
    let h := headers_remove (headers_remove h "Accept-Encoding") "Authorization" in
    let? h := if bool_decide (provider (config self) = Anthropic) && negb (existsb (fun nv => eq_ignore_ascii_case nv.1 "anthropic-version") auth_headers)
              then insert_field h "anthropic-version" ANTHROPIC_VERSION else Ok h in
    let? h := try_fold (fun h nv => insert_field h nv.1 nv.2) h auth_headers in
    Ok {| method := method upstream_request; uri := u; headers := h |}.

Definition request_body_filter (self : PluginAiProxy) (body : option string) (end_of_stream : bool) (ctx : RequestCtx)
    : Result (option string * RequestCtx) BodyError :=
  match ai_state ctx with
  | None => Ok (body, ctx)
  | Some state =>
    if negb (owns_request self ctx) then Ok (body, ctx)
    else
      let? state :=
        match body with
        | Some chunk =>
          let state := state <| st_body := st_body state +:+ chunk |> in
          if max_req_body_size (config self) <? blen (st_body state)
          then Err (explain (Cache.HTTPStatus 413) "request body too large")
          else Ok state
        | None => Ok state
        end in
      if negb end_of_stream then Ok (Some "", set_ai_state ctx state)
      else
        let buffer := st_body state in
        let state := state <| st_body := "" |> in
        let? transformed := map_err (fun error => explain (Cache.HTTPStatus 400) (detail error))
          (transform_request buffer (options (config self)) (llm_max_tokens (override_ (config self))) (provider (config self))) in
        let state := state <| st_streaming := streaming transformed |> in
        Ok (Some (out_body transformed), mark_request_body_replaced (set_ai_state ctx state))
  end.

(** The peer's options besides those of [Selection]. *)
Record ProviderPeer : Type := { peer : HttpPeer; verify_cert : bool; verify_hostname : bool }.

Definition apply_request_peer_options (ctx : RequestCtx) (p : ProviderPeer) : ProviderPeer :=
  match ai_state ctx with
  | None => p
  | Some state =>
    let floor := from_secs PROVIDER_READ_TIMEOUT_FLOOR_SECS in
    let base := peer p in
    let base := if match read_timeout base with None => true | Some current => current <? floor end
                then set_timeouts base (connection_timeout base) (Some floor) (write_timeout base) else base in
    if insecure_tls state then {| peer := base; verify_cert := false; verify_hostname := false |}
    else {| peer := base; verify_cert := verify_cert p; verify_hostname := verify_hostname p |}
  end.

Definition upstream_peer_filter (self : PluginAiProxy) (p : ProviderPeer) (ctx : RequestCtx) : ProviderPeer :=
  if negb (owns_request self ctx) then p else apply_request_peer_options ctx p.
End hooks.

(** ** Laws of the query *)

Section query.
Context `{UrlForms}.

Lemma values_of_cons k (e : string * string) d : values_of k (e :: d) = if decide (e.1 = k) then e.2 :: values_of k d else values_of k d.
Proof. unfold values_of. cbn [List.filter]. destruct (decide (e.1 = k)); [by rewrite bool_decide_true|by rewrite bool_decide_false]. Qed.

Lemma values_of_none k (d : list (string * string)) : k ∉ d.*1 -> values_of k d = [].
Proof.
  induction d as [|e d IH]; [done|]. cbn [fmap list_fmap]. rewrite values_of_cons. intros [Hne Hni]%not_elem_of_cons.
  rewrite decide_False by congruence. by apply IH.
Qed.

Lemma values_of_one k (d : list (string * string)) v : NoDup d.*1 -> (k, v) ∈ d -> values_of k d = [v].
Proof.
  induction d as [|[a x] d IH]; [by intros _ ?%elem_of_nil|]. cbn [fmap list_fmap]. rewrite values_of_cons. cbn [fst snd].
  intros [Hni Hnd]%NoDup_cons [[= <- <-]|Hin]%elem_of_cons; [rewrite decide_True by done; by rewrite values_of_none|].
  rewrite decide_False; [by apply IH|]. intros ->. destruct Hni. apply list_elem_of_fmap. by exists (k, v).
Qed.

Lemma last_values_app k done kv : list.last (values_of k (done ++ [kv])) = if decide (kv.1 = k) then Some kv.2 else list.last (values_of k done).
Proof.
  rewrite values_of_app. unfold values_of at 2. cbn [List.filter]. destruct (decide (kv.1 = k)).
  - rewrite bool_decide_true by done. cbn. by rewrite last_snoc.
  - rewrite bool_decide_false by done. cbn. by rewrite app_nil_r.
Qed.

(** The keys stand in the order of their first appearance, each with the value
    it appeared with last. *)
Lemma dedup_inv pairs : let acc := fold_left dedup_step pairs (∅, []) in
  acc.2.*1 = reverse (remove_dups (reverse pairs.*1)) /\
  (forall k i, acc.1 !! k = Some i <-> acc.2.*1 !! i = Some k) /\
  (forall k v, (k, v) ∈ acc.2 <-> list.last (values_of k pairs) = Some v).
Proof.
  induction pairs as [|kv pairs IH] using rev_ind; cbv zeta.
  { cbn. split; [done|]. split; [intros k i; rewrite lookup_empty; by destruct i|]. intros k v. by rewrite elem_of_nil. }
  rewrite fold_left_app. cbn [fold_left]. destruct (fold_left dedup_step pairs (∅, [])) as [m d]. cbv zeta in IH. cbn [fst snd] in IH. destruct IH as (Hk & Hp & Hv).
  rewrite fmap_app, reverse_app. cbn [fmap list_fmap reverse rev_append app]. unfold dedup_step. cbn [fst snd].
  assert (Hnd : NoDup d.*1) by (rewrite Hk; rewrite reverse_Permutation; apply NoDup_remove_dups).
  assert (Hin : forall k, k ∈ pairs.*1 <-> exists i, m !! k = Some i).
  { intros k. rewrite <-elem_of_reverse, <-elem_of_remove_dups, <-elem_of_reverse, <-Hk, list_elem_of_lookup. by setoid_rewrite Hp. }
  cbn [remove_dups]. destruct (m !! kv.1) as [pos|] eqn:Em; cbn [fst snd].
  - assert (Hpos : exists v, d !! pos = Some (kv.1, v)).
    { apply Hp in Em. rewrite list_lookup_fmap in Em. destruct (d !! pos) as [[a v]|]; [|done]. injection Em as ->. by exists v. }
    destruct Hpos as [old Hold].
    assert (Hkeys : (alter (fun e => (e.1, kv.2)) pos d).*1 = d.*1).
    { apply list_eq. intros i. rewrite !list_lookup_fmap, list_lookup_alter. case_decide; [|done]. subst. by destruct (d !! i). }
    rewrite Hkeys. split; [|split; [done|]].
    + case_decide as Hd; [done|]. destruct Hd. apply elem_of_reverse, Hin. by exists pos.
    + intros k v. rewrite last_values_app. rewrite list_elem_of_lookup. setoid_rewrite list_lookup_alter. destruct (decide (kv.1 = k)) as [<-|Hne].
      * split.
        -- intros [i Hi]. case_decide; [subst i; rewrite Hold in Hi; by injection Hi as <-|]. exfalso.
           assert (m !! kv.1 = Some i) by (apply Hp; by rewrite list_lookup_fmap, Hi). congruence.
        -- intros [= <-]. exists pos. rewrite decide_True by done. by rewrite Hold.
      * rewrite <-Hv, list_elem_of_lookup. split; intros [i Hi]; exists i; case_decide; try done; subst i; rewrite Hold in *; cbn in *; congruence.
  - assert (Hnew : kv.1 ∉ d.*1).
    { intros [i Hi]%list_elem_of_lookup. apply Hp in Hi. congruence. }
    case_decide as Hd; [apply elem_of_reverse, Hin in Hd as [i Hi]; congruence|].
    rewrite reverse_cons, <-Hk, fmap_app. split; [done|]. split.
    + intros k i. rewrite lookup_insert_Some, lookup_app_Some, length_fmap, Hp. split.
      * intros [[<- <-]|[Hne Hi]]; [right|by left]. split; [lia|]. by rewrite Nat.sub_diag.
      * intros [Hi|[Hle Hi]]; [right; split; [|done]; intros <-; destruct Hnew; apply list_elem_of_lookup; by exists i|].
        left. destruct (i - length d)%nat eqn:E; [|done]. cbn in Hi. injection Hi as ->. split; [done|lia].
    + intros k v. rewrite last_values_app, elem_of_app, list_elem_of_singleton, Hv. destruct (decide (kv.1 = k)) as [<-|Hne].
      * split; [intros [Hl|E]; [|destruct kv; cbn in *; congruence]|intros [= <-]; right; by destruct kv]. exfalso. destruct Hnew.
        apply Hv in Hl. apply list_elem_of_fmap. by exists (kv.1, v).
      * split; [intros [Hl|E]; [done|destruct kv; cbn in *; congruence]|by left].
Qed.

Lemma deduped_values k pairs : values_of k (deduped pairs) = option_list (list.last (values_of k pairs)).
Proof.
  destruct (dedup_inv pairs) as (Hk & _ & Hv). fold (deduped pairs) in Hk, Hv.
  destruct (list.last (values_of k pairs)) as [v|] eqn:E.
  - apply values_of_one; [rewrite Hk; rewrite reverse_Permutation; apply NoDup_remove_dups|by apply Hv].
  - apply values_of_none. intros ((a & v) & -> & Hin%Hv)%list_elem_of_fmap. cbn in E. congruence.
Qed.

Context (form_roundtrip : forall l, form_parse (form_serialize l) = l).

(** Read by the provider, the query has one value per key: the credential's,
    else the endpoint's, else the client's last. *)
Lemma merged_query_spec existing ep auth : let client := match existing with Some query => form_parse query | None => [] end in
  match merged_query existing ep auth with
  | None => client = [] /\ ep = [] /\ auth = []
  | Some query => forall k, values_of k (form_parse query) =
      option_list match list.last (values_of k auth) with
                  | Some v => Some v
                  | None => match list.last (values_of k ep) with Some v => Some v | None => list.last (values_of k client) end
                  end
  end.
Proof.
  cbv zeta. unfold merged_query. set (client := match existing with Some query => form_parse query | None => [] end). clearbody client.
  destruct (client ++ ep ++ auth)%list as [|p ps] eqn:E.
  { apply app_nil in E as [-> E]. by apply app_nil in E as [-> ->]. }
  rewrite <-E. intros k. rewrite form_roundtrip, deduped_values, !values_of_app. f_equal. rewrite !last_app.
  by destruct (list.last (values_of k auth)), (list.last (values_of k ep)).
Qed.
End query.

(** ** Accepted configurations *)

Section accepted.
Context `{UrlForms} `{AiSerde} `{HeaderNames}.

Lemma parse_accepted value cfg : parse value = Ok cfg ->
  derived_validate cfg = true /\ post_validate cfg = Ok ().
Proof.
  unfold parse. intros (c & _ & Hc)%and_then_ok. destruct (derived_validate c) eqn:Ed; [|done]. cbn [negb] in Hc.
  apply and_then_ok in Hc as ([] & Hp & [= <-]). done.
Qed.

Lemma accepted_auth cfg : post_validate cfg = Ok () ->
  (auth_header (auth cfg) <> [] \/ auth_query (auth cfg) <> []) /\
  (forall nv, nv ∈ auth_header (auth cfg) -> check_auth_header nv = Ok ()) /\
  (forall nv, nv ∈ auth_query (auth cfg) -> check_auth_query nv = Ok ()) /\
  exists endpoint, resolve_endpoint cfg = Ok endpoint.
Proof.
  unfold post_validate. destruct (bool_decide (auth_header (auth cfg) = []) && _) eqn:Ee; [done|].
  intros ([] & _ & ([] & _ & ([] & Hh & ([] & Hq & ([] & _ & Hr)%and_then_ok)%and_then_ok)%and_then_ok)%and_then_ok)%and_then_ok.
  rewrite try_for_each_ok in Hh, Hq. split_and!; try done.
  - apply andb_false_iff in Ee as [?%bool_decide_eq_false|?%bool_decide_eq_false]; tauto.
  - destruct (bool_decide (provider cfg = OpenaiCompatible) && _); [done|]. apply and_then_ok in Hr as (e & He & _).
    destruct (resolve_endpoint cfg) as [e'|]; [|done]. by exists e'.
Qed.

Lemma accepted_header nv : check_auth_header nv = Ok () -> forall n, n ∈ FORBIDDEN_AUTH_HEADERS -> eq_ignore_ascii_case nv.1 n = false.
Proof.
  unfold check_auth_header. destruct (existsb _ _) eqn:E; [done|]. intros _ n Hn. destruct (eq_ignore_ascii_case nv.1 n) eqn:En; [|done].
  enough (existsb (eq_ignore_ascii_case nv.1) FORBIDDEN_AUTH_HEADERS = true) by congruence. apply existsb_exists. exists n. by split; [apply list_elem_of_In|].
Qed.

(** What the control plane prepares for an accepted plugin: one node at the
    endpoint, whole seconds that cover the timeout, and no retries. *)
Lemma provider_upstream owner value jobs : inline_upstream_jobs owner value = Ok jobs ->
  exists cfg endpoint u, parse value = Ok cfg /\ resolve_endpoint cfg = Ok endpoint /\ jobs = [(ConfigSet.AiProxy owner, u)] /\
    (ep_scheme endpoint = HTTP \/ ep_scheme endpoint = HTTPS) /\ ep_path endpoint <> "" /\ ep_path endpoint <> "/" /\
    Upstream.scheme u = ep_scheme endpoint /\ Upstream.pass_host u = NODE /\ Upstream.retries u = None /\
    exists s, Upstream.timeout u = Some {| Timeout.connect := s; Timeout.send := s; Timeout.read := s |} /\
      1 <= s <= 600 /\ timeout cfg <= s * 1000 < timeout cfg + 1000.
Proof.
  unfold inline_upstream_jobs. intros (cfg & Hp & (ep & He & [= <-])%and_then_ok)%and_then_ok. exists cfg, ep, (build_provider_upstream_config cfg ep).
  destruct (parse_accepted _ _ Hp) as [Hd _]. unfold derived_validate, between in Hd. do 4 apply andb_true_iff in Hd as [Hd _]. apply andb_true_iff in Hd as [H1%Z.leb_le H2%Z.leb_le].
  pose proof He as He'. unfold resolve_endpoint in He'. apply and_then_ok in He' as (raw & _ & (url & _ & (sch & Hs & (hst & _ & (prt & _ & He')%and_then_ok)%and_then_ok)%and_then_ok)%and_then_ok).
  cbv zeta in He'. injection He' as <-. cbn [ep_scheme ep_path]. split_and!; try done.
  - destruct (bool_decide (url_scheme url = "https")); [injection Hs as <-; by right|].
    destruct (bool_decide (url_scheme url = "http")); [injection Hs as <-; by left|done].
  - destruct (bool_decide (url_path url = "") || _) eqn:E; [by destruct (provider cfg)|]. by apply orb_false_iff in E as [?%bool_decide_eq_false _].
  - destruct (bool_decide (url_path url = "") || _) eqn:E; [by destruct (provider cfg)|]. by apply orb_false_iff in E as [_ ?%bool_decide_eq_false].
  - exists (milliseconds_to_seconds (timeout cfg)). split; [done|]. unfold milliseconds_to_seconds.
    pose proof (Z.div_mod (timeout cfg + 999) 1000 ltac:(done)). pose proof (Z.mod_pos_bound (timeout cfg + 999) 1000 ltac:(done)). lia.
Qed.
End accepted.

(** ** What the provider is sent *)

Section provider_request.
Context `{Compiler} `{HttpLaws} `{UrlForms} `{AiSerde} `{HeaderNames} `{IpRestriction.JsonText} `{JsonBytes} `{SocketAddrs}.
Context (name_case : forall n m, header_name m = header_name n <-> eq_ignore_ascii_case n m = true).

Lemma insert_field_values h n v h' m : insert_field h n v = Ok h' ->
  headers_get_all h' m = if eq_ignore_ascii_case n m then [v] else headers_get_all h m.
Proof.
  unfold insert_field. intros Ha. rewrite (get_all_append _ _ _ _ m Ha), get_all_remove. pose proof (name_case n m) as Hc.
  destruct (eq_ignore_ascii_case n m); case_bool_decide as Hb; try done; [|by apply Hc in Hb]. destruct Hb. by apply Hc.
Qed.

Lemma headers_remove_values h n m : headers_get_all (headers_remove h n) m = if eq_ignore_ascii_case n m then [] else headers_get_all h m.
Proof.
  rewrite get_all_remove. pose proof (name_case n m) as Hc. destruct (eq_ignore_ascii_case n m); case_bool_decide as Hb; try done; [|by apply Hc in Hb].
  destruct Hb. by apply Hc.
Qed.

Definition auth_value (self : PluginAiProxy) (m : string) : option string :=
  snd <$> list.last (List.filter (fun nv => eq_ignore_ascii_case nv.1 m) (auth_header (auth (config self)))).

Lemma inserted_values l h h' m : try_fold (fun h (nv : string * string) => insert_field h nv.1 nv.2) h l = Ok h' ->
  headers_get_all h' m = match list.last (List.filter (fun nv => eq_ignore_ascii_case nv.1 m) l) with Some nv => [nv.2] | None => headers_get_all h m end.
Proof.
  revert h. induction l as [|nv l IH]; intros h; cbn [try_fold]; [by intros [= <-]|]. intros (h1 & H1 & H2)%and_then_ok.
  rewrite (IH _ H2), (insert_field_values _ _ _ _ m H1). cbn [List.filter]. destruct (eq_ignore_ascii_case nv.1 m); [|done].
  rewrite last_cons. by destruct (list.last (List.filter _ l)).
Qed.

(** The fields the plugin sets of itself, over those of the client. *)
Definition gateway_value (self : PluginAiProxy) (m : string) (client : list string) : list string :=
  if bool_decide (provider (config self) = Anthropic) && eq_ignore_ascii_case "anthropic-version" m then [ANTHROPIC_VERSION]
  else if eq_ignore_ascii_case "authorization" m || eq_ignore_ascii_case "accept-encoding" m || eq_ignore_ascii_case "content-length" m then []
  else if eq_ignore_ascii_case "transfer-encoding" m then ["chunked"]
  else if eq_ignore_ascii_case "content-type" m then ["application/json"]
  else client.

Lemma no_version_entry l : existsb (fun nv : string * string => eq_ignore_ascii_case nv.1 "anthropic-version") l = true ->
  forall m, eq_ignore_ascii_case "anthropic-version" m = true -> list.last (List.filter (fun nv : string * string => eq_ignore_ascii_case nv.1 m) l) <> None.
Proof.
  intros (nv & Hin & Hnv)%existsb_exists m Hm Hl%last_None. enough (Hf : In nv (List.filter (fun nv => eq_ignore_ascii_case nv.1 m) l)) by (by rewrite Hl in Hf).
  apply filter_In. split; [done|]. unfold eq_ignore_ascii_case in *. bool_to_prop. congruence.
Qed.

Lemma provider_headers self up ctx up' m : owns_request self ctx = true -> upstream_request_filter self up ctx = Ok up' ->
  method up' = method up /\
  headers_get_all (headers up') m = match auth_value self m with Some v => [v] | None => gateway_value self m (headers_get_all (headers up) m) end.
Proof.
  intros Ho. unfold upstream_request_filter. rewrite Ho. cbn [negb].
  intros (u & _ & (h1 & Hs1 & (h2 & Hs2 & (h3 & Hs3 & (h4 & Hs4 & [= <-])%and_then_ok)%and_then_ok)%and_then_ok)%and_then_ok)%and_then_ok. cbn [method headers].
  split; [done|]. rewrite (inserted_values _ _ _ m Hs4). unfold auth_value.
  destruct (list.last _) as [nv|] eqn:El; [done|]. cbn [fmap option_fmap option_map].
  assert (Hh2 : headers_get_all h2 m = if eq_ignore_ascii_case "Content-Type" m then ["application/json"] else if eq_ignore_ascii_case "Transfer-Encoding" m then ["chunked"]
     else if eq_ignore_ascii_case "transfer-encoding" m then [] else if eq_ignore_ascii_case "content-length" m then [] else headers_get_all (headers up) m).
  { rewrite (insert_field_values _ _ _ _ m Hs2), (insert_field_values _ _ _ _ m Hs1), !headers_remove_values. by destruct (provider (config self)). }
  assert (Hh3 : headers_get_all h3 m = if bool_decide (provider (config self) = Anthropic) && eq_ignore_ascii_case "anthropic-version" m then [ANTHROPIC_VERSION]
     else headers_get_all (headers_remove (headers_remove h2 "Accept-Encoding") "Authorization") m).
  { destruct (bool_decide (provider (config self) = Anthropic)); cbn [andb] in *; [|by injection Hs3 as <-].
    destruct (existsb _ _) eqn:Ex; cbn [negb] in Hs3; [|by rewrite (insert_field_values _ _ _ _ m Hs3)]. injection Hs3 as <-.
    destruct (eq_ignore_ascii_case "anthropic-version" m) eqn:Ev; [|done]. by destruct (no_version_entry _ Ex m Ev). }
  rewrite Hh3, !headers_remove_values, Hh2. unfold gateway_value. destruct (_ && eq_ignore_ascii_case "anthropic-version" m); [done|].
  change (eq_ignore_ascii_case "Authorization" m) with (eq_ignore_ascii_case "authorization" m).
  change (eq_ignore_ascii_case "Accept-Encoding" m) with (eq_ignore_ascii_case "accept-encoding" m).
  change (eq_ignore_ascii_case "Content-Type" m) with (eq_ignore_ascii_case "content-type" m).
  change (eq_ignore_ascii_case "Transfer-Encoding" m) with (eq_ignore_ascii_case "transfer-encoding" m).
  unfold eq_ignore_ascii_case. generalize (headers_get_all (headers up) m) as client. intros client. generalize (to_ascii_lowercase m) as lm. intros lm.
  repeat match goal with |- context [bool_decide (?a = lm)] => destruct (decide (a = lm)) as [<-|]; [done|rewrite (bool_decide_false (a = lm)) by done] end. done.
Qed.
End provider_request.

(** ** The body *)

Section body.
Context `{Compiler} `{HttpTypes} `{JsonBytes} (self : PluginAiProxy).

Abbreviation limit := (max_req_body_size (config self)).
Definition transformed (body : string) : Result TransformedRequest TransformError :=
  transform_request body (options (config self)) (llm_max_tokens (override_ (config self))) (provider (config self)).

(** The context after the body: an empty buffer, the stream flag, the mark. *)
Definition finished (state : AiProxyRequestState) (t : TransformedRequest) (ctx : RequestCtx) : RequestCtx :=
  mark_request_body_replaced (set_ai_state ctx (state <| st_body := "" |> <| st_streaming := streaming t |>)).

Lemma ai_chunk c ctx state eos : ai_state ctx = Some state -> st_token state = token self -> blen (st_body state) <= limit ->
  let whole := st_body state +:+ default "" c in
  request_body_filter self c eos ctx =
    if limit <? blen whole then Err (explain (Cache.HTTPStatus 413) "request body too large")
    else if negb eos then Ok (Some "", set_ai_state ctx (state <| st_body := whole |>))
    else match transformed whole with
         | Ok t => Ok (Some (out_body t), finished state t ctx)
         | Err e => Err (explain (Cache.HTTPStatus 400) (detail e))
         end.
Proof.
  intros Hs Ht Hle. cbv zeta. unfold request_body_filter, owns_request, transformed. rewrite Hs, Ht, Z.eqb_refl. cbn [negb]. destruct c as [c|]; cbn [default Datatypes.id].
  - destruct state as [tk ins sm bd]. cbn in *. destruct (limit <? blen (bd +:+ c)); [done|]. cbn. destruct eos; [|done]. cbn.
    by destruct (transform_request _ _ _ _).
  - rewrite str_app_nil_r. destruct (Z.ltb_spec limit (blen (st_body state))); [lia|]. cbn. destruct state as [tk ins sm bd]. destruct eos; cbn in *; [|done].
    by destruct (transform_request _ _ _ _).
Qed.

(** Chunks are held back behind empty ones; the last is followed by the
    transformed body, or the request ends with nothing sent. *)
Lemma ai_stream chunks ctx state : chunks <> [] -> ai_state ctx = Some state -> st_token state = token self -> blen (st_body state) <= limit ->
  let whole := st_body state +:+ joined chunks in
  let r := run_stream (request_body_filter self) ctx chunks in
  if limit <? blen whole then r.2 = Err (explain (Cache.HTTPStatus 413) "request body too large") /\ exists n, r.1 = repeat (Some "") n /\ (n < length chunks)%nat
  else match transformed whole with
       | Ok t => r = ((repeat (Some "") (length chunks - 1) ++ [Some (out_body t)])%list, Ok (finished state t ctx))
       | Err e => r = (repeat (Some "") (length chunks - 1), Err (explain (Cache.HTTPStatus 400) (detail e)))
       end.
Proof.
  revert ctx state. induction chunks as [|c l IH]; intros ctx state; [done|]. intros _ Hs Ht Hle. cbv zeta. rewrite joined_cons, <-str_app_assoc. cbn [run_stream].
  rewrite (ai_chunk c ctx state _ Hs Ht Hle). cbv zeta. set (b := st_body state +:+ default "" c). 
  destruct (Z.ltb_spec limit (blen b)) as [Hover|Hfits].
  { rewrite blen_app. pose proof (blen_nonneg (joined l)). destruct (Z.ltb_spec limit (blen b + blen (joined l))); [|lia]. split; [done|]. exists 0%nat. cbn. split; [done|lia]. }
  destruct l as [|d l].
  - change (joined []) with "". rewrite str_app_nil_r. destruct (Z.ltb_spec limit (blen b)); [lia|]. cbn [negb]. by destruct (transformed b).
  - cbn [negb]. set (ctx' := set_ai_state ctx (state <| st_body := b |>)).
    pose proof (IH ctx' (state <| st_body := b |>) ltac:(done) eq_refl Ht Hfits) as Hr. cbv zeta in Hr. change (st_body (state <| st_body := b |>)) with b in Hr.
    destruct (limit <? blen (b +:+ joined (d :: l))); [|destruct (transformed (b +:+ joined (d :: l)))].
    + destruct Hr as [He (n & Hn & Hlt)]. cbn [fst snd]. split; [done|]. exists (S n). cbn [repeat length] in *. split; [by f_equal|lia].
    + rewrite Hr. cbn [fst snd length Nat.sub repeat app]. by rewrite Nat.sub_0_r.
    + rewrite Hr. cbn [fst snd length Nat.sub repeat app]. by rewrite Nat.sub_0_r.
Qed.
End body.

(** ** The peer *)

Section peer.
Context `{Compiler} `{SocketAddrs}.

(** Reads of an owned request may stay silent for at least the floor; every
    other timeout is as it was; certificates go unchecked only when the owner
    says so. *)
Lemma ai_peer self p ctx : owns_request self ctx = true ->
  let p' := upstream_peer_filter self p ctx in
  read_timeout (peer p') = Some (Z.max (default 0 (read_timeout (peer p))) (from_secs PROVIDER_READ_TIMEOUT_FLOOR_SECS)) /\
  connection_timeout (peer p') = connection_timeout (peer p) /\ write_timeout (peer p') = write_timeout (peer p) /\
  (forall state, ai_state ctx = Some state -> insecure_tls state = false -> verify_cert p' = verify_cert p /\ verify_hostname p' = verify_hostname p).
Proof.
  intros Ho. cbv zeta. unfold upstream_peer_filter. rewrite Ho. cbn [negb]. unfold owns_request in Ho. unfold apply_request_peer_options.
  destruct (ai_state ctx) as [state|] eqn:Es; [|done]. set (fl := from_secs _). assert (Hfl : 0 < fl) by (by vm_compute).
  destruct p as [b vc vh]. cbn [peer verify_cert verify_hostname]. destruct (read_timeout b) as [cur|] eqn:Er.
  - cbn [default Datatypes.id]. destruct (Z.ltb_spec cur fl); destruct (insecure_tls state) eqn:Ei; cbn; split_and!; try done; try (rewrite ?Er; f_equal; lia); intros st [= <-]; congruence.
  - cbn [default]. destruct (insecure_tls state) eqn:Ei; cbn; split_and!; try done; try (f_equal; lia); intros st [= <-]; congruence.
Qed.
End peer.

(** ** One owner per request

    In a pipeline of arbitrary plugins, some of which are instances of this
    one.  The others keep to their own state: only this plugin writes the
    private key, and nothing rebinds the route of a request in its pipeline. *)

Section ownership.
Context `{Compiler} {W : Type} `{!Hooks (W := W)} `{HttpTypes} `{IpRestriction.JsonText} `{JsonBytes} `{UrlForms} `{SocketAddrs}.
Context (ai_of : Plugin -> option PluginAiProxy) (req_of : W -> RequestHeader) (ctx_of : W -> RequestCtx).
Context (ai_hook : forall p self w r w', ai_of p = Some self -> request_hook p w = (r, w') ->
  r = Ok (request_filter self (req_of w) (ctx_of w)).1 /\ ctx_of w' = (request_filter self (req_of w) (ctx_of w)).2).
Context (other_hook : forall p w r w', ai_of p = None -> request_hook p w = (r, w') ->
  ai_state (ctx_of w') = ai_state (ctx_of w) /\ ctx_route (ctx_of w') = ctx_route (ctx_of w)).

Definition instances (l : list Plugin) : list PluginAiProxy := omap ai_of l.

Definition gives_way (ex : ProxyPluginExecutor) (self : PluginAiProxy) : bool := bool_decide (scope self = Global) && has_plugin ex PLUGIN_NAME.

Lemma request_filter_continues self req ctx ex : ctx_route ctx = Some ex -> (request_filter self req ctx).1 = Continue ->
  ctx_route (request_filter self req ctx).2 = Some ex /\
  ai_state (request_filter self req ctx).2 = match ai_state ctx with
    | Some st => Some st
    | None => if gives_way ex self then None else Some (claim self)
    end.
Proof.
  intros Hr. unfold request_filter, yields, gives_way. rewrite Hr. destruct (ai_state ctx) as [st|] eqn:Es; [by rewrite bool_decide_true by done|].
  rewrite bool_decide_false by (by intros []). destruct (bool_decide (scope self = Global) && has_plugin ex PLUGIN_NAME); [done|].
  destruct (content_type_error _); [done|]. destruct (negb _); [done|]. done.
Qed.

Lemma layer_claims ex l : forall w w', ctx_route (ctx_of w) = Some ex -> first_verdict l w = (Ok Continue, w') ->
  ctx_route (ctx_of w') = Some ex /\
  ai_state (ctx_of w') = match ai_state (ctx_of w) with
    | Some st => Some st
    | None => claim <$> head (List.filter (fun self => negb (gives_way ex self)) (instances l))
    end.
Proof.
  induction l as [|p l IH]; intros w w' Hr; cbn [first_verdict].
  { intros [= <-]. split; [done|]. by destruct (ai_state (ctx_of w)). }
  destruct (request_hook p w) as [v w1] eqn:Eh. intros Hf.
  assert (v = Ok Continue /\ first_verdict l w1 = (Ok Continue, w')) as [-> Hl] by (by destruct v as [[|]|]).
  unfold instances. cbn [omap list_omap]. destruct (ai_of p) as [self|] eqn:Ea.
  - destruct (ai_hook _ _ _ _ _ Ea Eh) as [[= Hv] Hc]. destruct (request_filter_continues self (req_of w) (ctx_of w) ex Hr (eq_sym Hv)) as [Hr1 Hs1].
    rewrite <-Hc in Hr1, Hs1. destruct (IH _ _ Hr1 Hl) as [Hr' ->]. split; [done|]. rewrite Hs1. cbn [List.filter].
    destruct (ai_state (ctx_of w)); [done|]. by destruct (gives_way ex self).
  - destruct (other_hook _ _ _ _ Ea Eh) as [Hs1 Hr1]. rewrite Hr in Hr1. destruct (IH _ _ Hr1 Hl) as [Hr' ->]. split; [done|]. by rewrite Hs1.
Qed.

Lemma filter_all {A} (f : A -> bool) l : (forall x, x ∈ l -> f x = true) -> List.filter f l = l.
Proof. induction l as [|x l IH]; [done|]. intros Hf. cbn [List.filter]. rewrite (Hf x) by left. f_equal. apply IH. intros y Hy. apply Hf. by right. Qed.
Lemma filter_nothing {A} (f : A -> bool) l : (forall x, x ∈ l -> f x = false) -> List.filter f l = [].
Proof. induction l as [|x l IH]; [done|]. intros Hf. cbn [List.filter]. rewrite (Hf x) by left. apply IH. intros y Hy. apply Hf. by right. Qed.

(** Hooks of an instance that does not own the request change nothing. *)
Lemma not_owner self ctx : owns_request self ctx = false ->
  (forall up, upstream_request_filter self up ctx = Ok up) /\
  (forall body eos, request_body_filter self body eos ctx = Ok (body, ctx)) /\
  (forall p, upstream_peer_filter self p ctx = p).
Proof.
  intros Ho. unfold upstream_request_filter, request_body_filter, upstream_peer_filter. rewrite Ho. cbn [negb]. split_and!; try done.
  intros body eos. by destruct (ai_state ctx).
Qed.

(** Entries built for a layer: the name tells the plugin, which is declared for
    the request phase and knows its layer. *)
Definition layer_of (s : PluginScope) (entries : list PluginEntry) : Prop :=
  forall e, e ∈ entries -> (is_Some (ai_of (plugin e)) <-> entry_name e = PLUGIN_NAME) /\
    forall self, ai_of (plugin e) = Some self -> phases_contain (phases e) REQUEST = true /\ scope self = s.

Lemma layer_instances s entries self : layer_of s entries -> self ∈ instances (request (from_sorted entries)) -> scope self = s.
Proof.
  intros Hl. destruct (from_sorted_partition entries) as (_ & _ & Hreq & _). rewrite Hreq. unfold instances, declared. 
  intros (p & (e & -> & Hin)%list_elem_of_fmap & Ha)%list_elem_of_omap. apply list_elem_of_In, filter_In in Hin as [Hin _]. apply list_elem_of_In in Hin. by eapply Hl.
Qed.

Lemma layer_has s entries : layer_of s entries -> has_plugin (from_sorted entries) PLUGIN_NAME = negb (bool_decide (instances (request (from_sorted entries)) = [])).
Proof.
  intros Hl. destruct (from_sorted_partition entries) as (Hpl & _ & Hreq & _). unfold has_plugin. rewrite Hreq, Hpl.
  apply eq_bool_prop_intro. rewrite Is_true_true, existsb_exists, Is_true_true, negb_true_iff, bool_decide_eq_false. unfold instances, declared. split.
  - intros (e & Hin & Hn%bool_decide_eq_true) Hnil. apply list_elem_of_In in Hin. destruct (Hl e Hin) as [[_ [self Hs]] Hph]; [done|].
    apply (not_elem_of_nil self). rewrite <-Hnil. apply list_elem_of_omap. exists (plugin e). split; [|done]. apply list_elem_of_fmap. exists e. split; [done|].
    apply list_elem_of_In, filter_In. split; [by apply list_elem_of_In|by eapply Hph].
  - intros Hne. destruct (omap ai_of _) as [|self rest] eqn:E; [done|]. assert (Hin : self ∈ self :: rest) by left. rewrite <-E in Hin.
    apply list_elem_of_omap in Hin as (p & (e & -> & Hin)%list_elem_of_fmap & Ha). apply list_elem_of_In, filter_In in Hin as [Hin _].
    exists e. split; [done|]. apply bool_decide_eq_true. apply list_elem_of_In in Hin. apply (Hl e Hin). by exists self.
Qed.

(** C32 (one AI proxy owns a request).  When the request phase lets a request
    go on, whatever other plugins it ran: the request is owned by the first
    instance of the route's layer, by the first global one only if the route has
    none, and by nobody only if there is no instance at all; and the hooks of
    every other instance leave the request, its body and its peer alone. *)
Theorem single_owner header_ok rid close write (g r : list PluginEntry) w w' :
  let pl := {| Pipeline.global := from_sorted g; Pipeline.route := from_sorted r |} in
  layer_of Global g -> layer_of Route r ->
  ctx_route (ctx_of w) = Some (from_sorted r) -> ai_state (ctx_of w) = None ->
  pipeline_request_filter header_ok rid close write pl w = (Ok false, w') ->
  let owner := head (instances (request (from_sorted r)) ++ instances (request (from_sorted g))) in
  ai_state (ctx_of w') = claim <$> owner /\
  forall self, (forall o, owner = Some o -> token o <> token self) ->
    (forall up, upstream_request_filter self up (ctx_of w') = Ok up) /\
    (forall body eos, request_body_filter self body eos (ctx_of w') = Ok (body, ctx_of w')) /\
    (forall p, upstream_peer_filter self p (ctx_of w') = p).
Proof.
  intros pl Hg Hr Hroute Hnone Hp owner.
  assert (Hf : exists w1, first_verdict (request (from_sorted g)) w = (Ok Continue, w1) /\ first_verdict (request (from_sorted r)) w1 = (Ok Continue, w')).
  { unfold pipeline_request_filter, pl in Hp. cbn [Pipeline.global Pipeline.route] in Hp. destruct (first_verdict (request (from_sorted g)) w) as [[[|rj]|e] w1].
    - destruct (first_verdict (request (from_sorted r)) w1) as [[[|rj]|e] w2] eqn:E2; [injection Hp as <-; by exists w1| |done]. by destruct (send_rejection _ _ _ _ _ rj w2) as [[|] ?].
    - by destruct (send_rejection _ _ _ _ _ rj w1) as [[|] ?].
    - done. }
  destruct Hf as (w1 & H1 & H2). destruct (layer_claims _ _ _ _ Hroute H1) as [Hroute1 Hs1]. destruct (layer_claims _ _ _ _ Hroute1 H2) as [_ Hs2].
  rewrite Hs1, Hnone in Hs2.
  assert (Hstate : ai_state (ctx_of w') = claim <$> owner).
  { rewrite Hs2. subst owner. rewrite (filter_all _ (instances (request (from_sorted r)))).
    2:{ intros self Hin. unfold gives_way. by rewrite (layer_instances _ _ _ Hr Hin). }
    destruct (instances (request (from_sorted r))) as [|o os] eqn:Er.
    - rewrite filter_all; [|intros self _; unfold gives_way; rewrite (layer_has _ _ Hr), Er; by destruct (bool_decide (scope self = Global))].
      cbn [app]. by destruct (instances (request (from_sorted g))).
    - rewrite filter_nothing; [done|]. intros self Hin. unfold gives_way. by rewrite (layer_has _ _ Hr), Er, (layer_instances _ _ _ Hg Hin). }
  split; [done|]. intros self Hne. apply not_owner. unfold owns_request. rewrite Hstate. destruct owner as [o|] eqn:Eo; [|done]. cbn. 
  apply Z.eqb_neq. by apply Hne.
Qed.
End ownership.

(** ** The request sent to a provider *)

Class UrlFormLaws `{UrlForms} : Prop := {
  form_roundtrip l : form_parse (form_serialize l) = l;
  form_serialize_plain l : contains_char "#" (form_serialize l) = false;
  url_path_plain u : url_scheme u = "http" \/ url_scheme u = "https" ->
    starts_with (url_path u) "/" = true /\ contains_char "?" (url_path u) = false /\ contains_char "#" (url_path u) = false;
}.

Section sent.
Context `{Compiler} `{HttpLaws} `{UrlFormLaws} `{AiSerde} `{HeaderNames} `{IpRestriction.JsonText} `{JsonBytes} `{SocketAddrs}.
Context (name_case : forall n m, header_name m = header_name n <-> eq_ignore_ascii_case n m = true).

Lemma endpoint_path cfg ep : resolve_endpoint cfg = Ok ep ->
  starts_with (ep_path ep) "/" = true /\ contains_char "?" (ep_path ep) = false /\ contains_char "#" (ep_path ep) = false.
Proof.
  unfold resolve_endpoint. intros (raw & _ & (url & _ & (sch & Hs & (hst & _ & (prt & _ & He)%and_then_ok)%and_then_ok)%and_then_ok)%and_then_ok)%and_then_ok.
  cbv zeta in He. injection He as <-. cbn [ep_path]. destruct (bool_decide (url_path url = "") || _); [by destruct (provider cfg)|]. apply url_path_plain.
  destruct (bool_decide (url_scheme url = "https")) eqn:E1; [right; by apply bool_decide_eq_true in E1|].
  destruct (bool_decide (url_scheme url = "http")) eqn:E2; [left; by apply bool_decide_eq_true in E2|done].
Qed.

Lemma provider_uri self up ctx up' : owns_request self ctx = true -> upstream_request_filter self up ctx = Ok up' ->
  resolve_endpoint (config self) = Ok (endpoint self) ->
  uri_path (uri up') = ep_path (endpoint self) /\
  uri_query (uri up') = merged_query (uri_query (uri up)) (ep_query (endpoint self)) (auth_query (auth (config self))).
Proof.
  intros Ho. unfold upstream_request_filter. rewrite Ho. cbn [negb]. intros (u & Hu & (? & _ & (? & _ & (? & _ & (? & _ & [= <-])%and_then_ok)%and_then_ok)%and_then_ok)%and_then_ok)%and_then_ok He.
  cbn [uri]. destruct (endpoint_path _ _ He) as (Hp1 & Hp2 & Hp3). destruct (merged_query _ _ _) as [q|] eqn:Eq.
  - destruct (uri_parse _) as [u'|] eqn:Eu; [|done]. injection Hu as ->. apply uri_parse_query in Eu; [done..|].
    unfold merged_query in Eq. destruct (_ ++ _ ++ _)%list; [done|]. injection Eq as <-. apply form_serialize_plain.
  - destruct (uri_parse _) as [u'|] eqn:Eu; [|done]. injection Hu as ->. by apply uri_parse_path in Eu.
Qed.

Lemma framing_not_auth self n : post_validate (config self) = Ok () -> n ∈ FORBIDDEN_AUTH_HEADERS -> auth_value self n = None.
Proof.
  intros (_ & Hh & _)%accepted_auth Hn. unfold auth_value. rewrite filter_nothing; [done|]. intros nv Hin. by eapply accepted_header; [apply Hh|].
Qed.

(** C33 (what a provider is sent).  For an accepted plugin that owns the
    request, and whatever the client sent: the path is the endpoint's; every
    query credential arrives exactly once and with its configured value, over
    any parameter of that name of the endpoint or the client; every header
    credential is the only field of its name; the client's [Authorization] never
    arrives; the framing is chunked JSON without a length, which no credential
    can change; and [Host] is left to the proxy. *)
Theorem provider_request_sound self up ctx up' :
  post_validate (config self) = Ok () -> resolve_endpoint (config self) = Ok (endpoint self) ->
  owns_request self ctx = true -> upstream_request_filter self up ctx = Ok up' ->
  method up' = method up /\
  uri_path (uri up') = ep_path (endpoint self) /\
  (forall k v, list.last (values_of k (auth_query (auth (config self)))) = Some v ->
     exists q, uri_query (uri up') = Some q /\ values_of k (form_parse q) = [v]) /\
  (forall m v, auth_value self m = Some v -> headers_get_all (headers up') m = [v]) /\
  headers_get_all (headers up') "authorization" = option_list (auth_value self "authorization") /\
  headers_get_all (headers up') "transfer-encoding" = ["chunked"] /\
  headers_get_all (headers up') "content-length" = [] /\
  headers_get_all (headers up') "content-type" = ["application/json"] /\
  headers_get_all (headers up') "host" = headers_get_all (headers up) "host".
Proof.
  intros Hp He Ho Hf. destruct (provider_uri _ _ _ _ Ho Hf He) as [Hpath Hquery].
  pose proof (fun m => provider_headers name_case _ _ _ _ m Ho Hf) as Hh. pose proof (fun n => framing_not_auth self n Hp) as Hn.
  assert (Hplain : forall n, n ∈ FORBIDDEN_AUTH_HEADERS -> headers_get_all (headers up') n = gateway_value self n (headers_get_all (headers up) n)).
  { intros n Hin. rewrite (proj2 (Hh n)). by rewrite (Hn n Hin). }
  split; [by apply (Hh "host")|]. split; [done|]. split; [|split; [|split; [|split_and!]]].
  - intros k v Hk. rewrite Hquery. pose proof (merged_query_spec form_roundtrip (uri_query (uri up)) (ep_query (endpoint self)) (auth_query (auth (config self)))) as Hm.
    cbv zeta in Hm. destruct (merged_query _ _ _) as [q|]; [|destruct Hm as (_ & _ & Ha); by rewrite Ha in Hk]. exists q. split; [done|]. by rewrite (Hm k), Hk.
  - intros m v Hm. by rewrite (proj2 (Hh m)), Hm.
  - rewrite (proj2 (Hh "authorization")). destruct (auth_value self "authorization"); [done|]. unfold gateway_value. by destruct (bool_decide _).
  - rewrite Hplain by set_solver. unfold gateway_value. by destruct (bool_decide _).
  - rewrite Hplain by set_solver. unfold gateway_value. by destruct (bool_decide _).
  - rewrite Hplain by set_solver. unfold gateway_value. by destruct (bool_decide _).
  - rewrite Hplain by set_solver. unfold gateway_value. by destruct (bool_decide _).
Qed.

(** The credentials are put on the request of the owner wherever it goes: the
    upstream chosen later is not looked at. *)
Lemma credentials_follow_override self up ctx u :
  upstream_request_filter self up (set_upstream_override ctx u) = upstream_request_filter self up ctx.
Proof. done. Qed.
End sent.

(** ** Concrete requests

    A toy world: header names in lower case over [ToyHttp], pairs printed as the
    bits of their code, and a parser that knows one URL. *)
Module ToyAi.

#[export] Instance compiler : Compiler := {
  Lb := nat; Prep := nat; Body := Z;
  from_prepared u p := Ok p;
  fresh_uuid n := "x";
}.

#[export] Instance http : HttpTypes := {
  Uri := @Uri ToyHttp.http;
  uri_parse := @uri_parse ToyHttp.http;
  uri_path := @uri_path ToyHttp.http;
  uri_query := @uri_query ToyHttp.http;
  uri_host := @uri_host ToyHttp.http;
  uri_scheme := @uri_scheme ToyHttp.http;
  uri_path_and_query := @uri_path_and_query ToyHttp.http;
  HeaderMap := @HeaderMap ToyHttp.http;
  headers_get_all h n := @headers_get_all ToyHttp.http h (to_ascii_lowercase n);
  headers_remove h n := @headers_remove ToyHttp.http h (to_ascii_lowercase n);
  headers_append h n v := @headers_append ToyHttp.http h (to_ascii_lowercase n) v;
  to_str := @to_str ToyHttp.http;
  value_parse := @value_parse ToyHttp.http;
}.

#[export] Instance http_laws : HttpLaws.
Proof.
  refine {| header_name := fun s => to_ascii_lowercase s; visible := between 32 126 ∘ byte_val |}; try done.
  - by intros s v [= <-].
  - intros h n m. exact (get_all_remove (HttpLaws := ToyHttp.http_laws) h (to_ascii_lowercase n) (to_ascii_lowercase m)).
  - intros h n v h' m Ha. exact (get_all_append (HttpLaws := ToyHttp.http_laws) h (to_ascii_lowercase n) v h' (to_ascii_lowercase m) Ha).
  - exact (uri_path_chars (HttpLaws := ToyHttp.http_laws)).
  - exact (uri_query_chars (HttpLaws := ToyHttp.http_laws)).
  - exact (uri_parse_path (HttpLaws := ToyHttp.http_laws)).
  - exact (uri_parse_query (HttpLaws := ToyHttp.http_laws)).
Defined.

Lemma name_case n m : header_name m = header_name n <-> eq_ignore_ascii_case n m = true.
Proof. unfold eq_ignore_ascii_case. rewrite bool_decide_eq_true. by split. Qed.

#[export] Instance urls : UrlParser := {
  Url := string;
  Url_parse s := Ok s;
  url_scheme _ := "https";
  url_host_str _ := Some "llm.example.com";
  url_username _ := "";
  url_password _ := None;
  url_path _ := "/v2/chat";
  url_query _ := None;
  url_fragment _ := None;
}.

Fixpoint bits (p : positive) : string :=
  match p with xH => "" | xO p => String "0" (bits p) | xI p => String "1" (bits p) end.
Fixpoint unbits (s : string) : positive :=
  match s with EmptyString => xH | String "0" s => xO (unbits s) | String _ s => xI (unbits s) end.
Lemma endpoint_unbits_bits p : unbits (bits p) = p.
Proof. induction p as [p IH|p IH|]; cbn; by rewrite ?IH. Qed.

#[export] Instance forms : UrlForms := {
  url_port_or_known_default _ := Some 443;
  form_parse s := default [] (decode (unbits s));
  form_serialize l := bits (encode l);
}.
#[export] Instance form_laws : UrlFormLaws.
Proof.
  split; [| |done].
  - intros l. cbn. by rewrite endpoint_unbits_bits, decode_encode.
  - intros l. cbn. generalize (encode l). intros p. induction p as [p IH|p IH|]; cbn; by rewrite ?IH.
Qed.

#[export] Instance json : IpRestriction.JsonText := { json_field k v := k +:+ "=" +:+ v }.
#[export] Instance addrs : SocketAddrs := ToySelection.addrs.
#[export] Instance serde : AiSerde := { ai_from_value _ := Err "not read"; debug_str s := s }.
#[export] Instance names : HeaderNames := ToyRewrite.names.
#[export] Instance bytes : JsonBytes := { json_from_slice _ := Err "not read"; json_to_vec _ := Ok "{}" }.

Definition demo_config : AiProxyConfig := {|
  provider := OpenaiCompatible; auth := {| auth_header := [("Authorization", "Bearer sk")]; auth_query := [("key", "qk")] |};
  options := None; override_ := {| override_endpoint := Some "https://llm.example.com/v2/chat"; llm_max_tokens := None |};
  timeout := 30000; max_req_body_size := 64; keepalive := true; keepalive_timeout := 60000; ssl_verify := true |}.
Definition demo_endpoint : ResolvedEndpoint :=
  {| ep_scheme := HTTPS; ep_host := "llm.example.com"; ep_port := 443; ep_path := "/v2/chat"; ep_query := [] |}.
Definition demo_upstream (n : nat) : RouteBuild.ProxyUpstream :=
  {| pu_inner := build_provider_upstream_config demo_config demo_endpoint; pu_lb := n; pu_arc := n |}.
Definition instance (s : PluginScope) (t : Z) : PluginAiProxy :=
  {| config := demo_config; endpoint := demo_endpoint; upstream := demo_upstream (Z.to_nat t); scope := s; token := t |}.

(** Instances carry their token as their body, odd ones in the global layer;
    the other plugin of this world picks an upstream of its own, as
    traffic-split does. *)
Definition ai_of (p : Plugin) : option PluginAiProxy :=
  if bool_decide (p_name p = PLUGIN_NAME) then Some (instance (if Z.odd (RouteBuild.body p) then Global else Route) (RouteBuild.body p)) else None.
Definition entry (name : string) (priority t : Z) : PluginEntry :=
  {| plugin := {| RouteBuild.body := t : Body; p_name := name; p_priority := priority; p_targets := []; p_inlines := [] |}; phases := Z.lor REQUEST UPSTREAM_REQUEST |}.

Definition W : Type := RequestHeader * RequestCtx.
#[export] Instance hooks : Hooks (W := W) := {
  early_request_hook p w := (Ok (), w);
  request_hook p w :=
    match ai_of p with
    | Some self => let r := request_filter self w.1 w.2 in (Ok r.1, (w.1, r.2))
    | None => (Ok Continue, (w.1, set_upstream_override w.2 (Some (demo_upstream 99))))
    end;
  upstream_request_hook p w := (Ok (), w);
  request_body_hook p w := (Ok (), w);
  response_hook p w := (Ok (), w);
  response_body_hook p w := (Ok (), w);
  upstream_peer_hook p w := (Ok (), w);
  logging_hook p w := w;
  exit_transform_of p := None;
}.

Lemma ai_hook p self (w : W) r w' : ai_of p = Some self -> request_hook p w = (r, w') ->
  r = Ok (request_filter self w.1 w.2).1 /\ w'.2 = (request_filter self w.1 w.2).2.
Proof. intros Hp. unfold request_hook, hooks. rewrite Hp. by intros [= <- <-]. Qed.
Lemma other_hook p (w : W) r w' : ai_of p = None -> request_hook p w = (r, w') -> ai_state w'.2 = ai_state w.2 /\ ctx_route w'.2 = ctx_route w.2.
Proof. intros Hp. unfold request_hook, hooks. rewrite Hp. by intros [= <- <-]. Qed.

Definition global_layer : list PluginEntry := [entry PLUGIN_NAME PRIORITY 1].
Definition route_layer : list PluginEntry := [entry PLUGIN_NAME PRIORITY 2; entry "traffic-split" 966 0].

Lemma ai_entry priority t s : s = (if Z.odd t then Global else Route) -> layer_of ai_of s [entry PLUGIN_NAME priority t].
Proof. intros -> e ->%list_elem_of_singleton. split; [split; [done|by eexists]|]. intros self. change (ai_of _) with (Some (instance (if Z.odd t then Global else Route) t)). by intros [= <-]. Qed.
Lemma other_entry name priority t s : name <> PLUGIN_NAME -> layer_of ai_of s [entry name priority t].
Proof.
  intros Hn e ->%list_elem_of_singleton. assert (Ha : ai_of (plugin (entry name priority t)) = None) by (unfold ai_of; by rewrite bool_decide_false).
  rewrite Ha. split; [split; [by intros []|intros Hx; by destruct Hn]|done].
Qed.
Lemma layer_app s a b : layer_of ai_of s a -> layer_of ai_of s b -> layer_of ai_of s (a ++ b).
Proof. intros Ha Hb e [He|He]%elem_of_app; [by apply Ha|by apply Hb]. Qed.
Lemma global_ok : layer_of ai_of Global global_layer.
Proof. by apply ai_entry. Qed.
Lemma route_ok : layer_of ai_of Route route_layer.
Proof. apply (layer_app Route [_] [_]); [by apply ai_entry|by apply other_entry]. Qed.

Definition chat_request : RequestHeader :=
  {| method := "POST"; uri := (None, "/llm?" +:+ bits (encode [("key", "stolen"); ("trace", "1")])) : @Uri http;
     headers := [("authorization", "Bearer client"); ("cookie", "session=1"); ("content-type", "application/json; charset=utf-8"); ("content-length", "40"); ("host", "gw")] : @HeaderMap http |}.
Definition start : W :=
  (chat_request, {| ai_state := None; ctx_upstream_override := None; ctx_route := Some (from_sorted route_layer); body_replaced := false |}).
End ToyAi.
Import ToyAi.

Abbreviation demo_phase := (pipeline_request_filter (fun _ _ => Ok ()) (fun _ => None) (fun w => w) (fun _ w => (Ok (), w))
  {| Pipeline.global := from_sorted global_layer; Pipeline.route := from_sorted route_layer |} start).

Lemma single_owner_witness : exists w',
  demo_phase = (Ok false, w') /\ ai_state w'.2 = Some (claim (instance Route 2)) /\
  request_body_filter (instance Global 1) (Some "{") false w'.2 = Ok (Some "{", w'.2).
Proof.
  destruct demo_phase as [v w'] eqn:E. assert (Hv : v = Ok false) by (apply (f_equal fst) in E; vm_compute in E; by rewrite <-E). subst v.
  exists w'. split; [reflexivity|].
  destruct (single_owner ai_of (fun w : ToyAi.W => w.1) (fun w => w.2) ai_hook other_hook (fun _ _ => Ok ()) (fun _ => None) (fun w => w) (fun _ w => (Ok (), w))
    global_layer route_layer start w') as [Hs Hn].
  - exact global_ok.
  - exact route_ok.
  - reflexivity.
  - reflexivity.
  - exact E.
  - split; [exact Hs|]. apply (Hn (instance Global 1)). intros o. vm_compute. intros [= <-]. discriminate.
Defined.

Definition owned : RequestCtx := {| ai_state := Some (claim (instance Route 2)); ctx_upstream_override := Some (demo_upstream 2); ctx_route := None; body_replaced := false |}.

Lemma provider_request_sound_witness : exists up',
  upstream_request_filter (instance Route 2) chat_request owned = Ok up' /\ uri_path (uri up') = "/v2/chat" /\
  headers_get_all (headers up') "Authorization" = ["Bearer sk"] /\ headers_get_all (headers up') "transfer-encoding" = ["chunked"] /\
  exists q, uri_query (uri up') = Some q /\ values_of "key" (form_parse q) = ["qk"].
Proof.
  pose (up' := match upstream_request_filter (instance Route 2) chat_request owned with Ok up' => up' | Err _ => chat_request end).
  assert (E : upstream_request_filter (instance Route 2) chat_request owned = Ok up') by (vm_compute; reflexivity).
  exists up'. split; [exact E|]. clearbody up'.
  destruct (provider_request_sound name_case (instance Route 2) chat_request owned up') as (_ & Hp & Hq & Hv & _ & Ht & _); [vm_compute; reflexivity|vm_compute; reflexivity|reflexivity|exact E|].
  split; [exact Hp|]. split; [apply (Hv "Authorization"); reflexivity|]. split; [exact Ht|]. apply Hq. reflexivity.
Defined.

(** The traffic-split plugin of the route runs later and takes the request to
    its own upstream, which then gets the provider's credentials. *)
Example split_takes_the_credentials :
  let w' := demo_phase.2 in
  pu_arc <$> ctx_upstream_override w'.2 = Some 99%nat /\
  match upstream_request_filter (instance Route 2) chat_request w'.2 with
  | Ok up' => headers_get_all (headers up') "authorization" = ["Bearer sk"] /\ headers_get_all (headers up') "cookie" = ["session=1"]
  | Err _ => False
  end.
Proof. vm_compute. done. Qed.
