(* ===== verification/FileLogger.v ===== *)
(** * The file logger ([src/src/plugins/file_logger.rs], [ctx_keys.rs])

    Log templates with escaping and redaction, the captured bodies, the JSON
    entry, and the bounded writer thread with its shutdown drain.  The file
    system, base64 and the JSON printer are a type class. *)

From Stdlib Require Import ZArith Lia Ascii.
From stdpp Require Import base tactics gmap strings pretty option list.
From S2P Require Import Prelude Errors GraphStore Utf8 Hosts Json Config RequestVars IpRestriction ResponseRewrite RequestBodies.

Open Scope Z_scope.

(** ** Per-instance keys ([ctx_keys.rs]) *)

Definition instance_ctx_key (prefix : string) (instance_id : Z) : string := prefix +:+ pretty instance_id.
(** The key and the next value of the process-wide counter. *)
Definition next_instance_ctx_key (prefix : string) (next : Z) : string * Z := (instance_ctx_key prefix next, (next + 1) mod 2 ^ 64).

(** ** Escaping *)

(** The characters [char::is_control] holds of, in UTF-8: one byte up to 31 or
    127, or the byte 194 and one of 128 to 159. *)
Definition c0_control (a : ascii) : bool := (byte_val a <? 32) || (byte_val a =? 127).
Definition c1_byte (a : ascii) : bool := between 128 159 (byte_val a).

(** [{:04x}] of a value below 256, in [\u{..}]. *)
Definition unicode_escape (z : Z) : string := "\u{00" +:+ hex_digit (z / 16) +:+ hex_digit (z mod 16) +:+ "}".

Definition escape_char (a : ascii) : string :=
  if bool_decide (a = "\"%char) then "\\"
  else if bool_decide (a = "010"%char) then "\n"
  else if bool_decide (a = "013"%char) then "\r"
  else if bool_decide (a = "009"%char) then "\t"
  else if c0_control a then unicode_escape (byte_val a)
  else str1 a.

Fixpoint push_escaped (value : string) : string :=
  match value with
  | EmptyString => ""
  | String a rest =>
    match rest with
    | String b rest' =>
      if bool_decide (a = "194"%char) && c1_byte b then unicode_escape (byte_val b) +:+ push_escaped rest'
      else escape_char a +:+ push_escaped rest
    | EmptyString => escape_char a
    end
  end.

(** ** Redaction *)

Definition redact_part (names : list string) (part : string) : string :=
  match split_once "=" part with
  | Some (name, _) => if bool_decide (name ∈ names) then name +:+ "=***" else part
  | None => part
  end.
Definition redact_query (query : string) (names : list string) : string :=
  String.concat "&" (redact_part names <$> split_char "&" query).

(** ** Configuration *)

Definition DEFAULT_MAX_BODY_BYTES : Z := 524288.
Definition LOG_QUEUE_CAPACITY : nat := 1024.
Definition SHUTDOWN_DRAIN_BUDGET : nat := 256.
#[global] Arguments LOG_QUEUE_CAPACITY : simpl never.
#[global] Arguments SHUTDOWN_DRAIN_BUDGET : simpl never.

(** The fields that are only parsed to be refused carry no value here. *)
Record PluginConfig : Type := {
  log_format : string;
  redact_query_params : list string;
  path : option string;
  has_log_format_extra : bool;
  include_req_body : bool;
  has_include_req_body_expr : bool;
  include_resp_body : bool;
  has_include_resp_body_expr : bool;
  max_req_body_bytes : Z;
  max_resp_body_bytes : Z;
  has_match_rules : bool;
}.

Definition default_log_format : string :=
  "$remote_addr " +:+ str1 "034" +:+ "$request_method $uri" +:+ str1 "034" +:+ " $status".
Definition PluginConfig_default : PluginConfig := {|
  log_format := default_log_format; redact_query_params := []; path := None; has_log_format_extra := false; include_req_body := false;
  has_include_req_body_expr := false; include_resp_body := false; has_include_resp_body_expr := false;
  max_req_body_bytes := DEFAULT_MAX_BODY_BYTES; max_resp_body_bytes := DEFAULT_MAX_BODY_BYTES; has_match_rules := false |}.

Definition validate (self : PluginConfig) : ProxyResult unit :=
  if bool_decide (path self = Some "") then Err (Validation "file-logger path must not be empty")
  else if max_req_body_bytes self <? 1 then Err (Validation "file-logger max_req_body_bytes must be at least 1")
  else if max_resp_body_bytes self <? 1 then Err (Validation "file-logger max_resp_body_bytes must be at least 1")
  else if has_log_format_extra self then Err (Validation "file-logger log_format_extra is not supported; use the pingsix log_format string")
  else if has_include_req_body_expr self then Err (Validation "file-logger include_req_body_expr is not supported; use include_req_body")
  else if has_include_resp_body_expr self then Err (Validation "file-logger include_resp_body_expr is not supported; use include_resp_body")
  else if has_match_rules self then Err (Validation "file-logger match expressions are not supported")
  else Ok ().

(** ** The writer

    The producer's side of the bounded channel, the closing flag, and the
    thread's program counter.  [written] holds what was passed to [write_all],
    with its outcome: a failed write is only logged. *)
Inductive WriterPc : Type := Receiving | Writing (line : string) | Checking | Finished.

Record FileLogWriter : Type := {
  queue : list string;
  sender_open : bool;
  closing : bool;
  pc : WriterPc;
  closing_seen : bool;
  drained_after_close : nat;
  abandoned : nat;
  written : list (string * bool);
  entries_dropped : Z;
}.
#[export] Instance eta_FileLogWriter : Eta FileLogWriter := fun w =>
  Build_FileLogWriter (queue w) (sender_open w) (closing w) (pc w) (closing_seen w) (drained_after_close w) (abandoned w) (written w) (entries_dropped w).

Definition start : FileLogWriter :=
  {| queue := []; sender_open := true; closing := false; pc := Receiving; closing_seen := false; drained_after_close := 0; abandoned := 0;
     written := []; entries_dropped := 0 |}.

(** [write_line]: the line with its newline, tried on the channel. *)
Definition newline : string := str1 "010".
Definition write_line (line : string) (w : FileLogWriter) : FileLogWriter :=
  let line := line +:+ newline in
  if negb (sender_open w) then w
  else match pc w with
       | Finished => w
       | _ => if (length (queue w) <? LOG_QUEUE_CAPACITY)%nat then w <| queue := (queue w ++ [line])%list |>
              else w <| entries_dropped := entries_dropped w + 1 |>
       end.

(** One step of [run_writer]: [recv], which waits while the queue is empty and
    the sender is there; [write_all] with its outcome; and the test of the flag
    and the budget, whose last part takes what is left in the queue. *)
Definition writer_step (ok : bool) (w : FileLogWriter) : FileLogWriter :=
  match pc w with
  | Receiving =>
    match queue w with
    | line :: q => w <| queue := q |> <| pc := Writing line |>
    | [] => if sender_open w then w else w <| pc := Finished |>
    end
  | Writing line => w <| written := (written w ++ [(line, ok)])%list |> <| pc := Checking |>
  | Checking =>
    let seen := closing_seen w || closing w in
    let w := w <| closing_seen := seen |> in
    if seen then
      let drained := S (drained_after_close w) in
      let w := w <| drained_after_close := drained |> in
      if (SHUTDOWN_DRAIN_BUDGET <=? drained)%nat
      then w <| abandoned := length (queue w) |> <| queue := [] |> <| pc := Finished |>
      else w <| pc := Receiving |>
    else w <| pc := Receiving |>
  | Finished => w
  end.

(** [drop] stores the flag, takes the sender and joins the thread: the join is
    the thread's own steps up to [Finished]. *)
Definition store_closing (w : FileLogWriter) : FileLogWriter := w <| closing := true |>.
Definition take_sender (w : FileLogWriter) : FileLogWriter := w <| sender_open := false |>.

Inductive WriterEvent : Type := Log (line : string) | Close | Hangup | Worker (ok : bool).

Definition writer_event (w : FileLogWriter) (e : WriterEvent) : FileLogWriter :=
  match e with
  | Log line => write_line line w
  | Close => store_closing w
  | Hangup => take_sender w
  | Worker ok => writer_step ok w
  end.
Definition run_events (w : FileLogWriter) (es : list WriterEvent) : FileLogWriter := fold_left writer_event es w.

(** ** Bodies *)

Record BodyBuffer : Type := { bytes : string; exceeded : bool }.
Definition BodyBuffer_default : BodyBuffer := {| bytes := ""; exceeded := false |}.

Definition append (self : BodyBuffer) (chunk : string) (max : Z) : BodyBuffer :=
  if exceeded self then self
  else
    let remaining := Z.max 0 (max - blen (bytes self)) in
    let accepted := Z.min remaining (blen chunk) in
    {| bytes := bytes self +:+ String.substring 0 (Z.to_nat accepted) chunk; exceeded := accepted <? blen chunk |}.

(** The body buffers of the request's context, by key. *)
Abbreviation Vars := (gmap string BodyBuffer).

(** [body_buffer(ctx, key).append(..)] *)
Definition append_body (ctx : Vars) (key chunk : string) (max : Z) : Vars :=
  <[key := append (default BodyBuffer_default (ctx !! key)) chunk max]> ctx.
Definition take_body_buffer (ctx : Vars) (key : string) : option BodyBuffer * Vars := (ctx !! key, base.delete key ctx).

(** ** The plugin *)

Class LogLib : Type := {
  logger_from_value : Json -> Result PluginConfig string;
  open_append : string -> Result unit string;
  spawn_thread : string -> Result unit string;
  log_base64 : string -> string;
  log_json : Json -> string;
}.

Record PluginFileLogger : Type := {
  fl_log_format : string;
  fl_redact : list string;
  fl_writer : option FileLogWriter;
  fl_include_req : bool;
  fl_include_resp : bool;
  fl_max_req : Z;
  fl_max_resp : Z;
  request_body_key : string;
  response_body_key : string;
}.

Section plugin.
Context `{LogLib}.

Definition PluginConfig_try_from (value : Json) : ProxyResult PluginConfig :=
  let? config := map_err (serialization_error "Invalid file logger plugin config") (logger_from_value value) in
  let? _ := validate config in
  Ok config.
Definition validate_file_logger_config (cfg : Json) : ProxyResult unit := let? _ := PluginConfig_try_from cfg in Ok ().

Definition open_append_log (path : string) : ProxyResult unit :=
  map_err (with_cause_prefixed "Validation error" ("file-logger cannot open log file '" +:+ path +:+ "'")) (open_append path).
Definition FileLogWriter_start : ProxyResult FileLogWriter :=
  let? _ := map_err (with_cause_prefixed "Validation error" "file-logger cannot start log writer thread") (spawn_thread "pingsix-file-logger") in
  Ok start.

Definition build (config : PluginConfig) (next_id : Z) : ProxyResult (PluginFileLogger * Z) :=
  let? writer :=
    match path config with
    | Some path => let? _ := open_append_log path in let? w := FileLogWriter_start in Ok (Some w)
    | None => Ok None
    end in
  let '(req_key, next_id) := next_instance_ctx_key "pingsix_file_logger_request_body_" next_id in
  let '(resp_key, next_id) := next_instance_ctx_key "pingsix_file_logger_response_body_" next_id in
  Ok ({| fl_log_format := log_format config; fl_redact := redact_query_params config; fl_writer := writer;
         fl_include_req := include_req_body config; fl_include_resp := include_resp_body config;
         fl_max_req := max_req_body_bytes config; fl_max_resp := max_resp_body_bytes config;
         request_body_key := req_key; response_body_key := resp_key |}, next_id).

Definition create_file_logger_plugin (cfg : Json) (next_id : Z) : ProxyResult (PluginFileLogger * Z) :=
  let? config := PluginConfig_try_from cfg in build config next_id.

Definition has_writer (self : PluginFileLogger) : bool := bool_decide (is_Some (fl_writer self)).

(** The body itself is only read. *)
Definition request_body_filter (self : PluginFileLogger) (body : option string) (ctx : Vars) : option string * Vars :=
  if negb (fl_include_req self) || negb (has_writer self) then (body, ctx)
  else (body, match body with Some chunk => append_body ctx (request_body_key self) chunk (fl_max_req self) | None => ctx end).
Definition response_body_filter (self : PluginFileLogger) (body : option string) (ctx : Vars) : option string * Vars :=
  if negb (fl_include_resp self) || negb (has_writer self) then (body, ctx)
  else (body, match body with Some chunk => append_body ctx (response_body_key self) chunk (fl_max_resp self) | None => ctx end).
End plugin.

(** ** The logging phase *)

Section logging.
Context `{HttpTypes} `{LogLib}.

(** What the phase reads: the session, the printed addresses of its two ends,
    the response written, the protocol and the bytes sent, the context's clock,
    identifier and variables, and the text of the error. *)
Record LogSession : Type := {
  session : Session;
  client_addr : option string;
  local_addr : option string;
  response_status : option Z;
  is_http2 : bool;
  body_bytes_sent : Z;
  elapsed_ms : Z;
  ctx_request_id : option string;
  ctx_str : string -> option string;
  log_error : option string;
}.

Definition resolve_log_var (s : LogSession) (redact_query_params : list string) (var : string) : string :=
  match strip_prefix "var_" var with
  | Some custom => push_escaped (default "" (ctx_str s custom))
  | None =>
    let req := req_header (session s) in
    if bool_decide (var = "request_method") then push_escaped (method req)
    else if bool_decide (var = "uri") then push_escaped (uri_path (uri req))
    else if bool_decide (var = "query_string") then
      let query := default "" (uri_query (uri req)) in
      push_escaped (if bool_decide (redact_query_params = []) then query else redact_query query redact_query_params)
    else if bool_decide (var = "http_host") then push_escaped (default "" (uri_host (uri req)))
    else if bool_decide (var = "request_time") then pretty (elapsed_ms s)
    else if bool_decide (var = "http_user_agent") then push_escaped (default "" (get_req_header_value req "user-agent"))
    else if bool_decide (var = "http_referer") then push_escaped (default "" (get_req_header_value req "referer"))
    else if bool_decide (var = "remote_addr") then default "" (client_addr s)
    else if bool_decide (var = "remote_port") then default "" (pretty <$> client_port (session s))
    else if bool_decide (var = "server_addr") then default "" (local_addr s)
    else if bool_decide (var = "status") then default "" (pretty <$> response_status s)
    else if bool_decide (var = "server_protocol") then (if is_http2 s then "http/2" else "http/1.1")
    else if bool_decide (var = "request_id") then push_escaped (default "" (ctx_request_id s))
    else if bool_decide (var = "body_bytes_sent") then pretty (body_bytes_sent s)
    else if bool_decide (var = "error") then push_escaped (default "" (log_error s))
    else ""
  end.

(** [LogFormat::render], without dollar escapes. *)
Definition render (format : string) (s : LogSession) (redact_query_params : list string) : string :=
  render_template false (resolve_log_var s redact_query_params) format.

(** The request time is the elapsed milliseconds over a thousand, a float. *)
Context (seconds : Z -> Json).

Definition body_fields (field : string) (include : bool) (body : option BodyBuffer) (entry : Json.Fields) : Json.Fields :=
  if include then
    let entry := obj_insert field (JString (match body with Some b => log_base64 (bytes b) | None => "" end)) entry in
    if match body with Some b => exceeded b | None => false end then obj_insert (field +:+ "_truncated") (JBool true) entry else entry
  else entry.

Definition json_entry (s : LogSession) (req_body resp_body : option BodyBuffer) (include_req include_resp : bool) : Json.Fields :=
  let entry := obj_insert "request_method" (JString (method (req_header (session s)))) [] in
  let entry := obj_insert "uri" (JString (uri_path (uri (req_header (session s))))) entry in
  let entry := obj_insert "status" (JNumber (NInt (default 0 (response_status s)))) entry in
  let entry := obj_insert "request_id" (JString (default "" (ctx_request_id s))) entry in
  let entry := obj_insert "latency" (JNumber (NInt (Z.min (elapsed_ms s) u64_max))) entry in
  let entry := obj_insert "request_time" (seconds (elapsed_ms s)) entry in
  body_fields "response_body" include_resp resp_body (body_fields "request_body" include_req req_body entry).

Definition render_json_entry (s : LogSession) (req_body resp_body : option BodyBuffer) (include_req include_resp : bool) : string :=
  log_json (JObject (json_entry s req_body resp_body include_req include_resp)).

(** Without a path the line goes to the process log; with one it goes to the
    writer, and the captured bodies leave the context. *)
Inductive Logged : Type := Info (line : string) | Enqueued (w : FileLogWriter).

Definition logging (self : PluginFileLogger) (s : LogSession) (ctx : Vars) : Logged * Vars :=
  match fl_writer self with
  | None => (Info (render (fl_log_format self) s (fl_redact self)), ctx)
  | Some w =>
    let '(request_body, ctx) := take_body_buffer ctx (request_body_key self) in
    let '(response_body, ctx) := take_body_buffer ctx (response_body_key self) in
    (Enqueued (write_line (render_json_entry s request_body response_body (fl_include_req self) (fl_include_resp self)) w), ctx)
  end.
End logging.

(** ** Escaping, undone *)

(** A byte of a single-line log. *)
Definition log_byte (a : ascii) : bool := negb (c0_control a).

Fixpoint unescape (s : string) : string :=
  match s with
  | EmptyString => ""
  | String a rest =>
    if negb (bool_decide (a = "\"%char)) then String a (unescape rest)
    else match rest with
         | EmptyString => str1 a
         | String b rest =>
           if bool_decide (b = "n"%char) then String "010" (unescape rest)
           else if bool_decide (b = "r"%char) then String "013" (unescape rest)
           else if bool_decide (b = "t"%char) then String "009" (unescape rest)
           else if bool_decide (b = "u"%char) then
             match rest with
             | String _ (String _ (String _ (String h (String l (String _ rest))))) =>
               let z := hex_val h * 16 + hex_val l in
               let c := ascii_of_N (Z.to_N z) in
               if 128 <=? z then String "194" (String c (unescape rest)) else String c (unescape rest)
             | _ => ""
             end
           else String b (unescape rest)
         end
  end.

(** Checked on every byte. *)
Definition all_bytes : list ascii := (fun n => ascii_of_nat n) <$> seq 0 256.
Lemma all_bytes_in a : In a all_bytes.
Proof.
  apply list_elem_of_In. unfold all_bytes. apply list_elem_of_fmap. exists (nat_of_ascii a). split; [by rewrite ascii_nat_embedding|].
  apply elem_of_seq. pose proof (nat_ascii_bounded a). lia.
Qed.
Lemma on_bytes (f : ascii -> bool) : forallb f all_bytes = true -> forall a, f a = true.
Proof. intros Hf a. eapply forallb_forall in Hf; [exact Hf|apply all_bytes_in]. Qed.

Lemma escape_char_plain a : str_forall log_byte (escape_char a) = true.
Proof. revert a. apply on_bytes. vm_compute. reflexivity. Qed.
Lemma c1_plain b : c1_byte b = true -> str_forall log_byte (unicode_escape (byte_val b)) = true.
Proof.
  intros Hb. enough (Hi : implb (c1_byte b) (str_forall log_byte (unicode_escape (byte_val b))) = true) by (by rewrite Hb in Hi).
  clear Hb. revert b. apply on_bytes. vm_compute. reflexivity.
Qed.

Lemma push_escaped_step a rest : 
  (exists b rest', rest = String b rest' /\ a = "194"%char /\ c1_byte b = true /\ push_escaped (String a rest) = unicode_escape (byte_val b) +:+ push_escaped rest') \/
  push_escaped (String a rest) = escape_char a +:+ push_escaped rest.
Proof.
  cbn [push_escaped]. destruct rest as [|b rest']; [right; by rewrite str_app_nil_r|].
  destruct (bool_decide (a = "194"%char) && c1_byte b) eqn:E; [|by right]. left. apply andb_true_iff in E as [Ea%bool_decide_eq_true Eb]. by exists b, rest'.
Qed.

Lemma escaped_ind (P : string -> string -> Prop) :
  P "" "" ->
  (forall a rest out, P rest out -> P (String a rest) (escape_char a +:+ out)) ->
  (forall b rest out, c1_byte b = true -> P rest out -> P (String "194" (String b rest)) (unicode_escape (byte_val b) +:+ out)) ->
  forall s, P s (push_escaped s).
Proof.
  intros H0 H1 H2 s. remember (String.length s) as n eqn:Hn. assert (Hle : (String.length s <= n)%nat) by lia. clear Hn. revert s Hle.
  induction n as [|n IH]; intros [|a rest] Hle; cbn [String.length] in Hle; try lia; [done|done|].
  destruct (push_escaped_step a rest) as [(b & rest' & -> & -> & Hb & Hp)|Hp]; rewrite Hp.
  - apply H2; [done|]. apply IH. cbn in Hle. lia.
  - apply H1, IH. lia.
Qed.

Lemma push_escaped_plain s : str_forall log_byte (push_escaped s) = true.
Proof.
  apply (escaped_ind (fun _ out => str_forall log_byte out = true)); [done| |].
  - intros a rest out Ho. by rewrite str_forall_app, escape_char_plain, Ho.
  - intros b rest out Hb Ho. by rewrite str_forall_app, c1_plain, Ho.
Qed.

Lemma unescape_char a t : unescape (escape_char a +:+ t) = String a (unescape t).
Proof. destruct a as [[] [] [] [] [] [] [] []]; reflexivity. Qed.
Lemma unescape_c1 b t : c1_byte b = true -> unescape (unicode_escape (byte_val b) +:+ t) = String "194" (String b (unescape t)).
Proof. destruct b as [[] [] [] [] [] [] [] []]; (discriminate || reflexivity). Qed.

Lemma unescape_push s : unescape (push_escaped s) = s.
Proof.
  apply (escaped_ind (fun s out => unescape out = s)); [done| |].
  - intros a rest out Ho. by rewrite unescape_char, Ho.
  - intros b rest out Hb Ho. by rewrite unescape_c1, Ho.
Qed.

(** ** Redaction *)

Lemma split_concat c l : l <> [] -> Forall (fun p => contains_char c p = false) l -> split_char c (String.concat (str1 c) l) = l.
Proof.
  induction l as [|p l IH]; [done|]. intros _ [Hp Hl]%Forall_cons. destruct l as [|q l]; [by apply split_char_last|].
  change (String.concat (str1 c) (p :: q :: l)) with (p +:+ String c (String.concat (str1 c) (q :: l))). rewrite split_char_app by done. f_equal. by apply IH.
Qed.

(** What a redacted part says of a listed name. *)
Definition hidden (names : list string) (part : string) : Prop :=
  forall name value, split_once "=" part = Some (name, value) -> name ∈ names -> value = "***".

Lemma redact_part_hidden names part : hidden names (redact_part names part).
Proof.
  intros name value. unfold redact_part. destruct (split_once "=" part) as [[n v]|] eqn:E; [|congruence].
  case_bool_decide as Hn; [|intros Hs Hin; rewrite E in Hs; by simplify_eq].
  destruct (split_once_some _ _ _ _ E) as [Hno _]. change (n +:+ "=***") with (n +:+ String "=" "***"). rewrite split_once_app by done. by intros [= <- <-].
Qed.

(** Redaction works part by part, and no listed parameter shows its value. *)
Lemma redacted_query query names :
  split_char "&" (redact_query query names) = redact_part names <$> split_char "&" query /\
  Forall (hidden names) (split_char "&" (redact_query query names)).
Proof.
  assert (Hs : split_char "&" (redact_query query names) = redact_part names <$> split_char "&" query).
  { unfold redact_query. apply (split_concat "&"); [by destruct (split_char "&" query) eqn:E; [apply split_char_some in E|]|].
    apply Forall_fmap, Forall_forall. intros p Hp. apply split_char_pieces in Hp as [Hc _]. unfold compose, redact_part.
    destruct (split_once "=" p) as [[n v]|] eqn:E; [|done]. case_bool_decide; [|done]. apply split_once_some in E as [_ ->].
    rewrite contains_char_app in *. by apply orb_false_iff in Hc as [-> _]. }
  split; [done|]. rewrite Hs. apply Forall_fmap, Forall_forall. intros p _. apply redact_part_hidden.
Qed.

(** ** One line per request *)

Lemma take_name_forall f s : str_forall f s = true -> str_forall f (take_name s).2 = true.
Proof. induction s as [|a s IH]; [done|]. cbn [str_forall take_name]. intros [Ha Hs]%andb_true_iff. destruct (is_ident a); cbn; [by apply IH|by rewrite Ha, Hs]. Qed.

Lemma placeholder_forall f s : str_forall f s = true -> str_forall f (placeholder s).2 = true.
Proof.
  destruct s as [|a s]; [done|]. intros Hs. unfold placeholder. case_bool_decide; [|by apply take_name_forall].
  cbn [str_forall] in Hs. apply andb_true_iff in Hs as [_ Hs]. unfold take_braced. destruct (split_once "}" s) as [[l r]|] eqn:E; [|done].
  apply split_once_some in E as [_ ->]. rewrite str_forall_app in Hs. cbn in Hs. apply andb_true_iff in Hs as [_ Hs]. by apply andb_true_iff in Hs as [_ Hs].
Qed.

Lemma render_forall f resolve template : f "$"%char = true -> (forall name, str_forall f (resolve name) = true) ->
  str_forall f template = true -> str_forall f (render_template false resolve template) = true.
Proof.
  intros Hd Hr. unfold render_template. remember (String.length template) as n eqn:Hn. assert (Hle : (String.length template <= n)%nat) by lia. clear Hn.
  revert template Hle. induction n as [|n IH]; intros [|ch rest] Hle Ht; cbn [String.length] in Hle; try done; try lia.
  cbn [str_forall] in Ht. apply andb_true_iff in Ht as [Hc Hrest]. rewrite render_unfold. cbn [andb]. destruct (negb _); cbn [fst].
  { cbn [str_forall]. rewrite Hc. apply IH; [lia|done]. }
  pose proof (placeholder_length rest). pose proof (placeholder_forall f rest Hrest). destruct (placeholder rest) as [name rest']. cbn [snd] in *.
  case_bool_decide; cbn [fst]; [cbn [str_forall]; rewrite Hd; apply IH; [lia|done]|]. rewrite str_forall_app, Hr. apply IH; [lia|done].
Qed.

Lemma str_forall_impl (f g : ascii -> bool) s : (forall a, f a = true -> g a = true) -> str_forall f s = true -> str_forall g s = true.
Proof. intros Hi. induction s as [|a s IH]; [done|]. cbn [str_forall]. intros [Ha Hs]%andb_true_iff. by rewrite (Hi a Ha), IH. Qed.

Lemma digit_plain a : is_ascii_digit a = true -> log_byte a = true.
Proof.
  intros Ha. enough (Hi : implb (is_ascii_digit a) (log_byte a) = true) by (by rewrite Ha in Hi).
  clear Ha. revert a. apply on_bytes. vm_compute. reflexivity.
Qed.

Lemma pretty_plain (z : Z) : str_forall log_byte (pretty z) = true.
Proof.
  assert (Hp : forall p, str_forall log_byte (pretty_N_go (N.pos p) "") = true).
  { intros p. apply (str_forall_impl is_ascii_digit); [apply digit_plain|]. by rewrite (proj1 (pretty_N_go_digits (N.pos p) "")). }
  destruct z as [|p|p]; [done|exact (Hp p)|]. change (pretty (Z.neg p)) with ("-" +:+ pretty_N_go (N.pos p) ""). rewrite str_forall_app. by rewrite Hp.
Qed.

Section lines.
Context `{HttpTypes} `{LogLib} (seconds : Z -> Json).
Context (log_json_plain : forall v, str_forall log_byte (log_json v) = true).

(** Printed addresses hold no control bytes. *)
Definition plain_addresses (s : LogSession) : Prop :=
  str_forall log_byte (default "" (client_addr s)) = true /\ str_forall log_byte (default "" (local_addr s)) = true.

Lemma log_var_plain s names var : plain_addresses s -> str_forall log_byte (resolve_log_var s names var) = true.
Proof.
  intros [Hc Hl]. unfold resolve_log_var. destruct (strip_prefix "var_" var); [apply push_escaped_plain|].
  repeat case_bool_decide; try apply push_escaped_plain; try apply pretty_plain; try done.
  - by destruct (client_port (session s)); [apply pretty_plain|].
  - by destruct (response_status s); [apply pretty_plain|].
  - by destruct (is_http2 s).
Qed.

(** One request, one line.  Whatever a client put into its method, path,
    query and headers, and whatever the context holds: what the logger emits for
    a request has no line break or other control byte, so a request cannot forge
    a second entry; in the file it is one line with one newline at its end. *)
Theorem one_line_per_request self s ctx : plain_addresses s -> str_forall log_byte (fl_log_format self) = true ->
  match (logging seconds self s ctx).1, fl_writer self with
  | Info line, None => str_forall log_byte line = true
  | Enqueued w', Some w => exists line, str_forall log_byte line = true /\ w' = write_line line w /\
      line = render_json_entry seconds s (ctx !! request_body_key self) (base.delete (request_body_key self) ctx !! response_body_key self) (fl_include_req self) (fl_include_resp self)
  | _, _ => False
  end.
Proof.
  intros Hs Hf. unfold logging. destruct (fl_writer self) as [w|]; cbn [take_body_buffer fst].
  - eexists. split; [apply log_json_plain|]. split; [reflexivity|done].
  - unfold render. apply render_forall; [done| |done]. intros name. by apply log_var_plain.
Qed.
End lines.

(** ** Captured bodies *)

Lemma substring_prefix n s : (String.length s <= n)%nat -> String.substring 0 n s = s.
Proof. revert n. induction s as [|a s IH]; intros [|n] Hn; cbn in *; try done; try lia. f_equal. apply IH. lia. Qed.
Lemma substring_app n s t : String.substring 0 n (s +:+ t) = String.substring 0 n s +:+ String.substring 0 (n - String.length s) t.
Proof.
  revert n. induction s as [|a s IH]; intros n; cbn [String.append String.length]; [rewrite Nat.sub_0_r; by destruct n|].
  destruct n as [|n]; [by destruct t|]. cbn. f_equal. apply IH.
Qed.
Lemma substring_length n s : String.length (String.substring 0 n s) = Nat.min n (String.length s).
Proof. revert n. induction s as [|a s IH]; intros [|n]; cbn; try done. by rewrite IH. Qed.

Definition captured (max : Z) (whole : string) : BodyBuffer :=
  {| bytes := String.substring 0 (Z.to_nat max) whole; exceeded := max <? blen whole |}.

(** The buffer is the prefix of the body up to the cap, and marked exactly when
    the body is longer. *)
Lemma append_captured max whole chunk : 0 <= max -> append (captured max whole) chunk max = captured max (whole +:+ chunk).
Proof.
  intros Hmax. unfold append, captured. cbn [exceeded bytes]. rewrite substring_app, blen_app. pose proof (blen_nonneg chunk). unfold blen in *.
  rewrite substring_length. destruct (Z.ltb_spec max (Z.of_nat (String.length whole))).
  - f_equal; [|symmetry; apply Z.ltb_lt; lia]. replace (Z.to_nat max - String.length whole)%nat with 0%nat by lia. destruct chunk; by rewrite str_app_nil_r.
  - set (r := max - Z.of_nat (String.length whole)).
    replace (Z.max 0 (max - Z.of_nat (Nat.min (Z.to_nat max) (String.length whole)))) with r by lia.
    f_equal; [f_equal|].
    + destruct (Z.leb_spec (Z.of_nat (String.length chunk)) r).
      * rewrite Z.min_r by done. rewrite Nat2Z.id, !substring_prefix; [done|lia|lia].
      * rewrite Z.min_l by lia. f_equal. lia.
    + destruct (Z.ltb_spec (Z.min r (Z.of_nat (String.length chunk))) (Z.of_nat (String.length chunk)));
        [symmetry; apply Z.ltb_lt; lia|symmetry; apply Z.ltb_ge; lia].
Qed.

Definition capture (self : PluginFileLogger) (ctx : Vars) (chunks : list (option string)) : Vars :=
  fold_left (fun ctx c => (request_body_filter self c ctx).2) chunks ctx.

Lemma capture_other self ctx chunks key : key <> request_body_key self -> capture self ctx chunks !! key = ctx !! key.
Proof.
  intros Hne. unfold capture. revert ctx. induction chunks as [|c l IH]; intros ctx; [done|]. cbn [fold_left]. rewrite IH. unfold request_body_filter.
  destruct (negb _ || negb _); [done|]. destruct c; [|done]. cbn. unfold append_body. by rewrite lookup_insert_ne.
Qed.

Lemma capture_spec self ctx chunks : fl_include_req self = true -> is_Some (fl_writer self) -> 0 <= fl_max_req self ->
  capture self ctx chunks !! request_body_key self =
    match omap Datatypes.id chunks with
    | [] => ctx !! request_body_key self
    | _ => Some (fold_left (fun b c => append b c (fl_max_req self)) (omap Datatypes.id chunks) (default BodyBuffer_default (ctx !! request_body_key self)))
    end.
Proof.
  intros Hi Hw Hm. unfold capture. revert ctx. induction chunks as [|c l IH]; intros ctx; [done|]. cbn [fold_left]. rewrite IH. unfold request_body_filter, has_writer.
  rewrite Hi, bool_decide_true by done. cbn [negb orb snd]. destruct c as [c|]; [|done]. cbn [omap list_omap Datatypes.id]. unfold append_body. rewrite lookup_insert_eq. cbn [fold_left].
  by destruct (omap Datatypes.id l).
Qed.

Lemma body_captured self ctx chunks : fl_include_req self = true -> is_Some (fl_writer self) -> 1 <= fl_max_req self ->
  ctx !! request_body_key self = None -> 
  (forall c, (request_body_filter self c ctx).1 = c) /\
  default BodyBuffer_default (capture self ctx chunks !! request_body_key self) = captured (fl_max_req self) (joined chunks).
Proof.
  intros Hi Hw Hm Hn. split; [intros c; unfold request_body_filter; by destruct (_ || _)|].
  rewrite capture_spec by (done || lia). rewrite Hn.
  assert (Hf : forall l whole, fold_left (fun b c => append b c (fl_max_req self)) (omap Datatypes.id l) (captured (fl_max_req self) whole) = captured (fl_max_req self) (whole +:+ joined l)).
  { intros l. induction l as [|c l IH]; intros whole; [by rewrite str_app_nil_r|]. rewrite joined_cons. destruct c as [c|]; cbn [omap list_omap Datatypes.id fold_left default].
    - rewrite append_captured by lia. by rewrite IH, str_app_assoc.
    - apply IH. }
  assert (H0 : BodyBuffer_default = captured (fl_max_req self) "").
  { unfold captured, BodyBuffer_default. f_equal; [by destruct (Z.to_nat _)|]. symmetry. apply Z.ltb_ge. change (blen "") with 0. lia. }
  rewrite H0. change (joined chunks) with ("" +:+ joined chunks). rewrite <-(Hf chunks ""). cbn [default]. destruct (omap Datatypes.id chunks); done.
Qed.

(** ** The writer, over every interleaving *)

(** The lines an event puts into the channel. *)
Definition accepted (w : FileLogWriter) (e : WriterEvent) : list string :=
  match e with
  | Log line => if sender_open w && match pc w with Finished => false | _ => true end && (length (queue w) <? LOG_QUEUE_CAPACITY)%nat
                then [line +:+ newline] else []
  | _ => []
  end.
Fixpoint accepted_lines (w : FileLogWriter) (es : list WriterEvent) : list string :=
  match es with [] => [] | e :: es => (accepted w e ++ accepted_lines (writer_event w e) es)%list end.

Definition in_hand (w : FileLogWriter) : list string := match pc w with Writing line => [line] | _ => [] end.

(** What the writer has done with the lines accepted so far: written, in its
    hand, queued, or abandoned, in this order. *)
Definition accounted (w : FileLogWriter) (lines : list string) : Prop :=
  exists lost, lines = ((written w).*1 ++ in_hand w ++ queue w ++ lost)%list /\ length lost = abandoned w /\
    (pc w <> Finished -> lost = []) /\ (pc w = Finished -> queue w = []).

Record writer_ok (w : FileLogWriter) : Prop := {
  ok_queue : (length (queue w) <= LOG_QUEUE_CAPACITY)%nat;
  ok_open : closing w = false -> closing_seen w = false;
  ok_seen : closing_seen w = false -> drained_after_close w = 0%nat;
  ok_budget : pc w <> Finished -> (drained_after_close w < SHUTDOWN_DRAIN_BUDGET)%nat;
  ok_drained : (drained_after_close w <= SHUTDOWN_DRAIN_BUDGET)%nat;
  ok_abandoned : abandoned w <> 0%nat -> drained_after_close w = SHUTDOWN_DRAIN_BUDGET;
  ok_finished : pc w = Finished -> sender_open w = false \/ closing w = true;
}.

#[local] Arguments Nat.ltb : simpl never.
#[local] Arguments Nat.leb : simpl never.

(** Cases of the invariant: hypotheses whose premise holds are used. *)
Ltac ok_fields :=
  split; cbn; intros; try tauto; try discriminate;
  repeat match goal with H : ?a <> ?b -> _ |- _ => let F := fresh in assert (F : a <> b) by (discriminate || assumption); specialize (H F); clear F end;
  try tauto; try lia; try congruence.

Lemma start_ok : writer_ok start.
Proof. split; cbn; intros; try done; unfold LOG_QUEUE_CAPACITY, SHUTDOWN_DRAIN_BUDGET in *; lia. Qed.

Lemma event_ok w e : writer_ok w -> writer_ok (writer_event w e).
Proof.
  intros [H1 H2 H3 H4 H5 H6 H7]. destruct w as [q so cl p cs dr ab wr dd]. cbn in *. destruct e as [line| | |b]; cbn [writer_event].
  - unfold write_line. cbn. destruct so; cbn; [|by ok_fields]. destruct p; [..|by ok_fields].
    all: destruct (Nat.ltb_spec (length q) LOG_QUEUE_CAPACITY); ok_fields; rewrite ?length_app; cbn; lia.
  - ok_fields.
  - ok_fields.
  - unfold writer_step. cbn. destruct p; cbn.
    + destruct q as [|l q]; [destruct so|]; cbn in *; ok_fields.
    + ok_fields.
    + destruct (cs || cl) eqn:E; cbn.
      * assert (Hcl : cl = true) by (destruct cl; [done|by rewrite H2 in E]). subst cl.
        destruct (Nat.leb_spec SHUTDOWN_DRAIN_BUDGET (S dr)) as [Hb|Hb]; ok_fields.
      * apply orb_false_iff in E as [-> ->]. ok_fields.
    + ok_fields.
Qed.

Lemma writer_run_ok w es : writer_ok w -> writer_ok (run_events w es).
Proof. unfold run_events. revert w. induction es as [|e es IH]; intros w Hw; [done|]. cbn [fold_left]. by apply IH, event_ok. Qed.

Lemma event_accounted w e lines : accounted w lines -> accounted (writer_event w e) (lines ++ accepted w e).
Proof.
  intros (lost & -> & Hl & Hn & Hf). destruct w as [q so cl p cs dr ab wr dd]. cbn in *. unfold accounted, in_hand. destruct e as [line| | |b]; cbn [writer_event accepted].
  - unfold write_line. cbn. destruct so; cbn [andb negb]; [|exists lost; by rewrite app_nil_r].
    destruct p; cbn [andb]; try (exists lost; by rewrite app_nil_r).
    all: destruct (length q <? LOG_QUEUE_CAPACITY)%nat; cbn; [|exists lost; by rewrite app_nil_r].
    all: rewrite (Hn ltac:(done)) in *; exists []; rewrite !app_nil_r, <-?app_assoc; cbn; rewrite <-?app_assoc; by split_and!.
  - exists lost. by rewrite app_nil_r.
  - exists lost. by rewrite app_nil_r.
  - rewrite app_nil_r. unfold writer_step. cbn. destruct p; cbn.
    + destruct q as [|l q]; [destruct so|]; cbn; exists lost; split_and!; try done; intros; by apply Hn.
    + exists lost. rewrite fmap_app, <-app_assoc. split_and!; try done; intros; by apply Hn.
    + rewrite (Hn ltac:(done)) in *. destruct (cs || cl); cbn; [destruct (_ <=? _)%nat; cbn|]; [exists q|exists []|exists []]; rewrite ?app_nil_r; split_and!; try done; by rewrite ?app_nil_r.
    + exists lost. by split_and!.
Qed.

Lemma run_accounted w es lines : accounted w lines -> accounted (run_events w es) (lines ++ accepted_lines w es).
Proof.
  unfold run_events. revert w lines. induction es as [|e es IH]; intros w lines Hw; cbn [fold_left accepted_lines]; [by rewrite app_nil_r|].
  rewrite app_assoc. by apply IH, event_accounted.
Qed.

(** *** The drain after the flag *)

(** Writes since the flag, against the budget already used; the line whose
    check is still to come is not yet charged. *)
Definition since_close (n : nat) (w : FileLogWriter) : Prop :=
  closing w = true /\ (length (written w) <= n + drained_after_close w + match pc w with Checking => 1 | _ => 0 end)%nat.

Lemma event_since n w e : since_close n w -> since_close n (writer_event w e).
Proof.
  unfold since_close. intros [Hc Hw]. destruct w as [q so cl p cs dr ab wr dd]. cbn in *. subst cl. destruct e as [line| | |b]; cbn [writer_event].
  - unfold write_line. cbn. destruct so; cbn; [|done]. destruct p; try done. all: by destruct (_ <? _)%nat.
  - done.
  - done.
  - unfold writer_step. cbn. destruct p; cbn.
    + destruct q as [|l q]; [destruct so|]; cbn; split; try done; lia.
    + split; [done|]. rewrite length_app. cbn. lia.
    + rewrite orb_true_r. cbn. destruct (_ <=? _)%nat; cbn; split; try done; lia.
    + done.
Qed.

Lemma run_since n w es : since_close n w -> since_close n (run_events w es).
Proof. unfold run_events. revert w. induction es as [|e es IH]; intros w Hw; [done|]. cbn [fold_left]. by apply IH, event_since. Qed.

(** Steps the thread still takes once the flag is set and the sender gone. *)
Definition left_to_do (w : FileLogWriter) : nat :=
  match pc w with
  | Finished => 0
  | Receiving => 3 * (SHUTDOWN_DRAIN_BUDGET - drained_after_close w) + 3
  | Writing _ => 3 * (SHUTDOWN_DRAIN_BUDGET - drained_after_close w) + 2
  | Checking => 3 * (SHUTDOWN_DRAIN_BUDGET - drained_after_close w) + 1
  end.

Lemma left_bound w : (left_to_do w <= 771)%nat.
Proof. unfold left_to_do, SHUTDOWN_DRAIN_BUDGET. destruct (pc w); lia. Qed.

Lemma step_progress ok w : writer_ok w -> closing w = true -> sender_open w = false ->
  let w' := writer_step ok w in closing w' = true /\ sender_open w' = false /\ (pc w <> Finished -> left_to_do w' < left_to_do w)%nat.
Proof.
  intros [_ _ _ H4 _ _ _] Hc Hs. cbv zeta. destruct w as [q so cl p cs dr ab wr dd]. cbn in *. subst. unfold writer_step, left_to_do. cbn [pc queue sender_open].
  destruct p; cbn.
  - destruct q; cbn; split_and!; try done; lia.
  - split_and!; try done. lia.
  - rewrite orb_true_r. cbn. specialize (H4 ltac:(done)). destruct (_ <=? _)%nat; cbn; split_and!; try done; lia.
  - done.
Qed.

Lemma drain_ends oks w : writer_ok w -> closing w = true -> sender_open w = false -> (left_to_do w <= length oks)%nat ->
  pc (run_events w (Worker <$> oks)) = Finished.
Proof.
  revert w. induction oks as [|ok oks IH]; intros w Hw Hc Hs Hn.
  - cbn in *. unfold left_to_do in Hn. destruct (pc w); lia || done.
  - change (run_events w (Worker <$> ok :: oks)) with (run_events (writer_step ok w) (Worker <$> oks)).
    destruct (step_progress ok w Hw Hc Hs) as (Hc' & Hs' & Hlt). apply IH; try done; [by apply (event_ok w (Worker ok))|].
    cbn [length] in Hn. destruct (pc w) eqn:E; try (specialize (Hlt ltac:(done)); lia). unfold writer_step. rewrite E. unfold left_to_do. rewrite E. lia.
Qed.

(** C35 (the log writer's contract).  Over every interleaving of requests, the
    plugin's drop and the writer thread: the lines accepted are written in order
    and once, and what is not yet written is the line in hand, the queue of at
    most 1024, or lost.  From the flag on at most 256 lines are written, whatever
    is queued; with the sender gone the thread ends within 771 steps of its own,
    so the drop returns; and lines are lost only when the whole budget was used. *)
Theorem writer_contract (es es' : list WriterEvent) (oks : list bool) : (771 <= length oks)%nat ->
  let w := run_events start es in
  let shut := run_events w (Close :: es') in
  let joined := run_events shut (Hangup :: (Worker <$> oks)) in
  accounted w (accepted_lines start es) /\
  (length (queue w) <= LOG_QUEUE_CAPACITY)%nat /\
  (length (written shut) <= length (written w) + SHUTDOWN_DRAIN_BUDGET)%nat /\
  pc joined = Finished /\
  exists lost, accepted_lines start (es ++ Close :: es') = ((written joined).*1 ++ lost)%list /\ length lost = abandoned joined /\
    (lost <> [] -> drained_after_close joined = SHUTDOWN_DRAIN_BUDGET).
Proof.
  intros Hn w shut fin. assert (Hw : writer_ok w) by apply writer_run_ok, start_ok.
  assert (Hshut : writer_ok shut) by (by apply writer_run_ok).
  assert (Hacc : accounted w (accepted_lines start es)).
  { apply (run_accounted start es []). exists []. by split_and!. }
  split; [done|]. split; [by apply ok_queue|]. split.
  { destruct (run_since (length (written w)) (writer_event w Close) es') as [_ Hl].
    - split; [done|]. cbn. lia.
    - change (run_events (writer_event w Close) es') with shut in Hl. pose proof (ok_budget _ Hshut) as Hb. pose proof (ok_drained _ Hshut).
      destruct (pc shut) eqn:Ep; try lia. specialize (Hb ltac:(congruence)). lia. }
  assert (Hfin : pc fin = Finished).
  { apply (drain_ends oks (take_sender shut)); [by apply (event_ok shut Hangup)| |done|].
    - subst shut. change (run_events w (Close :: es')) with (run_events (writer_event w Close) es'). destruct (run_since (length (written w)) (writer_event w Close) es') as [Hc _]; [split; [done|cbn; lia]|done].
    - pose proof (left_bound (take_sender shut)). lia. }
  split; [done|].
  assert (Haccf : accounted fin (accepted_lines start (es ++ Close :: es'))).
  { assert (Happ : forall a b v, accepted_lines v (a ++ b) = (accepted_lines v a ++ accepted_lines (run_events v a) b)%list).
    { intros a b. induction a as [|e a IH]; intros v; [done|]. cbn. rewrite IH. by rewrite app_assoc. }
    assert (Hnone : forall l v, accepted_lines v (Worker <$> l) = []) by (intros l; induction l as [|ok l IH]; intros v; [done|exact (IH _)]).
    pose proof (run_accounted shut (Hangup :: (Worker <$> oks)) (accepted_lines start (es ++ Close :: es'))) as Hf.
    rewrite <-(app_nil_r (accepted_lines start (es ++ Close :: es'))). rewrite <-(Hnone oks (take_sender shut)). apply Hf.
    rewrite Happ. by apply run_accounted. }
  destruct Haccf as (lost & Hl & Hlen & _ & Hq). specialize (Hq Hfin). unfold in_hand in Hl. rewrite Hfin, Hq in Hl. exists lost. split; [done|]. split; [done|].
  intros Hne. apply ok_abandoned; [apply writer_run_ok; exact Hshut|]. rewrite <-Hlen. by destruct lost.
Qed.

(** ** Concrete logs *)

Module ToyLog.
#[export] Instance lib : LogLib := {
  logger_from_value v := match v with JNull => Ok PluginConfig_default | _ => Err "not read" end;
  open_append path := if starts_with path "/" then Ok () else Err "no such file";
  spawn_thread _ := Ok ();
  log_base64 s := s;
  log_json _ := "{}";
}.
Definition request : Session :=
  {| req_header := ToyHttp.header (None, "/a?token=s&x=1") [("user-agent", "curl")]; ssl_digest := false;
     client_ip := Some "10.0.0.1"; client_port := Some 4711; RequestVars.server_addr := None |}.
Definition seen : @LogSession ToyHttp.http :=
  {| session := request; client_addr := Some "10.0.0.1:4711"; local_addr := None; response_status := Some 200; is_http2 := false; body_bytes_sent := 2;
     elapsed_ms := 7; ctx_request_id := None; ctx_str := fun _ => Some ("bob" +:+ newline +:+ "10.0.0.9 GET /forged 200"); log_error := None |}.
Definition seconds (ms : Z) : Json := JNumber (NInt ms).
Definition agent_logger : PluginFileLogger :=
  {| fl_log_format := "$remote_addr $request_method $uri?$query_string $http_user_agent ${var_user}"; fl_redact := ["token"]; fl_writer := None; fl_include_req := false;
     fl_include_resp := false; fl_max_req := 8; fl_max_resp := 8; request_body_key := "req"; response_body_key := "resp" |}.
End ToyLog.
Import ToyHttp ToyLog.

Lemma one_line_per_request_witness : exists line, (logging ToyLog.seconds agent_logger seen ∅).1 = Info line /\ str_forall log_byte line = true /\
  line = "10.0.0.1:4711 GET /a?token=***&x=1 curl bob\n10.0.0.9 GET /forged 200".
Proof.
  eexists. split; [reflexivity|]. split; [|vm_compute; reflexivity].
  exact (one_line_per_request ToyLog.seconds (fun v => eq_refl) agent_logger seen ∅ (conj eq_refl eq_refl) eq_refl).
Defined.

(** Three lines, a full drain and nothing lost: the flag is set while the
    second is in the thread's hand. *)
Definition demo_events : list WriterEvent := [Log "a"; Log "b"; Worker true; Worker true; Log "c"; Worker true; Worker true].

Lemma writer_contract_witness : exists joined,
  run_events (run_events (run_events start demo_events) [Close]) (Hangup :: (Worker <$> repeat true 771)) = joined /\
  pc joined = Finished /\ (written joined).*1 = (fun l => l +:+ newline) <$> ["a"; "b"; "c"].
Proof.
  eexists. split; [reflexivity|].
  destruct (writer_contract demo_events [] (repeat true 771) ltac:(rewrite repeat_length; lia)) as (_ & _ & _ & Hf & lost & Hl & Hlen & _).
  split; [exact Hf|].
  assert (Ha : abandoned (run_events (run_events (run_events start demo_events) [Close]) (Hangup :: (Worker <$> repeat true 771))) = 0%nat) by (vm_compute; reflexivity).
  rewrite Ha in Hlen. destruct lost as [|x lost]; [|discriminate Hlen]. rewrite app_nil_r in Hl. rewrite <-Hl. vm_compute. reflexivity.
Defined.

(** Documented variables without an arm render empty, and [$remote_addr] is the
    address with its port. *)
Example documented_variables_empty :
  resolve_log_var seen [] "remote_user" = "" /\ resolve_log_var seen [] "time_local" = "" /\ resolve_log_var seen [] "request" = "" /\
  resolve_log_var seen [] "remote_addr" = "10.0.0.1:4711".
Proof. vm_compute. done. Qed.

(** A listed parameter is found by its raw spelling only. *)
Example encoded_name_not_redacted : redact_query "%74oken=s&token=s" ["token"] = "%74oken=s&token=***".
Proof. reflexivity. Qed.

(** A body of exactly the cap is complete; one byte more is marked. *)
Example capped_bodies :
  (append (append BodyBuffer_default "abcd" 8) "efgh" 8, append (append BodyBuffer_default "abcd" 8) "efghi" 8) =
  ({| bytes := "abcdefgh"; exceeded := false |}, {| bytes := "abcdefgh"; exceeded := true |}).
Proof. reflexivity. Qed.
