(* ===== verification/Logging.v ===== *)
(** * The process log ([src/src/logging/mod.rs])

    The bounded channel in front of the log service, the service's loop with
    its fallback to standard error, the drain at shutdown, and the rotation of
    backups over the files of the log's directory.  Outcomes of input and output
    are read from an oracle, a list of booleans that ends in success.  A line
    counts as the file's once its buffered writer has taken it: what the buffer
    of 4096 bytes still holds when a later write fails is not tracked.  Files are
    known by their name in the log's directory; the time a failure backs off and
    the environment's log levels are not modelled. *)

From Stdlib Require Import ZArith Lia Ascii.
From stdpp Require Import base tactics gmap strings pretty option list.
From S2P Require Import Prelude Errors GraphStore Utf8 Hosts Json Config RequestVars ResponseRewrite RequestBodies Settings.

Open Scope Z_scope.

(** ** Rotation *)

(** The files of the log's directory, by name. *)
Abbreviation Dir := (gmap string string).

(** [str::parse::<u32>] *)
Definition parse_u32 (s : string) : option Z :=
  match parse_u64 s with Some v => if v <=? u32_max then Some v else None | None => None end.

Definition backup (name : string) (index : Z) : string := name +:+ "." +:+ pretty index.

(** A backup number beyond the ones kept. *)
Definition stale (name : string) (max_backups : Z) (file : string) : bool :=
  match strip_prefix (name +:+ ".") file with
  | Some suffix => match parse_u32 suffix with Some index => max_backups <? index | None => false end
  | None => false
  end.

(** [rename]: over whatever the target was; [None] when there is no source. *)
Definition rename (from to : string) (d : Dir) : option Dir :=
  match d !! from with Some content => Some (<[to := content]> (base.delete from d)) | None => None end.

(** A missing source is skipped. *)
Definition shift_one (name : string) (d : Dir) (index : Z) : Dir :=
  default d (rename (backup name index) (backup name (index + 1)) d).

(** [(1..max_backups).rev()] *)
Definition descending (max_backups : Z) : list Z := (fun i => Z.of_nat (i + 1)) <$> rev (seq 0 (Z.to_nat (max_backups - 1))).

(** [rotate_log_file] while the file system answers: [None] is the error of a
    log file that is gone. *)
Definition rotate_log_file (name : string) (max_backups : Z) (d : Dir) : option Dir :=
  let d := base.filter (fun kv => stale name max_backups kv.1 = false) d in
  if max_backups =? 0 then Some (base.delete name d)
  else rename name (backup name 1) (fold_left (shift_one name) (descending max_backups) d).

(** ** The channel *)

Inductive Sink : Type := ToFile | ToStderr.

(** [out] holds what became of the lines that went through the channel, in
    order; [direct] what writers put on standard error themselves. *)

Record Logger : Type := {
  config : Log.t;
  queue : list string;
  closed : bool;
  stopped : bool;
  file_writer : bool;
  written_bytes : Z;
  fail_count : Z;
  summaries : Z;
  rotations : Z;
  dropped : Z;
  out : list (Sink * string);
  direct : list string;
}.
#[export] Instance eta_Logger : Eta Logger := fun s =>
  Build_Logger (config s) (queue s) (closed s) (stopped s) (file_writer s) (written_bytes s) (fail_count s) (summaries s) (rotations s) (dropped s) (out s) (direct s).

Definition Logger_new (config : Log.t) : Logger :=
  {| config := config; queue := []; closed := false; stopped := false; file_writer := false; written_bytes := 0; fail_count := 0; summaries := 0;
     rotations := 0; dropped := 0; out := []; direct := [] |}.

(** [AsyncWriter::write]: what the channel does not take is counted, and kept
    on standard error once the service has stopped.  The second component tells
    whether the summary of discarded messages is printed; the counter of
    summaries is shared by all writers. *)
Definition async_write (buf : string) (drop_summary : Z) (s : Logger) : Logger * bool * Z :=
  if negb (closed s) && (Z.of_nat (length (queue s)) <? Log.channel_capacity (config s)) then (s <| queue := (queue s ++ [buf])%list |>, false, drop_summary)
  else
    let s := s <| dropped := dropped s + 1 |> in
    if stopped s then (s <| direct := (direct s ++ [buf])%list |>, false, drop_summary)
    else (s, drop_summary mod 16 =? 0, (drop_summary + 1) mod 2 ^ 64).

(** ** The service *)

Definition FAILURE_SUMMARY_EVERY : Z := 16.
Definition BATCH : nat := 256.

Abbreviation Oracle := (list bool).
Definition io (o : Oracle) : bool * Oracle := match o with [] => (true, []) | ok :: o => (ok, o) end.

Definition emit (sink : Sink) (data : string) (s : Logger) : Logger := s <| out := (out s ++ [(sink, data)])%list |>.
Definition saturating_add_u64 (a b : Z) : Z := Z.min (a + b) u64_max.

Definition report_write_failure (s : Logger) : Logger :=
  let n := saturating_add_u64 (fail_count s) 1 in
  let s := s <| fail_count := n |> in
  if n mod FAILURE_SUMMARY_EVERY =? 0 then s <| summaries := summaries s + 1 |> else s.

Definition fall_back (s : Logger) : Logger := s <| file_writer := false |> <| stopped := true |>.

(** [create_dir_all] and [open_log_file]; [existing] is the file's length. *)
Definition open_at_start (existing : Z) (o : Oracle) (s : Logger) : Logger * Oracle :=
  let '(ok, o) := io o in
  (if ok then s <| file_writer := true |> <| written_bytes := existing |> else fall_back s, o).

(** Up to 256 queued lines to standard error. *)
Fixpoint drain_stderr (n : nat) (s : Logger) : Logger :=
  match n, queue s with
  | S n, queued :: q => drain_stderr n (emit ToStderr queued (s <| queue := q |>))
  | _, _ => s
  end.

(** The batch behind a line that was written. *)
Fixpoint batch (n : nat) (o : Oracle) (s : Logger) : Logger * Oracle :=
  match n, queue s with
  | S n, queued :: q =>
    let s := s <| queue := q |> in
    let '(ok, o) := io o in
    if ok then batch n o ((emit ToFile queued s) <| written_bytes := saturating_add_u64 (written_bytes s) (blen queued) |>)
    else (drain_stderr BATCH (fall_back (report_write_failure (emit ToStderr queued s))), o)
  | _, _ => (s, o)
  end.

(** The flush, the rotation and the new file; [rotated] tells whether the
    service goes on to the batch. *)
Definition rotate (o : Oracle) (s : Logger) : Logger * Oracle * bool :=
  let '(ok, o) := io o in
  if negb ok then (fall_back (report_write_failure s), o, false)
  else
    let s := s <| file_writer := false |> in
    let '(ok, o) := io o in
    if negb ok then (drain_stderr BATCH ((report_write_failure s) <| stopped := true |>), o, false)
    else
      let '(ok, o) := io o in
      if ok then (s <| file_writer := true |> <| written_bytes := 0 |> <| rotations := rotations s + 1 |>, o, true)
      else (drain_stderr BATCH ((report_write_failure s) <| stopped := true |>), o, false).

Definition should_rotate (s : Logger) : bool :=
  match Log.rotation (config s) with Log.Internal => Log.max_size_bytes (config s) <=? written_bytes s | _ => false end.

(** The arm of a received line. *)
Definition received (data : string) (o : Oracle) (s : Logger) : Logger * Oracle :=
  if file_writer s then
    let '(ok, o) := io o in
    if ok then
      let s := (emit ToFile data s) <| fail_count := 0 |> <| written_bytes := saturating_add_u64 (written_bytes s) (blen data) |> in
      if should_rotate s then
        let '(s, o, go_on) := rotate o s in
        if go_on then batch BATCH o s else (s, o)
      else batch BATCH o s
    else (drain_stderr BATCH (fall_back (report_write_failure (emit ToStderr data s))), o)
  else (drain_stderr BATCH (emit ToStderr data s), o).

(** The arm of the flush interval. *)
Definition tick (o : Oracle) (s : Logger) : Logger * Oracle :=
  if file_writer s then
    let '(ok, o) := io o in
    (if ok then s <| fail_count := 0 |> else fall_back (report_write_failure s), o)
  else (s, o).

(** The lines taken before the deadline passes, and the count of the rest. *)
Fixpoint shutdown_drain (in_time : nat) (o : Oracle) (q : list string) (s : Logger) {struct q} : Logger * Oracle :=
  match q with
  | [] => (s <| queue := [] |>, o)
  | data :: q =>
    match in_time with
    | O => (s <| queue := [] |> <| dropped := dropped s + 1 + Z.of_nat (length q) |>, o)
    | S in_time =>
      if file_writer s then
        let '(ok, o) := io o in
        shutdown_drain in_time o q (if ok then emit ToFile data s else (emit ToStderr data s) <| file_writer := false |>)
      else shutdown_drain in_time o q (emit ToStderr data s)
    end
  end.

Definition finish (in_time : nat) (o : Oracle) (s : Logger) : Logger * Oracle :=
  let s := s <| closed := true |> <| stopped := true |> in
  shutdown_drain in_time o (queue s) s.

(** Events of the loop, and those of the writers in between. *)
Inductive LogEvent : Type := Write (buf : string) | Recv | Tick.

Definition log_event (st : Logger * Oracle) (e : LogEvent) : Logger * Oracle :=
  let '(s, o) := st in
  match e with
  | Write buf => ((async_write buf 0 s).1.1, o)
  | Recv => match queue s with data :: q => received data o (s <| queue := q |>) | [] => (s, o) end
  | Tick => tick o s
  end.
Definition run_service (config : Log.t) (existing : Z) (o : Oracle) (es : list LogEvent) : Logger * Oracle :=
  fold_left log_event es (open_at_start existing o (Logger_new config)).

(** ** Where the lines go *)

(** The file has the lines up to the first failure, standard error the rest. *)
Definition sinks_split (l : list Sink) : Prop := exists n m, l = (repeat ToFile n ++ repeat ToStderr m)%list.

Record opened (s : Logger) : Prop := {
  op_file : file_writer s = true;
  op_fail : fail_count s = 0;
  op_summaries : summaries s = 0;
  op_sinks : exists n, (out s).*1 = repeat ToFile n;
}.
Record fallen (s : Logger) : Prop := {
  fa_file : file_writer s = false;
  fa_stopped : stopped s = true;
  fa_fail : 0 <= fail_count s <= 1;
  fa_summaries : summaries s = 0;
  fa_sinks : sinks_split (out s).*1;
}.
Definition log_ok (s : Logger) : Prop := opened s \/ fallen s.

Lemma repeat_snoc {A} (x : A) n : (repeat x n ++ [x])%list = repeat x (S n).
Proof. induction n as [|n IH]; [done|]. cbn [repeat app]. by rewrite IH. Qed.

Lemma emit_stderr data s : sinks_split (out s).*1 -> sinks_split (out (emit ToStderr data s)).*1.
Proof. intros (n & m & Hs). exists n, (S m). cbn. rewrite fmap_app, Hs, <-app_assoc. cbn. by rewrite repeat_snoc. Qed.

Lemma drain_fallen n s : fallen s -> fallen (drain_stderr n s).
Proof.
  revert s. induction n as [|n IH]; intros s Hs; [done|]. cbn [drain_stderr]. destruct (queue s) as [|l q]; [done|]. apply IH.
  destruct Hs as [H1 H2 H3 H4 H5]. split; try done. by apply emit_stderr.
Qed.

(** A failure ends the file for good. *)
Lemma fail_fallen s : 0 <= fail_count s <= 0 -> summaries s = 0 -> sinks_split (out s).*1 ->
  fallen (fall_back (report_write_failure s)) /\ fallen ((report_write_failure (s <| file_writer := false |>)) <| stopped := true |>).
Proof.
  intros Hf Hs Ho. assert (Hz : fail_count s = 0) by lia. unfold report_write_failure, fall_back. cbn. rewrite Hz. 
  change (saturating_add_u64 0 1 mod FAILURE_SUMMARY_EVERY =? 0) with false. cbn. split; split; cbn; done.
Qed.

Lemma opened_split s : opened s -> sinks_split (out s).*1.
Proof. intros [_ _ _ [n Hn]]. exists n, 0%nat. by rewrite Hn, app_nil_r. Qed.

Lemma opened_emit data s : opened s -> forall w, opened ((emit ToFile data s) <| written_bytes := w |>).
Proof. intros [H1 H2 H3 [n Hn]] w. split; try done. exists (S n). cbn. rewrite fmap_app, Hn. cbn. by rewrite repeat_snoc. Qed.

Lemma fail_line data s : opened s -> fallen (fall_back (report_write_failure (emit ToStderr data s))).
Proof. intros Ho. pose proof (op_fail _ Ho). apply fail_fallen; [cbn; lia|apply Ho|apply emit_stderr, (opened_split _ Ho)]. Qed.

Lemma batch_ok n o s : opened s -> log_ok (batch n o s).1.
Proof.
  revert o s. induction n as [|n IH]; intros o s Hs; [by left|]. cbn [batch]. destruct (queue s) as [|l q]; [by left|].
  assert (Hs' : opened (s <| queue := q |>)) by (destruct Hs; by split). destruct (io o) as [ok o']. destruct ok.
  - apply IH. by apply opened_emit.
  - right. cbn [fst]. by apply drain_fallen, fail_line.
Qed.

Lemma rotate_ok o s : opened s -> if (rotate o s).2 then opened (rotate o s).1.1 else fallen (rotate o s).1.1.
Proof.
  intros Hs. pose proof (op_fail _ Hs) as Hf. destruct (fail_fallen s ltac:(lia) (op_summaries _ Hs) (opened_split _ Hs)) as [Ha Hb].
  unfold rotate. destruct (io o) as [ok1 o1]. destruct ok1; [|exact Ha]. cbn [negb]. destruct (io o1) as [ok2 o2]. destruct ok2; [|by apply drain_fallen]. cbn [negb].
  destruct (io o2) as [ok3 o3]. destruct ok3; [|by apply drain_fallen]. destruct Hs. by split.
Qed.

Lemma received_ok data o s : log_ok s -> log_ok (received data o s).1.
Proof.
  unfold received. intros [Hs|Hs].
  - rewrite (op_file _ Hs). destruct (io o) as [ok o1]. destruct ok; [|right; by apply drain_fallen, fail_line].
    set (s1 := (emit ToFile data s) <| fail_count := 0 |> <| written_bytes := _ |>). assert (H1 : opened s1).
    { destruct Hs as [? ? ? [n Hn]]. split; try done. exists (S n). cbn. rewrite fmap_app, Hn. cbn. by rewrite repeat_snoc. }
    destruct (should_rotate s1); [|by apply batch_ok]. pose proof (rotate_ok o1 s1 H1). destruct (rotate o1 s1) as [[s2 o2] go]. cbn [fst snd] in *.
    destruct go; [by apply batch_ok|by right].
  - rewrite (fa_file _ Hs). right. cbn [fst]. apply drain_fallen. destruct Hs. split; try done. by apply emit_stderr.
Qed.

Lemma tick_ok o s : log_ok s -> log_ok (tick o s).1.
Proof.
  unfold tick. intros [Hs|Hs].
  - rewrite (op_file _ Hs). destruct (io o) as [ok o1]. cbn [fst]. destruct ok; [left; destruct Hs; by split|].
    right. pose proof (op_fail _ Hs). apply fail_fallen; [lia|apply Hs|by apply opened_split].
  - rewrite (fa_file _ Hs). by right.
Qed.

Lemma write_ok buf s : log_ok s -> log_ok (async_write buf 0 s).1.1.
Proof.
  unfold async_write. intros Hs. destruct (_ && _); [|destruct (stopped _) eqn:E]; destruct Hs as [Hs|Hs]; ((left; destruct Hs; by split) || (right; destruct Hs; by split)).
Qed.

Lemma event_log_ok st e : log_ok st.1 -> log_ok (log_event st e).1.
Proof.
  destruct st as [s o]. cbn [fst]. intros Hs. destruct e as [buf| |]; cbn [log_event].
  - by apply write_ok.
  - destruct (queue s) as [|data q]; [done|]. apply received_ok. destruct Hs as [Hs|Hs]; [left|right]; destruct Hs; by split.
  - by apply tick_ok.
Qed.

Lemma run_log_ok config existing o es : log_ok (run_service config existing o es).1.
Proof.
  unfold run_service. assert (H0 : log_ok (open_at_start existing o (Logger_new config)).1).
  { unfold open_at_start. destruct (io o) as [ok o1]. cbn [fst]. destruct ok; [left; split; try done; by exists 0%nat|].
    right. split; try done. by exists 0%nat, 0%nat. }
  revert H0. generalize (open_at_start existing o (Logger_new config)). induction es as [|e es IH]; intros st Hst; [done|]. cbn [fold_left]. by apply IH, event_log_ok.
Qed.

(** ** No line is lost or reordered *)

Definition flow (s : Logger) : list string := ((out s).*2 ++ queue s)%list.

Lemma drain_flow n s : flow (drain_stderr n s) = flow s.
Proof.
  revert s. induction n as [|n IH]; intros s; [done|]. cbn [drain_stderr]. destruct (queue s) as [|l q] eqn:Eq; [done|]. rewrite IH.
  unfold flow. cbn. rewrite Eq, fmap_app, <-app_assoc. done.
Qed.

Lemma report_flow s : flow (report_write_failure s) = flow s.
Proof. unfold report_write_failure. by case_match. Qed.
Lemma report_stopped s : flow ((report_write_failure s) <| stopped := true |>) = flow s.
Proof. unfold report_write_failure. by case_match. Qed.
Lemma fall_back_flow s : flow (fall_back (report_write_failure s)) = flow s.
Proof. unfold report_write_failure. by case_match. Qed.

Lemma emit_flow sink data s : flow (emit sink data s) = ((out s).*2 ++ data :: queue s)%list.
Proof. unfold flow. cbn. by rewrite fmap_app, <-app_assoc. Qed.

Lemma batch_flow n o s : flow (batch n o s).1 = flow s.
Proof.
  revert o s. induction n as [|n IH]; intros o s; [done|]. cbn [batch]. destruct (queue s) as [|l q] eqn:Eq; [done|]. destruct (io o) as [ok o']. destruct ok.
  - rewrite IH. unfold flow. cbn. by rewrite Eq, fmap_app, <-app_assoc.
  - cbn [fst]. rewrite drain_flow, fall_back_flow, emit_flow. unfold flow. cbn. by rewrite Eq.
Qed.

Lemma rotate_flow o s : flow (rotate o s).1.1 = flow s.
Proof.
  unfold rotate. destruct (io o) as [ok1 o1]. destruct ok1; [|apply fall_back_flow]. cbn [negb]. destruct (io o1) as [ok2 o2]. destruct ok2.
  - cbn [negb]. destruct (io o2) as [ok3 o3]. destruct ok3; [done|]. cbn [fst]. by rewrite drain_flow, report_stopped.
  - cbn [negb fst]. by rewrite drain_flow, report_stopped.
Qed.

Lemma received_flow data o s : flow (received data o s).1 = ((out s).*2 ++ data :: queue s)%list.
Proof.
  unfold received. destruct (file_writer s); [|cbn [fst]; by rewrite drain_flow, emit_flow]. destruct (io o) as [ok o1].
  destruct ok; [|cbn [fst]; by rewrite drain_flow, fall_back_flow, emit_flow].
  set (s1 := (emit ToFile data s) <| fail_count := 0 |> <| written_bytes := _ |>). assert (H1 : flow s1 = ((out s).*2 ++ data :: queue s)%list) by exact (emit_flow ToFile data s).
  destruct (should_rotate s1); [|by rewrite batch_flow]. pose proof (rotate_flow o1 s1) as Hr. destruct (rotate o1 s1) as [[s2 o2] go]. cbn [fst] in Hr.
  destruct go; [by rewrite batch_flow, Hr|by rewrite <-H1, <-Hr].
Qed.

(** The lines the channel took. *)
Definition taken (st : Logger * Oracle) (e : LogEvent) : list string :=
  match e with
  | Write buf => if negb (closed st.1) && (Z.of_nat (length (queue st.1)) <? Log.channel_capacity (config st.1)) then [buf] else []
  | _ => []
  end.
Fixpoint taken_lines (st : Logger * Oracle) (es : list LogEvent) {struct es} : list string :=
  match es with [] => [] | e :: es => (taken st e ++ taken_lines (log_event st e) es)%list end.

Lemma write_flow buf s : flow (async_write buf 0 s).1.1 = (flow s ++ taken (s, []) (Write buf))%list.
Proof.
  unfold async_write, taken. cbn [fst]. destruct (_ && _).
  - unfold flow. cbn [fst]. change (out (s <| queue := (queue s ++ [buf])%list |>)) with (out s).
    change (queue (s <| queue := (queue s ++ [buf])%list |>)) with (queue s ++ [buf])%list. by rewrite app_assoc.
  - rewrite app_nil_r. set (t := s <| dropped := _ |>). change (flow s) with (flow t). by destruct (stopped t).
Qed.

Lemma event_flow st e : flow (log_event st e).1 = (flow st.1 ++ taken st e)%list.
Proof.
  destruct st as [s o]. cbn [fst]. destruct e as [buf| |]; cbn [log_event fst].
  - exact (write_flow buf s).
  - cbn [taken]. rewrite app_nil_r. destruct (queue s) as [|data q] eqn:Eq; [done|]. cbn [fst]. rewrite received_flow. unfold flow. cbn. by rewrite Eq.
  - cbn [taken]. rewrite app_nil_r. unfold tick. destruct (file_writer s); [|done]. destruct (io o) as [ok o1]. destruct ok; [done|]. apply fall_back_flow.
Qed.

Lemma fold_flow st es : flow (fold_left log_event es st).1 = (flow st.1 ++ taken_lines st es)%list.
Proof. revert st. induction es as [|e es IH]; intros st; cbn [fold_left taken_lines]; [by rewrite app_nil_r|]. by rewrite IH, event_flow, app_assoc. Qed.

(** ** The size of the file *)

Lemma drain_file n s : file_writer (drain_stderr n s) = file_writer s /\ written_bytes (drain_stderr n s) = written_bytes s /\ config (drain_stderr n s) = config s.
Proof. revert s. induction n as [|n IH]; intros s; [done|]. cbn [drain_stderr]. destruct (queue s); [done|]. destruct (IH (emit ToStderr s0 (s <| queue := l |>))) as (-> & -> & ->). done. Qed.

Lemma failed_file s : file_writer (drain_stderr BATCH (fall_back (report_write_failure s))) = false.
Proof. destruct (drain_file BATCH (fall_back (report_write_failure s))) as [-> _]. done. Qed.

Lemma batch_size L n o s : 0 <= L -> Forall (fun l => blen l <= L) (queue s) -> file_writer (batch n o s).1 = true ->
  written_bytes (batch n o s).1 <= written_bytes s + Z.of_nat n * L.
Proof.
  intros HL. revert o s. induction n as [|n IH]; intros o s Hq; [cbn; lia|]. cbn [batch]. destruct (queue s) as [|l q] eqn:Eq; [cbn [fst]; lia|].
  apply Forall_cons in Hq as [Hl Hq]. destruct (io o) as [ok o']. destruct ok.
  - intros Hf. match type of Hf with file_writer (batch _ _ ?t).1 = _ => specialize (IH o' t Hq Hf) end. etransitivity; [exact IH|]. cbn. unfold saturating_add_u64. lia.
  - cbn [fst]. intros Hf. by rewrite failed_file in Hf.
Qed.

Lemma flow_queue (P : string -> Prop) s : Forall P (flow s) -> Forall P (queue s).
Proof. intros H. by apply Forall_app in H as [_ ?]. Qed.

Lemma rotate_size o s :
  if (rotate o s).2 then queue (rotate o s).1.1 = queue s /\ written_bytes (rotate o s).1.1 = 0 else file_writer (rotate o s).1.1 = false.
Proof.
  assert (Hd : forall t, file_writer (drain_stderr BATCH ((report_write_failure (t <| file_writer := false |>)) <| stopped := true |>)) = false).
  { intros t. destruct (drain_file BATCH ((report_write_failure (t <| file_writer := false |>)) <| stopped := true |>)) as [-> _].
    unfold report_write_failure. by case_match. }
  unfold rotate. destruct (io o) as [ok1 o1]. destruct ok1; [|done]. cbn [negb]. destruct (io o1) as [ok2 o2]. destruct ok2; cbn [negb]; [|apply Hd].
  destruct (io o2) as [ok3 o3]. destruct ok3; [done|apply Hd].
Qed.

(** After a received line and its batch the open file is less than a batch
    beyond the size it rotates at, whatever it held before. *)
Lemma received_size L data o s : 0 <= L -> 0 < Log.max_size_bytes (config s) -> Log.rotation (config s) = Log.Internal ->
  Forall (fun l => blen l <= L) (queue s) -> file_writer (received data o s).1 = true ->
  written_bytes (received data o s).1 < Log.max_size_bytes (config s) + Z.of_nat BATCH * L.
Proof.
  intros HL Hm Hr Hq. unfold received. destruct (file_writer s) eqn:Ef; [|cbn [fst]; destruct (drain_file BATCH (emit ToStderr data s)) as [-> _]; cbn; congruence].
  destruct (io o) as [ok o1]. destruct ok; [|cbn [fst]; by rewrite failed_file]. set (s1 := (emit ToFile data s) <| fail_count := 0 |> <| written_bytes := _ |>).
  assert (Hq1 : Forall (fun l => blen l <= L) (queue s1)) by exact Hq. assert (Hc : config s1 = config s) by done. clearbody s1. unfold should_rotate. rewrite Hc, Hr.
  destruct (Log.max_size_bytes (config s) <=? written_bytes s1) eqn:Em.
  - pose proof (rotate_size o1 s1) as Hs. destruct (rotate o1 s1) as [[s2 o2] go]. cbn [fst snd] in *. destruct go; [|intros Hf; cbn [fst] in Hf; congruence].
    destruct Hs as [Hk Hw]. intros Hf. pose proof (batch_size L BATCH o2 s2 HL) as Hb. rewrite Hk in Hb. specialize (Hb Hq1 Hf). lia.
  - intros Hf. apply Z.leb_gt in Em. pose proof (batch_size L BATCH o1 s1 HL Hq1 Hf). lia.
Qed.

Lemma shutdown_flow n o q s : exists rest, ((out s).*2 ++ q)%list = ((out (shutdown_drain n o q s).1).*2 ++ rest)%list /\
  dropped (shutdown_drain n o q s).1 = dropped s + Z.of_nat (length rest) /\ queue (shutdown_drain n o q s).1 = [] /\ (length q <= n -> rest = [])%nat.
Proof.
  revert n o s. induction q as [|data q IH]; intros n o s; cbn [shutdown_drain]; [exists []; split; [done|split; [cbn; lia|by split]]|].
  destruct n as [|n]; [exists (data :: q); split; [done|]; split; [cbn; lia|]; split; [done|cbn; lia]|].
  assert (H1 : forall sink o, exists rest, ((out s).*2 ++ data :: q)%list = ((out (shutdown_drain n o q (emit sink data s)).1).*2 ++ rest)%list /\
    dropped (shutdown_drain n o q (emit sink data s)).1 = dropped s + Z.of_nat (length rest) /\ queue (shutdown_drain n o q (emit sink data s)).1 = [] /\ (length (data :: q) <= S n -> rest = [])%nat).
  { intros sink o1. destruct (IH n o1 (emit sink data s)) as (rest & H1 & H2 & H3 & H4). exists rest. split; [|split; [exact H2|split; [done|cbn; intros; apply H4; lia]]].
    rewrite <-H1. cbn. by rewrite fmap_app, <-app_assoc. }
  destruct (file_writer s); [|apply H1]. destruct (io o) as [ok o1]. destruct ok; [apply H1|].
  destruct (IH n o1 ((emit ToStderr data s) <| file_writer := false |>)) as (rest & H2 & H3 & H4 & H5). exists rest. split; [|split; [exact H3|split; [done|cbn; intros; apply H5; lia]]].
  rewrite <-H2. cbn. by rewrite fmap_app, <-app_assoc.
Qed.

(** The drain at shutdown keeps the split of the sinks. *)
Lemma shutdown_sinks n o q s : sinks_split (out s).*1 -> (file_writer s = true -> exists k, (out s).*1 = repeat ToFile k) ->
  sinks_split (out (shutdown_drain n o q s).1).*1.
Proof.
  revert n o s. induction q as [|data q IH]; intros n o s Hs Hf; cbn [shutdown_drain]; [done|]. destruct n as [|n]; [done|].
  destruct (file_writer s) eqn:Ef; [|apply IH; [by apply emit_stderr|cbn; congruence]]. destruct (Hf eq_refl) as [k Hk]. destruct (io o) as [ok o1]. destruct ok.
  - assert (H1 : (out (emit ToFile data s)).*1 = repeat ToFile (S k)) by (cbn; rewrite fmap_app, Hk; cbn; by rewrite repeat_snoc).
    apply IH; [exists (S k), 0%nat; by rewrite H1, app_nil_r|by exists (S k)].
  - apply IH; [by apply (emit_stderr data s)|done].
Qed.

Lemma start_flow config existing o : flow (open_at_start existing o (Logger_new config)).1 = [].
Proof. unfold open_at_start. destruct (io o) as [ok o1]. by destruct ok. Qed.

(** Whatever fails and whenever the loop ends, the lines the channel took went
    out once and in order, the file has a prefix of them and standard error what
    follows, and the drain loses only what it counts when its deadline passes. *)
Theorem log_in_order config existing o es in_time :
  let st0 := open_at_start existing o (Logger_new config) in
  let st := fold_left log_event es st0 in
  let last := (finish in_time st.2 st.1).1 in
  taken_lines st0 es = ((out st.1).*2 ++ queue st.1)%list /\
  sinks_split (out last).*1 /\ queue last = [] /\
  exists rest, taken_lines st0 es = ((out last).*2 ++ rest)%list /\ dropped last = dropped st.1 + Z.of_nat (length rest) /\
    (length (queue st.1) <= in_time -> rest = [])%nat.
Proof.
  intros st0 st last. pose proof (fold_flow st0 es) as Hf. unfold st0 in Hf at 2. rewrite start_flow in Hf. cbn [app] in Hf. fold st in Hf.
  pose proof (run_log_ok config existing o es) as Hok. unfold run_service in Hok. fold st0 st in Hok. split; [by rewrite <-Hf|].
  unfold last, finish. set (s1 := st.1 <| closed := true |> <| stopped := true |>). split.
  - apply shutdown_sinks; [destruct Hok as [H|H]; [exact (opened_split _ H)|exact (fa_sinks _ H)]|]. intros Ht. destruct Hok as [H|H]; [exact (op_sinks _ H)|].
    pose proof (fa_file _ H). cbn in Ht. congruence.
  - destruct (shutdown_flow in_time st.2 (queue s1) s1) as (rest & H1 & H2 & H3 & H4). split; [exact H3|]. exists rest. split; [|split; [exact H2|exact H4]].
    rewrite <-H1, <-Hf. done.
Qed.

(** A writer failure is reported at most once and the summary of every sixteenth
    consecutive failure never: the first failure ends the file for good. *)
Theorem no_failure_summary config existing o es : let s := (run_service config existing o es).1 in 0 <= fail_count s <= 1 /\ summaries s = 0 /\ (fail_count s = 1 -> file_writer s = false).
Proof.
  cbv zeta. destruct (run_log_ok config existing o es) as [H|H].
  - rewrite (op_fail _ H), (op_summaries _ H). repeat split; lia.
  - pose proof (fa_fail _ H). split; [lia|]. split; [apply H|]. intros _. apply H.
Qed.

Lemma taken_in st es : Forall (fun l => exists e, e ∈ es /\ e = Write l) (taken_lines st es).
Proof.
  revert st. induction es as [|e es IH]; intros st; cbn [taken_lines]; [constructor|]. apply Forall_app. split.
  - destruct e as [buf| |]; cbn [taken]; [|constructor|constructor]. destruct (_ && _); [|constructor]. constructor; [|constructor]. exists (Write buf). split; [left|done].
  - eapply Forall_impl; [apply IH|]. intros l (e' & He & ->). exists (Write l). split; [by right|done].
Qed.

Lemma report_config s : config (report_write_failure s) = config s.
Proof. unfold report_write_failure. by case_match. Qed.

Lemma drain_config n s : config (drain_stderr n s) = config s.
Proof. apply drain_file. Qed.

Lemma failed_config s : config (fall_back (report_write_failure s)) = config s.
Proof. apply report_config. Qed.

Lemma batch_config n o s : config (batch n o s).1 = config s.
Proof.
  revert o s. induction n as [|n IH]; intros o s; [done|]. cbn [batch]. destruct (queue s) as [|l q]; [done|]. destruct (io o) as [ok o']. destruct ok; [by rewrite IH|].
  cbn [fst]. by rewrite drain_config, failed_config.
Qed.

Lemma rotate_config o s : config (rotate o s).1.1 = config s.
Proof.
  assert (Hr : config (report_write_failure (s <| file_writer := false |>)) = config s) by exact (report_config (s <| file_writer := false |>)).
  unfold rotate. destruct (io o) as [ok1 o1]. destruct ok1; [|apply failed_config]. cbn [negb]. destruct (io o1) as [ok2 o2]. destruct ok2; cbn [negb].
  - destruct (io o2) as [ok3 o3]. destruct ok3; [done|]. cbn [fst]. rewrite drain_config. exact Hr.
  - cbn [fst]. rewrite drain_config. exact Hr.
Qed.

Lemma received_config data o s : config (received data o s).1 = config s.
Proof.
  unfold received. destruct (file_writer s); [|cbn [fst]; by rewrite drain_config]. destruct (io o) as [ok o1].
  destruct ok; [|cbn [fst]; by rewrite drain_config, failed_config].
  set (s1 := (emit ToFile data s) <| fail_count := 0 |> <| written_bytes := _ |>). change (config s) with (config s1). clearbody s1.
  destruct (should_rotate s1); [|by rewrite batch_config]. pose proof (rotate_config o1 s1) as H. destruct (rotate o1 s1) as [[s2 o2] go]. cbn [fst] in H.
  destruct go; [by rewrite batch_config|done].
Qed.

Lemma event_config st e : config (log_event st e).1 = config st.1.
Proof.
  destruct st as [s o]. destruct e as [buf| |]; cbn [log_event fst].
  - unfold async_write. destruct (_ && _); [done|]. by destruct (stopped _).
  - destruct (queue s) as [|data q]; [done|]. exact (received_config data o (s <| queue := q |>)).
  - unfold tick. destruct (file_writer s); [|done]. destruct (io o) as [ok o1]. destruct ok; [done|]. apply failed_config.
Qed.

Lemma run_config config0 existing o es : config (run_service config0 existing o es).1 = config0.
Proof.
  unfold run_service. assert (H0 : config (open_at_start existing o (Logger_new config0)).1 = config0) by (unfold open_at_start; destruct (io o) as [ok ?]; by destruct ok).
  revert H0. generalize (open_at_start existing o (Logger_new config0)). induction es as [|e es IH]; intros st Hst; [done|]. cbn [fold_left]. apply IH. by rewrite event_config.
Qed.

(** With internal rotation, after any run that ends by receiving a line, the open
    file is less than a batch beyond the size it rotates at. *)
Theorem log_file_bounded config existing o es L : 0 <= L -> 0 < Log.max_size_bytes config -> Log.rotation config = Log.Internal ->
  (forall buf, Write buf ∈ es -> blen buf <= L) -> queue (run_service config existing o es).1 <> [] ->
  let s := (run_service config existing o (es ++ [Recv])).1 in
  file_writer s = true -> written_bytes s < Log.max_size_bytes config + 256 * L.
Proof.
  intros HL Hm Hr Hw Hq. cbv zeta. unfold run_service. rewrite fold_left_app. cbn [fold_left]. fold (run_service config existing o es).
  pose proof (run_config config existing o es) as Hc. pose proof (fold_flow (open_at_start existing o (Logger_new config)) es) as Hf. rewrite start_flow in Hf. cbn [app] in Hf.
  fold (run_service config existing o es) in Hf. assert (HF : Forall (fun l => blen l <= L) (queue (run_service config existing o es).1)).
  { apply (flow_queue _ (run_service config existing o es).1). rewrite Hf. eapply Forall_impl; [apply taken_in|]. intros l (e & He & ->). by apply Hw. }
  destruct (run_service config existing o es) as [s o1]. cbn [fst log_event] in *. destruct (queue s) as [|data q] eqn:Eq; [done|]. apply Forall_cons in HF as [_ HF].
  intros Hfw. pose proof (received_size L data o1 (s <| queue := q |>) HL) as Hb. change (Logging.config (s <| queue := q |>)) with (Logging.config s) in Hb. rewrite Hc in Hb. by apply Hb.
Qed.

(** ** What a rotation keeps *)

Lemma parse_u32_pretty i : 1 <= i <= u32_max -> parse_u32 (pretty i) = Some i.
Proof.
  intros Hi. destruct i as [|x|x]; try (unfold u32_max in Hi; lia). assert (pretty (Z.pos x) = pretty_N_go (N.pos x) "") as -> by done.
  destruct (pretty_N_go_digits (N.pos x) "") as [Hd Hv]. cbn [str_forall digits_val] in Hd, Hv. change (Z.of_N (N.pos x)) with (Z.pos x) in Hv.
  unfold parse_u32, parse_u64. destruct (pretty_N_go (N.pos x) "") as [|a ds]; [done|].
  assert (Ha : (match String a ds with String "+" ds => ds | _ => String a ds end) = String a ds).
  { cbn [str_forall] in Hd. apply andb_true_iff in Hd as [Hd _]. destruct a as [[] [] [] [] [] [] [] []]; try done. }
  rewrite Ha. clear Ha. rewrite bool_decide_false by done. change (str_forall (between 48 57 ∘ byte_val) (String a ds)) with (str_forall is_ascii_digit (String a ds)).
  rewrite Hd, Hv. rewrite (proj2 (Z.leb_le _ _)) by (unfold u32_max, u64_max in *; lia). by rewrite (proj2 (Z.leb_le _ _)) by lia.
Qed.

Lemma backup_suffix name i : strip_prefix (name +:+ ".") (backup name i) = Some (pretty i).
Proof. unfold backup. rewrite <-(strip_prefix_app (name +:+ ".") (pretty i)). by rewrite str_app_assoc. Qed.

Lemma backup_inj name i j : backup name i = backup name j -> i = j.
Proof. intros H. apply (inj pretty). apply (inj Some). rewrite <-!(backup_suffix name). by rewrite H. Qed.

Lemma name_not_backup name s : strip_prefix (name +:+ ".") name <> Some s.
Proof. intros H. apply strip_prefix_spec in H. rewrite str_app_assoc, <-(str_app_nil_r name) in H at 1. by apply (inj (String.append name)) in H. Qed.

Lemma stale_backup name n i : 1 <= i <= u32_max -> stale name n (backup name i) = (n <? i).
Proof. intros Hi. unfold stale. by rewrite backup_suffix, parse_u32_pretty. Qed.

Lemma stale_name name n : stale name n name = false.
Proof. unfold stale. destruct (strip_prefix _ _) eqn:E; [by apply name_not_backup in E|done]. Qed.

Lemma rename_lookup from to d d' f : from <> to -> rename from to d = Some d' ->
  d' !! f = if bool_decide (f = to) then d !! from else if bool_decide (f = from) then None else d !! f.
Proof.
  unfold rename. intros Hne. destruct (d !! from) as [c|] eqn:E; [|done]. intros [= <-]. repeat case_bool_decide; subst; simplify_map_eq; done.
Qed.

Lemma shift_one_lookup name d i f :
  shift_one name d i !! f =
    if bool_decide (f = backup name (i + 1)) then match d !! backup name i with Some c => Some c | None => d !! f end
    else if bool_decide (f = backup name i) then None else d !! f.
Proof.
  unfold shift_one. assert (Hne : backup name i <> backup name (i + 1)) by (intros H; apply backup_inj in H; lia).
  destruct (rename _ _ _) as [d'|] eqn:E.
  - change (default d (Some d')) with d'. rewrite (rename_lookup _ _ _ _ f Hne E). unfold rename in E. destruct (d !! backup name i); [done|done].
  - change (default d None) with d. unfold rename in E. destruct (d !! backup name i) eqn:E'; [done|]. repeat case_bool_decide; subst; done.
Qed.

Lemma descending_succ m : descending (Z.of_nat (S m) + 1) = Z.of_nat (S m) :: descending (Z.of_nat m + 1).
Proof.
  unfold descending. replace (Z.to_nat (Z.of_nat (S m) + 1 - 1)) with (S m) by lia. replace (Z.to_nat (Z.of_nat m + 1 - 1)) with m by lia.
  rewrite seq_S, rev_app_distr. cbn. f_equal. lia.
Qed.

(** The shift of the backups [1 .. m]: each takes the place of the next, the
    first is free, and the last falls off when there is one before it. *)
Lemma shifted name m d f :
  let d' := fold_left (shift_one name) (descending (Z.of_nat m + 1)) d in
  (m <> 0%nat -> d' !! backup name 1 = None) /\
  (forall i, 1 <= i < Z.of_nat m -> d' !! backup name (i + 1) = d !! backup name i) /\
  (m <> 0%nat -> d' !! backup name (Z.of_nat m + 1) = match d !! backup name (Z.of_nat m) with Some c => Some c | None => d !! backup name (Z.of_nat m + 1) end) /\
  ((forall i, 1 <= i <= Z.of_nat m + 1 -> f <> backup name i) -> d' !! f = d !! f).
Proof.
  cbv zeta. revert d f. induction m as [|m IH]; intros d f; [repeat split; intros; (done || lia)|].
  rewrite descending_succ. cbn [fold_left]. set (d1 := shift_one name d (Z.of_nat (S m))).
  assert (Hd1 : forall f, d1 !! f = _) by (intros f0; apply shift_one_lookup).
  assert (Hfree : d1 !! backup name (Z.of_nat (S m)) = None).
  { rewrite Hd1. rewrite bool_decide_false by (intros H; apply backup_inj in H; lia). by rewrite bool_decide_true. }
  assert (Hkeep : forall i, i <> Z.of_nat (S m) -> i <> Z.of_nat (S m) + 1 -> d1 !! backup name i = d !! backup name i).
  { intros i H1 H2. rewrite Hd1. by rewrite !bool_decide_false by (intros H; apply backup_inj in H; lia). }
  destruct (IH d1 f) as (H1 & H2 & H3 & H4).
  assert (Hout : forall i, Z.of_nat m + 1 < i -> fold_left (shift_one name) (descending (Z.of_nat m + 1)) d1 !! backup name i = d1 !! backup name i).
  { intros i Hi. destruct (IH d1 (backup name i)) as (_ & _ & _ & H). apply H. intros j Hj E. apply backup_inj in E. lia. }
  split; [|split; [|split]].
  - intros _. destruct m as [|m]; [exact Hfree|]. by apply H1.
  - intros i Hi. destruct (decide (i < Z.of_nat m)) as [Hlt|Hge]; [rewrite (H2 i) by lia; apply Hkeep; lia|].
    assert (i = Z.of_nat m) as -> by lia. rewrite H3 by lia. rewrite Hkeep by lia. replace (Z.of_nat m + 1) with (Z.of_nat (S m)) by lia. rewrite Hfree. by destruct (d !! backup name (Z.of_nat m)).
  - intros _. rewrite Hout by lia. rewrite Hd1, bool_decide_true by done. by destruct (d !! backup name (Z.of_nat (S m))).
  - intros Hf. rewrite H4 by (intros i Hi; apply Hf; lia). rewrite Hd1. by rewrite !bool_decide_false by (apply Hf; lia).
Qed.

(** A rotation frees the log's name, makes its content the first backup, moves
    every backup that is kept one place on, drops the ones beyond the limit, and
    touches no file that is not called after the log. *)
Theorem rotation_keeps name n d content : 1 <= n <= u32_max -> d !! name = Some content ->
  exists d', rotate_log_file name n d = Some d' /\ d' !! name = None /\ d' !! backup name 1 = Some content /\
    (forall i, 1 <= i < n - 1 -> d' !! backup name (i + 1) = d !! backup name i) /\
    (1 < n -> d' !! backup name n = match d !! backup name (n - 1) with Some c => Some c | None => d !! backup name n end) /\
    (forall i, n < i <= u32_max -> d' !! backup name i = None) /\
    (forall f, f <> name -> (forall s, strip_prefix (name +:+ ".") f <> Some s) -> d' !! f = d !! f).
Proof.
  intros Hn Hd. unfold rotate_log_file. rewrite (proj2 (Z.eqb_neq n 0)) by lia. set (d0 := base.filter _ d).
  assert (Hkeep : forall f, stale name n f = false -> d0 !! f = d !! f).
  { intros f Hf. unfold d0. rewrite map_lookup_filter. destruct (d !! f); [|done]. cbn. by rewrite option_guard_True. }
  assert (Hstale : forall f, stale name n f = true -> d0 !! f = None).
  { intros f Hf. unfold d0. rewrite map_lookup_filter. destruct (d !! f); [|done]. cbn. rewrite option_guard_False; [done|]. cbn. congruence. }
  assert (Hself : forall i, name <> backup name i).
  { intros i E. apply (name_not_backup name (pretty i)). rewrite E at 2. apply backup_suffix. }
  set (m := Z.to_nat (n - 1)). assert (Hm : n = Z.of_nat m + 1) by lia. set (d1 := fold_left (shift_one name) (descending n) d0).
  assert (Hs : forall f, let d' := d1 in
    (m <> 0%nat -> d' !! backup name 1 = None) /\ (forall i, 1 <= i < Z.of_nat m -> d' !! backup name (i + 1) = d0 !! backup name i) /\
    (m <> 0%nat -> d' !! backup name n = match d0 !! backup name (Z.of_nat m) with Some c => Some c | None => d0 !! backup name n end) /\
    ((forall i, 1 <= i <= n -> f <> backup name i) -> d' !! f = d0 !! f)) by (intros f; unfold d1; rewrite Hm; exact (shifted name m d0 f)).
  cbv zeta in Hs. assert (Hsrc : d1 !! name = Some content).
  { destruct (Hs name) as (_ & _ & _ & H). rewrite H by (intros i _; apply Hself). by rewrite Hkeep by apply stale_name. }
  destruct (rename name (backup name 1) d1) as [d'|] eqn:E; [|unfold rename in E; by rewrite Hsrc in E]. exists d'. split; [done|].
  pose proof (fun f => rename_lookup _ _ _ _ f (Hself 1) E) as Hr.
  assert (Hb : forall i, i <> 1 -> d' !! backup name i = d1 !! backup name i).
  { intros i Hi. rewrite Hr. rewrite bool_decide_false by (intros H; by apply backup_inj in H). by rewrite bool_decide_false by (intros H; by apply (Hself i)). }
  split; [rewrite Hr, bool_decide_false by apply Hself; by rewrite bool_decide_true|]. split; [by rewrite Hr, bool_decide_true|].
  assert (Hk : forall i, 1 <= i <= n -> d0 !! backup name i = d !! backup name i) by (intros i Hi; apply Hkeep; rewrite stale_backup by lia; lia).
  destruct (Hs name) as (_ & H2 & H3 & _). split; [|split; [|split]].
  - intros i Hi. rewrite Hb by lia. rewrite H2 by lia. apply Hk. lia.
  - intros Hlt. rewrite Hb by lia. rewrite H3 by lia. rewrite !Hk by lia. by replace (Z.of_nat m) with (n - 1) by lia.
  - intros i Hi. rewrite Hb by lia. destruct (Hs (backup name i)) as (_ & _ & _ & H). rewrite H by (intros j Hj Ej; apply backup_inj in Ej; lia).
    apply Hstale. rewrite stale_backup by lia. lia.
  - intros f Hf Hp. assert (Hnb : forall i, f <> backup name i) by (intros i ->; by apply (Hp (pretty i)), backup_suffix).
    rewrite Hr, bool_decide_false by apply Hnb. rewrite bool_decide_false by done. destruct (Hs f) as (_ & _ & _ & H). rewrite H by (intros i _; apply Hnb).
    apply Hkeep. unfold stale. destruct (strip_prefix _ f) eqn:Ep; [exfalso; exact (Hp _ eq_refl)|done].
Qed.

Lemma rotation_keeps_witness : 1 <= 2 <= u32_max /\
  exists d', rotate_log_file "app.log" 2 {[ "app.log" := "c"; "app.log.1" := "b"; "app.log.3" := "a" ]} = Some d' /\ d' !! "app.log" = None.
Proof.
  split; [unfold u32_max; lia|].
  destruct (rotation_keeps "app.log" 2 {[ "app.log" := "c"; "app.log.1" := "b"; "app.log.3" := "a" ]} "c") as (d' & H1 & H2 & _); [unfold u32_max; lia|reflexivity|].
  exists d'. exact (conj H1 H2).
Defined.

(** Three backups shift, the fourth is left over from a larger setting. *)
Example rotation_shifts :
  map_to_list <$> rotate_log_file "app.log" 3 {[ "app.log" := "new"; "app.log.1" := "1"; "app.log.2" := "2"; "app.log.3" := "3"; "app.log.4" := "4" ]}
  = Some (map_to_list ({[ "app.log.1" := "new"; "app.log.2" := "1"; "app.log.3" := "2" ]} : Dir)).
Proof. vm_compute. reflexivity. Qed.

(** A file that is no backup, but whose suffix reads as a number, is removed by
    the first rotation: here an archive named after a day. *)
Example rotation_removes_dated :
  (fun d => d !! "app.log.20240115") <$> rotate_log_file "app.log" 5 {[ "app.log" := "new"; "app.log.20240115" := "archive" ]} = Some None.
Proof. vm_compute. reflexivity. Qed.

(** Rotation fails on a log file that was moved away, and the writer is on
    standard error from then on. *)
Example rotation_of_missing : rotate_log_file "app.log" 5 {[ "app.log.1" := "1" ]} = None.
Proof. vm_compute. reflexivity. Qed.

(** A run with a failing write: the first line is in the file, the rest on
    standard error, nothing is lost. *)
Example run_with_failure :
  let config := {| Log.path := "app.log"; Log.max_size_bytes := 100; Log.max_backups := 5; Log.rotation := Log.Internal; Log.channel_capacity := 64 |} in
  let s := (run_service config 0 [true; true; false] [Write "a"; Recv; Write "b"; Write "c"; Recv; Tick; Write "d"; Recv]).1 in
  out s = [(ToFile, "a"); (ToStderr, "b"); (ToStderr, "c"); (ToStderr, "d")] /\ queue s = [] /\ file_writer s = false /\ fail_count s = 1.
Proof. vm_compute. repeat split. Qed.
