(* ===== verification/Inventory.v ===== *)
(** * The plugin inventory ([src/src/plugins/mod.rs])

    What every builtin plugin is called, when it runs and which of its hooks are
    called, the closed table of all of them, and the constructions that read it.
    The table instantiates the inventory the control plane is written over: its
    references, jobs and factories satisfy what the control plane asks of an
    inventory.  The last part composes it with the compilation of routes and the
    request pipeline: which plugins see a request whose credentials are refused. *)

From Stdlib Require Import ZArith Lia Sorted.
From stdpp Require Import base tactics gmap fin_maps strings option sorting list.
From S2P Require Import Prelude Errors GraphStore Utf8 Hosts Json Config ConfigSet Encryption GraphDecode RouteBuild ControlPlane TrafficSplit RequestVars Limiting Pipeline Settings Selection ProxyService Rewrite AiTransform AiProxy.

Open Scope Z_scope.

(** ** The implementations of the plugin trait

    The name and priority a plugin answers, and the hooks of the pipeline its
    [impl ProxyPlugin] overrides, by the phase that calls them. *)
Record PluginImpl : Type := { i_name : string; i_priority : Z; i_hooks : list Z }.

Definition client_control : PluginImpl := {| i_name := "client-control"; i_priority := 22000; i_hooks := [REQUEST; REQUEST_BODY] |}.
Definition exit_transformer : PluginImpl := {| i_name := "exit-transformer"; i_priority := 22950; i_hooks := [] |}.
Definition request_id : PluginImpl := {| i_name := "request-id"; i_priority := 12015; i_hooks := [REQUEST; RESPONSE] |}.
Definition fault_injection : PluginImpl := {| i_name := "fault-injection"; i_priority := 11000; i_hooks := [REQUEST] |}.
Definition cors : PluginImpl := {| i_name := "cors"; i_priority := 4000; i_hooks := [REQUEST; RESPONSE] |}.
Definition ip_restriction : PluginImpl := {| i_name := "ip-restriction"; i_priority := 3000; i_hooks := [REQUEST] |}.
Definition uri_blocker : PluginImpl := {| i_name := "uri-blocker"; i_priority := 2900; i_hooks := [REQUEST] |}.
Definition ai_proxy : PluginImpl := {| i_name := "ai-proxy"; i_priority := 2900; i_hooks := [REQUEST; UPSTREAM_REQUEST; REQUEST_BODY; UPSTREAM_PEER] |}.
Definition request_validation : PluginImpl := {| i_name := "request-validation"; i_priority := 2800; i_hooks := [REQUEST; REQUEST_BODY] |}.
Definition csrf : PluginImpl := {| i_name := "csrf"; i_priority := 2980; i_hooks := [REQUEST; RESPONSE] |}.
Definition basic_auth : PluginImpl := {| i_name := "basic-auth"; i_priority := 2520; i_hooks := [REQUEST] |}.
Definition jwt_auth : PluginImpl := {| i_name := "jwt-auth"; i_priority := 2510; i_hooks := [REQUEST; RESPONSE] |}.
Definition key_auth : PluginImpl := {| i_name := "key-auth"; i_priority := 2500; i_hooks := [REQUEST] |}.
Definition cache : PluginImpl := {| i_name := "proxy-cache"; i_priority := 1085; i_hooks := [REQUEST] |}.
Definition proxy_rewrite : PluginImpl := {| i_name := "proxy-rewrite"; i_priority := 1008; i_hooks := [UPSTREAM_REQUEST] |}.
Definition api_breaker : PluginImpl := {| i_name := "api-breaker"; i_priority := 1005; i_hooks := [REQUEST; RESPONSE] |}.
Definition proxy_mirror : PluginImpl := {| i_name := "proxy-mirror"; i_priority := 1010; i_hooks := [REQUEST; UPSTREAM_REQUEST; REQUEST_BODY] |}.
Definition limit_conn : PluginImpl := {| i_name := "limit-conn"; i_priority := 1003; i_hooks := [REQUEST; LOGGING] |}.
Definition limit_count : PluginImpl := {| i_name := "limit-count"; i_priority := 1002; i_hooks := [REQUEST; RESPONSE] |}.
Definition limit_req : PluginImpl := {| i_name := "limit-req"; i_priority := 1001; i_hooks := [REQUEST] |}.
Definition brotli : PluginImpl := {| i_name := "brotli"; i_priority := 996; i_hooks := [EARLY_REQUEST] |}.
Definition gzip : PluginImpl := {| i_name := "gzip"; i_priority := 995; i_hooks := [EARLY_REQUEST] |}.
Definition redirect : PluginImpl := {| i_name := "redirect"; i_priority := 900; i_hooks := [REQUEST] |}.
Definition response_rewrite : PluginImpl := {| i_name := "response-rewrite"; i_priority := 899; i_hooks := [RESPONSE; RESPONSE_BODY] |}.
Definition grpc_web : PluginImpl := {| i_name := "grpc-web"; i_priority := 505; i_hooks := [EARLY_REQUEST; REQUEST; REQUEST_BODY; RESPONSE] |}.
Definition prometheus : PluginImpl := {| i_name := "prometheus"; i_priority := 500; i_hooks := [LOGGING] |}.
Definition echo : PluginImpl := {| i_name := "echo"; i_priority := 412; i_hooks := [RESPONSE; RESPONSE_BODY] |}.
Definition file_logger : PluginImpl := {| i_name := "file-logger"; i_priority := 399; i_hooks := [REQUEST_BODY; RESPONSE_BODY; LOGGING] |}.
Definition traffic_split : PluginImpl := {| i_name := "traffic-split"; i_priority := 966; i_hooks := [REQUEST] |}.

(** ** The table *)

Section inventory.
Context `{Compiler} `{Serde} `{SplitSerde} `{UrlForms} `{AiSerde} `{HeaderNames}.

(** An entry of the inventory. *)
Record BuiltinMeta : Type := {
  bm_impl : PluginImpl;
  bm_phases : Z;
  bm_factory : PluginFactory;
  bm_secrets : option (Leaf_op -> Json -> M Json);
  bm_validate : Json -> ProxyResult unit;
  bm_upstream_refs : option (Json -> ProxyResult (list string));
  bm_upstream_jobs : option (TrafficSplitOwner -> Json -> ProxyResult (list (UpstreamOccurrence * Upstream.t)));
}.
Definition bm_name (m : BuiltinMeta) : string := i_name (bm_impl m).

(** The constructors and validators of the plugins without upstreams, which
    their own files model over decoded configurations, are arguments, and so is
    how an instance is seen by the executor.  [tokens] is the counter of the AI
    proxy's instances when the build starts. *)
Context (create : PluginImpl -> Json -> ProxyResult Body) (validate : PluginImpl -> Json -> ProxyResult unit).
Context (mk_split : PluginTrafficSplit -> Body) (mk_ai : PluginAiProxy -> Body) (tokens : Z).

Definition derived (fields : EncryptFields) (leaf : Leaf_op) : Json -> M Json := transform_secrets leaf (fun _ => ret) fields.

Definition plain (i : PluginImpl) (phases : Z) (secrets : option (Leaf_op -> Json -> M Json)) : BuiltinMeta :=
  {| bm_impl := i; bm_phases := phases;
     bm_factory := RouteBuild.Plain (fun cfg => let? b := create i cfg in Ok (b, (i_name i, i_priority i)));
     bm_secrets := secrets; bm_validate := validate i; bm_upstream_refs := None; bm_upstream_jobs := None |}.

(** The instance holds no upstream of the candidate and one of its own. *)
Definition create_ai_proxy_plugin (cfg : Json) (us : gmap string ProxyUpstream) (prepared : UpstreamOccurrence -> option Prep)
    (owner : TrafficSplitOwner) : B Plugin :=
  let! r := create_ai_proxy_plugin_with_upstreams cfg prepared owner tokens in
  pure {| RouteBuild.body := mk_ai r.1; p_name := AiProxy.PLUGIN_NAME; p_priority := AiProxy.PRIORITY; p_targets := []; p_inlines := [AiProxy.upstream r.1] |}.

Definition ai_proxy_entry : BuiltinMeta :=
  {| bm_impl := ai_proxy; bm_phases := Z.lor (Z.lor (Z.lor REQUEST UPSTREAM_REQUEST) REQUEST_BODY) UPSTREAM_PEER;
     bm_factory := WithUpstreams create_ai_proxy_plugin; bm_secrets := Some transform_ai_proxy_secrets; bm_validate := validate_ai_proxy_config;
     bm_upstream_refs := None; bm_upstream_jobs := Some AiProxy.inline_upstream_jobs |}.
Definition traffic_split_entry : BuiltinMeta :=
  {| bm_impl := traffic_split; bm_phases := REQUEST; bm_factory := WithUpstreams (create_traffic_split_plugin mk_split); bm_secrets := None;
     bm_validate := validate_traffic_split_config; bm_upstream_refs := Some named_upstream_ids;
     bm_upstream_jobs := Some TrafficSplit.inline_upstream_jobs |}.

(** The inventory in its source order, in two halves: up to the authenticators,
    and from the cache on. *)
Definition access_plugins : list BuiltinMeta :=
  [
   plain client_control (Z.lor REQUEST REQUEST_BODY) None;
   plain exit_transformer 0 None;
   plain request_id (Z.lor REQUEST RESPONSE) None;
   plain fault_injection REQUEST None;
   plain cors (Z.lor REQUEST RESPONSE) None;
   plain ip_restriction REQUEST None;
   plain uri_blocker REQUEST None;
   ai_proxy_entry;
   plain request_validation (Z.lor REQUEST REQUEST_BODY) None;
   plain csrf (Z.lor REQUEST RESPONSE) (Some (derived csrf_fields));
   plain basic_auth REQUEST (Some (derived basic_auth_fields));
   plain jwt_auth (Z.lor REQUEST RESPONSE) (Some (derived jwt_auth_fields));
   plain key_auth REQUEST (Some (derived key_auth_fields))
  ].
Definition traffic_plugins : list BuiltinMeta :=
  [
   plain cache REQUEST None;
   plain proxy_rewrite UPSTREAM_REQUEST None;
   plain api_breaker (Z.lor REQUEST RESPONSE) None;
   plain proxy_mirror (Z.lor (Z.lor REQUEST UPSTREAM_REQUEST) REQUEST_BODY) None;
   plain limit_conn (Z.lor REQUEST LOGGING) None;
   plain limit_count (Z.lor REQUEST RESPONSE) None;
   plain limit_req REQUEST None;
   plain brotli EARLY_REQUEST None;
   plain gzip EARLY_REQUEST None;
   plain redirect REQUEST None;
   plain response_rewrite (Z.lor RESPONSE RESPONSE_BODY) None;
   plain grpc_web (Z.lor (Z.lor (Z.lor EARLY_REQUEST REQUEST) REQUEST_BODY) RESPONSE) None;
   plain prometheus LOGGING None;
   plain echo (Z.lor RESPONSE RESPONSE_BODY) None;
   plain file_logger (Z.lor (Z.lor LOGGING REQUEST_BODY) RESPONSE_BODY) None;
   traffic_split_entry
  ].
Definition PLUGIN_META : list BuiltinMeta := (access_plugins ++ traffic_plugins)%list.

(** The columns the control plane and the builder read. *)
Definition meta_of (m : BuiltinMeta) : PluginMeta :=
  {| meta_name := bm_name m; meta_validate := bm_validate m; meta_upstream_refs := bm_upstream_refs m; meta_upstream_jobs := bm_upstream_jobs m |}.
Definition factory_of (m : BuiltinMeta) : FactoryMeta :=
  {| fm_name := bm_name m; fm_phases := bm_phases m; fm_factory := bm_factory m |}.
Definition METAS : list PluginMeta := meta_of <$> PLUGIN_META.
Definition FACTORIES : list FactoryMeta := factory_of <$> PLUGIN_META.

Definition builtin (name : string) : option BuiltinMeta := List.find (fun m => bool_decide (bm_name m = name)) PLUGIN_META.

(** Construction by name outside a candidate. *)
Definition build_plugin (name : string) (cfg : Json) : ProxyResult Plugin :=
  let? meta := ok_or (PluginError ("Unknown plugin type: " +:+ name)) (builtin name) in
  match bm_factory meta with
  | RouteBuild.Plain create =>
    let? r := create cfg in
    Ok {| RouteBuild.body := r.1; p_name := r.2.1; p_priority := r.2.2; p_targets := []; p_inlines := [] |}
  | WithUpstreams _ => Err (PluginError ("Plugin type '" +:+ name +:+ "' requires upstream build context"))
  end.

Definition build_plugin_entry (name : string) (cfg : Json) : ProxyResult PluginEntry :=
  let? meta := ok_or (PluginError ("Unknown plugin type: " +:+ name)) (builtin name) in
  let? p := build_plugin name cfg in
  Ok {| plugin := p; phases := bm_phases meta |}.

(** ** The table is coherent *)

Lemma builtin_names : bm_name <$> PLUGIN_META = i_name <$> (bm_impl <$> PLUGIN_META).
Proof. reflexivity. Qed.

Lemma names_unique : NoDup (bm_name <$> PLUGIN_META).
Proof. apply (bool_decide_unpack _). vm_compute. exact I. Qed.

Lemma builtin_of m : m ∈ PLUGIN_META -> builtin (bm_name m) = Some m.
Proof.
  unfold builtin. generalize names_unique. generalize PLUGIN_META. intros l. induction l as [|x l IH]; intros Hn Hm; [by apply not_elem_of_nil in Hm|].
  apply NoDup_cons in Hn as [Hx Hn]. cbn [List.find]. apply elem_of_cons in Hm as [->|Hm]; [by rewrite bool_decide_true|].
  rewrite bool_decide_false; [by apply IH|]. intros E. apply Hx. rewrite E. by apply list_elem_of_fmap_2.
Qed.

Lemma builtin_elem name m : builtin name = Some m -> m ∈ PLUGIN_META /\ bm_name m = name.
Proof. intros Hf. apply find_some in Hf as [Hi He]. apply bool_decide_eq_true in He. split; [by apply list_elem_of_In|done]. Qed.

(** No hook is implemented without being called, and none is called that is not
    implemented: the phases of an entry are those its plugin overrides. *)
Theorem phases_are_hooks m : m ∈ PLUGIN_META -> bm_phases m = fold_left Z.lor (i_hooks (bm_impl m)) 0.
Proof. revert m. apply list.Forall_forall. repeat (constructor; [reflexivity|]). constructor. Qed.

(** Secrets are transformed by the entry's own column. *)
Theorem secrets_column leaf name v :
  transform_plugin_secrets leaf name v = match builtin name ≫= bm_secrets with Some transform => transform leaf v | None => ret v end.
Proof.
  destruct (builtin name) as [m|] eqn:E; cbn [mbind option_bind].
  - apply builtin_elem in E as [Hm <-]. revert m Hm. apply list.Forall_forall. repeat (constructor; [reflexivity|]). constructor.
  - unfold transform_plugin_secrets. assert (Hno : forall m, m ∈ PLUGIN_META -> name <> bm_name m) by (intros m Hm ->; by rewrite (builtin_of m Hm) in E).
    assert (Hall : Forall (fun m => name <> bm_name m) PLUGIN_META) by (by apply list.Forall_forall).
    unfold PLUGIN_META, access_plugins, traffic_plugins in Hall. cbn [app] in Hall. repeat (apply Forall_cons in Hall as [? Hall]).
    by rewrite !bool_decide_false.
Qed.

Lemma find_factory name : List.find (fun m => bool_decide (fm_name m = name)) FACTORIES = factory_of <$> builtin name.
Proof. unfold FACTORIES, builtin. induction PLUGIN_META as [|m l IH]; [done|]. cbn. by case_bool_decide. Qed.

Lemma find_meta name : plugin_meta METAS name = meta_of <$> builtin name.
Proof. unfold METAS, plugin_meta, builtin. induction PLUGIN_META as [|m l IH]; [done|]. cbn. by case_bool_decide. Qed.

(** A plugin built by name is the one a candidate's build gives. *)
Theorem build_by_name name cfg us prepared owner n e : build_plugin_entry name cfg = Ok e ->
  build_plugin_with_upstreams FACTORIES name cfg us prepared owner n = Ok (e, n).
Proof.
  unfold build_plugin_entry, build_plugin, build_plugin_with_upstreams. rewrite find_factory. intros (meta & Hm%ok_or_ok & (p & Hp & [= <-])%and_then_ok)%and_then_ok.
  rewrite Hm in Hp |- *. cbn in Hp |- *. destruct (bm_factory meta) as [mk|mk]; [|done]. apply and_then_ok in Hp as (r & Hr & [= <-]).
  unfold bindB, from_result. by rewrite Hr.
Qed.

Lemma table_row m : m ∈ PLUGIN_META -> (exists i phases secrets, m = plain i phases secrets) \/ m = ai_proxy_entry \/ m = traffic_split_entry.
Proof.
  revert m. apply list.Forall_forall. unfold PLUGIN_META, access_plugins, traffic_plugins. cbn [app].
  repeat (apply Forall_cons; split; [first [left; eexists _, _, _; reflexivity|right; left; reflexivity|right; right; reflexivity]|]). constructor.
Qed.

(** What the control plane asks of an inventory: a plugin takes from the
    candidate only what its declared references name, and asks for the
    preparation of its own scope's upstreams only. *)
Theorem inventory_declares : targets_declared FACTORIES (plugin_upstream_refs METAS).
Proof.
  intros name meta mk Hf Hmk cfg us prepared owner n p n' Hp. rewrite find_factory in Hf. unfold plugin_upstream_refs. rewrite find_meta.
  destruct (builtin name) as [m|] eqn:E; [|done]. injection Hf as <-. cbn [fmap option_fmap option_map mbind option_bind] in *.
  apply builtin_elem in E as [Hm _]. destruct (table_row m Hm) as [(i & ph & sc & ->)|[-> | ->]]; [done| |].
  - injection Hmk as <-. apply bindB_ok in Hp as (r & k & _ & [-> _]%pure_ok). exists []. split; [done|]. cbn. by intros u ?%not_elem_of_nil.
  - assert (Hs : List.find (fun m => bool_decide (fm_name m = "traffic-split")) [traffic_split_factory mk_split] = Some (traffic_split_factory mk_split)) by reflexivity.
    injection Hmk as <-. destruct (traffic_split_declares mk_split _ _ _ Hs eq_refl _ _ _ _ _ _ _ Hp) as (ids & Hids & Hu). exists ids. split; [exact Hids|exact Hu].
Qed.

Theorem inventory_jobs_owned : jobs_owned METAS.
Proof.
  intros name meta f Hm Hf owner cfg l Hl o u Hin. rewrite find_meta in Hm. destruct (builtin name) as [m|] eqn:E; [|done]. injection Hm as <-.
  apply builtin_elem in E as [Hm _]. destruct (table_row m Hm) as [(i & ph & sc & ->)|[-> | ->]]; [done| |]; injection Hf as <-.
  - unfold AiProxy.inline_upstream_jobs in Hl. apply and_then_ok in Hl as (c & _ & (e & _ & [= <-])%and_then_ok). apply list_elem_of_singleton in Hin as [= -> ->]. by right.
  - left. unfold TrafficSplit.inline_upstream_jobs in Hl. apply and_then_ok in Hl as (rs & _ & Hl).
    refine (try_fold_inv (fun js => forall o u, (o, u) ∈ js -> exists a b, o = TrafficSplit owner a b) _ _ _ _ _ _ Hl o u Hin); [|by intros ? ? ?%not_elem_of_nil].
    intros js [k rule] js' _ IH (ws & _ & Hr)%and_then_ok. refine (try_fold_inv (fun js => forall o u, (o, u) ∈ js -> exists a b, o = TrafficSplit owner a b) _ _ _ _ _ _ Hr); [|exact IH].
    intros js1 [k1 w] js2 _ IH1. unfold weighted_job. destruct (json_get "upstream" _) as [value|]; [|by intros [= <-]].
    intros (u1 & _ & [= <-])%and_then_ok o1 u2 [Hi|Hi]%elem_of_app; [by eapply IH1|]. apply list_elem_of_singleton in Hi as [= -> ->]. by eexists _, _.
Qed.

(** ** The order of a route's plugins *)

(** An entry that is a builtin: named, ordered and called as the table says. *)
Definition from_table (e : PluginEntry) : Prop :=
  exists m, m ∈ PLUGIN_META /\ entry_name e = bm_name m /\ entry_priority e = i_priority (bm_impl m) /\ phases e = bm_phases m.

Lemma built_from_table name cfg us prepared owner n e n' : build_plugin_with_upstreams FACTORIES name cfg us prepared owner n = Ok (e, n') -> from_table e /\ entry_name e = name.
Proof.
  unfold build_plugin_with_upstreams. rewrite find_factory. destruct (builtin name) as [m|] eqn:E; [|done]. cbn [fmap option_fmap option_map]. apply builtin_elem in E as [Hm <-].
  intros (p & k & Hp & [-> _]%pure_ok)%bindB_ok. assert (Hpn : p_name p = bm_name m /\ p_priority p = i_priority (bm_impl m)).
  { destruct (table_row m Hm) as [(i & ph & sc & ->)|[-> | ->]]; cbn [factory_of fm_factory bm_factory plain ai_proxy_entry traffic_split_entry] in Hp.
    - apply bindB_ok in Hp as (r & k' & (Hr & _)%from_result_ok & [-> _]%pure_ok). apply and_then_ok in Hr as (b & _ & [= <-]). done.
    - apply bindB_ok in Hp as (r & k' & _ & [-> _]%pure_ok). done.
    - apply bindB_ok in Hp as (r & k' & _ & [-> _]%pure_ok). done. }
  destruct Hpn as [H1 H2]. split; [|exact H1]. exists m. by repeat split.
Qed.

Lemma built_list plugins us prepared owner error n es n' : build_plugins FACTORIES plugins us prepared owner error n = Ok (es, n') ->
  Forall from_table es /\ StronglySorted prio_ge es.
Proof.
  intros (l & k & Hl & [-> ->]%pure_ok)%bindB_ok. split; [|apply sort_prio]. apply list.Forall_forall. intros e He. unfold sort_plugins_by_priority_desc in He.
  rewrite merge_sort_Permutation in He. destruct (collect_ok _ _ _ _ _ Hl e He) as ([name cfg] & i & j & _ & He'). apply on_err_ok in He'. by apply built_from_table in He' as [? _].
Qed.

(** The services of a candidate were compiled by the same inventory. *)
Definition services_built (ss : gmap string ProxyService) : Prop :=
  forall sid s, ss !! sid = Some s -> exists service us prepared n n', ProxyService_build FACTORIES service us prepared n = Ok (s, n').

Lemma service_plugins service us prepared n s n' : ProxyService_build FACTORIES service us prepared n = Ok (s, n') ->
  Forall from_table (ps_plugins s) /\ StronglySorted prio_ge (ps_plugins s).
Proof.
  intros (inline & k & _ & Hr)%bindB_ok. apply bindB_ok in Hr as (up & k1 & _ & Hr). apply bindB_ok in Hr as (pl & k2 & Hpl & [-> _]%pure_ok).
  by apply built_list in Hpl.
Qed.

Lemma route_plugins route us ss prepared n r n' : services_built ss -> ProxyRoute_build FACTORIES route us ss prepared n = Ok (r, n') ->
  Forall from_table (pr_executor r) /\ StronglySorted prio_ge (pr_executor r).
Proof.
  intros Hss Hr. pose proof (ProxyRoute_build_ok FACTORIES route us ss prepared n r n' _ inventory_declares Hr) as (_ & _ & _ & _ & _ & _ & Hex).
  assert (Hpl : Forall from_table (pr_plugins r) /\ StronglySorted prio_ge (pr_plugins r)).
  { unfold ProxyRoute_build in Hr. apply bindB_ok in Hr as (sv & k0 & _ & Hr). apply bindB_ok in Hr as (inline & k & _ & Hr). apply bindB_ok in Hr as (up & k1 & _ & Hr).
    apply bindB_ok in Hr as (pl & k2 & Hpl & [-> _]%pure_ok). by apply built_list in Hpl. }
  destruct Hpl as [Hf Hs]. rewrite Hex. unfold merged_plugins. destruct (bound_service ss route) as [s|] eqn:Eb; [|done].
  unfold bound_service in Eb. destruct (Route.service_id route) as [sid|]; [|done]. destruct (Hss sid s Eb) as (service & us' & prep & k & k' & Hb).
  apply service_plugins in Hb as [Hf' Hs']. split; [|by apply merge_sorted]. rewrite merge_elems. apply Forall_app. split; [done|].
  apply list.Forall_forall. intros e [_ He]%list_elem_of_filter. rewrite list.Forall_forall in Hf'. by apply Hf'.
Qed.

Definition AUTHENTICATORS : list string := ["basic-auth"; "jwt-auth"; "key-auth"].

(** What only a request with accepted credentials may reach. *)
Definition PROTECTED : list string :=
  ["proxy-cache"; "proxy-mirror"; "proxy-rewrite"; "api-breaker"; "limit-conn"; "limit-count"; "limit-req"; "brotli"; "gzip"; "redirect";
   "response-rewrite"; "grpc-web"; "prometheus"; "echo"; "file-logger"; "traffic-split"].

Lemma authenticators_before a p : a ∈ PLUGIN_META -> bm_name a ∈ AUTHENTICATORS -> p ∈ PLUGIN_META -> bm_name p ∈ PROTECTED ->
  i_priority (bm_impl p) < i_priority (bm_impl a).
Proof.
  intros Ha Hna Hp Hnp. assert (H1 : Forall (fun m => bm_name m ∈ AUTHENTICATORS -> 2500 <= i_priority (bm_impl m)) PLUGIN_META).
  { unfold PLUGIN_META, access_plugins, traffic_plugins. cbn [app]. repeat (apply Forall_cons; split; [intros Hn; (by cbn) || (apply (bool_decide_pack _) in Hn; vm_compute in Hn; contradiction)|]). constructor. }
  assert (H2 : Forall (fun m => bm_name m ∈ PROTECTED -> i_priority (bm_impl m) < 2500) PLUGIN_META).
  { unfold PLUGIN_META, access_plugins, traffic_plugins. cbn [app]. repeat (apply Forall_cons; split; [intros Hn; (by cbn) || (apply (bool_decide_pack _) in Hn; vm_compute in Hn; contradiction)|]). constructor. }
  rewrite list.Forall_forall in H1, H2. specialize (H1 a Ha Hna). specialize (H2 p Hp Hnp). lia.
Qed.

Lemma authenticators_called a : a ∈ PLUGIN_META -> bm_name a ∈ AUTHENTICATORS -> phases_contain (bm_phases a) REQUEST = true.
Proof.
  intros Ha. assert (Hall : Forall (fun m => bm_name m ∈ AUTHENTICATORS -> phases_contain (bm_phases m) REQUEST = true) PLUGIN_META); [|rewrite list.Forall_forall in Hall; by apply Hall].
  unfold PLUGIN_META, access_plugins, traffic_plugins. cbn [app].
  repeat (apply Forall_cons; split; [intros Hn; reflexivity || (apply (bool_decide_pack _) in Hn; vm_compute in Hn; contradiction)|]). constructor.
Qed.

Lemma first_verdict_agree {W : Type} (h1 h2 : Hooks (W := W)) l w :
  (forall p, p ∈ l -> forall w, request_hook (Hooks := h1) p w = request_hook (Hooks := h2) p w) -> first_verdict (H0 := h1) l w = first_verdict (H0 := h2) l w.
Proof.
  revert w. induction l as [|p l IH]; intros w Ha; [done|]. cbn [first_verdict]. rewrite (Ha p) by left. destruct (request_hook p w) as [[[|r]|e] w']; [|done|done].
  apply IH. intros q Hq. apply Ha. by right.
Qed.

Lemma first_verdict_stops {W : Type} (h : Hooks (W := W)) p l w : (forall w, (request_hook p w).1 <> Ok Continue) -> first_verdict (p :: l) w = request_hook p w.
Proof. intros Hp. cbn [first_verdict]. specialize (Hp w). destruct (request_hook p w) as [[[|r]|e] w']; [done|done|done]. Qed.

(** C36 (credentials come first).  A request that an authenticator of its route
    refuses is refused the same whatever the protected plugins would do with it:
    no cache, limiter, breaker, mirror, redirect or traffic split of the route or
    of its service gets to see it in the request phase. *)
Theorem credentials_first {W : Type} (h1 h2 : Hooks (W := W)) route us ss prepared n r n' e w :
  services_built ss -> ProxyRoute_build FACTORIES route us ss prepared n = Ok (r, n') ->
  e ∈ pr_executor r -> entry_name e ∈ AUTHENTICATORS ->
  (forall w, (request_hook (Hooks := h1) (plugin e) w).1 <> Ok Continue) ->
  (forall p, p_name p ∉ PROTECTED -> forall w, request_hook (Hooks := h1) p w = request_hook (Hooks := h2) p w) ->
  let verdict h := first_verdict (H0 := h) (request (from_sorted (pr_executor r))) w in
  (verdict h1).1 <> Ok Continue /\ verdict h2 = verdict h1.
Proof.
  intros Hss Hr He Hn Hrefuse Hagree verdict. destruct (route_plugins _ _ _ _ _ _ _ Hss Hr) as [Hft Hsorted]. unfold verdict.
  rewrite (proj1 (proj2 (proj2 (from_sorted_partition (pr_executor r))))). apply list_elem_of_split in He as (a & b & Hl). rewrite Hl in *. clear Hl.
  assert (Hat : from_table e) by (apply Forall_app in Hft as [_ Hft]; by apply Forall_cons in Hft as [? _]). destruct Hat as (m & Hm & Hmn & Hmp & Hmph).
  rewrite Hmn in Hn. assert (Ha : Forall (fun x => p_name (plugin x) ∉ PROTECTED) a).
  { apply list.Forall_forall. intros x Hx Hprot. apply Forall_app in Hft as [Hft _]. rewrite list.Forall_forall in Hft. destruct (Hft x Hx) as (mx & Hmx & Hmxn & Hmxp & _).
    change (p_name (plugin x)) with (entry_name x) in Hprot. rewrite Hmxn in Hprot. pose proof (authenticators_before m mx Hm Hn Hmx Hprot) as Hlt.
    assert (Hge : prio_ge x e) by (apply (StronglySorted_app_1_elem_of _ _ _ x e Hsorted); [exact Hx|left]). unfold prio_ge in Hge. lia. }
  assert (Hd : declared REQUEST (a ++ e :: b) = (declared REQUEST a ++ plugin e :: declared REQUEST b)%list).
  { rewrite declared_app. unfold declared at 2. cbn [List.filter]. rewrite Hmph, (authenticators_called m Hm Hn). done. }
  rewrite Hd, !first_verdict_app.
  assert (Hpa : forall w, first_verdict (H0 := h1) (declared REQUEST a) w = first_verdict (H0 := h2) (declared REQUEST a) w).
  { intros w0. apply first_verdict_agree. intros p Hp. apply Hagree. unfold declared in Hp. apply list_elem_of_fmap in Hp as (x & -> & Hx).
    apply list_elem_of_In, filter_In in Hx as [Hx%list_elem_of_In _]. rewrite list.Forall_forall in Ha. by apply Ha. }
  assert (Hpe : forall w, request_hook (Hooks := h1) (plugin e) w = request_hook (Hooks := h2) (plugin e) w).
  { apply Hagree. change (p_name (plugin e)) with (entry_name e). rewrite Hmn. intros Hprot. by apply (Z.lt_irrefl (i_priority (bm_impl m))), (authenticators_before m m). }
  rewrite <-Hpa. destruct (first_verdict (H0 := h1) (declared REQUEST a) w) as [[[|rj]|er] w1] ; [|by split|by split].
  rewrite (first_verdict_stops h1) by exact Hrefuse. rewrite (first_verdict_stops h2) by (intros w0; rewrite <-Hpe; apply Hrefuse).
  split; [apply Hrefuse|by rewrite Hpe].
Qed.

End inventory.

(** ** Witnesses *)

Module ToyInventory.
Import ToySerde ToySplit ToyAi.

#[export] Instance compiler : Compiler := ToyAi.compiler.
Definition factories : list FactoryMeta := FACTORIES (fun _ _ => Ok (0 : Body)) (fun _ _ => Ok ()) (fun _ => 0 : Body) (fun _ => 0 : Body) 0.
Definition metas : list BuiltinMeta := PLUGIN_META (fun _ _ => Ok (0 : Body)) (fun _ _ => Ok ()) (fun _ => 0 : Body) (fun _ => 0 : Body) 0.

(** A route with a key check and a cache. *)
Definition route : Route.t := Route.Build_t "r1" None (Some "/") [] [] None [] 0 {["key-auth" := JObject []; "proxy-cache" := JObject []]} None None None None false.

(** The key check refuses; the cache answers [cached]. *)
Definition hooks (cached : FilterVerdict) : Hooks (W := nat) := {|
  early_request_hook _ w := (Ok (), w);
  request_hook p w := if bool_decide (p_name p = "key-auth") then (Ok (Reject (Rejection_new 401)), w)
    else if bool_decide (p_name p = "proxy-cache") then (Ok cached, S w) else (Ok Continue, w);
  upstream_request_hook _ w := (Ok (), w);
  request_body_hook _ w := (Ok (), w);
  response_hook _ w := (Ok (), w);
  response_body_hook _ w := (Ok (), w);
  upstream_peer_hook _ w := (Ok (), w);
  logging_hook _ w := w;
  exit_transform_of _ := None;
|}.
Definition built : option ProxyRoute :=
  match ProxyRoute_build factories route ∅ ∅ (fun _ => None) 0%nat with Ok (r, _) => Some r | Err _ => None end.
End ToyInventory.

Import ToyInventory.

Lemma credentials_first_witness : exists r, built = Some r /\ (entry_name <$> pr_executor r) = ["key-auth"; "proxy-cache"] /\
  (first_verdict (H0 := hooks Continue) (request (from_sorted (pr_executor r))) 0%nat).1 <> Ok Continue.
Proof.
  unfold built. destruct (ProxyRoute_build factories route ∅ ∅ (fun _ => None) 0%nat) as [[r n']|] eqn:E; [|vm_compute in E; discriminate].
  exists r. split; [done|]. assert (Hl : (entry_name <$> pr_executor r) = ["key-auth"; "proxy-cache"]) by (vm_compute in E; injection E as <- <-; reflexivity). split; [exact Hl|].
  destruct (pr_executor r) as [|e [|c [|? ?]]] eqn:Ex; try discriminate Hl. injection Hl as He _. rewrite <-Ex.
  refine (proj1 (credentials_first (fun _ _ => Ok (0 : Body)) (fun _ _ => Ok ()) (fun _ => 0 : Body) (fun _ => 0 : Body) 0 (hooks Continue) (hooks (Reject (Rejection_new 200)))
    route ∅ ∅ (fun _ => None) 0%nat r n' e 0%nat _ E _ _ _ _)).
  - intros sid s Hs. by rewrite lookup_empty in Hs.
  - rewrite Ex. left.
  - rewrite He. right; right; left.
  - intros w. cbn. unfold entry_name in He. by rewrite He.
  - intros p Hp w. cbn. case_bool_decide; [done|]. rewrite bool_decide_false; [done|]. intros Hc. apply Hp. rewrite Hc. left.
Defined.

(** The comment above the inventory has it in descending priority; four entries
    come right before one of higher priority. *)
Example inventory_not_descending :
  (fun m => i_priority (bm_impl m)) <$> metas = [22000; 22950; 12015; 11000; 4000; 3000; 2900; 2900; 2800; 2980; 2520; 2510; 2500; 1085; 1008; 1005; 1010; 1003;
     1002; 1001; 996; 995; 900; 899; 505; 500; 412; 399; 966].
Proof. reflexivity. Qed.
