(* ===== verification/StatusHttp.v ===== *)
(** * The status server ([src/src/service/status.rs])

    The public probes and the protected diagnostics over the status store
    ([Status]).  SHA-256, JSON printing and the [http] crate are type classes; the
    listener is Pingora's. *)

From Stdlib Require Import ZArith Lia.
From stdpp Require Import base tactics gmap strings option list.
From S2P Require Import Prelude Errors Status Hosts Json Config ConfigSet GraphDecode RequestVars AuthPlugins Csrf Settings.

Open Scope Z_scope.

Record StatusResponse : Type := { code : Z; content_type : option string; payload : string }.

(** ** The documents *)

Definition LiveResponse_json : Json := JObject [("status", JString "ok")].

(** [reason] is left out when there is none. *)
Definition ReadyResponse_json (ready : bool) (reason : option string) : Json :=
  JObject (("status", JString (if ready then "ok" else "error")) :: match reason with Some r => [("reason", JString r)] | None => [] end).

Definition or_null {A} (f : A -> Json) (o : option A) : Json := match o with Some a => f a | None => JNull end.
Definition int (z : Z) : Json := JNumber (NInt z).
Definition error_kind_text (k : ConfigErrorKind) : string :=
  match k with EtcdUnavailable => "etcd_unavailable" | CandidateInvalid => "candidate_invalid" end.
Definition RuntimeStatusView_json (v : RuntimeStatusView) : Json :=
  JObject [("initialized", JBool (view_initialized v)); ("ready", JBool (view_ready v));
    ("config_source", or_null JString (view_config_source v)); ("observed_revision", or_null int (view_observed_revision v));
    ("published_revision", or_null int (view_published_revision v)); ("revision", or_null int (view_revision v));
    ("connected", JBool (view_connected v)); ("degraded", JBool (view_degraded v));
    ("degraded_reason", or_null JString (view_degraded_reason v)); ("last_success_age_secs", or_null int (view_last_success_age_secs v));
    ("error_kind", or_null (fun k => JString (error_kind_text k)) (view_error_kind v)); ("last_error", or_null JString (view_last_error v))].

Section server.
Context `{HttpTypes} `{AuthLib} `{Serde}.

Definition json_response (status : Z) (body : Json) : StatusResponse :=
  {| code := status; content_type := Some "application/json"; payload := match to_vec body with Ok b => b | Err _ => "{}" end |}.

Definition forbidden_response : StatusResponse := {| code := 403; content_type := None; payload := "Forbidden" |}.
Definition not_found_response : StatusResponse := {| code := 404; content_type := None; payload := "Not Found" |}.

Definition handle_live_endpoint : StatusResponse := json_response 200 LiveResponse_json.

Definition handle_ready_endpoint (now : Instant) (status : RuntimeStatusInner) : StatusResponse :=
  let '(ready, reason) := readiness now status in
  json_response (if ready then 200 else 503) (ReadyResponse_json ready reason).

Definition handle_config_endpoint (now : Instant) (status : RuntimeStatusInner) : StatusResponse :=
  json_response 200 (RuntimeStatusView_json (status_view now status)).

Definition diagnostics_authorized (config : StatusSettings.t) (session : RequestHeader) : bool :=
  if negb (StatusSettings.diagnostics_enabled config) then false
  else if is_loopback (sa_ip (StatusSettings.address config)) then true
  else match StatusSettings.diagnostics_api_key config with
       | None => false
       | Some expected =>
         let supplied := default "" (head (headers_get_all (headers session) "x-api-key") ≫= to_str) in
         constant_time_eq supplied expected
       end.

(** [StatusHttpApp::response] *)
Definition response (config : StatusSettings.t) (session : RequestHeader) (now : Instant) (status : RuntimeStatusInner) : StatusResponse :=
  let path := uri_path (uri session) in
  if bool_decide (path = "/status/live") then handle_live_endpoint
  else if bool_decide (path = "/status/ready") then handle_ready_endpoint now status
  else if bool_decide (path = "/status/config") && StatusSettings.diagnostics_enabled config then
    if diagnostics_authorized config session then handle_config_endpoint now status else forbidden_response
  else not_found_response.

(** ** What the server tells, and to whom *)

(** Off the loopback the key has to be sent, by its digest, and a key that is
    blank enables nothing. *)
Lemma authorized_spec config session :
  diagnostics_authorized config session = true <->
  is_loopback (sa_ip (StatusSettings.address config)) = true \/
  StatusSettings.allow_insecure_remote config = true /\
  exists key, StatusSettings.diagnostics_api_key config = Some key /\ trim key <> "" /\
    secret_digest (default "" (head (headers_get_all (headers session) "x-api-key") ≫= to_str)) = secret_digest key.
Proof.
  unfold diagnostics_authorized, StatusSettings.diagnostics_enabled. destruct (is_loopback _); cbn [orb negb]; [naive_solver|].
  destruct (StatusSettings.allow_insecure_remote config), (StatusSettings.diagnostics_api_key config) as [key|]; cbn [andb negb]; try naive_solver.
  unfold constant_time_eq, constant_time_digest_eq. destruct (bool_decide (trim key = "")) eqn:E; cbn [negb]; bool_to_prop.
  - split; [done|]. intros [?|(_ & k & [= <-] & Hk & _)]; [done|by destruct Hk].
  - rewrite bool_decide_eq_true. split; [intros Hd; right; split; [done|]; by exists key|]. by intros [?|(_ & k & [= <-] & _ & Hd)].
Qed.

(** Liveness is answered whatever the state is; readiness is 200 exactly when
    the store is ready, and otherwise 503 with a reason. *)
Theorem probes config session now status :
  (uri_path (uri session) = "/status/live" -> response config session now status = json_response 200 LiveResponse_json) /\
  (uri_path (uri session) = "/status/ready" ->
     exists reason, response config session now status = json_response (if compute_ready now status then 200 else 503) (ReadyResponse_json (compute_ready now status) reason) /\
       (is_Some reason <-> compute_ready now status = false)).
Proof.
  unfold response. split; intros ->; [done|]. cbn. unfold handle_ready_endpoint, readiness.
  destruct (compute_ready now status); eexists; (split; [reflexivity|]); [by split; [intros []|]|]. split; [done|]. intros _.
  destruct (negb (initialized status)); [by eexists|]. destruct (is_stale now status); [by eexists|]. destruct (awaiting_publish_after_reconnect status); by eexists.
Qed.

(** Without authorization the server tells nothing of the state but readiness:
    any two states with the same readiness get the same answer. *)
Theorem status_confidential config session now now' s s' :
  diagnostics_authorized config session = false -> readiness now s = readiness now' s' ->
  response config session now s = response config session now' s'.
Proof.
  intros Ha Hr. unfold response, handle_ready_endpoint. rewrite Hr, Ha. done.
Qed.

(** A listener that is open to others and has no protected diagnostics does not
    even admit that there are some. *)
Theorem diagnostics_hidden config session now s :
  StatusSettings.diagnostics_enabled config = false -> uri_path (uri session) = "/status/config" -> response config session now s = not_found_response.
Proof. intros He Hp. unfold response. by rewrite Hp, He. Qed.

End server.
