(* ===== verification/Runtime.v ===== *)
(** * The runtime snapshot ([src/src/proxy/runtime.rs])

    Compiling a candidate into the snapshot requests read, with its two matchers
    and the global plugins; the health checks a snapshot wants; and the
    publication, which composes the swap, the status store ([Status]) and the
    reconciliation of the checks ([HealthChecks]). *)

From Stdlib Require Import ZArith Lia Ascii.
From stdpp Require Import base tactics gmap fin_maps strings pretty option sorting list.
From S2P Require Import Prelude Errors Status GraphStore Utf8 Hosts Json Config ConfigSet GraphDecode AdminOps SniMatch RouteBuild ControlPlane TrafficSplit HealthChecks Pipeline RouteMatch Settings Rewrite Cache AiTransform AiProxy Inventory.

Open Scope Z_scope.

Section runtime.
Context `{Compiler} `{OpenSsl} `{PathRouter} `{MatchRouter}.

Record RuntimeSnapshot : Type := {
  revision : Z;
  maps : CandidateSnapshot;
  route_matcher : RouteMatch.MatchEntry;
  global_plugins : ProxyPluginExecutor;
  ssl_matcher : SniMatch.MatchEntry;
}.

(** [RuntimeSnapshot::compile]; the global plugins come sorted. *)
Definition compile (candidate : CandidateSnapshot) (revision : Z) : Result RuntimeSnapshot (Stop ProxyError) :=
  let global_plugins := from_sorted (build_global_plugin_executor (c_global_rules candidate)) in
  let? route_matcher := RouteMatch.MatchEntry_build (c_routes candidate) global_plugins in
  let? ssl_matcher := map_err Raise (SniMatch.build (c_ssls candidate)) in
  Ok {| revision := revision; maps := candidate; route_matcher := route_matcher; global_plugins := global_plugins; ssl_matcher := ssl_matcher |}.

(** [RuntimeSnapshot::empty] *)
Definition empty : RuntimeSnapshot :=
  {| revision := 0; maps := empty_snapshot; route_matcher := {| non_host_uri := path_new; host_uris := path_new; global_cors := false |};
     global_plugins := executor_default; ssl_matcher := MatchEntry_default |}.

(** ** The health checks of a snapshot *)

(** [HealthCheckSpec]s are collected with the upstream that owns the service
    and the fingerprint; [Upstream::fingerprint] is an argument, its hash is
    modelled in [Config]. *)
Context (health_check_fingerprint : Upstream.t -> Z).

Definition spec_of (key : string) (upstream : RouteBuild.ProxyUpstream) : HealthCheckSpec :=
  {| key := key; fingerprint := health_check_fingerprint (pu_inner upstream); service := pu_arc upstream |}.

(** The specs a traffic split collects while it compiles its rules. *)
Definition split_key (rule_idx upstream_idx : nat) : string := "traffic-split/" +:+ pretty rule_idx +:+ "/" +:+ pretty upstream_idx.
Definition target_spec (rule_idx : nat) (iwt : nat * (WeightedUpstream * (Z * WeightedTarget))) : list HealthCheckSpec :=
  match upstream_id iwt.2.1, iwt.2.2.2 with None, Selected u => [spec_of (split_key rule_idx iwt.1) u] | _, _ => [] end.
Definition rule_specs (irc : nat * (MatchRule * CompiledRule)) : list HealthCheckSpec :=
  enumerate (zip (weighted_upstreams irc.2.1) (targets irc.2.2)) ≫= target_spec irc.1.
Definition split_specs (self : PluginTrafficSplit) : list HealthCheckSpec := enumerate (zip (TrafficSplit.rules (TrafficSplit.config self)) (compiled self)) ≫= rule_specs.

(** The executor's view of an instance: only a traffic split has specs. *)
Context (as_split : Body -> option PluginTrafficSplit).
Definition health_check_specs (p : Plugin) : list HealthCheckSpec := match as_split (body p) with Some self => split_specs self | None => [] end.

Definition prefixed (prefix : string) (spec : HealthCheckSpec) : HealthCheckSpec :=
  {| key := prefix +:+ "/" +:+ key spec; fingerprint := fingerprint spec; service := service spec |}.
Definition plugin_health_checks (prefix : string) (plugin : Plugin) : list HealthCheckSpec := prefixed prefix <$> health_check_specs plugin.
Definition scope_health_checks (scope : string) (entries : list PluginEntry) : list HealthCheckSpec :=
  entries ≫= (fun entry => plugin_health_checks (scope +:+ "/plugin") (plugin entry)).
Definition inline_check (scope : string) (inline : option RouteBuild.ProxyUpstream) : list HealthCheckSpec :=
  match inline with Some u => [spec_of (scope +:+ "/inline") u] | None => [] end.

Definition collect_health_checks (snapshot : CandidateSnapshot) : list HealthCheckSpec :=
  (((fun iu => spec_of ("upstream/" +:+ iu.1) iu.2) <$> map_to_list (c_upstreams snapshot)) ++
  (map_to_list (c_services snapshot) ≫= fun sv => inline_check ("service/" +:+ sv.1) (ps_inline sv.2) ++ scope_health_checks ("service/" +:+ sv.1) (ps_plugins sv.2)) ++
  (map_to_list (c_routes snapshot) ≫= fun ir => inline_check ("route/" +:+ ir.1) (pr_inline ir.2) ++ scope_health_checks ("route/" +:+ ir.1) (pr_plugins ir.2)) ++
  (map_to_list (c_global_rules snapshot) ≫= fun ig => scope_health_checks ("global-rule/" +:+ ig.1) (pg_plugins ig.2)))%list.

(** ** [RuntimeStore] *)

Record RuntimeStore : Type := {
  current : RuntimeSnapshot;
  health_checks : gmap string ActiveHealthCheckEntry;
  status : RuntimeStatusInner;
  health_check : HealthCheckRegistry;
}.

(** [new]: private stores. *)
Definition RuntimeStore_new : RuntimeStore :=
  {| current := empty; health_checks := ∅; status := RuntimeStatusInner_default; health_check := registry_new |}.

(** [publish], under its lock.  The registrations come before the swap and the
    stops after it; both commute with it and with the status. *)
Definition publish (now : Instant) (snapshot : RuntimeSnapshot) (self : RuntimeStore) : RuntimeStore :=
  let res := HealthChecks.publish (collect_health_checks (maps snapshot)) (health_checks self) (health_check self) in
  {| current := snapshot; health_checks := res.1; status := set_published_revision now (revision snapshot) (status self); health_check := res.2 |}.

(** ** The keys of the checks are unique *)

Lemma cancel_r a b x : a +:+ x = b +:+ x -> a = b.
Proof.
  intros E. assert (Hl : String.length a = String.length b) by (apply (f_equal String.length) in E; rewrite !length_app_str in E; lia).
  by apply (str_app_length_inj a b x x).
Qed.

Lemma last_segment a b x y : contains_char "/"%char x = false -> contains_char "/"%char y = false -> a +:+ "/" +:+ x = b +:+ "/" +:+ y -> a = b /\ x = y.
Proof.
  intros Hx Hy E. assert (x = y) as ->; [|split; [by eapply cancel_r|done]].
  rewrite <-(rsplit_first_app "/"%char a x Hx). change (a +:+ String "/" x) with (a +:+ "/" +:+ x). rewrite E. exact (rsplit_first_app "/"%char b y Hy).
Qed.

Lemma pretty_nat_digits (n : nat) : str_forall is_ascii_digit (pretty n) = true.
Proof. destruct n as [|n]; [done|]. exact (proj1 (pretty_N_go_digits (N.of_nat (S n)) "")). Qed.

Lemma pretty_no_slash (n : nat) : contains_char "/"%char (pretty n) = false.
Proof. by apply (str_forall_no_char _ is_ascii_digit), pretty_nat_digits. Qed.

(** The two kinds of keys of a scope. *)
Definition inline_key (scope id : string) : string := scope +:+ id +:+ "/inline".
Definition plugin_key (scope id : string) (i j : nat) : string := scope +:+ id +:+ "/plugin/" +:+ split_key i j.

Lemma inline_key_inj scope id id' : inline_key scope id = inline_key scope id' -> id = id'.
Proof. intros E%(inj (String.append scope)). by apply cancel_r in E. Qed.

Lemma plugin_key_inj scope id id' i i' j j' : plugin_key scope id i j = plugin_key scope id' i' j' -> id = id' /\ i = i' /\ j = j'.
Proof.
  intros E%(inj (String.append scope)). unfold split_key in E.
  assert (Hf : forall id i j, id +:+ "/plugin/" +:+ "traffic-split/" +:+ pretty i +:+ "/" +:+ pretty j =
    (((id +:+ "/plugin") +:+ "/" +:+ "traffic-split") +:+ "/" +:+ pretty (i : nat)) +:+ "/" +:+ pretty (j : nat)) by (intros; by rewrite !str_app_assoc).
  rewrite !Hf in E. apply last_segment in E as [E Ej]; [|apply pretty_no_slash..]. apply last_segment in E as [E Ei]; [|apply pretty_no_slash..].
  apply cancel_r in E. apply cancel_r in E. split; [done|]. by split; apply (inj (pretty : nat -> string)).
Qed.

Lemma inline_not_plugin scope id id' i j : inline_key scope id <> plugin_key scope id' i j.
Proof.
  intros E%(inj (String.append scope)). unfold split_key in E.
  assert (Hf : id' +:+ "/plugin/" +:+ "traffic-split/" +:+ pretty i +:+ "/" +:+ pretty j = (id' +:+ "/plugin/" +:+ "traffic-split/" +:+ pretty i) +:+ "/" +:+ pretty j) by (by rewrite !str_app_assoc).
  rewrite Hf in E. change (id +:+ "/inline") with (id +:+ "/" +:+ "inline") in E. apply last_segment in E as [_ E]; [|done|apply pretty_no_slash].
  pose proof (pretty_nat_digits j) as Hd. by rewrite <-E in Hd.
Qed.

(** The keys of a list of lists are unique when those of each part are and
    equal keys come from parts of one identity. *)
Lemma NoDup_keyed {A C K I} (g : C -> K) (ident : A -> I) (f : A -> list C) l :
  NoDup (ident <$> l) -> (forall x, x ∈ l -> NoDup (g <$> f x)) ->
  (forall x y b c, x ∈ l -> y ∈ l -> b ∈ f x -> c ∈ f y -> g b = g c -> ident x = ident y) -> NoDup (g <$> (l ≫= f)).
Proof.
  induction l as [|x l IH]; intros Hn Hf Hd; [constructor|]. cbn [fmap list_fmap] in Hn. apply NoDup_cons in Hn as [Hx Hn]. change ((x :: l) ≫= f) with (f x ++ (l ≫= f))%list.
  rewrite fmap_app. apply NoDup_app. split; [apply Hf; left|]. split.
  - intros k (b & -> & Hb)%list_elem_of_fmap (c & Hk & (y & Hc & Hy)%list_elem_of_bind)%list_elem_of_fmap. apply Hx. rewrite (Hd x y b c); try done; [by apply list_elem_of_fmap_2|left|by right].
  - apply IH; [done|intros y Hy; apply Hf; by right|]. intros y z b c Hy Hz. apply Hd; by right.
Qed.

Lemma enumerate_ids {A} (l : list A) : (enumerate l).*1 = seq 0 (length l).
Proof. unfold enumerate. rewrite fmap_imap. cbn. apply list_eq. intros i. rewrite list_lookup_imap. destruct (decide (i < length l)%nat) as [Hi|Hi].
  - rewrite lookup_seq_lt by done. destruct (lookup_lt_is_Some_2 l i Hi) as [x ->]. done.
  - rewrite (lookup_ge_None_2 l), (lookup_ge_None_2 (seq 0 _)); [done|rewrite length_seq|]; lia.
Qed.

Lemma enumerate_unique {A} (l : list A) : NoDup (enumerate l).*1.
Proof. rewrite enumerate_ids. apply NoDup_seq. Qed.

Lemma target_spec_key i jwt spec : spec ∈ target_spec i jwt -> key spec = split_key i jwt.1.
Proof.
  unfold target_spec. destruct (upstream_id _); [by intros ?%not_elem_of_nil|]. destruct (jwt.2.2.2) as [u|]; [|by intros ?%not_elem_of_nil]. by intros ->%list_elem_of_singleton.
Qed.
Lemma rule_spec_key irc spec : spec ∈ rule_specs irc -> exists j, key spec = split_key irc.1 j.
Proof. intros (jwt & Hs & _)%list_elem_of_bind. exists jwt.1. by apply target_spec_key. Qed.

Lemma split_key_inj i i' j j' : split_key i j = split_key i' j' -> i = i' /\ j = j'.
Proof. intros E. destruct (plugin_key_inj "" "" "" i i' j j') as (_ & ? & ?); [|done]. unfold plugin_key. by rewrite E. Qed.

Lemma split_specs_unique self : NoDup (key <$> split_specs self).
Proof.
  apply (NoDup_keyed key fst); [apply enumerate_unique| |].
  - intros [i rc] _. apply (NoDup_keyed key fst); [apply enumerate_unique| |].
    + intros [j wt] _. unfold target_spec. destruct (upstream_id _); [constructor|]. destruct (_.2.2); [apply NoDup_singleton|constructor].
    + intros [j wt] [j' wt'] b c _ _ Hb%target_spec_key Hc%target_spec_key E. rewrite Hb, Hc in E. by apply split_key_inj in E as [_ ?].
  - intros [i rc] [i' rc'] b c _ _ (j & Hb)%rule_spec_key (j' & Hc)%rule_spec_key E. rewrite Hb, Hc in E. by apply split_key_inj in E as [? _].
Qed.

Lemma split_specs_key self spec : spec ∈ split_specs self -> exists i j, key spec = split_key i j.
Proof. intros (irc & Hs & _)%list_elem_of_bind. apply rule_spec_key in Hs as [j Hj]. by eexists _, _. Qed.

(** A scope's plugins have distinct names, and only the one of that name is a
    traffic split: both hold of what the inventory builds. *)
Definition scope_ok (entries : list PluginEntry) : Prop :=
  NoDup (entry_name <$> entries) /\ forall e, e ∈ entries -> is_Some (as_split (body (plugin e))) -> entry_name e = TrafficSplit.PLUGIN_NAME.

Lemma scope_checks_key kind id entries spec : spec ∈ scope_health_checks (kind +:+ id) entries -> exists i j, key spec = plugin_key kind id i j.
Proof.
  intros (e & (s & -> & Hs)%list_elem_of_fmap & _)%list_elem_of_bind. unfold health_check_specs in Hs.
  destruct (as_split _) as [self|]; [|by apply not_elem_of_nil in Hs]. apply split_specs_key in Hs as (i & j & Hk). exists i, j. cbn. rewrite Hk. unfold plugin_key. by rewrite !str_app_assoc.
Qed.

Lemma scope_checks_unique scope entries : scope_ok entries -> NoDup (key <$> scope_health_checks scope entries).
Proof.
  intros [Hn Hs]. apply (NoDup_keyed key entry_name); [done| |].
  - intros e _. unfold plugin_health_checks, health_check_specs. destruct (as_split _) as [self|]; [|constructor].
    rewrite <-list_fmap_compose. rewrite (list_fmap_compose key (fun k => (scope +:+ "/plugin") +:+ "/" +:+ k)). apply NoDup_fmap_2; [|apply split_specs_unique].
    intros k k' E%(inj (String.append _)). by apply (inj (String.append "/")) in E.
  - assert (Hsplit : forall e b, e ∈ entries -> b ∈ plugin_health_checks (scope +:+ "/plugin") (plugin e) -> entry_name e = TrafficSplit.PLUGIN_NAME).
    { intros e b He (s & _ & Hb)%list_elem_of_fmap. apply Hs; [done|]. unfold health_check_specs in Hb. destruct (as_split _); [by eexists|by apply not_elem_of_nil in Hb]. }
    intros x y b c Hx Hy Hb Hc _. by rewrite (Hsplit x b Hx Hb), (Hsplit y c Hy Hc).
Qed.

(** The checks of one kind of scopes. *)
Definition kind_checks {A} (kind : string) (inline : A -> option RouteBuild.ProxyUpstream) (entries : A -> list PluginEntry) (m : list (string * A)) : list HealthCheckSpec :=
  m ≫= fun ix => (inline_check (kind +:+ ix.1) (inline ix.2) ++ scope_health_checks (kind +:+ ix.1) (entries ix.2))%list.

Lemma kind_checks_key {A} kind (inline : A -> _) entries m spec : spec ∈ kind_checks kind inline entries m ->
  exists id, key spec = inline_key kind id \/ exists i j, key spec = plugin_key kind id i j.
Proof.
  intros (ix & [Hi|Hs]%elem_of_app & _)%list_elem_of_bind; exists ix.1; [left|right; by apply scope_checks_key in Hs].
  unfold inline_check in Hi. destruct (inline ix.2); [|by apply not_elem_of_nil in Hi]. apply list_elem_of_singleton in Hi as ->. cbn. unfold inline_key. by rewrite str_app_assoc.
Qed.

Lemma kind_checks_unique {A} kind (inline : A -> _) entries (m : list (string * A)) : NoDup m.*1 -> (forall ix, ix ∈ m -> scope_ok (entries ix.2)) ->
  NoDup (key <$> kind_checks kind inline entries m).
Proof.
  intros Hn Hok. assert (Hinl : forall ix spec, spec ∈ inline_check (kind +:+ ix.1) (inline ix.2) -> key spec = inline_key kind ix.1).
  { intros ix spec Hi. unfold inline_check in Hi. destruct (inline ix.2); [|by apply not_elem_of_nil in Hi]. apply list_elem_of_singleton in Hi as ->. cbn. unfold inline_key. by rewrite str_app_assoc. }
  apply (NoDup_keyed key fst); [done| |].
  - intros ix Hix. rewrite fmap_app. apply NoDup_app. split; [unfold inline_check; destruct (inline ix.2); [apply NoDup_singleton|constructor]|]. split; [|by apply scope_checks_unique, Hok].
    intros k (b & -> & Hb%Hinl)%list_elem_of_fmap (c & E & (i & j & Hc)%scope_checks_key)%list_elem_of_fmap. rewrite Hb, Hc in E. by apply inline_not_plugin in E.
  - intros x y b c _ _ [Hb%Hinl|(i & j & Hb)%scope_checks_key]%elem_of_app [Hc%Hinl|(i' & j' & Hc)%scope_checks_key]%elem_of_app; rewrite Hb, Hc; intros E.
    + by apply inline_key_inj in E.
    + by apply inline_not_plugin in E.
    + by symmetry in E; apply inline_not_plugin in E.
    + by apply plugin_key_inj in E as [? _].
Qed.

Definition snapshot_ok (c : CandidateSnapshot) : Prop :=
  (forall i s, c_services c !! i = Some s -> scope_ok (ps_plugins s)) /\
  (forall i r, c_routes c !! i = Some r -> scope_ok (pr_plugins r)) /\
  (forall i g, c_global_rules c !! i = Some g -> scope_ok (pg_plugins g)).

(** Whatever the identifiers are, slashes included, no two health checks of a
    snapshot share a key: publication registers every one of them. *)
Theorem check_keys_unique c : snapshot_ok c -> NoDup (key <$> collect_health_checks c).
Proof.
  intros (Hs & Hr & Hg). set (ups := (fun iu => spec_of ("upstream/" +:+ iu.1) iu.2) <$> map_to_list (c_upstreams c)).
  change (collect_health_checks c) with (ups ++ kind_checks "service/" ps_inline ps_plugins (map_to_list (c_services c)) ++
    kind_checks "route/" pr_inline pr_plugins (map_to_list (c_routes c)) ++ kind_checks "global-rule/" (fun _ => None) pg_plugins (map_to_list (c_global_rules c)))%list.
  assert (Hup : forall b, b ∈ ups -> exists x, key b = "upstream/" +:+ x) by (intros b ([k u] & -> & _)%list_elem_of_fmap; by exists k).
  assert (Hkind : forall A kind (inline : A -> _) entries m b, b ∈ kind_checks kind inline entries m -> exists x, key b = kind +:+ x).
  { intros A kind inline entries m b (i & [Hk|(j & l & Hk)])%kind_checks_key; unfold inline_key, plugin_key in Hk; by eexists. }
  rewrite !fmap_app. apply NoDup_app. split; [|split; [|apply NoDup_app; split; [|split; [|apply NoDup_app; split; [|split]]]]].
  - unfold ups. rewrite <-list_fmap_compose. apply (NoDup_fmap_2_strong _); [|apply NoDup_map_to_list]. intros [i u] [i' u'] Hi%elem_of_map_to_list Hi'%elem_of_map_to_list E.
    apply (inj (String.append "upstream/")) in E. cbn in E. subst i'. by simplify_eq.
  - intros k (b & -> & [x Hb]%Hup)%list_elem_of_fmap. rewrite Hb. intros [Hk|[Hk|Hk]%elem_of_app]%elem_of_app; apply list_elem_of_fmap in Hk as (d & E & [y Hd]%Hkind); rewrite Hd in E; discriminate E.
  - apply kind_checks_unique; [apply NoDup_fst_map_to_list|]. intros [i s] Hi%elem_of_map_to_list. by eapply Hs.
  - intros k (b & -> & [x Hb]%Hkind)%list_elem_of_fmap. rewrite Hb. intros [Hk|Hk]%elem_of_app; apply list_elem_of_fmap in Hk as (d & E & [y Hd]%Hkind); rewrite Hd in E; discriminate E.
  - apply kind_checks_unique; [apply NoDup_fst_map_to_list|]. intros [i r] Hi%elem_of_map_to_list. by eapply Hr.
  - intros k (b & -> & [x Hb]%Hkind)%list_elem_of_fmap. rewrite Hb. intros Hk; apply list_elem_of_fmap in Hk as (d & E & [y Hd]%Hkind); rewrite Hd in E; discriminate E.
  - apply kind_checks_unique; [apply NoDup_fst_map_to_list|]. intros [i g] Hi%elem_of_map_to_list. by eapply Hg.
Qed.

(** Every upstream the snapshot owns has its check: the named ones, and the
    inline ones of services and routes. *)
Theorem checks_cover c :
  (forall i u, c_upstreams c !! i = Some u -> spec_of ("upstream/" +:+ i) u ∈ collect_health_checks c) /\
  (forall i s u, c_services c !! i = Some s -> ps_inline s = Some u -> spec_of (("service/" +:+ i) +:+ "/inline") u ∈ collect_health_checks c) /\
  (forall i r u, c_routes c !! i = Some r -> pr_inline r = Some u -> spec_of (("route/" +:+ i) +:+ "/inline") u ∈ collect_health_checks c).
Proof.
  unfold collect_health_checks. split; [|split].
  - intros i u Hi. apply elem_of_app; left. apply list_elem_of_fmap. exists (i, u). split; [done|]. by apply elem_of_map_to_list.
  - intros i s u Hi Hu. apply elem_of_app; right. apply elem_of_app; left. apply list_elem_of_bind. exists (i, s). split; [|by apply elem_of_map_to_list].
    apply elem_of_app; left. cbn. rewrite Hu. by apply list_elem_of_singleton.
  - intros i r u Hi Hu. apply elem_of_app; right. apply elem_of_app; right. apply elem_of_app; left. apply list_elem_of_bind. exists (i, r). split; [|by apply elem_of_map_to_list].
    apply elem_of_app; left. cbn. rewrite Hu. by apply list_elem_of_singleton.
Qed.

(** The store's checks and its registry agree. *)
Definition store_ok (self : RuntimeStore) : Prop := synced (health_checks self) (health_check self).

Lemma new_ok : store_ok RuntimeStore_new.
Proof. exact synced_empty. Qed.

(** Publishing keeps the store's checks and registry in agreement; the snapshot
    is what requests load next, its revision is on the status page, and each
    upstream it owns is probed under its own fingerprint and load balancer, by
    the running check where nothing about it changed. *)
Theorem publish_snapshot now snapshot self : store_ok self -> snapshot_ok (maps snapshot) ->
  let self' := publish now snapshot self in
  store_ok self' /\ current self' = snapshot /\ st_published_revision (status self') = Some (revision snapshot) /\
  (forall k, is_Some (health_checks self' !! k) <-> k ∈ key <$> collect_health_checks (maps snapshot)) /\
  forall spec, spec ∈ collect_health_checks (maps snapshot) -> exists e, health_checks self' !! key spec = Some e /\ unchanged spec e /\
    forall e0, health_checks self !! key spec = Some e0 -> unchanged spec e0 -> e = e0.
Proof.
  intros Hok Hs. destruct (publish_ok _ _ _ Hok (check_keys_unique _ Hs)) as (P1 & P2 & P3 & _). cbv zeta. split; [exact P1|]. split; [done|].
  split; [|split; [exact P2|exact P3]]. cbn. unfold set_published_revision. by case_bool_decide.
Qed.

Lemma compile_maps c rev snapshot : compile c rev = Ok snapshot -> maps snapshot = c /\ revision snapshot = rev.
Proof. unfold compile. intros (rm & _ & (sm & _ & [= <-])%and_then_ok)%and_then_ok. done. Qed.
End runtime.

(** ** What the inventory builds is well-formed *)

Section built.
Context `{Compiler} `{Serde} `{SplitSerde} `{UrlForms} `{AiSerde} `{HeaderNames}.
Context (create : PluginImpl -> Json -> ProxyResult Body) (validate : PluginImpl -> Json -> ProxyResult unit).
Context (mk_split : PluginTrafficSplit -> Body) (mk_ai : PluginAiProxy -> Body) (tokens : Z).

(** Only the traffic split's instances are seen as one. *)
Context (as_split : Body -> option PluginTrafficSplit).
Context (plain_view : forall i cfg b, create i cfg = Ok b -> as_split b = None) (ai_view : forall x, as_split (mk_ai x) = None).
Abbreviation FACTORIES := (FACTORIES create validate mk_split mk_ai tokens).

Lemma collect_map {A C D} (f : A -> B C) (g : C -> D) (h : A -> D) l n ys n' :
  (forall x k y k', f x k = Ok (y, k') -> g y = h x) -> collect f l n = Ok (ys, n') -> g <$> ys = h <$> l.
Proof.
  intros Hg. revert n ys n'. induction l as [|x l IH]; intros n ys n'; [by intros [-> _]%pure_ok|]. cbn [collect].
  intros (y & k & Hy & (zs & k2 & Hzs & [-> _]%pure_ok)%bindB_ok)%bindB_ok. cbn. by rewrite (Hg _ _ _ _ Hy), (IH _ _ _ Hzs).
Qed.

Theorem built_scope_ok plugins us prepared owner error n es n' :
  build_plugins FACTORIES plugins us prepared owner error n = Ok (es, n') -> scope_ok as_split es.
Proof.
  intros (l & k & Hl & [-> ->]%pure_ok)%bindB_ok. unfold sort_plugins_by_priority_desc. split.
  - rewrite merge_sort_Permutation. replace (entry_name <$> l) with ((map_to_list plugins).*1); [apply NoDup_fst_map_to_list|]. symmetry.
    eapply collect_map; [|exact Hl]. intros [name cfg] k1 e k2 He%on_err_ok. by apply built_from_table in He as [_ He].
  - intros e He Hv. rewrite merge_sort_Permutation in He. destruct (collect_ok _ _ _ _ _ Hl e He) as ([name cfg] & i & j & _ & He'%on_err_ok). cbn [fst snd] in He'.
    unfold build_plugin_with_upstreams in He'. rewrite find_factory in He'. destruct (builtin _ _ _ _ _ name) as [m|] eqn:E; [|done]. cbn [fmap option_fmap option_map] in He'.
    apply builtin_elem in E as [Hm _]. apply bindB_ok in He' as (p & k1 & Hp & [-> _]%pure_ok). cbn [plugin] in Hv.
    destruct (table_row _ _ _ _ _ m Hm) as [(pi & ph & sc & ->)|[-> | ->]]; cbn [factory_of fm_factory bm_factory plain ai_proxy_entry traffic_split_entry] in Hp.
    + apply bindB_ok in Hp as (r & k2 & (Hr & _)%from_result_ok & [-> _]%pure_ok). apply and_then_ok in Hr as (b & Hb & [= <-]). cbn in Hv. rewrite (plain_view _ _ _ Hb) in Hv. by destruct Hv.
    + apply bindB_ok in Hp as (r & k2 & _ & [-> _]%pure_ok). cbn in Hv. rewrite ai_view in Hv. by destruct Hv.
    + by apply bindB_ok in Hp as (r & k2 & _ & [-> _]%pure_ok).
Qed.
End built.
