(* ===== verification/ActiveChecks.v ===== *)
(** * Active health checks ([src/src/proxy/upstream/load_balancer.rs])

    The probe an upstream's [checks.active] compiles to: a TCP or HTTP check of
    Pingora with its thresholds, port, headers and expected statuses, and how
    often it runs.  Building one is the fallible part of compiling an upstream
    that its validation does not cover.  The framework's defaults, the URI builder
    and the header names are parameters. *)

From Stdlib Require Import ZArith Lia Ascii.
From stdpp Require Import base tactics gmap strings option list.
From S2P Require Import Prelude Errors GraphStore Utf8 Hosts Json Config ConfigSet RequestVars RouteBuild Pipeline Selection PassiveHealth Discovery.

Open Scope Z_scope.

(** [Uri::builder().path_and_query(..).build()], the name and value checks of
    [insert_header], and the thresholds of a new Pingora check. *)
Class ProbeLib : Type := {
  ProbeUri : Type;
  build_path : string -> Result ProbeUri string;
  probe_header_ok : string -> string -> Result unit string;
  default_consecutive : Z;
  debug_text : string -> string;
}.

Section probes.
Context `{ProbeLib}.

Record TcpHealthCheck : Type := { tcp_timeout : Z; tcp_success : Z; tcp_failure : Z }.

(** [expected] replaces the framework's check of the response when it is there. *)
Record HttpHealthCheck : Type := {
  host : string;
  tls : bool;
  connect_timeout : Z;
  verify_cert : bool;
  req_uri : ProbeUri;
  req_headers : list (string * string);
  port_override : option Z;
  consecutive_success : Z;
  consecutive_failure : Z;
  expected : option (list Z);
}.

Inductive HealthCheckKind : Type := Tcp (check : TcpHealthCheck) | Http (check : HttpHealthCheck).

(** [From<ActiveCheck> for Box<TcpHealthCheck>] *)
Definition TcpHealthCheck_from (value : ActiveCheck.t) : TcpHealthCheck :=
  {| tcp_timeout := ActiveCheck.timeout value;
     tcp_success := match ActiveCheck.healthy value with Some healthy => Health.successes healthy | None => default_consecutive end;
     tcp_failure := match ActiveCheck.unhealthy value with Some unhealthy => Unhealthy.tcp_failures unhealthy | None => default_consecutive end |}.

Definition invalid_header (header what : string) : ProxyError := Configuration ("Invalid health check header " +:+ debug_text header +:+ ": " +:+ what).

(** One configured header: split at the first colon, both sides trimmed. *)
Definition add_header (headers : list (string * string)) (header : string) : ProxyResult (list (string * string)) :=
  match split_once ":"%char header with
  | None => Err (invalid_header header "expected 'Name: value'")
  | Some (key, val) =>
    let key := trim key in
    let val := trim val in
    if bool_decide (key = "") then Err (invalid_header header "empty header name")
    else map_err (invalid_header header) (insert_header probe_header_ok key val headers)
  end.

(** [TryFrom<ActiveCheck> for HttpHealthCheck]; a new check sends the host. *)
Definition HttpHealthCheck_try_from (value : ActiveCheck.t) : ProxyResult HttpHealthCheck :=
  let host := default "" (ActiveCheck.host value) in
  let? uri := map_err (fun e => Configuration ("Invalid health check path '" +:+ ActiveCheck.http_path value +:+ "': " +:+ e)) (build_path (ActiveCheck.http_path value)) in
  let? headers := try_fold add_header [("Host", host)] (ActiveCheck.req_headers value) in
  Ok {| host := host; tls := bool_decide (ActiveCheck.type value = CheckHTTPS); connect_timeout := ActiveCheck.timeout value;
        verify_cert := ActiveCheck.https_verify_certificate value; req_uri := uri; req_headers := headers;
        port_override := (fun port => wrap 16 port) <$> ActiveCheck.port value;
        consecutive_success := match ActiveCheck.healthy value with Some healthy => Health.successes healthy | None => default_consecutive end;
        consecutive_failure := match ActiveCheck.unhealthy value with Some unhealthy => Unhealthy.http_failures unhealthy | None => default_consecutive end;
        expected := match ActiveCheck.healthy value with
                    | Some healthy => if bool_decide (Health.http_statuses healthy = []) then None else Some (Health.http_statuses healthy)
                    | None => None
                    end |}.

(** [TryFrom<ActiveCheck> for Box<dyn HealthCheck>] *)
Definition health_check_try_from (value : ActiveCheck.t) : ProxyResult HealthCheckKind :=
  match ActiveCheck.type value with
  | CheckTCP => Ok (Tcp (TcpHealthCheck_from value))
  | CheckHTTP | CheckHTTPS => let? check := HttpHealthCheck_try_from value in Ok (Http check)
  end.

(** ** When a check can be built *)

Definition header_wf (header : string) : Prop :=
  exists key val, split_once ":"%char header = Some (key, val) /\ trim key <> "" /\ is_ok (probe_header_ok (trim key) (trim val)) = true.

Lemma add_header_ok headers header : is_ok (add_header headers header) = true <-> header_wf header.
Proof.
  unfold add_header, header_wf. destruct (split_once _ header) as [[key val]|]; [|split; [done|by intros (? & ? & ? & _)]].
  case_bool_decide as Hk; [split; [done|intros (? & ? & [= <- <-] & Hne & _); by destruct Hne]|]. unfold insert_header.
  destruct (probe_header_ok (trim key) (trim val)) eqn:E; cbn; (split; [intros Ho; try done; exists key, val; by rewrite E|]).
  - done.
  - intros (? & ? & [= <- <-] & _ & Ho). by rewrite E in Ho.
Qed.

Lemma add_headers_ok l headers : is_ok (try_fold add_header headers l) = true <-> Forall header_wf l.
Proof.
  revert headers. induction l as [|h l IH]; intros headers; [split; [constructor|done]|]. cbn [try_fold]. rewrite Forall_cons, <-(add_header_ok headers).
  destruct (add_header headers h) as [hs|e]; cbn [and_then is_ok]; [rewrite IH|]; naive_solver.
Qed.

(** A TCP check always builds; an HTTP check builds exactly when the framework
    takes its path and every configured header is a name, a colon and a value
    that it takes. *)
Theorem check_built_iff value :
  is_ok (health_check_try_from value) = true <->
  ActiveCheck.type value = CheckTCP \/ is_ok (build_path (ActiveCheck.http_path value)) = true /\ Forall header_wf (ActiveCheck.req_headers value).
Proof.
  unfold health_check_try_from, HttpHealthCheck_try_from. rewrite <-(add_headers_ok _ [("Host", default "" (ActiveCheck.host value))]).
  destruct (ActiveCheck.type value), (build_path _), (try_fold _ _ _); cbn; naive_solver.
Qed.

(** ** What a built check sends and expects *)

(** The value of the last configured header of a name. *)
Definition configured (name header : string) : option string :=
  match split_once ":"%char header with Some (key, val) => if eq_ignore_ascii_case (trim key) name then Some (trim val) else None | None => None end.
Definition last_configured (name : string) (headers : list string) : option string := last (omap (configured name) headers).

Lemma add_headers_values name l headers headers' : try_fold add_header headers l = Ok headers' ->
  header_values name headers' = match last_configured name l with Some v => [v] | None => header_values name headers end.
Proof.
  unfold last_configured. revert headers. induction l as [|h l IH]; intros headers; cbn [try_fold]; [by intros [= ->]|].
  intros (hs & Hh & Hl)%and_then_ok. rewrite (IH _ Hl). clear IH Hl. unfold add_header in Hh. cbn [omap list_omap]. unfold configured at 2.
  destruct (split_once _ h) as [[key val]|]; [|done]. destruct (bool_decide (trim key = "")); [done|].
  destruct (insert_header _ _ _ _) as [hs'|] eqn:E; [|done]. cbn in Hh. injection Hh as ->. apply insert_header_values with (name := name) in E. rewrite E.
  destruct (eq_ignore_ascii_case (trim key) name); [|done]. rewrite last_cons. by destruct (last _).
Qed.

(** A probe carries each header once: the last configured value of its name, and
    the check's host where none is configured.  Its port is the configured one,
    and where statuses are listed it succeeds on exactly these. *)
Theorem http_check_spec value check : ActiveCheck.validate value = true -> HttpHealthCheck_try_from value = Ok check ->
  (forall name, header_values name (req_headers check) = match last_configured name (ActiveCheck.req_headers value) with
     | Some v => [v]
     | None => if eq_ignore_ascii_case "Host" name then [host check] else []
     end) /\
  port_override check = ActiveCheck.port value /\ tls check = bool_decide (ActiveCheck.type value = CheckHTTPS) /\
  (forall statuses, expected check = Some statuses <-> statuses <> [] /\ exists healthy, ActiveCheck.healthy value = Some healthy /\ Health.http_statuses healthy = statuses).
Proof.
  intros Hv. unfold HttpHealthCheck_try_from. intros (uri & _ & (hs & Hh & [= <-])%and_then_ok)%and_then_ok. cbn [req_headers port_override host expected tls]. split; [|split; [|split; [done|]]].
  - intros name. rewrite (add_headers_values name _ _ _ Hh). destruct (last_configured _ _); [done|]. rewrite header_values_cons. cbn. by destruct (eq_ignore_ascii_case "Host" name).
  - unfold ActiveCheck.validate in Hv. repeat (apply andb_true_iff in Hv as [Hv ?]). destruct (ActiveCheck.port value) as [p|]; [|done]. cbn in *. f_equal. apply wrap_small. unfold range, between in *. bool_to_prop. lia.
  - intros statuses. destruct (ActiveCheck.healthy value) as [healthy|]; [|split; [done|by intros (_ & ? & ? & _)]]. case_bool_decide as He.
    + split; [done|]. intros (Hne & ? & [= <-] & <-). by destruct Hne.
    + split; [intros [= <-]; split; [done|by exists healthy]|]. by intros (_ & ? & [= <-] & <-).
Qed.

(** Validation does not cover the build: this check is accepted and can never be
    built, so the graph it is stored in compiles no more. *)
Definition accepted_check : ActiveCheck.t :=
  {| ActiveCheck.type := CheckHTTP; ActiveCheck.timeout := 1; ActiveCheck.http_path := "/"; ActiveCheck.host := None; ActiveCheck.port := None;
     ActiveCheck.https_verify_certificate := true; ActiveCheck.req_headers := ["Accept"]; ActiveCheck.healthy := None; ActiveCheck.unhealthy := None |}.
Theorem accepted_not_buildable : ActiveCheck.validate accepted_check = true /\ is_ok (health_check_try_from accepted_check) = false.
Proof. split; [reflexivity|]. unfold health_check_try_from, HttpHealthCheck_try_from. cbn. by destruct (build_path "/"). Qed.

(** ** Building the load balancer *)

Context `{Resolution}.

(** The answer and the clock of each lookup. *)
Abbreviation Resolver := (nat -> option (Result (list IpAddr) string * Instant)).

(** [SelectionLB]: one balancer per selection type. *)
Record SelectionLB : Type := {
  algorithm : SelectionType;
  discovery : SeededDiscovery;
  installed : list Backend;
  health_check : option HealthCheckKind;
  health_check_frequency : option Z;
  update_frequency : option Duration;
}.

(** The probe and its interval in seconds. *)
Definition active_part (upstream : Upstream.t) : ProxyResult (option (HealthCheckKind * Z)) :=
  match Upstream.checks upstream ≫= HealthCheck.active with
  | Some active =>
    let? check := map_err (fun e => Configuration ("Upstream '" +:+ Upstream.id upstream +:+ "' has an invalid health check configuration: " +:+ ProxyError_to_string e))
                    (health_check_try_from active) in
    Ok (Some (check, match ActiveCheck.healthy active with Some healthy => Health.interval healthy | None => 1 end))
  | None => Ok None
  end.

(** [LB::from_prepared]: the first update takes the prepared backends at once. *)
Definition from_prepared (upstream : Upstream.t) (prepared : PreparedUpstream) (dns_refresh_interval : option Z) (ask : Resolver) : ProxyResult SelectionLB :=
  let? refresh := HybridDiscovery_build upstream in
  let discovery := {| initial := Some prepared; refresh := refresh |} in
  let? check := active_part upstream in
  let '(update_result, discovery) := seeded_discover ask discovery in
  let? backends := map_err (fun e => Configuration ("Upstream '" +:+ Upstream.id upstream +:+ "' failed to install prepared backends: " +:+ e)) update_result in
  Ok {| algorithm := Upstream.type upstream; discovery := discovery; installed := backends.1;
        health_check := fst <$> check; health_check_frequency := snd <$> check;
        update_frequency := dns_refresh_frequency (Upstream.id upstream) <$> dns_refresh_interval |}.

(** Once an upstream is prepared, the only thing left that can fail its build is
    its active check; a balancer that is built serves the prepared backends
    first and resolves afresh from then on. *)
Theorem prepared_builds timeout ask ask' upstream prepared interval : prepare_upstream timeout ask upstream = Ok prepared ->
  (is_ok (from_prepared upstream prepared interval ask') = true <->
     forall active, Upstream.checks upstream ≫= HealthCheck.active = Some active -> is_ok (health_check_try_from active) = true) /\
  (forall lb, from_prepared upstream prepared interval ask' = Ok lb -> installed lb = prepared_backends prepared /\ installed lb <> [] /\ initial (discovery lb) = None).
Proof.
  unfold prepare_upstream, prepare_with. intros (d & Hd & Hp)%and_then_ok. assert (Hne : prepared_backends prepared <> []).
  { destruct (hybrid_discover ask d).1 as [[[bs hc]|e]|]; [|done|done]. case_bool_decide; [done|]. by injection Hp as <-. }
  unfold from_prepared, active_part. rewrite Hd. cbn [and_then seeded_discover initial]. split.
  - destruct (Upstream.checks upstream ≫= HealthCheck.active) as [active|]; cbn; [|split; [by intros _ ? ?|done]].
    destruct (health_check_try_from active) as [c|e] eqn:E; cbn; (split; [intros Ho a [= <-]; by rewrite ?E|]); [done|]. intros Ha. specialize (Ha active eq_refl). by rewrite E in Ha.
  - intros lb. intros (c & _ & Hb)%and_then_ok. cbn in Hb. by injection Hb as <-.
Qed.

End probes.
