(* ===== verification/MirrorTasks.v ===== *)
(** * The tasks of request mirroring ([src/src/plugins/proxy_mirror.rs])

    The permits all mirrors of the process share, the task each mirrored request
    spawns, with its awaits and their timeouts, the registry a plugin instance
    keeps of its tasks, and what dropping the instance does.  The network's
    answers are events; the body queue and the resolver are in [ProxyMirror].
    The end of a task, which gives its permit back, is one step. *)

From Stdlib Require Import ZArith Lia.
From stdpp Require Import base tactics gmap strings option list.
From S2P Require Import Prelude Errors ProxyMirror.

Open Scope Z_scope.

(** ** A task *)

(** Where a task awaits. *)
Inductive Await : Type := Lookup | Connect | WriteHeader | Recv | WriteBody (end_of_stream : bool) | FinishBody | Ended (result : Result unit string).

(** The outcome of an await; a failed lookup brings its own message. *)
Inductive Outcome : Type := Completed | TimedOut | Failed (message : string).

(** [senders] is false once the request that held the sender is gone. *)
Record Task : Type := { owner : nat; at_await : Await; channel : Channel; senders : bool; aborted : bool }.
#[export] Instance eta_Task : Eta Task := fun t => Build_Task (owner t) (at_await t) (channel t) (senders t) (aborted t).

Definition ended (t : Task) : bool := aborted t || match at_await t with Ended _ => true | _ => false end.

(** One await of the mirror's block: its success leads to the next, a timeout or
    an error to the end of the task. *)
Definition answered (t : Task) (o : Outcome) : option Await :=
  match at_await t, o with
  | Lookup, Completed => Some Connect
  | Lookup, TimedOut => Some (Ended (Err "mirror target DNS lookup timed out"))
  | Lookup, Failed message => Some (Ended (Err message))
  | Connect, Completed => Some WriteHeader
  | Connect, TimedOut => Some (Ended (Err "connection timed out"))
  | Connect, Failed _ => Some (Ended (Err "connection failed"))
  | WriteHeader, Completed => Some Recv
  | WriteHeader, TimedOut => Some (Ended (Err "header write timed out"))
  | WriteHeader, Failed _ => Some (Ended (Err "header write failed"))
  | WriteBody eos, Completed => Some (if eos then Ended (Ok ()) else Recv)
  | WriteBody _, TimedOut => Some (Ended (Err "body write timed out"))
  | WriteBody _, Failed _ => Some (Ended (Err "body write failed"))
  | FinishBody, Completed => Some (Ended (Ok ()))
  | FinishBody, TimedOut => Some (Ended (Err "body completion timed out"))
  | FinishBody, Failed _ => Some (Ended (Err "body completion failed"))
  | Recv, _ | Ended _, _ => None
  end.

(** The next body, or the end of the stream without a completion. *)
Definition received_next (t : Task) : option (Await * Channel) :=
  match at_await t with
  | Recv =>
    match queue (channel t) with
    | m :: _ => Some (match m with Chunk _ eos => WriteBody eos | Finish => FinishBody end, channel_step (channel t) Receive)
    | [] => if senders t then None else Some (Ended (Err "request body ended without completion"), channel t)
    end
  | _ => None
  end.

(** The label of the counter. *)
Definition drop_reason (error : string) : string :=
  if bool_decide (error = "mirror target DNS lookup timed out") then "dns_timeout"
  else if bool_decide (error = "mirror target DNS lookup failed") || bool_decide (error = "mirror target resolved to no address") then "dns"
  else if bool_decide (error = "connection timed out") || bool_decide (error = "connection failed") then "connect"
  else if bool_decide (error = "header write timed out") || bool_decide (error = "header write failed") then "write_header"
  else if bool_decide (error = "body write timed out") || bool_decide (error = "body write failed") then "write_body"
  else if bool_decide (error = "body completion timed out") || bool_decide (error = "body completion failed") then "write_body"
  else "other".

(** ** The process *)

(** [handles] is the registry of each instance: the tasks it holds a handle of.
    [live] are the instances that are not dropped, [born] counts the ones made. *)
Record World : Type := { permits : Z; tasks : list Task; handles : gmap nat (list nat); dropped : list string; live : list nat; born : nat }.
#[export] Instance eta_World : Eta World := fun w => Build_World (permits w) (tasks w) (handles w) (dropped w) (live w) (born w).

Definition world_new : World := {| permits := MAX_CONCURRENT_MIRRORS; tasks := []; handles := ∅; dropped := []; live := []; born := 0 |}.

Definition mirror_dropped (reason : string) (w : World) : World := w <| dropped := (dropped w ++ [reason])%list |>.

Definition is_finished (w : World) (i : nat) : bool := match tasks w !! i with Some t => ended t | None => true end.

(** [track]: finished handles are pruned before the new one is kept. *)
Definition track (o i : nat) (w : World) : World :=
  w <| handles := <[o := (List.filter (fun j => negb (is_finished w j)) (default [] (handles w !! o)) ++ [i])%list]> (handles w) |>.

(** [upstream_request_filter] of instance [o]. *)
Definition upstream_request_filter (o : nat) (sampled build_ok : bool) (w : World) : World :=
  if negb sampled then w
  else if permits w <=? 0 then mirror_dropped "concurrency_limit" w
  else if negb build_ok then w
  else
    let i := length (tasks w) in
    track o i (w <| permits := permits w - 1 |>
                 <| tasks := (tasks w ++ [{| owner := o; at_await := Lookup; channel := channel_new; senders := true; aborted := false |}])%list |>).

(** The end of a task: the flag is cleared, a failure counted, the permit given back. *)
Definition end_task (i : nat) (t : Task) (result : Result unit string) (w : World) : World :=
  let c := channel_step (channel_step (channel t) Deactivate) Close in
  let w := w <| tasks := <[i := t <| at_await := Ended result |> <| channel := c |>]> (tasks w) |> <| permits := permits w + 1 |> in
  match result with Ok _ => w | Err error => mirror_dropped (drop_reason error) w end.

Definition goto (i : nat) (t : Task) (a : Await) (w : World) : World :=
  match a with Ended result => end_task i t result w | _ => w <| tasks := <[i := t <| at_await := a |>]> (tasks w) |> end.

(** An aborted task is dropped at its await: nothing after it runs. *)
Definition abort_task (i : nat) (t : Task) (w : World) : World :=
  w <| tasks := <[i := t <| aborted := true |> <| channel := channel_step (channel t) Close |>]> (tasks w) |> <| permits := permits w + 1 |>.

(** What happens to running tasks: answers of the network, bodies, the end of a
    request; the drop of an instance, after which its tasks take the cancelled
    branch or are aborted, whichever comes first. *)
Inductive MirrorEvent : Type :=
| Request (o : nat) (sampled build_ok : bool)
| Await_ (i : nat) (outcome : Outcome)
| Body (i : nat) (body : option string) (end_of_stream : bool)
| Received (i : nat)
| RequestGone (i : nat)
| NewPlugin
| DropPlugin (o : nat)
| Cancelled (i : nat)
| Aborted (i : nat).

Definition on_task (i : nat) (f : Task -> World -> World) (w : World) : World :=
  match tasks w !! i with Some t => if ended t then w else f t w | None => w end.

Definition cancelled (w : World) (t : Task) : bool := negb (bool_decide (owner t ∈ live w)).

Definition mirror_step (w : World) (e : MirrorEvent) : World :=
  match e with
  | Request o sampled build_ok => if bool_decide (o ∈ live w) then upstream_request_filter o sampled build_ok w else w
  | Await_ i outcome => on_task i (fun t w => match answered t outcome with Some a => goto i t a w | None => w end) w
  | Body i body eos => on_task i (fun t w => w <| tasks := <[i := t <| channel := channel_step (channel t) (BodyPhase body eos) |>]> (tasks w) |>) w
  | Received i => on_task i (fun t w => match received_next t with Some (a, c) => goto i (t <| channel := c |>) a w | None => w end) w
  | RequestGone i => on_task i (fun t w => w <| tasks := <[i := t <| senders := false |>]> (tasks w) |>) w
  | NewPlugin => w <| live := born w :: live w |> <| born := S (born w) |>
  | DropPlugin o => w <| live := List.filter (fun p => negb (bool_decide (p = o))) (live w) |> <| handles := base.delete o (handles w) |>
  | Cancelled i => on_task i (fun t w => if cancelled w t then end_task i t (Err "mirror task cancelled") w else w) w
  | Aborted i => on_task i (fun t w => if cancelled w t then abort_task i t w else w) w
  end.

Definition mirror_run (es : list MirrorEvent) : World := fold_left mirror_step es world_new.

(** ** The bounds *)

Definition unfinished (w : World) : list nat := List.filter (fun i => negb (is_finished w i)) (seq 0 (length (tasks w))).
Definition running (w : World) : Z := Z.of_nat (length (unfinished w)).

(** Every permit is free or held by exactly one running task, and a registry
    holds distinct handles, no more than there are permits. *)
Record mirror_ok (w : World) : Prop := {
  permits_held : permits w + running w = MAX_CONCURRENT_MIRRORS;
  permits_nonneg : 0 <= permits w;
  handles_ok o l : handles w !! o = Some l -> NoDup l /\ Z.of_nat (length l) <= MAX_CONCURRENT_MIRRORS /\ Forall (fun i => i < length (tasks w))%nat l;
}.

Lemma filter_change (f f' : nat -> bool) i l : NoDup l -> i ∈ l -> f i = true -> (forall j, j <> i -> f' j = f j) ->
  Z.of_nat (length (List.filter f' l)) = Z.of_nat (length (List.filter f l)) - (if f' i then 0 else 1).
Proof.
  intros Hn Hi Hf Hj. assert (Hsame : forall l, i ∉ l -> List.filter f' l = List.filter f l).
  { induction l0 as [|x l0 IH]; intros Hx; [done|]. apply not_elem_of_cons in Hx as [Hx1 Hx2]. cbn. rewrite (Hj x) by done. by rewrite IH. }
  induction Hn as [|x l Hx Hn IH]; [by apply not_elem_of_nil in Hi|]. apply elem_of_cons in Hi as [->|Hi].
  - cbn. rewrite Hf, (Hsame l Hx). destruct (f' x); cbn; lia.
  - assert (Hxi : x <> i) by (by intros ->). cbn. rewrite (Hj x Hxi). specialize (IH Hi). destruct (f x); cbn; lia.
Qed.

Lemma on_task_lookup i f w : (on_task i f w = w) \/ exists t, tasks w !! i = Some t /\ ended t = false /\ on_task i f w = f t w.
Proof. unfold on_task. destruct (tasks w !! i) as [t|]; [|by left]. destruct (ended t) eqn:E; [by left|right]. by exists t. Qed.

(** Changing one running task. *)
Lemma running_insert w w' i t t' : tasks w !! i = Some t -> ended t = false -> tasks w' = <[i := t']> (tasks w) ->
  running w' = running w - (if ended t' then 1 else 0).
Proof.
  intros Hi He Ht. pose proof (lookup_lt_Some _ _ _ Hi) as Hlt. unfold running, unfinished. rewrite Ht, length_insert.
  rewrite (filter_change (fun j => negb (is_finished w j)) _ i); [|apply NoDup_seq|apply elem_of_seq; lia| |].
  - unfold is_finished at 2. rewrite Ht, list_lookup_insert_eq by done. by destruct (ended t').
  - unfold is_finished. by rewrite Hi, He.
  - intros j Hj. unfold is_finished. by rewrite Ht, list_lookup_insert_ne.
Qed.

Lemma task_changed w w' i t t' : mirror_ok w -> tasks w !! i = Some t -> ended t = false -> tasks w' = <[i := t']> (tasks w) ->
  permits w' = permits w + (if ended t' then 1 else 0) -> handles w' = handles w -> mirror_ok w'.
Proof.
  intros [H1 H2 H3] Hi He Ht Hp Hh. pose proof (running_insert w w' i t t' Hi He Ht) as Hr. split.
  - rewrite Hp, Hr. destruct (ended t'); lia.
  - rewrite Hp. destruct (ended t'); lia.
  - intros o l Hl. rewrite Hh in Hl. rewrite Ht, length_insert. by apply H3 in Hl.
Qed.

Lemma end_task_ok i t0 t result w : mirror_ok w -> tasks w !! i = Some t0 -> ended t0 = false -> mirror_ok (end_task i t result w).
Proof.
  intros Hok Hi He. unfold end_task. set (t' := t <| at_await := Ended result |> <| channel := _ |>).
  assert (Hend : ended t' = true) by (unfold ended; cbn; by rewrite orb_true_r).
  destruct result as [u|e]; (apply (task_changed w _ i t0 t' Hok Hi He); [done|by rewrite Hend|done]).
Qed.

Lemma goto_ok i t0 t a w : mirror_ok w -> tasks w !! i = Some t0 -> ended t0 = false -> aborted t = false -> mirror_ok (goto i t a w).
Proof.
  intros Hok Hi He Ha. assert (Hcase : (exists r, a = Ended r) \/ goto i t a w = w <| tasks := <[i := t <| at_await := a |>]> (tasks w) |> /\ ended (t <| at_await := a |>) = false).
  { destruct a; first [left; eexists; reflexivity|right; split; [reflexivity|unfold ended; cbn; by rewrite Ha]]. }
  destruct Hcase as [[r ->]|[-> Hend]]; [by apply (end_task_ok i t0)|]. apply (task_changed w _ i t0 (t <| at_await := a |>) Hok Hi He); [done| |done]. rewrite Hend. cbn. lia.
Qed.

Lemma unfinished_bound w l : NoDup l -> (forall j, j ∈ l -> is_finished w j = false) -> Z.of_nat (length l) <= running w.
Proof.
  intros Hn Hf. unfold running. apply Nat2Z.inj_le. apply NoDup_incl_length; [by apply NoDup_ListNoDup|]. intros j Hj%list_elem_of_In. apply filter_In.
  specialize (Hf j Hj). split; [|by rewrite Hf]. apply in_seq. split; [lia|]. unfold is_finished in Hf. destruct (tasks w !! j) as [t|] eqn:E; [|done]. by apply lookup_lt_Some in E.
Qed.

Lemma request_ok o sampled build_ok w : mirror_ok w -> mirror_ok (upstream_request_filter o sampled build_ok w).
Proof.
  intros Hok. unfold upstream_request_filter. destruct sampled; [|done]. cbn [negb]. destruct (permits w <=? 0) eqn:Ep; [by destruct Hok; split|].
  destruct build_ok; [|done]. cbn [negb]. apply Z.leb_gt in Ep. set (t := Build_Task o Lookup channel_new true false). set (i := length (tasks w)).
  set (w1 := w <| permits := permits w - 1 |> <| tasks := (tasks w ++ [t])%list |>).
  assert (Hr : running w1 = running w + 1).
  { unfold running, unfinished, w1. cbn [tasks update_field]. cbn. rewrite length_app. cbn. rewrite Nat.add_1_r, seq_S, List.filter_app, length_app. cbn.
    unfold is_finished at 2. cbn. rewrite lookup_app_r, Nat.sub_diag by done. cbn. rewrite Nat2Z.inj_add. f_equal. f_equal. f_equal. apply List.filter_ext_in. intros j Hj%in_seq.
    unfold is_finished. cbn. by rewrite lookup_app_l by lia. }
  destruct Hok as [H1 H2 H3]. split.
  - change (permits w - 1 + running w1 = MAX_CONCURRENT_MIRRORS). lia.
  - change (0 <= permits w - 1). lia.
  - intros o' l. change (handles (track o i w1) !! o' = Some l -> NoDup l /\ Z.of_nat (length l) <= MAX_CONCURRENT_MIRRORS /\ Forall (fun j => j < length (tasks w ++ [t]))%nat l).
    unfold track. change (handles (w1 <| handles := ?h |>)) with h. change (handles w1) with (handles w). destruct (decide (o' = o)) as [->|Hne].
    + rewrite lookup_insert_eq. intros [= <-]. set (old := default [] (handles w !! o)). assert (Hold : NoDup old /\ Forall (fun j => j < length (tasks w))%nat old).
      { unfold old. destruct (handles w !! o) as [l0|] eqn:El; [by apply H3 in El as (? & _ & ?)|split; constructor]. }
      destruct Hold as [Hn Hb]. rewrite list.Forall_forall in Hb. set (kept := List.filter _ old).
      assert (Hk : forall j, j ∈ kept -> j ∈ old /\ is_finished w1 j = false).
      { intros j Hj. apply list_elem_of_In, filter_In in Hj as [Hj Hf]. split; [by apply list_elem_of_In|by destruct (is_finished w1 j)]. }
      assert (Hnk : NoDup (kept ++ [i])).
      { apply NoDup_app. split; [apply NoDup_ListNoDup, List.NoDup_filter; by apply NoDup_ListNoDup|]. split; [|apply NoDup_singleton].
        intros j [Hj _]%Hk Hji%list_elem_of_singleton. subst j. specialize (Hb i Hj). unfold i in Hb. lia. }
      split; [done|]. split.
      * etransitivity; [apply (unfinished_bound w1); [done|]|lia]. intros j [Hj|Hj]%elem_of_app; [by apply Hk|]. apply list_elem_of_singleton in Hj as ->.
        unfold is_finished, w1, i. cbn. by rewrite lookup_app_r, Nat.sub_diag.
      * apply list.Forall_forall. intros j [[Hj _]%Hk|Hj]%elem_of_app; rewrite length_app; cbn; [specialize (Hb j Hj); lia|]. apply list_elem_of_singleton in Hj as ->. unfold i. lia.
    + rewrite lookup_insert_ne by done. intros Hl. apply H3 in Hl as (Hn & Hle & Hf). split; [done|]. split; [done|]. eapply Forall_impl; [exact Hf|]. intros j Hj. cbn in Hj. rewrite length_app. lia.
Qed.

Lemma step_ok w e : mirror_ok w -> mirror_ok (mirror_step w e).
Proof.
  intros Hok. destruct e as [o sampled b|i out|i body eos|i|i| |o|i|i]; cbn [mirror_step].
  - case_bool_decide; [by apply request_ok|done].
  - destruct (on_task_lookup i (fun t w => match answered t out with Some a => goto i t a w | None => w end) w) as [->|(t & Hi & He & ->)]; [done|].
    destruct (answered t out) as [a|]; [|done]. apply (goto_ok i t); try done. unfold ended in He. by destruct (aborted t).
  - match goal with |- mirror_ok (on_task i ?f w) => destruct (on_task_lookup i f w) as [->|(t & Hi & He & ->)]; [done|] end.
    apply (task_changed w _ i t (t <| channel := channel_step (channel t) (BodyPhase body eos) |>) Hok Hi He); [done| |done].
    change (permits w = permits w + (if ended t then 1 else 0)). rewrite He. lia.
  - match goal with |- mirror_ok (on_task i ?f w) => destruct (on_task_lookup i f w) as [->|(t & Hi & He & ->)]; [done|] end.
    destruct (received_next t) as [[a c]|]; [|done]. apply (goto_ok i t); try done. change (aborted t = false). unfold ended in He. by destruct (aborted t).
  - match goal with |- mirror_ok (on_task i ?f w) => destruct (on_task_lookup i f w) as [->|(t & Hi & He & ->)]; [done|] end.
    apply (task_changed w _ i t (t <| senders := false |>) Hok Hi He); [done| |done].
    change (permits w = permits w + (if ended t then 1 else 0)). rewrite He. lia.
  - destruct Hok; by split.
  - destruct Hok as [H1 H2 H3]. split; try done. intros o' l Hl. cbn in Hl. apply lookup_delete_Some in Hl as [_ Hl]. by apply H3 in Hl.
  - match goal with |- mirror_ok (on_task i ?f w) => destruct (on_task_lookup i f w) as [->|(t & Hi & He & ->)]; [done|] end.
    destruct (cancelled w t); [|done]. by apply (end_task_ok i t).
  - match goal with |- mirror_ok (on_task i ?f w) => destruct (on_task_lookup i f w) as [->|(t & Hi & He & ->)]; [done|] end.
    destruct (cancelled w t); [|done]. by apply (task_changed w _ i t (t <| aborted := true |> <| channel := channel_step (channel t) Close |>)).
Qed.

Lemma mirror_run_ok es : mirror_ok (mirror_run es).
Proof.
  assert (H0 : mirror_ok world_new) by (split; [done|done|by intros o l Hl; cbn in Hl; rewrite lookup_empty in Hl]).
  unfold mirror_run. revert H0. generalize world_new. induction es as [|e es IH]; intros w Hw; [done|]. cbn [fold_left]. by apply IH, step_ok.
Qed.

(** However requests, answers and drops of instances interleave, at most 64
    mirrors run at a time over all instances, each with one permit that comes
    back when it ends or is aborted; no registry grows beyond the permits. *)
Theorem mirrors_bounded es : let w := mirror_run es in
  running w = MAX_CONCURRENT_MIRRORS - permits w /\ 0 <= running w <= MAX_CONCURRENT_MIRRORS /\
  (forall o l, handles w !! o = Some l -> Z.of_nat (length l) <= MAX_CONCURRENT_MIRRORS) /\
  (Forall (fun t => ended t = true) (tasks w) -> permits w = MAX_CONCURRENT_MIRRORS).
Proof.
  cbv zeta. destruct (mirror_run_ok es) as [H1 H2 H3]. split; [lia|]. split; [unfold running in *; lia|]. split; [intros o l Hl; by apply H3 in Hl as (_ & ? & _)|].
  intros Hall. enough (running (mirror_run es) = 0) by lia. unfold running, unfinished. replace (List.filter _ _) with (@nil nat); [done|]. symmetry.
  assert (Hf : forall i, is_finished (mirror_run es) i = true).
  { intros i. unfold is_finished. destruct (tasks (mirror_run es) !! i) as [t|] eqn:E; [|done]. by apply (list.Forall_lookup_1 _ _ _ _ Hall E). }
  induction (seq 0 _) as [|i l IH]; [done|]. cbn. by rewrite Hf.
Qed.

(** Each reason of a failure is counted under its own label. *)
Example drop_reasons : drop_reason <$> ["mirror target DNS lookup timed out"; "mirror target resolved to no address"; "connection failed"; "header write timed out";
    "body completion failed"; "request body ended without completion"; "mirror task cancelled"]
  = ["dns_timeout"; "dns"; "connect"; "write_header"; "write_body"; "other"; "other"].
Proof. reflexivity. Qed.

(** A task serves one body to its end: with a header answered and the body
    completed, it ends well and returns its permit. *)
Example mirrored_once : let w := mirror_run [NewPlugin; Request 0 true true; Await_ 0 Completed; Body 0 (Some "a") false; Await_ 0 Completed; Await_ 0 Completed;
    Received 0; Await_ 0 Completed; Body 0 None true; Received 0; Await_ 0 Completed] in
  permits w = 64 /\ dropped w = [] /\ (at_await <$> tasks w) = [Ended (Ok ())].
Proof. vm_compute. repeat split. Qed.

(** A request that is retried is mirrored again: the second mirror takes the
    place of the first in the request's context, which ends uncompleted. *)
Example retry_mirrors_twice : let w := mirror_run [NewPlugin; Request 0 true true; Await_ 0 Completed; Await_ 0 Completed; Await_ 0 Completed;
    RequestGone 0; Request 0 true true; Received 0] in
  length (tasks w) = 2%nat /\ dropped w = ["other"].
Proof. vm_compute. repeat split. Qed.
