(* ===== verification/Prometheus.v ===== *)
(** * The Prometheus plugin ([src/src/plugins/prometheus.rs])

    The labels of a finished request, the normalisation of paths and the bounds
    on the label values an instance lets into the metrics, and the counters that
    one [logging] call moves.  The three path patterns are read as regular
    expressions over ASCII; the registration of the metrics and the buckets of
    the histograms are the metric library's. *)

From Stdlib Require Import ZArith Lia Ascii.
From stdpp Require Import base tactics gmap strings pretty option list.
From S2P Require Import Prelude Errors Utf8 Hosts Json Config ConfigSet SniMatch RouteBuild.

Open Scope Z_scope.

(** ** Configuration *)

Record PrometheusConfig : Type := { max_label_length : nat; max_unique_paths : nat; max_unique_hosts : nat; prefer_name : bool }.
Definition PrometheusConfig_default : PrometheusConfig :=
  {| max_label_length := 100; max_unique_paths := 1000; max_unique_hosts := 100; prefer_name := false |}.

(** [cfg] is [None] for a null document. *)
Definition create_prometheus_config (cfg : option (Result PrometheusConfig string)) : Result PrometheusConfig ProxyError :=
  match cfg with
  | None => Ok PrometheusConfig_default
  | Some r => map_err (fun e => Serialization ("Failed to parse prometheus plugin config: " +:+ e)) r
  end.

(** ** Patterns over paths *)

Definition is_hex (a : ascii) : bool := let b := byte_val a in between 48 57 b || between 65 70 b || between 97 102 b.

(** The length of the longest run at the head. *)
Fixpoint run (f : ascii -> bool) (s : string) : nat := match s with String a s => if f a then S (run f s) else 0 | "" => 0 end.

(** What follows the slash, as a length: digits, a UUID, or 32 hex digits and more. *)
Definition numeric_id (s : string) : option nat := match run is_ascii_digit s with O => None | n => Some n end.
Fixpoint uuid_groups (groups : list nat) (s : string) : option nat :=
  match groups with
  | [] => Some 0%nat
  | g :: groups =>
    if (g <=? run is_hex s)%nat then
      match groups with
      | [] => Some g
      | _ =>
        match str_drop g s with
        | String "-" rest => match uuid_groups groups rest with Some n => Some (g + 1 + n)%nat | None => None end
        | _ => None
        end
      end
    else None
  end.
Definition uuid (s : string) : option nat := uuid_groups [8; 4; 4; 4; 12]%nat s.
Definition hash (s : string) : option nat := let n := run is_hex s in if (32 <=? n)%nat then Some n else None.

(** [replace_all] of a slash and a match by [rep]; [skip] bytes belong to the
    match before. *)
Fixpoint replace_segments (matched : string -> option nat) (rep : string) (skip : nat) (s : string) : string :=
  match s with
  | "" => ""
  | String a rest =>
    match skip with
    | S skip => replace_segments matched rep skip rest
    | O =>
      if bool_decide (a = "/"%char) then
        match matched rest with
        | Some n => rep +:+ replace_segments matched rep n rest
        | None => String a (replace_segments matched rep 0 rest)
        end
      else String a (replace_segments matched rep 0 rest)
    end
  end.

(** The text before the seventh slash, if there are eight. *)
Fixpoint before_slash (n : nat) (s : string) : option string :=
  match s with
  | "" => None
  | String a rest =>
    if bool_decide (a = "/"%char) then match n with O => Some "" | S n => String a <$> before_slash n rest end else String a <$> before_slash n rest
  end.
Definition truncated (path : string) : string :=
  match before_slash 7 path, before_slash 6 path with Some _, Some head => head +:+ "/..." | _, _ => path end.

Definition patterns (path : string) : string :=
  replace_segments hash "/{hash}" 0 (replace_segments uuid "/{uuid}" 0 (replace_segments numeric_id "/{id}" 0 path)).

(** ** Labels *)

(** [seen_paths] and [seen_hosts] of an instance. *)
Record Seen : Type := { seen_paths : gset string; seen_hosts : gset string }.
Definition seen_new : Seen := {| seen_paths := ∅; seen_hosts := ∅ |}.

(** The last character boundary within the length, as the loop finds it. *)
Fixpoint boundary_at (n : nat) (s : string) : nat :=
  match n with
  | O => 0
  | S m => match String.get (S m) s with Some b => if is_cont b then boundary_at m s else S m | None => boundary_at m s end
  end.

Definition shorten (max : nat) (path : string) : string :=
  if (max <? String.length path)%nat then str_take (boundary_at (max - 3) path) path +:+ "..." else path.

Section labels.
Context (config : PrometheusConfig).

Definition limit_path_label (path : string) (seen : Seen) : string * Seen :=
  let normalized := shorten (max_label_length config) path in
  if bool_decide (normalized ∈ seen_paths seen) then (normalized, seen)
  else if (max_unique_paths config <=? size (seen_paths seen))%nat then ("/...", seen)
  else (normalized, {| seen_paths := {[ normalized ]} ∪ seen_paths seen; seen_hosts := seen_hosts seen |}).

Definition normalize_path (path : string) (seen : Seen) : string * Seen := limit_path_label (truncated (patterns path)) seen.

Definition limit_host_label (host : string) (seen : Seen) : string * Seen :=
  if bool_decide (host = "") || bool_decide (host = "*") || bool_decide (host ∈ seen_hosts seen) then (host, seen)
  else if (max_unique_hosts config <=? size (seen_hosts seen))%nat then ("*", seen)
  else (host, {| seen_paths := seen_paths seen; seen_hosts := {[ host ]} ∪ seen_hosts seen |}).

Definition select_host_label (hosts : list string) : string :=
  match hosts with
  | [] => ""
  | [h] => if starts_with h "*" then "*" else h
  | _ => "*"
  end.

Definition prefer_label (prefer_name : bool) (name : option string) (id : string) : string :=
  if prefer_name then match name with Some name => if bool_decide (name = "") then id else name | None => id end else id.

Context `{Compiler}.

Definition normalize_path_template (path : string) (route : option ProxyRoute) (seen : Seen) : string * Seen :=
  match route ≫= (fun r => Route.uri (pr_inner r)) with
  | Some template => limit_path_label template seen
  | None => normalize_path path seen
  end.

Definition route_label (route : option ProxyRoute) : string :=
  match route with Some r => prefer_label (prefer_name config) (Route.name (pr_inner r)) (Route.id (pr_inner r)) | None => "" end.
Definition service_label (route : option ProxyRoute) : string :=
  match route with
  | Some r => match Route.service_id (pr_inner r) with Some id => prefer_label (prefer_name config) (service_name r) id | None => "unknown" end
  | None => "unknown"
  end.

(** ** The metrics *)

Record Metrics : Type := {
  requests : Z;
  status : gmap (list string) Z;
  bandwidth : gmap (list string) Z;
  latency : list (list string * Z);
  request_size : list (list string * Z);
  response_size : list (list string * Z);
}.
Definition metrics_new : Metrics := {| requests := 0; status := ∅; bandwidth := ∅; latency := []; request_size := []; response_size := [] |}.
Definition inc_by (labels : list string) (n : Z) (m : gmap (list string) Z) : gmap (list string) Z := <[labels := default 0 (m !! labels) + n]> m.

(** What is left of a request when it is logged. *)
Record Finished : Type := { path : string; code : option Z; route : option ProxyRoute; node : option string; elapsed_ms : Z; body_read : Z; body_sent : Z }.

Definition logging (s : Finished) (seen : Seen) (m : Metrics) : Seen * Metrics :=
  let code := match code s with Some c => pretty c | None => "" end in
  let route_l := route_label (route s) in
  let '(path_template, seen) := normalize_path_template (path s) (route s) seen in
  let '(host, seen) := match route s with Some r => limit_host_label (select_host_label (effective_hosts r)) seen | None => ("", seen) end in
  let service := service_label (route s) in
  let node := default "" (node s) in
  (seen,
   {| requests := requests m + 1;
      status := inc_by [code; route_l; path_template; host; service; node] 1 (status m);
      latency := (latency m ++ [(["request"; route_l; service; node], elapsed_ms s)])%list;
      bandwidth := inc_by ["egress"; route_l; service; node] (body_sent s) (inc_by ["ingress"; route_l; service; node] (body_read s) (bandwidth m));
      request_size := (request_size m ++ [([route_l; service], body_read s)])%list;
      response_size := (response_size m ++ [([route_l; service], body_sent s)])%list |}).

Definition log_all (ss : list Finished) : Seen * Metrics := fold_left (fun st s => logging s st.1 st.2) ss (seen_new, metrics_new).

(** ** What bounds the labels *)

Lemma boundary_le n s : (boundary_at n s <= n)%nat.
Proof. induction n as [|n IH]; cbn; [lia|]. destruct (String.get _ s) as [b|]; [destruct (is_cont b)|]; lia. Qed.

Lemma str_take_le n s : (String.length (str_take n s) <= n)%nat.
Proof. unfold str_take. revert n. induction s as [|a s IH]; intros [|n]; cbn; try lia. specialize (IH n). lia. Qed.

Lemma shorten_le max s : (String.length (shorten max s) <= Nat.max max 3)%nat.
Proof.
  unfold shorten. destruct (max <? String.length s)%nat eqn:E; [|apply Nat.ltb_ge in E; lia]. rewrite length_app_str. cbn.
  pose proof (str_take_le (boundary_at (max - 3) s) s). pose proof (boundary_le (max - 3) s). lia.
Qed.

Definition path_known (seen : Seen) (l : string) : Prop := l = "/..." \/ l ∈ seen_paths seen.
Definition host_known (seen : Seen) (l : string) : Prop := l = "" \/ l = "*" \/ l ∈ seen_hosts seen.

(** What an instance has let in so far. *)
Record bounded (config : PrometheusConfig) (seen : Seen) : Prop := {
  few_paths : (size (seen_paths seen) <= max_unique_paths config)%nat;
  few_hosts : (size (seen_hosts seen) <= max_unique_hosts config)%nat;
  short_paths l : l ∈ seen_paths seen -> (String.length l <= Nat.max (max_label_length config) 3)%nat;
}.
Definition grows (seen seen' : Seen) : Prop := seen_paths seen ⊆ seen_paths seen' /\ seen_hosts seen ⊆ seen_hosts seen'.

Lemma size_add (x : string) (X : gset string) : x ∉ X -> size ({[ x ]} ∪ X) = S (size X).
Proof. intros Hx. rewrite size_union, size_singleton; [done|]. by apply disjoint_singleton_l. Qed.

Lemma limit_path_ok path seen : bounded config seen -> let r := limit_path_label path seen in bounded config r.2 /\ grows seen r.2 /\ path_known r.2 r.1.
Proof.
  intros [H1 H2 H3]. cbv zeta. unfold limit_path_label, grows, path_known. set (n := shorten _ path). case_bool_decide as Hn; [by repeat split; auto|].
  destruct (_ <=? _)%nat eqn:E; [by repeat split; auto|]. apply Nat.leb_gt in E. cbn. split; [split; cbn; [|done|]|].
  - rewrite size_add by done. lia.
  - intros l [->%elem_of_singleton|Hl]%elem_of_union; [apply shorten_le|by apply H3].
  - split; [split; set_solver|right; set_solver].
Qed.

Lemma limit_host_ok host seen : bounded config seen -> let r := limit_host_label host seen in bounded config r.2 /\ grows seen r.2 /\ host_known r.2 r.1.
Proof.
  intros [H1 H2 H3]. cbv zeta. unfold limit_host_label, grows, host_known. destruct (_ || _) eqn:Ek.
  - split; [done|]. split; [done|]. cbn. rewrite !orb_true_iff, !bool_decide_eq_true in Ek. naive_solver.
  - destruct (_ <=? _)%nat eqn:E; [by repeat split; auto|]. apply Nat.leb_gt in E. cbn. rewrite !orb_false_iff, !bool_decide_eq_false in Ek. split; [split; cbn; [done| |done]|].
    + rewrite size_add by naive_solver. lia.
    + split; [split; set_solver|right; right; set_solver].
Qed.

(** The labels of the status series. *)
Definition series_known (seen : Seen) (labels : list string) : Prop :=
  exists code route path host service node, labels = [code; route; path; host; service; node] /\ path_known seen path /\ host_known seen host.

Lemma known_grows seen seen' labels : grows seen seen' -> series_known seen labels -> series_known seen' labels.
Proof.
  intros [Hp Hh] (c & r & p & h & s & n & -> & Kp & Kh). exists c, r, p, h, s, n. split; [done|]. unfold path_known, host_known in *. set_solver.
Qed.

Lemma logging_ok s seen m : bounded config seen -> (forall labels, is_Some (status m !! labels) -> series_known seen labels) ->
  let r := logging s seen m in bounded config r.1 /\ forall labels, is_Some (status r.2 !! labels) -> series_known r.1 labels.
Proof.
  intros Hb Hk. cbv zeta. unfold logging. set (pt := normalize_path_template (path s) (route s) seen).
  assert (Hpt : bounded config pt.2 /\ grows seen pt.2 /\ path_known pt.2 pt.1).
  { unfold pt, normalize_path_template. destruct (_ ≫= _); [by apply limit_path_ok|by apply (limit_path_ok _ seen)]. }
  destruct pt as [p seen1]. destruct Hpt as (B1 & G1 & K1). cbn [fst snd] in *.
  set (ht := match route s with Some r => _ | None => ("", seen1) end).
  assert (Hht : bounded config ht.2 /\ grows seen1 ht.2 /\ host_known ht.2 ht.1).
  { unfold ht. destruct (route s) as [r|]; [by apply limit_host_ok|]. split; [done|]. split; [by split|by left]. }
  destruct ht as [h seen2]. destruct Hht as (B2 & G2 & K2). cbn [fst snd status] in *. split; [done|]. intros labels. unfold inc_by.
  rewrite lookup_insert_is_Some. assert (G : grows seen seen2) by (destruct G1, G2; split; set_solver). intros [<-|[_ Hl]]; [|by apply (known_grows seen), Hk].
  do 6 eexists. split; [reflexivity|]. split; [|done]. destruct G2 as [G2 _]. unfold path_known in *. set_solver.
Qed.

(** Whatever paths and hosts clients send, the status series carry at most
    [max_unique_paths] path labels besides the collapsed one, none longer than
    the bound, and at most [max_unique_hosts] host labels besides the empty one
    and the wildcard. *)
Theorem labels_bounded ss : let seen := (log_all ss).1 in
  (size (seen_paths seen) <= max_unique_paths config)%nat /\ (size (seen_hosts seen) <= max_unique_hosts config)%nat /\
  (forall l, l ∈ seen_paths seen -> (String.length l <= Nat.max (max_label_length config) 3)%nat) /\
  (forall labels, is_Some (status (log_all ss).2 !! labels) -> series_known seen labels).
Proof.
  cbv zeta. enough (H0 : bounded config (log_all ss).1 /\ forall labels, is_Some (status (log_all ss).2 !! labels) -> series_known (log_all ss).1 labels).
  { destruct H0 as [[? ? ?] ?]. by repeat split. }
  unfold log_all. assert (Hstart : bounded config (seen_new, metrics_new).1 /\ forall labels, is_Some (status (seen_new, metrics_new).2 !! labels) -> series_known (seen_new, metrics_new).1 labels).
  { split; [split; cbn; [by rewrite size_empty; lia|by rewrite size_empty; lia|set_solver]|]. cbn. intros labels. rewrite lookup_empty. by intros []. }
  revert Hstart. generalize (seen_new, metrics_new). induction ss as [|s ss IH]; intros st [Hb Hk]; [done|]. cbn [fold_left]. apply IH. by apply logging_ok.
Qed.

(** The host label comes from the configuration of the route alone. *)
Theorem host_label_configured hosts seen : let l := (limit_host_label (select_host_label hosts) seen).1 in
  l = "" /\ hosts = [] \/ l = "*" \/ hosts = [l].
Proof.
  cbv zeta. unfold limit_host_label. destruct hosts as [|h [|h' hs]]; cbn [select_host_label].
  - by left.
  - destruct (starts_with h "*"); [right; left; by rewrite bool_decide_false, bool_decide_true|].
    destruct (_ || _); [by right; right|]. destruct (_ <=? _)%nat; [by right; left|by right; right].
  - right; left. by rewrite bool_decide_false, bool_decide_true.
Qed.
End labels.

(** ** Concrete paths *)

Example ids_are_grouped : patterns "/users/42/orders/7f" = "/users/{id}/orders/{id}f".
Proof. vm_compute. reflexivity. Qed.

(** Numbers are replaced first, so a UUID or a hash that begins with a digit is
    cut after its digits and stays a label of its own. *)
Example uuid_by_letter : patterns "/u/a23e4567-e89b-12d3-a456-426614174000" = "/u/{uuid}".
Proof. vm_compute. reflexivity. Qed.
Example uuid_by_digit : patterns "/u/123e4567-e89b-12d3-a456-426614174000" = "/u/{id}e4567-e89b-12d3-a456-426614174000".
Proof. vm_compute. reflexivity. Qed.

Example deep_paths : truncated "/a/b/c/d/e/f/g/h" = "/a/b/c/d/e/f/..." /\ truncated "/a/b/c/d/e/f/g" = "/a/b/c/d/e/f/g".
Proof. vm_compute. split; reflexivity. Qed.
