(* ===== verification/Schema.v ===== *)
(** * Warnings about unrecognised fields ([src/src/config/schema.rs])

    The table of the resources' fields, the walk that lists what a document
    carries beyond it, and the suggestion of a field that was meant: the distance
    of two names is the least number of characters to insert, delete or replace.
    The log that prints the warnings is the process's. *)

From Stdlib Require Import ZArith Lia Ascii.
From stdpp Require Import base tactics strings option relations list.
From S2P Require Import Prelude Utf8 Json Hosts.

Open Scope nat_scope.

(** ** The table *)

Record ResourceSchema : Type := { fields : list string; nested : list (string * string) }.

Definition ROUTE : ResourceSchema :=
  {| fields := ["id"; "name"; "uri"; "uris"; "methods"; "host"; "hosts"; "priority"; "plugins"; "upstream"; "upstream_id"; "service_id";
                "timeout"; "enable_websocket"; "metadata"];
     nested := [("upstream", "upstream"); ("timeout", "timeout")] |}.
Definition UPSTREAM : ResourceSchema :=
  {| fields := ["id"; "retries"; "retry_timeout"; "timeout"; "nodes"; "plugins"; "type"; "checks"; "hash_on"; "key"; "scheme"; "pass_host";
                "upstream_host"; "tls"; "keepalive_pool"; "metadata"];
     nested := [("timeout", "timeout"); ("checks", "health_check"); ("tls", "upstream_tls"); ("keepalive_pool", "keepalive_pool")] |}.
Definition SERVICE : ResourceSchema :=
  {| fields := ["id"; "name"; "plugins"; "upstream"; "upstream_id"; "hosts"; "metadata"]; nested := [("upstream", "upstream")] |}.
Definition GLOBAL_RULE : ResourceSchema := {| fields := ["id"; "plugins"; "metadata"]; nested := [] |}.
Definition SSL_FIELDS : ResourceSchema := {| fields := ["id"; "cert"; "key"; "snis"; "metadata"]; nested := [] |}.
Definition TIMEOUT : ResourceSchema := {| fields := ["connect"; "send"; "read"]; nested := [] |}.
Definition UPSTREAM_TLS : ResourceSchema := {| fields := ["client_cert"; "client_key"]; nested := [] |}.
Definition KEEPALIVE_POOL : ResourceSchema := {| fields := ["idle_timeout"]; nested := [] |}.
Definition HEALTH_CHECK : ResourceSchema :=
  {| fields := ["active"; "passive"]; nested := [("active", "active_check"); ("passive", "passive_check")] |}.
Definition ACTIVE_CHECK : ResourceSchema :=
  {| fields := ["type"; "timeout"; "http_path"; "host"; "port"; "https_verify_certificate"; "req_headers"; "healthy"; "unhealthy"];
     nested := [("healthy", "health"); ("unhealthy", "unhealthy")] |}.
Definition HEALTH : ResourceSchema := {| fields := ["interval"; "http_statuses"; "successes"]; nested := [] |}.
Definition UNHEALTHY : ResourceSchema := {| fields := ["http_failures"; "tcp_failures"]; nested := [] |}.
Definition PASSIVE_CHECK : ResourceSchema :=
  {| fields := ["healthy"; "unhealthy"]; nested := [("healthy", "passive_healthy"); ("unhealthy", "passive_unhealthy")] |}.
Definition PASSIVE_HEALTHY : ResourceSchema := {| fields := ["http_statuses"; "successes"]; nested := [] |}.
Definition PASSIVE_UNHEALTHY : ResourceSchema := {| fields := ["http_statuses"; "tcp_failures"; "timeouts"; "http_failures"]; nested := [] |}.

Definition schemas : list (string * ResourceSchema) :=
  [("route", ROUTE); ("upstream", UPSTREAM); ("service", SERVICE); ("global_rule", GLOBAL_RULE); ("ssl", SSL_FIELDS); ("timeout", TIMEOUT);
   ("upstream_tls", UPSTREAM_TLS); ("keepalive_pool", KEEPALIVE_POOL); ("health_check", HEALTH_CHECK); ("active_check", ACTIVE_CHECK);
   ("health", HEALTH); ("unhealthy", UNHEALTHY); ("passive_check", PASSIVE_CHECK); ("passive_healthy", PASSIVE_HEALTHY);
   ("passive_unhealthy", PASSIVE_UNHEALTHY)].
Fixpoint find_key {A} (key : string) (l : list (string * A)) : option A :=
  match l with [] => None | (k, a) :: l => if bool_decide (k = key) then Some a else find_key key l end.
Definition schema_for (id : string) : option ResourceSchema := find_key id schemas.
Definition nested_schema (schema : ResourceSchema) (key : string) : option string := find_key key (nested schema).

(** ** Edit distance *)

(** [str::chars], each character as the bytes that encode it. *)
Definition chars (s : string) : list string := (utf8_chunks s).*2.

(** [iter().enumerate()] *)
Definition enumerate {A} (l : list A) : list (nat * A) := zip (seq 0 (length l)) l.

(** The two rows. [v !!! i] is [v[i]] inside the vector, and [rows_in_range] says
    that no index is outside. *)
Definition inner_step (ac : string) (prev curr : list nat) (jb : nat * string) : list nat :=
  let '(j, bc) := jb in
  let cost := if bool_decide (ac = bc) then 0 else 1 in
  <[j + 1 := Nat.min (Nat.min (prev !!! (j + 1) + 1) (curr !!! j + 1)) (prev !!! j + cost)]> curr.
Definition outer_step (b : list string) (rows : list nat * list nat) (ia : nat * string) : list nat * list nat :=
  let '(prev, curr) := rows in
  let '(i, ac) := ia in
  let curr := <[0 := i + 1]> curr in
  let curr := fold_left (inner_step ac prev) (enumerate b) curr in
  (curr, prev).
Definition edit_distance (a b : string) : nat :=
  let a := chars a in
  let b := chars b in
  match a, b with
  | [], _ => length b
  | _, [] => length a
  | _, _ => (fold_left (outer_step b) (enumerate a) (seq 0 (length b + 1), replicate (length b + 1) 0)).1 !!! length b
  end.

(** ** Warnings *)

Record FieldWarning : Type := { warned_path : string; suggestion : option string }.
#[export] Instance FieldWarning_eq_dec : EqDecision FieldWarning.
Proof. solve_decision. Defined.

Definition abs_diff (m n : nat) : nat := (m - n) + (n - m).
(** The first of the least elements. *)
Fixpoint min_by_key {A} (f : A -> nat) (l : list A) : option A :=
  match l with
  | [] => None
  | x :: l => match min_by_key f l with Some y => if f y <? f x then Some y else Some x | None => Some x end
  end.

Definition suggest_field (schema : ResourceSchema) (key : string) (key_len : nat) : option string :=
  let close := List.filter (fun known => abs_diff (length (chars known)) key_len <=? 2) (fields schema) in
  let measured := List.filter (fun kd => (0 <? kd.2) && (kd.2 <=? 2)) (map (fun known => (known, edit_distance key known)) close) in
  fst <$> min_by_key snd measured.

Fixpoint collect_schema_warnings (schema_id path : string) (value : Json) (warnings : list FieldWarning) {struct value} : list FieldWarning :=
  match schema_for schema_id, value with
  | Some schema, JObject obj =>
    (fix each (obj : Fields) (warnings : list FieldWarning) : list FieldWarning :=
      match obj with
      | [] => warnings
      | (key, val) :: obj =>
        let field_path := path +:+ "." +:+ key in
        each obj
          (if bool_decide (key ∈ fields schema) then
             match nested_schema schema key with
             | Some nested_id => collect_schema_warnings nested_id field_path val warnings
             | None => warnings
             end
           else (warnings ++ [{| warned_path := field_path; suggestion := suggest_field schema key (length (chars key)) |}])%list)
      end) obj warnings
  | _, _ => warnings
  end.

Definition schema_id_of (resource_type : string) : option string :=
  find_key resource_type [("routes", "route"); ("upstreams", "upstream"); ("services", "service"); ("global_rules", "global_rule"); ("ssls", "ssl")].
Definition unrecognized_fields (resource_type : string) (value : Json) : list FieldWarning :=
  match schema_id_of resource_type with Some schema_id => collect_schema_warnings schema_id resource_type value [] | None => [] end.

Definition warning_text (w : FieldWarning) : string :=
  match suggestion w with
  | Some s => "Configuration: field '" +:+ warned_path w +:+ "' is not recognized; did you mean '" +:+ s +:+ "'? It will be ignored."
  | None => "Configuration: field '" +:+ warned_path w +:+ "' is not recognized and will be ignored."
  end.
(** What is logged. *)
Definition warn_unrecognized_fields (resource_type : string) (value : Json) : list string := map warning_text (unrecognized_fields resource_type value).
Definition warn_static_resources (graph : Json) : list string :=
  concat (map (fun key => match json_get key graph with
                          | Some (JArray arr) => concat (map (warn_unrecognized_fields key) arr)
                          | _ => []
                          end) ["routes"; "upstreams"; "services"; "global_rules"; "ssls"]).

(** ** Loops over enumerated lists *)

Lemma fold_enumerate {A S} (P : nat -> S -> Prop) (f : S -> nat * A -> S) (l : list A) s :
  P 0 s -> (forall k x s, l !! k = Some x -> P k s -> P (k + 1) (f s (k, x))) -> P (length l) (fold_left f (enumerate l) s).
Proof.
  intros H0 Hstep. unfold enumerate.
  enough (H : forall l2 l1 s, l = l1 ++ l2 -> P (length l1) s -> P (length l) (fold_left f (zip (seq (length l1) (length l2)) l2) s)) by (by apply (H l [])).
  induction l2 as [|x l2 IH]; intros l1 s' -> Hs; cbn; [by rewrite app_nil_r|].
  specialize (IH (l1 ++ [x])). rewrite length_app in IH. cbn in IH. rewrite Nat.add_1_r in IH. apply IH; [by rewrite <-app_assoc|].
  rewrite <-Nat.add_1_r. apply Hstep; [|done]. by apply list_lookup_middle.
Qed.

(** ** What the distance is *)

(** One character inserted, deleted or replaced. *)
Inductive edit {A : Type} : list A -> list A -> Prop :=
| Insert l1 x l2 : edit (l1 ++ l2) (l1 ++ x :: l2)
| Delete l1 x l2 : edit (l1 ++ x :: l2) (l1 ++ l2)
| Replace l1 x y l2 : edit (l1 ++ x :: l2) (l1 ++ y :: l2).

(** Two texts laid side by side, with what it costs. *)
Inductive align {A : Type} `{EqDecision A} : list A -> list A -> nat -> Prop :=
| align_nil : align [] [] 0
| align_ins y a b n : align a b n -> align a (y :: b) (n + 1)
| align_del x a b n : align a b n -> align (x :: a) b (n + 1)
| align_sub x y a b n : align a b n -> align (x :: a) (y :: b) (n + if bool_decide (x = y) then 0 else 1).

Section distance.
Context {A : Type} `{EqDecision A}.
Implicit Types (a b : list A) (n : nat).

Lemma edit_cons (x : A) a b : edit a b -> edit (x :: a) (x :: b).
Proof. intros [l1 y l2|l1 y l2|l1 y z l2]; [apply (Insert (x :: l1))|apply (Delete (x :: l1))|apply (Replace (x :: l1))]. Qed.

Lemma edit_rev a b : edit a b -> edit (rev a) (rev b).
Proof.
  intros [l1 y l2|l1 y l2|l1 y z l2]; rewrite !rev_app_distr; cbn; rewrite <-?app_assoc; cbn; [apply Insert|apply Delete|apply Replace].
Qed.

Lemma nsteps_rev n a b : nsteps edit n (rev a) (rev b) -> nsteps edit n a b.
Proof. intros H%(nsteps_congruence (@rev _) edit); [by rewrite !rev_involutive in H|apply edit_rev]. Qed.

Lemma edit_length n a b : nsteps edit n a b -> length a <= length b + n /\ length b <= length a + n.
Proof. induction 1 as [|n x y z He Hs IH]; [lia|]. destruct He; rewrite !length_app in *; cbn in *; lia. Qed.

(** An alignment is a sequence of edits. *)
Lemma align_edits a b n : align a b n -> nsteps edit n a b.
Proof.
  induction 1 as [|y a b n _ IH|x a b n _ IH|x y a b n _ IH]; [constructor|..].
  - rewrite Nat.add_1_r. apply nsteps_r with b; [done|]. apply (Insert []).
  - rewrite Nat.add_1_r. apply nsteps_l with a; [apply (Delete [])|done].
  - apply (nsteps_congruence (cons y) edit) in IH; [|intros ??; apply edit_cons]. case_bool_decide as E; [subst; by rewrite Nat.add_0_r|].
    rewrite Nat.add_1_r. apply nsteps_l with (y :: a); [apply (Replace [])|done].
Qed.

Lemma align_refl a : align a a 0.
Proof. induction a as [|x a IH]; [constructor|]. apply (align_sub x x) in IH. by rewrite bool_decide_true in IH. Qed.

Definition within_one a a' : Prop := forall b m, align a' b m -> exists m', m' <= m + 1 /\ align a b m'.

(** An alignment of what an edit leaves, extended column by column. *)
Lemma within_ins x a : within_one a (x :: a).
Proof.
  intros b m Ha. remember (x :: a) as c eqn:Ec. induction Ha as [|y a' b n Ha IH|x' a' b n Ha IH|x' y a' b n Ha IH]; [done|..].
  - destruct (IH Ec) as (m' & Hm & Hal). exists (m' + 1). split; [lia|by constructor].
  - injection Ec as -> ->. exists n. split; [lia|done].
  - injection Ec as -> ->. exists (n + 1). split; [case_bool_decide; lia|by constructor].
Qed.

Lemma within_sub x y a : within_one (x :: a) (y :: a).
Proof.
  intros b m Ha. remember (y :: a) as c eqn:Ec. induction Ha as [|z a' b n Ha IH|x' a' b n Ha IH|x' z a' b n Ha IH]; [done|..].
  - destruct (IH Ec) as (m' & Hm & Hal). exists (m' + 1). split; [lia|by constructor].
  - injection Ec as -> ->. exists (n + 1). split; [lia|by constructor].
  - injection Ec as -> ->. eexists. split; [|by apply (align_sub x z)]. repeat case_bool_decide; lia.
Qed.

Lemma within_cons z a a' : within_one a a' -> within_one (z :: a) (z :: a').
Proof.
  intros Hw b m Ha. remember (z :: a') as c eqn:Ec. induction Ha as [|y c' b n Ha IH|x' c' b n Ha IH|x' y c' b n Ha IH]; [done|..].
  - destruct (IH Ec) as (m' & Hm & Hal). exists (m' + 1). split; [lia|by constructor].
  - injection Ec as -> ->. destruct (Hw _ _ Ha) as (m' & Hm & Hal). exists (m' + 1). split; [lia|by constructor].
  - injection Ec as -> ->. destruct (Hw _ _ Ha) as (m' & Hm & Hal). eexists. split; [|by apply (align_sub z y)]. lia.
Qed.

Lemma edit_within a a' : edit a a' -> within_one a a'.
Proof.
  intros [l1 x l2|l1 x l2|l1 x y l2]; (induction l1 as [|z l1 IH]; cbn; [|by apply within_cons]).
  - apply within_ins.
  - intros b m Ha. exists (m + 1). split; [done|by constructor].
  - apply within_sub.
Qed.

Lemma edits_align n a b : nsteps edit n a b -> exists m, m <= n /\ align a b m.
Proof.
  induction 1 as [a|n a a' b He _ (m & Hm & Ha)]; [exists 0; split; [done|apply align_refl]|].
  destruct (edit_within _ _ He _ _ Ha) as (m' & Hm' & Ha'). exists m'. split; [lia|done].
Qed.

(** The least cost, and the recurrence it satisfies. *)
Definition least a b n : Prop := align a b n /\ forall m, align a b m -> n <= m.

Lemma least_nil_l b : least [] b (length b).
Proof.
  split; [induction b as [|y b IH]; cbn; [constructor|rewrite <-Nat.add_1_r; by constructor]|].
  intros m Ha%align_edits%edit_length. cbn in Ha. lia.
Qed.
Lemma least_nil_r a : least a [] (length a).
Proof.
  split; [induction a as [|y a IH]; cbn; [constructor|rewrite <-Nat.add_1_r; by constructor]|].
  intros m Ha%align_edits%edit_length. cbn in Ha. lia.
Qed.
Lemma least_step x y a b n1 n2 n3 : least a (y :: b) n1 -> least (x :: a) b n2 -> least a b n3 ->
  least (x :: a) (y :: b) (Nat.min (Nat.min (n1 + 1) (n2 + 1)) (n3 + if bool_decide (x = y) then 0 else 1)).
Proof.
  intros [A1 L1] [A2 L2] [A3 L3]. split.
  - destruct (Nat.min_spec (Nat.min (n1 + 1) (n2 + 1)) (n3 + if bool_decide (x = y) then 0 else 1)) as [[_ ->]|[_ ->]]; [|by constructor].
    destruct (Nat.min_spec (n1 + 1) (n2 + 1)) as [[_ ->]|[_ ->]]; by constructor.
  - intros m Ha. inversion Ha as [|? ? ? n Hn|? ? ? n Hn|? ? ? ? n Hn]; subst.
    + apply L2 in Hn. lia.
    + apply L1 in Hn. lia.
    + apply L3 in Hn. case_bool_decide; lia.
Qed.

(** Read backwards, the least cost is the least number of edits. *)
Lemma least_edits a b n : least (rev a) (rev b) n -> nsteps edit n a b /\ forall m, nsteps edit m a b -> n <= m.
Proof.
  intros [Ha Hl]. split; [by apply nsteps_rev, align_edits|]. intros m Hm. apply (nsteps_congruence (@rev _) edit) in Hm; [|apply edit_rev].
  apply edits_align in Hm as (m' & Hm & Ha'). apply Hl in Ha'. lia.
Qed.
End distance.

(** ** The rows hold the distances of the prefixes *)

Definition row_to (k : nat) (a b : list string) (row : list nat) : Prop :=
  length row = length b + 1 /\ forall j, j <= k -> least (rev a) (rev (take j b)) (row !!! j).

Lemma rev_take_snoc (l : list string) k x : l !! k = Some x -> rev (take (k + 1) l) = x :: rev (take k l).
Proof. intros Hx. rewrite Nat.add_1_r, (take_S_r _ _ _ Hx), rev_app_distr. done. Qed.

Lemma inner_row a b ac prev curr : row_to (length b) a b prev -> length curr = length b + 1 -> curr !!! 0 = length a + 1 ->
  row_to (length b) (a ++ [ac]) b (fold_left (inner_step ac prev) (enumerate b) curr).
Proof.
  intros [_ Hp] Hl H0. apply (fold_enumerate (fun k row => row_to k (a ++ [ac]) b row)).
  - split; [done|]. intros j Hj. replace j with 0 by lia. rewrite H0. cbn. replace (length a + 1) with (length (rev (a ++ [ac]))) by (by rewrite length_rev, length_app). apply least_nil_r.
  - intros k bc row Hk [Hrow Hr]. assert (k < length b) by (by apply lookup_lt_Some in Hk). unfold inner_step. split; [by rewrite length_insert|].
    intros j Hj. rewrite list_lookup_total_insert. case_decide as Hd; [|apply Hr; lia]. destruct Hd as [<- _].
    rewrite rev_app_distr, (rev_take_snoc _ _ _ Hk). cbn. apply least_step; [|specialize (Hr k); rewrite rev_app_distr in Hr; apply Hr; lia|apply Hp; lia].
    specialize (Hp (k + 1)). rewrite (rev_take_snoc _ _ _ Hk) in Hp. apply Hp. lia.
Qed.

Definition rows_ok (a b : list string) (k : nat) (rows : list nat * list nat) : Prop :=
  row_to (length b) (take k a) b rows.1 /\ length rows.2 = length b + 1.

Lemma first_row b : row_to (length b) [] b (seq 0 (length b + 1)).
Proof.
  split; [by rewrite length_seq|]. intros j Hj. rewrite list_lookup_total_alt, lookup_seq_lt by lia. cbn.
  replace j with (length (rev (take j b))) at 2 by (rewrite length_rev, length_take; lia). apply least_nil_l.
Qed.

Lemma rows_step a b k ac rows : a !! k = Some ac -> rows_ok a b k rows -> rows_ok a b (k + 1) (outer_step b rows (k, ac)).
Proof.
  intros Hk [Hp Hc]. destruct rows as [prev curr]. cbn in *. unfold rows_ok, outer_step. cbn [fst snd]. split; [|apply Hp].
  rewrite Nat.add_1_r, (take_S_r _ _ _ Hk). assert (Hlt := lookup_lt_Some _ _ _ Hk).
  apply inner_row; [done|by rewrite length_insert|]. rewrite list_lookup_total_insert, decide_True by lia. rewrite length_take. lia.
Qed.

Lemma rows_final a b k : k <= length a ->
  rows_ok (take k a) b k (fold_left (outer_step b) (enumerate (take k a)) (seq 0 (length b + 1), replicate (length b + 1) 0)).
Proof.
  intros Hk. assert (H : rows_ok (take k a) b (length (take k a)) (fold_left (outer_step b) (enumerate (take k a)) (seq 0 (length b + 1), replicate (length b + 1) 0))).
  { apply (fold_enumerate (rows_ok (take k a) b)); [|intros; by apply rows_step]. split; [apply first_row|cbn; by rewrite length_replicate]. }
  rewrite length_take_le in H by done. exact H.
Qed.

(** Before and after every turn both rows have a cell for each index the turn
    uses, so no access of the loops is out of range. *)
Theorem rows_in_range a b k : let a := chars a in let b := chars b in k <= length a ->
  let rows := fold_left (outer_step b) (enumerate (take k a)) (seq 0 (length b + 1), replicate (length b + 1) 0) in
  length rows.1 = length b + 1 /\ length rows.2 = length b + 1.
Proof. cbv zeta. intros Hk. destruct (rows_final _ (chars b) _ Hk) as [[H1 _] H2]. done. Qed.

Lemma edit_distance_spec a b : nsteps edit (edit_distance a b) (chars a) (chars b) /\ forall n, nsteps edit n (chars a) (chars b) -> edit_distance a b <= n.
Proof.
  apply least_edits. unfold edit_distance. destruct (chars a) as [|x l] eqn:Ea; [cbn; rewrite <-length_rev; apply least_nil_l|].
  destruct (chars b) as [|y l'] eqn:Eb; [cbn [rev]; rewrite <-(length_rev (x :: l)); apply least_nil_r|]. rewrite <-Ea, <-Eb.
  destruct (rows_final (chars a) (chars b) (length (chars a)) (le_n _)) as [[_ Hp] _].
  specialize (Hp (length (chars b)) (le_n _)). by rewrite (take_ge (chars b)), !(take_ge (chars a)) in Hp by lia.
Qed.

(** The two rows compute the edit distance: that many insertions, deletions and
    replacements turn one name into the other, and fewer do not. *)
Theorem edit_distance_least a b n : nsteps edit n (chars a) (chars b) -> nsteps edit (edit_distance a b) (chars a) (chars b) /\ edit_distance a b <= n.
Proof. intros Hn. destruct (edit_distance_spec a b) as [H1 H2]. auto. Qed.

(** ** Suggestions *)

Lemma chars_inj a b : chars a = chars b -> a = b.
Proof.
  intros H. rewrite <-(utf8_chunks_concat a), <-(utf8_chunks_concat b).
  assert (Hf : forall l : list (bool * string), fold_right (fun k acc => k.2 +:+ acc) "" l = fold_right String.append "" l.*2).
  { induction l as [|k l IH]; [done|]. rewrite fmap_cons. cbn [fold_right]. by rewrite IH. }
  rewrite !Hf. unfold chars in H. by rewrite H.
Qed.

Lemma distance_zero a b : edit_distance a b = 0 -> a = b.
Proof. intros H0. destruct (edit_distance_spec a b) as [H _]. rewrite H0 in H. apply chars_inj. by inversion H. Qed.

Lemma distance_length a b : abs_diff (length (chars b)) (length (chars a)) <= edit_distance a b.
Proof. destruct (edit_distance_spec a b) as [H _]. apply edit_length in H. unfold abs_diff. lia. Qed.

Lemma min_by_key_first {A} (f : A -> nat) (l : list A) :
  match min_by_key f l with
  | Some x => exists l1 l2, l = l1 ++ x :: l2 /\ (forall y, y ∈ l1 -> f x < f y) /\ (forall y, y ∈ l2 -> f x <= f y)
  | None => l = []
  end.
Proof.
  induction l as [|x l IH]; cbn [min_by_key]; [done|]. destruct (min_by_key f l) as [y|].
  - destruct IH as (l1 & l2 & -> & H1 & H2). destruct (f y <? f x) eqn:E; cbn.
    + apply Nat.ltb_lt in E. exists (x :: l1), l2. split; [done|]. split; [|done]. intros z [->|Hz]%elem_of_cons; auto.
    + apply Nat.ltb_ge in E. exists [], (l1 ++ y :: l2). split; [done|]. split; [by intros ? ?%not_elem_of_nil|].
      intros z [Hz|[->|Hz]%elem_of_cons]%elem_of_app; [apply H1 in Hz; lia|done|apply H2 in Hz; lia].
  - subst l. exists [], []. split; [done|]. split; by intros ? ?%not_elem_of_nil.
Qed.

(** The filter on lengths drops nothing that is near. *)
Lemma measured_elem schema key k d :
  (k, d) ∈ List.filter (fun kd : string * nat => (0 <? kd.2) && (kd.2 <=? 2))
    (map (fun known => (known, edit_distance key known)) (List.filter (fun known => abs_diff (length (chars known)) (length (chars key)) <=? 2) (fields schema))) <->
  k ∈ fields schema /\ d = edit_distance key k /\ 0 < d <= 2.
Proof.
  rewrite list_elem_of_In, filter_In, in_map_iff. cbn [fst snd]. rewrite andb_true_iff, Nat.ltb_lt, Nat.leb_le. split.
  - intros [(x & [= -> <-] & [Hx _]%filter_In) Hd]. split; [by apply list_elem_of_In|]. split; [done|lia].
  - intros (Hk & -> & Hd). split; [|lia]. exists k. split; [done|]. apply filter_In. split; [by apply list_elem_of_In|].
    apply Nat.leb_le. pose proof (distance_length key k). lia.
Qed.

Definition near (n : nat) (key known : string) : Prop := exists m, m <= n /\ nsteps edit m (chars key) (chars known).

Lemma near_distance n key known : near n key known <-> edit_distance key known <= n.
Proof.
  destruct (edit_distance_spec key known) as [H1 H2]. split; [intros (m & Hm & Hs%H2); lia|]. intros Hn. by exists (edit_distance key known).
Qed.

(** An unknown field is suggested the nearest known one that one or two edits
    reach, and nothing only if there is none: the shortcut over lengths and the
    distance table lose no candidate. *)
Theorem suggestion_nearest schema key : key ∉ fields schema ->
  match suggest_field schema key (length (chars key)) with
  | Some k => k ∈ fields schema /\ near 2 key k /\ forall n k', k' ∈ fields schema -> near n key k' -> near n key k
  | None => forall k', k' ∈ fields schema -> ~ near 2 key k'
  end.
Proof.
  intros Hkey. unfold suggest_field. cbv zeta. set (l := List.filter _ (map _ _)). pose proof (min_by_key_first snd l) as Hm.
  assert (Hpos : forall k', k' ∈ fields schema -> 0 < edit_distance key k').
  { intros k' Hk'. destruct (edit_distance key k') eqn:E; [|lia]. apply distance_zero in E as <-. done. }
  destruct (min_by_key snd l) as [[k d]|]; cbn.
  - destruct Hm as (l1 & l2 & Hl & H1 & H2). assert (Hk : (k, d) ∈ l) by (rewrite Hl; set_solver).
    apply measured_elem in Hk as (Hk & Ed & Hd). split; [done|]. rewrite near_distance. split; [lia|]. intros n k' Hk'. rewrite !near_distance. intros Hn.
    destruct (decide (edit_distance key k' <= 2)) as [H|H]; [|lia].
    assert (Hin : (k', edit_distance key k') ∈ l) by (apply measured_elem; split; [done|split; [done|specialize (Hpos k' Hk'); lia]]).
    rewrite Hl in Hin. apply elem_of_app in Hin as [Hin|[[= -> Heq]|Hin]%elem_of_cons]; [apply H1 in Hin|lia|apply H2 in Hin]; cbn in Hin; lia.
  - intros k' Hk' Hn%near_distance. assert (Hin : (k', edit_distance key k') ∈ l) by (apply measured_elem; split; [done|split; [done|specialize (Hpos k' Hk'); lia]]).
    rewrite Hm in Hin. by apply not_elem_of_nil in Hin.
Qed.

(** ** The walk *)

Lemma collect_each schema path obj warnings :
  (fix each (obj : Fields) (warnings : list FieldWarning) : list FieldWarning :=
    match obj with
    | [] => warnings
    | (key, val) :: obj =>
      let field_path := path +:+ "." +:+ key in
      each obj
        (if bool_decide (key ∈ fields schema) then
           match nested_schema schema key with
           | Some nested_id => collect_schema_warnings nested_id field_path val warnings
           | None => warnings
           end
         else (warnings ++ [{| warned_path := field_path; suggestion := suggest_field schema key (length (chars key)) |}])%list)
    end) obj warnings =
  fold_left (fun warnings kv =>
    if bool_decide (kv.1 ∈ fields schema) then
      match nested_schema schema kv.1 with
      | Some nested_id => collect_schema_warnings nested_id (path +:+ "." +:+ kv.1) kv.2 warnings
      | None => warnings
      end
    else (warnings ++ [{| warned_path := path +:+ "." +:+ kv.1; suggestion := suggest_field schema kv.1 (length (chars kv.1)) |}])%list) obj warnings.
Proof. revert warnings. induction obj as [|[key val] obj IH]; intros warnings; [done|]. cbn [fold_left fst snd]. by rewrite <-IH. Qed.

(** The warnings one field gives. *)
Definition field_warnings (schema : ResourceSchema) (path : string) (kv : string * Json) : list FieldWarning :=
  if bool_decide (kv.1 ∈ fields schema) then
    match nested_schema schema kv.1 with
    | Some nested_id => collect_schema_warnings nested_id (path +:+ "." +:+ kv.1) kv.2 []
    | None => []
    end
  else [{| warned_path := path +:+ "." +:+ kv.1; suggestion := suggest_field schema kv.1 (length (chars kv.1)) |}].

Definition object_warnings (schema_id path : string) (value : Json) : list FieldWarning :=
  match schema_for schema_id, value with Some schema, JObject obj => concat (map (field_warnings schema path) obj) | _, _ => [] end.

Lemma collect_flat schema_id path value warnings :
  collect_schema_warnings schema_id path value warnings = (warnings ++ object_warnings schema_id path value)%list.
Proof.
  revert schema_id path warnings. induction value as [| | | |items _|obj IH] using Json_nested_ind; intros schema_id path warnings;
    cbn [collect_schema_warnings]; unfold object_warnings; (destruct (schema_for schema_id) as [schema|]; [|by rewrite app_nil_r]); try by rewrite app_nil_r.
  rewrite collect_each. revert warnings. induction IH as [|[key val] obj Hv _ IHo]; intros warnings; cbn [fold_left map concat fst snd]; [by rewrite app_nil_r|].
  rewrite IHo, app_assoc. f_equal. unfold field_warnings. cbn [fst snd] in *. case_bool_decide; [|done].
  destruct (nested_schema schema key) as [id|]; [|by rewrite app_nil_r]. rewrite Hv, (Hv _ _ []). done.
Qed.

(** A document fits when, under every object the table describes, it has only
    fields the table has. *)
Inductive stray : string -> Json -> Prop :=
| stray_here schema_id schema obj key val : schema_for schema_id = Some schema -> (key, val) ∈ obj -> key ∉ fields schema -> stray schema_id (JObject obj)
| stray_below schema_id schema obj key val nested_id : schema_for schema_id = Some schema -> (key, val) ∈ obj -> key ∈ fields schema ->
    nested_schema schema key = Some nested_id -> stray nested_id val -> stray schema_id (JObject obj).

Lemma object_silent schema_id path value : object_warnings schema_id path value <> [] <-> stray schema_id value.
Proof.
  revert schema_id path. induction value as [| | | |items _|obj IH] using Json_nested_ind; intros schema_id path; unfold object_warnings;
    [(destruct (schema_for schema_id); (split; [intros Hne; by destruct Hne|by inversion 1]))..|].
  rewrite Forall_forall in IH. destruct (schema_for schema_id) as [schema|] eqn:Es; [|split; [intros Hne; by destruct Hne|inversion 1; subst; congruence]]. split.
  - intros Hne. destruct (decide (Forall (fun kv => field_warnings schema path kv = []) obj)) as [Hall|Hex].
    { exfalso. apply Hne. clear -Hall. induction Hall as [|kv obj Hkv _ IHo]; [done|]. cbn. by rewrite Hkv, IHo. }
    apply not_Forall_Exists, Exists_exists in Hex as ([key val] & Hin & Hw); [|intros ?; apply _]. cbn in Hw. unfold field_warnings in Hw. cbn [fst snd] in Hw.
    case_bool_decide as Hk; [|by eapply stray_here]. destruct (nested_schema schema key) as [id|] eqn:En; [|done]. rewrite collect_flat in Hw. cbn in Hw.
    eapply stray_below; [done..|]. by apply (IH _ Hin) in Hw.
  - intros Hs. assert (exists kv, kv ∈ obj /\ field_warnings schema path kv <> []) as (kv & Hin & Hw).
    { inversion Hs as [? schema' ? key val Es' Hin Hk|? schema' ? key val id Es' Hin Hk En Hv]; subst; rewrite Es in Es'; injection Es' as <-; exists (key, val); (split; [done|]);
        unfold field_warnings; cbn [fst snd]; [by rewrite bool_decide_false|]. rewrite bool_decide_true, En, collect_flat by done. by apply (IH _ Hin). }
    intros Hnil. apply Hw. clear -Hin Hnil. induction obj as [|kv' obj IHo]; [by apply not_elem_of_nil in Hin|]. cbn in Hnil. apply app_eq_nil in Hnil as [H1 H2].
    apply elem_of_cons in Hin as [->|Hin]; [done|auto].
Qed.

(** A resource is warned about exactly when it carries a field, at any depth the
    table describes, that the table does not have. *)
Theorem warned_iff_stray resource_type schema_id value : schema_id_of resource_type = Some schema_id ->
  (unrecognized_fields resource_type value <> [] <-> stray schema_id value).
Proof. intros Hid. unfold unrecognized_fields. rewrite Hid, collect_flat. apply object_silent. Qed.

(** What is below a field without a schema of its own is nobody's here: its
    content, plugins and nodes and metadata, never changes the warnings. *)
Theorem free_form_ignored resource_type schema_id schema obj key v :
  schema_id_of resource_type = Some schema_id -> schema_for schema_id = Some schema -> key ∈ fields schema -> nested_schema schema key = None ->
  unrecognized_fields resource_type (JObject (obj_set key v obj)) = unrecognized_fields resource_type (JObject obj).
Proof.
  intros Hid Hs Hk Hn. unfold unrecognized_fields. rewrite Hid, !collect_flat. unfold object_warnings. rewrite Hs. cbn. f_equal.
  induction obj as [|[k w] obj IH]; [done|]. cbn [obj_set]. case_decide as E; [subst k|by cbn [map]; rewrite IH]. cbn [map].
  unfold field_warnings. cbn [fst snd]. by rewrite bool_decide_true, Hn by done.
Qed.

(** The table is closed: a field with a schema is a field, and its schema exists. *)
Theorem table_closed id schema : schema_for id = Some schema ->
  NoDup (fields schema) /\ forall field nested_id, (field, nested_id) ∈ nested schema -> field ∈ fields schema /\ is_Some (schema_for nested_id).
Proof.
  assert (Hall : Forall (fun s : string * ResourceSchema => bool_decide (NoDup (fields s.2)) && forallb (fun n : string * string => bool_decide (n.1 ∈ fields s.2) && bool_decide (is_Some (schema_for n.2))) (nested s.2) = true) schemas).
  { repeat (constructor; [vm_compute; reflexivity|]). constructor. }
  intros Hs. assert (Hin : (id, schema) ∈ schemas).
  { revert Hs. unfold schema_for. clear. induction schemas as [|[k a] l IH]; [done|]. cbn. case_bool_decide; [intros [= ->]; subst; left|intros ?; right; auto]. }
  rewrite Forall_forall in Hall. apply Hall in Hin. cbn [snd] in Hin. bool_to_prop. split; [done|]. intros f n Hfn%list_elem_of_In.
  match goal with H : forallb _ _ = true |- _ => apply forallb_forall with (x := (f, n)) in H; [|done] end. cbn [fst snd] in *. by bool_to_prop.
Qed.

(** ** Concrete documents *)

Example nested_typos : unrecognized_fields "upstreams" (JObject
    [("checks", JObject [("active", JObject [("healthy", JObject [("sucesses", JNull)])]); ("passive", JObject [("unhealthy", JObject [("http_failuers", JNull)])])]);
     ("metadata", JObject [("annotation_typo", JBool true)]); ("nodes", JObject [("backend:80", JObject [("weigth", JNull)])]);
     ("tls", JObject [("client_kay", JString "private")])]) =
  [{| warned_path := "upstreams.checks.active.healthy.sucesses"; suggestion := Some "successes" |};
   {| warned_path := "upstreams.checks.passive.unhealthy.http_failuers"; suggestion := Some "http_failures" |};
   {| warned_path := "upstreams.tls.client_kay"; suggestion := Some "client_key" |}].
Proof. vm_compute. reflexivity. Qed.

Example transposition_is_two : edit_distance "hots" "host" = 2 /\ suggest_field ROUTE "hots" 4 = Some "hosts".
Proof. vm_compute. split; reflexivity. Qed.

Example unrelated : suggest_field UPSTREAM "totally_unrelated" 17 = None.
Proof. vm_compute. reflexivity. Qed.

(** The table has a field for upstreams that the resource has not: it is dropped
    without a warning. *)
Example upstream_plugins_silent : unrecognized_fields "upstreams" (JObject [("plugins", JObject [("cors", JNull)])]) = [].
Proof. vm_compute. reflexivity. Qed.
