(* ===== verification/Bootstrap.v ===== *)
(** * Start-up of the gateway ([src/src/service/mod.rs], [src/src/main.rs])

    Reading the configuration file ([config/mod.rs]), the state every submodule
    shares, the configuration source with the one synchronous publication of the
    static mode ([load_static] of [graph_mutation/authority.rs]), the listeners
    with their certificates ([DynamicCert] of [proxy/ssl.rs]) and the services
    that are registered.  YAML, the file system, OpenSSL, the TLS settings and the
    Sentry DSN are parameters; an error keeps what it wraps, not its text. *)

From Stdlib Require Import ZArith Lia Ascii.
From stdpp Require Import base tactics gmap fin_maps strings option sorting list.
From S2P Require Import Prelude Errors Status GraphStore Utf8 Hosts Json Config ConfigSet Encryption GraphDecode AdminOps SniMatch RouteBuild ControlPlane TrafficSplit Authority HealthChecks RequestVars Pipeline RouteMatch Settings EtcdStore SyncLoop AdminHttp Logging Runtime Schema.

Open Scope Z_scope.

(** ** The configuration file *)

Record ConfigFile : Type := {
  file_daemon : bool;
  file_pingsix : Pingsix.t;
  file_routes : list Route.t;
  file_upstreams : list Upstream.t;
  file_services : list Service.t;
  file_global_rules : list GlobalRule.t;
  file_ssls : list SSL.t;
}.

(** Of Pingora's own section only the flag that [merge_with_opt] sets is kept. *)
Record Config : Type := { daemon : bool; pingsix : Pingsix.t; resources : ResourceConfigSet }.

Inductive ConfigFileError : Type :=
| NoPath
| Unreadable (path cause : string)
| BadYaml (cause : string)
| BadResources (e : ProxyError)
| Invalid.

Section file.
Context `{UrlParser} `{FileSystem}.
(** [serde_yml::from_str], into the typed file and into a document. *)
Context (yaml_file : string -> Result ConfigFile string) (yaml_json : string -> Result Json string).

(** The configuration and the warnings that are logged. *)
Definition from_yaml (conf_str : string) : Result (Config * list string) ConfigFileError :=
  let? file := map_err BadYaml (yaml_file conf_str) in
  let? resources := map_err BadResources
    (from_yaml_sections (file_routes file) (file_upstreams file) (file_services file) (file_global_rules file) (file_ssls file)) in
  let conf := {| daemon := file_daemon file; pingsix := file_pingsix file; resources := resources |} in
  if Pingsix.validate (pingsix conf) then
    Ok (conf, match yaml_json conf_str with Ok graph => warn_static_resources graph | Err _ => [] end)
  else Err Invalid.

Definition load_from_yaml (path : string) : Result (Config * list string) ConfigFileError :=
  let? conf_str := map_err (Unreadable path) (fs_read path) in from_yaml conf_str.

(** The options of the command line that are read. *)
Record Opt : Type := { conf : option string; opt_daemon : bool }.

Definition merge_with_opt (opt : Opt) (self : Config) : Config :=
  if opt_daemon opt then {| daemon := true; pingsix := pingsix self; resources := resources self |} else self.

Definition load_yaml_with_opt_override (opt : Opt) : Result (Config * list string) ConfigFileError :=
  match conf opt with
  | Some path => let? (c, warnings) := load_from_yaml path in Ok (merge_with_opt opt c, warnings)
  | None => Err NoPath
  end.

(** What start-up is given is valid, section by section, and the command line
    only ever turns the daemon on. *)
Theorem loaded_valid opt c warnings : load_yaml_with_opt_override opt = Ok (c, warnings) ->
  Pingsix.validate (pingsix c) = true /\
  exists file, file_pingsix file = pingsix c /\ (daemon c = true <-> file_daemon file = true \/ opt_daemon opt = true) /\
    from_yaml_sections (file_routes file) (file_upstreams file) (file_services file) (file_global_rules file) (file_ssls file) = Ok (resources c).
Proof.
  unfold load_yaml_with_opt_override. destruct (conf opt) as [path|]; [|done]. intros ([c0 ws] & Hc & [= <- <-])%and_then_ok.
  apply and_then_ok in Hc as (text & _ & Hc). unfold from_yaml in Hc. apply and_then_ok in Hc as (file & _ & Hc). apply and_then_ok in Hc as (set & Hset & Hc).
  cbn [pingsix] in Hc. destruct (Pingsix.validate (file_pingsix file)) eqn:Hv; [|done]. injection Hc as <- _.
  destruct (from_yaml_sections _ _ _ _ _) as [set'|] eqn:Es; [|done]. injection Hset as ->.
  unfold merge_with_opt. destruct (opt_daemon opt); cbn; (split; [done|]); exists file; (split; [done|]); (split; [tauto||naive_solver|done]).
Qed.
End file.

(** ** The static configuration *)

Section static.
Context `{Compiler} `{OpenSsl} `{PathRouter} `{MatchRouter}.
Context (FACTORIES : list FactoryMeta) (PLUGIN_META : list PluginMeta).
Context (health_check_fingerprint : Upstream.t -> Z) (as_split : Body -> option PluginTrafficSplit).
(** Preparing one upstream, and the order in which eight at a time complete. *)
Context (prepare : Upstream.t -> Result Prep ProxyError).
Context (completion : list (UpstreamOccurrence * Upstream.t) -> list (UpstreamOccurrence * Upstream.t)).

(** The map that is collected: of two entries of an occurrence the last. *)
Definition collect_prepared (l : list (UpstreamOccurrence * Prep)) : UpstreamOccurrence -> option Prep :=
  fold_left (fun m op o => if decide (op.1 = o) then Some op.2 else m o) l (fun _ => None).

Definition prepare_candidate (config : ResourceConfigSet) (previous : CandidateSnapshot) : Result (CandidatePlan * (UpstreamOccurrence -> option Prep)) ProxyError :=
  let? plan := CandidatePlan_build PLUGIN_META config previous in
  let? prepared := try_fold (fun done (job : UpstreamOccurrence * Upstream.t) => let? p := prepare job.2 in Ok (done ++ [(job.1, p)])%list) []
    (completion (jobs plan)) in
  Ok (plan, collect_prepared prepared).

(** [runtime] is the verdict of the temporary runtime: its creation, its signal
    handler and the signal itself. *)
Definition load_static (runtime : ProxyResult unit) (now : Instant) (resources : ResourceConfigSet) (self : RuntimeStore) (n : nat)
    : Result (RuntimeStore * nat) (Stop ProxyError) :=
  let? _ := lift_err (validate_runtime_form PLUGIN_META resources) in
  let? _ := lift_err runtime in
  let previous := maps (current self) in
  let? (plan, prepared) := lift_err (prepare_candidate resources previous) in
  let? (candidate, n) := lift_err (build_prepared FACTORIES PLUGIN_META resources plan prepared n) in
  let? snapshot := compile candidate 0 in
  let self := publish health_check_fingerprint as_split now snapshot self in
  Ok ({| current := current self; health_checks := health_checks self; status := mark_ready now Yaml (status self); health_check := health_check self |}, n).

Lemma lift_ok {A} (r : Result A ProxyError) a : lift_err r = Ok a <-> r = Ok a.
Proof. destruct r; cbn; split; congruence. Qed.

(** After a static start the gateway serves exactly the configured
    resources, coherently, each upstream of the snapshot under its own
    health check; it is ready, and stays so however old the load gets. *)
Theorem static_start_serves runtime now resources n self n' : targets_declared FACTORIES (plugin_upstream_refs PLUGIN_META) ->
  load_static runtime now resources RuntimeStore_new n = Ok (self, n') ->
  let c := maps (current self) in
  coherent PLUGIN_META c /\ compiles resources c /\ revision (current self) = 0 /\
  (snapshot_ok as_split c -> store_ok self) /\ (forall now', compute_ready now' (status self) = true).
Proof.
  intros Hdecl Hl. unfold load_static in Hl. apply and_then_ok in Hl as ([] & _ & Hl). apply and_then_ok in Hl as ([] & _ & Hl).
  apply and_then_ok in Hl as ([plan prepared] & Hp%lift_ok & Hl). apply and_then_ok in Hl as ([c n1] & Hb%lift_ok & Hl).
  apply and_then_ok in Hl as (snap & Hs & Hl). injection Hl as <- <-. cbv zeta.
  destruct (compile_maps _ _ _ Hs) as [Hm Hr]. unfold prepare_candidate in Hp. apply and_then_ok in Hp as (plan' & Hplan & Hp).
  apply and_then_ok in Hp as (l & _ & [= -> <-]).
  destruct (compile_sound FACTORIES PLUGIN_META Hdecl _ _ _ _ _ _ _ (empty_coherent _) Hplan Hb) as (C1 & C2). rewrite <-Hm in C1, C2.
  cbn [publish current health_checks health_check status]. split; [exact C1|]. split; [exact C2|]. split; [exact Hr|]. split.
  - intros Hok. destruct (publish_ok _ _ _ new_ok (check_keys_unique health_check_fingerprint as_split _ Hok)) as (P1 & _). exact P1.
  - intros now'. reflexivity.
Qed.
End static.

(** ** The certificates of a listener *)

Section certificates.
Context `{OpenSsl} `{MatchRouter} `{FileSystem}.

(** The certificate that is used when no configured one matches. *)
Definition DynamicCert_new (tls : Tls) : ProxyResult ProxySSL :=
  let? cert_bytes := map_err (fun e => Configuration ("Failed to read TLS certificate file '" +:+ cert_path tls +:+ "': " +:+ e)) (fs_read (cert_path tls)) in
  let? key_bytes := map_err (fun e => Configuration ("Failed to read TLS private key file '" +:+ key_path tls +:+ "': " +:+ e)) (fs_read (key_path tls)) in
  let? cert := map_err (fun e => Configuration ("Failed to convert certificate bytes to UTF-8 string: " +:+ e)) (from_utf8 cert_bytes) in
  let? key := map_err (fun e => Configuration ("Failed to convert private key bytes to UTF-8 string: " +:+ e)) (from_utf8 key_bytes) in
  ProxySSL_try_from {| SSL.id := ""; SSL.cert := cert; SSL.key := key; SSL.snis := [] |}.

Definition DEFAULT_SERVER_NAME : string := "*".

(** [certificate_callback]: the pair it uses, for the name the client sent. *)
Definition certificate_callback (server_name : option string) (ssl_matcher : SniMatch.MatchEntry) (default_cert : ProxySSL)
    : Result ProxySSL (Stop ProxyError) :=
  let? found := match_sni ssl_matcher (default DEFAULT_SERVER_NAME server_name) in
  Ok (default default_cert found).

Lemma try_from_pair v ssl : ProxySSL_try_from v = Ok ssl -> exists pub, public_key (parsed_cert ssl) = Ok pub /\ public_eq pub (parsed_key ssl) = true.
Proof.
  unfold ProxySSL_try_from. intros ([] & _ & Hv)%and_then_ok. apply and_then_ok in Hv as (cert & _ & Hv). apply and_then_ok in Hv as (key & _ & Hv).
  apply and_then_ok in Hv as (pub & Hp & Hv). destruct (public_eq pub key) eqn:E; [|done]. injection Hv as <-. exists pub. split; [|done]. cbn.
  by destruct (public_key cert); [injection Hp as ->|].
Qed.
End certificates.

(** ** The process *)

(** [SslVersion] *)
Inductive TlsVersion : Type := TLS1_2 | TLS1_3.

Section process.
Context `{Compiler} `{OpenSsl} `{PathRouter} `{MatchRouter} `{FileSystem} `{CipherSuite}.
Context (FACTORIES : list FactoryMeta) (PLUGIN_META : list PluginMeta).
Context (health_check_fingerprint : Upstream.t -> Z) (as_split : Body -> option PluginTrafficSplit).
Context (prepare : Upstream.t -> Result Prep ProxyError).
Context (completion : list (UpstreamOccurrence * Upstream.t) -> list (UpstreamOccurrence * Upstream.t)).
(** The resolver, the Sentry DSN ([None] for an empty one), and the calls that
    make TLS settings. *)
Context (build_resolver : ProxyResult unit) (Dsn : Type) (into_dsn : string -> Result (option Dsn) string).
Context (with_callbacks set_min_proto_version set_max_proto_version : Result unit string).

(** *** Shared state *)

(** The status store and the health checks belong to the runtime store, which
    every submodule is handed. *)
Record GatewayState : Type := {
  state_runtime : RuntimeStore;
  state_defaults : EffectiveDefaults.t;
  state_keyring : KeyringService;
  cache_memory : Z;
}.

Inductive StartError : Type :=
| KeyringRejected (e : ProxyError)
| ResolverFailed (e : ProxyError)
| StaticRejected (e : ProxyError)
| AdminUnsafe
| BadCertificate (e : ProxyError)
| TlsFailed (e : string).

Definition GatewayState_build (config : Config) : Result GatewayState (Stop StartError) :=
  let defaults := EffectiveDefaults.from_pingsix (pingsix config) in
  let '(enable, keyring) := match Pingsix.data_encryption (pingsix config) with
                            | Some c => (DataEncryption.enable c, DataEncryption.keyring c)
                            | None => (false, [])
                            end in
  let? keyring := map_raise KeyringRejected (KeyringService_new enable keyring) in
  let? _ := map_err (fun e => Raise (ResolverFailed e)) build_resolver in
  Ok {| state_runtime := RuntimeStore_new; state_defaults := defaults; state_keyring := keyring;
        cache_memory := CacheDefaults.max_memory_bytes (EffectiveDefaults.cache defaults) |}.

(** [installed]: a logger of this process has been set.  The first call wins. *)
Definition init_logger (config : Config) (installed : bool) : option Logger * bool :=
  match Pingsix.log (pingsix config) with
  | Some log_cfg => if installed then (None, true) else (Some (Logger_new log_cfg), true)
  | None => (None, true)
  end.

(** *** Where the configuration comes from *)

(** The graph and its store; the static one has nothing but its publication. *)
Inductive ConfigurationGraph : Type := EtcdGraph (store : EtcdGraphStore) (graph : Inner) | StaticGraph.

Definition init_config_source (signal : ProxyResult unit) (now : Instant) (config : Config) (state : GatewayState) (n : nat)
    : Result (option EtcdConfigSync * ConfigurationGraph * GatewayState) (Stop StartError) :=
  match Pingsix.etcd (pingsix config) with
  | Some etcd_cfg =>
    Ok (Some (EtcdConfigSync_new (Etcd.prefix etcd_cfg) Inner_new), EtcdGraph (EtcdGraphStore_new etcd_cfg) Inner_new, state)
  | None =>
    let? (runtime, _) := map_raise StaticRejected
      (load_static FACTORIES PLUGIN_META health_check_fingerprint as_split prepare completion signal now (resources config) (state_runtime state) n) in
    Ok (None, StaticGraph,
      {| state_runtime := runtime; state_defaults := state_defaults state; state_keyring := state_keyring state; cache_memory := cache_memory state |})
  end.

(** *** Listeners *)

Record TlsListener : Type := { default_cert : ProxySSL; min_version : TlsVersion; max_version : TlsVersion; h2 : bool }.
Record Bound : Type := { bound_address : SocketAddr; bound_tls : option TlsListener }.
(** [server_options] is the service's, shared by its listeners. *)
Record ProxyListeners : Type := { bound : list Bound; h2c : bool }.

Definition add_listener (service : ProxyListeners) (list_cfg : Listener.t) : Result ProxyListeners StartError :=
  match Listener.tls list_cfg with
  | Some tls =>
    let? dynamic_cert := map_err BadCertificate (DynamicCert_new tls) in
    let? _ := map_err TlsFailed with_callbacks in
    let? _ := map_err TlsFailed set_min_proto_version in
    let? _ := map_err TlsFailed set_max_proto_version in
    Ok {| bound := (bound service ++ [{| bound_address := Listener.address list_cfg;
            bound_tls := Some {| default_cert := dynamic_cert; min_version := TLS1_2; max_version := TLS1_3; h2 := Listener.offer_h2 list_cfg |} |}])%list;
          h2c := h2c service |}
  | None =>
    Ok {| bound := (bound service ++ [{| bound_address := Listener.address list_cfg; bound_tls := None |}])%list;
          h2c := Listener.offer_h2c list_cfg || h2c service |}
  end.

Definition build_proxy_service (cfg : Pingsix.t) : Result ProxyListeners StartError :=
  try_fold add_listener {| bound := []; h2c := false |} (Pingsix.listeners cfg).

(** *** Services *)

Inductive ServiceEntry : Type :=
| LogService (logger : Logger)
| EtcdSyncService (sync : EtcdConfigSync)
| HealthCheckService
| GraphShutdownService
| AdminService (app : AdminHttpApp)
| StatusService (cfg : StatusSettings.t)
| PrometheusService (address : SocketAddr)
| ProxyListenersService (listeners : ProxyListeners).

Record Server : Type := { registered : list ServiceEntry; sentry_dsn : option Dsn }.
Definition add_service (s : ServiceEntry) (server : Server) : Server := {| registered := (registered server ++ [s])%list; sentry_dsn := sentry_dsn server |}.

Definition is_example_sentry_dsn (dsn : string) : bool := contains_str "examplePublicKey" dsn || contains_str "o0.ingest.sentry.io/0" dsn.

Definition configure_sentry (cfg : Pingsix.t) (server : Server) : Server :=
  match Pingsix.sentry cfg with
  | Some dsn =>
    if is_example_sentry_dsn dsn then server
    else match into_dsn dsn with Ok (Some d) => {| registered := registered server; sentry_dsn := Some d |} | _ => server end
  | None => server
  end.

Definition configure_admin (cfg : Pingsix.t) (server : Server) : Result Server StartError :=
  match Pingsix.admin cfg, Pingsix.etcd cfg with
  | Some admin_cfg, Some _ =>
    if Admin.validate_bind_safety admin_cfg then
      Ok (match admin_http_service cfg with Some app => add_service (AdminService app) server | None => server end)
    else Err AdminUnsafe
  | _, _ => Ok server
  end.

Definition configure_status (cfg : Pingsix.t) (store : RuntimeStore) : RuntimeStore :=
  match Pingsix.status cfg with
  | Some status_cfg =>
    {| current := current store; health_checks := health_checks store; health_check := health_check store;
       status := configure_policy (default 300 (StatusSettings.config_stale_after status_cfg)) (StatusSettings.fail_readiness_when_stale status_cfg) (status store) |}
  | None => store
  end.

(** There is a graph in both modes. *)
Definition add_optional_services (cfg : Pingsix.t) (server : Server) (store : RuntimeStore) : Result (Server * RuntimeStore) StartError :=
  let server := configure_sentry cfg server in
  let? server := configure_admin cfg server in
  let server := match Pingsix.status cfg with Some status_cfg => add_service (StatusService status_cfg) server | None => server end in
  let store := configure_status cfg store in
  Ok (match Pingsix.prometheus cfg with Some address => add_service (PrometheusService address) server | None => server end, store).

(** *** [GatewayRuntime] *)

Record GatewayRuntime : Type := { server : Server; http_service : ProxyListeners; gateway_state : GatewayState; config_graph : ConfigurationGraph }.

Definition optional (s : option ServiceEntry) (server : Server) : Server := match s with Some s => add_service s server | None => server end.

(** The process-wide flag is set even when the rest of the build fails. *)
Definition GatewayRuntime_build (signal : ProxyResult unit) (now : Instant) (config : Config) (installed : bool) (n : nat)
    : Result GatewayRuntime (Stop StartError) * bool :=
  let '(logger, installed) := init_logger config installed in
  (let? state := GatewayState_build config in
   let? (etcd_sync, graph, state) := init_config_source signal now config state n in
   let server := {| registered := []; sentry_dsn := None |} in
   let server := optional (LogService <$> logger) server in
   let server := optional (EtcdSyncService <$> etcd_sync) server in
   let server := add_service HealthCheckService server in
   let server := add_service GraphShutdownService server in
   let? (server, store) := map_err Raise (add_optional_services (pingsix config) server (state_runtime state)) in
   let? http_service := map_err Raise (build_proxy_service (pingsix config)) in
   Ok {| server := server; http_service := http_service; config_graph := graph;
         gateway_state := {| state_runtime := store; state_defaults := state_defaults state; state_keyring := state_keyring state; cache_memory := cache_memory state |} |},
   installed).

(** [run]: what is served once the server is bootstrapped. *)
Definition run_services (self : GatewayRuntime) : list ServiceEntry := (registered (server self) ++ [ProxyListenersService (http_service self)])%list.

(** *** What is started *)

Lemma build_ok signal now config installed n gw installed' : GatewayRuntime_build signal now config installed n = (Ok gw, installed') ->
  exists state sync state' store, GatewayState_build config = Ok state /\
    init_config_source signal now config state n = Ok (sync, config_graph gw, state') /\
    add_optional_services (pingsix config)
      (add_service GraphShutdownService (add_service HealthCheckService (optional (EtcdSyncService <$> sync) (optional (LogService <$> (init_logger config installed).1)
        {| registered := []; sentry_dsn := None |})))) (state_runtime state') = Ok (server gw, store) /\
    build_proxy_service (pingsix config) = Ok (http_service gw) /\ state_runtime (gateway_state gw) = store /\ state_keyring (gateway_state gw) = state_keyring state'.
Proof.
  unfold GatewayRuntime_build. destruct (init_logger config installed) as [logger inst]. intros [= Hb _]. apply and_then_ok in Hb as (state & Hs & Hb).
  apply and_then_ok in Hb as ([[sync graph] state'] & Hc & Hb). apply and_then_ok in Hb as ([srv store] & Ho & Hb). apply and_then_ok in Hb as (ls & Hl & [= <-]).
  exists state, sync, state', store. split; [done|]. split; [done|]. cbn [server http_service gateway_state state_runtime state_keyring fst].
  destruct (add_optional_services _ _ _) as [x|]; [|done]. destruct (build_proxy_service _) as [y|]; [|done]. cbn in Ho, Hl. by simplify_eq.
Qed.

Lemma elem_add x s srv : x ∈ registered (add_service s srv) <-> x ∈ registered srv \/ x = s.
Proof. cbn. rewrite elem_of_app, list_elem_of_singleton. done. Qed.
Lemma elem_optional x s srv : x ∈ registered (optional s srv) <-> x ∈ registered srv \/ s = Some x.
Proof. destruct s as [s|]; cbn [optional]; [rewrite elem_add; naive_solver|naive_solver]. Qed.
Lemma sentry_registers_nothing cfg srv : registered (configure_sentry cfg srv) = registered srv.
Proof. unfold configure_sentry. destruct (Pingsix.sentry cfg) as [dsn|]; [|done]. destruct (is_example_sentry_dsn dsn); [done|]. by destruct (into_dsn dsn) as [[d|]|]. Qed.

Lemma admin_registered cfg srv srv' : configure_admin cfg srv = Ok srv' ->
  forall x, x ∈ registered srv' <-> x ∈ registered srv \/
    exists app admin, x = AdminService app /\ is_Some (Pingsix.etcd cfg) /\ Pingsix.admin cfg = Some admin /\ Admin.validate_bind_safety admin = true /\
      admin_http_service cfg = Some app.
Proof.
  unfold configure_admin. destruct (Pingsix.admin cfg) as [admin|] eqn:Ea; [|intros [= <-]; naive_solver].
  destruct (Pingsix.etcd cfg) as [etcd|] eqn:Ee; [|intros [= <-] x; split; [auto|intros [?|(? & ? & _ & [? [=]] & _)]; done]].
  destruct (Admin.validate_bind_safety admin) eqn:Es; [|done]. intros [= <-] x. destruct (admin_http_service cfg) as [app|] eqn:Eapp; [rewrite elem_add|naive_solver].
  split; [intros [? | ->]; [by left|]|naive_solver]. right. by exists app, admin.
Qed.

(** The Admin API is served exactly when it and etcd are configured, by the
    configured application, and never beyond the loopback without the explicit
    permission: with etcd and an unsafe Admin address nothing starts. *)
Theorem admin_exposure signal now config installed n gw installed' app : GatewayRuntime_build signal now config installed n = (Ok gw, installed') ->
  AdminService app ∈ run_services gw <->
  exists admin, Pingsix.admin (pingsix config) = Some admin /\ is_Some (Pingsix.etcd (pingsix config)) /\ admin_http_service (pingsix config) = Some app /\
    (is_loopback (sa_ip (Admin.address admin)) = true \/ Admin.allow_insecure_remote admin = true).
Proof.
  intros (state & sync & state' & store & _ & _ & Ho & _)%build_ok. unfold run_services. rewrite elem_of_app, list_elem_of_singleton.
  unfold add_optional_services in Ho. apply and_then_ok in Ho as (srv & Ha & [= Hsrv _]).
  assert (Hreg : AdminService app ∈ registered (server gw) <-> AdminService app ∈ registered srv).
  { rewrite <-Hsrv. destruct (Pingsix.prometheus _); [rewrite elem_add|]; (destruct (Pingsix.status _); [rewrite elem_add|]); naive_solver. }
  rewrite Hreg, (admin_registered _ _ _ Ha), sentry_registers_nothing, !elem_add, !elem_optional. cbn [registered]. unfold Admin.validate_bind_safety. setoid_rewrite orb_true_iff.
  split.
  - intros [[[[[[?%not_elem_of_nil|Hx]|Hx]|[=]]|[=]]|(app' & admin & [= <-] & He & Had & Hs & Happ)]|[=]]; [done| | |by exists admin];
      [by destruct (init_logger config installed).1|by destruct sync].
  - intros (admin & Had & He & Happ & Hs). left. right. by exists app, admin.
Qed.

(** What is bound for one configured listener. *)
Definition bound_as (l : Listener.t) (b : Bound) : Prop :=
  bound_address b = Listener.address l /\
  match Listener.tls l, bound_tls b with
  | Some tls, Some t => min_version t = TLS1_2 /\ max_version t = TLS1_3 /\ h2 t = Listener.offer_h2 l /\ DynamicCert_new tls = Ok (default_cert t) /\
      exists pub, public_key (parsed_cert (default_cert t)) = Ok pub /\ public_eq pub (parsed_key (default_cert t)) = true
  | None, None => True
  | _, _ => False
  end.

Lemma add_listener_ok s l s' : add_listener s l = Ok s' ->
  (exists b, bound s' = (bound s ++ [b])%list /\ bound_as l b) /\ h2c s' = h2c s || (bool_decide (Listener.tls l = None) && Listener.offer_h2c l).
Proof.
  unfold add_listener, bound_as. destruct (Listener.tls l) as [tls|] eqn:El.
  - intros (cert & Hc & G1)%and_then_ok. apply and_then_ok in G1 as ([] & _ & G1). apply and_then_ok in G1 as ([] & _ & G1). apply and_then_ok in G1 as ([] & _ & [= <-]).
    cbn [bound h2c]. split; [|by rewrite bool_decide_false, orb_false_r]. eexists. split; [reflexivity|]. cbn.
    destruct (DynamicCert_new tls) as [c|] eqn:Ec; [|done]. injection Hc as ->. repeat (split; [done|]).
    unfold DynamicCert_new in Ec. apply and_then_ok in Ec as (? & _ & Ec). apply and_then_ok in Ec as (? & _ & Ec). apply and_then_ok in Ec as (? & _ & Ec).
    apply and_then_ok in Ec as (? & _ & Ec). by apply try_from_pair in Ec.
  - intros [= <-]. cbn [bound h2c]. split; [|rewrite bool_decide_true by done; apply orb_comm]. eexists. by split.
Qed.

(** Every configured listener is bound once, in order and on its own address;
    TLS is offered where it is configured, never below 1.2, with a certificate
    that fits its key.  HTTP/2 without TLS is the whole service's: one cleartext
    listener that offers it turns it on for all. *)
Theorem listeners_bound cfg s : build_proxy_service cfg = Ok s ->
  Forall2 bound_as (Pingsix.listeners cfg) (bound s) /\
  h2c s = existsb (fun l => bool_decide (Listener.tls l = None) && Listener.offer_h2c l) (Pingsix.listeners cfg).
Proof.
  unfold build_proxy_service.
  enough (H9 : forall ls s0, try_fold add_listener s0 ls = Ok s -> exists bs, bound s = (bound s0 ++ bs)%list /\ Forall2 bound_as ls bs /\
    h2c s = h2c s0 || existsb (fun l => bool_decide (Listener.tls l = None) && Listener.offer_h2c l) ls).
  { intros (bs & Hb & Hf & Hh)%H9. cbn in Hb, Hh. by subst. }
  induction ls as [|l ls IH]; intros s0; cbn [try_fold existsb].
  - intros [= <-]. exists []. rewrite app_nil_r, orb_false_r. by split; [|split; [constructor|]].
  - intros (s1 & [(b & Hb & Ha) Hh]%add_listener_ok & (bs & Hbs & Hf & Hh')%IH)%and_then_ok. exists (b :: bs).
    rewrite Hbs, Hb, <-app_assoc, Hh', Hh, orb_assoc. by split; [|split; [constructor|]].
Qed.

(** A started gateway is ready at once, and for good, from a static file; with
    etcd it is not ready before a configuration has been published. *)
Theorem readiness_at_start signal now config installed n gw installed' now' : GatewayRuntime_build signal now config installed n = (Ok gw, installed') ->
  compute_ready now' (status (state_runtime (gateway_state gw))) = bool_decide (Pingsix.etcd (pingsix config) = None).
Proof.
  intros (state & sync & state' & store & Hs & Hc & Ho & _ & -> & _)%build_ok. unfold add_optional_services in Ho. apply and_then_ok in Ho as (srv & _ & [= _ <-]).
  assert (G0 : state_runtime state = RuntimeStore_new).
  { unfold GatewayState_build in Hs. destruct (match Pingsix.data_encryption _ with Some _ => _ | None => _ end) as [e k]. apply and_then_ok in Hs as (kr & _ & Hs).
    by apply and_then_ok in Hs as ([] & _ & [= <-]). }
  assert (Hcfg : compute_ready now' (status (configure_status (pingsix config) (state_runtime state'))) = bool_decide (Pingsix.etcd (pingsix config) = None)); [|done].
  unfold init_config_source in Hc. destruct (Pingsix.etcd (pingsix config)) as [etcd|].
  - injection Hc as _ _ <-. rewrite G0, bool_decide_false by done. unfold configure_status. by destruct (Pingsix.status _).
  - apply and_then_ok in Hc as ([rt n1] & Hl & [= _ _ <-]). rewrite bool_decide_true by done. cbn [state_runtime]. destruct (load_static _ _ _ _ _ _ _ _ _ _ _) as [[rt' n2]|] eqn:El; [|done].
    cbn in Hl. injection Hl as <- <-. rewrite G0 in El. unfold load_static in El. apply and_then_ok in El as ([] & _ & El). apply and_then_ok in El as ([] & _ & El).
    apply and_then_ok in El as ([plan prepared] & _ & El). apply and_then_ok in El as ([c n3] & _ & El). apply and_then_ok in El as (snap & _ & [= <- _]).
    unfold configure_status. by destruct (Pingsix.status _) as [st|]; [destruct (StatusSettings.fail_readiness_when_stale st)|].
Qed.

(** Secrets are encrypted exactly when the configuration enables it; a keyring
    that cannot be used stops the start. *)
Theorem encryption_as_configured signal now config installed n gw installed' : GatewayRuntime_build signal now config installed n = (Ok gw, installed') ->
  keyring_is_enabled (state_keyring (gateway_state gw)) = true <-> exists c, Pingsix.data_encryption (pingsix config) = Some c /\ DataEncryption.enable c = true.
Proof.
  intros (state & sync & state' & store & Hs & Hc & _ & _ & _ & ->)%build_ok.
  assert (state_keyring state' = state_keyring state) as ->.
  { unfold init_config_source in Hc. destruct (Pingsix.etcd _); [by injection Hc as _ _ <-|]. by apply and_then_ok in Hc as ([rt n1] & _ & [= _ _ <-]). }
  unfold GatewayState_build in Hs. destruct (Pingsix.data_encryption (pingsix config)) as [[enable keys]|]; cbn [DataEncryption.enable DataEncryption.keyring] in Hs;
    (apply and_then_ok in Hs as (kr & Hk & Hs); apply and_then_ok in Hs as ([] & _ & [= <-]); cbn [state_keyring]; unfold KeyringService_new in Hk).
  - destruct enable; cbn in Hk.
    + destruct (from_secrets keys); [|done]. injection Hk as <-. split; [by eexists|done].
    + injection Hk as <-. split; [done|]. by intros (c & [= <-] & [=]).
  - injection Hk as <-. split; [done|]. by intros (c & [=] & _).
Qed.

(** However many gateways one process builds, at most one logger is started:
    the first that asks, and none once any logger is installed. *)
Definition init_loggers (configs : list Config) (installed : bool) : list Logger * bool :=
  fold_left (fun st config => let '(l, installed) := init_logger config st.2 in ((st.1 ++ option_list l)%list, installed)) configs ([], installed).

Theorem first_logger_wins configs installed : (length (init_loggers configs installed).1 <= 1)%nat /\ (installed = true -> (init_loggers configs installed).1 = []).
Proof.
  enough (H9 : forall st : list Logger * bool, st.2 = true -> (fold_left (fun st config => let '(l, installed) := init_logger config st.2 in ((st.1 ++ option_list l)%list, installed)) configs st).1 = st.1).
  { unfold init_loggers. destruct installed; [rewrite H9 by done; cbn; split; [lia|done]|]. split; [|done]. destruct configs as [|c cs]; [cbn; lia|]. cbn [fold_left snd]. clear H9.
    assert (H9 : forall st : list Logger * bool, st.2 = true -> (fold_left (fun st config => let '(l, installed) := init_logger config st.2 in ((st.1 ++ option_list l)%list, installed)) cs st).1 = st.1).
    { clear. induction cs as [|c' cs IH]; intros st Hst; [done|]. cbn [fold_left]. unfold init_logger at 2. rewrite Hst. destruct (Pingsix.log _); rewrite IH by done; cbn; by rewrite app_nil_r. }
    unfold init_logger at 2. destruct (Pingsix.log _); rewrite H9 by done; cbn; lia. }
  induction configs as [|c' cs IH]; intros st Hst; [done|]. cbn [fold_left]. unfold init_logger at 2. rewrite Hst. destruct (Pingsix.log _); rewrite IH by done; cbn; by rewrite app_nil_r.
Qed.
End process.

(** Before the first publication every client gets its listener's own
    certificate, whatever name it sends and whether it sends one. *)
Theorem own_certificate_at_start `{OpenSsl} `{MatchRouterLaws} server_name cert : certificate_callback server_name MatchEntry_default cert = Ok cert.
Proof.
  unfold certificate_callback, match_sni. cbn [MatchEntry_default snis wildcards catch_all first_wildcard]. rewrite (SniMatch.holds_at _ ∅ _ SniMatch.holds_new). done.
Qed.

Example placeholder_dsn : is_example_sentry_dsn "https://examplePublicKey@o0.ingest.sentry.io/0" = true /\ is_example_sentry_dsn "https://real@o1.ingest.sentry.io/1" = false.
Proof. vm_compute. split; reflexivity. Qed.
