(* ===== verification/HealthTasks.v ===== *)
(** * Ending health-check tasks ([src/src/proxy/upstream/health_check.rs])

    How the executor ends its tasks: one that was replaced, within two seconds,
    and all of them at shutdown, within five seconds together; and the restoring
    of a displaced registration.  When a task ends by itself is an argument, and
    the choice of [select!] between two ready branches a boolean; an aborted task
    ends at once. *)

From Stdlib Require Import ZArith Lia.
From stdpp Require Import base tactics gmap fin_maps strings option sets list.
From S2P Require Import Prelude HealthChecks.

Open Scope Z_scope.

(** ** Waiting for a task *)

(** [None]: a task that does not end by itself. *)
Record RunningHealthCheck : Type := { task_key : string * Z; ends : option Instant; tie : bool }.

Inductive Ending : Type := Cleanly | AbortedAfterGrace.

(** The [select!] of the task's handle and the grace period, from [now]. *)
Definition await_task (deadline now : Instant) (task : RunningHealthCheck) : Ending * Instant :=
  let graced := Z.max now deadline in
  match ends task with
  | Some e =>
    let ended := Z.max now e in
    if ended <? graced then (Cleanly, ended)
    else if graced <? ended then (AbortedAfterGrace, graced)
    else if tie task then (Cleanly, ended) else (AbortedAfterGrace, graced)
  | None => (AbortedAfterGrace, graced)
  end.

Definition stop_task (now : Instant) (task : RunningHealthCheck) : Ending * Instant := await_task (now + from_secs 2) now task.

(** One grace period for all the tasks, awaited in turn. *)
Fixpoint stop_each (deadline now : Instant) (tasks : list RunningHealthCheck) : list ((string * Z) * Ending) * Instant :=
  match tasks with
  | [] => ([], now)
  | t :: tasks =>
    let '(e, now) := await_task deadline now t in
    let '(rest, now) := stop_each deadline now tasks in
    ((task_key t, e) :: rest, now)
  end.
Definition stop_all_tasks (now : Instant) (tasks : list RunningHealthCheck) : list ((string * Z) * Ending) * Instant :=
  stop_each (now + from_secs 5) now tasks.

Lemma await_bounds deadline now task : now <= deadline -> let r := await_task deadline now task in now <= r.2 <= deadline.
Proof.
  intros Hd. cbv zeta. unfold await_task. destruct (ends task) as [e|]; cbn; [|lia].
  destruct (_ <? _) eqn:E1; cbn; [lia|]. destruct (Z.max now deadline <? _) eqn:E2; cbn; [lia|]. destruct (tie task); cbn; lia.
Qed.

Lemma stop_each_ok deadline tasks : forall now, now <= deadline -> let r := stop_each deadline now tasks in
  now <= r.2 <= deadline /\ r.1.*1 = task_key <$> tasks /\
  forall i t, tasks !! i = Some t -> (forall e, ends t = Some e -> deadline < e) -> r.1 !! i = Some (task_key t, AbortedAfterGrace).
Proof.
  induction tasks as [|t tasks IH]; intros now Hd; cbn [stop_each]; [split; [cbn; lia|done]|].
  pose proof (await_bounds deadline now t Hd) as Hb. destruct (await_task deadline now t) as [e now1] eqn:Ea. cbn [fst snd] in Hb.
  specialize (IH now1 ltac:(lia)). destruct (stop_each deadline now1 tasks) as [rest now2]. cbn [fst snd] in *. destruct IH as (I1 & I2 & I3).
  split; [lia|]. split; [by rewrite fmap_cons, I2|]. intros [|i] t' Ht; [|by apply I3]. injection Ht as <-. unfold await_task in Ea. cbn [lookup list_lookup].
  intros Hx. destruct (ends t) as [x|]; [|by injection Ea as <- <-]. specialize (Hx x eq_refl). rewrite (proj2 (Z.ltb_ge _ _)), (proj2 (Z.ltb_lt _ _)) in Ea by lia. by injection Ea as <- <-.
Qed.

Lemma stop_each_clean deadline tasks : Forall (fun t => exists e, ends t = Some e /\ e < deadline) tasks -> forall now, now < deadline ->
  Forall (fun r => r.2 = Cleanly) (stop_each deadline now tasks).1.
Proof.
  induction 1 as [|t tasks (e & He & Hlt) _ IH]; intros now Hd; cbn [stop_each]; [constructor|].
  unfold await_task. rewrite He, (proj2 (Z.ltb_lt _ _)) by lia. specialize (IH (Z.max now e) ltac:(lia)). destruct (stop_each deadline (Z.max now e) tasks). by constructor.
Qed.

(** A shutdown takes five seconds at most, however many tasks there are and
    whether or not they end: each is awaited, one that would outlive the grace is
    aborted, and where all end in time none is. *)
Theorem shutdown_bounded now tasks : let r := stop_all_tasks now tasks in
  now <= r.2 <= now + from_secs 5 /\ r.1.*1 = task_key <$> tasks /\
  (forall i t, tasks !! i = Some t -> (forall e, ends t = Some e -> now + from_secs 5 < e) -> r.1 !! i = Some (task_key t, AbortedAfterGrace)) /\
  (Forall (fun t => exists e, ends t = Some e /\ e < now + from_secs 5) tasks -> Forall (fun r => r.2 = Cleanly) r.1).
Proof.
  cbv zeta. unfold stop_all_tasks. assert (0 < from_secs 5) by (unfold from_secs, nanos_per_sec; lia).
  destruct (stop_each_ok (now + from_secs 5) tasks now) as (B1 & B2 & B3); [lia|]. split; [exact B1|]. split; [exact B2|]. split; [exact B3|].
  intros Ht. by apply stop_each_clean; [|lia].
Qed.

(** A task whose handle is polled together with an elapsed grace may be reported
    late although it ended long before. *)
Example reported_late : stop_all_tasks 0 [{| task_key := ("a", 1); ends := None; tie := false |}; {| task_key := ("b", 2); ends := Some 1; tie := false |}] =
  ([(("a", 1), AbortedAfterGrace); (("b", 2), AbortedAfterGrace)], from_secs 5).
Proof. reflexivity. Qed.

(** ** Restoring a displaced registration *)

Definition restore (d : DisplacedHealthCheck) (r : HealthCheckRegistry) : HealthCheckRegistry :=
  r <| upstreams := <[d_id d := d_registered d]> (upstreams r) |> <| sent := (sent r ++ [Added (d_id d) (generation (d_registered d))])%list |>.

(** Registering a replacement, taking it back and restoring what it displaced
    leaves the registry's checks as they were; only the replacement is stopped,
    and the executor is told to run the old one again. *)
Theorem restore_undoes i service r old : upstreams r !! i = Some old -> generation old <> next_generation r ->
  let '((registration, displaced), r1) := register_upstream i service r in
  let '(removed, r2) := unregister_upstream i registration r1 in
  exists d, displaced = Some d /\ removed = true /\ upstreams (restore d r2) = upstreams r /\ stopped (restore d r2) = {[ registration ]} ∪ stopped r /\
    sent (restore d r2) = (sent r ++ [Added i registration; Removed i registration; Added i (generation old)])%list.
Proof.
  intros Ho Hg. cbn. rewrite Ho. cbn. unfold unregister_upstream. cbn [upstreams update_field]. rewrite lookup_insert_eq. cbn [fmap option_fmap option_map generation].
  rewrite bool_decide_true by done. eexists. split; [reflexivity|]. split; [done|]. unfold restore, stop. cbn. split; [|split; [done|by rewrite <-!app_assoc]].
  apply map_eq. intros j. destruct (decide (i = j)) as [<-|Hj]; [by rewrite lookup_insert_eq|]. by rewrite lookup_insert_ne, lookup_delete_ne, lookup_insert_ne.
Qed.

Lemma restore_undoes_witness : exists d,
  (register_upstream "u" 2 (register_upstream "u" 1 registry_new).2).1 = (2, Some d) /\
  upstreams (restore d (unregister_upstream "u" 2 (register_upstream "u" 2 (register_upstream "u" 1 registry_new).2).2).2) = upstreams (register_upstream "u" 1 registry_new).2.
Proof.
  pose proof (restore_undoes "u" 2 (register_upstream "u" 1 registry_new).2 {| generation := 1; load_balancer := 1 |} eq_refl ltac:(discriminate)) as H9.
  destruct (register_upstream "u" 2 _) as [[g dis] r1] eqn:E1. destruct (unregister_upstream "u" g r1) as [b r2] eqn:E2. destruct H9 as (d & -> & _ & H9 & _).
  assert (g = 2) as -> by (unfold register_upstream in E1; injection E1 as <- _ _; reflexivity). exists d. split; [done|]. cbn [snd]. by rewrite E2.
Defined.
