(* ===== verification/RequestContext.v ===== *)
(** * The request context and the keys plugins store under it
    ([src/src/core/plugin/pipeline.rs], [src/src/plugins/ctx_keys.rs])

    The typed variables of a request, the keys that keep two instances of a
    plugin apart, and what happens to a plugin that does without such a key: the
    mirroring plugin attached to a global rule and to the route of one request. *)

From Stdlib Require Import ZArith Lia Ascii.
From stdpp Require Import base tactics gmap strings pretty option list.
From S2P Require Import Prelude Errors GraphStore Utf8 Hosts Json Config RequestVars FileLogger SniMatch Cache ProxyMirror MirrorTasks.

Open Scope Z_scope.

(** ** Variables

    [Box<dyn Any>]: the types the core itself asks for, and any other with an
    identifier of its type. *)
Inductive AnyValue : Type := AnyString (s : string) | AnyBool (b : bool) | AnySender (task : nat) | AnyOther (type_id value : nat).
#[export] Instance AnyValue_eq_dec : EqDecision AnyValue.
Proof. solve_decision. Defined.

(** [None] until the first [set]. *)
Definition Vars : Type := option (gmap string AnyValue).

Definition ctx_set (key : string) (value : AnyValue) (vars : Vars) : Vars := Some (<[key := value]> (default ∅ vars)).
Definition ctx_any (key : string) (vars : Vars) : option AnyValue := vars ≫= fun m => m !! key.

(** [get::<T>]: a value of another type is not found. *)
Definition get_str (key : string) (vars : Vars) : option string := ctx_any key vars ≫= fun v => match v with AnyString s => Some s | _ => None end.
Definition get_bool (key : string) (vars : Vars) : option bool := ctx_any key vars ≫= fun v => match v with AnyBool b => Some b | _ => None end.
Definition get_sender (key : string) (vars : Vars) : option nat := ctx_any key vars ≫= fun v => match v with AnySender i => Some i | _ => None end.

Definition REQUEST_BODY_REPLACED_KEY : string := "core::request_body_replaced".
Definition mark_request_body_replaced (vars : Vars) : Vars := ctx_set REQUEST_BODY_REPLACED_KEY (AnyBool true) vars.
Definition request_body_replaced (vars : Vars) : bool := default false (get_bool REQUEST_BODY_REPLACED_KEY vars).

Lemma ctx_any_set key key' value vars : ctx_any key' (ctx_set key value vars) = if decide (key = key') then Some value else ctx_any key' vars.
Proof.
  unfold ctx_any, ctx_set. cbn. rewrite lookup_insert. case_decide; [done|]. destruct vars; [done|exact (lookup_empty key')].
Qed.

(** Once marked, a body stays marked whatever else is stored under other keys;
    and nothing else marks it. *)
Theorem marker_stays (sets : list (string * AnyValue)) vars : Forall (fun kv => kv.1 <> REQUEST_BODY_REPLACED_KEY) sets ->
  let after v := fold_left (fun v kv => ctx_set kv.1 kv.2 v) sets v in
  request_body_replaced (after (mark_request_body_replaced vars)) = true /\ request_body_replaced (after vars) = request_body_replaced vars.
Proof.
  intros Hs. cbv zeta. assert (H9 : forall v, request_body_replaced (fold_left (fun v kv => ctx_set kv.1 kv.2 v) sets v) = request_body_replaced v).
  { induction Hs as [|[k x] sets Hk _ IH]; intros v; [done|]. cbn [fold_left]. rewrite IH. unfold request_body_replaced, get_bool. rewrite ctx_any_set, decide_False by done. done. }
  rewrite !H9. split; [|done]. unfold request_body_replaced, get_bool, mark_request_body_replaced. by rewrite ctx_any_set, decide_True.
Qed.

(** ** Keys of instances *)

(** The prefixes plugins mint keys from. *)
Definition key_prefixes : list string :=
  ["pingsix_rate_limit_quota_"; "pingsix_limit_conn_guard_"; "pingsix_echo_skip_body_"; "pingsix_echo_before_emitted_"; "pingsix_proxy_cache_no_cache_";
   "pingsix_response_rewrite_matched_"; "pingsix_response_rewrite_body_buffer_"; "pingsix_response_rewrite_body_too_large_"; "pingsix_response_rewrite_skip_body_";
   "pingsix_grpc_web_body_bytes_"; "pingsix_grpc_web_request_"; "pingsix_grpc_web_request_text_"; "pingsix_file_logger_request_body_"; "pingsix_file_logger_response_body_"].
(** The keys that are not minted: one slot per request. *)
Definition CTX_KEY_MIRROR : string := "pingsix_proxy_mirror".
Definition CTX_KEY_MIRROR_SENDER : string := "pingsix_proxy_mirror_sender".
Definition fixed_keys : list string :=
  [REQUEST_BODY_REPLACED_KEY; CTX_KEY_MIRROR; CTX_KEY_MIRROR_SENDER; "pingsix_cache_settings"; "pingsix_request_validation_body"; "jwt-auth-payload"; "jwt_auth_clear_cookie"; "ai_proxy::state"].

Lemma pretty_digits z : 0 <= z -> str_forall is_ascii_digit (pretty z) = true.
Proof. intros Hz. destruct z as [|p|p]; [done| |lia]. exact (proj1 (pretty_N_go_digits (N.pos p) "")). Qed.

Lemma cancel_right a b x : a +:+ x = b +:+ x -> a = b.
Proof. intros E. assert (Hl : String.length a = String.length b) by (apply (f_equal String.length) in E; rewrite !length_app_str in E; lia). by apply (str_app_length_inj a b x x). Qed.

(** A prefix that ends in an underscore and a number are read apart. *)
Lemma key_inj stem stem' i j : 0 <= i -> 0 <= j ->
  instance_ctx_key (stem +:+ "_") i = instance_ctx_key (stem' +:+ "_") j -> stem = stem' /\ i = j.
Proof.
  intros Hi Hj. unfold instance_ctx_key. rewrite !str_app_assoc. change ("_" +:+ pretty i) with (String "_" (pretty i)). change ("_" +:+ pretty j) with (String "_" (pretty j)). intros E.
  assert (Hno : forall z, 0 <= z -> contains_char "_"%char (pretty z) = false) by (intros z Hz; by apply (str_forall_no_char _ is_ascii_digit), pretty_digits).
  assert (Hp : pretty i = pretty j) by (rewrite <-(rsplit_first_app "_"%char stem (pretty i)) by auto; rewrite E; by rewrite rsplit_first_app by auto).
  split; [|by apply (inj (pretty : Z -> string))]. rewrite Hp in E. by apply cancel_right in E.
Qed.

(** Two keys of the counter are different, whoever minted them, and no fixed key
    is ever minted: an instance reads only what it stored. *)
Theorem minted_keys_apart p q i j : p ∈ key_prefixes -> q ∈ key_prefixes -> 0 <= i -> 0 <= j ->
  (instance_ctx_key p i = instance_ctx_key q j -> p = q /\ i = j) /\ instance_ctx_key p i ∉ fixed_keys.
Proof.
  intros Hp Hq Hi Hj. assert (Hstem : forall p, p ∈ key_prefixes -> exists stem, p = stem +:+ "_").
  { assert (Hall : Forall (fun p => exists stem, p = stem +:+ "_") key_prefixes); [|by rewrite Forall_forall in Hall].
    repeat (constructor; [match goal with |- exists s, ?p = _ => exists (String.substring 0 (String.length p - 1) p); reflexivity end|]). constructor. }
  destruct (Hstem p Hp) as [sp ->], (Hstem q Hq) as [sq ->]. split; [by intros [-> ->]%key_inj|].
  (** A minted key ends in digits after its last underscore; no fixed key does. *)
  intros Hin. assert (Hd : str_forall is_ascii_digit (rsplit_first "_"%char (instance_ctx_key (sp +:+ "_") i)) = true).
  { unfold instance_ctx_key. rewrite str_app_assoc. change ("_" +:+ pretty i) with (String "_" (pretty i)). rewrite rsplit_first_app; [by apply pretty_digits|].
    by apply (str_forall_no_char _ is_ascii_digit), pretty_digits. }
  assert (Hf : Forall (fun k => str_forall is_ascii_digit (rsplit_first "_"%char k) = false) fixed_keys) by (repeat (constructor; [reflexivity|]); constructor).
  rewrite Forall_forall in Hf. rewrite (Hf _ Hin) in Hd. done.
Qed.

Lemma minted_keys_apart_witness : instance_ctx_key "pingsix_grpc_web_request_" 7 <> instance_ctx_key "pingsix_grpc_web_request_text_" 7.
Proof.
  intros E. apply (minted_keys_apart "pingsix_grpc_web_request_" "pingsix_grpc_web_request_text_" 7 7) in E as [E _];
    [discriminate E|by apply list_elem_of_In; cbn; tauto..|lia|lia].
Qed.

(** ** A plugin without keys of its own

    The mirroring plugin keeps its sample and the sender of its task under fixed
    keys.  [o] is the instance; a sender that is replaced is dropped with the
    last handle on its channel. *)

Definition mirror_request_filter (sampled : bool) (vars : Vars) : Vars := ctx_set CTX_KEY_MIRROR (AnyBool sampled) vars.

Definition mirror_upstream_request_filter (o : nat) (build_ok : bool) (st : Vars * World) : Vars * World :=
  let '(vars, w) := st in
  if default false (get_bool CTX_KEY_MIRROR vars) then
    let w' := mirror_step w (Request o true build_ok) in
    if (length (tasks w) <? length (tasks w'))%nat then
      let w' := match get_sender CTX_KEY_MIRROR_SENDER vars with Some old => mirror_step w' (RequestGone old) | None => w' end in
      (ctx_set CTX_KEY_MIRROR_SENDER (AnySender (length (tasks w))) vars, w')
    else (vars, w')
  else (vars, w).

Definition mirror_request_body_filter (body : option string) (end_of_stream : bool) (vars : Vars) (w : World) : World :=
  match get_sender CTX_KEY_MIRROR_SENDER vars with Some i => mirror_step w (Body i body end_of_stream) | None => w end.

(** The layers run one after the other: the global instance, then the route's. *)
Definition layered_body (body : option string) (end_of_stream : bool) (vars : Vars) (w : World) : World :=
  mirror_request_body_filter body end_of_stream vars (mirror_request_body_filter body end_of_stream vars w).

Lemma body_step w i t body end_of_stream : tasks w !! i = Some t -> ended t = false ->
  exists t', tasks (mirror_step w (Body i body end_of_stream)) !! i = Some t' /\ ended t' = false /\
    channel t' = channel_step (channel t) (BodyPhase body end_of_stream).
Proof.
  intros Ht He. cbn [mirror_step]. unfold on_task. rewrite Ht, He. eexists. split; [cbn; apply list_lookup_insert_eq; by eapply lookup_lt_Some|]. by split.
Qed.

Lemma body_queued bytes end_of_stream c : active c = true -> open c = true -> (length (queue c) < MIRROR_QUEUE_CAPACITY)%nat ->
  channel_step c (BodyPhase (Some bytes) end_of_stream) = c <| queue := (queue c ++ [Chunk bytes end_of_stream])%list |>.
Proof. intros Ha Ho Hq. cbn [channel_step request_body_filter mirrored default snd]. unfold try_send. by rewrite Ha, Ho, (proj2 (Nat.leb_gt _ _)). Qed.

(** With an instance in each layer, the task of the one that ran last is sent
    every piece of the body twice. *)
Theorem layered_mirror_doubles vars w i t bytes end_of_stream : get_sender CTX_KEY_MIRROR_SENDER vars = Some i -> tasks w !! i = Some t -> ended t = false ->
  active (channel t) = true -> open (channel t) = true -> (length (queue (channel t)) + 1 < MIRROR_QUEUE_CAPACITY)%nat ->
  exists t', tasks (layered_body (Some bytes) end_of_stream vars w) !! i = Some t' /\
    queue (channel t') = (queue (channel t) ++ [Chunk bytes end_of_stream; Chunk bytes end_of_stream])%list.
Proof.
  intros Hs Ht He Ha Ho Hq. unfold layered_body, mirror_request_body_filter. rewrite Hs.
  destruct (body_step w i t (Some bytes) end_of_stream Ht He) as (t1 & Ht1 & He1 & Hc1). rewrite body_queued in Hc1 by (done || lia).
  destruct (body_step _ i t1 (Some bytes) end_of_stream Ht1 He1) as (t2 & Ht2 & _ & Hc2). exists t2. split; [done|].
  rewrite Hc1, body_queued in Hc2; [|done..|cbn; rewrite length_app; cbn; lia]. rewrite Hc2. cbn. by rewrite <-app_assoc.
Qed.

(** One request of two pieces through a global and a route instance: the global
    one's mirror is dropped for want of a completion, and the route's target
    receives the first piece twice. *)
Definition two_layers : World * World :=
  let w := mirror_run [NewPlugin; NewPlugin] in
  let vars := mirror_request_filter true (mirror_request_filter true None) in
  let '(vars, w) := mirror_upstream_request_filter 1 true (mirror_upstream_request_filter 0 true (vars, w)) in
  let w := layered_body (Some "b") true vars (layered_body (Some "a") false vars w) in
  let answers i := [Await_ i Completed; Await_ i Completed; Await_ i Completed] in
  (w, fold_left mirror_step (answers 0%nat ++ [Received 0] ++ answers 1%nat ++ [Received 1; Await_ 1 Completed; Received 1; Await_ 1 Completed; Received 1; Await_ 1 Completed])%list w).

Example two_layers_corrupt :
  (queue ∘ channel <$> tasks two_layers.1) = [[]; [Chunk "a" false; Chunk "a" false; Chunk "b" true; Chunk "b" true]] /\
  dropped two_layers.2 = ["other"] /\ (received ∘ channel <$> tasks two_layers.2) = [[]; [Chunk "a" false; Chunk "a" false; Chunk "b" true]].
Proof. vm_compute. repeat split. Qed.
